(* ===== verification/_CoqProject ===== *)
-Q . S2P
Prelude.v
Bytes.v
WireHeader.v
WireText.v
WireRequests.v
WireResponses.v
WireDirectory.v
SmbDirectory.v
Errors.v
Metadata.v
Attributes.v
Listing.v
Paths.v
Measure.v
Publication.v
Quota.v
SmbUppercase.v
SmbMetadata.v
SmbNames.v
SmbPattern.v
Identity.v
LockTokens.v
LockState.v
LockAuthority.v
LockInv.v
LockSections.v
LockEvolve.v
LockPublish.v
LockSteps.v
LockRuns.v
LockTheorems.v
LeaseStore.v
LeaseSpecs.v
LeaseProtocol.v
LeaseRecovery.v
LeaseReopen.v
LeaseVolume.v
Ranges.v
SmbConnection.v
SmbWindow.v
SmbFileGate.v
SmbGateInv.v
SmbGateOps.v
SmbGateFence.v
SmbGateTheorems.v
Capabilities.v
Guards.v
Extents.v
AdvisoryState.v
Conflicts.v
Deadlock.v
Coordinator.v
Uses.v
AdvisoryInv.v
AdvisoryEdits.v
AdvisoryOps.v
AdvisorySections.v
AdvisorySteps.v
AdvisoryOnce.v
AdvisoryTheorems.v
AdvisoryCalls.v
AdvisoryContracts.v
