(* ===== verification/Prelude.v ===== *)
(** * remote-fs: a verification development

    remote-fs serves volumes to clients over HTTP, FUSE and SMB.  A volume is a
    [storage.Storage] (packages/storage); wrappers put it under an allowance
    (packages/storage/limited) or under locks; packages/locking grants leases on
    files and admits the publications of a volume under them, and
    packages/metastore/sqlite keeps the longest lease across crashes;
    packages/advisory
    decides range locks, share modes and cancellation for its clients;
    packages/smb speaks SMB2 to Windows clients, with its message codec in
    packages/smb/internal/wire.  This library models the parts that compute:
    their data, every branch of their operations, and how operations of
    different callers interleave.

    ** How Go is modelled

    An integer is a [Z]; operations that may wrap are written with [u64] or
    [i64].  A string or byte slice is a list of bytes, a map a [gmap]; where Go
    leaves the order of a map iteration open, the model uses the order of
    [map_to_list].  Objects shared through pointers live in stores of the model.
    A call is a function into [option]: [None] is a run-time panic or the end of
    the fuel of a loop, and the theorems exclude both.  Errors are the trees of
    [Errors.error]; message texts are left out.  Code between [Lock] and
    [Unlock] is one computation of the monad [comp]; what other callers do
    between two critical sections is a step of a transition system.  A context
    is the sequence of answers of its [Err] method.

    ** Files

    - [Prelude]: machine integers, the monad, finite-map sums, the
      lexicographic order, tactics.  [Bytes]: slices and little-endian fields.
    - [Errors]: packages/storage/errno.go, packages/locking/errors.go and the
      error values of the other packages.
    - [WireHeader], [WireText], [WireRequests], [WireResponses],
      [WireDirectory]: packages/smb/internal/wire, all files.
    - [SmbUppercase], [SmbNames], [SmbPattern]: names.go, name_compare.go,
      name_uppercase_table.go and directory_pattern.go of packages/smb.
      [SmbDirectory]: directory_cursor.go and the part of queryDirectory that
      answers from a captured snapshot.
      [SmbMetadata]: windows_metadata.go, content_metadata.go and the
      conversions of commands_file_info.go.
    - [SmbConnection]: the reader, the credits and the pending requests of
      connection.go as a transition system, and the limits of config.go;
      [SmbWindow]: its invariants and theorems.
    - [SmbFileGate]: the handle table and the work count of file_handles.go and
      the turns of file_io_gate.go; [SmbGateInv], [SmbGateOps], [SmbGateFence]:
      the invariant and its preservation; [SmbGateTheorems]: runs and theorems.
    - [Metadata], [Attributes], [Listing], [Paths]: metadata.go, and the
      attributes, bounded listings and paths of storage.go in packages/storage.
    - [Publication]: packages/storage/publication.go.  [Measure], [Quota]:
      packages/storage/limited.
    - [Identity], [Ranges]: the identities and range commands of
      packages/storage (files.go, ranges.go, capabilities.go).
      [Capabilities]: the commands of capabilities.go and the checks of
      capability_validation.go; [Guards]: what the checks of namespace guards
      and of name commands accept.
    - [LockTokens], [LockState], [LockAuthority]: packages/locking, the
      capabilities, the records and every section of every operation.
      [LockInv], [LockSections], [LockEvolve], [LockPublish]: the invariant and
      its preservation.  [LockSteps]: the calls that release the mutex, as a
      transition system; [LockRuns]: runs that can be evaluated;
      [LockTheorems]: what holds of it.
    - [LeaseStore]: lock_recovery.go and locking_store.go of
      packages/metastore/sqlite with internal/nativelease, on a disk that loses
      what was not synced; [LeaseSpecs]: a calculus for its calls;
      [LeaseProtocol], [LeaseRecovery], [LeaseReopen]: the two-record protocol
      and what survives; [LeaseVolume]: the authority of packages/locking
      running on such a store.
    - [Extents], [AdvisoryState], [Conflicts], [Deadlock], [Coordinator],
      [Uses]: packages/advisory, one definition per Go function, with the bodies
      of critical sections as definitions of their own.  [AdvisoryInv],
      [AdvisoryEdits], [AdvisoryOps], [AdvisorySections]: the invariant and its
      preservation.  [AdvisorySteps], [AdvisoryOnce], [AdvisoryTheorems],
      [AdvisoryCalls], [AdvisoryContracts]: the transition system and what
      holds of it.

    ** What is shown

    - Leases: a token verifies as what it was issued for; two leases on a
      resource are shared ones of different owners; a publication runs alone on
      the resources its targets had when it was admitted, and whatever lease is
      active on them is an exclusive one of its owner; a restarted authority
      admits nothing before the leases of its predecessor have ended; the store
      answers at least every duration it recorded, and opens again, whatever
      failed.  The monotonic clock, the sizes of nonces and codes ([env_ok]) and that no
      nonce is drawn twice ([drawn]) are relied on.
    - Locks: in every reachable state of the coordinator no two owners hold
      conflicting ranges; the counters are exact and within their limits;
      no section panics; every exported call, run without interference, is a
      path of the transition system; a request identity is executed once while
      the clock does not run backwards; the deadlock search answers exactly
      whether the wait graph has a cycle through the candidate; [pump], unless
      it is cancelled, leaves nobody waiting who could be granted and whom no
      gate refused; conflict reports, cancellation,
      retirement, share modes and I/O admission do what they promise.
      [replaceRanges] is compared with its meaning byte by byte.
    - Messages: no bytes make a request parser panic or loop; a frame is split
      into commands that make it up; headers and UTF-16 text survive a round
      trip; responses are found again at the offsets they announce, with the
      package's own readers; directory pages hold the longest prefix of the
      entries that fits, and repeated queries list a snapshot exactly once, or
      refuse it when the metadata they ask for is incomplete.
    - Connections and handles: a message identifier is accepted once and the
      credits add up; a client that waits gets credits; the pending requests
      are those of calls and of the frame at hand, and those of a frame refused
      halfway; the requests on a handle take turns; fences drain; file
      identifiers never pass to another open.
    - Commands: the check of a name command ends and accepts exactly the
      commands whose guards are sound and cover what they name.
    - Names: the path parser accepts exactly the spellings of legal paths; the
      binary search over a projected directory finds the one child of a name;
      the wildcard automaton is equivalent to a declarative relation.
    - Metadata: the envelope is a bijection between bounded maps and accepted
      bytes; times and attributes keep their meaning.
    - Storage: cleaned paths stay in the volume; bounded listings are complete
      or fail; the measuring walk ends with the sum of the sizes exactly when
      its bounds allow; an allowance is never overspent, and nested allowances
      are charged, and settled, together and once.

    ** Fuel and bounds

    The frame loop has the length of the frame as fuel, the deadlock search one
    turn per edge pushed ([search_fuel]), [pump] the [len(waiting)+1] passes of
    the code, the binary search one turn more than the directory has names, the
    measuring walk one turn per directory, the climbs over guards two turns
    more than there are edges, the loops over dialects and contexts one more
    than the length of their data; each is shown to be enough.  Sizes of Go structs are those of a
    64-bit platform.

    ** Not modelled

    Sockets, timers, files and system calls, the handlers, sessions and cleanup
    of packages/smb (connection.go above its request window, the close actions
    of file_handles.go, the capture of directory snapshots), server.go,
    packages/storage/localstore, cmd; the SQL of packages/metastore beside the
    lease records; blob services (packages/storage/objectstore), HTTP and JSON
    (packages/transport), callbacks of the FUSE library (packages/fuse),
    cryptography (packages/smb/internal/signing), and the conformance suites.
    Their code mostly moves bytes between services that are not in the
    repository. *)

From stdpp Require Export base tactics numbers list gmap fin_maps strings sorting sets.
From Stdlib Require Export ZArith Lia.

#[global] Open Scope Z_scope.

(** ** Machine integers

    A Go [uint64] or [int] is a [Z]; arithmetic that may wrap is written with
    [u64].  The literal bounds keep [lia] complete on them. *)

Abbreviation MaxUint64 := 18446744073709551615 (only parsing).
Abbreviation MaxInt64 := 9223372036854775807 (only parsing).

Definition u64 (z : Z) : Z := z mod 18446744073709551616.

Definition is_u64 (z : Z) : Prop := 0 <= z <= MaxUint64.

#[global] Instance is_u64_dec z : Decision (is_u64 z).
Proof. unfold is_u64. apply _. Defined.

Lemma u64_small z : is_u64 z → u64 z = z.
Proof. unfold is_u64, u64. intros. apply Z.mod_small. lia. Qed.

Lemma u64_range z : is_u64 (u64 z).
Proof.
  unfold is_u64, u64.
  pose proof (Z.mod_pos_bound z 18446744073709551616). lia.
Qed.

(** Go's [len]. *)
Definition zlen {A} (l : list A) : Z := Z.of_nat (length l).

Lemma zlen_nonneg {A} (l : list A) : 0 <= zlen l.
Proof. unfold zlen. lia. Qed.

Lemma zlen_nil {A} : zlen (@nil A) = 0.
Proof. done. Qed.

Lemma zlen_cons {A} (x : A) l : zlen (x :: l) = 1 + zlen l.
Proof. unfold zlen. simpl. lia. Qed.

Lemma zlen_app {A} (l1 l2 : list A) : zlen (l1 ++ l2) = zlen l1 + zlen l2.
Proof. unfold zlen. rewrite length_app. lia. Qed.

Lemma zlen_replicate {A} n (x : A) : zlen (replicate n x) = Z.of_nat n.
Proof. unfold zlen. by rewrite length_replicate. Qed.

(** ** Computations that may panic

    [comp S A] is a Go call that runs with exclusive access to a store [S]
    (the code between [Lock] and [Unlock]): [None] is a run-time panic (nil
    dereference, index out of range). *)

Definition comp (S A : Type) : Type := S → option (A * S).

Definition ret {S A} (a : A) : comp S A := λ s, Some (a, s).
Definition bind {S A B} (m : comp S A) (k : A → comp S B) : comp S B :=
  λ s, match m s with Some (a, s') => k a s' | None => None end.
Definition gets {S A} (f : S → A) : comp S A := λ s, Some (f s, s).
Definition modify {S} (f : S → S) : comp S unit := λ s, Some (tt, f s).
Definition panic {S A} : comp S A := λ _, None.
(** A pointer or index use: panics when the value is absent. *)
Definition deref {S A} (o : S → option A) : comp S A :=
  λ s, match o s with Some a => Some (a, s) | None => None end.

Declare Scope comp_scope.
Delimit Scope comp_scope with comp.
Notation "'let!' x := m 'in' k" := (bind m (λ x, k))
  (at level 10, x name, m at level 100, k at level 200,
   format "'[v' 'let!'  x  :=  m  'in'  '/' k ']'") : comp_scope.
Notation "'do!' m 'in' k" := (bind m (λ _, k))
  (at level 10, m at level 100, k at level 200,
   format "'[v' 'do!'  m  'in'  '/' k ']'") : comp_scope.
#[global] Open Scope comp_scope.

(** Run a computation over each element, in order. *)
Fixpoint iter {S A} (f : A → comp S unit) (l : list A) : comp S unit :=
  match l with
  | [] => ret tt
  | x :: l => do! f x in iter f l
  end.

Section loops.
Context {S : Type}.

(** A loop whose turns keep [I] and move the state along [R]. *)
Lemma iter_rel {A} (f : A → comp S unit) (I : S → Prop) (R : S → S → Prop)
    `{!Reflexive R, !Transitive R} (l : list A) :
  (∀ x s, x ∈ l → I s → ∃ s', f x s = Some (tt, s') ∧ I s' ∧ R s s') →
  ∀ s, I s → ∃ s', iter f l s = Some (tt, s') ∧ I s' ∧ R s s'.
Proof.
  induction l as [|x l IH]; intros Hf s Hs; simpl.
  - exists s. split; [reflexivity|]. split; [done|reflexivity].
  - destruct (Hf x s) as (s1 & E1 & H1 & R1); [set_solver|done|].
    destruct (IH (λ y s Hy, Hf y s (list_elem_of_further _ _ _ Hy)) s1 H1) as (s2 & E2 & H2 & R2).
    exists s2. unfold bind. rewrite E1. split; [done|]. split; [done|by etrans].
Qed.
End loops.

(** ** Errors in sequence

    [e1 ;? e2] is Go's [if err := e1; err != nil { return err }; e2]. *)

Definition orelse {E : Type} (a b : option E) : option E :=
  match a with Some e => Some e | None => b end.
Notation "a ;? b" := (orelse a b) (at level 90, right associativity) : comp_scope.
Lemma orelse_None {E} (a b : option E) : (a ;? b) = None ↔ a = None ∧ b = None.
Proof. destruct a; simpl; naive_solver. Qed.

(** ** Tactics *)

(** Case analysis on the scrutinees of a goal or of a hypothesis. *)
Ltac split_match :=
  match goal with
  | |- context [match ?x with _ => _ end] => destruct x eqn:?
  | H : context [match ?x with _ => _ end] |- _ => destruct x eqn:?
  end.

(** Boolean tests of the code to propositions. *)
Ltac bool_prop :=
  repeat match goal with
  | H : _ && _ = true |- _ => apply andb_true_iff in H; destruct H
  | H : _ || _ = false |- _ => apply orb_false_iff in H; destruct H
  | H : _ || _ = true |- _ => apply orb_true_iff in H
  | H : _ && _ = false |- _ => apply andb_false_iff in H
  | H : negb _ = true |- _ => apply negb_true_iff in H
  | H : negb _ = false |- _ => apply negb_false_iff in H
  | H : (_ =? _) = true |- _ => apply Z.eqb_eq in H
  | H : (_ =? _) = false |- _ => apply Z.eqb_neq in H
  | H : (_ <? _) = true |- _ => apply Z.ltb_lt in H
  | H : (_ <? _) = false |- _ => apply Z.ltb_ge in H
  | H : (_ <=? _) = true |- _ => apply Z.leb_le in H
  | H : (_ <=? _) = false |- _ => apply Z.leb_gt in H
  | H : bool_decide _ = true |- _ => apply bool_decide_eq_true in H
  | H : bool_decide _ = false |- _ => apply bool_decide_eq_false in H
  end.

(** ** Finite maps *)

Lemma alter_Some `{Countable K} {A} (f : A → A) (m : gmap K A) k x :
  m !! k = Some x → alter f k m = <[k := f x]> m.
Proof.
  intros Hk. apply map_eq. intros i. destruct (decide (i = k)) as [->|Hne].
  - by rewrite lookup_insert_eq, lookup_alter_eq, Hk.
  - by rewrite lookup_insert_ne, lookup_alter_ne by done.
Qed.

(** Sums over finite maps. *)

Section msum.
Context {K A : Type} `{Countable K}.
Implicit Types (f g : K → A → Z) (m : gmap K A).

Definition msum f m : Z := map_fold (λ k a n, f k a + n) 0 m.

Lemma msum_empty f : msum f ∅ = 0.
Proof. apply map_fold_empty. Qed.

Lemma msum_insert f m k a : m !! k = None → msum f (<[k := a]> m) = f k a + msum f m.
Proof.
  intros Hk. unfold msum. rewrite (map_fold_insert_L _ _ _ _ _); [done|intros; lia|done].
Qed.

Lemma msum_delete f m k a : m !! k = Some a → msum f m = f k a + msum f (delete k m).
Proof.
  intros Hk. rewrite <- (insert_delete_id m k a) at 1 by done.
  apply msum_insert, lookup_delete_eq.
Qed.

Lemma msum_insert_Some f m k a b :
  m !! k = Some a → msum f (<[k := b]> m) = msum f m - f k a + f k b.
Proof.
  intros Hk. rewrite (msum_delete f m k a) by done. rewrite <- insert_delete_eq.
  rewrite msum_insert by apply lookup_delete_eq. lia.
Qed.

Lemma msum_alter f m k a (h : A → A) :
  m !! k = Some a → msum f (alter h k m) = msum f m - f k a + f k (h a).
Proof.
  intros Hk. rewrite (alter_Some h m k a) by done. by apply msum_insert_Some.
Qed.

Lemma msum_ext f g m :
  (∀ k a, m !! k = Some a → f k a = g k a) → msum f m = msum g m.
Proof.
  induction m as [|k a m Hk IH] using map_ind; intros Hfg; [by rewrite !msum_empty|].
  rewrite !msum_insert by done. rewrite IH, (Hfg k a); [done|apply lookup_insert_eq|].
  intros k' a' Hk'. apply Hfg. rewrite lookup_insert_ne; [done|congruence].
Qed.

Lemma msum_nonneg f m : (∀ k a, m !! k = Some a → 0 <= f k a) → 0 <= msum f m.
Proof.
  induction m as [|k a m Hk IH] using map_ind; intros Hf; [by rewrite msum_empty|].
  rewrite msum_insert by done. assert (0 <= f k a) by apply Hf, lookup_insert_eq.
  assert (0 <= msum f m); [|lia]. apply IH. intros k' a' Hk'. apply Hf.
  rewrite lookup_insert_ne; [done|congruence].
Qed.

Lemma msum_zero f m : (∀ k a, m !! k = Some a → f k a = 0) → msum f m = 0.
Proof.
  intros Hf. rewrite (msum_ext f (λ _ _, 0)) by done.
  induction m as [|k a m Hk IH] using map_ind; [by rewrite msum_empty|].
  rewrite msum_insert by done. rewrite IH; [done|].
  intros k' a' Hk'. apply Hf. rewrite lookup_insert_ne; [done|congruence].
Qed.

Lemma msum_filter f m (P : K * A → Prop) `{∀ x, Decision (P x)} :
  msum f m = msum f (filter P m) + msum f (filter (λ x, ¬ P x) m).
Proof.
  induction m as [|k a m Hk IH] using map_ind; [by rewrite !map_filter_empty, msum_empty|].
  rewrite msum_insert by done. destruct (decide (P (k, a))) as [HP|HP].
  - rewrite (map_filter_insert_True P), (map_filter_insert_False (λ x, ¬ P x)) by tauto.
    rewrite delete_id by done. rewrite msum_insert; [lia|].
    apply map_lookup_filter_None. by left.
  - rewrite (map_filter_insert_False P), (map_filter_insert_True (λ x, ¬ P x)) by tauto.
    rewrite delete_id by done. rewrite msum_insert; [lia|].
    apply map_lookup_filter_None. by left.
Qed.

Lemma msum_lookup_le f m k a :
  (∀ k a, m !! k = Some a → 0 <= f k a) → m !! k = Some a → f k a <= msum f m.
Proof.
  intros Hf Hk. rewrite (msum_delete f m k a) by done.
  assert (0 <= msum f (delete k m)); [|lia]. apply msum_nonneg.
  intros k' a' [_ Hk']%lookup_delete_Some. by apply Hf.
Qed.
End msum.

(** ** The lexicographic order of byte and unit strings *)

Fixpoint lex (a b : list Z) : comparison :=
  match a, b with
  | [], [] => Eq
  | [], _ :: _ => Lt
  | _ :: _, [] => Gt
  | x :: a, y :: b => match x ?= y with Eq => lex a b | o => o end
  end.

Lemma lex_eq a : ∀ b, lex a b = Eq ↔ a = b.
Proof.
  induction a as [|x a IH]; intros [|y b]; cbn; try done.
  destruct (Z.compare_spec x y) as [->|H|H]; rewrite ?IH; split; try congruence; intros [= -> ->]; lia.
Qed.

Lemma lex_flip a : ∀ b, lex b a = CompOpp (lex a b).
Proof.
  induction a as [|x a IH]; intros [|y b]; cbn; try done.
  rewrite (Z.compare_antisym x y). destruct (x ?= y); cbn; [apply IH|done..].
Qed.

Lemma lex_trans a : ∀ b c, lex a b = Lt → lex b c = Lt → lex a c = Lt.
Proof.
  induction a as [|x a IH]; intros [|y b] [|z c]; cbn; try done.
  destruct (Z.compare_spec x y), (Z.compare_spec y z), (Z.compare_spec x z);
    try done; try lia; subst; try lia. by apply IH.
Qed.

Definition lex_le (a b : list Z) : Prop := lex a b ≠ Gt.

#[global] Instance lex_le_dec : RelDecision lex_le.
Proof. intros a b. unfold lex_le. destruct (lex a b); [left|left|right]; congruence. Defined.

#[global] Instance lex_le_trans : Transitive lex_le.
Proof.
  intros a b c. unfold lex_le. destruct (lex a b) eqn:E1; [..|done].
  - apply lex_eq in E1. by subst.
  - intros _. destruct (lex b c) eqn:E2; [..|done].
    + apply lex_eq in E2. subst. congruence.
    + by rewrite (lex_trans _ _ _ E1 E2).
Qed.

#[global] Instance lex_le_total : Total lex_le.
Proof. intros a b. unfold lex_le. rewrite (lex_flip a b). destruct (lex a b); cbn; auto. Qed.

#[global] Instance lex_le_antisymm : AntiSymm (=) lex_le.
Proof.
  intros a b. unfold lex_le. rewrite (lex_flip a b). intros H1 H2. apply lex_eq.
  destruct (lex a b); cbn in *; congruence.
Qed.
