(* ===== verification/Bytes.v ===== *)
(** * Byte slices and little-endian integers

    What the SMB codec uses of Go's slices and of [encoding/binary]: bounds-
    checked slicing and indexing, [binary.LittleEndian], [copy] and stores into a
    buffer.  A byte is a [Z] from 0 to 255.  Every access is checked against the
    length of the slice, which is stricter than Go's check of a slice expression
    against the capacity: code that never panics here reads only its own bytes. *)

From S2P Require Import Prelude.

(** ** Calls that panic or fail

    [W A]: [None] is a panic, [Some ErrMalformed] the package's only error. *)

Inductive parsed (A : Type) := Parsed (a : A) | ErrMalformed.
Arguments Parsed {A} a.
Arguments ErrMalformed {A}.

Definition W (A : Type) : Type := option (parsed A).

Definition wret {A} (a : A) : W A := Some (Parsed a).
Definition malformed {A} : W A := Some ErrMalformed.
Definition wbind {A B} (m : W A) (k : A → W B) : W B :=
  match m with
  | Some (Parsed a) => k a
  | Some ErrMalformed => Some ErrMalformed
  | None => None
  end.

(** [let* x := m in k]: an error of [m] is returned.  [let% x := o in k]: a value
    whose absence is a panic. *)
Declare Scope wire_scope.
Notation "'let*' x := m 'in' k" := (wbind m (λ x, k))
  (at level 10, x name, m at level 100, k at level 200,
   format "'[v' 'let*'  x  :=  m  'in'  '/' k ']'") : wire_scope.
Notation "'let%' x := o 'in' k" := (@mbind option _ _ _ (λ x, k) o)
  (at level 10, x name, o at level 100, k at level 200,
   format "'[v' 'let%'  x  :=  o  'in'  '/' k ']'") : wire_scope.
#[global] Open Scope wire_scope.

(** ** Slices *)

Definition is_byte (z : Z) : Prop := 0 <= z < 256.

Abbreviation bytes b := (Forall is_byte b).

(** [b[i]] *)
Definition index (b : list Z) (i : Z) : option Z :=
  if 0 <=? i then b !! Z.to_nat i else None.

(** [b[lo:hi]] *)
Definition slice {A} (b : list A) (lo hi : Z) : option (list A) :=
  if (0 <=? lo) && (lo <=? hi) && (hi <=? zlen b)
  then Some (take (Z.to_nat (hi - lo)) (drop (Z.to_nat lo) b)) else None.

(** A buffer whose bytes from [lo] on are overwritten: its length never changes. *)
Definition store (lo : Z) (bs b : list Z) : list Z :=
  imap (λ i old, default old (index bs (Z.of_nat i - lo))) b.

(** [b[lo] = v] *)
Definition set_byte (lo v : Z) (b : list Z) : option (list Z) :=
  if (0 <=? lo) && (lo <? zlen b) then Some (store lo [v] b) else None.

(** [copy(b[lo:hi], src)] *)
Definition copy_to (lo hi : Z) (src b : list Z) : option (list Z) :=
  if (0 <=? lo) && (lo <=? hi) && (hi <=? zlen b)
  then Some (store lo (take (Z.to_nat (hi - lo)) src) b) else None.

(** ** Little-endian integers *)

Fixpoint le_combine (bs : list Z) : Z :=
  match bs with
  | [] => 0
  | b :: bs => b + 256 * le_combine bs
  end.

Fixpoint le_split (w : nat) (v : Z) : list Z :=
  match w with
  | O => []
  | S w => v mod 256 :: le_split w (v / 256)
  end.

(** [le.Uint16], [le.Uint32], [le.Uint64] of the bytes at [lo]. *)
Definition le_get (w : nat) (b : list Z) (lo : Z) : option Z :=
  le_combine <$> slice b lo (lo + Z.of_nat w).

Definition Uint16 := le_get 2.
Definition Uint32 := le_get 4.
Definition Uint64 := le_get 8.

(** [le.PutUint16(b[lo:lo+2], v)] and the wider ones. *)
Definition le_put (w : nat) (lo v : Z) (b : list Z) : option (list Z) :=
  if (0 <=? lo) && (lo + Z.of_nat w <=? zlen b) then Some (store lo (le_split w v) b) else None.

Definition PutUint16 := le_put 2.
Definition PutUint32 := le_put 4.
Definition PutUint64 := le_put 8.

(** [uint64(v)] of an [int64] and back; [i64] wraps an [int64] operation. *)
Definition to_int64 (v : Z) : Z := if v <=? MaxInt64 then v else v - 18446744073709551616.
Definition i64 (v : Z) : Z := to_int64 (v mod 18446744073709551616).
Definition is_int64 (v : Z) : Prop := -9223372036854775808 <= v <= MaxInt64.

(** Round up to a multiple of eight: [(value + 7) &^ 7]. *)
Definition align8 (value : Z) : Z := Z.ldiff (value + 7) 7.

(** Any buffer of zeros: [make([]byte, n)]. *)
Definition make (n : Z) : list Z := replicate (Z.to_nat n) 0.

(** ** Lemmas on slices *)

Lemma slice_Some {A} (b : list A) lo hi :
  0 <= lo → lo <= hi → hi <= zlen b →
  slice b lo hi = Some (take (Z.to_nat (hi - lo)) (drop (Z.to_nat lo) b)).
Proof.
  intros. unfold slice. rewrite (proj2 (Z.leb_le 0 lo)), (proj2 (Z.leb_le lo hi)),
    (proj2 (Z.leb_le hi (zlen b))) by lia. done.
Qed.

Lemma slice_inv {A} (b s : list A) lo hi :
  slice b lo hi = Some s →
  0 <= lo ∧ lo <= hi ∧ hi <= zlen b ∧ zlen s = hi - lo
  ∧ s = take (Z.to_nat (hi - lo)) (drop (Z.to_nat lo) b).
Proof.
  unfold slice. destruct (_ && _) eqn:E; [|done]. intros [= <-]. bool_prop.
  split_and!; try done. unfold zlen in *. rewrite length_take, length_drop. lia.
Qed.

Lemma slice_is_Some {A} (b : list A) lo hi :
  0 <= lo → lo <= hi → hi <= zlen b → ∃ s, slice b lo hi = Some s ∧ zlen s = hi - lo.
Proof.
  intros H1 H2 H3. rewrite slice_Some by done. eexists. split; [done|].
  unfold zlen in *. rewrite length_take, length_drop. lia.
Qed.

Lemma slice_all {A} (b : list A) : slice b 0 (zlen b) = Some b.
Proof.
  rewrite slice_Some by (unfold zlen; lia). rewrite drop_0, take_ge; [done|]. unfold zlen. lia.
Qed.

Lemma take_zlen {A} (l : list A) n : zlen l <= n → take (Z.to_nat n) l = l.
Proof. intros. apply take_ge. unfold zlen in *. lia. Qed.

(** The parts of a concatenation. *)
Lemma slice_app_l {A} (l1 l2 : list A) lo hi :
  hi <= zlen l1 → slice (l1 ++ l2) lo hi = slice l1 lo hi.
Proof.
  intros H. unfold slice. rewrite zlen_app. pose proof (zlen_nonneg l2).
  destruct (0 <=? lo) eqn:E1; simpl; [|done]. destruct (lo <=? hi) eqn:E2; simpl; [|done].
  rewrite (proj2 (Z.leb_le hi (zlen l1))), (proj2 (Z.leb_le hi (zlen l1 + zlen l2))) by lia.
  bool_prop. f_equal. unfold zlen in *. rewrite drop_app_le by lia. rewrite take_app_le; [done|].
  rewrite length_drop. lia.
Qed.

Lemma slice_app_r {A} (l1 l2 : list A) lo hi :
  zlen l1 <= lo → slice (l1 ++ l2) lo hi = slice l2 (lo - zlen l1) (hi - zlen l1).
Proof.
  intros H. unfold slice. rewrite zlen_app. pose proof (zlen_nonneg l1).
  rewrite (proj2 (Z.leb_le 0 lo)), (proj2 (Z.leb_le 0 (lo - zlen l1))) by lia. simpl.
  assert ((lo <=? hi) = (lo - zlen l1 <=? hi - zlen l1)) as ->
    by (apply eq_true_iff_eq; rewrite !Z.leb_le; lia).
  assert ((hi <=? zlen l1 + zlen l2) = (hi - zlen l1 <=? zlen l2)) as ->
    by (apply eq_true_iff_eq; rewrite !Z.leb_le; lia).
  destruct (_ && _); [|done]. f_equal. unfold zlen in *. rewrite drop_app_ge by lia.
  f_equal; [lia|f_equal; lia].
Qed.

(** A slice of a slice. *)
Lemma slice_slice {A} (b s : list A) lo hi lo' hi' :
  slice b lo hi = Some s → 0 <= lo' → hi' <= hi - lo →
  slice s lo' hi' = slice b (lo + lo') (lo + hi').
Proof.
  intros (H1 & H2 & H3 & Hl & ->)%slice_inv H4 H5. unfold slice. rewrite Hl.
  rewrite (proj2 (Z.leb_le 0 lo')), (proj2 (Z.leb_le 0 (lo + lo'))) by lia.
  rewrite (proj2 (Z.leb_le hi' (hi - lo))), (proj2 (Z.leb_le (lo + hi') (zlen b))) by lia.
  assert ((lo' <=? hi') = (lo + lo' <=? lo + hi')) as ->
    by (apply eq_true_iff_eq; rewrite !Z.leb_le; lia).
  rewrite !andb_true_r. simpl. destruct (lo + lo' <=? lo + hi') eqn:E2; [|done]. f_equal. bool_prop.
  apply list_eq. intros i. destruct (decide (i < Z.to_nat (hi' - lo'))%nat) as [Hi|Hi].
  - rewrite !lookup_take_lt by lia. rewrite lookup_drop, lookup_take_lt by lia.
    rewrite !lookup_drop. f_equal. lia.
  - rewrite !lookup_take_ge by lia. done.
Qed.

(** ** Lemmas on stores *)

Lemma zlen_store lo bs b : zlen (store lo bs b) = zlen b.
Proof. unfold store, zlen. by rewrite length_imap. Qed.

Lemma zlen_make n : 0 <= n → zlen (make n) = n.
Proof. intros. unfold make. rewrite zlen_replicate. lia. Qed.

Lemma store_lookup lo bs b i :
  store lo bs b !! i =
    if decide (lo <= Z.of_nat i < lo + zlen bs) then old ← b !! i; index bs (Z.of_nat i - lo)
    else b !! i.
Proof.
  unfold store, index. rewrite list_lookup_imap. destruct (decide _) as [Hi|Hi].
  - rewrite (proj2 (Z.leb_le _ _)) by lia. destruct (b !! i); simpl; [|done].
    destruct (lookup_lt_is_Some_2 bs (Z.to_nat (Z.of_nat i - lo))) as [x ->]; [unfold zlen in *; lia|done].
  - destruct (0 <=? Z.of_nat i - lo) eqn:E; simpl; [|by rewrite option_fmap_id].
    bool_prop. rewrite lookup_ge_None_2 by (unfold zlen in *; lia). simpl. apply option_fmap_id.
Qed.

Lemma slice_lookup {A} (b s : list A) lo hi i :
  slice b lo hi = Some s →
  s !! i = if decide (Z.of_nat i < hi - lo) then b !! (Z.to_nat lo + i)%nat else None.
Proof.
  intros (H1 & H2 & H3 & Hl & ->)%slice_inv. destruct (decide _).
  - rewrite lookup_take_lt by lia. apply lookup_drop.
  - apply lookup_take_ge. lia.
Qed.

(** What was stored is read back; what lies elsewhere is untouched. *)
Lemma slice_store_same lo bs b :
  0 <= lo → lo + zlen bs <= zlen b → slice (store lo bs b) lo (lo + zlen bs) = Some bs.
Proof.
  intros H1 H2. pose proof (zlen_nonneg bs).
  destruct (slice_is_Some (store lo bs b) lo (lo + zlen bs)) as (s & Hs & Hl);
    [lia|lia|rewrite zlen_store; lia|].
  rewrite Hs. f_equal. apply list_eq. intros i. rewrite (slice_lookup _ _ _ _ i Hs).
  destruct (decide _).
  - rewrite store_lookup, decide_True by lia.
    destruct (lookup_lt_is_Some_2 b (Z.to_nat lo + i)) as [x ->]; [unfold zlen in *; lia|].
    simpl. unfold index. rewrite (proj2 (Z.leb_le _ _)) by lia. f_equal. lia.
  - symmetry. apply lookup_ge_None. unfold zlen in *. lia.
Qed.

Lemma slice_store_other lo bs b lo' hi' :
  hi' <= lo ∨ lo + zlen bs <= lo' → slice (store lo bs b) lo' hi' = slice b lo' hi'.
Proof.
  intros H3. unfold slice at 2. destruct (_ && _) eqn:E.
  - bool_prop. destruct (slice_is_Some (store lo bs b) lo' hi') as (s & Hs & Hl);
      [lia|lia|rewrite zlen_store; lia|].
    rewrite Hs. f_equal. apply list_eq. intros i. rewrite (slice_lookup _ _ _ _ i Hs).
    destruct (decide _).
    + rewrite lookup_take_lt, lookup_drop by lia. by rewrite store_lookup, decide_False by lia.
    + symmetry. apply lookup_take_ge. lia.
  - unfold slice. rewrite zlen_store. by rewrite E.
Qed.

(** Two buffers of one length with the same pieces. *)
Lemma buffers_eq (a b : list Z) n :
  zlen a = zlen b → 0 <= n <= zlen a → slice a 0 n = slice b 0 n →
  slice a n (zlen a) = slice b n (zlen b) → a = b.
Proof.
  intros Hl Hn. rewrite !slice_Some by lia. rewrite !drop_0. intros [= H1] [= H2].
  rewrite <- (take_drop (Z.to_nat n) a), <- (take_drop (Z.to_nat n) b).
  rewrite !take_ge in H2 by (rewrite length_drop; unfold zlen in *; lia).
  rewrite Z.sub_0_r in H1. by rewrite H1, H2.
Qed.

(** ** Lemmas on integers *)

Lemma length_le_split w v : length (le_split w v) = w.
Proof. revert v. induction w; intros v; simpl; auto. Qed.

Lemma zlen_le_split w v : zlen (le_split w v) = Z.of_nat w.
Proof. unfold zlen. by rewrite length_le_split. Qed.

Lemma le_combine_split w v : le_combine (le_split w v) = v mod 256 ^ Z.of_nat w.
Proof.
  revert v. induction w as [|w IH]; intros v; cbn [le_combine le_split].
  - by rewrite Z.mod_1_r.
  - rewrite IH, Nat2Z.inj_succ, Z.pow_succ_r by lia.
    rewrite Z.rem_mul_r by lia. done.
Qed.

Lemma le_split_combine bs : bytes bs → le_split (length bs) (le_combine bs) = bs.
Proof.
  induction 1 as [|b bs Hb _ IH]; [done|]. cbn [length le_split le_combine]. unfold is_byte in Hb.
  rewrite Z.mul_comm, Z.mod_add, Z.div_add by lia. rewrite Z.mod_small, Z.div_small by lia.
  by rewrite Z.add_0_l, IH.
Qed.

Lemma le_split_bytes w v : bytes (le_split w v).
Proof.
  revert v. induction w as [|w IH]; intros v; simpl; constructor; [|apply IH].
  unfold is_byte. apply Z.mod_pos_bound. lia.
Qed.

Lemma le_combine_bound bs : bytes bs → 0 <= le_combine bs < 256 ^ zlen bs.
Proof.
  induction 1 as [|b bs Hb _ IH]; [done|]. cbn [le_combine]. unfold is_byte in Hb.
  rewrite zlen_cons, Z.add_comm, Z.pow_add_r by (pose proof (zlen_nonneg bs); lia). lia.
Qed.

Lemma bytes_slice b lo hi s : bytes b → slice b lo hi = Some s → bytes s.
Proof. intros Hb (_ & _ & _ & _ & ->)%slice_inv. by apply Forall_take, Forall_drop. Qed.

Lemma bytes_store lo bs b : bytes bs → bytes b → bytes (store lo bs b).
Proof.
  intros H1 H2. apply Forall_lookup_2. intros i x. rewrite store_lookup. destruct (decide _).
  - destruct (b !! i); simpl; [|done]. unfold index. destruct (_ <=? _); [|done].
    by apply Forall_lookup_1.
  - by apply Forall_lookup_1.
Qed.

Lemma bytes_make n : bytes (make n).
Proof. apply Forall_replicate. unfold is_byte. lia. Qed.

Lemma le_get_inv w b lo v :
  le_get w b lo = Some v →
  0 <= lo ∧ lo + Z.of_nat w <= zlen b
  ∧ ∃ s, slice b lo (lo + Z.of_nat w) = Some s ∧ v = le_combine s ∧ zlen s = Z.of_nat w.
Proof.
  unfold le_get. destruct (slice _ _ _) as [s|] eqn:E; [|done]. intros [= <-].
  pose proof E as (? & ? & ? & ? & _)%slice_inv. split_and!; try lia. exists s. split_and!; [done..|lia].
Qed.

Lemma le_get_is_Some w b lo :
  0 <= lo → lo + Z.of_nat w <= zlen b →
  ∃ v, le_get w b lo = Some v ∧ (bytes b → 0 <= v < 256 ^ Z.of_nat w).
Proof.
  intros H1 H2. unfold le_get.
  destruct (slice_is_Some b lo (lo + Z.of_nat w)) as (s & Hs & Hl); [lia..|]. rewrite Hs.
  eexists. split; [reflexivity|]. intros Hb. replace (Z.of_nat w) with (zlen s) by lia.
  apply le_combine_bound. by eapply bytes_slice.
Qed.

Lemma le_put_ok w lo v b :
  0 <= lo → lo + Z.of_nat w <= zlen b → le_put w lo v b = Some (store lo (le_split w v) b).
Proof.
  intros. unfold le_put.
  by rewrite (proj2 (Z.leb_le 0 lo)), (proj2 (Z.leb_le (lo + Z.of_nat w) (zlen b))) by lia.
Qed.

Lemma copy_to_ok lo hi src b :
  0 <= lo → lo <= hi → hi <= zlen b →
  copy_to lo hi src b = Some (store lo (take (Z.to_nat (hi - lo)) src) b).
Proof.
  intros. unfold copy_to. by rewrite (proj2 (Z.leb_le 0 lo)), (proj2 (Z.leb_le lo hi)),
    (proj2 (Z.leb_le hi (zlen b))) by lia.
Qed.

Lemma set_byte_ok lo v b : 0 <= lo → lo < zlen b → set_byte lo v b = Some (store lo [v] b).
Proof.
  intros. unfold set_byte. by rewrite (proj2 (Z.leb_le 0 lo)), (proj2 (Z.ltb_lt lo (zlen b))) by lia.
Qed.

Lemma le_get_store_same w lo v b :
  0 <= lo → lo + Z.of_nat w <= zlen b →
  le_get w (store lo (le_split w v) b) lo = Some (v mod 256 ^ Z.of_nat w).
Proof.
  intros. unfold le_get. pose proof (slice_store_same lo (le_split w v) b) as E.
  rewrite zlen_le_split in E. rewrite E by lia. simpl. by rewrite le_combine_split.
Qed.

Lemma le_get_store_other w lo bs b lo' :
  lo' + Z.of_nat w <= lo ∨ lo + zlen bs <= lo' →
  le_get w (store lo bs b) lo' = le_get w b lo'.
Proof. intros. unfold le_get. by rewrite slice_store_other by lia. Qed.

Lemma le_get_app_l w b1 b2 lo :
  lo + Z.of_nat w <= zlen b1 → le_get w (b1 ++ b2) lo = le_get w b1 lo.
Proof. intros. unfold le_get. by rewrite slice_app_l. Qed.

Lemma le_get_app_r w b1 b2 lo :
  zlen b1 <= lo → le_get w (b1 ++ b2) lo = le_get w b2 (lo - zlen b1).
Proof.
  intros. unfold le_get. rewrite slice_app_r by done. do 2 f_equal. lia.
Qed.

Lemma index_is_Some b i : 0 <= i → i < zlen b → ∃ v, index b i = Some v ∧ (bytes b → is_byte v).
Proof.
  intros H1 H2. unfold index. rewrite (proj2 (Z.leb_le 0 i)) by lia. unfold zlen in H2.
  destruct (lookup_lt_is_Some_2 b (Z.to_nat i)) as [v Hv]; [lia|]. exists v. split; [done|].
  intros Hb. by eapply Forall_lookup_1.
Qed.

Lemma align8_spec v : 0 <= v → v <= align8 v < v + 8 ∧ align8 v mod 8 = 0.
Proof.
  intros Hv. assert (align8 v = 8 * ((v + 7) / 8)) as ->.
  { unfold align8. replace (Z.ldiff (v + 7) 7) with (Z.ldiff (v + 7) (Z.ones 3)) by done.
    rewrite Z.ldiff_ones_r, Z.shiftr_div_pow2, Z.shiftl_mul_pow2 by lia.
    change (2 ^ 3) with 8. apply Z.mul_comm. }
  pose proof (Z.div_mod (v + 7) 8). pose proof (Z.mod_pos_bound (v + 7) 8).
  split; [lia|]. rewrite Z.mul_comm. apply Z_mod_mult.
Qed.

Lemma land_7 v : Z.land v 7 = v mod 8.
Proof. change 7 with (Z.ones 3). rewrite Z.land_ones by lia. done. Qed.

Lemma land_1 v : Z.land v 1 = v mod 2.
Proof. change 1 with (Z.ones 1). rewrite Z.land_ones by lia. done. Qed.

Lemma to_int64_mod v : is_int64 v → to_int64 (v mod 18446744073709551616) = v.
Proof.
  unfold is_int64, to_int64. intros H. destruct (decide (0 <= v)).
  - rewrite Z.mod_small by lia. by rewrite (proj2 (Z.leb_le _ _)) by lia.
  - rewrite <- (Z.mod_add v 1) by lia. rewrite Z.mod_small by lia.
    rewrite (proj2 (Z.leb_gt _ _)) by lia. lia.
Qed.

(** ** Automation

    Reads of a buffer that was built by stores are rewritten to what was stored;
    the side conditions are arithmetic. *)

Create HintDb wire.
#[export] Hint Rewrite @zlen_nil @zlen_cons @zlen_app @zlen_replicate zlen_le_split zlen_store : wire.
#[export] Hint Rewrite zlen_make using lia : wire.
#[export] Hint Resolve bytes_make le_split_bytes bytes_store bytes_slice : wire.

(** A side condition about lengths. *)
Ltac len := autorewrite with wire; lia.

(** Run the next store of a body. *)
Ltac put_step :=
  unfold PutUint16, PutUint32, PutUint64; cbn [mbind option_bind];
  match goal with
  | |- context [le_put ?w ?lo ?v ?b] => rewrite (le_put_ok w lo v b) by len
  | |- context [copy_to ?lo ?hi ?s ?b] => rewrite (copy_to_ok lo hi s b) by len
  | |- context [set_byte ?lo ?v ?b] => rewrite (set_byte_ok lo v b) by len
  end; cbn [mbind option_bind].

(** Read past the stores that do not concern the field. *)
Ltac get_step :=
  unfold Uint16, Uint32, Uint64;
  match goal with
  | |- context [le_get ?w (store ?lo (le_split ?w ?v) ?b) ?lo] =>
      rewrite (le_get_store_same w lo v b) by len
  | |- context [le_get ?w (store ?lo ?bs ?b) ?lo'] =>
      rewrite (le_get_store_other w lo bs b lo') by len
  | |- context [slice (store ?lo ?bs ?b) ?lo' ?hi'] =>
      rewrite (slice_store_other lo bs b lo' hi') by len
  end.

(** Name the value of the next read, which is within bounds. *)
Ltac read_step :=
  unfold Uint16, Uint32, Uint64; cbn [mbind option_bind];
  match goal with
  | |- context [le_get ?w ?b ?lo] =>
      let v := fresh "v" in let Hv := fresh "Hv" in let E := fresh "E" in
      destruct (le_get_is_Some w b lo) as (v & E & Hv); [len|len|]; rewrite E
  | |- context [slice ?b ?lo ?hi] =>
      let s := fresh "s" in let Hs := fresh "Hs" in let E := fresh "E" in
      destruct (slice_is_Some b lo hi) as (s & E & Hs); [len|len|len|]; rewrite E
  | |- context [index ?b ?i] =>
      let v := fresh "v" in let Hv := fresh "Hv" in let E := fresh "E" in
      destruct (index_is_Some b i) as (v & E & Hv); [len|len|]; rewrite E
  end; cbn [mbind option_bind].

(** ** Pieces *)

Lemma slice_join {A} (b s1 s2 : list A) lo mid hi :
  slice b lo mid = Some s1 → slice b mid hi = Some s2 → slice b lo hi = Some (s1 ++ s2).
Proof.
  intros (H1 & H2 & H3 & Hl1 & E1)%slice_inv (H4 & H5 & H6 & Hl2 & E2)%slice_inv.
  rewrite slice_Some by lia. f_equal. subst s1 s2.
  replace (Z.to_nat (hi - lo)) with (Z.to_nat (mid - lo) + Z.to_nat (hi - mid))%nat by lia.
  rewrite <- take_take_drop. f_equal. rewrite drop_drop. do 2 f_equal. lia.
Qed.

(** Two buffers that agree on two adjacent pieces agree on both. *)
Lemma slice_join_eq {A} (a b : list A) lo mid hi :
  is_Some (slice b lo mid) → is_Some (slice b mid hi) →
  slice a lo mid = slice b lo mid → slice a mid hi = slice b mid hi → slice a lo hi = slice b lo hi.
Proof.
  intros [s1 H1] [s2 H2] E1 E2. rewrite H1 in E1. rewrite H2 in E2.
  by rewrite (slice_join _ _ _ _ _ _ E1 E2), (slice_join _ _ _ _ _ _ H1 H2).
Qed.

(** An integer written again is the bytes it was read from. *)
Lemma slice_store_get w lo v a b :
  bytes b → le_get w b lo = Some v → 0 <= lo → lo + Z.of_nat w <= zlen a →
  slice (store lo (le_split w v) a) lo (lo + Z.of_nat w) = slice b lo (lo + Z.of_nat w).
Proof.
  intros Hb (H1 & H2 & s & Hs & -> & Hl)%le_get_inv H3 H4.
  pose proof (slice_store_same lo (le_split w (le_combine s)) a) as E.
  rewrite zlen_le_split in E. rewrite E by lia. rewrite Hs. f_equal.
  replace w with (length s) by (unfold zlen in Hl; lia).
  apply le_split_combine. by eapply bytes_slice.
Qed.

(** ** Stores and concatenation *)

Lemma store_app_r lo bs a b : store (zlen a + lo) bs (a ++ b) = store (zlen a + lo) bs a ++ store lo bs b.
Proof.
  unfold store. rewrite imap_app. f_equal. apply imap_ext. intros i x _. simpl.
  do 2 f_equal. unfold zlen. lia.
Qed.

Lemma store_past lo bs b : zlen b <= lo → store lo bs b = b.
Proof.
  intros H. apply list_eq. intros i. rewrite store_lookup. destruct (decide _) as [Hi|]; [|done].
  assert (b !! i = None) as -> by (apply lookup_ge_None; unfold zlen in *; lia). done.
Qed.

Lemma store_all bs b : zlen bs = zlen b → store 0 bs b = bs.
Proof.
  intros H. apply list_eq. intros i. rewrite store_lookup. destruct (decide _) as [Hi|Hi].
  - unfold zlen in *. destruct (lookup_lt_is_Some_2 b i) as [x ->]; [lia|]. simpl. unfold index.
    rewrite (proj2 (Z.leb_le _ _)) by lia. f_equal. lia.
  - unfold zlen in *. rewrite !lookup_ge_None_2 by lia. done.
Qed.

Lemma store_empty lo bs : store lo bs [] = [].
Proof. done. Qed.

(** What is stored past a prefix, and what is stored within one. *)
Lemma store_app_past lo bs a b :
  0 <= lo → store (zlen a + lo) bs (a ++ b) = a ++ store lo bs b.
Proof. intros. rewrite store_app_r, (store_past _ _ a) by lia. done. Qed.

Lemma store_app_within lo bs a b :
  lo + zlen bs <= zlen a → store lo bs (a ++ b) = store lo bs a ++ b.
Proof.
  intros H. replace lo with (zlen a + (lo - zlen a)) by lia. rewrite store_app_r. f_equal.
  apply list_eq. intros i. rewrite store_lookup. by rewrite decide_False by lia.
Qed.

Lemma le_get_split_app w v r : le_get w (le_split w v ++ r) 0 = Some (v mod 256 ^ Z.of_nat w).
Proof.
  rewrite le_get_app_l by (rewrite zlen_le_split; lia). unfold le_get.
  pose proof (slice_all (le_split w v)) as E. rewrite zlen_le_split in E.
  rewrite Z.add_0_l, E. simpl. by rewrite le_combine_split.
Qed.

Lemma slice_app_all {A} (a b : list A) : slice (a ++ b) 0 (zlen a) = Some a.
Proof. rewrite slice_app_l by lia. apply slice_all. Qed.

Lemma slice_app_rest {A} (a b : list A) : slice (a ++ b) (zlen a) (zlen (a ++ b)) = Some b.
Proof.
  rewrite slice_app_r by lia. rewrite zlen_app, Z.sub_diag.
  replace (zlen a + zlen b - zlen a) with (zlen b) by lia. apply slice_all.
Qed.

Lemma make_app m n : 0 <= m → 0 <= n → make (m + n) = make m ++ make n.
Proof. intros. unfold make. rewrite Z2Nat.inj_add by lia. apply replicate_add. Qed.

Lemma align8_add a b : 0 <= a → 0 <= b → a mod 8 = 0 → align8 (a + b) = a + align8 b.
Proof.
  intros Ha Hb H. destruct (align8_spec (a + b)) as [H1 H2]; [lia|].
  destruct (align8_spec b) as [H3 H4]; [lia|]. Z.to_euclidean_division_equations. lia.
Qed.

Lemma slice_app_mid {A} (a b c : list A) lo hi :
  lo = zlen a → hi = zlen a + zlen b → slice (a ++ b ++ c) lo hi = Some b.
Proof.
  intros -> ->. rewrite slice_app_r by lia. rewrite Z.sub_diag.
  replace (zlen a + zlen b - zlen a) with (zlen b) by lia. apply slice_app_all.
Qed.

(** ** Reads of a part *)

Lemma le_get_slice w b s lo hi i :
  slice b lo hi = Some s → 0 <= i → i + Z.of_nat w <= hi - lo →
  le_get w s i = le_get w b (lo + i).
Proof.
  intros Hs H1 H2. unfold le_get. rewrite (slice_slice b s lo hi) by (done || lia).
  by rewrite Z.add_assoc.
Qed.

Lemma slice_in_slice {A} (b s r : list A) lo hi lo' hi' :
  slice b lo hi = Some s → slice s lo' hi' = Some r → slice b (lo + lo') (lo + hi') = Some r.
Proof.
  intros Hs Hr. pose proof Hr as (? & ? & ? & ? & _)%slice_inv.
  pose proof Hs as (? & ? & ? & ? & _)%slice_inv. by rewrite <- (slice_slice b s lo hi) by (done || lia).
Qed.

Lemma le_get_in_slice w b s lo hi i v :
  slice b lo hi = Some s → le_get w s i = Some v → le_get w b (lo + i) = Some v.
Proof.
  intros Hs Hg. pose proof Hg as (? & ? & _)%le_get_inv.
  pose proof Hs as (? & ? & ? & ? & _)%slice_inv. by rewrite <- (le_get_slice w b s lo hi) by (done || lia).
Qed.

(** A store inside a part is a store on the part. *)
Lemma slice_store_in lo hi p bs b s :
  slice b lo hi = Some s → lo <= p → slice (store p bs b) lo hi = Some (store (p - lo) bs s).
Proof.
  intros Hs Hp. pose proof Hs as (H1 & H2 & H3 & Hl & _)%slice_inv.
  destruct (slice_is_Some (store p bs b) lo hi) as (s' & Hs' & Hl'); [lia|lia|by rewrite zlen_store|].
  rewrite Hs'. f_equal. apply list_eq. intros i. rewrite (slice_lookup _ _ _ _ i Hs'), !store_lookup.
  rewrite (slice_lookup _ _ _ _ i Hs).
  destruct (decide (Z.of_nat i < hi - lo)).
  - destruct (decide (p <= Z.of_nat (Z.to_nat lo + i) < p + zlen bs)),
      (decide (p - lo <= Z.of_nat i < p - lo + zlen bs)); try lia; [|done].
    destruct (b !! _); [|done]. simpl. f_equal. lia.
  - by destruct (decide (p - lo <= Z.of_nat i < p - lo + zlen bs)).
Qed.

Lemma slice_make n lo hi : 0 <= lo → lo <= hi → hi <= n → slice (make n) lo hi = Some (make (hi - lo)).
Proof.
  intros. rewrite slice_Some by (rewrite ?zlen_make; lia). unfold make. f_equal.
  rewrite drop_replicate, take_replicate. f_equal. lia.
Qed.

Lemma le_get_make w n lo : 0 <= lo → lo + Z.of_nat w <= n → le_get w (make n) lo = Some 0.
Proof.
  intros. unfold le_get. rewrite slice_make by lia. replace (lo + Z.of_nat w - lo) with (Z.of_nat w) by lia.
  unfold make. rewrite Nat2Z.id. cbn [fmap option_fmap option_map]. f_equal. clear.
  induction w; cbn [replicate le_combine]; [done|]. by rewrite IHw.
Qed.

(** The bytes an integer was read from. *)
Lemma le_get_split w b lo v :
  bytes b → le_get w b lo = Some v → slice b lo (lo + Z.of_nat w) = Some (le_split w v).
Proof.
  intros Hb (_ & _ & s & Hs & -> & Hl)%le_get_inv. rewrite Hs. f_equal. symmetry.
  replace w with (length s) by (unfold zlen in Hl; lia). apply le_split_combine.
  exact (bytes_slice _ _ _ _ Hb Hs).
Qed.

(** A list cut in two. *)
Lemma slice_cut {A} (b s1 s2 : list A) n :
  slice b 0 n = Some s1 → slice b n (zlen b) = Some s2 → b = s1 ++ s2.
Proof.
  intros H1 H2. pose proof (slice_join b s1 s2 0 n (zlen b) H1 H2) as H.
  rewrite slice_all in H. congruence.
Qed.
