(* ===== verification/WireHeader.v ===== *)
(** * SMB messages: headers and frames

    [packages/smb/internal/wire/header.go] and [bootstrap.go]: the 64-byte SMB2
    header, the split of a transport frame into the commands of a compound, the
    bounds checks every request parser starts with, and the SMB1 envelope that
    opens a connection.  The value Go returns beside an error is not modelled:
    every caller drops it. *)

From S2P Require Import Prelude Bytes.

(** ** Constants *)

Abbreviation HeaderSize := 64 (only parsing).
Abbreviation maxDirectTCPPayload := 16777215 (only parsing).

Definition Negotiate : Z := 0.
Definition SessionSetup : Z := 1.
Definition Logoff : Z := 2.
Definition TreeConnect : Z := 3.
Definition TreeDisconnect : Z := 4.
Definition Create : Z := 5.
Definition Close : Z := 6.
Definition Flush : Z := 7.
Definition Read : Z := 8.
Definition Write : Z := 9.
Definition Cancel : Z := 12.
Definition Echo : Z := 13.
Definition QueryDirectory : Z := 14.
Definition QueryInfo : Z := 16.
Definition SetInfo : Z := 17.
Definition OplockBreak : Z := 18.

Definition FlagResponse : Z := 1.
Definition FlagAsync : Z := 2.
Definition FlagRelated : Z := 4.
Definition FlagSigned : Z := 8.

Definition Dialect311 : Z := 785.

(** The bytes of ["\xfeSMB"] and of ["\xffSMB"]. *)
Definition protocol : list Z := [254; 83; 77; 66].
Definition protocol1 : list Z := [255; 83; 77; 66].

(** A flag test, [flags&flag != 0]. *)
Definition has_flag (flags flag : Z) : bool := negb (Z.land flags flag =? 0).

(** ** Headers *)

Record Limits := { MaxBytes : Z; MaxCommands : Z; MaxContexts : Z }.

Record Header := mkHeader {
  CreditCharge : Z; Status : Z; Command : Z; Credits : Z; Flags : Z; NextCommand : Z;
  MessageID : Z; ProcessID : Z; TreeID : Z; AsyncID : Z; SessionID : Z; Signature : list Z }.

Record Request := mkRequest {
  rq_Header : Header; Body : list Z; Packet : list Z; maxContexts : Z }.

Definition ParseHeader (packet : list Z) : W Header :=
  if zlen packet <? HeaderSize then malformed
  else
    let% magic := slice packet 0 4 in
    let% size := Uint16 packet 4 in
    if negb (bool_decide (magic = protocol)) || negb (size =? HeaderSize) then malformed
    else
      let% creditCharge := Uint16 packet 6 in
      let% status := Uint32 packet 8 in
      let% command := Uint16 packet 12 in
      let% credits := Uint16 packet 14 in
      let% flags := Uint32 packet 16 in
      let% nextCommand := Uint32 packet 20 in
      let% messageID := Uint64 packet 24 in
      let% sessionID := Uint64 packet 40 in
      let% signature := slice packet 48 64 in
      if has_flag flags FlagAsync then
        let% asyncID := Uint64 packet 32 in
        wret (mkHeader creditCharge status command credits flags nextCommand messageID
                0 0 asyncID sessionID signature)
      else
        let% processID := Uint32 packet 32 in
        let% treeID := Uint32 packet 36 in
        wret (mkHeader creditCharge status command credits flags nextCommand messageID
                processID treeID 0 sessionID signature).

Definition Header_Encode (header : Header) (packet : list Z) : W (list Z) :=
  if zlen packet <? HeaderSize then malformed
  else
    let% packet := copy_to 0 HeaderSize (make HeaderSize) packet in
    let% packet := copy_to 0 (zlen packet) protocol packet in
    let% packet := PutUint16 4 HeaderSize packet in
    let% packet := PutUint16 6 (CreditCharge header) packet in
    let% packet := PutUint32 8 (Status header) packet in
    let% packet := PutUint16 12 (Command header) packet in
    let% packet := PutUint16 14 (Credits header) packet in
    let% packet := PutUint32 16 (Flags header) packet in
    let% packet := PutUint32 20 (NextCommand header) packet in
    let% packet := PutUint64 24 (MessageID header) packet in
    let% packet := (if has_flag (Flags header) FlagAsync then PutUint64 32 (AsyncID header) packet
                    else let% packet := PutUint32 32 (ProcessID header) packet in
                         PutUint32 36 (TreeID header) packet) in
    let% packet := PutUint64 40 (SessionID header) packet in
    let% packet := copy_to 48 64 (Signature header) packet in
    wret packet.

Definition EncodeResponse (header : Header) (body : list Z) : option (list Z) :=
  let header := mkHeader (CreditCharge header) (Status header) (Command header) (Credits header)
                  (Z.lor (Flags header) FlagResponse) (NextCommand header) (MessageID header)
                  (ProcessID header) (TreeID header) (AsyncID header) (SessionID header)
                  (Signature header) in
  let packet := make (HeaderSize + zlen body) in
  let% encoded := Header_Encode header packet in
  let packet := match encoded with Parsed p => p | ErrMalformed => packet end in
  copy_to HeaderSize (zlen packet) body packet.

(** ** Frames *)

(** The extent of the next command of a frame, checked. *)
Definition command_bytes (header : Header) (remaining : list Z) : parsed Z :=
  let next := NextCommand header in
  if negb (next =? 0)
     && ((next <? HeaderSize + 2) || negb (Z.land next 7 =? 0) || (zlen remaining <? next + HeaderSize))
  then ErrMalformed
  else
    let commandBytes := if next =? 0 then zlen remaining else next in
    if commandBytes <? HeaderSize + 2 then ErrMalformed else Parsed commandBytes.

(** The loop of [ParseFrame]; out of fuel is [None]. *)
Fixpoint frame_loop (fuel : nat) (limits : Limits) (compoundRelated : bool)
    (requests : list Request) (remaining : list Z) : W (list Request) :=
  match fuel with
  | O => None
  | S fuel =>
      if MaxCommands limits <=? zlen requests then malformed
      else
        let* header := ParseHeader remaining in
        let related := has_flag (Flags header) FlagRelated in
        if (OplockBreak <? Command header) || has_flag (Flags header) FlagResponse
           || ((zlen requests =? 0) && related)
        then malformed
        else if (1 <? zlen requests) && negb (eqb related compoundRelated) then malformed
        else
          let compoundRelated := if zlen requests =? 1 then related else compoundRelated in
          let* commandBytes := Some (command_bytes header remaining) in
          let% command := slice remaining 0 commandBytes in
          let% body := slice command HeaderSize (zlen command) in
          let requests := requests ++ [mkRequest header body command (MaxContexts limits)] in
          if NextCommand header =? 0 then wret requests
          else
            let% remaining := slice remaining commandBytes (zlen remaining) in
            frame_loop fuel limits compoundRelated requests remaining
  end.

(** Each turn takes at least [HeaderSize + 2] bytes: the length is fuel enough. *)
Definition ParseFrame (packet : list Z) (limits : Limits) : W (list Request) :=
  if (MaxBytes limits <? HeaderSize) || (maxDirectTCPPayload <? MaxBytes limits)
     || (MaxCommands limits <? 1) || (MaxContexts limits <? 1)
     || (zlen packet <? HeaderSize) || (MaxBytes limits <? zlen packet)
  then malformed
  else frame_loop (length packet) limits false [] packet.

(** ** Bounds of a request *)

Definition fixed (request : Request) (command structureSize minimum : Z) : W unit :=
  if negb (Command (rq_Header request) =? command) || (zlen (Body request) <? minimum) then malformed
  else
    let% size := Uint16 (Body request) 0 in
    if negb (size =? structureSize) then malformed else wret tt.

Definition field (request : Request) (offset length minimum : Z) : W (list Z) :=
  let start := offset in
  if length =? 0 then
    if negb (offset =? 0) && ((start <? minimum) || (zlen (Packet request) <? start))
    then malformed else wret []
  else
    let end_ := u64 (start + length) in
    if (start <? minimum) || (end_ <? start) || (zlen (Packet request) <? end_) then malformed
    else let% data := slice (Packet request) start end_ in wret data.

(** ** bootstrap.go *)

(** [bytes.IndexByte], -1 when absent. *)
Fixpoint IndexByte (b : list Z) (c : Z) : Z :=
  match b with
  | [] => -1
  | x :: b => if x =? c then 0 else let i := IndexByte b c in if i <? 0 then i else i + 1
  end.

(** The bytes of ["SMB 2.???"]. *)
Definition wildcard_dialect : list Z := [83; 77; 66; 32; 50; 46; 63; 63; 63].

(** The loop over the dialect strings; every turn takes three bytes or more. *)
Fixpoint dialects_loop (fuel : nat) (found : bool) (dialects : list Z) : W bool :=
  match fuel with
  | O => None
  | S fuel =>
      match dialects with
      | [] => wret found
      | kind :: rest =>
          if negb (kind =? 2) then malformed
          else
            let end_ := IndexByte rest 0 in
            if end_ <=? 0 then malformed
            else
              let% name := slice dialects 1 (1 + end_) in
              let found := found || bool_decide (name = wildcard_dialect) in
              let% rest := slice dialects (end_ + 2) (zlen dialects) in
              dialects_loop fuel found rest
      end
  end.

Definition ParseMultiProtocolNegotiate (packet : list Z) : W unit :=
  if zlen packet <? 35 then malformed
  else
    let% magic := slice packet 0 4 in
    let% command := index packet 4 in
    let% flags := index packet 9 in
    let% words := index packet 32 in
    if negb (bool_decide (magic = protocol1)) || negb (command =? 114)
       || negb (Z.land flags 128 =? 0) || negb (words =? 0)
    then malformed
    else
      let% byteCount := Uint16 packet 33 in
      if (byteCount =? 0) || negb (byteCount =? zlen packet - 35) then malformed
      else
        let% dialects := slice packet 35 (zlen packet) in
        let* found := dialects_loop (S (length dialects)) false dialects in
        if negb found then malformed else wret tt.

(** ** Well-typed headers *)

Definition is_u16 (z : Z) : Prop := 0 <= z < 65536.
Definition is_u32 (z : Z) : Prop := 0 <= z < 4294967296.

(** Field values of their Go types. *)
Definition header_typed (h : Header) : Prop :=
  is_u16 (CreditCharge h) ∧ is_u32 (Status h) ∧ is_u16 (Command h) ∧ is_u16 (Credits h)
  ∧ is_u32 (Flags h) ∧ is_u32 (NextCommand h) ∧ is_u64 (MessageID h) ∧ is_u32 (ProcessID h)
  ∧ is_u32 (TreeID h) ∧ is_u64 (AsyncID h) ∧ is_u64 (SessionID h)
  ∧ zlen (Signature h) = 16 ∧ bytes (Signature h).

(** The fields that share bytes 32 to 39 are not both in use. *)
Definition one_form (h : Header) : Prop :=
  if has_flag (Flags h) FlagAsync then ProcessID h = 0 ∧ TreeID h = 0 else AsyncID h = 0.

Lemma mod_typed v n : 0 <= v < n → v mod n = v.
Proof. apply Z.mod_small. Qed.

(** The encoded form of a header, as one buffer. *)
Definition encoded (h : Header) (packet : list Z) : list Z :=
  let front :=
    store 24 (le_split 8 (MessageID h)) (store 20 (le_split 4 (NextCommand h))
      (store 16 (le_split 4 (Flags h)) (store 14 (le_split 2 (Credits h))
        (store 12 (le_split 2 (Command h)) (store 8 (le_split 4 (Status h))
          (store 6 (le_split 2 (CreditCharge h)) (store 4 (le_split 2 64)
            (store 0 protocol (store 0 (make 64) packet))))))))) in
  store 48 (Signature h) (store 40 (le_split 8 (SessionID h))
    (if has_flag (Flags h) FlagAsync then store 32 (le_split 8 (AsyncID h)) front
     else store 36 (le_split 4 (TreeID h)) (store 32 (le_split 4 (ProcessID h)) front))).

Lemma zlen_protocol : zlen protocol = 4.
Proof. done. Qed.
#[export] Hint Rewrite zlen_protocol : wire.

Lemma Encode_encoded h packet :
  zlen (Signature h) = 16 → HeaderSize <= zlen packet →
  Header_Encode h packet = wret (encoded h packet).
Proof.
  intros Hs Hp. unfold Header_Encode, encoded.
  rewrite (proj2 (Z.ltb_ge _ _)) by lia.
  put_step. rewrite take_zlen by len. put_step. rewrite take_zlen by len.
  repeat put_step. destruct (has_flag _ _); repeat put_step; by rewrite take_zlen by lia.
Qed.

Lemma zlen_encoded h packet :
  zlen (Signature h) = 16 → HeaderSize <= zlen packet → zlen (encoded h packet) = zlen packet.
Proof. intros Hs Hp. unfold encoded. destruct (has_flag _ _); len. Qed.

(** SMB2 headers survive the wire.  A header whose fields are of their Go
    types, written into a buffer that can hold it, is read back field by field,
    and no byte past the header is touched.  A header that is asynchronous has
    no process and tree identity, and the other way around, because the two
    forms share eight bytes. *)
Theorem header_roundtrip (h : Header) (packet : list Z) :
  header_typed h → one_form h → HeaderSize <= zlen packet →
  ∃ p, Header_Encode h packet = wret p ∧ zlen p = zlen packet ∧ ParseHeader p = wret h
       ∧ slice p HeaderSize (zlen p) = slice packet HeaderSize (zlen packet).
Proof.
  intros (T1 & T2 & T3 & T4 & T5 & T6 & T7 & T8 & T9 & T10 & T11 & Ts & Tb) Hf Hp.
  exists (encoded h packet). split; [by apply Encode_encoded|].
  rewrite zlen_encoded by done. split; [done|].
  assert (Hmagic : slice (encoded h packet) 0 4 = Some protocol).
  { unfold encoded. destruct (has_flag _ _); repeat get_step;
      apply (slice_store_same 0 protocol); len. }
  assert (Hsig : slice (encoded h packet) 48 64 = Some (Signature h)).
  { pose proof (slice_store_same 48 (Signature h)) as E. rewrite Ts in E.
    unfold encoded. destruct (has_flag _ _); apply E; len. }
  split.
  - unfold ParseHeader. rewrite zlen_encoded by done. rewrite (proj2 (Z.ltb_ge _ _)) by lia.
    rewrite Hmagic, Hsig. cbn [mbind option_bind]. unfold encoded, one_form in *.
    unfold is_u16, is_u32, is_u64 in *.
    destruct (has_flag (Flags h) FlagAsync) eqn:Ef; repeat get_step; cbn [mbind option_bind];
      rewrite bool_decide_true by done; change (64 mod 256 ^ Z.of_nat 2 =? 64) with true;
      change (256 ^ Z.of_nat 2) with 65536; change (256 ^ Z.of_nat 4) with 4294967296;
      change (256 ^ Z.of_nat 8) with 18446744073709551616; cbn [negb orb];
      rewrite !(Z.mod_small _ _) by lia; rewrite Ef; destruct h; simpl in *; naive_solver.
  - unfold encoded. destruct (has_flag _ _); repeat (rewrite slice_store_other by len); done.
Qed.

Definition example_header : Header :=
  mkHeader 1 0 Read 31 FlagAsync 0 42 0 0 7 99 (replicate 16 5).

Lemma header_roundtrip_witness :
  ∃ p, Header_Encode example_header (make 80) = wret p ∧ zlen p = zlen (make 80)
       ∧ ParseHeader p = wret example_header
       ∧ slice p HeaderSize (zlen p) = slice (make 80) HeaderSize (zlen (make 80)).
Proof.
  apply (header_roundtrip example_header (make 80)).
  - unfold header_typed, is_u16, is_u32, is_u64. simpl. split_and!; try lia; try done.
    by repeat constructor.
  - done.
  - done.
Defined.

Lemma ParseHeader_total packet :
  ∃ r, ParseHeader packet = Some r.
Proof.
  unfold ParseHeader. destruct (_ <? _) eqn:E; [by eexists|]. bool_prop.
  repeat read_step. destruct (_ || _); [by eexists|]. destruct (has_flag _ _); by eexists.
Qed.

(** Where the fields of a parsed header stand. *)
Lemma ParseHeader_inv packet h :
  ParseHeader packet = wret h →
  HeaderSize <= zlen packet
  ∧ slice packet 0 4 = Some protocol ∧ Uint16 packet 4 = Some 64
  ∧ Uint16 packet 6 = Some (CreditCharge h) ∧ Uint32 packet 8 = Some (Status h)
  ∧ Uint16 packet 12 = Some (Command h) ∧ Uint16 packet 14 = Some (Credits h)
  ∧ Uint32 packet 16 = Some (Flags h) ∧ Uint32 packet 20 = Some (NextCommand h)
  ∧ Uint64 packet 24 = Some (MessageID h) ∧ Uint64 packet 40 = Some (SessionID h)
  ∧ slice packet 48 64 = Some (Signature h)
  ∧ (if has_flag (Flags h) FlagAsync
     then Uint64 packet 32 = Some (AsyncID h) ∧ ProcessID h = 0 ∧ TreeID h = 0
     else Uint32 packet 32 = Some (ProcessID h) ∧ Uint32 packet 36 = Some (TreeID h)
          ∧ AsyncID h = 0).
Proof.
  unfold ParseHeader. destruct (_ <? _) eqn:E; [done|]. bool_prop.
  repeat read_step. destruct (_ || _) eqn:Em; [done|]. bool_prop. subst.
  destruct (has_flag _ _) eqn:Ef; intros [= <-]; simpl; rewrite Ef; split_and!; done.
Qed.

(** An SMB2 header has one encoding.  The sixty-four bytes of any header
    that [ParseHeader] accepts are written back unchanged by [Encode], so the
    bytes a signature covers are determined by the parsed fields. *)
Theorem header_canonical (packet out : list Z) (h : Header) :
  bytes packet → ParseHeader packet = wret h → HeaderSize <= zlen out →
  ∃ p, Header_Encode h out = wret p ∧ slice p 0 HeaderSize = slice packet 0 HeaderSize.
Proof.
  intros Hb (Hl & F0 & F4 & F6 & F8 & F12 & F14 & F16 & F20 & F24 & F40 & F48 & F32)%ParseHeader_inv Ho.
  assert (Ts : zlen (Signature h) = 16) by (apply slice_inv in F48; lia).
  exists (encoded h out). split; [by apply Encode_encoded|].
  assert (Hs : ∀ lo hi, 0 <= lo → lo <= hi → hi <= HeaderSize → is_Some (slice packet lo hi)).
  { intros lo hi ? ? ?. destruct (slice_is_Some packet lo hi) as (s & ? & _); [lia..|]. by eexists. }
  unfold encoded. set (front := store 24 _ _).
  assert (Hfront : slice front 0 32 = slice packet 0 32 ∧ zlen front = zlen out).
  { unfold front. split; [|len].
    apply (slice_join_eq _ _ 0 24); [apply Hs; lia..| |by apply (slice_store_get 8); [..|len]].
    get_step. apply (slice_join_eq _ _ 0 20); [apply Hs; lia..| |by apply (slice_store_get 4); [..|len]].
    get_step. apply (slice_join_eq _ _ 0 16); [apply Hs; lia..| |by apply (slice_store_get 4); [..|len]].
    get_step. apply (slice_join_eq _ _ 0 14); [apply Hs; lia..| |by apply (slice_store_get 2); [..|len]].
    get_step. apply (slice_join_eq _ _ 0 12); [apply Hs; lia..| |by apply (slice_store_get 2); [..|len]].
    get_step. apply (slice_join_eq _ _ 0 8); [apply Hs; lia..| |by apply (slice_store_get 4); [..|len]].
    get_step. apply (slice_join_eq _ _ 0 6); [apply Hs; lia..| |by apply (slice_store_get 2); [..|len]].
    get_step. apply (slice_join_eq _ _ 0 4); [apply Hs; lia..| |by apply (slice_store_get 2); [..|len]].
    get_step. rewrite F0. apply (slice_store_same 0 protocol); len. }
  destruct Hfront as [Hfront Hlf]. clearbody front.
  apply (slice_join_eq _ _ 0 48); [apply Hs; lia..| |].
  2: { rewrite F48. pose proof (slice_store_same 48 (Signature h)) as E. rewrite Ts in E. apply E; [lia|].
       destruct (has_flag _ _); len. }
  get_step.
  apply (slice_join_eq _ _ 0 40); [apply Hs; lia..| |].
  2: { apply (slice_store_get 8); [done|done|lia|]. destruct (has_flag _ _); len. }
  get_step. apply (slice_join_eq _ _ 0 32); [apply Hs; lia..| |].
  - destruct (has_flag _ _); repeat get_step; done.
  - destruct (has_flag _ _).
    + destruct F32 as (? & _). by apply (slice_store_get 8); [..|len].
    + destruct F32 as (? & ? & _).
      apply (slice_join_eq _ _ 32 36); [apply Hs; lia..| |by apply (slice_store_get 4); [..|len]].
      get_step. by apply (slice_store_get 4); [..|len].
Qed.

(** A signed packet that ends right after its header. *)
Lemma header_canonical_witness :
  ∃ packet p, Header_Encode example_header (make 64) = wret packet
    ∧ Header_Encode example_header (make 70) = wret p
    ∧ slice p 0 HeaderSize = slice packet 0 HeaderSize.
Proof.
  destruct (Header_Encode example_header (make 64)) as [[packet|]|] eqn:E;
    [|vm_compute in E; discriminate..].
  destruct (header_canonical packet (make 70) example_header) as (p & Hp & Hs).
  - vm_compute in E. injection E as <-. apply (bool_decide_unpack (bytes _)). vm_compute. exact I.
  - vm_compute in E. injection E as <-. vm_compute. reflexivity.
  - vm_compute. discriminate.
  - exists packet, p. split; [reflexivity|]. split; [exact Hp|exact Hs].
Defined.

(** ** Frames *)

(** The header is in the first sixty-four bytes. *)
Lemma ParseHeader_app a b : HeaderSize <= zlen a → ParseHeader (a ++ b) = ParseHeader a.
Proof.
  intros Ha. unfold ParseHeader, Uint16, Uint32, Uint64. rewrite zlen_app.
  pose proof (zlen_nonneg b). rewrite !(proj2 (Z.ltb_ge _ _)) by lia.
  by rewrite !le_get_app_l, !slice_app_l by lia.
Qed.

Definition is_related (q : Request) : bool := has_flag (Flags (rq_Header q)) FlagRelated.

(** One command of a frame: its packet, header and body belong together. *)
Definition command_ok (q : Request) : Prop :=
  HeaderSize + 2 <= zlen (Packet q)
  ∧ slice (Packet q) HeaderSize (zlen (Packet q)) = Some (Body q)
  ∧ ParseHeader (Packet q) = wret (rq_Header q)
  ∧ Command (rq_Header q) <= OplockBreak ∧ has_flag (Flags (rq_Header q)) FlagResponse = false.

(** Every command but the last names the aligned offset of the next one. *)
Fixpoint linked (requests : list Request) : Prop :=
  match requests with
  | [] => True
  | [q] => NextCommand (rq_Header q) = 0
  | q :: requests =>
      NextCommand (rq_Header q) = zlen (Packet q) ∧ zlen (Packet q) mod 8 = 0 ∧ linked requests
  end.

(** The first command is unrelated, and the rest agree. *)
Definition compound (requests : list Request) (related : bool) : Prop :=
  match requests with
  | [] => True
  | q :: rest => is_related q = false ∧ Forall (λ q, is_related q = related) rest
  end.

Lemma command_bytes_spec header remaining n :
  command_bytes header remaining = Parsed n →
  HeaderSize + 2 <= n <= zlen remaining
  ∧ (if NextCommand header =? 0 then n = zlen remaining
     else n = NextCommand header ∧ n mod 8 = 0 ∧ n + HeaderSize <= zlen remaining).
Proof.
  unfold command_bytes. destruct (NextCommand header =? 0) eqn:E0; simpl.
  - destruct (_ <? _) eqn:E; [done|]. intros [= <-]. bool_prop. lia.
  - destruct (_ || _) eqn:E; [done|]. destruct (_ <? _) eqn:E2 in |- *; [done|]. intros [= <-].
    bool_prop. rewrite land_7 in *. lia.
Qed.

Lemma compound_snoc requests cr cr' q :
  compound requests cr → (requests = [] → is_related q = false) →
  (zlen requests = 1 → cr' = is_related q) →
  (1 < zlen requests → cr' = cr ∧ is_related q = cr) →
  compound (requests ++ [q]) cr'.
Proof.
  intros Hc H0 H1 H2. destruct requests as [|x rest]; simpl in *; [auto|].
  destruct Hc as [Hx Hr]. split; [done|]. rewrite zlen_cons in *. destruct rest as [|y rest].
  - rewrite H1 by done. by repeat constructor.
  - rewrite zlen_cons in *. pose proof (zlen_nonneg rest). destruct H2 as [-> Hq]; [lia|].
    inversion_clear Hr. constructor; [done|]. apply Forall_app. by repeat constructor.
Qed.

(** A branch that answers with the error. *)
Ltac rejected := eexists; split; [reflexivity|done].

Lemma frame_loop_spec fuel : ∀ limits cr requests remaining,
  (length remaining <= fuel)%nat → HeaderSize <= zlen remaining → compound requests cr →
  ∃ r, frame_loop fuel limits cr requests remaining = Some r
    ∧ ∀ out, r = Parsed out →
        ∃ new cr', out = requests ++ new ∧ new ≠ [] ∧ concat (Packet <$> new) = remaining
          ∧ Forall (λ q, command_ok q ∧ maxContexts q = MaxContexts limits) new ∧ linked new
          ∧ zlen out <= MaxCommands limits ∧ compound out cr'.
Proof.
  induction fuel as [|fuel IH]; intros limits cr requests remaining Hf Hl Hc.
  { unfold zlen in Hl. lia. }
  cbn [frame_loop]. destruct (_ <=? _) eqn:Emax; [rejected|].
  destruct (ParseHeader_total remaining) as ([header|] & Hh); rewrite Hh; cbn [wbind]; [|rejected].
  destruct (_ || _) eqn:Ebad; [rejected|].
  destruct ((1 <? zlen requests) && _) eqn:Erel; [rejected|].
  destruct (command_bytes header remaining) as [n|] eqn:En; cbn [wbind]; [|rejected].
  apply command_bytes_spec in En as [Hn Hnext].
  destruct (slice_is_Some remaining 0 n) as (command & Ec & Hlc); [lia..|]. rewrite Ec.
  cbn [mbind option_bind].
  destruct (slice_is_Some command HeaderSize (zlen command)) as (body & Eb & _); [lia..|].
  rewrite Eb. cbn [mbind option_bind].
  destruct (slice_is_Some remaining n (zlen remaining)) as (rest & Er & Hlr); [lia..|].
  pose proof (slice_join _ _ _ _ _ _ Ec Er) as Hsplit. rewrite slice_all in Hsplit.
  injection Hsplit as ->. set (q := mkRequest header body command (MaxContexts limits)).
  rewrite ParseHeader_app in Hh by lia.
  assert (Hq : command_ok q).
  { apply orb_false_iff in Ebad as [Ebad _]. bool_prop. unfold command_ok, q. simpl.
    split_and!; try done; lia. }
  assert (Hc' : compound (requests ++ [q]) (if zlen requests =? 1 then is_related q else cr)).
  { eapply compound_snoc; [done|..].
    - intros ->. bool_prop. by destruct H0.
    - intros ->. done.
    - intros H1. rewrite (proj2 (Z.eqb_neq _ _)) by lia. split; [done|].
      rewrite (proj2 (Z.ltb_lt _ _)) in Erel by lia. simpl in Erel. apply negb_false_iff in Erel.
      by apply eqb_prop in Erel. }
  bool_prop. destruct (NextCommand header =? 0) eqn:E0.
  - eexists. split; [done|]. intros out [= <-]. eexists [q], _. rewrite zlen_app in *.
    assert (rest = []) as -> by (apply length_zero_iff_nil; unfold zlen in *; lia).
    split_and!; try done; [by apply Forall_singleton|by apply Z.eqb_eq|].
    rewrite zlen_cons, zlen_nil. lia.
  - rewrite zlen_app in *. destruct Hnext as (Hn1 & Hn2 & Hn3).
    assert (slice (command ++ rest) n (zlen command + zlen rest) = Some rest) as -> by done.
    cbn [mbind option_bind].
    destruct (IH limits (if zlen requests =? 1 then is_related q else cr) (requests ++ [q]) rest)
      as (r & Hr & Hout).
    { rewrite length_app in Hf. unfold zlen in *. lia. }
    { lia. }
    { done. }
    exists r. split; [exact Hr|]. intros out ->.
    destruct (Hout out eq_refl) as (new & cr' & -> & Hnew & Hcat & Hall & Hlink & Hmax & Hcomp).
    exists (q :: new), cr'. rewrite <- app_assoc in *. split_and!; try done.
    + cbn. f_equal. exact Hcat.
    + by constructor.
    + destruct new; [done|]. simpl in Hlink |- *. split_and!; [lia|by rewrite Hlc, Z.sub_0_r|done].
Qed.

Lemma ParseFrame_spec (packet : list Z) (limits : Limits) :
  ∃ r, ParseFrame packet limits = Some r
    ∧ ∀ requests, r = Parsed requests →
        concat (Packet <$> requests) = packet ∧ linked requests
        ∧ 1 <= zlen requests <= MaxCommands limits
        ∧ Forall (λ q, command_ok q ∧ maxContexts q = MaxContexts limits) requests
        ∧ ∃ related, compound requests related.
Proof.
  unfold ParseFrame. destruct (_ || _) eqn:E; [rejected|]. bool_prop.
  destruct (frame_loop_spec (length packet) limits false [] packet) as (r & Hr & Hout); [done..|].
  exists r. split; [done|]. intros out ->.
  destruct (Hout out eq_refl) as (new & cr & -> & Hnew & ? & ? & ? & Hmax & ?). simpl in *.
  split_and!; try done; [|by exists cr].
  destruct new; [done|]. rewrite zlen_cons. pose proof (zlen_nonneg new). lia.
Qed.

(** C37: a frame is split into its commands exactly.  [ParseFrame] ends without
    panicking on any bytes whatever; when it accepts a frame, the commands'
    packets in order are the frame, byte for byte, each with the header and the
    body of its own packet, at most [MaxCommands] of them; each command but the
    last names the aligned offset of the next; and the compound is related
    throughout or not at all. *)
Theorem frame_partition (packet : list Z) (limits : Limits) :
  ∃ r, ParseFrame packet limits = Some r
    ∧ ∀ requests, r = Parsed requests →
        concat (Packet <$> requests) = packet ∧ linked requests
        ∧ 1 <= zlen requests <= MaxCommands limits
        ∧ Forall (λ q, command_ok q ∧ maxContexts q = MaxContexts limits) requests
        ∧ ∃ related, compound requests related.
Proof. apply ParseFrame_spec. Qed.

Definition example_limits : Limits := {| MaxBytes := 65536; MaxCommands := 4; MaxContexts := 8 |}.

(** Two echo requests in one frame. *)
Definition example_frame : list Z :=
  match Header_Encode (mkHeader 1 0 Echo 1 0 72 1 0 0 0 9 (make 16))
          (make 64 ++ [4; 0; 0; 0; 0; 0; 0; 0]),
        Header_Encode (mkHeader 1 0 Echo 1 0 0 2 0 0 0 9 (make 16))
          (make 64 ++ [4; 0; 0; 0]) with
  | Some (Parsed a), Some (Parsed b) => a ++ b
  | _, _ => []
  end.

Lemma frame_partition_witness :
  ∃ a b, ParseFrame example_frame example_limits = wret [a; b]
    ∧ Packet a ++ Packet b = example_frame ∧ linked [a; b].
Proof.
  destruct (frame_partition example_frame example_limits) as (r & Hr & H).
  pose proof Hr as E. vm_compute in E. injection E as Hr'.
  destruct (H _ (eq_sym Hr')) as (Hc & Hl & _). eexists _, _. rewrite Hr, <- Hr'.
  split; [reflexivity|]. split; [|exact Hl]. rewrite <- Hc. reflexivity.
Defined.

(** ** Bounds *)

Lemma fixed_total q command size minimum :
  2 <= minimum →
  ∃ r, fixed q command size minimum = Some r
    ∧ (r = Parsed tt → Command (rq_Header q) = command ∧ minimum <= zlen (Body q)).
Proof.
  intros H. unfold fixed. destruct (_ || _) eqn:E; [rejected|]. bool_prop.
  read_step. destruct (negb _); [rejected|]. eexists. by split.
Qed.

(** A field lies past the fixed part of its request and inside its packet. *)
Lemma field_total q offset length minimum :
  is_u32 offset → is_u32 length → 0 <= minimum →
  ∃ r, field q offset length minimum = Some r
    ∧ ∀ data, r = Parsed data →
        if length =? 0 then data = []
        else minimum <= offset ∧ offset + length <= zlen (Packet q)
             ∧ slice (Packet q) offset (offset + length) = Some data.
Proof.
  unfold is_u32. intros Ho Hl Hm. unfold field. destruct (length =? 0) eqn:E0.
  { destruct (_ && _); [rejected|]. eexists. split; [reflexivity|]. by intros data [= <-]. }
  rewrite u64_small by (unfold is_u64; lia). destruct (_ || _) eqn:E; [rejected|]. bool_prop.
  destruct (slice_is_Some (Packet q) offset (offset + length)) as (s & Hs & _); [lia..|].
  rewrite Hs. eexists. split; [reflexivity|]. intros data [= <-]. split_and!; [lia..|done].
Qed.

Lemma IndexByte_bound b c : -1 <= IndexByte b c < zlen b.
Proof.
  induction b as [|x b IH]; [done|]. cbn [IndexByte]. rewrite zlen_cons.
  destruct (x =? c); [pose proof (zlen_nonneg b); lia|]. destruct (_ <? 0) eqn:E; bool_prop; lia.
Qed.

Lemma dialects_loop_total fuel : ∀ found dialects,
  (length dialects < fuel)%nat → ∃ r, dialects_loop fuel found dialects = Some r.
Proof.
  induction fuel as [|fuel IH]; intros found dialects Hf; [lia|]. cbn [dialects_loop].
  destruct dialects as [|kind rest]; [by eexists|]. destruct (negb _); [by eexists|].
  pose proof (IndexByte_bound rest 0). destruct (_ <=? 0) eqn:E; [by eexists|]. bool_prop.
  repeat read_step. apply IH. rewrite zlen_cons in *. unfold zlen in *. simpl in Hf. lia.
Qed.

Lemma ParseMultiProtocolNegotiate_total packet :
  ∃ r, ParseMultiProtocolNegotiate packet = Some r.
Proof.
  unfold ParseMultiProtocolNegotiate. destruct (_ <? _) eqn:E; [by eexists|]. bool_prop.
  repeat read_step. destruct (_ || _); [by eexists|]. destruct (_ || _); [by eexists|].
  destruct (dialects_loop_total (S (length s)) false s) as ([[]|] & ->); [lia|by eexists..].
Qed.
