(* ===== verification/WireText.v ===== *)
(** * SMB messages: text

    [DecodeUTF16] and [EncodeUTF16] of [packages/smb/internal/wire/session.go],
    with the parts of [unicode/utf8] and [unicode/utf16] they use.  A Go string
    is its bytes; a rune is its code point. *)

From S2P Require Import Prelude Bytes WireHeader.

(** ** UTF-8 *)

Definition within (lo hi z : Z) : bool := (lo <=? z) && (z <=? hi).

(** Continuation bytes. *)
Definition tail_byte (z : Z) : bool := within 128 191 z.

Definition two_bytes (b0 b1 : Z) : bool := within 194 223 b0 && tail_byte b1.

Definition three_bytes (b0 b1 b2 : Z) : bool :=
  ((b0 =? 224) && within 160 191 b1
   || (within 225 236 b0 || within 238 239 b0) && tail_byte b1
   || (b0 =? 237) && within 128 159 b1) && tail_byte b2.

Definition four_bytes (b0 b1 b2 b3 : Z) : bool :=
  ((b0 =? 240) && within 144 191 b1
   || within 241 243 b0 && tail_byte b1
   || (b0 =? 244) && within 128 143 b1) && tail_byte b2 && tail_byte b3.

(** The runes of a string; [None] stands for a byte that starts no valid
    sequence, which Go reads as the replacement character, one byte wide. *)
Fixpoint decode_runes (b : list Z) : list (option Z) :=
  match b with
  | [] => []
  | b0 :: r0 =>
      if within 0 127 b0 then Some b0 :: decode_runes r0
      else match r0 with
      | [] => [None]
      | b1 :: r1 =>
          if two_bytes b0 b1 then Some ((b0 - 192) * 64 + (b1 - 128)) :: decode_runes r1
          else match r1 with
          | [] => None :: decode_runes r0
          | b2 :: r2 =>
              if three_bytes b0 b1 b2
              then Some ((b0 - 224) * 4096 + (b1 - 128) * 64 + (b2 - 128)) :: decode_runes r2
              else match r2 with
              | [] => None :: decode_runes r0
              | b3 :: r3 =>
                  if four_bytes b0 b1 b2 b3
                  then Some ((b0 - 240) * 262144 + (b1 - 128) * 4096 + (b2 - 128) * 64 + (b3 - 128))
                         :: decode_runes r3
                  else None :: decode_runes r0
              end
          end
      end
  end.

Definition replacementChar : Z := 65533.

(** [[]rune(value)] *)
Definition runes (value : list Z) : list Z := default replacementChar <$> decode_runes value.

(** [utf8.ValidString] *)
Definition ValidString (value : list Z) : bool :=
  forallb (λ r, match r with Some _ => true | None => false end) (decode_runes value).

(** A Unicode scalar value. *)
Definition is_scalar (r : Z) : bool := within 0 55295 r || within 57344 1114111 r.

Definition encode_rune (r : Z) : list Z :=
  let r := if is_scalar r then r else replacementChar in
  if r <? 128 then [r]
  else if r <? 2048 then [192 + r / 64; 128 + r mod 64]
  else if r <? 65536 then [224 + r / 4096; 128 + r / 64 mod 64; 128 + r mod 64]
  else [240 + r / 262144; 128 + r / 4096 mod 64; 128 + r / 64 mod 64; 128 + r mod 64].

(** [string(runes)] *)
Definition string_of_runes (rs : list Z) : list Z := concat (encode_rune <$> rs).

(** ** UTF-16 *)

Definition high_surrogate (w : Z) : bool := within 55296 56319 w.
Definition low_surrogate (w : Z) : bool := within 56320 57343 w.

(** [utf16.Decode] *)
Fixpoint utf16_Decode (words : list Z) : list Z :=
  match words with
  | [] => []
  | w :: rest =>
      if (w <? 55296) || (57344 <=? w) then w :: utf16_Decode rest
      else match rest with
      | w2 :: rest2 =>
          if high_surrogate w && low_surrogate w2
          then (w - 55296) * 1024 + (w2 - 56320) + 65536 :: utf16_Decode rest2
          else replacementChar :: utf16_Decode rest
      | [] => [replacementChar]
      end
  end.

(** [utf16.Encode] of one rune. *)
Definition utf16_encode_rune (r : Z) : list Z :=
  if within 0 55295 r || within 57344 65535 r then [r]
  else if within 65536 1114111 r then
    [55296 + (r - 65536) / 1024 mod 1024; 56320 + (r - 65536) mod 1024]
  else [replacementChar].

Definition utf16_Encode (rs : list Z) : list Z := concat (utf16_encode_rune <$> rs).

(** The words of little-endian data. *)
Fixpoint words_of (data : list Z) : list Z :=
  match data with
  | lo :: hi :: data => lo + 256 * hi :: words_of data
  | _ => []
  end.

(** The loop of [DecodeUTF16]: no NUL, no lone surrogate. *)
Fixpoint wf_words (words : list Z) : bool :=
  match words with
  | [] => true
  | w :: rest =>
      if w =? 0 then false
      else if high_surrogate w then
        match rest with
        | w2 :: rest2 => low_surrogate w2 && wf_words rest2
        | [] => false
        end
      else negb (low_surrogate w) && wf_words rest
  end.

Definition DecodeUTF16 (data : list Z) : W (list Z) :=
  if negb (Z.land (zlen data) 1 =? 0) then malformed
  else if wf_words (words_of data) then wret (string_of_runes (utf16_Decode (words_of data)))
  else malformed.

Definition EncodeUTF16 (value : list Z) : list Z :=
  concat (le_split 2 <$> utf16_Encode (runes value)).

(** ** UTF-8 there and back *)

Lemma within_true lo hi z : within lo hi z = true ↔ lo <= z <= hi.
Proof. unfold within. rewrite andb_true_iff, !Z.leb_le. done. Qed.

Lemma within_false lo hi z : within lo hi z = false ↔ z < lo ∨ hi < z.
Proof. rewrite <- not_true_iff_false, within_true. lia. Qed.

(** Decide every test of the goal by arithmetic. *)
Ltac decide_tests :=
  repeat (match goal with
  | |- context [within ?lo ?hi ?z] =>
      first [ rewrite (proj2 (within_true lo hi z)) by lia
            | rewrite (proj2 (within_false lo hi z)) by lia ]
  | |- context [?a =? ?b] =>
      first [ rewrite (proj2 (Z.eqb_eq a b)) by lia | rewrite (proj2 (Z.eqb_neq a b)) by lia ]
  | |- context [?a <? ?b] =>
      first [ rewrite (proj2 (Z.ltb_lt a b)) by lia | rewrite (proj2 (Z.ltb_ge a b)) by lia ]
  | |- context [?a <=? ?b] =>
      first [ rewrite (proj2 (Z.leb_le a b)) by lia | rewrite (proj2 (Z.leb_gt a b)) by lia ]
  end; cbn [andb orb negb]).

(** Read the tests of the hypotheses as inequalities. *)
Ltac read_tests :=
  unfold is_scalar, high_surrogate, low_surrogate, two_bytes, three_bytes, four_bytes, tail_byte in *;
  bool_prop;
  repeat match goal with
  | H : within _ _ _ = true |- _ => apply within_true in H
  | H : within _ _ _ = false |- _ => apply within_false in H
  end.

Lemma decode_encode_rune r rest :
  is_scalar r = true → decode_runes (encode_rune r ++ rest) = Some r :: decode_runes rest.
Proof.
  intros Hr. unfold encode_rune. rewrite Hr. unfold is_scalar in Hr.
  apply orb_true_iff in Hr. rewrite !within_true in Hr.
  destruct (Z.ltb_spec r 128); [|destruct (Z.ltb_spec r 2048); [|destruct (Z.ltb_spec r 65536)]];
    cbn [app decode_runes].
  - decide_tests. done.
  - unfold two_bytes, tail_byte. Z.to_euclidean_division_equations. decide_tests. do 2 f_equal. lia.
  - unfold two_bytes, three_bytes, tail_byte. Z.to_euclidean_division_equations. decide_tests.
    destruct (decide (r < 4096)); [|destruct (decide (r < 53248)); [|destruct (decide (r < 57344))]];
      decide_tests; do 2 f_equal; lia.
  - unfold two_bytes, three_bytes, four_bytes, tail_byte. Z.to_euclidean_division_equations.
    decide_tests.
    destruct (decide (r < 262144)); [|destruct (decide (r < 1048576))];
      decide_tests; do 2 f_equal; lia.
Qed.

Lemma decode_string_of_runes rs :
  Forall (λ r, is_scalar r = true) rs → decode_runes (string_of_runes rs) = Some <$> rs.
Proof.
  unfold string_of_runes. induction 1 as [|r rs Hr _ IH]; [done|]. cbn.
  rewrite decode_encode_rune by done. by f_equal.
Qed.

Lemma runes_string_of_runes rs :
  Forall (λ r, is_scalar r = true) rs → runes (string_of_runes rs) = rs.
Proof.
  intros H. unfold runes. rewrite decode_string_of_runes by done.
  rewrite <- list_fmap_compose. by rewrite list_fmap_id.
Qed.

Lemma encode_one b0 :
  within 0 127 b0 = true → encode_rune b0 = [b0] ∧ is_scalar b0 = true.
Proof. intros H. read_tests. unfold encode_rune, is_scalar. by decide_tests. Qed.

Lemma encode_two b0 b1 :
  two_bytes b0 b1 = true →
  let r := (b0 - 192) * 64 + (b1 - 128) in encode_rune r = [b0; b1] ∧ is_scalar r = true.
Proof.
  intros H r. read_tests. unfold encode_rune, is_scalar. subst r. decide_tests.
  split; [|done]. repeat f_equal; Z.to_euclidean_division_equations; lia.
Qed.

Lemma encode_three b0 b1 b2 :
  three_bytes b0 b1 b2 = true →
  let r := (b0 - 224) * 4096 + (b1 - 128) * 64 + (b2 - 128) in
  encode_rune r = [b0; b1; b2] ∧ is_scalar r = true.
Proof.
  intros H r. read_tests.
  assert (2048 <= r < 55296 ∨ 57344 <= r < 65536) as Hr.
  { rewrite !orb_true_iff, !andb_true_iff, !orb_true_iff, !within_true, !Z.eqb_eq in *. lia. }
  assert (224 <= b0 <= 239 ∧ 128 <= b1 <= 191) as [? ?].
  { rewrite !orb_true_iff, !andb_true_iff, !orb_true_iff, !within_true, !Z.eqb_eq in *. lia. }
  assert (is_scalar r = true) as Hs.
  { unfold is_scalar. rewrite orb_true_iff, !within_true. lia. }
  split; [|done]. unfold encode_rune. rewrite Hs. subst r. decide_tests.
  repeat f_equal; Z.to_euclidean_division_equations; lia.
Qed.

Lemma encode_four b0 b1 b2 b3 :
  four_bytes b0 b1 b2 b3 = true →
  let r := (b0 - 240) * 262144 + (b1 - 128) * 4096 + (b2 - 128) * 64 + (b3 - 128) in
  encode_rune r = [b0; b1; b2; b3] ∧ is_scalar r = true.
Proof.
  intros H r. read_tests.
  assert (65536 <= r < 1114112) as Hr.
  { rewrite !orb_true_iff, !andb_true_iff, !within_true, !Z.eqb_eq in *. lia. }
  assert (240 <= b0 <= 244 ∧ 128 <= b1 <= 191) as [? ?].
  { rewrite !orb_true_iff, !andb_true_iff, !within_true, !Z.eqb_eq in *. lia. }
  assert (is_scalar r = true) as Hs.
  { unfold is_scalar. rewrite orb_true_iff, !within_true. lia. }
  split; [|done]. unfold encode_rune. rewrite Hs. subst r. decide_tests.
  repeat f_equal; Z.to_euclidean_division_equations; lia.
Qed.

(** A valid string is the encoding of its runes, which are scalar values. *)
Definition reencodes (b : list Z) : Prop :=
  string_of_runes (runes b) = b ∧ Forall (λ r, is_scalar r = true) (runes b).

Lemma reencodes_next b0 rest r b :
  decode_runes b = Some r :: decode_runes rest → b = b0 ++ rest →
  encode_rune r = b0 ∧ is_scalar r = true → reencodes rest → reencodes b.
Proof.
  unfold reencodes, runes, string_of_runes. intros -> -> [E Hs] [IH1 IH2]. cbn [fmap list_fmap].
  split; [|by constructor]. cbn [fmap list_fmap concat].
  change (default replacementChar (Some r)) with r. f_equal; [done|exact IH1].
Qed.

Lemma encode_decoded n : ∀ b, (length b <= n)%nat → ValidString b = true → reencodes b.
Proof.
  unfold ValidString. induction n as [|n IH]; intros b Hn Hv.
  { destruct b; [by split; [|constructor]|simpl in Hn; lia]. }
  destruct b as [|b0 r0]; [by split; [|constructor]|]. cbn [decode_runes] in Hv.
  destruct (within 0 127 b0) eqn:E1.
  { eapply (reencodes_next [b0] r0); [cbn [decode_runes]; by rewrite E1|done|by apply encode_one|].
    apply IH; [simpl in Hn; lia|done]. }
  destruct r0 as [|b1 r1]; [done|]. destruct (two_bytes b0 b1) eqn:E2.
  { eapply (reencodes_next [b0; b1] r1); [cbn [decode_runes]; by rewrite E1, E2|done|by apply encode_two|].
    apply IH; [simpl in Hn; lia|done]. }
  destruct r1 as [|b2 r2]; [done|]. destruct (three_bytes b0 b1 b2) eqn:E3.
  { eapply (reencodes_next [b0; b1; b2] r2);
      [cbn [decode_runes]; by rewrite E1, E2, E3|done|by apply encode_three|].
    apply IH; [simpl in Hn; lia|done]. }
  destruct r2 as [|b3 r3]; [done|]. destruct (four_bytes b0 b1 b2 b3) eqn:E4; [|done].
  eapply (reencodes_next [b0; b1; b2; b3] r3);
    [cbn [decode_runes]; by rewrite E1, E2, E3, E4|done|by apply encode_four|].
  apply IH; [simpl in Hn; lia|done].
Qed.

Lemma ValidString_string_of_runes rs :
  Forall (λ r, is_scalar r = true) rs → ValidString (string_of_runes rs) = true.
Proof.
  intros H. unfold ValidString. rewrite decode_string_of_runes by done.
  apply forallb_forall. intros x [r [-> _]]%list_elem_of_In%list_elem_of_fmap. done.
Qed.

(** ** UTF-16 there and back *)

Definition is_word (w : Z) : Prop := 0 <= w < 65536.

Lemma decode_encode_words r rest :
  is_scalar r = true →
  utf16_Decode (utf16_encode_rune r ++ rest) = r :: utf16_Decode rest.
Proof.
  unfold is_scalar. rewrite orb_true_iff, !within_true. intros Hr. unfold utf16_encode_rune.
  destruct (_ || _) eqn:E; cbn [app utf16_Decode].
  - rewrite orb_true_iff, !within_true in E.
    destruct (Z.ltb_spec r 55296); [done|]. by rewrite (proj2 (Z.leb_le _ _)) by lia.
  - rewrite orb_false_iff, !within_false in E.
    rewrite (proj2 (within_true _ _ _)) by lia. cbn [app utf16_Decode].
    unfold high_surrogate, low_surrogate. Z.to_euclidean_division_equations. decide_tests. f_equal. lia.
Qed.

Lemma utf16_Decode_Encode rs :
  Forall (λ r, is_scalar r = true) rs → utf16_Decode (utf16_Encode rs) = rs.
Proof.
  unfold utf16_Encode. induction 1 as [|r rs Hr _ IH]; [done|]. cbn [fmap list_fmap concat].
  rewrite decode_encode_words by done. f_equal. exact IH.
Qed.

(** A well-formed sequence of words is the encoding of its scalar values. *)
Lemma encode_decode_words n : ∀ ws, (length ws <= n)%nat → Forall is_word ws → wf_words ws = true →
  utf16_Encode (utf16_Decode ws) = ws
  ∧ Forall (λ r, is_scalar r = true ∧ r ≠ 0) (utf16_Decode ws).
Proof.
  induction n as [|n IH]; intros ws Hn Hw Hwf.
  { destruct ws; [by split; [|constructor]|simpl in Hn; lia]. }
  destruct ws as [|w rest]; [by split; [|constructor]|]. inversion_clear Hw as [|? ? Hw0 Hrest].
  unfold is_word in Hw0. cbn [wf_words utf16_Decode] in *. destruct (Z.eqb_spec w 0); [done|].
  destruct (high_surrogate w) eqn:Eh.
  - destruct rest as [|w2 rest2]; [done|]. apply andb_true_iff in Hwf as [El Hwf].
    inversion_clear Hrest as [|? ? Hw2 Hrest2]. rewrite El. read_tests.
    rewrite (proj2 (Z.ltb_ge _ _)), (proj2 (Z.leb_gt _ _)) by lia. cbn [andb orb].
    destruct (IH rest2) as [IH1 IH2]; [simpl in Hn; lia|done..|]. split.
    + unfold utf16_Encode in *. cbn [fmap list_fmap concat].
      rewrite <- IH1 at 2. change (w :: w2 :: ?l) with ([w; w2] ++ l). f_equal.
      unfold utf16_encode_rune. decide_tests.
      f_equal; [|f_equal]; Z.to_euclidean_division_equations; lia.
    + constructor; [|done]. split; [|lia]. unfold is_scalar. by decide_tests.
  - apply andb_true_iff in Hwf as [El Hwf]. read_tests.
    assert (w < 55296 ∨ 57344 <= w) as Hs by lia.
    assert (((w <? 55296) || (57344 <=? w)) = true) as ->.
    { rewrite orb_true_iff, Z.ltb_lt, Z.leb_le. lia. }
    destruct (IH rest) as [IH1 IH2]; [simpl in Hn; lia|done..|].
    assert (within 0 55295 w || within 57344 65535 w = true) as E.
    { rewrite orb_true_iff, !within_true. lia. }
    split.
    + unfold utf16_Encode in *. cbn [fmap list_fmap concat]. unfold utf16_encode_rune at 1.
      rewrite E. cbn [app]. by f_equal.
    + constructor; [|done]. split; [|done]. unfold is_scalar.
      rewrite orb_true_iff, !within_true in *. lia.
Qed.

Lemma wf_encode_rune r rest :
  is_scalar r = true → r ≠ 0 → wf_words (utf16_encode_rune r ++ rest) = wf_words rest.
Proof.
  unfold is_scalar. rewrite orb_true_iff, !within_true. intros Hr Hz. unfold utf16_encode_rune.
  destruct (_ || _) eqn:E; cbn [app wf_words].
  - rewrite orb_true_iff, !within_true in E. unfold high_surrogate, low_surrogate.
    rewrite (proj2 (Z.eqb_neq _ _)) by lia.
    rewrite (proj2 (within_false 55296 56319 r)), (proj2 (within_false 56320 57343 r)) by lia. done.
  - rewrite orb_false_iff, !within_false in E. rewrite (proj2 (within_true _ _ _)) by lia.
    cbn [app wf_words]. unfold high_surrogate, low_surrogate.
    Z.to_euclidean_division_equations. decide_tests. done.
Qed.

Lemma wf_utf16_Encode rs :
  Forall (λ r, is_scalar r = true ∧ r ≠ 0) rs → wf_words (utf16_Encode rs) = true.
Proof.
  unfold utf16_Encode. induction 1 as [|r rs [Hr Hz] _ IH]; [done|]. cbn [fmap list_fmap concat].
  by rewrite wf_encode_rune.
Qed.

Lemma utf16_Encode_words rs :
  Forall (λ r, is_scalar r = true) rs → Forall is_word (utf16_Encode rs).
Proof.
  unfold utf16_Encode. induction 1 as [|r rs Hr _ IH]; [by constructor|].
  cbn [fmap list_fmap concat]. apply Forall_app. split; [|exact IH]. unfold utf16_encode_rune.
  unfold is_scalar in Hr. rewrite orb_true_iff, !within_true in Hr.
  destruct (_ || _) eqn:E.
  - rewrite orb_true_iff, !within_true in E. repeat constructor; unfold is_word; lia.
  - rewrite orb_false_iff, !within_false in E. rewrite (proj2 (within_true _ _ _)) by lia.
    repeat constructor; unfold is_word; Z.to_euclidean_division_equations; lia.
Qed.

(** ** Words and bytes *)

Lemma words_of_split ws :
  Forall is_word ws → words_of (concat (le_split 2 <$> ws)) = ws.
Proof.
  unfold is_word. induction 1 as [|w ws Hw _ IH]; [done|]. cbn [fmap list_fmap concat le_split app words_of].
  f_equal; [|exact IH]. Z.to_euclidean_division_equations. lia.
Qed.

Lemma zlen_split_words ws : zlen (concat (le_split 2 <$> ws)) = 2 * zlen ws.
Proof.
  induction ws as [|w ws IH]; [done|]. cbn [fmap list_fmap concat le_split app].
  rewrite !zlen_cons. cbn in IH. rewrite IH. lia.
Qed.

Lemma split_words_of n : ∀ data, (length data <= n)%nat → bytes data → zlen data mod 2 = 0 →
  concat (le_split 2 <$> words_of data) = data ∧ Forall is_word (words_of data).
Proof.
  induction n as [|n IH]; intros data Hn Hb He.
  { destruct data; [by split; [|constructor]|simpl in Hn; lia]. }
  destruct data as [|lo [|hi data]]; [by split; [|constructor]|done|].
  inversion_clear Hb as [|? ? Hlo Hb']. inversion_clear Hb' as [|? ? Hhi Hb]. unfold is_byte in *.
  rewrite !zlen_cons in He. destruct (IH data) as [IH1 IH2]; [simpl in Hn; lia|done| |].
  { replace (1 + (1 + zlen data)) with (zlen data + 1 * 2) in He by lia. by rewrite Z.mod_add in He. }
  cbn [words_of fmap list_fmap concat le_split app]. split.
  - f_equal; [|f_equal; [|exact IH1]]; Z.to_euclidean_division_equations; lia.
  - constructor; [|done]. unfold is_word. lia.
Qed.

(** C38: SMB names and Go strings correspond one to one.  [DecodeUTF16] accepts
    data and answers with a string exactly when the string is valid UTF-8
    without a NUL and its UTF-16 encoding is that data, so that decoding and
    encoding invert each other and a lone surrogate, an odd byte or a NUL is
    always refused. *)
Theorem utf16_exact (data value : list Z) :
  bytes data →
  DecodeUTF16 data = wret value ↔
  ValidString value = true ∧ 0 ∉ runes value ∧ EncodeUTF16 value = data.
Proof.
  intros Hb. unfold DecodeUTF16, EncodeUTF16. rewrite land_1. split.
  - destruct (Z.eqb_spec (zlen data mod 2) 0) as [He|]; [|done]. cbn [negb].
    destruct (split_words_of (length data) data) as [Hw Hwd]; [lia|done..|].
    destruct (wf_words (words_of data)) eqn:Hwf; [|done]. intros [= <-].
    destruct (encode_decode_words (length (words_of data)) (words_of data)) as [Henc Hsc]; [lia|done..|].
    assert (Forall (λ r, is_scalar r = true) (utf16_Decode (words_of data))) as Hs
      by (eapply Forall_impl; [exact Hsc|by intros r []]).
    rewrite runes_string_of_runes by done. rewrite Henc, Hw. split_and!; [|..|done].
    + by apply ValidString_string_of_runes.
    + intros H0. eapply Forall_forall in Hsc; [|exact H0]. by destruct Hsc.
  - intros (Hv & H0 & <-). destruct (encode_decoded (length value) value) as [Hre Hs]; [lia|done|].
    rewrite zlen_split_words. rewrite Z.mul_comm, Z_mod_mult. change (negb (0 =? 0)) with false. cbn match.
    rewrite words_of_split by by apply utf16_Encode_words.
    rewrite wf_utf16_Encode; [by rewrite utf16_Decode_Encode, Hre|].
    apply Forall_forall. intros r Hr. split; [by eapply Forall_forall in Hs|]. by intros ->.
Qed.

(** A name with a two-byte letter and one outside the basic plane. *)
Lemma utf16_exact_witness :
  EncodeUTF16 [195; 164; 240; 159; 146; 190] = [228; 0; 61; 216; 190; 220]
  ∧ DecodeUTF16 [228; 0; 61; 216; 190; 220] = wret [195; 164; 240; 159; 146; 190].
Proof.
  split; [vm_compute; reflexivity|].
  apply (utf16_exact [228; 0; 61; 216; 190; 220] [195; 164; 240; 159; 146; 190]).
  - apply (bool_decide_unpack (bytes _)). vm_compute. exact I.
  - split; [vm_compute; reflexivity|]. split; [|vm_compute; reflexivity].
    vm_compute. intros H. by repeat (inversion H as [|? ? ? H']; clear H; rename H' into H).
Defined.
