(* ===== verification/WireRequests.v ===== *)
(** * SMB messages: requests

    The request parsers of [packages/smb/internal/wire]: [session.go],
    [files.go], [file_io.go], and the request halves of [query_directory.go] and
    [file_info.go].  Each parser is the Go method of the same name on [Request]. *)

From S2P Require Import Prelude Bytes WireHeader WireText.

(** ** session.go *)

Definition ContextPreauthIntegrity : Z := 1.
Definition ContextEncryption : Z := 2.
Definition ContextCompression : Z := 3.
Definition ContextRDMATransform : Z := 7.
Definition ContextSigning : Z := 8.

Record Context := mkContext { cx_Type : Z; cx_Data : list Z }.

Record NegotiateRequest := {
  nr_Dialects : list Z; nr_SecurityMode : Z; nr_Capabilities : Z; nr_ClientGUID : list Z;
  nr_Contexts : list Context }.

Record SessionSetupRequest := {
  ss_Flags : Z; ss_SecurityMode : Z; ss_Capabilities : Z; ss_Channel : Z;
  ss_PreviousSessionID : Z; ss_Token : list Z }.

Record PreauthCapabilities := { HashAlgorithms : list Z; Salt : list Z }.

Record SigningCapabilities := { Algorithms : list Z }.

Definition contextMustBeUnique (kind : Z) : bool :=
  (kind =? ContextPreauthIntegrity) || (kind =? ContextEncryption) || (kind =? ContextCompression)
  || (kind =? ContextRDMATransform) || (kind =? ContextSigning).

(** [count] consecutive [uint16]s from [lo] on. *)
Fixpoint read_words (b : list Z) (lo : Z) (count : nat) : option (list Z) :=
  match count with
  | O => Some []
  | S count =>
      let% w := Uint16 b lo in
      let% ws := read_words b (lo + 2) count in
      Some (w :: ws)
  end.

(** The loop over the negotiate contexts, from an offset of the packet on;
    [seen] holds the kinds met that must be unique. *)
Fixpoint contexts_loop (count : nat) (packet : list Z) (offset : Z) (seen : list Z)
    (preauth : Z) (contexts : list Context) : W (list Context * Z) :=
  match count with
  | O => wret (contexts, preauth)
  | S count =>
      if zlen packet <? u64 (offset + 8) then malformed
      else
        let% encoded := slice packet offset (zlen packet) in
        let% kind := Uint16 encoded 0 in
        let% length := Uint16 encoded 2 in
        let end_ := u64 (offset + 8 + length) in
        if (end_ <? offset) || (zlen packet <? end_) then malformed
        else if contextMustBeUnique kind && existsb (Z.eqb kind) seen then malformed
        else
          let seen := if contextMustBeUnique kind then kind :: seen else seen in
          let preauth := if kind =? ContextPreauthIntegrity then preauth + 1 else preauth in
          let% data := slice encoded 8 (8 + length) in
          contexts_loop count packet (Z.ldiff (end_ + 7) 7) seen preauth
            (contexts ++ [mkContext kind data])
  end.

Definition Request_Negotiate (request : Request) : W NegotiateRequest :=
  let body := Body request in
  let* _ := fixed request Negotiate 36 36 in
  if has_flag (Flags (rq_Header request)) FlagSigned then malformed
  else
    let% dialectCount := Uint16 body 2 in
    if (dialectCount =? 0) || ((zlen body - 36) / 2 <? dialectCount) then malformed
    else
      let% securityMode := Uint16 body 4 in
      let% capabilities := Uint32 body 8 in
      let% guid := slice body 12 28 in
      let% dialects := read_words body 36 (Z.to_nat dialectCount) in
      let result contexts :=
        {| nr_Dialects := dialects; nr_SecurityMode := securityMode;
           nr_Capabilities := capabilities; nr_ClientGUID := guid; nr_Contexts := contexts |} in
      if negb (existsb (Z.eqb Dialect311) dialects) then wret (result [])
      else
        let% contextCount := Uint16 body 32 in
        let% offset := Uint32 body 28 in
        let minimum := HeaderSize + 36 + dialectCount * 2 in
        if (contextCount <? 1) || (maxContexts request <? contextCount)
           || negb (Z.land offset 7 =? 0) || (offset <? minimum)
        then malformed
        else
          let* found := contexts_loop (Z.to_nat contextCount) (Packet request) offset [] 0 [] in
          if negb (found.2 =? 1) then malformed else wret (result found.1).

Definition DecodePreauthCapabilities (data : list Z) : W PreauthCapabilities :=
  if zlen data <? 6 then malformed
  else
    let% count := Uint16 data 0 in
    let% saltLength := Uint16 data 2 in
    if (count =? 0) || ((zlen data - 4) / 2 <? count)
       || negb (4 + count * 2 + saltLength =? zlen data)
    then malformed
    else
      let% algorithms := read_words data 4 (Z.to_nat count) in
      let% salt := slice data (4 + count * 2) (zlen data) in
      wret {| HashAlgorithms := algorithms; Salt := salt |}.

Definition DecodeSigningCapabilities (data : list Z) : W SigningCapabilities :=
  if zlen data <? 4 then malformed
  else
    let% count := Uint16 data 0 in
    if (count =? 0) || ((zlen data - 2) / 2 <? count) || negb (2 + count * 2 =? zlen data)
    then malformed
    else
      let% algorithms := read_words data 2 (Z.to_nat count) in
      wret {| Algorithms := algorithms |}.

Definition Request_SessionSetup (request : Request) : W SessionSetupRequest :=
  let body := Body request in
  let* _ := fixed request SessionSetup 25 24 in
  let% flags := index body 2 in
  let% securityMode := index body 3 in
  let% capabilities := Uint32 body 4 in
  let% channel := Uint32 body 8 in
  let% previous := Uint64 body 16 in
  let% offset := Uint16 body 12 in
  let% length := Uint16 body 14 in
  let* token := field request offset length (HeaderSize + 24) in
  wret {| ss_Flags := flags; ss_SecurityMode := securityMode; ss_Capabilities := capabilities;
          ss_Channel := channel; ss_PreviousSessionID := previous; ss_Token := token |}.

Definition Request_TreePath (request : Request) : W (list Z) :=
  let body := Body request in
  let* _ := fixed request TreeConnect 9 8 in
  let% flags := Uint16 body 2 in
  if negb (flags =? 0) then malformed
  else
    let% offset := Uint16 body 4 in
    let% length := Uint16 body 6 in
    let* data := field request offset length (HeaderSize + 8) in
    if zlen data =? 0 then malformed else DecodeUTF16 data.

Definition Request_Empty (request : Request) : W unit :=
  let command := Command (rq_Header request) in
  if (command =? Logoff) || (command =? TreeDisconnect) || (command =? Cancel) || (command =? Echo) then
    let* _ := fixed request command 4 4 in
    let% padding := slice (Body request) 4 (zlen (Body request)) in
    if NextCommand (rq_Header request) =? 0 then
      if negb (zlen padding =? 0) then malformed else wret tt
    else if negb (zlen padding =? Z.land (- (HeaderSize + 4)) 7) then malformed
    else if forallb (λ value, value =? 0) padding then wret tt else malformed
  else malformed.

(** ** files.go *)

Abbreviation FileID := (list Z) (only parsing).

(** Eight bytes of all ones. *)
Definition all_ones : Z := 18446744073709551615.

Definition IsRelatedPlaceholder (id : FileID) : bool := bool_decide (id = replicate 16 255).

(** [HasPartialRelatedPlaceholder] of a sixteen-byte array. *)
Definition HasPartialRelatedPlaceholder (id : FileID) : bool :=
  let persistent := bool_decide (Uint64 id 0 = Some all_ones) in
  let volatile := bool_decide (Uint64 id 8 = Some all_ones) in
  negb (eqb persistent volatile).

Record CreateContext := mkCreateContext { cc_Name : list Z; cc_Data : list Z }.

Record CreateRequest := {
  cr_SecurityFlags : Z; cr_OplockLevel : Z; cr_Impersonation : Z; cr_DesiredAccess : Z;
  cr_Attributes : Z; cr_ShareAccess : Z; cr_Disposition : Z; cr_Options : Z;
  cr_Name : list Z; cr_Contexts : list CreateContext }.

Record CloseRequest := { cl_Flags : Z; cl_FileID : FileID }.

(** The loop over the create contexts; a turn that goes on leaves fewer bytes. *)
Fixpoint create_contexts (fuel : nat) (maxContexts : Z) (result : list CreateContext)
    (contexts : list Z) : W (list CreateContext) :=
  match fuel with
  | O => None
  | S fuel =>
      if zlen contexts =? 0 then wret result
      else if (maxContexts <=? zlen result) || (zlen contexts <? 16) then malformed
      else
        let% next := Uint32 contexts 0 in
        if negb (next =? 0)
           && ((next <? 16) || negb (Z.land next 7 =? 0) || (zlen contexts <? next + 16))
        then malformed
        else
          let end_ := if next =? 0 then zlen contexts else next in
          let% nameStart := Uint16 contexts 4 in
          let% nameSize := Uint16 contexts 6 in
          let% dataStart := Uint16 contexts 10 in
          let% dataSize := Uint32 contexts 12 in
          if (nameSize <? 4) || (nameStart <? 16) || negb (Z.land nameStart 7 =? 0)
             || (end_ <? nameStart + nameSize)
             || negb (dataSize =? 0)
                && ((dataStart <? 16) || negb (Z.land dataStart 7 =? 0)
                    || (end_ <? dataStart + dataSize)
                    || (dataStart <? nameStart + nameSize) && (nameStart <? dataStart + dataSize))
          then malformed
          else
            let% name := slice contexts nameStart (nameStart + nameSize) in
            let% data := (if dataSize =? 0 then Some []
                          else slice contexts dataStart (dataStart + dataSize)) in
            let result := result ++ [mkCreateContext name data] in
            if next =? 0 then wret result
            else
              let% rest := slice contexts end_ (zlen contexts) in
              create_contexts fuel maxContexts result rest
  end.

Definition Request_Create (request : Request) : W CreateRequest :=
  let body := Body request in
  let* _ := fixed request Create 57 57 in
  let% securityFlags := index body 2 in
  let% oplockLevel := index body 3 in
  let% impersonation := Uint32 body 4 in
  let% desiredAccess := Uint32 body 24 in
  let% attributes := Uint32 body 28 in
  let% shareAccess := Uint32 body 32 in
  let% disposition := Uint32 body 36 in
  let% options := Uint32 body 40 in
  let% nameOffset := Uint16 body 44 in
  let% nameLength := Uint16 body 46 in
  if negb (Z.land nameOffset 7 =? 0) then malformed
  else
    let* encoded := field request nameOffset nameLength (HeaderSize + 56) in
    let* name := DecodeUTF16 encoded in
    let% contextOffset := Uint32 body 48 in
    let% contextLength := Uint32 body 52 in
    if (contextLength =? 0) && negb (contextOffset =? 0)
       || negb (contextLength =? 0) && negb (Z.land contextOffset 7 =? 0)
    then malformed
    else
      let* contexts := field request contextOffset contextLength (HeaderSize + 56) in
      if negb (nameLength =? 0) && negb (contextLength =? 0)
         && (nameOffset <? contextOffset + contextLength)
         && (contextOffset <? nameOffset + nameLength)
      then malformed
      else
        let* result := create_contexts (S (length contexts)) (maxContexts request) [] contexts in
        wret {| cr_SecurityFlags := securityFlags; cr_OplockLevel := oplockLevel;
                cr_Impersonation := impersonation; cr_DesiredAccess := desiredAccess;
                cr_Attributes := attributes; cr_ShareAccess := shareAccess;
                cr_Disposition := disposition; cr_Options := options; cr_Name := name;
                cr_Contexts := result |}.

(** The body length of a request of 24 bytes, which compound padding extends. *)
Definition wrong_length24 (request : Request) : bool :=
  (NextCommand (rq_Header request) =? 0) && negb (zlen (Body request) =? 24)
  || negb (NextCommand (rq_Header request) =? 0)
     && negb (zlen (Body request) =? align8 (HeaderSize + 24) - HeaderSize).

Definition Request_Close (request : Request) : W CloseRequest :=
  let body := Body request in
  let* _ := fixed request Close 24 24 in
  if wrong_length24 request then malformed
  else
    let% flags := Uint16 body 2 in
    let% id := slice body 8 24 in
    if HasPartialRelatedPlaceholder id then malformed
    else wret {| cl_Flags := flags; cl_FileID := id |}.

(** ** file_io.go *)

Definition ChannelNone : Z := 0.

Record ReadRequest := {
  rr_Padding : Z; rr_Flags : Z; rr_Length : Z; rr_Offset : Z; rr_FileID : FileID;
  rr_MinimumCount : Z; rr_Channel : Z; rr_RemainingBytes : Z; rr_ChannelInfoOffset : Z;
  rr_ChannelInfoLength : Z; rr_ChannelInfo : list Z }.

Record WriteRequest := {
  wr_DataOffset : Z; wr_Length : Z; wr_Offset : Z; wr_FileID : FileID; wr_Channel : Z;
  wr_RemainingBytes : Z; wr_ChannelInfoOffset : Z; wr_ChannelInfoLength : Z; wr_Flags : Z;
  wr_Data : list Z; wr_ChannelInfo : list Z }.

Record FlushRequest := { fr_FileID : FileID }.

Definition Request_Read (request : Request) : W ReadRequest :=
  let body := Body request in
  let* _ := fixed request Read 49 48 in
  let% padding := index body 2 in
  let% flags := index body 3 in
  let% length := Uint32 body 4 in
  let% offset := Uint64 body 8 in
  let% id := slice body 16 32 in
  let% minimumCount := Uint32 body 32 in
  let% channel := Uint32 body 36 in
  let% remaining := Uint32 body 40 in
  let% infoOffset := Uint16 body 44 in
  let% infoLength := Uint16 body 46 in
  if HasPartialRelatedPlaceholder id then malformed
  else
    let* info := (if negb (channel =? ChannelNone)
                  then field request infoOffset infoLength (HeaderSize + 48) else wret []) in
    wret {| rr_Padding := padding; rr_Flags := flags; rr_Length := length; rr_Offset := offset;
            rr_FileID := id; rr_MinimumCount := minimumCount; rr_Channel := channel;
            rr_RemainingBytes := remaining; rr_ChannelInfoOffset := infoOffset;
            rr_ChannelInfoLength := infoLength; rr_ChannelInfo := info |}.

Definition Request_Write (request : Request) : W WriteRequest :=
  let body := Body request in
  let* _ := fixed request Write 49 48 in
  let% dataOffset := Uint16 body 2 in
  let% length := Uint32 body 4 in
  let% offset := Uint64 body 8 in
  let% id := slice body 16 32 in
  let% channel := Uint32 body 32 in
  let% remaining := Uint32 body 36 in
  let% infoOffset := Uint16 body 40 in
  let% infoLength := Uint16 body 42 in
  let% flags := Uint32 body 44 in
  if HasPartialRelatedPlaceholder id then malformed
  else if (channel =? ChannelNone)
          && ((256 <? dataOffset) || (zlen (Packet request) <? dataOffset))
  then malformed
  else
    let* data := (if negb (length =? 0)
                  then field request dataOffset length (HeaderSize + 48) else wret []) in
    let* info := (if negb (channel =? ChannelNone)
                  then field request infoOffset infoLength (HeaderSize + 48) else wret []) in
    wret {| wr_DataOffset := dataOffset; wr_Length := length; wr_Offset := offset;
            wr_FileID := id; wr_Channel := channel; wr_RemainingBytes := remaining;
            wr_ChannelInfoOffset := infoOffset; wr_ChannelInfoLength := infoLength;
            wr_Flags := flags; wr_Data := data; wr_ChannelInfo := info |}.

Definition Request_Flush (request : Request) : W FlushRequest :=
  let* _ := fixed request Flush 24 24 in
  if wrong_length24 request then malformed
  else
    let% id := slice (Body request) 8 24 in
    if HasPartialRelatedPlaceholder id then malformed else wret {| fr_FileID := id |}.

(** ** query_directory.go *)

Definition QueryDirectoryRestartScans : Z := 1.
Definition QueryDirectoryReturnSingleEntry : Z := 2.
Definition QueryDirectoryIndexSpecified : Z := 4.
Definition QueryDirectoryReopen : Z := 16.

Definition query_directory_flags : Z :=
  Z.lor (Z.lor QueryDirectoryRestartScans QueryDirectoryReturnSingleEntry)
        (Z.lor QueryDirectoryIndexSpecified QueryDirectoryReopen).

Record QueryDirectoryRequest := {
  qd_FileInformationClass : Z; qd_Flags : Z; qd_FileIndex : Z; qd_FileID : FileID;
  qd_Pattern : list Z; qd_OutputBufferLength : Z }.

Definition Request_QueryDirectory (request : Request) : W QueryDirectoryRequest :=
  let body := Body request in
  let* _ := fixed request QueryDirectory 33 32 in
  let% class := index body 2 in
  let% flags := index body 3 in
  let% fileIndex := Uint32 body 4 in
  let% id := slice body 8 24 in
  let% outputLength := Uint32 body 28 in
  if negb (Z.ldiff flags query_directory_flags =? 0) || HasPartialRelatedPlaceholder id
     || (maxDirectTCPPayload - HeaderSize - 8 <? outputLength)
  then malformed
  else
    let% offset := Uint16 body 24 in
    let% length := Uint16 body 26 in
    if negb (Z.land offset 1 =? 0) || negb (Z.land length 1 =? 0)
       || (length =? 0) && negb (offset =? 0)
    then malformed
    else
      let* encoded := field request offset length (HeaderSize + 32) in
      let* pattern := DecodeUTF16 encoded in
      wret {| qd_FileInformationClass := class; qd_Flags := flags; qd_FileIndex := fileIndex;
              qd_FileID := id; qd_Pattern := pattern; qd_OutputBufferLength := outputLength |}.

(** ** file_info.go *)

Record QueryInfoRequest := {
  qi_InfoType : Z; qi_FileInfoClass : Z; qi_OutputBufferLength : Z; qi_InputBufferLength : Z;
  qi_FileID : FileID }.

Record SetInfoRequest := {
  si_InfoType : Z; si_FileInfoClass : Z; si_BufferLength : Z; si_BufferOffset : Z;
  si_AdditionalInformation : Z; si_FileID : FileID; si_Buffer : list Z }.

Definition Request_QueryInfo (request : Request) : W QueryInfoRequest :=
  let body := Body request in
  let* _ := fixed request QueryInfo 41 40 in
  let% infoType := index body 2 in
  let% class := index body 3 in
  let% outputLength := Uint32 body 4 in
  let% inputLength := Uint32 body 12 in
  let% id := slice body 24 40 in
  if HasPartialRelatedPlaceholder id then malformed
  else wret {| qi_InfoType := infoType; qi_FileInfoClass := class;
               qi_OutputBufferLength := outputLength; qi_InputBufferLength := inputLength;
               qi_FileID := id |}.

Definition Request_SetInfo (request : Request) : W SetInfoRequest :=
  let body := Body request in
  let* _ := fixed request SetInfo 33 32 in
  let% infoType := index body 2 in
  let% class := index body 3 in
  let% bufferLength := Uint32 body 4 in
  let% bufferOffset := Uint16 body 8 in
  let% additional := Uint32 body 12 in
  let% id := slice body 16 32 in
  if HasPartialRelatedPlaceholder id then malformed
  else
    let* buffer := field request bufferOffset bufferLength (HeaderSize + 32) in
    wret {| si_InfoType := infoType; si_FileInfoClass := class; si_BufferLength := bufferLength;
            si_BufferOffset := bufferOffset; si_AdditionalInformation := additional;
            si_FileID := id; si_Buffer := buffer |}.

(** ** No panic *)

Definition no_panic {A} (m : W A) : Prop := m ≠ None.

Lemma no_panic_ret {A} (a : A) : no_panic (wret a).
Proof. done. Qed.
Lemma no_panic_malformed {A} : no_panic (@malformed A).
Proof. done. Qed.
Lemma no_panic_bind {A B} (m : W A) (k : A → W B) :
  no_panic m → (∀ a, m = wret a → no_panic (k a)) → no_panic (let* x := m in k x).
Proof. unfold no_panic. destruct m as [[a|]|]; simpl; try done. intros _ H. by apply H. Qed.

Lemma fixed_no_panic q command size minimum : 2 <= minimum → no_panic (fixed q command size minimum).
Proof. intros H. by destruct (fixed_total q command size minimum H) as (r & -> & _). Qed.

Lemma fixed_body q command size minimum :
  2 <= minimum → fixed q command size minimum = wret tt →
  Command (rq_Header q) = command ∧ minimum <= zlen (Body q).
Proof.
  intros H E. destruct (fixed_total q command size minimum H) as (r & Hr & Hp).
  rewrite E in Hr. injection Hr as <-. by apply Hp.
Qed.

Lemma field_no_panic q offset length minimum :
  is_u32 offset → is_u32 length → 0 <= minimum → no_panic (field q offset length minimum).
Proof. intros H1 H2 H3. by destruct (field_total q offset length minimum H1 H2 H3) as (r & -> & _). Qed.

Lemma field_inv q offset length minimum data :
  is_u32 offset → is_u32 length → 0 <= minimum → field q offset length minimum = wret data →
  if length =? 0 then data = []
  else minimum <= offset ∧ offset + length <= zlen (Packet q)
       ∧ slice (Packet q) offset (offset + length) = Some data.
Proof.
  intros H1 H2 H3 E. destruct (field_total q offset length minimum H1 H2 H3) as (r & Hr & Hp).
  rewrite E in Hr. injection Hr as <-. by apply Hp.
Qed.

Lemma DecodeUTF16_no_panic data : no_panic (DecodeUTF16 data).
Proof. unfold DecodeUTF16. destruct (negb _); [done|]. by destruct (wf_words _). Qed.

Lemma read_words_total b count : ∀ lo,
  0 <= lo → lo + 2 * Z.of_nat count <= zlen b →
  ∃ ws, read_words b lo count = Some ws ∧ length ws = count.
Proof.
  induction count as [|count IH]; intros lo H1 H2; cbn [read_words]; [by exists []|].
  read_step. destruct (IH (lo + 2)) as (ws & -> & Hl); [lia..|]. eexists. split; [done|]. simpl. lia.
Qed.

(** The integers of a request's bytes have their widths. *)
Lemma u16_u32 v : 0 <= v < 256 ^ Z.of_nat 2 → is_u32 v.
Proof. unfold is_u32. change (256 ^ Z.of_nat 2) with 65536. lia. Qed.
Lemma u32_u32 v : 0 <= v < 256 ^ Z.of_nat 4 → is_u32 v.
Proof. unfold is_u32. by change (256 ^ Z.of_nat 4) with 4294967296. Qed.
#[export] Hint Resolve u16_u32 u32_u32 no_panic_ret no_panic_malformed DecodeUTF16_no_panic : wire.

(** One step of a parser: a fixed part, a read within it, a test, a field. *)
Ltac parser_step :=
  first
    [ apply no_panic_ret | apply no_panic_malformed | apply DecodeUTF16_no_panic
    | apply fixed_no_panic; lia
    | apply field_no_panic; [by auto with wire|by auto with wire|lia]
    | apply no_panic_bind; [|let a := fresh "a" in let Ha := fresh "Ha" in intros a Ha]
    | match goal with
      | H : fixed _ _ _ _ = wret ?u |- _ =>
          destruct u; apply fixed_body in H; [destruct H|lia]
      end
    | progress (repeat read_step)
    | match goal with |- no_panic (if ?t then _ else _) => destruct t eqn:? end ].

Lemma contexts_loop_no_panic count : ∀ packet offset seen preauth contexts,
  bytes packet → 0 <= offset <= MaxInt64 → zlen packet <= maxDirectTCPPayload →
  no_panic (contexts_loop count packet offset seen preauth contexts).
Proof.
  induction count as [|count IH]; intros packet offset seen preauth contexts Hb Ho Hl;
    cbn [contexts_loop]; [done|].
  rewrite u64_small by (unfold is_u64; lia).
  destruct (_ <? _) eqn:E1; [done|]. bool_prop.
  destruct (slice_is_Some packet offset (zlen packet)) as (encoded & Es & Hle); [lia..|].
  rewrite Es. cbn [mbind option_bind]. pose proof (bytes_slice _ _ _ _ Hb Es) as Hbe.
  unfold Uint16. destruct (le_get_is_Some 2 encoded 0) as (kind & -> & _); [lia..|].
  destruct (le_get_is_Some 2 encoded 2) as (n & -> & Hn); [lia..|]. cbn [mbind option_bind].
  specialize (Hn Hbe). change (256 ^ Z.of_nat 2) with 65536 in Hn.
  rewrite u64_small by (unfold is_u64; lia).
  destruct (_ || _) eqn:E2; [done|]. bool_prop.
  destruct (contextMustBeUnique kind && _); [done|].
  read_step. destruct (align8_spec (offset + 8 + n)) as [Ha _]; [lia|]. unfold align8 in Ha.
  apply IH; [done|lia..].
Qed.

Lemma create_contexts_no_panic fuel : ∀ limit result contexts,
  bytes contexts → (length contexts < fuel)%nat →
  no_panic (create_contexts fuel limit result contexts).
Proof.
  induction fuel as [|fuel IH]; intros limit result contexts Hb Hf; [lia|]. cbn [create_contexts].
  destruct (zlen contexts =? 0) eqn:E0; [done|]. destruct (_ || _) eqn:E1; [done|]. bool_prop.
  unfold Uint16, Uint32.
  destruct (le_get_is_Some 4 contexts 0) as (next & -> & Hnext); [lia..|].
  destruct (le_get_is_Some 2 contexts 4) as (ns & -> & Hns); [lia..|].
  destruct (le_get_is_Some 2 contexts 6) as (nl & -> & Hnl); [lia..|].
  destruct (le_get_is_Some 2 contexts 10) as (ds & -> & Hds); [lia..|].
  destruct (le_get_is_Some 4 contexts 12) as (dl & -> & Hdl); [lia..|]. cbn [mbind option_bind].
  specialize (Hnext Hb). specialize (Hns Hb). specialize (Hnl Hb). specialize (Hds Hb). specialize (Hdl Hb).
  destruct (negb (next =? 0) && _) eqn:E2; [done|].
  set (end_ := if next =? 0 then _ else _).
  assert (Hend : 16 <= end_ <= zlen contexts ∧ (next ≠ 0 → end_ = next)).
  { unfold end_. destruct (Z.eqb_spec next 0); [lia|]. simpl in E2. bool_prop. lia. }
  clearbody end_. destruct (_ || negb (dl =? 0) && _) eqn:E3; [done|]. apply orb_false_iff in E3 as [E3 E4]. bool_prop.
  destruct (slice_is_Some contexts ns (ns + nl)) as (name & -> & _); [lia..|]. cbn [mbind option_bind].
  assert (∃ data, (if dl =? 0 then Some [] else slice contexts ds (ds + dl)) = Some data) as [data ->].
  { destruct (Z.eqb_spec dl 0); [by eexists|]. destruct E4 as [E4|E4]; [by bool_prop|]. bool_prop.
    destruct (slice_is_Some contexts ds (ds + dl)) as (data & -> & _); [lia..|by eexists]. }
  cbn [mbind option_bind]. destruct (next =? 0) eqn:En; [done|]. bool_prop.
  destruct (slice_is_Some contexts end_ (zlen contexts)) as (rest & Er & Hl); [lia..|]. rewrite Er.
  cbn [mbind option_bind]. apply IH; [by eapply bytes_slice|]. unfold zlen in *. lia.
Qed.

(** A request that came out of a frame. *)
Definition from_frame (q : Request) : Prop :=
  command_ok q ∧ bytes (Packet q) ∧ bytes (Body q) ∧ zlen (Packet q) <= maxDirectTCPPayload.

Lemma ParseFrame_requests packet limits requests :
  bytes packet → ParseFrame packet limits = wret requests → Forall from_frame requests.
Proof.
  intros Hb E. destruct (ParseFrame_spec packet limits) as (r & Hr & Hout).
  rewrite E in Hr. injection Hr as <-. destruct (Hout requests eq_refl) as (Hcat & _ & _ & Hall & _).
  assert (Hlen : zlen packet <= maxDirectTCPPayload).
  { unfold ParseFrame in E. destruct (_ || _) eqn:Eb in E; [done|]. bool_prop. lia. }
  clear E Hout. revert packet Hb Hcat Hlen.
  induction Hall as [|q rest [Hq _] _ IH]; intros packet Hb Hcat Hlen; [by constructor|].
  cbn in Hcat. subst packet. rewrite zlen_app in Hlen. apply Forall_app in Hb as [Hbq Hbr].
  set (tail := concat _) in *. pose proof (zlen_nonneg tail). pose proof (zlen_nonneg (Packet q)).
  constructor; [|by apply (IH tail); [..|lia]]. split; [exact Hq|].
  destruct Hq as (_ & H2 & _). split_and!; [done|exact (bytes_slice _ _ _ _ Hbq H2)|lia].
Qed.

Lemma Negotiate_no_panic q : from_frame q → no_panic (Request_Negotiate q).
Proof.
  intros (_ & Hbp & Hbb & Hl). unfold Request_Negotiate. repeat parser_step.
  specialize (Hv Hbb). specialize (Hv3 Hbb). change (256 ^ Z.of_nat 4) with 4294967296 in Hv. bool_prop.
  destruct (read_words_total (Body q) (Z.to_nat v3) 36) as (ws & -> & _); [lia| |].
  { Z.to_euclidean_division_equations. lia. }
  cbn [mbind option_bind]. repeat parser_step. apply contexts_loop_no_panic; [done|lia..].
Qed.

Lemma Create_no_panic q : from_frame q → no_panic (Request_Create q).
Proof.
  intros (_ & Hbp & Hbb & Hl). unfold Request_Create. repeat parser_step.
  apply create_contexts_no_panic; [|lia].
  match goal with H : field q ?o ?n _ = wret ?c |- bytes ?c =>
    apply field_inv in H; [|by auto with wire|by auto with wire|lia] end.
  match goal with H : if ?t then _ else _ |- _ => destruct t end; [by subst|].
  naive_solver eauto using bytes_slice.
Qed.

(** C5: no frame can crash the request parsers.  Whatever bytes a peer sends, each
    request that [ParseFrame] hands out is parsed by every parser of the package
    to a value or to [ErrMalformed]: no slice or index is out of range, and the
    context loops end. *)
Theorem requests_never_panic (packet : list Z) (limits : Limits) (requests : list Request)
    (q : Request) :
  bytes packet → ParseFrame packet limits = wret requests → q ∈ requests →
  no_panic (Request_Negotiate q) ∧ no_panic (Request_SessionSetup q)
  ∧ no_panic (Request_TreePath q) ∧ no_panic (Request_Empty q) ∧ no_panic (Request_Create q)
  ∧ no_panic (Request_Close q) ∧ no_panic (Request_Read q) ∧ no_panic (Request_Write q)
  ∧ no_panic (Request_Flush q) ∧ no_panic (Request_QueryDirectory q)
  ∧ no_panic (Request_QueryInfo q) ∧ no_panic (Request_SetInfo q).
Proof.
  intros Hb Hp Hq. pose proof (ParseFrame_requests packet limits requests Hb Hp) as Hall.
  eapply Forall_forall in Hall; [|exact Hq].
  pose proof Hall as (_ & Hbp & Hbb & Hl).
  split_and!; try (by apply Negotiate_no_panic); try (by apply Create_no_panic).
  - unfold Request_SessionSetup. repeat parser_step.
  - unfold Request_TreePath. repeat parser_step.
  - unfold Request_Empty. repeat parser_step.
  - unfold Request_Close. repeat parser_step.
  - unfold Request_Read. repeat parser_step.
  - unfold Request_Write. repeat parser_step.
  - unfold Request_Flush. repeat parser_step.
  - unfold Request_QueryDirectory. repeat parser_step.
  - unfold Request_QueryInfo. repeat parser_step.
  - unfold Request_SetInfo. repeat parser_step.
Qed.

Lemma requests_never_panic_witness :
  ∃ a b, ParseFrame example_frame example_limits = wret [a; b]
    ∧ no_panic (Request_Create a) ∧ Request_Empty a = wret tt.
Proof.
  destruct (ParseFrame example_frame example_limits) as [[rs|]|] eqn:E;
    [|vm_compute in E; discriminate..].
  pose proof E as E'. vm_compute in E'. injection E' as E'.
  destruct rs as [|a [|b [|? ?]]]; try discriminate E'. exists a, b. split; [reflexivity|].
  destruct (requests_never_panic example_frame example_limits [a; b] a) as (_ & _ & _ & _ & Hc & _).
  - apply (bool_decide_unpack (bytes _)). vm_compute. exact I.
  - exact E.
  - by left.
  - split; [exact Hc|]. injection E' as <- _. vm_compute. reflexivity.
Defined.

(** ** What an accepted request says *)

Abbreviation kinds contexts := (cx_Type <$> contexts) (only parsing).

Definition is_preauth (kind : Z) : bool := kind =? ContextPreauthIntegrity.

Lemma contexts_loop_spec count : ∀ packet offset seen preauth contexts out p,
  contexts_loop count packet offset seen preauth contexts = wret (out, p) →
  NoDup seen →
  ∃ new, out = contexts ++ new ∧ length new = count
    ∧ p = preauth + zlen (List.filter is_preauth (kinds new))
    ∧ NoDup (seen ++ List.filter contextMustBeUnique (kinds new)).
Proof.
  induction count as [|count IH]; intros packet offset seen preauth contexts out p;
    cbn [contexts_loop].
  { intros [= <- <-] Hnd. exists []. cbn [fmap list_fmap List.filter]. rewrite zlen_nil, !app_nil_r.
    split_and!; [done..|lia|done]. }
  destruct (_ <? _); [done|]. destruct (slice packet _ _) as [encoded|]; [|done].
  cbn [mbind option_bind]. destruct (Uint16 encoded 0) as [kind|]; [|done].
  destruct (Uint16 encoded 2) as [n|]; [|done]. cbn [mbind option_bind].
  destruct (_ || _); [done|]. destruct (contextMustBeUnique kind && existsb _ seen) eqn:Eu; [done|].
  destruct (slice encoded _ _) as [data|]; [|done]. cbn [mbind option_bind].
  intros E Hnd. apply IH in E as (new & -> & Hl & -> & Hnd').
  2: { destruct (contextMustBeUnique kind); [|done]. constructor; [|done]. intros Hin. simpl in Eu.
       apply not_true_iff_false in Eu. apply Eu, existsb_exists. exists kind.
       by rewrite <- list_elem_of_In, Z.eqb_refl. }
  exists (mkContext kind data :: new). rewrite <- app_assoc. cbn [fmap list_fmap List.filter cx_Type].
  split_and!; [done|by simpl; f_equal|..].
  - unfold is_preauth at 2. destruct (kind =? _); [rewrite zlen_cons|]; lia.
  - destruct (contextMustBeUnique kind); [|done]. by rewrite <- Permutation_middle.
Qed.

(** An SMB 3.1.1 negotiation has one hash proposal.  A negotiation that
    [Negotiate] accepts and that offers 3.1.1 carries as many contexts as it
    announces, between one and [maxContexts]; exactly one of them is the
    preauthentication context, no context that must be unique is repeated, and
    a negotiation without 3.1.1 has none. *)
Theorem negotiate_contexts (q : Request) (n : NegotiateRequest) :
  from_frame q → Request_Negotiate q = wret n →
  if existsb (Z.eqb Dialect311) (nr_Dialects n) then
    Uint16 (Body q) 32 = Some (zlen (nr_Contexts n)) ∧ 1 <= zlen (nr_Contexts n) <= maxContexts q
    ∧ zlen (List.filter is_preauth (kinds (nr_Contexts n))) = 1
    ∧ NoDup (List.filter contextMustBeUnique (kinds (nr_Contexts n)))
  else nr_Contexts n = [].
Proof.
  intros (_ & _ & Hbb & _). unfold Request_Negotiate.
  destruct (fixed q _ _ _) as [[[]|]|] eqn:Ef; try done. cbn [wbind].
  apply fixed_body in Ef as [_ Hlen]; [|lia]. destruct (has_flag _ _); [done|].
  destruct (Uint16 (Body q) 2) as [count|] eqn:E2; [|done].
  destruct (le_get_is_Some 2 (Body q) 32) as (cc & Ecc & Hcc); [lia..|]. specialize (Hcc Hbb).
  repeat read_step. destruct (_ || _); [done|].
  destruct (read_words _ _ _) as [ds|]; [|done]. cbn [mbind option_bind].
  destruct (existsb _ ds) eqn:Ed; cbn [negb]; [|intros [= <-]; simpl; by rewrite Ed].
  simplify_eq. destruct (_ || _) eqn:Eb; [done|]. bool_prop.
  destruct (contexts_loop _ _ _ _ _ _) as [[[out p]|]|] eqn:El; [|done..].
  cbn [wbind fst snd]. destruct (Z.eqb_spec p 1) as [->|]; [|done]. intros [= <-]. simpl. rewrite Ed.
  apply contexts_loop_spec in El as (new & -> & Hl & Hp & Hnd); [|constructor]. simpl in *.
  unfold zlen in *. split_and!; [|lia..|done]. rewrite Hl. by rewrite Z2Nat.id by lia.
Qed.

(** A negotiation of 3.1.1 with one preauthentication context of six bytes. *)
Definition example_negotiation : list Z :=
  match Header_Encode (mkHeader 1 0 Negotiate 1 0 0 1 0 0 0 0 (make 16))
    (make 64 ++ [36; 0; 1; 0; 1; 0; 0; 0; 0; 0; 0; 0] ++ make 16
       ++ [104; 0; 0; 0; 1; 0; 0; 0] ++ [17; 3; 0; 0] ++ [1; 0; 6; 0; 0; 0; 0; 0] ++ [1; 0; 0; 0; 1; 0])
  with
  | Some (Parsed p) => p
  | _ => []
  end.

Lemma negotiate_contexts_witness :
  ∃ q n, ParseFrame example_negotiation example_limits = wret [q]
    ∧ Request_Negotiate q = wret n ∧ nr_Dialects n = [785]
    ∧ zlen (List.filter is_preauth (kinds (nr_Contexts n))) = 1.
Proof.
  assert (Hb : bytes example_negotiation)
    by (apply (bool_decide_unpack (bytes _)); vm_compute; exact I).
  destruct (ParseFrame example_negotiation example_limits) as [[rs|]|] eqn:E;
    [|vm_compute in E; discriminate..].
  pose proof (ParseFrame_requests _ _ _ Hb E) as Hall. vm_compute in E. injection E as <-.
  pose proof (Forall_inv Hall) as Hq.
  match type of Hq with from_frame ?q =>
    destruct (Request_Negotiate q) as [[n|]|] eqn:En; [|vm_compute in En; discriminate..];
    exists q, n end.
  split; [reflexivity|]. split; [exact En|].
  pose proof (negotiate_contexts _ _ Hq En) as H. vm_compute in En. injection En as <-.
  split; [reflexivity|]. exact (proj1 (proj2 (proj2 H))).
Defined.
