(* ===== verification/WireResponses.v ===== *)
(** * SMB messages: responses

    The response bodies of [packages/smb/internal/wire]: [responses.go], the
    response halves of [files.go], [file_io.go] and [file_info.go].  A body is
    built as Go builds it: a zeroed buffer, then stores at fixed offsets; [None]
    is an index panic. *)

From S2P Require Import Prelude Bytes WireHeader WireText WireRequests.

(** ** responses.go *)

Record Negotiation := {
  ng_SecurityMode : Z; ng_Dialect : Z; ng_ServerGUID : list Z; ng_Capabilities : Z;
  ng_MaxTransactSize : Z; ng_MaxReadSize : Z; ng_MaxWriteSize : Z; ng_SystemTime : Z;
  ng_StartTime : Z; ng_Token : list Z; ng_Contexts : list Context }.

(** The loop that adds up the contexts' extents; [None] is [ErrMalformed]. *)
Fixpoint contexts_total (total : Z) (contexts : list Context) : option Z :=
  match contexts with
  | [] => Some total
  | context :: rest =>
      let n := zlen (cx_Data context) in
      if (65535 <? n) || (maxDirectTCPPayload - HeaderSize - 8 - n <? total) then None
      else
        let total := total + (8 + n) in
        contexts_total (match rest with [] => total | _ => align8 total end) rest
  end.

(** The padding [append(body, make([]byte, align8(len(body))-len(body))...)]. *)
Definition pad8 (body : list Z) : list Z := body ++ make (align8 (zlen body) - zlen body).

(** The loop that appends the contexts. *)
Fixpoint put_contexts (body : list Z) (contexts : list Context) : option (list Z) :=
  match contexts with
  | [] => Some body
  | context :: rest =>
      let start := zlen body in
      let body := body ++ make (8 + zlen (cx_Data context)) in
      let% body := PutUint16 start (cx_Type context) body in
      let% body := PutUint16 (start + 2) (zlen (cx_Data context)) body in
      let% body := copy_to (start + 8) (zlen body) (cx_Data context) body in
      put_contexts (match rest with [] => body | _ => pad8 body end) rest
  end.

(** The fixed part and the token. *)
Definition put_negotiation (n : Negotiation) : option (list Z) :=
  let body := make (64 + zlen (ng_Token n)) in
  let% body := PutUint16 0 65 body in
  let% body := PutUint16 2 (ng_SecurityMode n) body in
  let% body := PutUint16 4 (ng_Dialect n) body in
  let% body := copy_to 8 24 (ng_ServerGUID n) body in
  let% body := PutUint32 24 (ng_Capabilities n) body in
  let% body := PutUint32 28 (ng_MaxTransactSize n) body in
  let% body := PutUint32 32 (ng_MaxReadSize n) body in
  let% body := PutUint32 36 (ng_MaxWriteSize n) body in
  let% body := PutUint64 40 (ng_SystemTime n) body in
  let% body := PutUint64 48 (ng_StartTime n) body in
  if zlen (ng_Token n) =? 0 then Some body
  else
    let% body := PutUint16 56 (HeaderSize + 64) body in
    let% body := PutUint16 58 (zlen (ng_Token n)) body in
    copy_to 64 (zlen body) (ng_Token n) body.

Definition NegotiateResponseBody (n : Negotiation) : W (list Z) :=
  if (65535 <? zlen (ng_Token n)) || (65535 <? zlen (ng_Contexts n))
     || negb (zlen (ng_Contexts n) =? 0) && negb (ng_Dialect n =? Dialect311)
  then malformed
  else
    let total := 64 + zlen (ng_Token n) in
    match (if zlen (ng_Contexts n) =? 0 then Some total
           else contexts_total (align8 total) (ng_Contexts n)) with
    | None => malformed
    | Some total =>
        if maxDirectTCPPayload <? HeaderSize + total then malformed
        else
          let% body := put_negotiation n in
          if zlen (ng_Contexts n) =? 0 then wret body
          else
            let% body := PutUint16 6 (zlen (ng_Contexts n)) body in
            let body := pad8 body in
            let% body := PutUint32 60 (HeaderSize + zlen body) body in
            let% body := put_contexts body (ng_Contexts n) in
            wret body
    end.

Definition SessionSetupResponseBody (flags : Z) (token : list Z) : W (list Z) :=
  if 65535 <? zlen token then malformed
  else
    let body := make (8 + zlen token) in
    let% body := PutUint16 0 9 body in
    let% body := PutUint16 2 flags body in
    let% body := (if zlen token =? 0 then Some body
                  else let% body := PutUint16 4 (HeaderSize + 8) body in
                       let% body := PutUint16 6 (zlen token) body in
                       copy_to 8 (zlen body) token body) in
    wret body.

Definition TreeConnectResponseBody (shareType flags capabilities access : Z) : option (list Z) :=
  let body := make 16 in
  let% body := PutUint16 0 16 body in
  let% body := set_byte 2 shareType body in
  let% body := PutUint32 4 flags body in
  let% body := PutUint32 8 capabilities body in
  PutUint32 12 access body.

Definition EmptyResponseBody : list Z := [4; 0; 0; 0].
Definition ErrorResponseBody : list Z := [9; 0; 0; 0; 0; 0; 0; 0; 0].

(** ** files.go *)

Record CreateOnDiskID := { DiskFileID : Z; VolumeID : Z }.

Record CreateResponse := {
  cp_OplockLevel : Z; cp_Flags : Z; cp_CreateAction : Z; cp_CreationTime : Z;
  cp_LastAccessTime : Z; cp_LastWriteTime : Z; cp_ChangeTime : Z; cp_AllocationSize : Z;
  cp_EndOfFile : Z; cp_Attributes : Z; cp_FileID : list Z; cp_OnDiskID : option CreateOnDiskID }.

(** ["QFid"] *)
Definition qfid : list Z := [81; 70; 105; 100].

(** The context that answers with an on-disk identity, from byte 88 on. *)
Definition put_on_disk_id (id : CreateOnDiskID) (body : list Z) : option (list Z) :=
  let% body := PutUint32 80 (HeaderSize + 88) body in
  let% body := PutUint32 84 56 body in
  let% body := PutUint16 (88 + 4) 16 body in
  let% body := PutUint16 (88 + 6) 4 body in
  let% body := PutUint16 (88 + 10) 24 body in
  let% body := PutUint32 (88 + 12) 32 body in
  let% body := copy_to (88 + 16) (88 + 20) qfid body in
  let% body := PutUint64 (88 + 24) (DiskFileID id) body in
  PutUint64 (88 + 32) (VolumeID id) body.

Definition CreateResponseBody (r : CreateResponse) : option (list Z) :=
  let size := match cp_OnDiskID r with Some _ => 88 + 56 | None => 88 end in
  let body := make size in
  let% body := PutUint16 0 89 body in
  let% body := set_byte 2 (cp_OplockLevel r) body in
  let% body := set_byte 3 (cp_Flags r) body in
  let% body := PutUint32 4 (cp_CreateAction r) body in
  let% body := PutUint64 8 (cp_CreationTime r) body in
  let% body := PutUint64 16 (cp_LastAccessTime r) body in
  let% body := PutUint64 24 (cp_LastWriteTime r) body in
  let% body := PutUint64 32 (cp_ChangeTime r) body in
  let% body := PutUint64 40 (cp_AllocationSize r) body in
  let% body := PutUint64 48 (cp_EndOfFile r) body in
  let% body := PutUint32 56 (cp_Attributes r) body in
  let% body := copy_to 64 80 (cp_FileID r) body in
  match cp_OnDiskID r with
  | Some id => put_on_disk_id id body
  | None => Some body
  end.

Record CloseResponse := {
  cs_Flags : Z; cs_CreationTime : Z; cs_LastAccessTime : Z; cs_LastWriteTime : Z;
  cs_ChangeTime : Z; cs_AllocationSize : Z; cs_EndOfFile : Z; cs_Attributes : Z }.

Definition CloseResponseBody (r : CloseResponse) : option (list Z) :=
  let body := make 60 in
  let% body := PutUint16 0 60 body in
  let% body := PutUint16 2 (cs_Flags r) body in
  let% body := PutUint64 8 (cs_CreationTime r) body in
  let% body := PutUint64 16 (cs_LastAccessTime r) body in
  let% body := PutUint64 24 (cs_LastWriteTime r) body in
  let% body := PutUint64 32 (cs_ChangeTime r) body in
  let% body := PutUint64 40 (cs_AllocationSize r) body in
  let% body := PutUint64 48 (cs_EndOfFile r) body in
  PutUint32 56 (cs_Attributes r) body.

(** ** file_io.go *)

Definition ReadResponseBody (data : list Z) : W (list Z) :=
  if maxDirectTCPPayload - HeaderSize - 16 <? zlen data then malformed
  else
    let body := make (16 + zlen data) in
    let% body := PutUint16 0 17 body in
    let% body := set_byte 2 (HeaderSize + 16) body in
    let% body := PutUint32 4 (zlen data) body in
    let% body := copy_to 16 (zlen body) data body in
    wret body.

Definition WriteResponseBody (count : Z) : option (list Z) :=
  let body := make 16 in
  let% body := PutUint16 0 17 body in
  PutUint32 4 count body.

Definition FlushResponseBody : list Z := EmptyResponseBody.

(** ** file_info.go *)

Definition QueryInfoResponseBody (data : list Z) : W (list Z) :=
  if maxDirectTCPPayload - HeaderSize - 8 <? zlen data then malformed
  else
    let body := make (8 + zlen data) in
    let% body := PutUint16 0 9 body in
    let% body := PutUint16 2 (HeaderSize + 8) body in
    let% body := PutUint32 4 (zlen data) body in
    let% body := copy_to 8 (zlen body) data body in
    wret body.

Definition SetInfoResponseBody : list Z := [2; 0].

Definition InfoLengthMismatchErrorBody : list Z := [9; 0; 1; 0; 8; 0; 0; 0; 0; 0; 0; 0; 0; 0; 0; 0].

Record FileBasicInfo := {
  bi_CreationTime : Z; bi_LastAccessTime : Z; bi_LastWriteTime : Z; bi_ChangeTime : Z;
  bi_Attributes : Z }.

Definition ParseFileBasicInformation (data : list Z) : W FileBasicInfo :=
  if negb (zlen data =? 40) then malformed
  else
    let% creation := Uint64 data 0 in
    let% access := Uint64 data 8 in
    let% write := Uint64 data 16 in
    let% change := Uint64 data 24 in
    let% attributes := Uint32 data 32 in
    wret {| bi_CreationTime := to_int64 creation; bi_LastAccessTime := to_int64 access;
            bi_LastWriteTime := to_int64 write; bi_ChangeTime := to_int64 change;
            bi_Attributes := attributes |}.

Definition FileBasicInformationBody (info : FileBasicInfo) : option (list Z) :=
  let body := make 40 in
  let% body := PutUint64 0 (bi_CreationTime info) body in
  let% body := PutUint64 8 (bi_LastAccessTime info) body in
  let% body := PutUint64 16 (bi_LastWriteTime info) body in
  let% body := PutUint64 24 (bi_ChangeTime info) body in
  PutUint32 32 (bi_Attributes info) body.

Record FileStandardInfo := {
  st_AllocationSize : Z; st_EndOfFile : Z; st_NumberOfLinks : Z; st_DeletePending : bool;
  st_Directory : bool }.

Definition FileStandardInformationBody (info : FileStandardInfo) : option (list Z) :=
  let body := make 24 in
  let% body := PutUint64 0 (st_AllocationSize info) body in
  let% body := PutUint64 8 (st_EndOfFile info) body in
  let% body := PutUint32 16 (st_NumberOfLinks info) body in
  let% body := (if st_DeletePending info then set_byte 20 1 body else Some body) in
  if st_Directory info then set_byte 21 1 body else Some body.

Definition FileInternalInformationBody (id : Z) : option (list Z) := PutUint64 0 id (make 8).

Record FileNetworkOpenInfo := {
  no_Basic : FileBasicInfo; no_AllocationSize : Z; no_EndOfFile : Z }.

Definition FileNetworkOpenInformationBody (info : FileNetworkOpenInfo) : option (list Z) :=
  let basic := no_Basic info in
  let body := make 56 in
  let% body := PutUint64 0 (bi_CreationTime basic) body in
  let% body := PutUint64 8 (bi_LastAccessTime basic) body in
  let% body := PutUint64 16 (bi_LastWriteTime basic) body in
  let% body := PutUint64 24 (bi_ChangeTime basic) body in
  let% body := PutUint64 32 (no_AllocationSize info) body in
  let% body := PutUint64 40 (no_EndOfFile info) body in
  PutUint32 48 (bi_Attributes basic) body.

Definition FileIdInformationBody (serial : Z) (id : list Z) : option (list Z) :=
  let% body := PutUint64 0 serial (make 24) in
  copy_to 8 24 id body.

Definition ParseFileEndOfFileInformation (data : list Z) : W Z :=
  if negb (zlen data =? 8) then malformed
  else let% size := Uint64 data 0 in wret (to_int64 size).

Record FileRenameInfo := { ReplaceIfExists : bool; rn_Name : list Z }.

(** [strings.HasPrefix(name, "\\")] *)
Definition starts_with_backslash (name : list Z) : bool :=
  match name with 92 :: _ => true | _ => false end.

Definition ParseFileRenameInformation (data : list Z) : W FileRenameInfo :=
  if zlen data <? 20 then malformed
  else
    let% root := Uint64 data 8 in
    if negb (root =? 0) then malformed
    else
      let% length := Uint32 data 16 in
      if (length =? 0) || negb (Z.land length 1 =? 0) || (zlen data - 20 <? length) then malformed
      else
        let% encoded := slice data 20 (20 + length) in
        let* name := DecodeUTF16 encoded in
        if starts_with_backslash name then malformed
        else
          let% replace := index data 0 in
          wret {| ReplaceIfExists := negb (replace =? 0); rn_Name := name |}.

Definition ParseFileDispositionInformation (data : list Z) : W bool :=
  if zlen data =? 0 then malformed
  else let% deleting := index data 0 in wret (negb (deleting =? 0)).

(** The loop of [filesystemInformationName] over the runes: the UTF-16 units
    they take must fit. *)
Fixpoint units_fit (limit units : Z) (rs : list Z) : bool :=
  match rs with
  | [] => true
  | r :: rs =>
      let units := units + 1 in
      let units := if 65535 <? r then units + 1 else units in
      if limit <? units then false else units_fit limit units rs
  end.

Definition filesystemInformationName (value : list Z) (prefix : Z) : W (list Z) :=
  if negb (ValidString value) || existsb (Z.eqb 0) (runes value) then malformed
  else if negb (units_fit ((maxDirectTCPPayload - HeaderSize - 8 - prefix) / 2) 0 (runes value))
  then malformed
  else wret (EncodeUTF16 value).

Definition FileNormalizedNameInformationBody (name : list Z) (outputBufferLength : Z)
  : W (list Z * bool) :=
  if (outputBufferLength <? 8) || bool_decide (name = []) then malformed
  else
    let* encoded := filesystemInformationName name 4 in
    let length := Z.min (zlen encoded) (Z.ldiff (outputBufferLength - 4) 1) in
    let body := make (4 + length) in
    let% body := PutUint32 0 (zlen encoded) body in
    let% prefix := slice encoded 0 length in
    let% body := copy_to 4 (zlen body) prefix body in
    wret (body, negb (length =? zlen encoded)).

Record FileFsVolumeInfo := { fv_CreationTime : Z; fv_Serial : Z; fv_Label : list Z }.

Definition FileFsVolumeInformationBody (info : FileFsVolumeInfo) : W (list Z) :=
  if fv_CreationTime info <? 0 then malformed
  else
    let* label := filesystemInformationName (fv_Label info) 18 in
    let body := make (18 + zlen label) in
    let% body := PutUint64 0 (fv_CreationTime info) body in
    let% body := PutUint32 8 (fv_Serial info) body in
    let% body := PutUint32 12 (zlen label) body in
    let% body := copy_to 18 (zlen body) label body in
    wret body.

Record FileFsSizeInfo := {
  fz_Total : Z; fz_Available : Z; fz_SectorsPerAllocationUnit : Z; fz_BytesPerSector : Z }.

Definition FileFsSizeInformationBody (info : FileFsSizeInfo) : W (list Z) :=
  if (fz_Total info <? 0) || (fz_Available info <? 0) || (fz_Total info <? fz_Available info)
     || (fz_SectorsPerAllocationUnit info =? 0) || (fz_BytesPerSector info =? 0)
  then malformed
  else
    let body := make 24 in
    let% body := PutUint64 0 (fz_Total info) body in
    let% body := PutUint64 8 (fz_Available info) body in
    let% body := PutUint32 16 (fz_SectorsPerAllocationUnit info) body in
    let% body := PutUint32 20 (fz_BytesPerSector info) body in
    wret body.

Record FileFsDeviceInfo := { DeviceType : Z; Characteristics : Z }.

Definition FileFsDeviceInformationBody (info : FileFsDeviceInfo) : option (list Z) :=
  let% body := PutUint32 0 (DeviceType info) (make 8) in
  PutUint32 4 (Characteristics info) body.

Record FileFsAttributeInfo := {
  fa_Attributes : Z; fa_MaximumComponentNameLength : Z; fa_FileSystemName : list Z }.

Definition FileFsAttributeInformationBody (info : FileFsAttributeInfo) : W (list Z) :=
  if (fa_MaximumComponentNameLength info <=? 0) || bool_decide (fa_FileSystemName info = []) then malformed
  else
    let* name := filesystemInformationName (fa_FileSystemName info) 12 in
    let body := make (12 + zlen name) in
    let% body := PutUint32 0 (fa_Attributes info) body in
    let% body := PutUint32 4 (fa_MaximumComponentNameLength info) body in
    let% body := PutUint32 8 (zlen name) body in
    let% body := copy_to 12 (zlen body) name body in
    wret body.

Record FileFsFullSizeInfo := {
  ff_Total : Z; ff_CallerAvailable : Z; ff_ActualAvailable : Z;
  ff_SectorsPerAllocationUnit : Z; ff_BytesPerSector : Z }.

Definition FileFsFullSizeInformationBody (info : FileFsFullSizeInfo) : W (list Z) :=
  if (ff_Total info <? 0) || (ff_CallerAvailable info <? 0) || (ff_ActualAvailable info <? 0)
     || (ff_Total info <? ff_ActualAvailable info)
     || (ff_ActualAvailable info <? ff_CallerAvailable info)
     || (ff_SectorsPerAllocationUnit info =? 0) || (ff_BytesPerSector info =? 0)
  then malformed
  else
    let body := make 32 in
    let% body := PutUint64 0 (ff_Total info) body in
    let% body := PutUint64 8 (ff_CallerAvailable info) body in
    let% body := PutUint64 16 (ff_ActualAvailable info) body in
    let% body := PutUint32 24 (ff_SectorsPerAllocationUnit info) body in
    let% body := PutUint32 28 (ff_BytesPerSector info) body in
    wret body.

(** ** Negotiate contexts *)

(** One context as it stands on the wire. *)
Definition context_bytes (c : Context) : list Z :=
  le_split 2 (cx_Type c) ++ le_split 2 (zlen (cx_Data c)) ++ make 4 ++ cx_Data c.

Lemma zlen_context_bytes c : zlen (context_bytes c) = 8 + zlen (cx_Data c).
Proof. unfold context_bytes. rewrite !zlen_app, !zlen_le_split, zlen_make by lia. lia. Qed.

Lemma zlen_pad8 body : zlen (pad8 body) = align8 (zlen body).
Proof.
  unfold pad8. destruct (align8_spec (zlen body)) as [H _]; [apply zlen_nonneg|].
  rewrite zlen_app, zlen_make by lia. lia.
Qed.

(** The first of the contexts is appended as one block. *)
Lemma put_context body c rest :
  put_contexts body (c :: rest)
  = put_contexts (match rest with [] => body ++ context_bytes c
                  | _ => pad8 (body ++ context_bytes c) end) rest.
Proof.
  cbn [put_contexts]. pose proof (zlen_nonneg (cx_Data c)). pose proof (zlen_nonneg body).
  repeat put_step. rewrite take_zlen by len.
  assert (store (zlen body + 8) (cx_Data c)
            (store (zlen body + 2) (le_split 2 (zlen (cx_Data c)))
               (store (zlen body) (le_split 2 (cx_Type c)) (body ++ make (8 + zlen (cx_Data c)))))
          = body ++ context_bytes c) as ->.
  { pose proof (store_app_past 0 (le_split 2 (cx_Type c)) body (make (8 + zlen (cx_Data c)))) as E0.
    rewrite Z.add_0_r in E0. rewrite E0, !store_app_past by lia. f_equal. rewrite make_app by lia.
    rewrite (store_app_within 0), (store_app_within 2) by len.
    pose proof (store_app_past 0 (cx_Data c)
      (store 2 (le_split 2 (zlen (cx_Data c))) (store 0 (le_split 2 (cx_Type c)) (make 8)))
      (make (zlen (cx_Data c)))) as E.
    autorewrite with wire in E. change (8 + 0) with 8 in E. rewrite E by lia. rewrite (store_all (cx_Data c)) by len. done. }
  done.
Qed.

Lemma contexts_total_put contexts : ∀ body total,
  contexts_total (zlen body) contexts = Some total →
  ∃ tail, put_contexts body contexts = Some (body ++ tail) ∧ zlen (body ++ tail) = total.
Proof.
  induction contexts as [|c rest IH]; intros body total; cbn [contexts_total].
  { intros [= <-]. exists []. rewrite app_nil_r. by split. }
  destruct (_ || _); [done|]. intros H. rewrite put_context.
  destruct rest as [|c' rest].
  - cbn in H. injection H as <-. exists (context_bytes c). split; [done|].
    by rewrite zlen_app, zlen_context_bytes.
  - destruct (IH (pad8 (body ++ context_bytes c)) total) as (tail & Ht & Hl).
    { by rewrite zlen_pad8, zlen_app, zlen_context_bytes. }
    rewrite Ht. unfold pad8 in *. rewrite <- !app_assoc in *. eexists. by split.
Qed.

(** Contexts of their Go types, the kinds that must be unique at most once. *)
Definition contexts_typed (contexts : list Context) : Prop :=
  Forall (λ c, is_u16 (cx_Type c) ∧ is_u16 (zlen (cx_Data c))) contexts.

Lemma put_contexts_prefix contexts : ∀ body out,
  put_contexts body contexts = Some out → ∃ tail, out = body ++ tail.
Proof.
  induction contexts as [|c rest IH]; intros body out Hput.
  - injection Hput as <-. exists []. by rewrite app_nil_r.
  - rewrite put_context in Hput. apply IH in Hput as [tail ->].
    unfold pad8. destruct rest; eexists; by rewrite <- !app_assoc.
Qed.

(** One turn of the reader's loop, standing at a context as the encoder lays
    it down. *)
Lemma contexts_loop_step n pre c post seen preauth acc :
  is_u16 (cx_Type c) → is_u16 (zlen (cx_Data c)) →
  zlen (pre ++ context_bytes c ++ post) <= maxDirectTCPPayload →
  (contextMustBeUnique (cx_Type c) = true → cx_Type c ∉ seen) →
  contexts_loop (S n) (pre ++ context_bytes c ++ post) (zlen pre) seen preauth acc
  = contexts_loop n (pre ++ context_bytes c ++ post) (align8 (zlen pre + zlen (context_bytes c)))
      (if contextMustBeUnique (cx_Type c) then cx_Type c :: seen else seen)
      (if cx_Type c =? ContextPreauthIntegrity then preauth + 1 else preauth) (acc ++ [c]).
Proof.
  destruct c as [kind data]. cbn [cx_Type cx_Data]. unfold is_u16. intros Htype Hsize Hl Hseen.
  pose proof (zlen_nonneg pre). pose proof (zlen_nonneg post).
  set (packet := pre ++ _ ++ post) in *.
  assert (Hlen : zlen packet = zlen pre + (8 + zlen data) + zlen post).
  { unfold packet. rewrite !zlen_app, zlen_context_bytes. cbn [cx_Data]. lia. }
  cbn [contexts_loop]. rewrite !u64_small by (unfold is_u64; lia).
  rewrite (proj2 (Z.ltb_ge _ _)) by lia.
  rewrite (slice_app_rest pre (context_bytes {| cx_Type := kind; cx_Data := data |} ++ post)
             : slice packet (zlen pre) (zlen packet) = _).
  cbn [mbind option_bind]. unfold Uint16, context_bytes at 1 2 3. cbn [cx_Type cx_Data].
  rewrite <- !app_assoc, le_get_split_app. change (256 ^ Z.of_nat 2) with 65536.
  rewrite Z.mod_small by lia. cbn [mbind option_bind].
  rewrite (le_get_app_r 2 (le_split 2 kind)) by (rewrite zlen_le_split; lia).
  rewrite zlen_le_split. change (2 - Z.of_nat 2) with 0. rewrite le_get_split_app.
  change (256 ^ Z.of_nat 2) with 65536. rewrite Z.mod_small by lia. cbn [mbind option_bind].
  rewrite u64_small by (unfold is_u64; lia).
  rewrite (proj2 (Z.ltb_ge (zlen pre + 8 + zlen data) _)) by lia.
  rewrite (proj2 (Z.ltb_ge (zlen packet) _)) by lia. cbn [orb].
  assert (contextMustBeUnique kind && existsb (Z.eqb kind) seen = false) as ->.
  { apply andb_false_iff. destruct (contextMustBeUnique kind) eqn:Eu; [right|by left].
    apply not_true_iff_false. intros (k & Hk & Heq%Z.eqb_eq)%existsb_exists. subst k.
    by apply (Hseen eq_refl), list_elem_of_In. }
  pose proof (slice_app_mid (le_split 2 kind ++ le_split 2 (zlen data) ++ make 4)
                data post 8 (8 + zlen data)) as Hd.
  rewrite <- !app_assoc in Hd. rewrite Hd by len. cbn [mbind option_bind].
  rewrite zlen_context_bytes. cbn [cx_Data]. unfold align8.
  by replace (zlen pre + (8 + zlen data)) with (zlen pre + 8 + zlen data) by lia.
Qed.

(** The package's own reader finds the contexts again. *)
Lemma read_contexts contexts : ∀ header body out seen preauth acc,
  contexts_typed contexts → NoDup (seen ++ List.filter contextMustBeUnique (kinds contexts)) →
  zlen header mod 8 = 0 →
  put_contexts body contexts = Some out → zlen (header ++ out) <= maxDirectTCPPayload →
  contexts_loop (length contexts) (header ++ out) (zlen header + zlen body) seen preauth acc
  = wret (acc ++ contexts, preauth + zlen (List.filter is_preauth (kinds contexts))).
Proof.
  induction contexts as [|c rest IH]; intros header body out seen preauth acc Ht Hnd Hh Hput Hl.
  { cbn. rewrite app_nil_r, Z.add_0_r. done. }
  inversion_clear Ht as [|? ? [Htype Hsize] Hrest]. rewrite put_context in Hput.
  pose proof (zlen_nonneg header). pose proof (zlen_nonneg body).
  set (next := match rest with [] => _ | _ => _ end) in Hput.
  assert (Hnext : ∃ gap, next = body ++ context_bytes c ++ gap).
  { unfold next, pad8. destruct rest; [exists []; by rewrite app_nil_r|].
    eexists. by rewrite <- app_assoc. }
  assert (Hoff : rest ≠ [] →
    align8 (zlen header + zlen body + zlen (context_bytes c)) = zlen header + zlen next).
  { pose proof (zlen_nonneg (context_bytes c)). unfold next. destruct rest; [done|]. intros _.
    rewrite zlen_pad8, zlen_app, <- Z.add_assoc. apply align8_add; lia. }
  pose proof (put_contexts_prefix rest next out Hput) as Hout. clearbody next.
  destruct Hnext as [gap Hnext], Hout as [tail Hout].
  assert (Hpacket : header ++ out = (header ++ body) ++ context_bytes c ++ gap ++ tail).
  { subst out. rewrite Hnext. by rewrite <- !app_assoc. }
  cbn [length fmap list_fmap List.filter] in *. rewrite Hpacket, <- zlen_app.
  rewrite contexts_loop_step; [|done|done|by rewrite <- Hpacket|].
  2: { intros Hu Hin. rewrite Hu in Hnd. apply NoDup_app in Hnd as (_ & Hdis & _).
       apply (Hdis _ Hin). by left. }
  rewrite <- Hpacket, zlen_app. unfold is_preauth at 1.
  replace (acc ++ c :: rest) with ((acc ++ [c]) ++ rest) by (by rewrite <- app_assoc).
  destruct rest as [|c' rest].
  { cbn [length contexts_loop]. rewrite app_nil_r. by destruct (cx_Type c =? _);
      cbn; rewrite ?Z.add_0_r. }
  rewrite Hoff, (IH header next out); [|done| |done..].
  - destruct (cx_Type c =? _); [|done]. rewrite zlen_cons. by rewrite <- Z.add_assoc.
  - destruct (contextMustBeUnique (cx_Type c)); [|done].
    by rewrite <- Permutation_middle in Hnd.
Qed.

(** ** The negotiate response *)

(** What the contexts take at most, each with its padding. *)
Definition contexts_room (contexts : list Context) : Z :=
  foldr (λ c acc, 15 + zlen (cx_Data c) + acc) 0 contexts.

Lemma contexts_room_nonneg contexts : 0 <= contexts_room contexts.
Proof. induction contexts as [|c rest IH]; simpl; [lia|]. pose proof (zlen_nonneg (cx_Data c)). lia. Qed.

Lemma contexts_total_ok contexts : ∀ total,
  0 <= total → contexts_typed contexts →
  total + contexts_room contexts <= maxDirectTCPPayload - HeaderSize →
  ∃ total', contexts_total total contexts = Some total' ∧ total' <= maxDirectTCPPayload - HeaderSize.
Proof.
  induction contexts as [|c rest IH]; intros total H0 Ht Hfit; [exists total; simpl in Hfit; split; [done|lia]|].
  inversion_clear Ht as [|? ? [_ Hn] Hrest]. unfold is_u16 in Hn. cbn [contexts_total contexts_room foldr] in *.
  fold (contexts_room rest) in Hfit. pose proof (contexts_room_nonneg rest).
  destruct (align8_spec (total + (8 + zlen (cx_Data c)))) as [Ha _]; [lia|].
  rewrite !(proj2 (Z.ltb_ge _ _)) by lia. cbn [orb]. apply IH; [|done|]; destruct rest; lia.
Qed.

(** A negotiation of its Go types that the checks of the encoder let through. *)
Definition negotiation_fits (n : Negotiation) : Prop :=
  is_u16 (ng_Dialect n) ∧ zlen (ng_ServerGUID n) = 16 ∧ contexts_typed (ng_Contexts n)
  ∧ zlen (ng_Token n) <= 65535 ∧ zlen (ng_Contexts n) <= 65535
  ∧ (ng_Contexts n ≠ [] → ng_Dialect n = Dialect311)
  ∧ 64 + zlen (ng_Token n) + 7 + contexts_room (ng_Contexts n) <= maxDirectTCPPayload - HeaderSize.

(** What a client reads in the fixed part. *)
Definition negotiate_fields (n : Negotiation) (body : list Z) : Prop :=
  Uint16 body 4 = Some (ng_Dialect n) ∧ slice body 8 24 = Some (ng_ServerGUID n)
  ∧ slice body 64 (64 + zlen (ng_Token n)) = Some (ng_Token n).

(** The contexts as the package's own reader finds them: their count at byte 6,
    their place in the message at byte 60. *)
Definition negotiate_contexts_read (n : Negotiation) (header body : list Z) : Prop :=
  ∃ offset, Uint32 body 60 = Some offset ∧ offset mod 8 = 0
    ∧ Uint16 body 6 = Some (zlen (ng_Contexts n))
    ∧ contexts_loop (length (ng_Contexts n)) (header ++ body) offset [] 0 []
      = wret (ng_Contexts n, zlen (List.filter is_preauth (kinds (ng_Contexts n)))).

(** The fixed part with the token, before any context. *)
Definition negotiate_head (n : Negotiation) : list Z :=
  let body :=
    store 48 (le_split 8 (ng_StartTime n)) (store 40 (le_split 8 (ng_SystemTime n))
    (store 36 (le_split 4 (ng_MaxWriteSize n)) (store 32 (le_split 4 (ng_MaxReadSize n))
    (store 28 (le_split 4 (ng_MaxTransactSize n)) (store 24 (le_split 4 (ng_Capabilities n))
    (store 8 (ng_ServerGUID n) (store 4 (le_split 2 (ng_Dialect n))
    (store 2 (le_split 2 (ng_SecurityMode n)) (store 0 (le_split 2 65)
    (make (64 + zlen (ng_Token n)))))))))))) in
  if zlen (ng_Token n) =? 0 then body
  else store 64 (ng_Token n) (store 58 (le_split 2 (zlen (ng_Token n)))
         (store 56 (le_split 2 (HeaderSize + 64)) body)).

Lemma zlen_negotiate_head n : zlen (negotiate_head n) = 64 + zlen (ng_Token n).
Proof. pose proof (zlen_nonneg (ng_Token n)). unfold negotiate_head. destruct (_ =? _); len. Qed.

Lemma negotiate_head_fields n :
  is_u16 (ng_Dialect n) → zlen (ng_ServerGUID n) = 16 → negotiate_fields n (negotiate_head n).
Proof.
  intros Hd Hg. pose proof (zlen_nonneg (ng_Token n)).
  pose proof (slice_store_same 8 (ng_ServerGUID n)) as Eg. rewrite Hg in Eg.
  pose proof (slice_store_same 64 (ng_Token n)) as Et.
  unfold negotiate_fields, negotiate_head. destruct (zlen (ng_Token n) =? 0) eqn:E; bool_prop.
  - split_and!.
    + repeat get_step. f_equal. apply Z.mod_small. exact Hd.
    + repeat get_step. apply Eg; len.
    + destruct (ng_Token n); [|by rewrite zlen_cons in E; pose proof (zlen_nonneg l); lia].
      rewrite slice_Some by len. done.
  - split_and!.
    + repeat get_step. f_equal. apply Z.mod_small. exact Hd.
    + repeat get_step. apply Eg; len.
    + apply Et; len.
Qed.

(** The head with the count and the place of the contexts, padded. *)
Definition negotiate_contexts_head (n : Negotiation) : list Z :=
  let body := pad8 (store 6 (le_split 2 (zlen (ng_Contexts n))) (negotiate_head n)) in
  store 60 (le_split 4 (HeaderSize + zlen body)) body.

Lemma zlen_contexts_head n :
  zlen (negotiate_contexts_head n) = align8 (64 + zlen (ng_Token n)).
Proof.
  unfold negotiate_contexts_head. by rewrite zlen_store, zlen_pad8, zlen_store, zlen_negotiate_head.
Qed.

Lemma put_negotiation_ok n :
  zlen (ng_ServerGUID n) = 16 → put_negotiation n = Some (negotiate_head n).
Proof.
  intros Hg. pose proof (zlen_nonneg (ng_Token n)). unfold put_negotiation, negotiate_head.
  repeat put_step. rewrite take_zlen by lia. destruct (_ =? 0); [done|]. repeat put_step.
  rewrite take_zlen by len. done.
Qed.

Lemma NegotiateResponseBody_eq n :
  negotiation_fits n →
  ∃ body, NegotiateResponseBody n = wret body ∧ zlen body <= maxDirectTCPPayload - HeaderSize
    ∧ (ng_Contexts n = [] → body = negotiate_head n)
    ∧ (ng_Contexts n ≠ [] → put_contexts (negotiate_contexts_head n) (ng_Contexts n) = Some body).
Proof.
  intros (Hd & Hg & Ht & H1 & H2 & H3 & H4). pose proof (zlen_nonneg (ng_Token n)).
  pose proof (zlen_negotiate_head n) as Hh. pose proof (contexts_room_nonneg (ng_Contexts n)).
  destruct (align8_spec (64 + zlen (ng_Token n))) as [Ha _]; [lia|].
  unfold NegotiateResponseBody. rewrite !(proj2 (Z.ltb_ge 65535 _)), put_negotiation_ok by lia.
  cbn [orb mbind option_bind]. destruct (ng_Contexts n) as [|c rest] eqn:Ec.
  - rewrite zlen_nil. cbn [Z.eqb negb andb]. rewrite (proj2 (Z.ltb_ge maxDirectTCPPayload _)) by lia.
    exists (negotiate_head n). split_and!; [done|lia|done..].
  - assert (zlen (c :: rest) =? 0 = false) as ->.
    { apply Z.eqb_neq. rewrite zlen_cons. pose proof (zlen_nonneg rest). lia. }
    rewrite H3 by done. cbn [Z.eqb Pos.eqb negb andb].
    destruct (contexts_total_ok (c :: rest) (align8 (64 + zlen (ng_Token n)))) as (total & Htot & Hle);
      [lia|done|lia|].
    rewrite Htot, (proj2 (Z.ltb_ge maxDirectTCPPayload _)) by lia.
    rewrite <- (zlen_contexts_head n) in Htot.
    destruct (contexts_total_put _ _ _ Htot) as (tail & Hput & Hl).
    exists (negotiate_contexts_head n ++ tail). split_and!; [|lia|done..].
    put_step. unfold PutUint32. rewrite le_put_ok by (rewrite ?zlen_pad8, ?zlen_store, ?Hh; lia).
    cbn [mbind option_bind]. unfold negotiate_contexts_head in Hput. rewrite Ec in Hput.
    rewrite Hput. unfold negotiate_contexts_head. by rewrite Ec.
Qed.

Lemma contexts_head_reads n :
  negotiation_fits n →
  negotiate_fields n (negotiate_contexts_head n)
  ∧ Uint32 (negotiate_contexts_head n) 60 = Some (HeaderSize + zlen (negotiate_contexts_head n))
  ∧ Uint16 (negotiate_contexts_head n) 6 = Some (zlen (ng_Contexts n)).
Proof.
  intros (Hd & Hg & Ht & H1 & H2 & H3 & H4). pose proof (zlen_nonneg (ng_Token n)) as H5.
  pose proof (zlen_nonneg (ng_Contexts n)) as H6. pose proof (zlen_negotiate_head n) as Hh.
  destruct (align8_spec (64 + zlen (ng_Token n))) as [Ha _]; [lia|].
  destruct (negotiate_head_fields n) as (F1 & F2 & F3); [done..|].
  unfold negotiate_fields, Uint16, Uint32 in *. rewrite zlen_contexts_head.
  unfold negotiate_contexts_head. rewrite zlen_pad8, zlen_store, Hh.
  unfold pad8. rewrite !zlen_store, !Hh.
  repeat (rewrite le_get_store_other by len). repeat (rewrite slice_store_other by len).
  rewrite !le_get_app_l, !slice_app_l by len.
  repeat (rewrite le_get_store_other by len). repeat (rewrite slice_store_other by len).
  split; [done|split].
  - rewrite le_get_store_same by len. f_equal. apply Z.mod_small. lia.
  - rewrite le_get_store_other, le_get_app_l, le_get_store_same by len.
    f_equal. apply Z.mod_small. lia.
Qed.

(** A negotiate response says what the server negotiated.  A negotiation
    that fits (sizes within their 16-bit fields, contexts only for SMB 3.1.1) is
    encoded into one frame; the dialect, the server GUID and the security token
    are found in it, and the package's own context reader, started where the
    body says and with the count it says, finds exactly the contexts given. *)
Theorem negotiate_response_readable (n : Negotiation) (header : list Z) :
  negotiation_fits n → zlen header = HeaderSize →
  NoDup (List.filter contextMustBeUnique (kinds (ng_Contexts n))) →
  ∃ body, NegotiateResponseBody n = wret body
    ∧ zlen (header ++ body) <= maxDirectTCPPayload
    ∧ negotiate_fields n body
    ∧ (ng_Contexts n ≠ [] → negotiate_contexts_read n header body).
Proof.
  intros Hn Hh Hu. destruct (NegotiateResponseBody_eq n Hn) as (body & Hb & Hl & Hnone & Hput).
  exists body. rewrite zlen_app. split_and!; [done|lia|..].
  - destruct (decide (ng_Contexts n = [])) as [Hc|Hc].
    { rewrite (Hnone Hc). destruct Hn as (? & ? & _). by apply negotiate_head_fields. }
    destruct (put_contexts_prefix _ _ _ (Hput Hc)) as [tail ->].
    destruct (contexts_head_reads n Hn) as ((F1 & F2 & F3) & _ & _).
    pose proof (zlen_nonneg (ng_Token n)). pose proof (zlen_contexts_head n) as Hz.
    destruct (align8_spec (64 + zlen (ng_Token n))) as [Ha _]; [lia|].
    unfold negotiate_fields, Uint16 in *. rewrite le_get_app_l, !slice_app_l by lia. done.
  - intros Hc. pose proof (Hput Hc) as Hp. destruct (put_contexts_prefix _ _ _ Hp) as [tail Et].
    destruct (contexts_head_reads n Hn) as (_ & F1 & F2).
    pose proof (zlen_nonneg (ng_Token n)). pose proof (zlen_contexts_head n) as Hz.
    destruct (align8_spec (64 + zlen (ng_Token n))) as [Ha Hmod]; [lia|].
    exists (HeaderSize + zlen (negotiate_contexts_head n)).
    unfold Uint16, Uint32 in *. rewrite Et at 1 2. rewrite !le_get_app_l by lia. split_and!; [done| |done|].
    { rewrite Hz, Z.add_mod, Hmod by lia. done. }
    rewrite <- Hh. rewrite (read_contexts _ header _ body []); [done|by apply Hn|done|by rewrite Hh|done|].
    rewrite zlen_app. lia.
Qed.

(** An SMB 3.1.1 answer with a token and two contexts. *)
Definition example_answer : Negotiation :=
  {| ng_SecurityMode := 1; ng_Dialect := Dialect311; ng_ServerGUID := replicate 16 7;
     ng_Capabilities := 4; ng_MaxTransactSize := 65536; ng_MaxReadSize := 65536;
     ng_MaxWriteSize := 65536; ng_SystemTime := 1; ng_StartTime := 0; ng_Token := [96; 1; 2];
     ng_Contexts := [mkContext ContextPreauthIntegrity [1; 0; 0; 0; 1; 0]; mkContext 8 [9; 9]] |}.

Lemma negotiate_response_readable_witness :
  ∃ body, NegotiateResponseBody example_answer = wret body
    ∧ zlen (make 64 ++ body) <= maxDirectTCPPayload
    ∧ negotiate_fields example_answer body
    ∧ (ng_Contexts example_answer ≠ [] → negotiate_contexts_read example_answer (make 64) body).
Proof.
  apply (negotiate_response_readable example_answer (make 64)).
  - unfold negotiation_fits, is_u16, contexts_typed. cbn. split_and!; try done.
    by repeat constructor.
  - reflexivity.
  - apply (bool_decide_unpack (NoDup _)). vm_compute. exact I.
Defined.

(** ** Information bodies in their response *)

Lemma units_fit_length limit rs : ∀ units,
  units_fit limit units rs = true → rs = [] ∨ units + zlen (utf16_Encode rs) <= limit.
Proof.
  induction rs as [|r rs IH]; intros units; [by left|]. cbn [units_fit]. intros H. right.
  change (utf16_Encode (r :: rs)) with (utf16_encode_rune r ++ utf16_Encode rs).
  assert (Hr : zlen (utf16_encode_rune r) <= if 65535 <? r then 2 else 1).
  { unfold utf16_encode_rune. clear H. destruct (65535 <? r) eqn:E; bool_prop;
      [repeat case_match; by vm_compute|].
    rewrite (proj2 (within_false 65536 _ _)) by lia. by destruct (_ || _). }
  rewrite zlen_app. destruct (limit <? _) eqn:E; [done|]. bool_prop.
  destruct (IH _ H) as [->|Hle]; [change (zlen (utf16_Encode [])) with 0|]; destruct (65535 <? r); lia.
Qed.

Lemma filesystemInformationName_bound value prefix :
  0 <= prefix <= 100 →
  ∃ r, filesystemInformationName value prefix = Some r
    ∧ ∀ name, r = Parsed name →
        name = EncodeUTF16 value ∧ zlen name <= maxDirectTCPPayload - HeaderSize - 8 - prefix.
Proof.
  intros Hp. unfold filesystemInformationName. destruct (_ || existsb _ _); [by eexists|].
  destruct (units_fit _ _ _) eqn:E; cbn [negb]; eexists; (split; [reflexivity|]); [|done].
  intros name [= <-]. split; [done|]. unfold EncodeUTF16. rewrite zlen_split_words.
  apply units_fit_length in E as [->|E]; [change (zlen (utf16_Encode [])) with 0|];
    Z.to_euclidean_division_equations; lia.
Qed.

(** The answer to a query carries the information whole: its length at byte 4,
    its bytes from byte 8 on, within one frame. *)
Definition carried (information : W (list Z)) : Prop :=
  ∃ r, information = Some r ∧ ∀ data, r = Parsed data →
    ∃ body, QueryInfoResponseBody data = wret body
      ∧ Uint32 body 4 = Some (zlen data) ∧ slice body 8 (8 + zlen data) = Some data
      ∧ HeaderSize + zlen body <= maxDirectTCPPayload.

Lemma query_info_ok data :
  zlen data <= maxDirectTCPPayload - HeaderSize - 8 →
  ∃ body, QueryInfoResponseBody data = wret body
    ∧ Uint32 body 4 = Some (zlen data) ∧ slice body 8 (8 + zlen data) = Some data
    ∧ HeaderSize + zlen body <= maxDirectTCPPayload.
Proof.
  intros Hl. pose proof (zlen_nonneg data). unfold QueryInfoResponseBody.
  rewrite (proj2 (Z.ltb_ge _ _)) by lia. repeat put_step. rewrite take_zlen by len.
  eexists. split; [done|]. split_and!; [repeat get_step; f_equal; apply Z.mod_small; lia| |len].
  apply slice_store_same; len.
Qed.

Lemma carried_bound information :
  (∃ r, information = Some r ∧
     ∀ data, r = Parsed data → zlen data <= maxDirectTCPPayload - HeaderSize - 8) →
  carried information.
Proof. intros (r & -> & H). exists r. split; [done|]. intros data Hd. by apply query_info_ok, H. Qed.

Lemma carried_malformed : carried malformed.
Proof. by eexists. Qed.

Lemma volume_carried info : carried (FileFsVolumeInformationBody info).
Proof.
  unfold FileFsVolumeInformationBody. destruct (_ <? 0); [apply carried_malformed|].
  destruct (filesystemInformationName_bound (fv_Label info) 18) as (r & -> & Hr); [lia|].
  destruct r as [label|]; [|apply carried_malformed]. destruct (Hr label) as [_ Hl]; [done|].
  pose proof (zlen_nonneg label). cbn [wbind]. repeat put_step. apply carried_bound.
  eexists. split; [reflexivity|]. intros data [= <-]. len.
Qed.

Lemma attribute_carried info : carried (FileFsAttributeInformationBody info).
Proof.
  unfold FileFsAttributeInformationBody. destruct (_ || _); [apply carried_malformed|].
  destruct (filesystemInformationName_bound (fa_FileSystemName info) 12) as (r & -> & Hr); [lia|].
  destruct r as [name|]; [|apply carried_malformed]. destruct (Hr name) as [_ Hl]; [done|].
  pose proof (zlen_nonneg name). cbn [wbind]. repeat put_step. apply carried_bound.
  eexists. split; [reflexivity|]. intros data [= <-]. len.
Qed.

Lemma sizes_carried size full :
  carried (FileFsSizeInformationBody size) ∧ carried (FileFsFullSizeInformationBody full).
Proof.
  unfold FileFsSizeInformationBody, FileFsFullSizeInformationBody.
  split; (destruct (_ || _); [apply carried_malformed|]; repeat put_step; apply carried_bound;
    eexists; (split; [reflexivity|]); intros data [= <-]; len).
Qed.

Lemma normalized_bound name limit :
  0 <= limit →
  ∃ r, FileNormalizedNameInformationBody name limit = Some r
    ∧ ∀ body truncated, r = Parsed (body, truncated) →
        zlen body <= limit ∧ zlen body <= maxDirectTCPPayload - HeaderSize - 8
        ∧ Uint32 body 0 = Some (zlen (EncodeUTF16 name))
        ∧ slice body 4 (zlen body) = slice (EncodeUTF16 name) 0 (zlen body - 4)
        ∧ (truncated = false ↔ zlen body = 4 + zlen (EncodeUTF16 name)).
Proof.
  intros H0. unfold FileNormalizedNameInformationBody.
  destruct (_ || _) eqn:E; [by eexists|]. apply orb_false_iff in E as [E _]. bool_prop.
  destruct (filesystemInformationName_bound name 4) as (r & -> & Hr); [lia|].
  destruct r as [encoded|]; [|by eexists]. destruct (Hr encoded eq_refl) as [-> Hl]. cbn [wbind].
  set (encoded := EncodeUTF16 name) in *. set (room := Z.ldiff (limit - 4) 1).
  assert (0 <= room <= limit - 4) as Hroom.
  { unfold room. change 1 with (Z.ones 1). rewrite Z.ldiff_ones_r, Z.shiftr_div_pow2, Z.shiftl_mul_pow2 by lia.
    Z.to_euclidean_division_equations. lia. }
  pose proof (zlen_nonneg encoded). set (n := Z.min (zlen encoded) room).
  put_step. destruct (slice_is_Some encoded 0 n) as (s & Hs & Hsl); [lia..|]. rewrite Hs.
  put_step. rewrite take_zlen by len. set (out := store 4 s _).
  eexists. split; [reflexivity|]. intros body truncated [= <- <-]. unfold out.
  autorewrite with wire. replace (4 + n - 4) with n by lia. split_and!; [lia|lia|..].
  - repeat get_step. f_equal. apply Z.mod_small. lia.
  - replace (4 + n) with (4 + zlen s) by lia. rewrite Hs. apply slice_store_same; len.
  - rewrite negb_false_iff, Z.eqb_eq. lia.
Qed.

(** What a query of file-system information answers always fits its
    response.  The encoders of the volume, size, full-size and attribute
    information never panic, and a body they return is carried whole by
    [QueryInfoResponseBody] within the largest frame: the check on the name's
    UTF-16 length leaves exactly the room the prefix and the two headers take.
    A normalized name keeps within the client's buffer too, states the full
    length, holds a prefix of the name and reports a truncation exactly when
    there is one. *)
Theorem information_carried volume size full attribute name limit :
  0 <= limit →
  carried (FileFsVolumeInformationBody volume) ∧ carried (FileFsSizeInformationBody size)
  ∧ carried (FileFsFullSizeInformationBody full) ∧ carried (FileFsAttributeInformationBody attribute)
  ∧ carried (let* answer := FileNormalizedNameInformationBody name limit in wret answer.1)
  ∧ ∀ body truncated,
      FileNormalizedNameInformationBody name limit = wret (body, truncated) →
      zlen body <= limit ∧ Uint32 body 0 = Some (zlen (EncodeUTF16 name))
      ∧ slice body 4 (zlen body) = slice (EncodeUTF16 name) 0 (zlen body - 4)
      ∧ (truncated = false ↔ zlen body = 4 + zlen (EncodeUTF16 name)).
Proof.
  intros Hlimit. destruct (sizes_carried size full) as [Hs Hf].
  destruct (normalized_bound name limit Hlimit) as (r & Hr & Hn).
  split_and!; [apply volume_carried|done|done|apply attribute_carried|..].
  - rewrite Hr. destruct r as [[body truncated]|]; [|apply carried_malformed].
    apply carried_bound. eexists. split; [reflexivity|]. intros data [= <-].
    by destruct (Hn body truncated eq_refl) as (_ & ? & _).
  - intros body truncated H. rewrite Hr in H. injection H as ->.
    destruct (Hn body truncated eq_refl) as (? & _ & ? & ? & ?); by split_and!.
Qed.

Lemma information_carried_witness :
  carried (FileFsVolumeInformationBody {| fv_CreationTime := 1; fv_Serial := 9; fv_Label := [118; 49] |})
  ∧ FileNormalizedNameInformationBody [97; 98; 99] 8 = wret ([6; 0; 0; 0; 97; 0; 98; 0], true).
Proof.
  destruct (information_carried {| fv_CreationTime := 1; fv_Serial := 9; fv_Label := [118; 49] |}
    {| fz_Total := 4; fz_Available := 2; fz_SectorsPerAllocationUnit := 8; fz_BytesPerSector := 512 |}
    {| ff_Total := 4; ff_CallerAvailable := 1; ff_ActualAvailable := 2;
       ff_SectorsPerAllocationUnit := 8; ff_BytesPerSector := 512 |}
    {| fa_Attributes := 3; fa_MaximumComponentNameLength := 255; fa_FileSystemName := [78; 84] |}
    [97; 98; 99] 8) as (Hv & _); [lia|].
  split; [exact Hv|vm_compute; reflexivity].
Defined.

(** ** Basic information *)

Definition basic_typed (info : FileBasicInfo) : Prop :=
  is_int64 (bi_CreationTime info) ∧ is_int64 (bi_LastAccessTime info)
  ∧ is_int64 (bi_LastWriteTime info) ∧ is_int64 (bi_ChangeTime info) ∧ is_u32 (bi_Attributes info).

(** Basic information survives the wire: what [FileBasicInformationBody]
    encodes, negative times included, [ParseFileBasicInformation] returns. *)
Theorem basic_information_roundtrip (info : FileBasicInfo) :
  basic_typed info →
  ∃ body, FileBasicInformationBody info = Some body ∧ ParseFileBasicInformation body = wret info.
Proof.
  intros (H1 & H2 & H3 & H4 & H5). unfold FileBasicInformationBody. repeat put_step.
  eexists. split; [done|]. unfold ParseFileBasicInformation. autorewrite with wire.
  cbn [Z.eqb Pos.eqb negb]. repeat get_step. cbn [mbind option_bind].
  change (256 ^ Z.of_nat 8) with 18446744073709551616. change (256 ^ Z.of_nat 4) with 4294967296.
  rewrite !to_int64_mod by done. rewrite Z.mod_small by exact H5. by destruct info.
Qed.

Lemma basic_information_roundtrip_witness :
  ∃ body,
    FileBasicInformationBody {| bi_CreationTime := -1; bi_LastAccessTime := 5; bi_LastWriteTime := 0;
      bi_ChangeTime := -2; bi_Attributes := 32 |} = Some body
    ∧ ParseFileBasicInformation body = wret {| bi_CreationTime := -1; bi_LastAccessTime := 5;
        bi_LastWriteTime := 0; bi_ChangeTime := -2; bi_Attributes := 32 |}.
Proof.
  apply basic_information_roundtrip. unfold basic_typed, is_int64, is_u32. simpl. lia.
Defined.

(** ** The on-disk identity of a create *)

(** The body before the context, and the context's stores on it. *)
Lemma put_on_disk_id_ok id body :
  zlen body = 144 →
  put_on_disk_id id body = Some
    (store 120 (le_split 8 (VolumeID id)) (store 112 (le_split 8 (DiskFileID id))
    (store 104 qfid (store 100 (le_split 4 32) (store 98 (le_split 2 24)
    (store 94 (le_split 2 4) (store 92 (le_split 2 16) (store 84 (le_split 4 56)
    (store 80 (le_split 4 (HeaderSize + 88)) body))))))))).
Proof. intros Hl. unfold put_on_disk_id. repeat put_step. done. Qed.

Definition on_disk_typed (id : CreateOnDiskID) : Prop := is_u64 (DiskFileID id) ∧ is_u64 (VolumeID id).

(** What the context area of a create response says. *)
Definition on_disk_read (id : CreateOnDiskID) (header body : list Z) (maxContexts : Z) : Prop :=
  ∃ offset length area data,
    Uint32 body 80 = Some offset ∧ Uint32 body 84 = Some length
    ∧ slice (header ++ body) offset (offset + length) = Some area
    ∧ create_contexts (S (List.length area)) maxContexts [] area = wret [mkCreateContext qfid data]
    ∧ Uint64 data 0 = Some (DiskFileID id) ∧ Uint64 data 8 = Some (VolumeID id).

Lemma put_on_disk_id_read id header body out maxContexts :
  on_disk_typed id → zlen header = HeaderSize → zlen body = 144 → 1 <= maxContexts →
  slice body 88 92 = Some [0; 0; 0; 0] →
  put_on_disk_id id body = Some out → on_disk_read id header out maxContexts.
Proof.
  intros [H1 H2] Hh Hl Hm Hz. rewrite put_on_disk_id_ok by done.
  set (b := store 120 _ _). intros [= <-].
  assert (Hb : zlen b = 144) by (unfold b; len).
  destruct (slice_is_Some b 88 144) as (area & Ha & Hla); [lia..|].
  assert (∀ w i, 0 <= i → i + Z.of_nat w <= 56 → le_get w area i = le_get w b (88 + i)) as Hget.
  { intros w i ? ?. apply (le_get_slice w b area 88 144); [done|lia..]. }
  destruct (slice_is_Some area 24 56) as (data & Hd & Hld); [lia..|].
  exists (HeaderSize + 88), 56, area, data. split_and!.
  - unfold b. repeat get_step. done.
  - unfold b. repeat get_step. done.
  - rewrite slice_app_r by lia. rewrite Hh. exact Ha.
  - assert (Uint32 area 0 = Some 0) as E0.
    { unfold Uint32. rewrite Hget by lia. unfold b. repeat get_step. unfold le_get.
      change (slice body _ _) with (slice body 88 92). by rewrite Hz. }
    assert (Uint16 area 4 = Some 16 ∧ Uint16 area 6 = Some 4 ∧ Uint16 area 10 = Some 24
            ∧ Uint32 area 12 = Some 32) as (E1 & E2 & E3 & E4).
    { unfold Uint16, Uint32. rewrite !Hget by lia. change (88 + 4) with 92. change (88 + 6) with 94.
      change (88 + 10) with 98. change (88 + 12) with 100.
      unfold b. split_and!; repeat get_step; done. }
    assert (slice area 16 20 = Some qfid) as E5.
    { rewrite (slice_slice b area 88 144) by (done || lia). unfold b. repeat get_step.
      apply (slice_store_same 104 qfid); [lia|]. change (zlen qfid) with 4. len. }
    cbn [create_contexts]. rewrite Hla, E0, E1, E2, E3, E4. cbn [mbind option_bind].
    rewrite (proj2 (Z.leb_gt maxContexts _)) by (rewrite zlen_nil; lia).
    change (16 + 4) with 20. change (24 + 32) with 56. cbn -[slice]. rewrite E5, Hd. done.
  - unfold Uint64. rewrite (le_get_slice 8 area data 24 56), Hget by (done || lia).
    change (88 + (24 + 0)) with 112. unfold b. repeat get_step. f_equal.
    unfold is_u64 in *. apply Z.mod_small. lia.
  - unfold Uint64. rewrite (le_get_slice 8 area data 24 56), Hget by (done || lia).
    change (88 + (24 + 8)) with 120. unfold b. repeat get_step. f_equal.
    unfold is_u64 in *. apply Z.mod_small. lia.
Qed.

(** A create response is one frame, and the on-disk identity it was asked
    for is found by the package's own create-context reader: exactly one
    context, named QFid, at the offset and length the body states, whose data
    starts with the file and the volume identity. *)
Theorem on_disk_id_readable (r : CreateResponse) (header : list Z) (maxContexts : Z) :
  zlen (cp_FileID r) = 16 → zlen header = HeaderSize → 1 <= maxContexts →
  ∃ body, CreateResponseBody r = Some body
    ∧ zlen (header ++ body) = HeaderSize + 88 + (if cp_OnDiskID r then 56 else 0)
    ∧ slice body 64 80 = Some (cp_FileID r)
    ∧ ∀ id, cp_OnDiskID r = Some id → on_disk_typed id → on_disk_read id header body maxContexts.
Proof.
  intros Hf Hh Hm. pose proof (slice_store_same 64 (cp_FileID r)) as Es. rewrite Hf in Es.
  unfold CreateResponseBody. destruct (cp_OnDiskID r) as [id|]; repeat put_step;
    rewrite take_zlen by lia.
  - set (body := store 64 _ _). assert (zlen body = 144) as Hl by (unfold body; len).
    rewrite put_on_disk_id_ok by done. eexists. split; [done|]. rewrite zlen_app. split_and!; [len| |].
    + repeat get_step. unfold body. apply Es; len.
    + intros id' [= <-] Ht.
      apply (put_on_disk_id_read id header body); [done..| |by apply put_on_disk_id_ok].
      unfold body. repeat get_step. vm_compute. done.
  - eexists. split; [done|]. rewrite zlen_app. split_and!; [len|apply Es; len|done].
Qed.

Lemma on_disk_id_readable_witness :
  ∃ body,
    CreateResponseBody {| cp_OplockLevel := 0; cp_Flags := 0; cp_CreateAction := 1;
      cp_CreationTime := 1; cp_LastAccessTime := 2; cp_LastWriteTime := 3; cp_ChangeTime := 4;
      cp_AllocationSize := 4096; cp_EndOfFile := 10; cp_Attributes := 128;
      cp_FileID := replicate 16 3;
      cp_OnDiskID := Some {| DiskFileID := 77; VolumeID := 5 |} |} = Some body
    ∧ zlen (make 64 ++ body) = HeaderSize + 88 + 56 ∧ slice body 64 80 = Some (replicate 16 3)
    ∧ on_disk_read {| DiskFileID := 77; VolumeID := 5 |} (make 64) body 16.
Proof.
  destruct (on_disk_id_readable {| cp_OplockLevel := 0; cp_Flags := 0; cp_CreateAction := 1;
      cp_CreationTime := 1; cp_LastAccessTime := 2; cp_LastWriteTime := 3; cp_ChangeTime := 4;
      cp_AllocationSize := 4096; cp_EndOfFile := 10; cp_Attributes := 128;
      cp_FileID := replicate 16 3;
      cp_OnDiskID := Some {| DiskFileID := 77; VolumeID := 5 |} |} (make 64) 16)
    as (body & Hb & Hl & Hs & Hr); [done|done|lia|].
  exists body. split_and!; [done..|]. apply Hr; [done|]. unfold on_disk_typed, is_u64. simpl. lia.
Defined.
