(* ===== verification/WireDirectory.v ===== *)
(** * SMB messages: directory pages

    The response half of [packages/smb/internal/wire/query_directory.go]: the
    records of a directory page and the encoder that lays them out in the
    client's buffer. *)

From S2P Require Import Prelude Bytes WireHeader WireText WireRequests WireResponses.

Definition FileDirectoryInformation : Z := 1.
Definition FileFullDirectoryInformation : Z := 2.
Definition FileBothDirectoryInformation : Z := 3.
Definition FileNamesInformation : Z := 12.
Definition FileIdBothDirectoryInformation : Z := 37.
Definition FileIdFullDirectoryInformation : Z := 38.

Definition IsDirectoryInformationClass (class : Z) : bool :=
  existsb (Z.eqb class)
    [FileDirectoryInformation; FileFullDirectoryInformation; FileBothDirectoryInformation;
     FileNamesInformation; FileIdBothDirectoryInformation; FileIdFullDirectoryInformation;
     60; 78; 79; 80; 81].

(** The size, or [None] for [(0, false)]. *)
Definition DirectoryInformationHeadSize (class : Z) : option Z :=
  if class =? FileNamesInformation then Some 12
  else if class =? FileDirectoryInformation then Some 64
  else if class =? FileFullDirectoryInformation then Some 68
  else if class =? FileBothDirectoryInformation then Some 94
  else if class =? FileIdFullDirectoryInformation then Some 80
  else if class =? FileIdBothDirectoryInformation then Some 104
  else None.

Record DirectoryEntry := {
  de_Name : list Z; de_CreationTime : Z; de_LastAccessTime : Z; de_LastWriteTime : Z;
  de_ChangeTime : Z; de_EndOfFile : Z; de_AllocationSize : Z; de_Attributes : Z; de_EaSize : Z;
  de_FileID : Z }.

Record DirectoryPage := { dp_Data : list Z; dp_Completed : Z; dp_Partial : bool }.

(** The loop over the units of a name; a high surrogate takes its pair. *)
Fixpoint name_units_ok (units : list Z) : bool :=
  match units with
  | [] => true
  | unit :: units =>
      if unit =? 0 then false
      else if within 55296 56319 unit then
        match units with
        | [] => false
        | low :: units => if (low <? 56320) || (57343 <? low) then false else name_units_ok units
        end
      else if within 56320 57343 unit then false
      else name_units_ok units
  end.

(** [true] is a nil error. *)
Definition checkDirectoryEntry (class : Z) (entry : DirectoryEntry) : bool :=
  if (zlen (de_Name entry) =? 0)
     || ((maxDirectTCPPayload - HeaderSize - 8 - 104) / 2 <? zlen (de_Name entry))
  then false
  else if negb (name_units_ok (de_Name entry)) then false
  else if class =? FileNamesInformation then true
  else
    negb ((de_CreationTime entry <? 0) || (de_LastAccessTime entry <? 0)
          || (de_LastWriteTime entry <? 0) || (de_ChangeTime entry <? 0)
          || (de_EndOfFile entry <? 0) || (de_AllocationSize entry <? 0)
          || ((class =? FileIdFullDirectoryInformation) || (class =? FileIdBothDirectoryInformation))
             && (de_FileID entry =? 0)).

(** The loop that writes the name, one byte a turn, to the end of the buffer. *)
Fixpoint put_name (turns : nat) (name : list Z) (head position : Z) (data : list Z)
  : option (list Z) :=
  match turns with
  | O => Some data
  | S turns =>
      let% unit := index name ((position - head) / 2) in
      let unit := if negb (Z.land (position - head) 1 =? 0) then Z.shiftr unit 8 else unit in
      let% data := set_byte position (unit mod 256) data in
      put_name turns name head (position + 1) data
  end.

Definition putDirectoryEntry (data : list Z) (class : Z) (entry : DirectoryEntry) (head : Z)
  : option (list Z) :=
  let nameLength := 2 * zlen (de_Name entry) in
  let% data :=
    (if class =? FileNamesInformation then PutUint32 8 nameLength data
     else
       let% data := PutUint64 8 (de_CreationTime entry) data in
       let% data := PutUint64 16 (de_LastAccessTime entry) data in
       let% data := PutUint64 24 (de_LastWriteTime entry) data in
       let% data := PutUint64 32 (de_ChangeTime entry) data in
       let% data := PutUint64 40 (de_EndOfFile entry) data in
       let% data := PutUint64 48 (de_AllocationSize entry) data in
       let% data := PutUint32 56 (de_Attributes entry) data in
       let% data := PutUint32 60 nameLength data in
       let% data := (if class =? FileDirectoryInformation then Some data
                     else PutUint32 64 (de_EaSize entry) data) in
       if class =? FileIdFullDirectoryInformation then PutUint64 72 (de_FileID entry) data
       else if class =? FileIdBothDirectoryInformation then PutUint64 96 (de_FileID entry) data
       else Some data) in
  put_name (Z.to_nat (zlen data - head)) (de_Name entry) head head data.

(** The loop that measures the page: its size, the entries it completes and
    whether the first one does not fit; [None] is [ErrMalformed]. *)
Fixpoint measure_page (class head limit : Z) (single : bool) (size completed : Z)
    (entries : list DirectoryEntry) : option (Z * Z * bool) :=
  match entries with
  | [] => Some (size, completed, false)
  | entry :: entries =>
      if negb (checkDirectoryEntry class entry) then None
      else
        let start := align8 size in
        let length := head + 2 * zlen (de_Name entry) in
        if limit <? start + length then
          if completed =? 0 then Some (limit, completed, true) else Some (size, completed, false)
        else if single then Some (start + length, completed + 1, false)
        else measure_page class head limit single (start + length) (completed + 1) entries
  end.

(** The loop that writes the completed entries, each linked to the one before. *)
Fixpoint put_entries (class head : Z) (entries : list DirectoryEntry) (first : bool)
    (start previous : Z) (data : list Z) : option (list Z) :=
  match entries with
  | [] => Some data
  | entry :: entries =>
      let% data := (if first then Some data else PutUint32 previous (start - previous) data) in
      let length := head + 2 * zlen (de_Name entry) in
      let% record := slice data start (start + length) in
      let% record := putDirectoryEntry record class entry head in
      let% data := copy_to start (start + length) record data in
      put_entries class head entries false (align8 (start + length)) start data
  end.

Definition EncodeDirectoryPage (class : Z) (entries : list DirectoryEntry) (limit : Z)
    (single : bool) : W DirectoryPage :=
  match DirectoryInformationHeadSize class with
  | None => malformed
  | Some head =>
      if (limit <? head) || (maxDirectTCPPayload - HeaderSize - 8 <? limit) then malformed
      else
        match measure_page class head limit single 0 0 entries with
        | None => malformed
        | Some (size, completed, partial) =>
            let page data := {| dp_Data := data; dp_Completed := completed; dp_Partial := partial |} in
            if size =? 0 then wret (page [])
            else if partial then
              let% entry := entries !! 0%nat in
              let% data := putDirectoryEntry (make size) class entry head in
              wret (page data)
            else
              let% completed_entries := slice entries 0 completed in
              let% data := put_entries class head completed_entries true 0 0 (make size) in
              wret (page data)
        end
  end.

(** ** Names *)

(** The name as it stands on the wire. *)
Definition name_bytes (name : list Z) : list Z := concat (le_split 2 <$> name).

Lemma zlen_name_bytes name : zlen (name_bytes name) = 2 * zlen name.
Proof. apply zlen_split_words. Qed.

Lemma name_bytes_index name : ∀ i, 0 <= i → i < 2 * zlen name →
  ∃ unit, index name (i / 2) = Some unit
    ∧ name_bytes name !! Z.to_nat i
      = Some ((if negb (Z.land i 1 =? 0) then Z.shiftr unit 8 else unit) mod 256).
Proof.
  induction name as [|u name IH]; intros i H0 Hi; [change (zlen []) with 0 in Hi; lia|].
  rewrite zlen_cons in Hi. rewrite land_1. unfold index.
  rewrite (proj2 (Z.leb_le _ _)) by (apply Z.div_pos; lia).
  assert (name_bytes (u :: name) = [u mod 256; u / 256 mod 256] ++ name_bytes name) as -> by done.
  destruct (decide (i = 0)) as [->|]; [by exists u|].
  destruct (decide (i = 1)) as [->|]; [exists u; split; [done|]; simpl; by rewrite Z.shiftr_div_pow2|].
  destruct (IH (i - 2)) as (unit & Hu & Hb); [lia..|]. exists unit.
  rewrite land_1 in Hb. unfold index in Hu.
  rewrite (proj2 (Z.leb_le _ _)) in Hu by (apply Z.div_pos; lia).
  replace (Z.to_nat (i / 2)) with (S (Z.to_nat ((i - 2) / 2)))
    by (Z.to_euclidean_division_equations; lia).
  split; [done|]. rewrite lookup_app_r by (simpl; lia).
  replace (Z.to_nat i - length _)%nat with (Z.to_nat (i - 2)) by (simpl; lia).
  rewrite Hb. by replace ((i - 2) mod 2) with (i mod 2) by (Z.to_euclidean_division_equations; lia).
Qed.

(** The loop fills the rest of the buffer with the first bytes of the name. *)
Lemma put_name_ok name head turns : ∀ pre post,
  length post = turns → head <= zlen pre → zlen pre - head + Z.of_nat turns <= 2 * zlen name →
  put_name turns name head (zlen pre) (pre ++ post)
  = Some (pre ++ take turns (drop (Z.to_nat (zlen pre - head)) (name_bytes name))).
Proof.
  induction turns as [|turns IH]; intros pre post Hl Hh Hn.
  { destruct post; [|done]. by rewrite take_0. }
  destruct post as [|x post]; [done|]. cbn [put_name].
  destruct (name_bytes_index name (zlen pre - head)) as (unit & -> & Hb); [lia..|].
  cbn [mbind option_bind]. set (v := _ mod 256) in *. pose proof (zlen_nonneg pre).
  rewrite set_byte_ok by (autorewrite with wire; pose proof (zlen_nonneg post); lia).
  cbn [mbind option_bind].
  assert (store (zlen pre) [v] (pre ++ x :: post) = (pre ++ [v]) ++ post) as ->.
  { pose proof (store_app_past 0 [v] pre (x :: post)) as E. rewrite Z.add_0_r in E.
    rewrite E by lia. rewrite <- app_assoc. f_equal. change (x :: post) with ([x] ++ post).
    rewrite store_app_within by done. done. }
  pose proof (IH (pre ++ [v]) post) as E. autorewrite with wire in E. rewrite Z.add_0_r in E.
  rewrite E by (simpl in Hl; lia). rewrite <- app_assoc. do 2 f_equal. cbn [app].
  replace (Z.to_nat (zlen pre + 1 - head)) with (S (Z.to_nat (zlen pre - head))) by lia.
  by rewrite (drop_S _ _ _ Hb).
Qed.

(** ** One record *)

Definition rich (class : Z) : bool := negb (class =? FileNamesInformation).
Definition with_ea (class : Z) : bool := rich class && negb (class =? FileDirectoryInformation).
Definition id_place (class : Z) : option Z :=
  if class =? FileIdFullDirectoryInformation then Some 72
  else if class =? FileIdBothDirectoryInformation then Some 96 else None.

(** What a client reads in the record at [start]: the fields its class has. *)
Definition shown_if (present : bool) (read : option Z) : option Z :=
  if present then read else Some 0.

Definition read_entry (class head : Z) (data : list Z) (start : Z) : option DirectoryEntry :=
  let r := rich class in
  let% creation := shown_if r (le_get 8 data (start + 8)) in
  let% access := shown_if r (le_get 8 data (start + 16)) in
  let% write := shown_if r (le_get 8 data (start + 24)) in
  let% change := shown_if r (le_get 8 data (start + 32)) in
  let% eof := shown_if r (le_get 8 data (start + 40)) in
  let% allocation := shown_if r (le_get 8 data (start + 48)) in
  let% attributes := shown_if r (le_get 4 data (start + 56)) in
  let% length := le_get 4 data (start + (if r then 60 else 8)) in
  let% ea := shown_if (with_ea class) (le_get 4 data (start + 64)) in
  let% id := match id_place class with Some p => le_get 8 data (start + p) | None => Some 0 end in
  let% name := slice data (start + head) (start + head + length) in
  Some {| de_Name := words_of name; de_CreationTime := creation; de_LastAccessTime := access;
          de_LastWriteTime := write; de_ChangeTime := change; de_EndOfFile := eof;
          de_AllocationSize := allocation; de_Attributes := attributes; de_EaSize := ea;
          de_FileID := id |}.

(** What the class shows of an entry. *)
Definition shown (class : Z) (e : DirectoryEntry) : DirectoryEntry :=
  let when b v := if b : bool then v else 0 in
  let r := rich class in
  {| de_Name := de_Name e; de_CreationTime := when r (de_CreationTime e);
     de_LastAccessTime := when r (de_LastAccessTime e);
     de_LastWriteTime := when r (de_LastWriteTime e); de_ChangeTime := when r (de_ChangeTime e);
     de_EndOfFile := when r (de_EndOfFile e); de_AllocationSize := when r (de_AllocationSize e);
     de_Attributes := when r (de_Attributes e); de_EaSize := when (with_ea class) (de_EaSize e);
     de_FileID := match id_place class with Some _ => de_FileID e | None => 0 end |}.

(** The Go types of an entry. *)
Definition entry_typed (e : DirectoryEntry) : Prop :=
  Forall is_word (de_Name e) ∧ is_int64 (de_CreationTime e) ∧ is_int64 (de_LastAccessTime e)
  ∧ is_int64 (de_LastWriteTime e) ∧ is_int64 (de_ChangeTime e) ∧ is_int64 (de_EndOfFile e)
  ∧ is_int64 (de_AllocationSize e) ∧ is_u32 (de_Attributes e) ∧ is_u32 (de_EaSize e)
  ∧ is_u64 (de_FileID e).

(** The stores of the fixed part. *)
Definition entry_fields (class : Z) (e : DirectoryEntry) (data : list Z) : list Z :=
  let nameLength := 2 * zlen (de_Name e) in
  if class =? FileNamesInformation then store 8 (le_split 4 nameLength) data
  else
    let data :=
      store 60 (le_split 4 nameLength) (store 56 (le_split 4 (de_Attributes e))
      (store 48 (le_split 8 (de_AllocationSize e)) (store 40 (le_split 8 (de_EndOfFile e))
      (store 32 (le_split 8 (de_ChangeTime e)) (store 24 (le_split 8 (de_LastWriteTime e))
      (store 16 (le_split 8 (de_LastAccessTime e)) (store 8 (le_split 8 (de_CreationTime e)) data))))))) in
    let data := if class =? FileDirectoryInformation then data
                else store 64 (le_split 4 (de_EaSize e)) data in
    if class =? FileIdFullDirectoryInformation then store 72 (le_split 8 (de_FileID e)) data
    else if class =? FileIdBothDirectoryInformation then store 96 (le_split 8 (de_FileID e)) data
    else data.

Lemma zlen_entry_fields class e data : zlen (entry_fields class e data) = zlen data.
Proof. unfold entry_fields. repeat case_match; by rewrite !zlen_store. Qed.

(** The six classes with a layout, one at a time. *)
Ltac class_cbn :=
  cbn [Z.eqb Pos.eqb FileNamesInformation FileDirectoryInformation FileFullDirectoryInformation
       FileBothDirectoryInformation FileIdFullDirectoryInformation FileIdBothDirectoryInformation
       negb andb mbind option_bind] in *.

Ltac each_class H :=
  unfold DirectoryInformationHeadSize in H;
  repeat match type of H with
  | (if ?c =? ?k then _ else _) = _ => destruct (Z.eqb_spec c k) as [->|?]
  end; [injection H as <-..|done].

Lemma putDirectoryEntry_ok class head e data :
  DirectoryInformationHeadSize class = Some head →
  head <= zlen data → zlen data <= head + 2 * zlen (de_Name e) →
  putDirectoryEntry data class e head
  = Some (take (Z.to_nat head) (entry_fields class e data)
          ++ take (Z.to_nat (zlen data - head)) (name_bytes (de_Name e))).
Proof.
  intros Hh H1 H2.
  assert (putDirectoryEntry data class e head
    = put_name (Z.to_nat (zlen data - head)) (de_Name e) head head (entry_fields class e data)) as ->.
  { rewrite <- (zlen_entry_fields class e data). unfold putDirectoryEntry, entry_fields.
    each_class Hh; class_cbn; repeat put_step; done. }
  assert (0 <= head) as H0 by (each_class Hh; lia).
  set (b := entry_fields class e data). assert (zlen b = zlen data) as Hb by apply zlen_entry_fields.
  rewrite <- (take_drop (Z.to_nat head) b) at 1.
  assert (zlen (take (Z.to_nat head) b) = head) as Hp
    by (unfold zlen in *; rewrite length_take; lia).
  rewrite <- Hp at 2 3. rewrite put_name_ok; rewrite ?Hp; [|unfold zlen in *; rewrite length_drop; lia|lia|lia].
  by rewrite Z.sub_diag, drop_0.
Qed.

(** What a checked entry of its types satisfies. *)
Lemma checked_entry class e :
  entry_typed e → checkDirectoryEntry class e = true →
  1 <= zlen (de_Name e) <= (maxDirectTCPPayload - HeaderSize - 8 - 104) / 2
  ∧ (rich class = true →
     is_u64 (de_CreationTime e) ∧ is_u64 (de_LastAccessTime e) ∧ is_u64 (de_LastWriteTime e)
     ∧ is_u64 (de_ChangeTime e) ∧ is_u64 (de_EndOfFile e) ∧ is_u64 (de_AllocationSize e)).
Proof.
  unfold entry_typed, checkDirectoryEntry, rich, is_int64, is_u64.
  intros (_ & H1 & H2 & H3 & H4 & H5 & H6 & _). pose proof (zlen_nonneg (de_Name e)).
  destruct ((zlen _ =? 0) || _) eqn:E; [done|]. apply orb_false_iff in E as [E1 E2].
  destruct (name_units_ok _); [|done]. cbn [negb]. bool_prop.
  intros Hc. split; [lia|]. intros Hr. destruct (class =? FileNamesInformation); [done|].
  rewrite negb_true_iff, !orb_false_iff, !Z.ltb_ge in Hc. lia.
Qed.

Definition record (class head : Z) (e : DirectoryEntry) (data : list Z) : list Z :=
  take (Z.to_nat head) (entry_fields class e data) ++ name_bytes (de_Name e).

Lemma putDirectoryEntry_record class head e data :
  DirectoryInformationHeadSize class = Some head → zlen data = head + 2 * zlen (de_Name e) →
  putDirectoryEntry data class e head = Some (record class head e data).
Proof.
  intros Hh Hl. pose proof (zlen_nonneg (de_Name e)). rewrite putDirectoryEntry_ok by (done || lia).
  unfold record. do 2 f_equal. apply take_zlen. rewrite zlen_name_bytes. lia.
Qed.

Lemma zlen_record class head e data :
  0 <= head → zlen data = head + 2 * zlen (de_Name e) → zlen (record class head e data) = zlen data.
Proof.
  intros H0 Hl. unfold record. rewrite zlen_app, zlen_name_bytes.
  pose proof (zlen_entry_fields class e data) as Hz. pose proof (zlen_nonneg (de_Name e)).
  assert (zlen (take (Z.to_nat head) (entry_fields class e data)) = head); [|lia].
  unfold zlen in *. rewrite length_take. lia.
Qed.

(** A fixed field of the record is that of the stores. *)
Lemma le_get_record w class head e data lo :
  0 <= head <= zlen data → lo + Z.of_nat w <= head →
  le_get w (record class head e data) lo = le_get w (entry_fields class e data) lo.
Proof.
  intros Hh Hlo. unfold record. pose proof (zlen_entry_fields class e data) as Hz.
  assert (zlen (take (Z.to_nat head) (entry_fields class e data)) = head) as Ht
    by (unfold zlen in *; rewrite length_take; lia).
  rewrite le_get_app_l by lia. symmetry.
  rewrite <- (take_drop (Z.to_nat head) (entry_fields class e data)) at 1.
  apply le_get_app_l. lia.
Qed.

Lemma slice_record_name class head e data :
  0 <= head <= zlen data →
  slice (record class head e data) head (head + 2 * zlen (de_Name e)) = Some (name_bytes (de_Name e)).
Proof.
  intros Hh. unfold record. pose proof (zlen_entry_fields class e data) as Hz.
  assert (zlen (take (Z.to_nat head) (entry_fields class e data)) = head) as Ht
    by (unfold zlen in *; rewrite length_take; lia).
  rewrite <- zlen_name_bytes, <- (app_nil_r (_ ++ _)), <- app_assoc. apply slice_app_mid; lia.
Qed.

Lemma next_record class head e data :
  DirectoryInformationHeadSize class = Some head → head <= zlen data →
  le_get 4 (record class head e data) 0 = le_get 4 data 0.
Proof.
  intros Hh Hl. rewrite le_get_record by (each_class Hh; lia). unfold entry_fields.
  repeat case_match; repeat get_step; done.
Qed.

(** The record shows its entry. *)
Lemma read_record class head e data :
  DirectoryInformationHeadSize class = Some head → entry_typed e → checkDirectoryEntry class e = true →
  zlen data = head + 2 * zlen (de_Name e) →
  read_entry class head (record class head e data) 0 = Some (shown class e).
Proof.
  intros Hh Ht Hc Hl. destruct (checked_entry class e Ht Hc) as [Hn Hr].
  destruct Ht as (Hw & _ & _ & _ & _ & _ & _ & Ha & He & Hi).
  assert (Hname : words_of (name_bytes (de_Name e)) = de_Name e).
  { unfold name_bytes. by apply words_of_split. }
  assert (Hs : slice (record class head e data) (0 + head) (0 + head + 2 * zlen (de_Name e))
               = Some (name_bytes (de_Name e))).
  { apply slice_record_name. each_class Hh; lia. }
  assert (Hlen : (2 * zlen (de_Name e)) mod 256 ^ Z.of_nat 4 = 2 * zlen (de_Name e)).
  { apply Z.mod_small. Z.to_euclidean_division_equations. lia. }
  unfold read_entry, shown, shown_if, with_ea, rich, id_place in *. rewrite !Z.add_0_l in *.
  each_class Hh; class_cbn; try (specialize (Hr eq_refl) as (T1 & T2 & T3 & T4 & T5 & T6));
    rewrite ?Z.add_0_l, !le_get_record by lia; unfold entry_fields; class_cbn; repeat get_step;
    cbn [mbind option_bind]; rewrite Hlen, Hs; cbn [mbind option_bind];
    unfold is_u64, is_u32 in *; change (256 ^ Z.of_nat 8) with 18446744073709551616;
    change (256 ^ Z.of_nat 4) with 4294967296; rewrite Hname, ?Z.mod_small by lia; done.
Qed.

(** The next field reads the same. *)
Local Ltac same Hm b w rec p :=
  let E := fresh "E" in
  destruct (shown_if b (le_get w rec p)) eqn:E; [|done]; rewrite (Hm _ _ _ _ E);
  cbn [mbind option_bind].

(** A record reads the same inside its page. *)
Lemma read_entry_in class head data start hi rec e :
  slice data start hi = Some rec → read_entry class head rec 0 = Some e →
  read_entry class head data start = Some e.
Proof.
  intros Hs. unfold read_entry. rewrite !Z.add_0_l.
  assert (Hm : ∀ present w p v, shown_if present (le_get w rec p) = Some v →
    shown_if present (le_get w data (start + p)) = Some v).
  { intros [] w p v; cbn; [by apply (le_get_in_slice w data rec start hi)|done]. }
  same Hm (rich class) 8%nat rec 8. same Hm (rich class) 8%nat rec 16. same Hm (rich class) 8%nat rec 24.
  same Hm (rich class) 8%nat rec 32. same Hm (rich class) 8%nat rec 40. same Hm (rich class) 8%nat rec 48.
  same Hm (rich class) 4%nat rec 56.
  destruct (le_get 4 rec (if rich class then 60 else 8)) as [length|] eqn:El; [|done].
  rewrite (le_get_in_slice _ _ _ _ _ _ _ Hs El). cbn [mbind option_bind].
  same Hm (with_ea class) 4%nat rec 64.
  destruct (match id_place class with Some p => le_get 8 rec (0 + p) | None => Some 0 end) as [id|] eqn:Ei; [|done].
  assert (match id_place class with Some p => le_get 8 data (start + p) | None => Some 0 end = Some id) as ->.
  { destruct (id_place class); [by apply (le_get_in_slice 8 data rec start hi)|done]. }
  cbn [mbind option_bind].
  destruct (slice rec head _) as [name|] eqn:En; [|done]. rewrite <- Z.add_assoc.
  by rewrite (slice_in_slice _ _ _ _ _ _ _ Hs En).
Qed.

(** ** The page *)

(** A client's walk over a page, from record to record. *)
Fixpoint read_page (class head : Z) (turns : nat) (data : list Z) (start : Z)
  : option (list DirectoryEntry) :=
  match turns with
  | O => None
  | S turns =>
      let% next := le_get 4 data start in
      let% entry := read_entry class head data start in
      if next =? 0 then Some [entry]
      else let% rest := read_page class head turns data (start + next) in Some (entry :: rest)
  end.

(** Where the page ends when the entries are laid down from [size] on. *)
Fixpoint laid (head size : Z) (entries : list DirectoryEntry) : Z :=
  match entries with
  | [] => size
  | e :: entries => laid head (align8 size + (head + 2 * zlen (de_Name e))) entries
  end.

Lemma align8_idem v : 0 <= v → align8 (align8 v) = align8 v.
Proof.
  intros H. destruct (align8_spec v H) as [H1 H2]. destruct (align8_spec (align8 v)) as [H3 H4]; [lia|].
  Z.to_euclidean_division_equations. lia.
Qed.

Lemma align8_fixed v : 0 <= v → v mod 8 = 0 → align8 v = v.
Proof.
  intros H H2. destruct (align8_spec v H) as [H1 H3]. Z.to_euclidean_division_equations. lia.
Qed.

Lemma laid_le head entries : ∀ size, 0 <= head → 0 <= size → size <= laid head size entries.
Proof.
  induction entries as [|e rest IH]; intros size Hh Hs; cbn [laid]; [lia|].
  destruct (align8_spec size Hs) as [H1 _]. pose proof (zlen_nonneg (de_Name e)).
  specialize (IH (align8 size + (head + 2 * zlen (de_Name e)))). lia.
Qed.

Lemma laid_count head entries : ∀ size,
  1 <= head → 0 <= size → size + Z.of_nat (length entries) <= laid head size entries.
Proof.
  induction entries as [|e rest IH]; intros size Hh Hs; cbn [laid length]; [lia|].
  destruct (align8_spec size Hs) as [H1 _]. pose proof (zlen_nonneg (de_Name e)).
  specialize (IH (align8 size + (head + 2 * zlen (de_Name e)))). lia.
Qed.

(** The store that links the record before. *)
Definition linked (first : bool) (previous start : Z) (entries : list DirectoryEntry)
    (data : list Z) : list Z :=
  match first, entries with
  | false, _ :: _ => store previous (le_split 4 (start - previous)) data
  | _, _ => data
  end.

Lemma zlen_linked first previous start entries data :
  zlen (linked first previous start entries data) = zlen data.
Proof. unfold linked. destruct first, entries; by rewrite ?zlen_store. Qed.

Lemma read_entry_link class head v rec :
  4 <= head → read_entry class head (store 0 (le_split 4 v) rec) 0 = read_entry class head rec 0.
Proof.
  intros Hh. unfold read_entry, id_place. rewrite !Z.add_0_l.
  repeat (rewrite le_get_store_other by (repeat case_match; len)).
  destruct (class =? FileIdFullDirectoryInformation), (class =? FileIdBothDirectoryInformation);
    repeat (rewrite le_get_store_other by len);
    repeat (apply option_bind_ext_fun; intros ?); by rewrite slice_store_other by len.
Qed.

Section pages.
  Context (class head : Z).
  Hypothesis Hhead : DirectoryInformationHeadSize class = Some head.

Lemma head_bounds : 12 <= head <= 104.
Proof. pose proof Hhead as H. each_class H; lia. Qed.

(** An entry that is well typed and passes the check. *)
Definition good_entry (e : DirectoryEntry) : Prop :=
  entry_typed e ∧ checkDirectoryEntry class e = true.

(** The record just written, after the next one was linked to it. *)
Lemma record_in_page e start rest data out :
  good_entry e → 0 <= start →
  let len := head + 2 * zlen (de_Name e) in
  let next := align8 (start + len) in
  start + len <= zlen data →
  let page := linked false start next rest (store start (record class head e (make len)) data) in
  slice out start (start + len) = slice page start (start + len) →
  read_entry class head out start = Some (shown class e)
  ∧ (next - start < 4294967296 →
     le_get 4 out start = Some (match rest with [] => 0 | _ => next - start end)).
Proof.
  intros [Ht Hc] H0 len next Hl page Hpage. pose proof head_bounds as Hb.
  pose proof (zlen_nonneg (de_Name e)) as Hn.
  set (rec := record class head e (make len)) in *.
  assert (zlen rec = len) as Hrec by (unfold rec; rewrite zlen_record; rewrite ?zlen_make; lia).
  destruct (align8_spec (start + len)) as [Ha _]; [lia|]. fold next in Ha.
  assert (slice (store start rec data) start (start + len) = Some rec) as Hs.
  { rewrite <- Hrec. apply slice_store_same; lia. }
  assert (slice out start (start + len) = Some (linked false 0 (next - start) rest rec)) as Hout.
  { rewrite Hpage. unfold page, linked. destruct rest; [done|]. rewrite (slice_store_in _ _ _ _ _ _ Hs) by lia.
    by rewrite Z.sub_diag, Z.sub_0_r. }
  assert (read_entry class head rec 0 = Some (shown class e)) as Hread
    by (apply read_record; [done..|rewrite zlen_make; lia]).
  split.
  - apply (read_entry_in _ _ _ _ _ _ _ Hout). unfold linked. destruct rest; [done|].
    rewrite read_entry_link by lia. done.
  - intros Hsmall. replace start with (start + 0) at 1 by lia.
    apply (le_get_in_slice _ _ _ _ _ _ _ Hout). unfold linked. destruct rest.
    + unfold rec. rewrite next_record by (rewrite ?zlen_make; lia || done).
      apply le_get_make; lia.
    + rewrite Z.sub_0_r, le_get_store_same by lia. f_equal. apply Z.mod_small. lia.
Qed.

Lemma laid_align entries size :
  0 <= size → entries ≠ [] → laid head (align8 size) entries = laid head size entries.
Proof. destruct entries; [done|]. intros H _. cbn [laid]. by rewrite align8_idem. Qed.

(** A part of a part that is zero is zero. *)
Lemma zero_part data start lo hi :
  slice data start (zlen data) = Some (make (zlen data - start)) →
  start <= lo → lo <= hi → hi <= zlen data → slice data lo hi = Some (make (hi - lo)).
Proof.
  intros Hz H1 H2 H3. pose proof Hz as (? & ? & _)%slice_inv.
  replace lo with (start + (lo - start)) at 1 by lia. replace hi with (start + (hi - start)) at 1 by lia.
  apply (slice_in_slice _ _ _ _ _ _ _ Hz). rewrite slice_make by lia. do 2 f_equal. lia.
Qed.

(** One turn of the writing loop. *)
Lemma put_entry_step e rest first start previous data :
  let len := head + 2 * zlen (de_Name e) in
  let data1 := linked first previous start (e :: rest) data in
  let data2 := store start (record class head e (make len)) data1 in
  0 <= start → start + len <= zlen data → (first = true ∨ 0 <= previous ∧ previous + 4 <= start) →
  slice data start (zlen data) = Some (make (zlen data - start)) →
  put_entries class head (e :: rest) first start previous data
  = put_entries class head rest false (align8 (start + len)) start data2
  ∧ slice data2 (start + len) (zlen data2) = Some (make (zlen data2 - (start + len)))
  ∧ ∀ lo hi, hi <= start → slice data2 lo hi = slice data1 lo hi.
Proof.
  intros len data1 data2 H0 Hl Hprev Hz. pose proof head_bounds as Hb.
  pose proof (zlen_nonneg (de_Name e)) as Hn.
  assert (zlen data1 = zlen data) as Hl1 by apply zlen_linked.
  assert (zlen data2 = zlen data) as Hl2 by (unfold data2; by rewrite zlen_store).
  assert (Hz1 : slice data1 start (zlen data1) = Some (make (zlen data1 - start))).
  { rewrite Hl1. unfold data1, linked. destruct first; [done|].
    rewrite slice_store_other by (rewrite zlen_le_split; lia). done. }
  assert (zlen (record class head e (make len)) = len) as Hrec
    by (rewrite zlen_record; rewrite ?zlen_make; lia).
  split_and!.
  - cbn [put_entries]. fold len.
    assert ((if first then Some data else PutUint32 previous (start - previous) data) = Some data1) as ->.
    { unfold data1, linked. destruct first; [done|]. apply le_put_ok; lia. }
    cbn [mbind option_bind]. rewrite (zero_part data1 start) by (done || lia).
    replace (start + len - start) with len by lia. cbn [mbind option_bind].
    rewrite putDirectoryEntry_record by (rewrite ?zlen_make; lia || done). cbn [mbind option_bind].
    rewrite copy_to_ok, take_zlen by lia. done.
  - rewrite Hl2. unfold data2. rewrite slice_store_other by lia. apply (zero_part data1 start); [done|lia..].
  - intros lo hi Hhi. unfold data2. rewrite slice_store_other by lia. done.
Qed.

(** The writing loop, from an aligned [start] in a buffer still zero there. *)
Lemma put_entries_ok entries : ∀ first start previous data,
  Forall good_entry entries → 0 <= start → start mod 8 = 0 →
  (first = true ∨ 0 <= previous ∧ previous + 4 <= start) →
  entries = [] ∨ laid head start entries <= zlen data →
  zlen data <= maxDirectTCPPayload →
  (entries ≠ [] → slice data start (zlen data) = Some (make (zlen data - start))) →
  ∃ out, put_entries class head entries first start previous data = Some out
    ∧ zlen out = zlen data
    ∧ (∀ lo hi, hi <= start → slice out lo hi = slice (linked first previous start entries data) lo hi)
    ∧ (entries ≠ [] → ∀ turns, (length entries <= turns)%nat →
       read_page class head turns out start = Some (shown class <$> entries)).
Proof.
  induction entries as [|e rest IH]; intros first start previous data Hg H0 Hmod Hprev Hlaid Hmax Hz.
  { exists data. split_and!; [done..| |done]. intros. by destruct first. }
  inversion_clear Hg as [|? ? He Hrest]. destruct Hlaid as [?|Hlaid]; [done|].
  specialize (Hz ltac:(done)). pose proof head_bounds as Hb. pose proof (zlen_nonneg (de_Name e)) as Hn.
  cbn [laid] in Hlaid. rewrite align8_fixed in Hlaid by done.
  set (len := head + 2 * zlen (de_Name e)) in *.
  assert (0 <= len) by lia. pose proof (laid_le head rest (start + len)) as Hle.
  destruct (align8_spec (start + len)) as [Ha Hamod]; [lia|].
  destruct (put_entry_step e rest first start previous data) as (-> & Hz2 & Hkeep); [lia..|done|done|].
  fold len in Hz2, Hkeep |- *. set (data1 := linked first previous start (e :: rest) data) in *.
  set (data2 := store start (record class head e (make len)) data1) in *.
  assert (zlen data1 = zlen data) as Hl1 by apply zlen_linked.
  assert (zlen data2 = zlen data) as Hl2 by (unfold data2; by rewrite zlen_store).
  destruct (IH false (align8 (start + len)) start data2) as (out & Hout & Hlo & Hsl & Hread);
    [done|lia|done|right; lia| |lia| |].
  { destruct rest; [by left|right]. rewrite laid_align by (done || lia). lia. }
  { intros Hne. rewrite <- laid_align in Hlaid by (done || lia).
    pose proof (laid_le head rest (align8 (start + len))) as Hle'.
    apply (zero_part data2 (start + len)); [done|lia..]. }
  exists out. split_and!; [done|lia|..].
  - intros lo hi Hhi. rewrite Hsl, <- Hkeep by lia. unfold linked. destruct rest; [done|].
    rewrite slice_store_other by (rewrite zlen_le_split; lia). done.
  - intros _ [|turns] Hturns; [by simpl in Hturns; lia|].
    destruct (record_in_page e start rest data1 out) as [Hr Hnext]; [done|lia|lia|by apply Hsl; lia|].
    fold len in Hnext. cbn [read_page length] in *. rewrite Hnext, Hr by lia. cbn [mbind option_bind].
    destruct rest as [|e' rest]; [done|]. rewrite (proj2 (Z.eqb_neq _ _)) by lia.
    replace (start + (align8 (start + len) - start)) with (align8 (start + len)) by lia.
    rewrite Hread by (done || lia). done.
Qed.

(** How the measuring loop ends on [entries] from [size] on: [n] more entries
    are completed, up to [size'] bytes. *)
Definition measured (limit : Z) (single : bool) (size completed : Z) (entries : list DirectoryEntry)
    (size' : Z) (n : nat) (partial : bool) : Prop :=
  if partial then
    completed = 0 ∧ n = 0%nat ∧ size' = limit
    ∧ ∃ e rest, entries = e :: rest ∧ checkDirectoryEntry class e = true
                ∧ limit < align8 size + (head + 2 * zlen (de_Name e))
  else
    (n <= length entries)%nat ∧ size' = laid head size (take n entries) ∧ size' <= limit
    ∧ Forall (λ e, checkDirectoryEntry class e = true) (take n entries)
    ∧ (n = length entries ∨ single = true ∧ n = 1%nat
       ∨ 0 < completed + Z.of_nat n
         ∧ ∃ e, entries !! n = Some e ∧ limit < align8 size' + (head + 2 * zlen (de_Name e))).

Lemma measure_page_ok limit single entries : ∀ size completed,
  size <= limit → 0 <= completed →
  (measure_page class head limit single size completed entries = None
   ∧ ∃ e, e ∈ entries ∧ checkDirectoryEntry class e = false)
  ∨ ∃ size' n partial,
      measure_page class head limit single size completed entries
      = Some (size', completed + Z.of_nat n, partial)
      ∧ measured limit single size completed entries size' n partial.
Proof.
  induction entries as [|e rest IH]; intros size completed Hs Hc; cbn [measure_page].
  { right. exists size, 0%nat, false. rewrite Z.add_0_r. split; [done|]. split_and!; [done..|by left]. }
  destruct (checkDirectoryEntry class e) eqn:Hce; cbn [negb].
  2: { left. split; [done|]. exists e. split; [by left|done]. }
  set (len := head + 2 * zlen (de_Name e)). destruct (Z.ltb_spec limit (align8 size + len)) as [Hlt|Hfit].
  { right. destruct (Z.eqb_spec completed 0) as [->|Hne].
    - exists limit, 0%nat, true. split; [done|]. split_and!; [done..|]. by exists e, rest.
    - exists size, 0%nat, false. rewrite Z.add_0_r. split; [done|]. split_and!; [simpl; lia|done|done|done|].
      right. right. split; [lia|]. by exists e. }
  destruct single.
  { right. exists (align8 size + len), 1%nat, false. split; [done|].
    split_and!; [simpl; lia|done|done| |right; left; done]. by repeat constructor. }
  destruct (IH (align8 size + len) (completed + 1)) as [(-> & e' & He' & Hb)|(size' & n & partial & -> & Hm)];
    [lia..| |].
  { left. split; [done|]. exists e'. split; [by right|done]. }
  right. exists size', (S n), partial. split; [do 3 f_equal; lia|]. unfold measured in *.
  destruct partial; [lia|]. destruct Hm as (H1 & H2 & H3 & H4 & H5). cbn [take laid length lookup list_lookup].
  split_and!; [lia|done|done|by constructor|].
  destruct H5 as [->|[[? ?]|(? & H5)]]; [by left|done|right; right]. split; [lia|done].
Qed.

(** What a page says of the entries it was made from. *)
Definition page_shows (limit : Z) (single : bool) (entries : list DirectoryEntry)
    (page : DirectoryPage) : Prop :=
  zlen (dp_Data page) <= limit
  ∧ (if dp_Partial page then
       dp_Completed page = 0 ∧ zlen (dp_Data page) = limit
       ∧ ∃ e rest, entries = e :: rest ∧ limit < head + 2 * zlen (de_Name e)
         ∧ le_get 4 (dp_Data page) 0 = Some 0
         ∧ le_get 4 (dp_Data page) (if rich class then 60 else 8) = Some (2 * zlen (de_Name e))
         ∧ slice (dp_Data page) head limit = slice (name_bytes (de_Name e)) 0 (limit - head)
     else
       ∃ n, dp_Completed page = Z.of_nat n ∧ (n <= length entries)%nat
         ∧ (n = 0%nat → entries = [] ∧ dp_Data page = [])
         ∧ Z.of_nat n <= zlen (dp_Data page)
         ∧ (n ≠ 0%nat → ∀ turns, (n <= turns)%nat →
            read_page class head turns (dp_Data page) 0 = Some (shown class <$> take n entries))
         ∧ (n = length entries ∨ single = true ∧ n = 1%nat
            ∨ ∃ e, entries !! n = Some e
                   ∧ limit < align8 (zlen (dp_Data page)) + (head + 2 * zlen (de_Name e)))).

(** The overflow form of the first entry. *)
Lemma partial_entry e limit :
  entry_typed e → checkDirectoryEntry class e = true →
  head <= limit → limit < head + 2 * zlen (de_Name e) → limit <= maxDirectTCPPayload →
  ∃ data, putDirectoryEntry (make limit) class e head = Some data ∧ zlen data = limit
    ∧ le_get 4 data 0 = Some 0
    ∧ le_get 4 data (if rich class then 60 else 8) = Some (2 * zlen (de_Name e))
    ∧ slice data head limit = slice (name_bytes (de_Name e)) 0 (limit - head).
Proof.
  intros Ht Hc H1 H2 H3. destruct (checked_entry class e Ht Hc) as [Hn _]. pose proof head_bounds as Hb.
  assert (zlen (make limit) = limit) as Hl by (apply zlen_make; lia).
  rewrite putDirectoryEntry_ok by (done || lia). eexists. split; [done|].
  set (b := entry_fields class e (make limit)). rewrite Hl.
  assert (zlen b = limit) as Hzb by (unfold b; by rewrite zlen_entry_fields).
  assert (zlen (take (Z.to_nat head) b) = head) as Hzh
    by (unfold zlen in *; rewrite length_take; lia).
  assert (zlen (take (Z.to_nat (limit - head)) (name_bytes (de_Name e))) = limit - head) as Hzn.
  { pose proof (zlen_name_bytes (de_Name e)). unfold zlen in *. rewrite length_take. lia. }
  assert (Hg : ∀ p, 0 <= p → p + 4 <= head → le_get 4 (take (Z.to_nat head) b ++
    take (Z.to_nat (limit - head)) (name_bytes (de_Name e))) p = le_get 4 b p).
  { intros p Hp1 Hp2. rewrite le_get_app_l by lia. rewrite <- (take_drop (Z.to_nat head) b) at 2.
    symmetry. apply le_get_app_l. lia. }
  split_and!.
  - rewrite zlen_app. lia.
  - rewrite Hg by lia. unfold b, entry_fields. repeat case_match; repeat get_step; apply le_get_make; lia.
  - rewrite Hg by (pose proof Hhead as H; each_class H; cbn; lia).
    assert (2 * zlen (de_Name e) = (2 * zlen (de_Name e)) mod 256 ^ Z.of_nat 4) as ->.
    { symmetry. apply Z.mod_small. Z.to_euclidean_division_equations. lia. }
    unfold b, entry_fields, rich. pose proof Hhead as H. each_class H; class_cbn; repeat get_step; done.
  - rewrite slice_app_r by lia. rewrite Hzh, Z.sub_diag. rewrite <- Hzn at 2. rewrite slice_all.
    rewrite slice_Some by (rewrite ?zlen_name_bytes; lia). by rewrite drop_0, Z.sub_0_r.
Qed.

Lemma EncodeDirectoryPage_spec entries limit single :
  Forall entry_typed entries → head <= limit <= maxDirectTCPPayload - HeaderSize - 8 →
  (EncodeDirectoryPage class entries limit single = malformed
   ∧ ∃ e, e ∈ entries ∧ checkDirectoryEntry class e = false)
  ∨ ∃ page, EncodeDirectoryPage class entries limit single = wret page
            ∧ page_shows limit single entries page.
Proof.
  intros Ht Hl. unfold EncodeDirectoryPage. rewrite Hhead. pose proof head_bounds as Hb.
  rewrite !(proj2 (Z.ltb_ge _ _)) by lia. cbn [orb].
  destruct (measure_page_ok limit single entries 0 0) as [[-> Hbad]|(size & n & partial & -> & Hm)];
    [lia..|by left|right].
  unfold measured in Hm. rewrite Z.add_0_l. destruct partial.
  - destruct Hm as (_ & -> & -> & e & rest & -> & Hc & Hlt). change (align8 0) with 0 in Hlt.
    rewrite (proj2 (Z.eqb_neq _ _)) by lia. cbn [lookup list_lookup mbind option_bind].
    inversion_clear Ht as [|? ? He _].
    destruct (partial_entry e limit) as (data & -> & Hd & H1 & H2 & H3); [done|done|lia..|].
    eexists. split; [done|]. split; [cbn [dp_Data]; lia|]. cbn. split_and!; [done..|]. exists e, rest. by split_and!.
  - destruct Hm as (Hn & -> & Hfit & Hc & Hend). destruct n as [|n].
    { cbn [take laid]. rewrite Z.eqb_refl. eexists. split; [done|].
      split; [cbn [dp_Data]; change (zlen (@nil Z)) with 0; lia|]. exists 0%nat.
      assert (entries = []) as ->; [|split_and!; [done..|by left]].
      destruct Hend as [Hend|[[_ ?]|(? & _)]]; [by destruct entries|lia|lia]. }
    destruct entries as [|e rest]; [by simpl in Hn; lia|]. set (es := take (S n) (e :: rest)) in *.
    assert (Hge : head <= laid head 0 es).
    { pose proof (zlen_nonneg (de_Name e)). unfold es. cbn [take laid]. change (align8 0) with 0.
      pose proof (laid_le head (take n rest) (0 + (head + 2 * zlen (de_Name e)))). lia. }
    rewrite (proj2 (Z.eqb_neq _ _)) by lia.
    rewrite slice_Some by (unfold zlen; lia). rewrite Z.sub_0_r, Nat2Z.id, drop_0. fold es.
    cbn [mbind option_bind]. assert (zlen (make (laid head 0 es)) = laid head 0 es) as Hz by (apply zlen_make; lia).
    destruct (put_entries_ok es true 0 0 (make (laid head 0 es))) as (data & -> & Hd & _ & Hread);
      [|lia|done|by left|right; lia|lia|intros _; rewrite Hz; by apply slice_make; lia|].
    { apply Forall_and. split; [|done]. by apply Forall_take. }
    rewrite Hz in Hd. eexists. split; [done|]. split; [cbn [dp_Data]; lia|]. exists (S n). cbn [dp_Completed dp_Data dp_Partial].
    pose proof (laid_count head es 0) as Hcount. assert (length es = S n) as Hes by (unfold es; rewrite length_take; lia).
    split_and!; [done|done|lia|lia|intros _ turns Hturns|].
    + apply Hread; [done|lia].
    + rewrite Hd. destruct Hend as [?|[?|[_ ?]]]; auto.
Qed.
End pages.

(** C33: a directory page is what it says.  For every layout the server
    supports and a buffer within the frame, well-typed entries are encoded
    without a panic; the only refusal is an entry the check rejects.  The page
    fits the buffer.  A client that walks it from record to record finds exactly
    the first entries, with every field the class carries; the page stops early
    only when one entry was asked for or the next one would not fit.  A first
    entry that does not fit alone fills the buffer exactly, states its full name
    length and carries the longest prefix of the name. *)
Theorem directory_page (class head : Z) (entries : list DirectoryEntry) (limit : Z) (single : bool) :
  DirectoryInformationHeadSize class = Some head → Forall entry_typed entries →
  head <= limit <= maxDirectTCPPayload - HeaderSize - 8 →
  (EncodeDirectoryPage class entries limit single = malformed
   ∧ ∃ e, e ∈ entries ∧ checkDirectoryEntry class e = false)
  ∨ ∃ page, EncodeDirectoryPage class entries limit single = wret page
            ∧ page_shows class head limit single entries page.
Proof. intros Hh Ht Hl. by apply EncodeDirectoryPage_spec. Qed.

Definition example_entry (name : list Z) : DirectoryEntry :=
  {| de_Name := name; de_CreationTime := 1; de_LastAccessTime := 2; de_LastWriteTime := 3;
     de_ChangeTime := 4; de_EndOfFile := 5; de_AllocationSize := 4096; de_Attributes := 128;
     de_EaSize := 0; de_FileID := 9 |}.

Lemma directory_page_witness :
  ∃ page, EncodeDirectoryPage FileNamesInformation [example_entry [97]; example_entry [98; 99]] 40 false
          = wret page
          ∧ page_shows FileNamesInformation 12 40 false [example_entry [97]; example_entry [98; 99]] page.
Proof.
  destruct (directory_page FileNamesInformation 12 [example_entry [97]; example_entry [98; 99]] 40 false)
    as [[_ (e & He & Hb)]|H]; [reflexivity| |lia| |exact H].
  - repeat constructor; simpl; unfold is_word, is_int64, is_u32, is_u64; cbn; lia.
  - repeat (apply elem_of_cons in He as [->|He]; [vm_compute in Hb; discriminate|]).
    by apply elem_of_nil in He.
Defined.
