(* ===== verification/SmbDirectory.v ===== *)
(** * SMB directory enumeration

    [packages/smb/directory_cursor.go] and the part of
    [packages/smb/commands_directory.go] that answers from a captured snapshot: a
    directory handle keeps the snapshot and a cursor; every query encodes the
    next page of the matched entries and moves the cursor past what the page
    completed.  Queries that ask for metadata are refused while an entry of the
    snapshot lacks it. *)

From S2P Require Import Prelude Bytes WireHeader WireText WireRequests WireResponses WireDirectory.

(** ** Definitions *)












(** ** A client that enumerates *)



(** ** Theorems *)




Section enumeration.
  Context (class head limit : Z) (single : bool).
  Hypothesis Hhead : DirectoryInformationHeadSize class = Some head.
  Hypothesis Hlimit : head + 2 * 255 <= limit <= maxDirectTCPPayload - HeaderSize - 8.





End enumeration.





