(* ===== verification/Errors.v ===== *)
(** * Errors and their classification

    [packages/storage/errno.go] (the contract's errno vocabulary and [ErrnoOf]),
    [packages/locking/errors.go] (lock codes and [CodeOf]) and the error values
    of the other packages.  A Go [error] is a tree: what a value offers through
    [Unwrap] and [Classification] is read off its constructor.  Message texts
    are not modelled. *)

From S2P Require Import Prelude.

(** ** The vocabulary *)

(** [syscall.Errno]: the named errnos, and every other number. *)
Inductive errno :=
| EACCES | EAGAIN | EBADF | EBUSY | EDEADLK | EDQUOT | EEXIST | EFBIG | EINTR | EINVAL |
EIO | EISDIR | ELOOP | EMFILE | EMLINK | ENAMETOOLONG | ENFILE | ENODEV | ENOENT |
ENOLCK | ENOMEM | ENOSPC | ENOSYS | ENOTDIR | ENOTEMPTY | ENXIO | EOPNOTSUPP | EOVERFLOW
| EPERM | EROFS | ESTALE | ETXTBSY | EXDEV | OtherErrno (n : Z).

#[global] Instance errno_eq_dec : EqDecision errno.
Proof. solve_decision. Defined.

Definition errnoNames : list (errno * string) :=
  [
   (EACCES, "EACCES"); (EAGAIN, "EAGAIN"); (EBADF, "EBADF"); (EBUSY, "EBUSY");
   (EDEADLK, "EDEADLK"); (EDQUOT, "EDQUOT"); (EEXIST, "EEXIST"); (EFBIG, "EFBIG");
   (EINTR, "EINTR"); (EINVAL, "EINVAL"); (EIO, "EIO"); (EISDIR, "EISDIR");
   (ELOOP, "ELOOP"); (EMFILE, "EMFILE"); (EMLINK, "EMLINK");
   (ENAMETOOLONG, "ENAMETOOLONG"); (ENFILE, "ENFILE"); (ENODEV, "ENODEV");
   (ENOENT, "ENOENT"); (ENOLCK, "ENOLCK"); (ENOMEM, "ENOMEM"); (ENOSPC, "ENOSPC");
   (ENOSYS, "ENOSYS"); (ENOTDIR, "ENOTDIR"); (ENOTEMPTY, "ENOTEMPTY");
   (ENXIO, "ENXIO"); (EOPNOTSUPP, "EOPNOTSUPP"); (EOVERFLOW, "EOVERFLOW");
   (EPERM, "EPERM"); (EROFS, "EROFS"); (ESTALE, "ESTALE"); (ETXTBSY, "ETXTBSY");
   (EXDEV, "EXDEV")
  ]%string.

(** Lookup in a Go map literal, whose keys are distinct. *)
Definition assoc {K V} `{EqDecision K} (k : K) (l : list (K * V)) : option V :=
  snd <$> List.find (λ p, bool_decide (p.1 = k)) l.

Definition errnosByName : list (string * errno) := (λ p, (p.2, p.1)) <$> errnoNames.

Definition ErrnoName (e : errno) : option string := assoc e errnoNames.
Definition ErrnoByName (name : string) : option errno := assoc name errnosByName.

(** ** Lock codes *)

(** [locking.Code]. *)
Inductive Code :=
| Invalid | UnsupportedTarget | Conflict | AlreadyHeld | RequestMismatch | Capacity
| Retired | OutcomeUnknown | StaleResource | StaleGrant | UnrelatedProof | Recovering
| Unavailable | OtherCode (s : string).

#[global] Instance Code_eq_dec : EqDecision Code.
Proof. solve_decision. Defined.

(** [locking.Errno]. *)
Definition code_errno (code : Code) : errno :=
  match code with
  | Invalid | RequestMismatch => EINVAL
  | UnsupportedTarget => EOPNOTSUPP
  | Conflict | AlreadyHeld => EBUSY
  | Capacity | Recovering => EAGAIN
  | Retired | StaleResource | StaleGrant | UnrelatedProof => ESTALE
  | _ => EIO
  end.

(** ** Error values *)

(** The sentinel pointers of [storage.capabilityError]. *)
Inductive capability :=
| ErrUseConflict | ErrRangeConflict | ErrPendingDelete | ErrConditionConflict
| ErrInvalidScope.

Definition capability_errno (c : capability) : errno :=
  match c with
  | ErrUseConflict | ErrRangeConflict | ErrConditionConflict => EAGAIN
  | ErrPendingDelete => EBUSY
  | ErrInvalidScope => ESTALE
  end.

(** The package-level [errors.New] values that code compares with. *)
Inductive sentinel :=
| ErrDenied          (* authz *)
| ErrIdentityDenied | ErrConfig | errNameInvalid | errNameAmbiguous | errPathMissing. (* smb *)

#[global] Instance sentinel_eq_dec : EqDecision sentinel.
Proof. solve_decision. Defined.

Inductive error :=
| Errno (e : errno)
| Canceled
| DeadlineExceeded
| Opaque                                   (* no cause: errors.New *)
| Sentinel (s : sentinel)
| Wrapped (cause : error)                  (* fmt.Errorf with one %w, os.PathError *)
| Joined (causes : list error)             (* errors.Join *)
| Capability (c : capability)              (* *storage.capabilityError *)
| Uncertain (cause : error)                (* *storage.publicationAccountingUncertain *)
| UnknownNamespace (cause : error)         (* *smb.unknownNamespaceError *)
| LockError (code : Code) (recorded : bool) (cause : option error). (* *locking.Error *)

(** A call's [(value, error)] result; a non-nil error leaves no value. *)
Inductive result (A : Type) : Type :=
| Ok (a : A)
| Err (e : error).
Arguments Ok {A} a.
Arguments Err {A} e.

#[global] Instance capability_eq_dec : EqDecision capability.
Proof. solve_decision. Defined.

(** The [Classification] methods of [*publicationAccountingUncertain], of
    [*unknownNamespaceError] and of [*locking.Error]. *)
Definition uncertain_classification : errno := EIO.
Definition namespace_classification : errno := EIO.
Definition lock_classification (code : Code) : errno := code_errno code.

(** [err.(interface{ Classification() error })] and the call: [None] where the
    type has no such method. *)
Definition Classification (err : error) : option errno :=
  match err with
  | Uncertain _ => Some uncertain_classification
  | UnknownNamespace _ => Some namespace_classification
  | LockError code _ _ => Some (lock_classification code)
  | _ => None
  end.

(** [ErrnoOf] on a single errno: an errno without a name is EIO. *)
Definition known_errno (e : errno) : errno :=
  match ErrnoName e with Some _ => e | None => EIO end.

(** One turn of the loop over joined failures; [None] is the zero errno and
    [inr] the early return. *)
Definition join_step (result : option errno) (next : errno) : option errno + errno :=
  match result with
  | None => inl (Some next)
  | Some r =>
      if bool_decide (r = EINTR) then inl (Some next)
      else if bool_decide (next = EINTR) || bool_decide (next = r) then inl (Some r)
      else inr EIO
  end.

(** [ErrnoOf] on a non-nil error. *)
Fixpoint ErrnoOf (err : error) : errno :=
  match Classification err with
  | Some result => known_errno result
  | None =>
      match err with
      | Errno e => known_errno e
      | Canceled => EINTR
      | DeadlineExceeded => EIO
      | Joined causes =>
          (fix join (result : option errno) (l : list error) : errno :=
             match l with
             | [] => match result with Some r => r | None => EIO end
             | child :: l =>
                 match join_step result (ErrnoOf child) with
                 | inl result => join result l
                 | inr e => e
                 end
             end) None causes
      | Wrapped cause => ErrnoOf cause
      | Capability c => known_errno (capability_errno c)
      | _ => EIO
      end
  end.

(** [ErrnoNameOf]. *)
Definition ErrnoNameOf (err : error) : string :=
  match ErrnoName (ErrnoOf err) with
  | Some name => name
  | None => match ErrnoName EIO with Some name => name | None => EmptyString end
  end.

(** [locking.CodeOf]: the code survives transparent wrappers around one error,
    and no enclosing classification. *)
Fixpoint CodeOf (err : error) : Code :=
  match err with
  | LockError code _ _ => code
  | _ =>
      match Classification err with
      | Some _ => Unavailable
      | None =>
          match err with
          | Joined [child] => CodeOf child
          | Joined _ => Unavailable
          | Wrapped cause => CodeOf cause
          | _ => Unavailable
          end
      end
  end.

(** [errors.As(err, *publicationAccountingUncertain)]: depth-first through
    [Unwrap]. *)
Fixpoint IsPublicationAccountingUncertain (err : error) : bool :=
  match err with
  | Uncertain _ => true
  | Wrapped cause => IsPublicationAccountingUncertain cause
  | Joined causes => existsb IsPublicationAccountingUncertain causes
  | UnknownNamespace cause => IsPublicationAccountingUncertain cause
  | LockError _ _ (Some cause) => IsPublicationAccountingUncertain cause
  | _ => false
  end.

(** A context: the answers of the successive [ctx.Err()] calls of one operation. *)
Definition context := nat → option error.

(** [errors.Join]: nil errors are dropped, and none left is nil. *)
Definition errors_Join (errs : list (option error)) : option error :=
  match omap id errs with [] => None | causes => Some (Joined causes) end.

(** What [errors.Is] is asked about. *)
Inductive target := IsErrno (e : errno) | IsSentinel (s : sentinel) | IsCapability (c : capability).

#[global] Instance target_eq_dec : EqDecision target.
Proof. solve_decision. Defined.

(** [errors.Is]: a value equal to the target, or whose [Is] method says so,
    depth-first through [Unwrap]. *)
Fixpoint errors_Is (err : error) (t : target) : bool :=
  match err with
  | Errno e => bool_decide (t = IsErrno e)
  | Sentinel s => bool_decide (t = IsSentinel s)
  | Wrapped cause | UnknownNamespace cause => errors_Is cause t
  | Joined causes => existsb (λ cause, errors_Is cause t) causes
  | Capability c => bool_decide (t = IsCapability c) || bool_decide (t = IsErrno (capability_errno c))
  | Uncertain cause => bool_decide (t = IsErrno EIO) || errors_Is cause t
  | LockError code _ cause =>
      bool_decide (t = IsErrno (code_errno code))
      || match cause with Some cause => errors_Is cause t | None => false end
  | Canceled | DeadlineExceeded | Opaque => false
  end.

(** ** Vocabulary lemmas *)

(** The loop of [ErrnoOf] over the codes of the children. *)
Fixpoint join_codes (result : option errno) (l : list errno) : errno :=
  match l with
  | [] => match result with Some r => r | None => EIO end
  | next :: l =>
      match join_step result next with
      | inl result => join_codes result l
      | inr e => e
      end
  end.

Lemma ErrnoOf_Joined causes :
  ErrnoOf (Joined causes) = join_codes None (ErrnoOf <$> causes).
Proof.
  simpl. generalize (@None errno) as result.
  induction causes as [|c l IH]; intros result; simpl; [done|].
  destruct (join_step _ _); [apply IH|done].
Qed.

Lemma known_errno_named e : is_Some (ErrnoName (known_errno e)).
Proof.
  unfold known_errno. destruct (ErrnoName e) eqn:E; eauto.
Qed.

Lemma join_step_named r next r' :
  (∀ e, r = Some e → is_Some (ErrnoName e)) → is_Some (ErrnoName next) →
  match r' with
  | inl r'' => join_step r next = inl r'' → ∀ e, r'' = Some e → is_Some (ErrnoName e)
  | inr e => join_step r next = inr e → is_Some (ErrnoName e)
  end.
Proof.
  unfold join_step. intros Hr Hn. destruct r as [r|]; [|destruct r'; naive_solver].
  destruct (bool_decide (r = EINTR)); [destruct r'; naive_solver|].
  destruct (_ || _); destruct r'; naive_solver.
Qed.

Lemma join_codes_named l : ∀ r,
  (∀ e, r = Some e → is_Some (ErrnoName e)) →
  Forall (λ e, is_Some (ErrnoName e)) l → is_Some (ErrnoName (join_codes r l)).
Proof.
  induction l as [|n l IH]; intros r Hr Hl; simpl.
  - destruct r; [eauto|vm_compute; eauto].
  - apply Forall_cons in Hl as [Hn Hl].
    destruct (join_step r n) eqn:E.
    + apply IH; [|done]. exact (join_step_named r n (inl _) Hr Hn E).
    + exact (join_step_named r n (inr _) Hr Hn E).
Qed.

(** Induction over error trees that reaches the children of a join. *)
Lemma error_tree_ind (P : error → Prop) :
  (∀ e, P (Errno e)) → P Canceled → P DeadlineExceeded → P Opaque → (∀ s, P (Sentinel s)) →
  (∀ c, P c → P (Wrapped c)) → (∀ l, Forall P l → P (Joined l)) →
  (∀ c, P (Capability c)) → (∀ c, P (Uncertain c)) → (∀ c, P (UnknownNamespace c)) →
  (∀ c r o, P (LockError c r o)) → ∀ err, P err.
Proof.
  intros HE HC HD HO HS HW HJ HP HU HN HL.
  fix IH 1. intros [e| | | |s|c|l|c|c|c|c r o].
  - apply HE.
  - apply HC.
  - apply HD.
  - apply HO.
  - apply HS.
  - apply HW, IH.
  - apply HJ. induction l as [|x l IHl]; constructor; [apply IH|apply IHl].
  - apply HP.
  - apply HU.
  - apply HN.
  - apply HL.
Qed.

Lemma ErrnoOf_named err : is_Some (ErrnoName (ErrnoOf err)).
Proof.
  induction err as [e| | | |s|c IH|l IH|c|c|c|c r o] using error_tree_ind;
    try (by eexists); try apply known_errno_named.
  - exact IH.
  - rewrite ErrnoOf_Joined. apply join_codes_named; [done|].
    by apply Forall_fmap.
Qed.

Lemma ErrnoName_ByName e name : ErrnoName e = Some name → ErrnoByName name = Some e.
Proof.
  intros H. destruct e; vm_compute in H; try discriminate H;
    injection H as <-; vm_compute; reflexivity.
Qed.

(** The answer the rule gives while [r] is the result so far. *)
Lemma join_codes_some l : ∀ r,
  (r ≠ EINTR → (∀ x, x ∈ l → x = r ∨ x = EINTR) → join_codes (Some r) l = r) ∧
  (r ≠ EINTR → (∃ x, x ∈ l ∧ x ≠ r ∧ x ≠ EINTR) → join_codes (Some r) l = EIO) ∧
  (r = EINTR → join_codes (Some r) l = match l with [] => EINTR | _ => join_codes None l end).
Proof.
  induction l as [|n l IH]; intros r; simpl.
  - split_and!; [done| |done]. intros _ (x & Hx & _). set_solver.
  - split_and!.
    + intros Hr H. rewrite bool_decide_eq_false_2 by done.
      assert (n = r ∨ n = EINTR) as Hn by set_solver.
      replace (_ || _) with true
        by (symmetry; apply orb_true_iff; rewrite !bool_decide_eq_true; tauto).
      apply IH; set_solver.
    + intros Hr (x & Hx & Hxr & HxE). rewrite bool_decide_eq_false_2 by done.
      destruct (_ || _) eqn:En; [|done].
      apply orb_true_iff in En. rewrite !bool_decide_eq_true in En.
      apply IH; [done|]. exists x. set_solver.
    + intros ->. by rewrite bool_decide_eq_true_2.
Qed.

Lemma join_codes_agree l e :
  e ≠ EINTR → e ∈ l → (∀ x, x ∈ l → x = e ∨ x = EINTR) → join_codes None l = e.
Proof.
  induction l as [|n l IH]; intros He Hin H; [set_solver|]. simpl.
  destruct (decide (n = EINTR)) as [->|Hn].
  - rewrite (proj2 (proj2 (join_codes_some l EINTR))) by done.
    destruct l; [set_solver|]. apply IH; set_solver.
  - assert (n = e) as -> by (destruct (H n); set_solver).
    apply join_codes_some; set_solver.
Qed.

Lemma join_codes_disagree l a b :
  a ≠ EINTR → b ≠ EINTR → a ≠ b → a ∈ l → b ∈ l → join_codes None l = EIO.
Proof.
  induction l as [|n l IH]; intros Ha Hb Hab Hina Hinb; [set_solver|]. simpl.
  destruct (decide (n = EINTR)) as [->|Hn].
  - rewrite (proj2 (proj2 (join_codes_some l EINTR))) by done.
    destruct l; [set_solver|]. apply IH; set_solver.
  - apply join_codes_some; [done|].
    destruct (decide (n = a)) as [->|]; [exists b|exists a]; set_solver.
Qed.

Lemma join_codes_canceled l : l ≠ [] → (∀ x, x ∈ l → x = EINTR) → join_codes None l = EINTR.
Proof.
  induction l as [|n l IH]; intros Hl H; [done|]. simpl.
  assert (n = EINTR) as -> by set_solver.
  rewrite (proj2 (proj2 (join_codes_some l EINTR))) by done.
  destruct l; [done|]. apply IH; set_solver.
Qed.

(** Codes are all cancellations, agree on one failure, or name two. *)
Lemma codes_cases (l : list errno) :
  (∀ x, x ∈ l → x = EINTR)
  ∨ (∃ e, e ≠ EINTR ∧ e ∈ l ∧ ∀ x, x ∈ l → x = e ∨ x = EINTR)
  ∨ (∃ a b, a ≠ EINTR ∧ b ≠ EINTR ∧ a ≠ b ∧ a ∈ l ∧ b ∈ l).
Proof.
  induction l as [|n l [H|[(e & He & Hin & H)|(a & b & Ha & Hb & Hab & Hina & Hinb)]]];
    [left; set_solver|..]; destruct (decide (n = EINTR)) as [->|Hn].
  - left. set_solver.
  - right; left. exists n. set_solver.
  - right; left. exists e. set_solver.
  - destruct (decide (n = e)) as [->|Hne]; right; [left; exists e|right; exists n, e]; set_solver.
  - right; right. exists a, b. set_solver.
  - right; right. exists a, b. set_solver.
Qed.

(** ** Theorems *)

(** A failure survives being named.  The name every error is carried
    under stands, on the other side, for exactly the errno it was classified
    as; nothing is ever carried under an unknown name. *)
Theorem errno_name_roundtrip (err : error) : ErrnoByName (ErrnoNameOf err) = Some (ErrnoOf err).
Proof.
  unfold ErrnoNameOf. destruct (ErrnoOf_named err) as [name Hn]. rewrite Hn.
  by apply ErrnoName_ByName.
Qed.

(** C40: joined failures must agree.  The errno of a join is the one all its
    members that are not cancellations have in common; it is a cancellation
    only when every member is one, and two members that name different failures
    make it EIO. *)
Theorem joined_failures (causes : list error) :
  causes ≠ [] →
  (ErrnoOf (Joined causes) = EINTR ↔ ∀ c, c ∈ causes → ErrnoOf c = EINTR)
  ∧ (∀ e, e ≠ EINTR → e ≠ EIO →
     (ErrnoOf (Joined causes) = e ↔
      (∃ c, c ∈ causes ∧ ErrnoOf c = e) ∧ ∀ c, c ∈ causes → ErrnoOf c = e ∨ ErrnoOf c = EINTR)).
Proof.
  intros Hne. rewrite ErrnoOf_Joined. set (codes := ErrnoOf <$> causes).
  assert (Hin : ∀ e, e ∈ codes ↔ ∃ c, c ∈ causes ∧ ErrnoOf c = e).
  { intros e. unfold codes. rewrite list_elem_of_fmap. naive_solver. }
  assert (Hall : ∀ P : errno → Prop, (∀ c, c ∈ causes → P (ErrnoOf c)) ↔ ∀ e, e ∈ codes → P e).
  { intros P. setoid_rewrite Hin. naive_solver. }
  assert (codes ≠ []) as Hc by (unfold codes; by destruct causes).
  rewrite (Hall (λ e, e = EINTR)).
  destruct (codes_cases codes) as [H|[(r & Hr & Hrin & Hrall)|(a & b & Ha & Hb & Hab & Hain & Hbin)]].
  - rewrite join_codes_canceled by done. split; [done|]. intros e HE HI.
    rewrite <- Hin, (Hall (λ x, x = e ∨ x = EINTR)). set_solver.
  - rewrite (join_codes_agree codes r) by done. split; [set_solver|]. intros e HE HI.
    rewrite <- Hin, (Hall (λ x, x = e ∨ x = EINTR)). set_solver.
  - rewrite (join_codes_disagree codes a b) by done. split; [set_solver|]. intros e HE HI.
    rewrite <- Hin, (Hall (λ x, x = e ∨ x = EINTR)). split; [done|]. intros [_ Hx].
    destruct (Hx a Hain), (Hx b Hbin); congruence.
Qed.

Lemma joined_failures_witness :
  ErrnoOf (Joined [Canceled; Wrapped (Errno ENOENT)]) = ENOENT.
Proof.
  apply (joined_failures [Canceled; Wrapped (Errno ENOENT)]); [done..|]. split.
  - exists (Wrapped (Errno ENOENT)). split; [by right; left|reflexivity].
  - intros c Hc. repeat (apply elem_of_cons in Hc as [->|Hc]; [vm_compute; auto|]).
    by apply elem_of_nil in Hc.
Defined.
