(* ===== verification/Metadata.v ===== *)
(** * Opaque metadata

    [packages/storage/metadata.go]: the namespaced values a node carries for
    its clients, their bounds, and the one canonical envelope they are stored
    and sent in.  A Go map is a [gmap] keyed by the bytes of its strings; what
    Go does in the order of a map iteration is done here in the order of
    [map_to_list], which decides only which of several errors is reported. *)

From S2P Require Import Prelude Bytes Errors.

(** ** Definitions *)

Definition MaxMetadataNamespaces : Z := 16.
Definition MaxMetadataNamespaceBytes : Z := 128.
Definition MaxMetadataValueBytes : Z := 32768.
Definition MaxMetadataBytes : Z := 65536.
Definition MaxObservationTokenBytes : Z := 64.

(** [NodeInvalid] stands for every number that is no kind. *)
Inductive NodeKind := NodeInvalid | NodeRegular | NodeDirectory | NodeSymlink.

#[global] Instance NodeKind_eq_dec : EqDecision NodeKind.
Proof. solve_decision. Defined.

(** [NodeKind.Check]; [None] is a nil error. *)
Definition NodeKind_Check (k : NodeKind) : option error :=
  if bool_decide (k = NodeInvalid) then Some (Errno EINVAL) else None.

Record OpaquePayload := { Version : list Z; Data : list Z }.

Abbreviation metadata := (gmap (list Z) OpaquePayload).

(** The bytes a namespace name may have: lower-case letters, digits, dot,
    underscore and hyphen. *)
Definition namespace_byte (c : Z) : bool :=
  (97 <=? c) && (c <=? 122) || (48 <=? c) && (c <=? 57) || (c =? 46) || (c =? 95) || (c =? 45).

(** [None] is a nil error. *)
Definition CheckMetadataNamespace (name : list Z) : option error :=
  if (zlen name =? 0) || (MaxMetadataNamespaceBytes <? zlen name) then Some (Errno EINVAL)
  else if negb (forallb namespace_byte name) then Some (Errno EINVAL)
  else None.

(** The loop of [metadataSize]. *)
Fixpoint metadata_size_loop (size : Z) (values : list (list Z * OpaquePayload)) : result Z :=
  match values with
  | [] => Ok size
  | (name, value) :: values =>
      match CheckMetadataNamespace name with
      | Some err => Err err
      | None =>
          if (zlen (Version value) =? 0) || (MaxObservationTokenBytes <? zlen (Version value))
          then Err (Errno EINVAL)
          else if MaxMetadataValueBytes <? zlen (Data value) then Err (Errno EFBIG)
          else
            let size := size + (8 + zlen name + zlen (Version value) + zlen (Data value)) in
            if MaxMetadataBytes <? size then Err (Errno EFBIG) else metadata_size_loop size values
      end
  end.

Definition metadataSize (values : metadata) : result Z :=
  if MaxMetadataNamespaces <? Z.of_nat (size values) then Err (Errno EFBIG)
  else metadata_size_loop 6 (map_to_list values).

Definition CheckMetadata (values : metadata) : option error :=
  match metadataSize values with Ok _ => None | Err err => Some err end.

(** The loop of [CheckInitialMetadata]. *)
Fixpoint initial_size_loop (size : Z) (values : list (list Z * list Z)) : option error :=
  match values with
  | [] => None
  | (name, data) :: values =>
      match CheckMetadataNamespace name with
      | Some err => Some err
      | None =>
          if MaxMetadataValueBytes <? zlen data then Some (Errno EFBIG)
          else
            let size := size + (8 + zlen name + MaxObservationTokenBytes + zlen data) in
            if MaxMetadataBytes <? size then Some (Errno EFBIG) else initial_size_loop size values
      end
  end.

Definition CheckInitialMetadata (values : gmap (list Z) (list Z)) : option error :=
  if MaxMetadataNamespaces <? Z.of_nat (size values) then Some (Errno EFBIG)
  else initial_size_loop 6 (map_to_list values).

(** The header, ["RFM"] and the format version. *)
Definition envelope : list Z := [82; 70; 77; 1].

(** What the encoding loop appends for one name. *)
Definition append_record (out name : list Z) (value : OpaquePayload) : list Z :=
  let out := out ++ le_split 2 (zlen name) in
  let out := out ++ le_split 2 (zlen (Version value)) in
  let out := out ++ le_split 4 (zlen (Data value)) in
  let out := out ++ name in
  let out := out ++ Version value in
  out ++ Data value.

Definition no_payload : OpaquePayload := {| Version := []; Data := [] |}.

Definition EncodeMetadata (values : metadata) : result (list Z) :=
  match metadataSize values with
  | Err err => Err err
  | Ok _ =>
      let out := envelope ++ le_split 2 (Z.of_nat (size values)) in
      let names := merge_sort lex_le (map_to_list values).*1 in
      Ok (foldl (λ out name, append_record out name (default no_payload (values !! name))) out names)
  end.

Definition invalid_envelope {A} : option (result A) := Some (Err (Wrapped (Errno EIO))).

(** The decoding loop; [None] is an index panic. *)
Fixpoint decode_loop (count : nat) (data previous : list Z) (values : metadata)
  : option (result (metadata * list Z)) :=
  match count with
  | O => Some (Ok (values, data))
  | S count =>
      if zlen data <? 8 then invalid_envelope
      else
        let% keySize := Uint16 data 0 in
        let% versionSize := Uint16 data 2 in
        let% valueSize := Uint32 data 4 in
        let% data := slice data 8 (zlen data) in
        if (keySize =? 0) || (MaxMetadataNamespaceBytes <? keySize) || (versionSize =? 0)
           || (MaxObservationTokenBytes <? versionSize) || (MaxMetadataValueBytes <? valueSize)
        then invalid_envelope
        else if (zlen data <? keySize) || (zlen data - keySize <? versionSize)
                || (zlen data - keySize - versionSize <? valueSize)
        then invalid_envelope
        else
          let% key := slice data 0 keySize in
          if bool_decide (lex_le key previous) || (if CheckMetadataNamespace key then true else false)
          then invalid_envelope
          else
            let% version := slice data keySize (keySize + versionSize) in
            let% value := slice data (keySize + versionSize) (keySize + versionSize + valueSize) in
            let% data := slice data (keySize + versionSize + valueSize) (zlen data) in
            decode_loop count data key (<[key := {| Version := version; Data := value |}]> values)
  end.

Definition DecodeMetadata (data : list Z) : option (result metadata) :=
  if (zlen data <? 6) || (MaxMetadataBytes <? zlen data) then invalid_envelope
  else
    let% header := slice data 0 4 in
    if negb (bool_decide (header = envelope)) then invalid_envelope
    else
      let% count := Uint16 data 4 in
      if MaxMetadataNamespaces <? count then invalid_envelope
      else
        let% data := slice data 6 (zlen data) in
        if count =? 0 then
          if negb (zlen data =? 0) then invalid_envelope else Some (Ok ∅)
        else
          let% decoded := decode_loop (Z.to_nat count) data [] ∅ in
          match decoded with
          | Err err => Some (Err err)
          | Ok (values, rest) =>
              if negb (zlen rest =? 0) then invalid_envelope
              else if (if CheckMetadata values then true else false) then invalid_envelope
              else Some (Ok values)
          end.

Definition MetadataRetentionBytes (encodedBytes : Z) : result Z :=
  if encodedBytes <? 6 then Err (Errno EINVAL)
  else if MaxMetadataBytes <? encodedBytes then Err (Errno EFBIG)
  else
    let count := Z.min MaxMetadataNamespaces ((encodedBytes - 6) / 10) in
    Ok (512 + 512 * count + 4 * encodedBytes).

(** ** The envelope as a list of records *)

Definition record_bytes (entry : list Z * OpaquePayload) : list Z :=
  le_split 2 (zlen entry.1) ++ le_split 2 (zlen (Version entry.2)) ++ le_split 4 (zlen (Data entry.2))
  ++ entry.1 ++ Version entry.2 ++ Data entry.2.

Definition records (l : list (list Z * OpaquePayload)) : list Z := concat (record_bytes <$> l).

Lemma records_cons x l : records (x :: l) = record_bytes x ++ records l.
Proof. done. Qed.

Lemma zlen_record_bytes entry :
  zlen (record_bytes entry) = 8 + zlen entry.1 + zlen (Version entry.2) + zlen (Data entry.2).
Proof. unfold record_bytes. rewrite !zlen_app, !zlen_le_split. lia. Qed.

Lemma zlen_records_perm l l' : l ≡ₚ l' → zlen (records l) = zlen (records l').
Proof.
  induction 1 as [|x l l' _ IH|x y l|l l' l'' _ IH1 _ IH2]; rewrite ?records_cons, ?zlen_app in *; lia.
Qed.

(** One namespace within its bounds. *)
Definition payload_ok (entry : list Z * OpaquePayload) : Prop :=
  CheckMetadataNamespace entry.1 = None
  ∧ 1 <= zlen (Version entry.2) <= MaxObservationTokenBytes
  ∧ zlen (Data entry.2) <= MaxMetadataValueBytes.

Lemma namespace_length name :
  CheckMetadataNamespace name = None → 1 <= zlen name <= MaxMetadataNamespaceBytes.
Proof.
  unfold CheckMetadataNamespace. destruct (_ || _) eqn:E; [done|]. intros _. bool_prop.
  pose proof (zlen_nonneg name). lia.
Qed.

Lemma size_loop_ok l : ∀ size total,
  metadata_size_loop size l = Ok total ↔
  Forall payload_ok l ∧ total = size + zlen (records l) ∧ (l = [] ∨ total <= MaxMetadataBytes).
Proof.
  induction l as [|[name value] l IH]; intros size total; cbn [metadata_size_loop].
  { change (zlen (records [])) with 0. split; [intros [= <-]; split_and!; [constructor|lia|by left]|].
    intros (_ & -> & _). f_equal. lia. }
  rewrite records_cons, zlen_app, zlen_record_bytes, Forall_cons. cbn [fst snd].
  unfold payload_ok at 1. cbn [fst snd]. pose proof (zlen_nonneg (records l)) as Hl.
  destruct (CheckMetadataNamespace name); [naive_solver|].
  destruct (Z.eqb_spec (zlen (Version value)) 0) as [E|E]; [cbn; naive_solver lia|].
  pose proof (zlen_nonneg (Version value)).
  destruct (Z.ltb_spec MaxObservationTokenBytes (zlen (Version value))); [cbn; naive_solver lia|]. cbn [orb].
  destruct (Z.ltb_spec MaxMetadataValueBytes (zlen (Data value))); [naive_solver lia|].
  destruct (Z.ltb_spec MaxMetadataBytes (size + (8 + zlen name + zlen (Version value) + zlen (Data value))));
    [naive_solver lia|].
  rewrite IH. split.
  - intros (Hp & -> & Hm). split_and!; [done|lia|lia|lia|done|lia|].
    right. destruct Hm as [->|]; [change (zlen (records [])) with 0; lia|done].
  - intros ((_ & Hp) & -> & Hm). split_and!; [done|lia|right; naive_solver lia].
Qed.

(** Metadata within the bounds. *)
Definition metadata_ok (values : metadata) : Prop :=
  Z.of_nat (size values) <= MaxMetadataNamespaces
  ∧ Forall payload_ok (map_to_list values) ∧ 6 + zlen (records (map_to_list values)) <= MaxMetadataBytes.

Lemma metadataSize_ok values total :
  metadataSize values = Ok total ↔ metadata_ok values ∧ total = 6 + zlen (records (map_to_list values)).
Proof.
  unfold metadataSize, metadata_ok. destruct (Z.ltb_spec MaxMetadataNamespaces (Z.of_nat (size values))).
  { naive_solver lia. }
  rewrite size_loop_ok. split.
  - intros (H1 & -> & H2). split_and!; [done|done| |done].
    destruct H2 as [E|]; [|done]. rewrite E. change (zlen (records [])) with 0. unfold MaxMetadataBytes. lia.
  - intros ((_ & H1 & H2) & ->). split_and!; [done|done|by right].
Qed.

(** ** Encoding *)

(** The entries in the order of their names. *)
Definition sorted_entries (values : metadata) : list (list Z * OpaquePayload) :=
  (λ name, (name, default no_payload (values !! name))) <$> merge_sort lex_le (map_to_list values).*1.

Fixpoint ascending (previous : list Z) (l : list (list Z * OpaquePayload)) : Prop :=
  match l with
  | [] => True
  | (name, _) :: l => ¬ lex_le name previous ∧ ascending name l
  end.

Lemma sorted_entries_perm values : sorted_entries values ≡ₚ map_to_list values.
Proof.
  unfold sorted_entries. rewrite (merge_sort_Permutation lex_le (map_to_list values).*1).
  rewrite <- list_fmap_compose.
  assert (∀ l : list (list Z * OpaquePayload), (∀ x, x ∈ l → values !! x.1 = Some x.2) →
    ((λ name, (name, default no_payload (values !! name))) ∘ fst) <$> l = l) as ->; [|done|].
  - intros l Hl. rewrite <- (list_fmap_id l) at 2. apply list_fmap_ext. intros i [name value] Hi. cbn.
    apply list_elem_of_lookup_2, Hl in Hi. cbn in Hi. by rewrite Hi.
  - intros [name value] Hin. by apply elem_of_map_to_list in Hin.
Qed.

Lemma sorted_entries_names values : (sorted_entries values).*1 = merge_sort lex_le (map_to_list values).*1.
Proof.
  unfold sorted_entries. rewrite <- list_fmap_compose. rewrite <- (list_fmap_id (merge_sort _ _)) at 2.
  by apply list_fmap_ext.
Qed.

Lemma ascending_sorted l previous :
  NoDup l.*1 → StronglySorted lex_le l.*1 → (∀ name, name ∈ l.*1 → ¬ lex_le name previous) →
  ascending previous l.
Proof.
  revert previous. induction l as [|[name value] l IH]; intros previous Hnd Hs Hp; [done|].
  cbn in *. rewrite NoDup_cons in Hnd. inversion_clear Hs as [|? ? Hs' Hall]. split; [apply Hp; by left|].
  apply IH; [naive_solver|done|]. intros name' Hin Hle. rewrite Forall_forall in Hall.
  assert (name = name') as -> by (apply (anti_symm lex_le); [by apply Hall|done]). naive_solver.
Qed.

Lemma encode_records names : ∀ out values,
  foldl (λ out name, append_record out name (default no_payload (values !! name))) out names
  = out ++ records ((λ name, (name, default no_payload ((values : metadata) !! name))) <$> names).
Proof.
  induction names as [|name names IH]; intros out values; cbn [foldl].
  { by rewrite app_nil_r. }
  rewrite IH. cbn [fmap list_fmap]. rewrite records_cons. unfold append_record, record_bytes. cbn [fst snd].
  by rewrite <- !app_assoc.
Qed.

Lemma EncodeMetadata_ok values out :
  EncodeMetadata values = Ok out ↔
  metadata_ok values
  ∧ out = envelope ++ le_split 2 (Z.of_nat (size values)) ++ records (sorted_entries values).
Proof.
  unfold EncodeMetadata. destruct (metadataSize values) as [total|] eqn:E.
  - apply metadataSize_ok in E as [Hok ->]. rewrite encode_records, <- app_assoc. naive_solver.
  - split; [done|]. intros [Hok _]. rewrite (proj2 (metadataSize_ok values _) (conj Hok eq_refl)) in E. done.
Qed.

(** ** Decoding *)

Definition add_entry (m : metadata) (entry : list Z * OpaquePayload) : metadata := <[entry.1 := entry.2]> m.

(** One turn of the decoding loop on a record. *)
Lemma decode_record n entry rest previous m :
  payload_ok entry → ¬ lex_le entry.1 previous →
  decode_loop (S n) (record_bytes entry ++ rest) previous m
  = decode_loop n rest entry.1 (add_entry m entry).
Proof.
  destruct entry as [name [version data]]. intros (Hns & Hv & Hd) Hlt. cbn [fst snd Version Data] in *.
  pose proof (namespace_length name Hns) as Hn. unfold MaxMetadataNamespaceBytes, MaxObservationTokenBytes, MaxMetadataValueBytes in *.
  pose proof (zlen_nonneg rest). pose proof (zlen_nonneg data). cbn [decode_loop].
  set (whole := record_bytes (name, {| Version := version; Data := data |}) ++ rest).
  set (body := name ++ version ++ data ++ rest).
  assert (whole = le_split 2 (zlen name) ++ le_split 2 (zlen version) ++ le_split 4 (zlen data) ++ body) as Hw.
  { unfold whole, record_bytes, body. cbn [fst snd Version Data]. by rewrite <- !app_assoc. }
  assert (zlen body = zlen name + zlen version + zlen data + zlen rest) as Hb
    by (unfold body; rewrite !zlen_app; lia).
  assert (zlen whole = 8 + zlen body) as Hzw by (rewrite Hw, !zlen_app, !zlen_le_split; lia).
  rewrite (proj2 (Z.ltb_ge (zlen whole) 8)) by lia.
  assert (Uint16 whole 0 = Some (zlen name)) as ->.
  { unfold Uint16. rewrite Hw, le_get_split_app. f_equal. apply Z.mod_small. lia. }
  assert (Uint16 whole 2 = Some (zlen version)) as ->.
  { unfold Uint16. rewrite Hw, le_get_app_r by (rewrite zlen_le_split; lia). rewrite zlen_le_split.
    change (2 - Z.of_nat 2) with 0. rewrite le_get_split_app. f_equal. apply Z.mod_small. lia. }
  assert (Uint32 whole 4 = Some (zlen data)) as ->.
  { unfold Uint32. rewrite Hw, app_assoc, le_get_app_r by (rewrite zlen_app, !zlen_le_split; lia).
    rewrite zlen_app, !zlen_le_split. change (4 - (Z.of_nat 2 + Z.of_nat 2)) with 0.
    rewrite le_get_split_app. f_equal. apply Z.mod_small. lia. }
  assert (slice whole 8 (zlen whole) = Some body) as ->.
  { rewrite Hw, !app_assoc. pose proof (slice_app_rest ((le_split 2 (zlen name) ++ le_split 2 (zlen version))
      ++ le_split 4 (zlen data)) body) as E. rewrite !zlen_app, !zlen_le_split in *. exact E. }
  cbn [mbind option_bind]. unfold MaxMetadataNamespaceBytes, MaxObservationTokenBytes, MaxMetadataValueBytes.
  rewrite !(proj2 (Z.eqb_neq _ 0)), !(proj2 (Z.ltb_ge _ _)) by lia. cbn [orb].
  rewrite (slice_app_all name _ : slice body 0 (zlen name) = _). cbn [mbind option_bind]. rewrite bool_decide_false by done. rewrite Hns. cbn [orb].
  rewrite (slice_app_mid name version _ _ _ eq_refl eq_refl : slice body (zlen name) _ = _). cbn [mbind option_bind].
  assert (slice body (zlen name + zlen version) (zlen name + zlen version + zlen data) = Some data) as ->.
  { unfold body. rewrite app_assoc. apply slice_app_mid; rewrite zlen_app; lia. }
  cbn [mbind option_bind].
  assert (slice body (zlen name + zlen version + zlen data) (zlen body) = Some rest) as ->; [|done].
  unfold body. rewrite !app_assoc. pose proof (slice_app_rest ((name ++ version) ++ data) rest) as E.
  rewrite !zlen_app in *. exact E.
Qed.

Lemma decode_records l : ∀ previous m,
  Forall payload_ok l → ascending previous l →
  decode_loop (length l) (records l) previous m = Some (Ok (foldl add_entry m l, [])).
Proof.
  induction l as [|[name value] l IH]; intros previous m Hok Ha; [done|].
  inversion_clear Hok as [|? ? He Hok']. destruct Ha as [Hlt Ha].
  rewrite records_cons. cbn [length]. rewrite decode_record by done. by apply IH.
Qed.

Lemma add_entries l : ∀ m, NoDup l.*1 → foldl add_entry m l = list_to_map l ∪ m.
Proof.
  induction l as [|[name value] l IH]; intros m Hnd; cbn [foldl list_to_map foldr].
  { by rewrite (left_id_L ∅ (∪)). }
  cbn in Hnd. rewrite NoDup_cons in Hnd. destruct Hnd as [Hn Hnd]. rewrite IH by done. cbn.
  etrans; [symmetry; apply insert_union_r; by apply not_elem_of_list_to_map_1|apply insert_union_l].
Qed.

Lemma entries_map values l : NoDup l.*1 → l ≡ₚ map_to_list values → foldl add_entry (∅ : metadata) l = values.
Proof.
  intros Hnd Hp. rewrite add_entries, (right_id_L ∅ (∪)) by done.
  rewrite (list_to_map_proper _ _ Hnd Hp). apply list_to_map_to_list.
Qed.

(** What a turn of the loop that goes on has read. *)
Lemma decode_turn n data previous m r :
  bytes data → decode_loop (S n) data previous m = r →
  r = invalid_envelope
  ∨ ∃ entry rest, data = record_bytes entry ++ rest ∧ bytes rest ∧ payload_ok entry
                  ∧ ¬ lex_le entry.1 previous ∧ r = decode_loop n rest entry.1 (add_entry m entry).
Proof.
  intros Hb <-. cbn [decode_loop]. destruct (Z.ltb_spec (zlen data) 8) as [|Hl]; [by left|].
  destruct (le_get_is_Some 2 data 0) as (k & Hk & Hkb); [lia..|]. destruct (le_get_is_Some 2 data 2) as (v & Hv & Hvb); [lia..|].
  destruct (le_get_is_Some 4 data 4) as (d & Hd & Hdb); [lia..|]. specialize (Hkb Hb). specialize (Hvb Hb). specialize (Hdb Hb).
  destruct (slice_is_Some data 8 (zlen data)) as (body & Hbody & Hbl); [lia..|].
  unfold Uint16, Uint32. rewrite Hk, Hv, Hd, Hbody. cbn [mbind option_bind].
  destruct (_ || (MaxMetadataValueBytes <? d)) eqn:E1; [by left|].
  destruct (_ || (zlen body - k - v <? d)) eqn:E2; [by left|].
  rewrite !orb_false_iff, !Z.ltb_ge, !Z.eqb_neq in *. destruct E1 as [[[[? ?] ?] ?] ?], E2 as [[? ?] ?].
  destruct (slice_is_Some body 0 k) as (name & Hname & Hnl); [lia..|]. rewrite Hname. cbn [mbind option_bind].
  destruct (bool_decide_reflect (lex_le name previous)) as [|Hlt]; [by left|].
  destruct (CheckMetadataNamespace name) eqn:Hns; [by left|]. cbn [orb].
  destruct (slice_is_Some body k (k + v)) as (version & Hversion & Hvl); [lia..|].
  destruct (slice_is_Some body (k + v) (k + v + d)) as (value & Hvalue & Hdl); [lia..|].
  destruct (slice_is_Some body (k + v + d) (zlen body)) as (rest & Hrest & _); [lia..|].
  rewrite Hversion, Hvalue, Hrest. cbn [mbind option_bind]. right.
  exists (name, {| Version := version; Data := value |}), rest. cbn [fst snd Version Data].
  assert (bytes body) as Hbb by exact (bytes_slice _ _ _ _ Hb Hbody).
  split; [|split; [exact (bytes_slice _ _ _ _ Hbb Hrest)|split; [|done]]];
    [|split_and!; cbn [fst snd Version Data]; done || lia].
  assert (body = name ++ version ++ value ++ rest) as Eb.
  { apply (slice_cut _ _ _ k); [done|]. rewrite <- (slice_join body _ _ k (k + v) (zlen body) Hversion
      (slice_join body _ _ (k + v) (k + v + d) (zlen body) Hvalue Hrest)). done. }
  assert (slice data 0 8 = Some (le_split 2 k ++ le_split 2 v ++ le_split 4 d)) as H8.
  { apply (slice_join data _ _ 0 2 8 (le_get_split 2 data 0 k Hb Hk)).
    exact (slice_join data _ _ 2 4 8 (le_get_split 2 data 2 v Hb Hv) (le_get_split 4 data 4 d Hb Hd)). }
  rewrite (slice_cut data _ _ 8 H8 Hbody), Eb. unfold record_bytes. cbn [fst snd Version Data].
  rewrite <- !app_assoc. replace (zlen name) with k by lia. replace (zlen version) with v by lia.
  by replace (zlen value) with d by lia.
Qed.

Lemma decode_loop_total n : ∀ data previous m,
  bytes data →
  decode_loop n data previous m = invalid_envelope
  ∨ ∃ l rest, decode_loop n data previous m = Some (Ok (foldl add_entry m l, rest))
      ∧ data = records l ++ rest ∧ length l = n ∧ Forall payload_ok l ∧ ascending previous l.
Proof.
  induction n as [|n IH]; intros data previous m Hb.
  { right. exists [], data. by split_and!. }
  destruct (decode_turn n data previous m _ Hb eq_refl) as [->|(entry & rest & -> & Hbr & Hok & Hlt & ->)]; [by left|].
  destruct (IH rest entry.1 (add_entry m entry) Hbr) as [->|(l & rest' & -> & -> & Hl & Hf & Ha)]; [by left|right].
  exists (entry :: l), rest'. destruct entry as [name value]. split_and!; [done| |cbn; lia|by constructor|done].
  rewrite records_cons. by rewrite <- app_assoc.
Qed.

Lemma ascending_names l : ∀ previous,
  ascending previous l →
  Forall (λ name, lex previous name = Lt) l.*1 ∧ StronglySorted lex_le l.*1 ∧ NoDup l.*1.
Proof.
  induction l as [|[name value] l IH]; intros previous Ha; cbn; [by split_and!; constructor|].
  destruct Ha as [Hlt Ha]. destruct (IH name Ha) as (H1 & H2 & H3).
  assert (lex previous name = Lt) as Hp.
  { rewrite lex_flip. unfold lex_le in Hlt. destruct (lex name previous); cbn; try done; by destruct Hlt. }
  split_and!; constructor; try done.
  - eapply Forall_impl; [exact H1|]. intros n. by apply lex_trans.
  - eapply Forall_impl; [exact H1|]. intros n Hn. unfold lex_le. congruence.
  - intros Hin. rewrite Forall_forall in H1. specialize (H1 name Hin).
    assert (lex name name = Eq) as E by (by apply lex_eq). congruence.
Qed.

(** A map has one list of entries in ascending order. *)
Lemma ascending_unique values l :
  ascending [] l → l ≡ₚ map_to_list values → l = sorted_entries values.
Proof.
  intros Ha Hp. destruct (ascending_names l [] Ha) as (_ & Hs & _).
  assert (l.*1 = merge_sort lex_le (map_to_list values).*1) as E.
  { apply (StronglySorted_unique lex_le); [done|apply (StronglySorted_merge_sort lex_le)|].
    rewrite merge_sort_Permutation. by rewrite Hp. }
  unfold sorted_entries. rewrite <- E, <- list_fmap_compose. rewrite <- (list_fmap_id l) at 1.
  apply list_fmap_ext. intros i [name value] Hi. cbn.
  apply list_elem_of_lookup_2 in Hi. rewrite Hp in Hi. apply elem_of_map_to_list in Hi. by rewrite Hi.
Qed.

(** ** Theorems *)

Lemma sorted_entries_ok values :
  Forall payload_ok (map_to_list values) →
  NoDup (sorted_entries values).*1 ∧ Forall payload_ok (sorted_entries values)
  ∧ ascending [] (sorted_entries values) ∧ length (sorted_entries values) = size values.
Proof.
  intros Hok. pose proof (sorted_entries_perm values) as Hp.
  assert (NoDup (sorted_entries values).*1) as Hnd.
  { rewrite Hp. apply NoDup_fst_map_to_list. }
  split_and!; [done|by rewrite Hp| |by rewrite Hp, length_map_to_list].
  apply ascending_sorted; [done| |].
  - rewrite sorted_entries_names. apply (StronglySorted_merge_sort lex_le).
  - intros name Hin Hle. assert (name = []) as ->.
    { apply (anti_symm lex_le); [done|]. unfold lex_le. by destruct name. }
    rewrite Hp in Hin. apply list_elem_of_fmap in Hin as ([name value] & E & Hin). cbn in E. subst name.
    rewrite Forall_forall in Hok. destruct (Hok _ Hin) as [Hns _].
    apply namespace_length in Hns. change (zlen ([], value).1) with 0 in Hns. lia.
Qed.

(** C31: metadata survives its envelope.  Values within the bounds, and only
    those, are encoded, in at most 64 KiB, and decoding the envelope gives the same values. *)
Theorem metadata_roundtrip (values : metadata) :
  (metadata_ok values ↔ ∃ out, EncodeMetadata values = Ok out)
  ∧ ∀ out, EncodeMetadata values = Ok out →
      zlen out <= MaxMetadataBytes ∧ DecodeMetadata out = Some (Ok values).
Proof.
  split; [setoid_rewrite EncodeMetadata_ok; naive_solver|].
  intros out [Hok ->]%EncodeMetadata_ok. pose proof Hok as (Hn & Hp & Hs).
  destruct (sorted_entries_ok values Hp) as (Hnd & Hf & Ha & Hl).
  pose proof (zlen_records_perm _ _ (sorted_entries_perm values)) as Hz.
  set (body := records (sorted_entries values)) in *. pose proof (zlen_nonneg body).
  unfold MaxMetadataNamespaces, MaxMetadataBytes in *.
  set (out := envelope ++ le_split 2 (Z.of_nat (size values)) ++ body).
  assert (zlen out = 6 + zlen body) as Hzo.
  { unfold out. rewrite !zlen_app, zlen_le_split. change (zlen envelope) with 4. lia. }
  split; [lia|]. unfold DecodeMetadata. unfold MaxMetadataBytes, MaxMetadataNamespaces.
  rewrite !(proj2 (Z.ltb_ge _ _)) by lia. cbn [orb].
  rewrite (slice_app_all envelope _ : slice out 0 4 = Some envelope). cbn [mbind option_bind].
  rewrite bool_decide_true by done. cbn [negb].
  assert (Uint16 out 4 = Some (Z.of_nat (size values))) as ->.
  { unfold Uint16, out. rewrite le_get_app_r by (change (zlen envelope) with 4; lia).
    change (4 - zlen envelope) with 0. rewrite le_get_split_app. f_equal. apply Z.mod_small. lia. }
  cbn [mbind option_bind]. rewrite (proj2 (Z.ltb_ge 16 _)) by lia.
  assert (slice out 6 (zlen out) = Some body) as ->.
  { unfold out. rewrite app_assoc. pose proof (slice_app_rest (envelope ++ le_split 2 (Z.of_nat (size values))) body) as E.
    rewrite zlen_app, zlen_le_split in E. exact E. }
  cbn [mbind option_bind]. destruct (Z.eqb_spec (Z.of_nat (size values)) 0) as [E|E].
  - assert (values = ∅) as -> by (apply map_size_empty_inv; lia).
    unfold body, sorted_entries. rewrite map_to_list_empty. done.
  - rewrite Nat2Z.id, <- Hl. unfold body. rewrite decode_records by done. cbn [mbind option_bind].
    rewrite (entries_map values) by (done || apply sorted_entries_perm). cbn [zlen length Z.of_nat Z.eqb negb].
    unfold CheckMetadata. rewrite (proj2 (metadataSize_ok values _) (conj Hok eq_refl)). done.
Qed.

(** C32: the envelope is canonical.  Decoding never panics; what it accepts is
    exactly what encoding the decoded values gives, so two envelopes with the
    same values are the same bytes; anything else is an I/O error. *)
Theorem metadata_canonical (data : list Z) :
  bytes data →
  (∃ values, DecodeMetadata data = Some (Ok values) ∧ EncodeMetadata values = Ok data)
  ∨ DecodeMetadata data = Some (Err (Wrapped (Errno EIO))).
Proof.
  intros Hb. unfold DecodeMetadata. destruct (_ || (MaxMetadataBytes <? zlen data)) eqn:E1; [by right|].
  rewrite orb_false_iff, !Z.ltb_ge in E1. destruct E1 as [H6 Hmax].
  destruct (slice_is_Some data 0 4) as (header & Hh & _); [lia..|]. rewrite Hh. cbn [mbind option_bind].
  destruct (bool_decide_reflect (header = envelope)) as [->|]; [|by right]. cbn [negb].
  destruct (le_get_is_Some 2 data 4) as (count & Hc & Hcb); [lia..|]. specialize (Hcb Hb).
  unfold Uint16. rewrite Hc. cbn [mbind option_bind]. destruct (Z.ltb_spec MaxMetadataNamespaces count) as [|Hle]; [by right|].
  destruct (slice_is_Some data 6 (zlen data)) as (body & Hbody & Hbl); [lia..|]. rewrite Hbody. cbn [mbind option_bind].
  assert (data = envelope ++ le_split 2 count ++ body) as Hdata.
  { apply (slice_cut data _ _ 4 Hh). apply (slice_join data _ _ 4 6 (zlen data)); [|done].
    exact (le_get_split 2 data 4 count Hb Hc). }
  assert (Hfinal : ∀ values l, ascending [] l → l ≡ₚ map_to_list values → body = records l →
    count = Z.of_nat (length l) → metadata_ok values → EncodeMetadata values = Ok data).
  { intros values l Ha Hp Hr Hcount Hok. apply EncodeMetadata_ok. split; [done|]. rewrite Hdata, Hr.
    rewrite <- (length_map_to_list values), <- Hp, Hcount. by rewrite (ascending_unique values l). }
  destruct (Z.eqb_spec count 0) as [E0|E0].
  - destruct (Z.eqb_spec (zlen body) 0) as [Ez|]; [|by right]. left. exists ∅. split; [done|].
    apply (Hfinal ∅ []); [done|by rewrite map_to_list_empty| |done|].
    + destruct body; [done|]. rewrite zlen_cons in Ez. pose proof (zlen_nonneg body). lia.
    + unfold metadata_ok. by rewrite map_to_list_empty.
  - destruct (decode_loop_total (Z.to_nat count) body [] ∅) as [->|(l & rest & -> & Hr & Hl & Hf & Ha)];
      [exact (bytes_slice _ _ _ _ Hb Hbody)|by right|]. cbn [mbind option_bind].
    destruct (Z.eqb_spec (zlen rest) 0) as [Ez|]; [|by right]. cbn [negb].
    destruct (ascending_names l [] Ha) as (_ & _ & Hnd). set (values := foldl add_entry ∅ l).
    destruct (CheckMetadata values) eqn:Ec; [by right|]. left. exists values. split; [done|].
    assert (rest = []) as -> by (destruct rest; [done|]; rewrite zlen_cons in Ez; pose proof (zlen_nonneg rest); lia).
    rewrite app_nil_r in Hr. apply (Hfinal values l); [done| |done|lia|].
    + unfold values. rewrite add_entries, (right_id_L ∅ (∪)) by done. symmetry. by apply map_to_list_to_map.
    + unfold CheckMetadata in Ec. destruct (metadataSize values) as [total|] eqn:Es; [|done].
      by apply metadataSize_ok in Es as [? _].
Qed.

Lemma metadata_canonical_witness :
  ∃ values, DecodeMetadata [82; 70; 77; 1; 1; 0; 1; 0; 1; 0; 2; 0; 0; 0; 97; 7; 8; 9] = Some (Ok values)
    ∧ EncodeMetadata values = Ok [82; 70; 77; 1; 1; 0; 1; 0; 1; 0; 2; 0; 0; 0; 97; 7; 8; 9].
Proof.
  destruct (metadata_canonical [82; 70; 77; 1; 1; 0; 1; 0; 1; 0; 2; 0; 0; 0; 97; 7; 8; 9]) as [H|H].
  - apply (bool_decide_unpack (bytes _)). vm_compute. exact I.
  - exact H.
  - vm_compute in H. discriminate.
Defined.
