(* ===== verification/Attributes.v ===== *)
(** * Node attributes

    The attribute types of [packages/storage/storage.go]: what a volume says of
    one node, the entries of a listing, and the room a volume has. *)

From S2P Require Import Prelude Errors Metadata.

(** A [time.Time]: seconds since the Unix epoch and nanoseconds within one.
    The location of an instant is not modelled: [UTC] keeps the instant. *)
Record Time := { Unix : Z; Nanosecond : Z }.

Record Attr := {
  at_ID : Z; at_Kind : NodeKind; at_BirthTime : option Time; at_ChangeTime : option Time;
  at_Metadata : metadata; at_Size : Z; at_AllocationSize : Z; at_AllocationKnown : bool;
  at_AccessTime : Time; at_ModTime : Time }.

Definition IsDir (a : Attr) : bool := bool_decide (at_Kind a = NodeDirectory).

(** [Attr.CheckAllocation]; [None] is a nil error. *)
Definition CheckAllocation (a : Attr) : option error :=
  if (at_AllocationSize a <? 0) || negb (at_AllocationKnown a) && negb (at_AllocationSize a =? 0)
  then Some (Wrapped (Errno EIO)) else None.

Record Entry := { en_Name : list Z; en_Attr : Attr }.

Record Space := { sp_Total : Z; sp_Used : Z; sp_Avail : Z }.

Definition Coherent (s : Space) : bool :=
  if (sp_Total s <? 0) || (sp_Used s <? 0) || (sp_Avail s <? 0) then false
  else sp_Avail s <=? Z.max (sp_Total s - sp_Used s) 0.

(** The same attributes with another metadata map, [attr.Metadata = m]. *)
Definition with_metadata (m : metadata) (a : Attr) : Attr :=
  {| at_ID := at_ID a; at_Kind := at_Kind a; at_BirthTime := at_BirthTime a;
     at_ChangeTime := at_ChangeTime a; at_Metadata := m; at_Size := at_Size a;
     at_AllocationSize := at_AllocationSize a; at_AllocationKnown := at_AllocationKnown a;
     at_AccessTime := at_AccessTime a; at_ModTime := at_ModTime a |}.

(** Attributes with nothing but an identity, a kind and a size. *)
Definition bare_attr (id : Z) (kind : NodeKind) (size : Z) : Attr :=
  {| at_ID := id; at_Kind := kind; at_BirthTime := None; at_ChangeTime := None; at_Metadata := ∅;
     at_Size := size; at_AllocationSize := 0; at_AllocationKnown := false;
     at_AccessTime := {| Unix := 0; Nanosecond := 0 |}; at_ModTime := {| Unix := 0; Nanosecond := 0 |} |}.
