(* ===== verification/Listing.v ===== *)
(** * Bounded directory listings

    [ListResult] of [packages/storage/storage.go]: a caller-owned listing that
    charges every entry before it is loaded, and that is complete or a failure.
    A method is a computation over the result it is called on; nil receivers,
    which only answer EINVAL, are left out.  A [ListReservation] is a value that
    [Commit] returns changed. *)

From S2P Require Import Prelude Bytes Errors Metadata Attributes.

(** ** Definitions *)

(** The caller's charge for an entry: its index, the bytes of its name and of
    its metadata envelope, and its attributes without metadata. *)
Definition entry_charge : Type := Z → Z → Z → Attr → result Z.

(** A projection of attributes: what it returns, its [Metadata] field apart,
    which is nil or a map, possibly empty. *)
Definition projection : Type := Attr → Attr * option metadata.

Record ListResult := {
  lr_maxBytes : Z; lr_usedBytes : Z; lr_entryBytes : entry_charge;
  lr_projectAttrs : list projection; lr_entries : list Entry; lr_pending : Z;
  lr_prefixReserved : bool; lr_failure : option error }.

Definition set_lr_usedBytes v r := {|
  lr_maxBytes := lr_maxBytes r; lr_usedBytes := v; lr_entryBytes := lr_entryBytes r;
  lr_projectAttrs := lr_projectAttrs r; lr_entries := lr_entries r; lr_pending := lr_pending r;
  lr_prefixReserved := lr_prefixReserved r; lr_failure := lr_failure r |}.
Definition set_lr_projectAttrs v r := {|
  lr_maxBytes := lr_maxBytes r; lr_usedBytes := lr_usedBytes r; lr_entryBytes := lr_entryBytes r;
  lr_projectAttrs := v; lr_entries := lr_entries r; lr_pending := lr_pending r;
  lr_prefixReserved := lr_prefixReserved r; lr_failure := lr_failure r |}.
Definition set_lr_entries v r := {|
  lr_maxBytes := lr_maxBytes r; lr_usedBytes := lr_usedBytes r; lr_entryBytes := lr_entryBytes r;
  lr_projectAttrs := lr_projectAttrs r; lr_entries := v; lr_pending := lr_pending r;
  lr_prefixReserved := lr_prefixReserved r; lr_failure := lr_failure r |}.
Definition set_lr_pending v r := {|
  lr_maxBytes := lr_maxBytes r; lr_usedBytes := lr_usedBytes r; lr_entryBytes := lr_entryBytes r;
  lr_projectAttrs := lr_projectAttrs r; lr_entries := lr_entries r; lr_pending := v;
  lr_prefixReserved := lr_prefixReserved r; lr_failure := lr_failure r |}.
Definition set_lr_prefixReserved v r := {|
  lr_maxBytes := lr_maxBytes r; lr_usedBytes := lr_usedBytes r; lr_entryBytes := lr_entryBytes r;
  lr_projectAttrs := lr_projectAttrs r; lr_entries := lr_entries r; lr_pending := lr_pending r;
  lr_prefixReserved := v; lr_failure := lr_failure r |}.
Definition set_lr_failure v r := {|
  lr_maxBytes := lr_maxBytes r; lr_usedBytes := lr_usedBytes r; lr_entryBytes := lr_entryBytes r;
  lr_projectAttrs := lr_projectAttrs r; lr_entries := lr_entries r; lr_pending := lr_pending r;
  lr_prefixReserved := lr_prefixReserved r; lr_failure := v |}.

(** [NewListResult] with a charge that is not nil. *)
Definition NewListResult (maxBytes fixedBytes : Z) (entryBytes : entry_charge) : result ListResult :=
  if maxBytes <? 0 then Err (Wrapped (Errno EINVAL))
  else if (fixedBytes <? 0) || (maxBytes <? fixedBytes) then Err (Wrapped (Errno EFBIG))
  else Ok {| lr_maxBytes := maxBytes; lr_usedBytes := fixedBytes; lr_entryBytes := entryBytes;
             lr_projectAttrs := []; lr_entries := []; lr_pending := 0;
             lr_prefixReserved := false; lr_failure := None |}.

(** [fail]: the first failure stays, and every entry is dropped. *)
Definition list_fail (err : error) : comp ListResult error :=
  do! modify (λ r, set_lr_pending 0 (set_lr_entries []
        (set_lr_failure (Some (default err (lr_failure r))) r))) in
  let! failure := gets lr_failure in
  ret (default err failure).

(** [Fail]; a nil error does nothing. *)
Definition Fail (err : option error) : comp ListResult (option error) :=
  match err with
  | None => ret None
  | Some err => let! err := list_fail err in ret (Some err)
  end.

(** [ProjectAttrs] with a function that is not nil. *)
Definition ProjectAttrs (project : projection) : comp ListResult (option error) :=
  let! r := gets id in
  match lr_failure r with
  | Some err => ret (Some err)
  | None =>
      if negb (lr_pending r =? 0) || negb (zlen (lr_entries r) =? 0)
      then let! err := list_fail (Wrapped (Errno EINVAL)) in ret (Some err)
      else do! modify (set_lr_projectAttrs (lr_projectAttrs r ++ [project])) in ret None
  end.

Record ListReservation := {
  rv_nameBytes : Z; rv_metadataBytes : Z; rv_attr : Attr; rv_committed : bool }.

(** The loop over the projections, the last registered first; [None] is one
    that supplies metadata. *)
Fixpoint project_loop (projections : list projection) (a : Attr) : option Attr :=
  match projections with
  | [] => Some a
  | project :: projections =>
      match project a with
      | (a, None) => project_loop projections (with_metadata ∅ a)
      | (_, Some _) => None
      end
  end.

Definition Reserve (nameBytes metadataBytes : Z) (attr : Attr) : comp ListResult (result ListReservation) :=
  let! r := gets id in
  let failed err := let! err := list_fail err in ret (Err err) in
  match lr_failure r with
  | Some err => ret (Err err)
  | None =>
      if nameBytes <? 0 then failed (Wrapped (Errno EIO))
      else if negb (bool_decide (at_Metadata attr = ∅)) then failed (Errno EINVAL)
      else if (metadataBytes <? 6) || (MaxMetadataBytes <? metadataBytes) then failed (Errno EIO)
      else match project_loop (rev (lr_projectAttrs r)) attr with
      | None => failed (Wrapped (Errno EINVAL))
      | Some attr =>
          let index := zlen (lr_entries r) + lr_pending r in
          match lr_entryBytes r index nameBytes metadataBytes attr with
          | Err err => failed err
          | Ok bytes =>
              if bytes <? 0 then failed (Wrapped (Errno EINVAL))
              else if lr_maxBytes r - lr_usedBytes r <? bytes then failed (Wrapped (Errno EIO))
              else
                do! modify (λ r, set_lr_pending (lr_pending r + 1)
                              (set_lr_usedBytes (lr_usedBytes r + bytes) r)) in
                ret (Ok {| rv_nameBytes := nameBytes; rv_metadataBytes := metadataBytes;
                           rv_attr := attr; rv_committed := false |})
          end
      end
  end.

Definition ReservePrefix (charge : Z) : comp ListResult (option error) :=
  let! r := gets id in
  let failed err := let! err := list_fail err in ret (Some err) in
  match lr_failure r with
  | Some err => ret (Some err)
  | None =>
      if lr_prefixReserved r || negb (lr_pending r =? 0) || negb (zlen (lr_entries r) =? 0)
      then failed (Wrapped (Errno EINVAL))
      else if charge <? 0 then failed (Wrapped (Errno EINVAL))
      else if lr_maxBytes r - lr_usedBytes r <? charge then failed (Wrapped (Errno EFBIG))
      else do! modify (λ r, set_lr_prefixReserved true
                         (set_lr_usedBytes (lr_usedBytes r + charge) r)) in ret None
  end.

Definition Commit (v : ListReservation) (name : list Z) (m : metadata)
  : comp ListResult (ListReservation * option error) :=
  let failed err := let! err := list_fail err in ret (v, Some err) in
  if rv_committed v then ret (v, Some (Wrapped (Errno EINVAL)))
  else if negb (zlen name =? rv_nameBytes v) then failed (Wrapped (Errno EIO))
  else
    let! failure := gets lr_failure in
    match failure with
    | Some err => ret (v, Some err)
    | None =>
        match metadataSize m with
        | Err err => failed err
        | Ok size =>
            if negb (size =? rv_metadataBytes v) then failed (Wrapped (Errno EIO))
            else
              let attr := with_metadata m (rv_attr v) in
              do! modify (λ r, set_lr_entries (lr_entries r ++ [{| en_Name := name; en_Attr := attr |}])
                            (set_lr_pending (lr_pending r - 1) r)) in
              ret ({| rv_nameBytes := rv_nameBytes v; rv_metadataBytes := rv_metadataBytes v;
                      rv_attr := attr; rv_committed := true |}, None)
        end
    end.

Definition Add (entry : Entry) : comp ListResult (option error) :=
  match metadataSize (at_Metadata (en_Attr entry)) with
  | Err err => Fail (Some err)
  | Ok size =>
      let! reservation := Reserve (zlen (en_Name entry)) size (with_metadata ∅ (en_Attr entry)) in
      match reservation with
      | Err err => ret (Some err)
      | Ok reservation =>
          let! answer := Commit reservation (en_Name entry) (at_Metadata (en_Attr entry)) in
          ret answer.2
      end
  end.

(** [strings.Compare] of the names is not positive. *)
Definition name_before (a b : Entry) : Prop := lex_le (en_Name a) (en_Name b).

#[global] Instance name_before_dec : RelDecision name_before.
Proof. intros a b. unfold name_before. apply _. Defined.

#[global] Instance name_before_trans : Transitive name_before.
Proof. intros a b c. unfold name_before. apply lex_le_trans. Qed.

#[global] Instance name_before_total : Total name_before.
Proof. intros a b. apply lex_le_total. Qed.

(** [slices.SortFunc] is not stable; names in one listing are distinct, so
    that the sorted order is unique. *)
Definition Entries : comp ListResult (result (list Entry)) :=
  let! r := gets id in
  match lr_failure r with
  | Some err => ret (Err err)
  | None =>
      if negb (lr_pending r =? 0) then ret (Err (Wrapped (Errno EIO)))
      else
        do! modify (set_lr_entries (merge_sort name_before (lr_entries r))) in
        ret (Ok (merge_sort name_before (lr_entries r)))
  end.

(** ** A producer's listing

    What [ListBounded] does with its result: it adds entries one by one and
    stops at the first refusal; [last] is how it ends by itself. *)

Fixpoint produce (entries : list Entry) (last : option error) : comp ListResult (option error) :=
  match entries with
  | [] => Fail last
  | entry :: entries =>
      let! err := Add entry in
      match err with Some err => ret (Some err) | None => produce entries last end
  end.

Section listing.
Context (entryBytes : entry_charge) (projections : list projection).

(** What is charged for an entry and what is retained of it. *)
Definition priced (index : Z) (entry : Entry) : option (Z * Entry) :=
  match metadataSize (at_Metadata (en_Attr entry)) with
  | Err _ => None
  | Ok size =>
      a ← project_loop (rev projections) (with_metadata ∅ (en_Attr entry));
      match entryBytes index (zlen (en_Name entry)) size a with
      | Err _ => None
      | Ok charge =>
          if charge <? 0 then None
          else Some (charge, {| en_Name := en_Name entry;
                                en_Attr := with_metadata (at_Metadata (en_Attr entry)) a |})
      end
  end.

(** The entries that are retained when all of them fit in [room]. *)
Fixpoint retained (index room : Z) (entries : list Entry) : option (list Entry) :=
  match entries with
  | [] => Some []
  | entry :: entries =>
      p ← priced index entry;
      if room <? p.1 then None
      else rest ← retained (index + 1) (room - p.1) entries; Some (p.2 :: rest)
  end.

Definition listing (maxBytes usedBytes : Z) (early : bool) (entries : list Entry) : ListResult :=
  {| lr_maxBytes := maxBytes; lr_usedBytes := usedBytes; lr_entryBytes := entryBytes;
     lr_projectAttrs := projections; lr_entries := entries; lr_pending := 0;
     lr_prefixReserved := early; lr_failure := None |}.

Lemma metadata_size_bounds m size : metadataSize m = Ok size → 6 <= size <= MaxMetadataBytes.
Proof.
  intros [(_ & _ & H) ->]%metadataSize_ok. pose proof (zlen_nonneg (records (map_to_list m))). lia.
Qed.

Lemma list_fail_spec err r :
  lr_failure r = None →
  ∃ r', list_fail err r = Some (err, r') ∧ lr_failure r' = Some err.
Proof. intros Hf. unfold list_fail, bind, modify, gets, ret. cbn. rewrite Hf. eauto. Qed.

#[local] Ltac failing err :=
  match goal with
  | H : ∀ err, ∃ r', list_fail err _ = _ ∧ _ |- _ =>
      let r' := fresh in let E := fresh in let F := fresh in
      destruct (H err) as (r' & E & F); unfold Fail, bind; rewrite E; cbn; by eauto
  end.

(** One entry: it is retained and charged, or the listing has failed. *)
Lemma Add_spec maxBytes usedBytes early held entry :
  match priced (zlen held) entry with
  | Some (charge, kept) =>
      if maxBytes - usedBytes <? charge
      then ∃ err r, Add entry (listing maxBytes usedBytes early held) = Some (Some err, r)
                    ∧ lr_failure r = Some err
      else Add entry (listing maxBytes usedBytes early held)
           = Some (None, listing maxBytes (usedBytes + charge) early (held ++ [kept]))
  | None => ∃ err r, Add entry (listing maxBytes usedBytes early held) = Some (Some err, r)
                     ∧ lr_failure r = Some err
  end.
Proof.
  unfold priced, Add. set (r := listing maxBytes usedBytes early held).
  assert (Hr : lr_failure r = None) by done.
  assert (Hfail : ∀ err, ∃ r', list_fail err r = Some (err, r') ∧ lr_failure r' = Some err)
    by (intros; by apply list_fail_spec).
  destruct (metadataSize (at_Metadata (en_Attr entry))) as [size|err] eqn:Em.
  2:{ failing err. }
  pose proof (metadata_size_bounds _ _ Em) as Hm. pose proof (zlen_nonneg (en_Name entry)) as Hn.
  unfold Reserve, bind, gets. cbn [id]. rewrite Hr. cbn beta iota.
  destruct (Z.ltb_spec (zlen (en_Name entry)) 0) as [|_]; [lia|]. cbn [at_Metadata with_metadata].
  rewrite (bool_decide_true (∅ = ∅)) by done. cbn [negb].
  destruct (Z.ltb_spec size 6) as [|_]; [lia|].
  destruct (Z.ltb_spec MaxMetadataBytes size) as [|_]; [lia|]. cbn [orb].
  change (lr_projectAttrs r) with projections.
  destruct (project_loop _ _) as [a|] eqn:Ea; cbn [mbind option_bind].
  2:{ failing (Wrapped (Errno EINVAL)). }
  change (lr_entryBytes r) with entryBytes. change (lr_entries r) with held. change (lr_pending r) with 0.
  rewrite Z.add_0_r.
  destruct (entryBytes (zlen held) (zlen (en_Name entry)) size a) as [charge|err] eqn:Ec.
  2:{ failing err. }
  destruct (charge <? 0).
  { failing (Wrapped (Errno EINVAL)). }
  change (lr_maxBytes r) with maxBytes. change (lr_usedBytes r) with usedBytes.
  destruct (maxBytes - usedBytes <? charge).
  { failing (Wrapped (Errno EIO)). }
  cbn. unfold Commit. cbn. rewrite Z.eqb_refl. cbn. rewrite Em, Z.eqb_refl. done.
Qed.

Lemma priced_nonneg index entry charge kept : priced index entry = Some (charge, kept) → 0 <= charge.
Proof.
  unfold priced. destruct (metadataSize _) as [size|]; [|done].
  destruct (project_loop _ _) as [a|]; cbn [mbind option_bind]; [|done].
  destruct (entryBytes _ _ _ _) as [c|]; [|done].
  destruct (Z.ltb_spec c 0); [done|]. intros [= <- _]. done.
Qed.

(** A whole listing: every entry is retained, or the first refusal stays. *)
Lemma produce_spec entries last : ∀ maxBytes usedBytes early held,
  usedBytes <= maxBytes →
  match retained (zlen held) (maxBytes - usedBytes) entries, last with
  | Some kept, None =>
      ∃ used, usedBytes <= used <= maxBytes
        ∧ produce entries last (listing maxBytes usedBytes early held)
          = Some (None, listing maxBytes used early (held ++ kept))
  | _, _ => ∃ err r, produce entries last (listing maxBytes usedBytes early held) = Some (Some err, r)
                     ∧ lr_failure r = Some err
  end.
Proof.
  induction entries as [|entry entries IH]; intros maxBytes usedBytes early held Hu; cbn [retained produce].
  - destruct last as [err|]; cbn [Fail].
    + destruct (list_fail_spec err (listing maxBytes usedBytes early held)) as (r & E & F); [done|].
      unfold bind. rewrite E. cbn. eauto.
    + exists usedBytes. rewrite app_nil_r. split; [lia|done].
  - pose proof (Add_spec maxBytes usedBytes early held entry) as HA.
    destruct (priced (zlen held) entry) as [[charge kept]|] eqn:Ep; cbn [mbind option_bind fst snd].
    2:{ destruct HA as (err & r & E & F). unfold bind. rewrite E. cbn. eauto. }
    destruct (Z.ltb_spec (maxBytes - usedBytes) charge).
    { destruct HA as (err & r & E & F). unfold bind. rewrite E. cbn. eauto. }
    pose proof (priced_nonneg _ _ _ _ Ep).
    unfold bind. rewrite HA. specialize (IH maxBytes (usedBytes + charge) early (held ++ [kept])).
    rewrite zlen_app, (zlen_cons kept []), zlen_nil, Z.add_0_r in IH.
    replace (maxBytes - (usedBytes + charge)) with (maxBytes - usedBytes - charge) in IH by lia.
    destruct (retained (zlen held + 1) _ entries) as [rest|]; cbn [mbind option_bind]; [|apply IH; lia].
    destruct last; [apply IH; lia|]. destruct IH as (used & ? & E); [lia|].
    exists used. split; [lia|]. by rewrite E, <- app_assoc.
Qed.
End listing.

(** The caller's side: an empty result, the wrappers' projections, the
    producer, and the entries. *)
Fixpoint project_all (projections : list projection) : comp ListResult (option error) :=
  match projections with
  | [] => ret None
  | project :: projections =>
      let! err := ProjectAttrs project in
      match err with Some err => ret (Some err) | None => project_all projections end
  end.

Definition complete_listing (maxBytes fixedBytes : Z) (entryBytes : entry_charge)
    (projections : list projection) (entries : list Entry) (last : option error)
  : option (result (list Entry)) :=
  match NewListResult maxBytes fixedBytes entryBytes with
  | Err err => Some (Err err)
  | Ok r =>
      fst <$> (let! err := project_all projections in
               match err with
               | Some err => ret (Err err)
               | None =>
                   let! err := produce entries last in
                   match err with Some err => ret (Err err) | None => Entries end
               end) r
  end.

Lemma project_all_spec entryBytes projections : ∀ before maxBytes usedBytes early,
  project_all projections (listing entryBytes before maxBytes usedBytes early [])
  = Some (None, listing entryBytes (before ++ projections) maxBytes usedBytes early []).
Proof.
  induction projections as [|project projections IH]; intros before maxBytes usedBytes early; cbn [project_all].
  - by rewrite app_nil_r.
  - unfold bind. cbn. unfold set_lr_projectAttrs. cbn.
    change (project_all projections (listing entryBytes (before ++ [project]) maxBytes usedBytes early [])
            = Some (None, listing entryBytes (before ++ project :: projections) maxBytes usedBytes early [])).
    by rewrite IH, <- app_assoc.
Qed.

(** C35: a bounded listing is complete or fails.  With a bound that holds the
    empty listing, a producer's entries are all returned, each once, sorted by
    name and with the wrappers' projections applied, exactly when each has a
    charge and the charges together stay within the bound; otherwise, or when
    the producer ends with an error, the caller gets an error and no entry. *)
Theorem listing_exact (maxBytes fixedBytes : Z) (entryBytes : entry_charge)
    (projections : list projection) (entries : list Entry) (last : option error) :
  0 <= fixedBytes <= maxBytes →
  ∃ answer, complete_listing maxBytes fixedBytes entryBytes projections entries last = Some answer
    ∧ match retained entryBytes projections 0 (maxBytes - fixedBytes) entries, last with
      | Some kept, None => ∃ l, answer = Ok l ∧ l ≡ₚ kept ∧ StronglySorted name_before l
      | _, _ => ∃ err, answer = Err err
      end.
Proof.
  intros Hb. unfold complete_listing, NewListResult.
  destruct (Z.ltb_spec maxBytes 0); [lia|]. destruct (Z.ltb_spec fixedBytes 0); [lia|].
  destruct (Z.ltb_spec maxBytes fixedBytes); [lia|]. cbn [orb].
  change {| lr_maxBytes := maxBytes |} with (listing entryBytes [] maxBytes fixedBytes false []).
  unfold bind. rewrite project_all_spec. cbn [app].
  pose proof (produce_spec entryBytes projections entries last maxBytes fixedBytes false [] ltac:(lia)) as HP.
  rewrite zlen_nil in HP. cbn [app] in HP.
  destruct (retained entryBytes projections 0 (maxBytes - fixedBytes) entries) as [kept|].
  2:{ destruct HP as (err & r & E & _). rewrite E. cbn. eauto. }
  destruct last as [err|]; [destruct HP as (err' & r & E & _); rewrite E; cbn; eauto|].
  destruct HP as (used & _ & E). rewrite E. cbn. eexists. split; [done|]. eexists. split; [done|].
  split; [apply merge_sort_Permutation|]. apply (StronglySorted_merge_sort name_before).
Qed.

Lemma listing_exact_witness :
  let file := {| en_Name := [98]; en_Attr := bare_attr 2 NodeRegular 7 |} in
  let directory := {| en_Name := [97]; en_Attr := bare_attr 3 NodeDirectory 0 |} in
  ∃ l, complete_listing 300 2 (λ _ n m _, Ok (n + m)) [λ a, (a, None)] [file; directory] None
       = Some (Ok l) ∧ l ≡ₚ [file; directory] ∧ StronglySorted name_before l.
Proof.
  intros file directory.
  destruct (listing_exact 300 2 (λ _ n m _, Ok (n + m)) [λ a, (a, None)] [file; directory] None)
    as (answer & E & H); [lia|].
  change (retained (λ _ n m _, Ok (n + m)) [λ a, (a, None)] 0 (300 - 2) [file; directory])
    with (Some [file; directory]) in H.
  destruct H as (l & -> & Hl & Hs). by exists l.
Defined.
