(* ===== verification/Paths.v ===== *)
(** * Volume paths

    [CleanPath] of [packages/storage/storage.go] and [CheckLeaf] of
    [packages/storage/capability_validation.go], with the parts of [strings] and
    [path] they use.  A Go string is its bytes. *)

From S2P Require Import Prelude Bytes Errors.

(** ** Definitions *)

Definition slash : Z := 47.
Definition MaxLeafBytes : Z := 4096.

(** [strings.Split(s, sep)] for a separator of one byte *)
Fixpoint Split (sep : Z) (s : list Z) : list (list Z) :=
  match s with
  | [] => [[]]
  | c :: s =>
      match Split sep s with
      | part :: parts => if c =? sep then [] :: part :: parts else (c :: part) :: parts
      | [] => []
      end
  end.

(** [strings.Join] with one byte. *)
Fixpoint join (sep : Z) (parts : list (list Z)) : list Z :=
  match parts with
  | [] => []
  | [part] => part
  | part :: parts => part ++ sep :: join sep parts
  end.

Definition dot_name : list Z := [46].
Definition dotdot_name : list Z := [46; 46].

(** One element of [path.Clean] on a path that does not start with a slash;
    [out] is what has been kept, last first. *)
Definition clean_element (out : list (list Z)) (element : list Z) : list (list Z) :=
  if bool_decide (element = []) || bool_decide (element = dot_name) then out
  else if bool_decide (element = dotdot_name) then
    match out with
    | last :: before => if bool_decide (last = dotdot_name) then element :: out else before
    | [] => [element]
    end
  else element :: out.

(** [path.Clean] of such a path, by its elements; none is the result [.]. *)
Definition clean_elements (p : list Z) : list (list Z) :=
  rev (foldl clean_element [] (Split slash p)).

Definition CheckLeaf (name : list Z) : option error :=
  if bool_decide (name = []) || bool_decide (name = dot_name) || bool_decide (name = dotdot_name)
     || existsb (Z.eqb slash) name || existsb (Z.eqb 0) name
  then Some (Errno EINVAL)
  else if MaxLeafBytes <? zlen name then Some (Errno ENAMETOOLONG)
  else None.

(** The loop over the components. *)
Fixpoint check_components (components : list (list Z)) : option error :=
  match components with
  | [] => None
  | component :: components => CheckLeaf component ;? check_components components
  end.

Definition CleanPath (p : list Z) : result (list Z) :=
  if bool_decide (head p = Some slash) then Err (Errno EINVAL)
  else if bool_decide (p = []) then Ok []
  else
    let elements := clean_elements p in
    if bool_decide (elements = []) then Ok []
    else if bool_decide (head elements = Some dotdot_name) then Err (Errno EINVAL)
    else
      let cleaned := join slash elements in
      match check_components (Split slash cleaned) with
      | Some err => Err err
      | None => Ok cleaned
      end.

(** ** Splitting and joining *)

Lemma Split_ne sep s : Split sep s ≠ [].
Proof. induction s as [|c s IH]; cbn; [done|]. destruct (Split sep s); [done|]. by destruct (c =? sep). Qed.

Lemma join_Split sep s : join sep (Split sep s) = s.
Proof.
  induction s as [|c s IH]; [done|]. cbn [Split]. pose proof (Split_ne sep s).
  destruct (Split sep s) as [|part parts]; [done|].
  destruct (Z.eqb_spec c sep) as [->|Hne]; [cbn; by f_equal|].
  destruct parts; cbn in *; by f_equal.
Qed.

Lemma Split_part sep part rest :
  sep ∉ part → Split sep (part ++ sep :: rest) = part :: Split sep rest.
Proof.
  induction part as [|c part IH]; intros Hn.
  - cbn [app Split]. pose proof (Split_ne sep rest). destruct (Split sep rest); [done|]. by rewrite Z.eqb_refl.
  - rewrite not_elem_of_cons in Hn. destruct Hn as [Hc Hn]. cbn [app Split]. rewrite IH by done.
    rewrite (proj2 (Z.eqb_neq _ _)) by congruence. done.
Qed.

Lemma Split_whole sep part : sep ∉ part → Split sep part = [part].
Proof.
  induction part as [|c part IH]; intros Hn; [done|]. rewrite not_elem_of_cons in Hn.
  destruct Hn as [Hc Hn]. cbn [Split]. rewrite IH by done. by rewrite (proj2 (Z.eqb_neq _ _)) by congruence.
Qed.

Lemma Split_join sep parts :
  parts ≠ [] → Forall (λ part, sep ∉ part) parts → Split sep (join sep parts) = parts.
Proof.
  intros Hne H. induction H as [|part parts Hp Hps IH]; [done|].
  destruct parts as [|part' parts]; [by apply Split_whole|].
  cbn [join]. rewrite Split_part by done. f_equal. by apply IH.
Qed.

(** ** Clean paths *)

Definition leaf (name : list Z) : Prop := CheckLeaf name = None.

Lemma leaf_plain name : leaf name → name ≠ [] ∧ name ≠ dot_name ∧ name ≠ dotdot_name ∧ slash ∉ name.
Proof.
  unfold leaf, CheckLeaf. intros H. repeat case_match; try done. bool_prop.
  split_and!; try done. intros Hs. assert (existsb (Z.eqb slash) name = true); [|congruence].
  apply existsb_exists. exists slash. split; [by apply list_elem_of_In|apply Z.eqb_refl].
Qed.

Lemma check_components_leaves components : check_components components = None ↔ Forall leaf components.
Proof.
  induction components as [|c components IH]; cbn [check_components]; [by split|].
  rewrite orelse_None, IH, Forall_cons. done.
Qed.

Lemma clean_leaves leaves : ∀ out, Forall leaf leaves → foldl clean_element out leaves = rev leaves ++ out.
Proof.
  induction leaves as [|l leaves IH]; intros out Hl; [done|]. apply Forall_cons in Hl as [Hl Hls].
  apply leaf_plain in Hl as (H1 & H2 & H3 & _). cbn [foldl rev]. rewrite IH by done.
  unfold clean_element. rewrite !bool_decide_false by done. cbn [orb]. by rewrite <- app_assoc.
Qed.

(** A path of leaf names is clean. *)
Lemma CleanPath_leaves c : Forall leaf (Split slash c) → CleanPath c = Ok c.
Proof.
  intros Hl. unfold CleanPath, clean_elements. rewrite clean_leaves by done.
  rewrite app_nil_r, rev_involutive, join_Split.
  pose proof (Split_ne slash c) as Hne. destruct (Split slash c) as [|part parts] eqn:E; [done|].
  pose proof (proj1 (Forall_cons _ _ _) Hl) as [(H1 & _ & H3 & H4)%leaf_plain _].
  rewrite (bool_decide_false (part :: parts = [])) by done. cbn [head].
  rewrite (bool_decide_false (Some part = Some dotdot_name)) by congruence.
  rewrite (proj2 (check_components_leaves _) Hl).
  assert (Hc : c = join slash (part :: parts)) by (by rewrite <- E, join_Split).
  destruct part as [|x part]; [done|]. rewrite not_elem_of_cons in H4.
  rewrite (bool_decide_false (head c = Some slash)), (bool_decide_false (c = [])); [done|..];
    rewrite Hc; destruct parts; cbn; naive_solver.
Qed.

(** C36: a volume path stays in the volume.  What [CleanPath] answers is the
    root or a sequence of leaf names, none of them empty, a dot, a double dot
    or with a slash or a NUL inside; those paths are exactly the ones it leaves
    as they are, so cleaning again changes nothing. *)
Theorem clean_path_confined (p c : list Z) :
  CleanPath p = Ok c →
  (c = [] ∨ Forall leaf (Split slash c)) ∧ CleanPath c = Ok c
  ∧ ∀ q, q = [] ∨ Forall leaf (Split slash q) → CleanPath q = Ok q.
Proof.
  intros H. assert (Hc : c = [] ∨ Forall leaf (Split slash c)).
  { revert H. unfold CleanPath. repeat case_bool_decide; try done; try (intros [= <-]; by left).
    destruct (check_components _) eqn:E; [done|]. intros [= <-]. right. by apply check_components_leaves. }
  assert (Hq : ∀ q, q = [] ∨ Forall leaf (Split slash q) → CleanPath q = Ok q).
  { intros q [->|Hq]; [done|by apply CleanPath_leaves]. }
  split; [done|]. split; [by apply Hq|done].
Qed.

(** [a/./b//../c] is [a/c]. *)
Lemma clean_path_confined_witness :
  CleanPath [97; 47; 46; 47; 98; 47; 47; 46; 46; 47; 99] = Ok [97; 47; 99]
  ∧ CleanPath [97; 47; 99] = Ok [97; 47; 99].
Proof.
  split; [vm_compute; reflexivity|].
  apply (clean_path_confined [97; 47; 46; 47; 98; 47; 47; 46; 46; 47; 99]). vm_compute. reflexivity.
Defined.
