(* ===== verification/Measure.v ===== *)
(** * Measuring a volume

    The walk of [packages/storage/limited/limited.go] that sums what a volume
    holds, with its two byte bounds, and [measureUsage] of [usage.go].  The
    backing volume is a parameter: what its [ListBounded] adds for a directory
    and how it ends.  Sizes of Go structs are those of a 64-bit platform. *)

From S2P Require Import Prelude Bytes Errors Metadata Attributes Listing Paths.

(** ** Definitions *)

Definition MinLimit : Z := 4096.
Definition DefaultMaxDirectoryBytes : Z := Z.shiftl 64 20.
Definition DefaultMaxFrontierBytes : Z := Z.shiftl 64 20.

(** [unsafe.Sizeof] of [measurementFrontierNode] (a string and a pointer) and
    of [storage.Entry]. *)
Definition measurementFrontierNodeBytes : Z := 24.
Definition entry_sizeof : Z := 128.

Record MeasurementLimits := { ml_MaxDirectoryBytes : Z; ml_MaxFrontierBytes : Z }.

Definition Effective (l : MeasurementLimits) : result MeasurementLimits :=
  let directory := if ml_MaxDirectoryBytes l =? 0 then DefaultMaxDirectoryBytes
                   else ml_MaxDirectoryBytes l in
  let frontier := if ml_MaxFrontierBytes l =? 0 then DefaultMaxFrontierBytes
                  else ml_MaxFrontierBytes l in
  if (directory <? 0) || (directory =? 0) || (directory =? MaxInt64) then Err (Wrapped (Errno EINVAL))
  else if (frontier <? measurementFrontierNodeBytes) || (frontier =? MaxInt64)
  then Err (Wrapped (Errno EINVAL))
  else Ok {| ml_MaxDirectoryBytes := directory; ml_MaxFrontierBytes := frontier |}.

Definition measurementEntryBytes : entry_charge := λ _ nameBytes metadataBytes _,
  match MetadataRetentionBytes metadataBytes with
  | Err err => Err err
  | Ok retained =>
      let fixed := entry_sizeof + retained in
      if MaxInt64 - fixed <? nameBytes then Err (Wrapped (Errno EOVERFLOW)) else Ok (fixed + nameBytes)
  end.

Definition measurementPathBytes (dir name : list Z) : result Z :=
  if bool_decide (name = []) then
    if bool_decide (dir = []) then Ok 0 else Err (Wrapped (Errno EIO))
  else if bool_decide (name = dot_name) || bool_decide (name = dotdot_name)
          || existsb (Z.eqb slash) name
  then Err (Wrapped (Errno EIO))
  else
    let separator := if bool_decide (dir = []) then 0 else 1 in
    if MaxInt64 - zlen dir - separator <? zlen name then Err (Wrapped (Errno EOVERFLOW))
    else Ok (zlen dir + separator + zlen name).

Definition measurementPath (dir name : list Z) : result (list Z) :=
  match measurementPathBytes dir name with
  | Err err => Err err
  | Ok _ => Ok (if bool_decide (dir = []) then name else dir ++ slash :: name)
  end.

(** The linked stack of directories still to be visited. *)
Record measurementFrontier := { mf_head : list (list Z); mf_used : Z; mf_maxBytes : Z }.

Definition frontier_add (f : measurementFrontier) (dir name : list Z) : result measurementFrontier :=
  match measurementPathBytes dir name with
  | Err err => Err err
  | Ok joinedBytes =>
      if MaxInt64 - measurementFrontierNodeBytes <? joinedBytes then Err (Wrapped (Errno EOVERFLOW))
      else
        let charge := measurementFrontierNodeBytes + joinedBytes in
        if mf_maxBytes f - mf_used f <? charge then Err (Wrapped (Errno EIO))
        else match measurementPath dir name with
        | Err err => Err err
        | Ok joined => Ok {| mf_head := joined :: mf_head f; mf_used := mf_used f + charge;
                             mf_maxBytes := mf_maxBytes f |}
        end
  end.

Definition newMeasurementFrontier (maxBytes : Z) : result measurementFrontier :=
  frontier_add {| mf_head := []; mf_used := 0; mf_maxBytes := maxBytes |} [] [].

(** [frontier.release(current)] *)
Definition frontier_release (f : measurementFrontier) (path : list Z) : measurementFrontier :=
  {| mf_head := mf_head f; mf_used := mf_used f - (measurementFrontierNodeBytes + zlen path);
     mf_maxBytes := mf_maxBytes f |}.

(** What the walk uses of a [storage.BoundedStorage]: [CheckBounded], and the
    entries [ListBounded] adds for a path with the error it ends with. *)
Record bounded_volume := {
  bv_CheckBounded : option error; bv_List : list Z → list Entry * option error }.

(** [measurementCanceled]; [k] counts the calls of [ctx.Err()]. *)
Definition measurementCanceled (ctx : context) (k : nat) : option error := Wrapped <$> ctx k.

(** The loop over the entries of one directory. *)
Fixpoint measure_entries (ctx : context) (k : nat) (dir : list Z) (entries : list Entry)
    (frontier : measurementFrontier) (total : Z) : result (nat * measurementFrontier * Z) :=
  match entries with
  | [] => Ok (k, frontier, total)
  | e :: entries =>
      match measurementCanceled ctx k with
      | Some err => Err err
      | None =>
          if IsDir (en_Attr e) then
            match frontier_add frontier dir (en_Name e) with
            | Err err => Err err
            | Ok frontier => measure_entries ctx (S k) dir entries frontier total
            end
          else
            match measurementPathBytes dir (en_Name e) with
            | Err err => Err err
            | Ok _ =>
                if at_Size (en_Attr e) <? 0 then Err (Wrapped (Errno EIO))
                else if MaxInt64 - total <? at_Size (en_Attr e) then Err (Wrapped (Errno EOVERFLOW))
                else measure_entries ctx (S k) dir entries frontier (total + at_Size (en_Attr e))
            end
      end
  end.

(** The listing of one directory: [NewListResult], [ListBounded], [Entries]
    and the checks of the context between them. *)
Definition measure_listing (ctx : context) (k : nat) (s : bounded_volume) (limits : MeasurementLimits)
    (dir : list Z) : option (result (nat * list Entry)) :=
  match NewListResult (ml_MaxDirectoryBytes limits) 0 measurementEntryBytes with
  | Err err => Some (Err (Wrapped err))
  | Ok r =>
      match produce (bv_List s dir).1 (bv_List s dir).2 r with
      | None => None
      | Some (Some err, _) => Some (Err (Wrapped err))
      | Some (None, r) =>
          match measurementCanceled ctx k with
          | Some err => Some (Err err)
          | None =>
              match Entries r with
              | None => None
              | Some (Err err, _) => Some (Err (Wrapped err))
              | Some (Ok entries, _) =>
                  match measurementCanceled ctx (S k) with
                  | Some err => Some (Err err)
                  | None => Some (Ok (S (S k), entries))
                  end
              end
          end
      end
  end.

(** The walk; [None] is a panic or the end of the fuel, one per directory. *)
Fixpoint measure_loop (fuel : nat) (ctx : context) (k : nat) (s : bounded_volume)
    (limits : MeasurementLimits) (frontier : measurementFrontier) (total : Z) : option (result Z) :=
  match mf_head frontier with
  | [] => Some (Ok total)
  | dir :: head =>
      match fuel with
      | O => None
      | S fuel =>
          match measurementCanceled ctx k with
          | Some err => Some (Err err)
          | None =>
              let frontier := {| mf_head := head; mf_used := mf_used frontier;
                                 mf_maxBytes := mf_maxBytes frontier |} in
              match measure_listing ctx (S k) s limits dir with
              | None => None
              | Some (Err err) => Some (Err err)
              | Some (Ok (k, entries)) =>
                  match measure_entries ctx k dir entries frontier total with
                  | Err err => Some (Err err)
                  | Ok (k, frontier, total) =>
                      measure_loop fuel ctx k s limits (frontier_release frontier dir) total
                  end
              end
          end
      end
  end.

Definition measure (fuel : nat) (ctx : context) (s : bounded_volume) (limits : MeasurementLimits)
  : option (result Z) :=
  match bv_CheckBounded s with
  | Some err => Some (Err (Wrapped err))
  | None =>
      match newMeasurementFrontier (ml_MaxFrontierBytes limits) with
      | Err err => Some (Err err)
      | Ok frontier => measure_loop fuel ctx 0 s limits frontier 0
      end
  end.

(** [measureUsage]: [usage] is the backing's [Usage], when it has one, and
    [files] its [CheckFileStorage], when it is a [FileStorage]. *)
Definition measureUsage (fuel : nat) (ctx : context) (usage : option (result Z))
    (files : option (option error)) (s : bounded_volume) (limits : MeasurementLimits)
  : option (result Z) :=
  let walk :=
    match files with
    | Some None => Some (Err (Wrapped (Errno EOPNOTSUPP)))
    | Some (Some (Errno EOPNOTSUPP)) | None => measure fuel ctx s limits
    | Some (Some err) => Some (Err err)
    end in
  match usage with
  | Some (Ok count) => Some (if count <? 0 then Err (Wrapped (Errno EIO)) else Ok count)
  | Some (Err (Errno ENOSYS)) | Some (Err (Errno EOPNOTSUPP)) | None => walk
  | Some (Err err) => Some (Err err)
  end.

(** ** Finite volumes

    [directory s dir size count peak]: the tree below [dir] is finite; its files
    and links hold [size] bytes, [count] directories are in it, and the frontier
    of a walk over it, which visits the last listed child first and keeps a
    directory charged until all its children are, grows to [peak] bytes.
    [contents s dir entries size count weight peak]: the same for listed entries
    of [dir], whose directories take [weight] bytes of frontier together. *)

Definition joined (dir name : list Z) : list Z :=
  if bool_decide (dir = []) then name else dir ++ slash :: name.

Definition child_name (name : list Z) : Prop :=
  name ≠ [] ∧ name ≠ dot_name ∧ name ≠ dotdot_name ∧ existsb (Z.eqb slash) name = false.

Definition own_bytes (path : list Z) : Z := measurementFrontierNodeBytes + zlen path.

Inductive directory (s : bounded_volume) : list Z → Z → nat → Z → Prop :=
| Directory dir entries size count weight inner peak :
    bv_List s dir = (entries, None) →
    contents s dir (merge_sort name_before entries) size count weight inner →
    peak = Z.max (own_bytes dir + weight) inner →
    directory s dir size (S count) peak
with contents (s : bounded_volume) : list Z → list Entry → Z → nat → Z → Z → Prop :=
| No_entries dir : contents s dir [] 0 0 0 0
| Child_directory dir e entries s1 n1 p1 s2 n2 w2 p2 size count weight peak :
    IsDir (en_Attr e) = true → child_name (en_Name e) → zlen (joined dir (en_Name e)) <= MaxInt64 →
    directory s (joined dir (en_Name e)) s1 n1 p1 → contents s dir entries s2 n2 w2 p2 →
    size = s1 + s2 → count = (n1 + n2)%nat → weight = own_bytes (joined dir (en_Name e)) + w2 →
    peak = Z.max p1 (own_bytes (joined dir (en_Name e)) + p2) →
    contents s dir (e :: entries) size count weight peak
| Child_file dir e entries s2 size count weight peak :
    IsDir (en_Attr e) = false → child_name (en_Name e) → zlen (joined dir (en_Name e)) <= MaxInt64 →
    0 <= at_Size (en_Attr e) → contents s dir entries s2 count weight peak →
    size = at_Size (en_Attr e) + s2 → contents s dir (e :: entries) size count weight peak.

Fixpoint own (paths : list (list Z)) : Z :=
  match paths with [] => 0 | p :: paths => own_bytes p + own paths end.

(** Directories that are on the stack, and how far the frontier will grow. *)
Inductive stacked (s : bounded_volume) : list (list Z) → Z → nat → Z → Prop :=
| Stacked_nil : stacked s [] 0 0 0
| Stacked_cons p ps s1 n1 p1 s2 n2 p2 size count peak :
    directory s p s1 n1 p1 → stacked s ps s2 n2 p2 →
    size = s1 + s2 → count = (n1 + n2)%nat → peak = Z.max (p1 + own ps) p2 →
    stacked s (p :: ps) size count peak.

Scheme directory_mut := Minimality for directory Sort Prop
  with contents_mut := Minimality for contents Sort Prop.
Combined Scheme volume_ind from directory_mut, contents_mut.

Lemma own_bytes_pos path : 0 < own_bytes path.
Proof. unfold own_bytes, measurementFrontierNodeBytes. pose proof (zlen_nonneg path). lia. Qed.

Lemma volume_bounds s :
  (∀ dir size count peak, directory s dir size count peak → 0 <= size ∧ own_bytes dir <= peak)
  ∧ ∀ dir entries size count weight peak,
      contents s dir entries size count weight peak → 0 <= size ∧ 0 <= weight ∧ 0 <= peak.
Proof.
  apply volume_ind; intros; subst; try lia.
  pose proof (own_bytes_pos (joined dir (en_Name e))). lia.
Qed.

(** ** Frontier *)

Lemma path_bytes dir name :
  child_name name → zlen (joined dir name) <= MaxInt64 →
  measurementPathBytes dir name = Ok (zlen (joined dir name)).
Proof.
  intros (H1 & H2 & H3 & H4) Hl. unfold measurementPathBytes, joined in *.
  rewrite !(bool_decide_false (name = _)) by done. rewrite H4. cbn [orb].
  case_bool_decide as Hd; subst; rewrite ?zlen_nil, ?zlen_app, ?zlen_cons in *;
    match goal with |- context [?b <? zlen name] => destruct (Z.ltb_spec b (zlen name)) end;
    try lia; f_equal; lia.
Qed.

Lemma frontier_add_spec f dir name :
  child_name name → zlen (joined dir name) <= MaxInt64 →
  match frontier_add f dir name with
  | Ok f' => mf_head f' = joined dir name :: mf_head f ∧ mf_maxBytes f' = mf_maxBytes f
             ∧ mf_used f' = mf_used f + own_bytes (joined dir name) ∧ mf_used f' <= mf_maxBytes f
  | Err _ => MaxInt64 < own_bytes (joined dir name)
             ∨ mf_maxBytes f < mf_used f + own_bytes (joined dir name)
  end.
Proof.
  intros Hn Hl. unfold frontier_add, measurementPath. rewrite (path_bytes dir name) by done. unfold own_bytes.
  destruct (Z.ltb_spec (MaxInt64 - measurementFrontierNodeBytes) (zlen (joined dir name))); [left; lia|].
  destruct (Z.ltb_spec (mf_maxBytes f - mf_used f) (measurementFrontierNodeBytes + zlen (joined dir name)));
    [right; lia|]. cbn. split_and!; [done..|lia].
Qed.

(** ** The walk *)

Section walk.
Context (ctx : context) (s : bounded_volume) (limits : MeasurementLimits).

(** Nothing stands in the way: the context lives and every listing fits. *)
Definition unhindered : Prop :=
  (∀ k, ctx k = None) ∧ 0 <= ml_MaxDirectoryBytes limits
  ∧ ∀ dir, retained measurementEntryBytes [] 0 (ml_MaxDirectoryBytes limits) (bv_List s dir).1 ≠ None.

Lemma stacked_bounds ps size count peak :
  stacked s ps size count peak → 0 <= size ∧ 0 <= own ps <= peak.
Proof.
  induction 1 as [|p ps s1 n1 p1 s2 n2 p2 ? ? ? Hd _ [IH1 IH2]]; subst; cbn [own]; [lia|].
  apply (proj1 (volume_bounds s)) in Hd. pose proof (own_bytes_pos p). lia.
Qed.

Lemma retained_plain entryBytes entries : ∀ index room kept,
  retained entryBytes [] index room entries = Some kept → kept = entries.
Proof.
  induction entries as [|e entries IH]; intros index room kept; cbn [retained]; [by intros [= <-]|].
  destruct (priced _ _ _ _) as [[c kept']|] eqn:Ep; cbn [mbind option_bind fst snd]; [|done].
  destruct (room <? c); [done|]. destruct (retained _ _ _ _ _) as [rest|] eqn:Er; cbn [mbind option_bind]; [|done].
  intros [= <-]. rewrite (IH _ _ _ Er). f_equal. revert Ep. unfold priced.
  destruct (metadataSize _); [|done]. cbn [rev project_loop mbind option_bind].
  destruct (entryBytes _ _ _ _) as [c'|]; [|done]. destruct (c' <? 0); [done|].
  intros [= _ <-]. by destruct e as [n []].
Qed.

Lemma measure_listing_spec k dir entries :
  bv_List s dir = (entries, None) →
  match measure_listing ctx k s limits dir with
  | None => False
  | Some (Err _) => ¬ unhindered
  | Some (Ok (_, listed)) => listed = merge_sort name_before entries
  end.
Proof.
  intros Hl. unfold measure_listing, NewListResult, unhindered. rewrite Hl. cbn [fst snd].
  destruct (ml_MaxDirectoryBytes limits <? 0) eqn:E0; bool_prop; [naive_solver lia|].
  change (0 <? 0) with false. cbn [orb].
  match goal with |- context [produce _ _ ?r] =>
    change r with (listing measurementEntryBytes [] (ml_MaxDirectoryBytes limits) 0 false []) end.
  pose proof (produce_spec measurementEntryBytes [] entries None (ml_MaxDirectoryBytes limits) 0 false []
                ltac:(done)) as HP.
  rewrite zlen_nil, Z.sub_0_r in HP. cbn [app] in HP.
  destruct (retained _ _ _ _ entries) as [kept|] eqn:Er.
  2:{ destruct HP as (err & r & E & _). rewrite E. intros (_ & _ & H'). apply (H' dir). by rewrite Hl. }
  destruct HP as (used & _ & E). rewrite E. apply retained_plain in Er as ->.
  unfold measurementCanceled. destruct (ctx k) eqn:Ek; cbn [fmap option_fmap option_map];
    [intros [H' _]; by rewrite H' in Ek|].
  cbn. destruct (ctx (S k)) eqn:Ek'; cbn; [intros [H' _]; by rewrite H' in Ek'|]. done.
Qed.

Lemma measure_entries_spec dir entries size count weight inner :
  contents s dir entries size count weight inner → ∀ k f total base s0 n0 p0,
  stacked s (mf_head f) s0 n0 p0 → mf_used f = base + own (mf_head f) → 0 <= base →
  match measure_entries ctx k dir entries f total with
  | Ok (_, f', total') =>
      ∃ s1, stacked s (mf_head f') s1 (count + n0) (Z.max (inner + own (mf_head f)) p0)
        ∧ mf_used f' = base + own (mf_head f') ∧ own (mf_head f') = weight + own (mf_head f)
        ∧ mf_maxBytes f' = mf_maxBytes f ∧ total' + s1 = total + size + s0
        ∧ (mf_used f <= mf_maxBytes f → mf_used f' <= mf_maxBytes f)
  | Err _ => unhindered → total + size <= MaxInt64 → mf_maxBytes f <= MaxInt64 →
             mf_maxBytes f < base + weight + own (mf_head f)
  end.
Proof.
  induction entries as [|e entries IH] in size, count, weight, inner |- *;
    intros Hc k f total base s0 n0 p0 Hs Hu Hb; pose proof (stacked_bounds _ _ _ _ Hs) as Hst;
    inversion Hc as [|? ? ? s1 n1 p1 s2 n2 w2 p2 ? ? ? ? Hd Hn Hl Hsub Hrest|? ? ? s2 ? ? ? ? Hd Hn Hl Hsz Hrest];
    subst; cbn [measure_entries].
  { exists s0. rewrite Z.max_r by lia. split_and!; try done; lia. }
  all: unfold measurementCanceled; destruct (ctx k) eqn:Ek; cbn [fmap option_fmap option_map];
    [intros [H' _]; by rewrite H' in Ek|]; rewrite Hd.
  - pose proof (proj1 (volume_bounds s) _ _ _ _ Hsub). pose proof (proj2 (volume_bounds s) _ _ _ _ _ _ Hrest).
    pose proof (own_bytes_pos (joined dir (en_Name e))).
    pose proof (frontier_add_spec f dir (en_Name e) Hn Hl) as Hadd.
    destruct (frontier_add f dir (en_Name e)) as [f1|err]; [|lia].
    destruct Hadd as (Hh & Hm & Hused & Hfits).
    specialize (IH _ _ _ _ Hrest (S k) f1 total base (s1 + s0) (n1 + n0)%nat
      (Z.max (p1 + own (mf_head f)) p0)). rewrite Hh in IH. cbn [own] in IH.
    assert (stacked s (joined dir (en_Name e) :: mf_head f) (s1 + s0) (n1 + n0)
      (Z.max (p1 + own (mf_head f)) p0)) as Hs1 by (by eapply Stacked_cons).
    specialize (IH Hs1 ltac:(lia) Hb). rewrite Hm in IH.
    destruct (measure_entries _ _ _ _ _ _) as [[[k' f'] total']|err];
      [|intros Hun ??; specialize (IH Hun); lia].
    destruct IH as (s3 & I1 & I2 & I3 & I4 & I5 & I6). exists s3.
    replace (n1 + n2 + n0)%nat with (n2 + (n1 + n0))%nat by lia.
    replace (Z.max (Z.max p1 (own_bytes (joined dir (en_Name e)) + p2) + own (mf_head f)) p0)
      with (Z.max (p2 + (own_bytes (joined dir (en_Name e)) + own (mf_head f)))
              (Z.max (p1 + own (mf_head f)) p0)) by lia.
    split_and!; try done; lia.
  - rewrite (path_bytes dir (en_Name e)) by done. destruct (Z.ltb_spec (at_Size (en_Attr e)) 0); [lia|].
    pose proof (proj2 (volume_bounds s) _ _ _ _ _ _ Hrest).
    destruct (Z.ltb_spec (MaxInt64 - total) (at_Size (en_Attr e))); [intros; lia|].
    specialize (IH _ _ _ _ Hrest (S k) f (total + at_Size (en_Attr e)) base s0 n0 p0 Hs Hu Hb).
    destruct (measure_entries _ _ _ _ _ _) as [[[k' f'] total']|err].
    + destruct IH as (s3 & I1 & I2 & I3 & I4 & I5 & I6). exists s3. split_and!; try done; lia.
    + intros. apply IH; [done|lia..].
Qed.

Lemma measure_loop_spec fuel : ∀ k f total size count peak,
  stacked s (mf_head f) size count peak → mf_used f = own (mf_head f) → (count <= fuel)%nat →
  mf_used f <= mf_maxBytes f →
  ∃ r, measure_loop fuel ctx k s limits f total = Some r
    ∧ (∀ v, r = Ok v → v = total + size ∧ peak <= mf_maxBytes f)
    ∧ (unhindered → total + size <= MaxInt64 → mf_maxBytes f <= MaxInt64 → peak <= mf_maxBytes f →
       r = Ok (total + size)).
Proof.
  induction fuel as [|fuel IH]; intros k f total size count peak Hs Hu Hf Hfit;
    inversion Hs as [E|p ps s1 n1 p1 s2 n2 p2 ? ? ? Hd Hrest ? ? ? E]; subst.
  1,3: exists (Ok total); rewrite Z.add_0_r; cbn [measure_loop]; rewrite <- E in *; cbn [own] in Hu;
    split; [done|]; split; [intros v [= <-]; split; [done|lia]|done].
  { inversion Hd; subst. lia. }
  cbn [measure_loop]. rewrite <- E in *. cbn [own] in Hu. unfold measurementCanceled.
  destruct (ctx k) eqn:Ek; cbn [fmap option_fmap option_map].
  { eexists. split; [done|]. split; [done|]. intros [H' _]. by rewrite H' in Ek. }
  inversion Hd as [? entries ? n w inner ? Hl Hc]; subst.
  pose proof (measure_listing_spec (S k) p entries Hl) as Hlist.
  destruct (measure_listing _ _ _ _ _) as [[[k1 listed]|err]|]; [subst listed|eexists; split; [done|]; done|done].
  set (f0 := {| mf_head := ps; mf_used := mf_used f; mf_maxBytes := mf_maxBytes f |}).
  pose proof (own_bytes_pos p) as Hpos. pose proof (stacked_bounds _ _ _ _ Hrest) as Hsb.
  pose proof (measure_entries_spec _ _ _ _ _ _ Hc k1 f0 total (own_bytes p) s2 n2 p2 Hrest Hu ltac:(lia)) as Hent.
  cbn [f0 mf_head mf_used mf_maxBytes] in Hent.
  destruct (measure_entries _ _ _ _ _ _) as [[[k2 f2] total2]|err].
  - destruct Hent as (s3 & H1 & H2 & H3 & H4 & H5 & H6). specialize (H6 Hfit).
    destruct (IH k2 (frontier_release f2 p) total2 s3 (n + n2)%nat (Z.max (inner + own ps) p2))
      as (r & Er & Hr & Hg); [done|cbn; unfold own_bytes in *; lia|lia|cbn; unfold own_bytes in *; lia|].
    cbn [frontier_release mf_maxBytes] in Hr, Hg. rewrite H4 in Hr, Hg.
    exists r. split; [done|]. split; [intros v Hv; destruct (Hr v Hv); lia|].
    intros Hun Hsz Hmax Hw. rewrite Hg; [f_equal; lia|done|lia..].
  - eexists. split; [done|]. split; [done|]. intros Hun Hsz Hmax Hw. exfalso.
    specialize (Hent Hun ltac:(lia) Hmax). lia.
Qed.
End walk.

(** C26: the walk measures the volume.  On a finite tree of well-formed names,
    with one unit of fuel per directory, the walk ends; an answer it gives is
    the sum of the sizes of all files and links in the tree, and nothing else,
    and is given only when the frontier stayed within its bound: what it holds
    at most is the peak of a walk that visits the last listed child first and
    gives a directory's bytes back once its children are charged.  It gives that
    answer whenever the context lives, the sum is a byte count, every listing
    fits its bound and that peak fits the bound of the frontier. *)
Theorem measure_exact (ctx : context) (s : bounded_volume) (limits : MeasurementLimits)
    (size : Z) (count : nat) (peak : Z) (fuel : nat) :
  bv_CheckBounded s = None → directory s [] size count peak → (count <= fuel)%nat →
  ∃ r, measure fuel ctx s limits = Some r
    ∧ (∀ v, r = Ok v → v = size ∧ peak <= ml_MaxFrontierBytes limits)
    ∧ (unhindered ctx s limits → size <= MaxInt64 →
       peak <= ml_MaxFrontierBytes limits <= MaxInt64 → r = Ok size).
Proof.
  intros Hb Hd Hf. unfold measure. rewrite Hb. unfold newMeasurementFrontier, frontier_add.
  cbn [measurementPathBytes bool_decide decide mf_maxBytes mf_used mf_head].
  change (measurementPathBytes [] []) with (@Ok Z 0). cbn beta iota.
  change (MaxInt64 - measurementFrontierNodeBytes <? 0) with false. cbn beta iota.
  rewrite Z.add_0_r, Z.sub_0_r. change (measurementPath [] []) with (@Ok (list Z) []).
  pose proof (proj1 (volume_bounds s) _ _ _ _ Hd) as Hbd. change (own_bytes []) with 24 in Hbd.
  destruct (Z.ltb_spec (ml_MaxFrontierBytes limits) measurementFrontierNodeBytes) as [Hlt|Hge];
    unfold measurementFrontierNodeBytes in *.
  { eexists. split; [done|]. split; [done|]. intros _ _ Hw. lia. }
  destruct (measure_loop_spec ctx s limits fuel 0
              {| mf_head := [[]]; mf_used := measurementFrontierNodeBytes;
                 mf_maxBytes := ml_MaxFrontierBytes limits |} 0 size count peak) as (r & E & Hr & Hg).
  - eapply Stacked_cons; [done|constructor|lia..|cbn [own]; lia].
  - done.
  - done.
  - done.
  - exists r. split; [done|]. split; [intros v Hv; destruct (Hr v Hv); split; [lia|done]|].
    intros Hun Hsz [??]. by apply Hg.
Qed.

(** A file of five bytes beside a directory with a link of two. *)
Definition example_volume : bounded_volume := {|
  bv_CheckBounded := None;
  bv_List dir :=
    if bool_decide (dir = []) then
      ([{| en_Name := [98]; en_Attr := bare_attr 2 NodeRegular 5 |};
        {| en_Name := [97]; en_Attr := bare_attr 3 NodeDirectory 0 |}], None)
    else if bool_decide (dir = [97]) then
      ([{| en_Name := [98]; en_Attr := bare_attr 4 NodeSymlink 2 |}], None)
    else ([], Some (Errno ENOENT)) |}.

Lemma measure_exact_witness :
  measure 2 (λ _, None) example_volume
    {| ml_MaxDirectoryBytes := 4096; ml_MaxFrontierBytes := 64 |} = Some (Ok 7)
  ∧ ∀ v, Some (Ok v) = measure 2 (λ _, None) example_volume
           {| ml_MaxDirectoryBytes := 4096; ml_MaxFrontierBytes := 64 |} → v = 7.
Proof.
  split; [vm_compute; reflexivity|].
  destruct (measure_exact (λ _, None) example_volume
              {| ml_MaxDirectoryBytes := 4096; ml_MaxFrontierBytes := 64 |} 7 2 49 2)
    as (r & E & Hr & _); [done| |done|].
  - apply (Directory _ [] [{| en_Name := [98]; en_Attr := bare_attr 2 NodeRegular 5 |};
      {| en_Name := [97]; en_Attr := bare_attr 3 NodeDirectory 0 |}] 7 1 25 25); [done| |done].
    eapply (Child_directory _ _ _ _ 2 1%nat 25 5 0%nat 0 0); [done|done|vm_compute; done| | |done..].
    + apply (Directory _ [97] [{| en_Name := [98]; en_Attr := bare_attr 4 NodeSymlink 2 |}] 2 0 0 0);
        [done| |done].
      eapply Child_file; [done|done|vm_compute; done|vm_compute; done|constructor|done].
    + eapply Child_file; [done|done|vm_compute; done|vm_compute; done|constructor|done].
  - intros v Hv. rewrite E in Hv. injection Hv as <-. by apply Hr.
Defined.
