(* ===== verification/Publication.v ===== *)
(** * Publication accounting

    [packages/storage/publication.go]: wrappers attach hooks to a request, the
    backend runs them under its final publication ordering with the actual byte
    counts, and settles what they prepared once it knows the outcome.  A hook is
    a computation over the store [S] its closures share; attached hooks are
    listed newest first, as the links of the context are. *)

From S2P Require Import Prelude Errors.

(** ** Definitions *)

(** [PublicationResult], a [uint8]. *)
Definition PublicationNotApplied : Z := 1.
Definition PublicationApplied : Z := 2.
Definition PublicationUnknown : Z := 3.

Section accounting.
Context {S : Type}.

(** [None] is a nil error. *)
Definition PublicationSettlement : Type := Z → comp S (option error).
Definition PublicationAccounting : Type :=
  Z → Z → comp S (option PublicationSettlement * option error).

(** The loop of [settlePublication], last prepared first. *)
Fixpoint settle_loop (settlements : list PublicationSettlement) (result : Z) : comp S (list error) :=
  match settlements with
  | [] => ret []
  | settle :: settlements =>
      let! err := settle result in
      let! failures := settle_loop settlements result in
      ret (match err with Some err => err :: failures | None => failures end)
  end.

(** [settlements] are in the order of preparation. *)
Definition settlePublication (settlements : list PublicationSettlement) (result : Z)
  : comp S (option error) :=
  let! failures := settle_loop (rev settlements) result in
  let failures := if result =? PublicationUnknown then Errno EIO :: failures else failures in
  ret (match failures with [] => None | _ => Some (Uncertain (Joined failures)) end).

(** [errors.Join(err, settlePublication(settlements, PublicationNotApplied))] *)
Definition unwind (settlements : list PublicationSettlement) (err : error) : comp S error :=
  let! failed := settlePublication settlements PublicationNotApplied in
  ret (Joined (err :: option_list failed)).

(** The loop over the hooks, in registration order; [k] counts the calls of
    [ctx.Err()]. *)
Fixpoint prepare_loop (ctx : context) (k : nat) (hooks : list PublicationAccounting)
    (settlements : list PublicationSettlement) (previous next : Z)
  : comp S (result (list PublicationSettlement)) :=
  match ctx k with
  | Some err => let! err := unwind settlements err in ret (Err err)
  | None =>
      match hooks with
      | [] => ret (Ok settlements)
      | hook :: hooks =>
          let! answer := hook previous next in
          let settlements := settlements ++ option_list answer.1 in
          match answer with
          | (_, Some err) => let! err := unwind settlements err in ret (Err err)
          | (None, None) => let! err := unwind settlements (Wrapped (Errno EIO)) in ret (Err err)
          | (Some _, None) => prepare_loop ctx (Datatypes.S k) hooks settlements previous next
          end
      end
  end.

(** The closure [PreparePublication] returns, with its [consumed]. *)
Record prepared := { pp_settlements : list PublicationSettlement; pp_consumed : bool }.

Definition PreparePublication (ctx : context) (hooks : list PublicationAccounting)
    (previous next : Z) : comp S (result prepared) :=
  if (previous <? 0) || (next <? 0) then ret (Err (Wrapped (Errno EINVAL)))
  else match ctx 0%nat with
  | Some err => ret (Err err)
  | None =>
      let! settlements := prepare_loop ctx 1 (rev hooks) [] previous next in
      ret (match settlements with
           | Err err => Err err
           | Ok settlements => Ok {| pp_settlements := settlements; pp_consumed := false |}
           end)
  end.

(** Running the closure. *)
Definition settle (p : prepared) (result : Z) : comp S (prepared * option error) :=
  if negb (result =? PublicationNotApplied) && negb (result =? PublicationApplied)
     && negb (result =? PublicationUnknown)
  then ret (p, Some (Wrapped (Errno EINVAL)))
  else if pp_consumed p then ret (p, Some (Wrapped (Errno EINVAL)))
  else
    let! err := settlePublication (pp_settlements p) result in
    ret ({| pp_settlements := []; pp_consumed := true |}, err).

Definition valid_result (result : Z) : Prop :=
  result = PublicationNotApplied ∨ result = PublicationApplied ∨ result = PublicationUnknown.

Lemma settle_invalid p result s :
  ¬ valid_result result → settle p result s = Some ((p, Some (Wrapped (Errno EINVAL))), s).
Proof.
  intros Hv. unfold settle, valid_result in *.
  destruct (Z.eqb_spec result PublicationNotApplied), (Z.eqb_spec result PublicationApplied),
    (Z.eqb_spec result PublicationUnknown); tauto.
Qed.

Lemma settle_valid settlements result s err s' :
  valid_result result → settlePublication settlements result s = Some (err, s') →
  settle {| pp_settlements := settlements; pp_consumed := false |} result s
  = Some (({| pp_settlements := []; pp_consumed := true |}, err), s').
Proof. intros [->|[->| ->]] E; unfold settle, bind; cbn; by rewrite E. Qed.

(** ** What a hook promises

    The contract of [PublicationAccounting]: on every state that satisfies [I]
    a hook answers, a refusal without a settlement has no effect, and a
    settlement as not applied takes the preparation back.  [R] relates the
    states that are the same to the accounting. *)

Definition restores (I : S → Prop) (R : S → S → Prop) (settle : PublicationSettlement) (s s' : S) : Prop :=
  ∀ s2, I s2 → R s' s2 → ∃ s3, settle PublicationNotApplied s2 = Some (None, s3) ∧ I s3 ∧ R s s3.

Class Undoable (I : S → Prop) (R : S → S → Prop) (hook : PublicationAccounting) : Prop :=
  hook_undo previous next s :
    0 <= previous <= MaxInt64 → 0 <= next <= MaxInt64 → I s →
    ∃ answer s', hook previous next s = Some (answer, s') ∧ I s'
      ∧ match answer.1 with
        | Some settle => restores I R settle s s'
        | None => R s s'
        end.

Section contract.
Context (I : S → Prop) (R : S → S → Prop) `{!Equivalence R}.

(** Settlements that take everything back to [s], from any state like [s']. *)
Definition restorable (settlements : list PublicationSettlement) (s s' : S) : Prop :=
  ∀ s2, I s2 → R s' s2 →
  ∃ s3, settlePublication settlements PublicationNotApplied s2 = Some (None, s3) ∧ I s3 ∧ R s s3.

Lemma restorable_nil s s' : R s s' → restorable [] s s'.
Proof. intros HR s2 H2 HR2. exists s2. split; [done|]. split; [done|]. by etrans. Qed.

Lemma restorable_snoc settlements settle s s1 s' :
  restorable settlements s s1 → restores I R settle s1 s' → restorable (settlements ++ [settle]) s s'.
Proof.
  intros Hs H1 s2 H2 HR2. destruct (H1 s2 H2 HR2) as (s3 & E3 & H3 & HR3).
  destruct (Hs s3 H3 HR3) as (s4 & E4 & H4 & HR4). exists s4. split; [|done].
  unfold settlePublication in *. rewrite rev_unit. cbn [settle_loop]. unfold bind in *. rewrite E3.
  destruct (settle_loop (rev settlements) PublicationNotApplied s3) as [[failures s5]|]; [|done].
  done.
Qed.

Lemma restorable_weaken settlements s s1 s' :
  restorable settlements s s1 → R s1 s' → restorable settlements s s'.
Proof. intros Hs HR s2 H2 HR2. apply Hs; [done|]. by etrans. Qed.

Lemma unwind_restores settlements err s s' :
  restorable settlements s s' → I s' →
  ∃ s3, unwind settlements err s' = Some (Joined [err], s3) ∧ I s3 ∧ R s s3.
Proof.
  intros Hs HI. destruct (Hs s' HI) as (s3 & E & H3 & HR); [reflexivity|].
  exists s3. unfold unwind, bind. by rewrite E.
Qed.

Lemma prepare_loop_undo ctx previous next hooks : ∀ k settlements s s',
  0 <= previous <= MaxInt64 → 0 <= next <= MaxInt64 → Forall (Undoable I R) hooks →
  restorable settlements s s' → I s' →
  ∃ r s3, prepare_loop ctx k hooks settlements previous next s' = Some (r, s3) ∧ I s3
    ∧ match r with Err _ => R s s3 | Ok settled => restorable settled s s3 end.
Proof.
  induction hooks as [|hook hooks IH]; intros k settlements s s' Hp Hn Hh Hs HI; cbn [prepare_loop];
    (destruct (ctx k) as [err|];
      [destruct (unwind_restores _ err _ _ Hs HI) as (s3 & E & H3 & HR);
       eexists _, s3; unfold bind; by rewrite E|]).
  { exists (Ok settlements), s'. done. }
  apply Forall_cons in Hh as [Hk Hh].
  destruct (Hk previous next s' Hp Hn HI) as ([st e] & s1 & E1 & H1 & Ha). cbn [fst] in Ha.
  assert (Hs1 : restorable (settlements ++ option_list st) s s1).
  { destruct st as [st|]; cbn [option_list]; [by eapply restorable_snoc|].
    rewrite app_nil_r. by eapply restorable_weaken. }
  unfold bind at 1. rewrite E1. cbn [fst].
  destruct e as [e|]; [|destruct st as [st|]; [by apply IH|]].
  - destruct (unwind_restores _ e _ _ Hs1 H1) as (s3 & E & H3 & HR).
    eexists _, s3. destruct st; unfold bind; by rewrite E.
  - destruct (unwind_restores _ (Wrapped (Errno EIO)) _ _ Hs1 H1) as (s3 & E & H3 & HR).
    eexists _, s3. unfold bind. by rewrite E.
Qed.

(** A publication is prepared in full or not at all. *)
Lemma prepare_undo ctx hooks previous next s :
  previous <= MaxInt64 → next <= MaxInt64 → Forall (Undoable I R) hooks → I s →
  ∃ r s', PreparePublication ctx hooks previous next s = Some (r, s') ∧ I s'
    ∧ match r with
      | Err _ => R s s'
      | Ok p => pp_consumed p = false ∧ restorable (pp_settlements p) s s'
      end.
Proof.
  intros Hp Hn Hh HI. unfold PreparePublication.
  destruct (Z.ltb_spec previous 0); [by eexists _, s|].
  destruct (Z.ltb_spec next 0); [by eexists _, s|]. cbn [orb].
  destruct (ctx 0%nat); [by eexists _, s|].
  destruct (prepare_loop_undo ctx previous next (rev hooks) 1 [] s s) as (r & s3 & E & H3 & Hr);
    [lia|lia| |apply restorable_nil; reflexivity|done|].
  { by apply List.Forall_rev. }
  unfold bind. rewrite E. destruct r; eauto 10.
Qed.
End contract.
End accounting.
Arguments PublicationSettlement : clear implicits.
Arguments PublicationAccounting : clear implicits.
Arguments prepared : clear implicits.
