(* ===== verification/Quota.v ===== *)
(** * A volume under an allowance

    [packages/storage/limited]: the byte count of a volume is charged before a
    publication and settled after it ([limited.go], [publication.go],
    [maintenance.go]); [Recount] replaces it by a measurement.  The state is
    what [countMu] guards; the backing volume is a parameter of the operations
    that call it. *)

From S2P Require Import Prelude Bytes Errors Metadata Attributes Listing Paths Measure Publication.

(** ** Definitions *)

Record Storage := { st_limit : Z; st_count : Z; st_fault : option error; st_revision : Z }.

Definition set_st_count (v : Z) (s : Storage) : Storage :=
  {| st_limit := st_limit s; st_count := v; st_fault := st_fault s; st_revision := st_revision s |}.
Definition set_st_fault (v : option error) (s : Storage) : Storage :=
  {| st_limit := st_limit s; st_count := st_count s; st_fault := v; st_revision := st_revision s |}.
(** [s.revision++] *)
Definition revised (s : Storage) : Storage :=
  {| st_limit := st_limit s; st_count := st_count s; st_fault := st_fault s;
     st_revision := u64 (st_revision s + 1) |}.

Definition floor (count : Z) : Z := Z.max count 0.

Definition reserve (delta : Z) : comp Storage (result Z) :=
  let! s := gets id in
  match st_fault s with
  | Some err => ret (Err err)
  | None =>
      if (0 <? delta) && (i64 (st_limit s - st_count s) <? delta)
      then ret (Err (Wrapped (Wrapped (Errno EDQUOT))))
      else
        let charged := Z.max delta 0 in
        do! modify (λ s, revised (set_st_count (i64 (st_count s + charged)) s)) in
        ret (Ok charged)
  end.

Definition release (delta : Z) : comp Storage unit :=
  modify (λ s, revised (set_st_count (floor (i64 (st_count s - delta))) s)).

Definition taken : comp Storage (Z * option error) := gets (λ s, (st_count s, st_fault s)).
Definition healthy : comp Storage (option error) := gets st_fault.

(** The settlement closure of [preparePublication]. *)
Definition settle_reservation (delta reserved : Z) : PublicationSettlement Storage := λ result,
  if result =? PublicationNotApplied then do! release reserved in ret None
  else if result =? PublicationApplied then
    if delta <? 0 then do! release (i64 (- delta)) in ret None else ret None
  else
    do! modify (λ s, match st_fault s with
                     | None => set_st_fault (Some (Wrapped (Errno EIO))) s
                     | Some _ => s
                     end) in
    gets st_fault.

(** [preparePublication], the hook of [accountingContext] and of
    [maintenanceAccounting]. *)
Definition preparePublication : PublicationAccounting Storage := λ previous next,
  let delta := i64 (next - previous) in
  let! reserved := reserve delta in
  match reserved with
  | Err err => ret (None, Some err)
  | Ok reserved => ret (Some (settle_reservation delta reserved), None)
  end.

Definition publicationError (err : option error) : comp Storage (option error) :=
  match err with
  | None => ret None
  | Some e =>
      if negb (IsPublicationAccountingUncertain e) then ret err
      else
        do! modify (λ s,
              if match st_fault s with Some f => IsPublicationAccountingUncertain f | None => false end
              then s else set_st_fault err s) in
        ret err
  end.

(** The backing volume's side of a mutation: it is given the hooks of its
    context, newest first, and answers with an error. *)
Definition backing_call : Type := list (PublicationAccounting Storage) → comp Storage (option error).

(** A mutation of a healthy volume; [hooks] are those of the caller's context. *)
Definition guarded (backing : backing_call) (hooks : list (PublicationAccounting Storage))
  : comp Storage (option error) :=
  let! fault := healthy in
  match fault with
  | Some err => ret (Some err)
  | None =>
      let! err := backing (preparePublication :: hooks) in
      publicationError err
  end.

(** The methods; [backing] is the backing's method applied to the arguments. *)
Definition Storage_SetAttr := guarded.
Definition Storage_Create := guarded.
Definition Storage_Mkdir := guarded.
Definition Storage_RemoveDir := guarded.

Definition Storage_Write (name : list Z) (backing : backing_call)
    (hooks : list (PublicationAccounting Storage)) : comp Storage (option error) :=
  match CleanPath name with
  | Err err => ret (Some (Wrapped err))
  | Ok _ => guarded backing hooks
  end.

Definition Storage_Remove := Storage_Write.

Definition Storage_Rename (from to : list Z) (backing : backing_call)
    (hooks : list (PublicationAccounting Storage)) : comp Storage (option error) :=
  match CleanPath from, CleanPath to with
  | Err err, _ => ret (Some (Wrapped err))
  | Ok _, Err err => ret (Some (Wrapped err))
  | Ok _, Ok _ => guarded backing hooks
  end.

(** [Storage.Space]; [beneath] is the answer of the backing's [Space]. *)
Definition Storage_Space (beneath : result Space) : comp Storage (result Space) :=
  let! taken := taken in
  let! limit := gets st_limit in
  match taken with
  | (_, Some err) => ret (Err err)
  | (taken, None) =>
      let avail := Z.max (i64 (limit - taken)) 0 in
      ret (match beneath with
           | Err err =>
               if errors_Is err (IsErrno ENOSYS)
               then Ok {| sp_Total := limit; sp_Used := taken; sp_Avail := avail |} else Err err
           | Ok beneath =>
               if negb (Coherent beneath) then Err (Wrapped (Errno EIO))
               else Ok {| sp_Total := limit; sp_Used := taken; sp_Avail := Z.min avail (sp_Avail beneath) |}
           end)
  end.

(** The end of one attempt of [Recount], with the revision read before the
    measurement; [None] is another attempt. *)
Definition recount_commit (revision count : Z) : comp Storage (option (option error)) :=
  let! s := gets id in
  match st_fault s with
  | Some err => ret (Some (Some err))
  | None =>
      if st_revision s =? revision
      then do! modify (λ s, revised (set_st_count count s)) in ret (Some None)
      else ret None
  end.

(** [Recount]; while attempt [k] measures, autonomous settlements change the
    accounting by [meanwhile k], and the measurement is [measured k]. *)
Fixpoint recount_loop (attempts k : nat) (meanwhile : nat → Storage → Storage)
    (measured : nat → result Z) : comp Storage (option error) :=
  match attempts with
  | O => ret (Some (Wrapped (Errno EAGAIN)))
  | S attempts =>
      let! revision := gets st_revision in
      do! modify (meanwhile k) in
      match measured k with
      | Err err => ret (Some err)
      | Ok count =>
          let! done := recount_commit revision count in
          match done with
          | Some err => ret err
          | None => recount_loop attempts (S k) meanwhile measured
          end
      end
  end.

Definition Recount (meanwhile : nat → Storage → Storage) (measured : nat → result Z)
  : comp Storage (option error) :=
  let! fault := healthy in
  match fault with
  | Some err => ret (Some err)
  | None => recount_loop 8 0 meanwhile measured
  end.

(** What [NewWithLimits] asks of the backing: [CheckPublicationAccounting],
    when it has bounded storage and publication accounting; the check of its
    maintenance accounting and the usage its binding initializes the count
    with, when it has that; and [measureUsage] of it. *)
Record backing_capabilities := {
  bc_accounting : option (option error);
  bc_maintenance : option (option error * result Z);
  bc_measure : MeasurementLimits → option (result Z) }.

Definition NewWithLimits (limit : Z) (measurement : MeasurementLimits) (b : backing_capabilities)
  : option (result Storage) :=
  let opened count := Some (Ok {| st_limit := limit; st_count := count; st_fault := None; st_revision := 0 |}) in
  let measured effective :=
    match bc_measure b effective with
    | None => None
    | Some (Err err) => Some (Err err)
    | Some (Ok count) => opened count
    end in
  if limit <? MinLimit then Some (Err (Wrapped (Errno EINVAL)))
  else match Effective measurement with
  | Err err => Some (Err err)
  | Ok effective =>
      match bc_accounting b with
      | None => Some (Err (Wrapped (Errno ENOSYS)))
      | Some (Some err) => Some (Err err)
      | Some None =>
          match bc_maintenance b with
          | Some (None, Ok used) => opened used
          | Some (None, Err err) => Some (Err err)
          | Some (Some (Errno EOPNOTSUPP), _) | None => measured effective
          | Some (Some err, _) => Some (Err err)
          end
      end
  end.

(** ** The allowance and the volume

    A volume of sized targets under an allowance.  Publications are prepared
    and settled in any interleaving; the backend resolves the previous size of
    its target under its publication ordering, which admits one publication per
    target, and settles before it gives the ordering up.  [Usage] is taken
    under the same ordering.  Fewer than 2^64 settlements happen while a volume
    is open ([unwrapped]). *)

Record publication := {
  pb_target : Z; pb_previous : Z; pb_next : Z; pb_settle : PublicationSettlement Storage }.

Record world := {
  w_quota : Storage; w_sizes : gmap Z Z; w_pending : gmap nat publication;
  w_recount : option (Z * option Z) }.

Definition held (sizes : gmap Z Z) : Z := msum (λ _ n, n) sizes.

Definition unwrapped (s : Storage) : Prop := st_revision s < MaxUint64.

(** What the outcome of a publication does to the volume. *)
Definition effect (result : Z) (p : publication) (sizes sizes' : gmap Z Z) : Prop :=
  (result = PublicationNotApplied ∨ result = PublicationUnknown) ∧ sizes' = sizes
  ∨ (result = PublicationApplied ∨ result = PublicationUnknown)
    ∧ sizes' = <[pb_target p := pb_next p]> sizes.

Inductive step : world → world → Prop :=
| Prepare q sizes pending recount pid target next answer q' :
    unwrapped q → pending !! pid = None →
    (∀ k p, pending !! k = Some p → pb_target p ≠ target) → 0 <= next <= MaxInt64 →
    let previous := default 0 (sizes !! target) in
    preparePublication previous next q = Some (answer, q') →
    step {| w_quota := q; w_sizes := sizes; w_pending := pending; w_recount := recount |}
         {| w_quota := q'; w_sizes := sizes; w_recount := recount;
            w_pending := match answer.1 with
                         | Some settle => <[pid := {| pb_target := target; pb_previous := previous;
                                                      pb_next := next; pb_settle := settle |}]> pending
                         | None => pending
                         end |}
| Settle q sizes sizes' pending recount pid p result err q' :
    unwrapped q → pending !! pid = Some p → effect result p sizes sizes' →
    pb_settle p result q = Some (err, q') →
    step {| w_quota := q; w_sizes := sizes; w_pending := pending; w_recount := recount |}
         {| w_quota := q'; w_sizes := sizes'; w_pending := delete pid pending; w_recount := recount |}
| Report q sizes pending recount err err' q' :
    publicationError err q = Some (err', q') →
    step {| w_quota := q; w_sizes := sizes; w_pending := pending; w_recount := recount |}
         {| w_quota := q'; w_sizes := sizes; w_pending := pending; w_recount := recount |}
| Recount_read q sizes pending recount :
    st_fault q = None →
    step {| w_quota := q; w_sizes := sizes; w_pending := pending; w_recount := recount |}
         {| w_quota := q; w_sizes := sizes; w_pending := pending;
            w_recount := Some (st_revision q, None) |}
| Recount_measure q sizes revision :
    step {| w_quota := q; w_sizes := sizes; w_pending := ∅; w_recount := Some (revision, None) |}
         {| w_quota := q; w_sizes := sizes; w_pending := ∅;
            w_recount := Some (revision, Some (held sizes)) |}
| Recount_end q sizes pending revision count answer q' :
    unwrapped q → recount_commit revision count q = Some (answer, q') →
    step {| w_quota := q; w_sizes := sizes; w_pending := pending;
            w_recount := Some (revision, Some count) |}
         {| w_quota := q'; w_sizes := sizes; w_pending := pending; w_recount := None |}.

(** A volume as it is opened: the count is what it holds. *)
Definition opened (limit : Z) (sizes : gmap Z Z) : world :=
  {| w_quota := {| st_limit := limit; st_count := held sizes; st_fault := None; st_revision := 0 |};
     w_sizes := sizes; w_pending := ∅; w_recount := None |}.

(** ** Invariant *)

Definition growth (p : publication) : Z := Z.max (pb_next p - pb_previous p) 0.
Definition reserved_bytes (pending : gmap nat publication) : Z := msum (λ _ p, growth p) pending.

(** A pending publication knows its target's size and holds the settlement of
    its own reservation. *)
Definition publication_ok (sizes : gmap Z Z) (p : publication) : Prop :=
  default 0 (sizes !! pb_target p) = pb_previous p ∧ 0 <= pb_previous p <= MaxInt64
  ∧ 0 <= pb_next p <= MaxInt64
  ∧ pb_settle p = settle_reservation (pb_next p - pb_previous p) (growth p).

Record quota_inv (limit start : Z) (w : world) : Prop := {
  qi_limit : st_limit (w_quota w) = limit;
  qi_typed : 0 <= limit <= MaxInt64 ∧ 0 <= start <= MaxInt64;
  qi_sizes : ∀ t n, w_sizes w !! t = Some n → 0 <= n;
  qi_revision : 0 <= st_revision (w_quota w) <= MaxUint64;
  qi_pending : ∀ k p, w_pending w !! k = Some p → publication_ok (w_sizes w) p;
  qi_targets : ∀ k k' p p', w_pending w !! k = Some p → w_pending w !! k' = Some p' →
               pb_target p = pb_target p' → k = k';
  qi_above : held (w_sizes w) + reserved_bytes (w_pending w) <= st_count (w_quota w);
  qi_exact : st_fault (w_quota w) = None →
             st_count (w_quota w) = held (w_sizes w) + reserved_bytes (w_pending w);
  qi_count : st_count (w_quota w) <= Z.max limit start;
  qi_recount : ∀ revision measured, w_recount w = Some (revision, measured) →
               revision <= st_revision (w_quota w)
               ∧ (st_revision (w_quota w) = revision → ∀ count, measured = Some count →
                  w_pending w = ∅ ∧ count = held (w_sizes w)) }.

Lemma held_nonneg sizes : (∀ t n, sizes !! t = Some n → 0 <= n) → 0 <= held sizes.
Proof. intros H. by apply msum_nonneg. Qed.

Lemma reserved_nonneg pending : 0 <= reserved_bytes pending.
Proof. apply msum_nonneg. intros. unfold growth. lia. Qed.

Lemma held_insert sizes t n : held (<[t := n]> sizes) = held sizes - default 0 (sizes !! t) + n.
Proof.
  unfold held. destruct (sizes !! t) as [m|] eqn:E; cbn [default].
  - by rewrite (msum_insert_Some _ _ _ m).
  - rewrite msum_insert by done. lia.
Qed.

Lemma held_lookup sizes t :
  (∀ t n, sizes !! t = Some n → 0 <= n) → 0 <= default 0 (sizes !! t) <= held sizes.
Proof.
  intros H. destruct (sizes !! t) as [n|] eqn:E; cbn [default].
  - split; [by eapply H|]. by apply (msum_lookup_le (λ _ n, n)) with t.
  - split; [done|by apply held_nonneg].
Qed.

Lemma i64_small v : is_int64 v → i64 v = v.
Proof. apply to_int64_mod. Qed.

Lemma opened_inv limit sizes :
  0 <= limit <= MaxInt64 → (∀ t n, sizes !! t = Some n → 0 <= n) → held sizes <= MaxInt64 →
  quota_inv limit (held sizes) (opened limit sizes).
Proof.
  intros Hl Hs Hh. pose proof (held_nonneg _ Hs).
  split; cbn; try done; try (unfold reserved_bytes; rewrite msum_empty; lia); lia.
Qed.

(** ** Preservation *)

Lemma u64_next z : 0 <= z < MaxUint64 → u64 (z + 1) = z + 1.
Proof. intros. apply u64_small. unfold is_u64. lia. Qed.

Lemma reserve_spec delta s :
  is_int64 delta → 0 <= st_limit s <= MaxInt64 → 0 <= st_count s <= MaxInt64 →
  reserve delta s =
    match st_fault s with
    | Some err => Some (Err err, s)
    | None => if (0 <? delta) && (st_limit s - st_count s <? delta)
              then Some (Err (Wrapped (Wrapped (Errno EDQUOT))), s)
              else Some (Ok (Z.max delta 0), revised (set_st_count (st_count s + Z.max delta 0) s))
    end.
Proof.
  intros Hd Hl Hc. unfold is_int64 in Hd. unfold reserve, bind, gets, modify, ret. cbn [id].
  destruct (st_fault s); [done|]. rewrite (i64_small (_ - _)) by (unfold is_int64; lia).
  destruct ((0 <? delta) && (st_limit s - st_count s <? delta)) eqn:E; [done|].
  rewrite i64_small; [done|]. unfold is_int64. bool_prop. destruct E as [E|E]; bool_prop; lia.
Qed.

Section steps.
Context (limit start : Z).
#[local] Notation inv := (quota_inv limit start).

(** What the counters are, in a state of the invariant. *)
Lemma inv_count w :
  inv w → 0 <= held (w_sizes w) ∧ 0 <= st_count (w_quota w) <= MaxInt64 ∧ 0 <= st_limit (w_quota w) <= MaxInt64.
Proof.
  intros [Hl Ht Hs _ _ _ Ha _ Hc _]. pose proof (held_nonneg _ Hs).
  pose proof (reserved_nonneg (w_pending w)). rewrite Hl. lia.
Qed.

Lemma prepare_inv q sizes pending recount pid target next answer q' :
  let w := {| w_quota := q; w_sizes := sizes; w_pending := pending; w_recount := recount |} in
  let previous := default 0 (sizes !! target) in
  inv w → unwrapped q → pending !! pid = None → (∀ k p, pending !! k = Some p → pb_target p ≠ target) →
  0 <= next <= MaxInt64 → preparePublication previous next q = Some (answer, q') →
  inv {| w_quota := q'; w_sizes := sizes; w_recount := recount;
         w_pending := match answer.1 with
                      | Some settle => <[pid := {| pb_target := target; pb_previous := previous;
                                                   pb_next := next; pb_settle := settle |}]> pending
                      | None => pending
                      end |}.
Proof.
  intros w previous Hi Hu Hp Ht Hn. pose proof (inv_count w Hi) as (Hh & Hc & Hlim).
  destruct Hi as [Il It Is Ir Ip Ig Ia Ie Ic Ire]; cbn in *.
  pose proof (held_lookup sizes target Is) as Hprev. fold previous in Hprev.
  pose proof (reserved_nonneg pending) as Hres.
  unfold preparePublication, bind. rewrite (i64_small (next - previous)) by (unfold is_int64; lia).
  rewrite reserve_spec by (done || unfold is_int64; lia).
  destruct (st_fault q) as [err|] eqn:Ef in |- *.
  { intros [= <- <-]. split; cbn; done. }
  destruct ((0 <? next - previous) && (st_limit q - st_count q <? next - previous)) eqn:Er.
  { intros [= <- <-]. split; cbn; done. }
  intros [= <- <-]. unfold unwrapped in Hu. cbn [fst].
  assert (Hfresh : reserved_bytes (<[pid := {| pb_target := target; pb_previous := previous; pb_next := next;
    pb_settle := settle_reservation (next - previous) (Z.max (next - previous) 0) |}]> pending)
    = Z.max (next - previous) 0 + reserved_bytes pending) by (unfold reserved_bytes; by rewrite msum_insert).
  split; cbn; rewrite ?Hfresh, ?u64_next by lia; try done; try lia.
  - intros k p [[<- <-]|[_ Hk]]%lookup_insert_Some; [|by apply (Ip k)]. split_and!; cbn; [done|lia..|done].
  - intros k k' p p' [[<- <-]|[Hne Hk]]%lookup_insert_Some [[<- <-]|[Hne' Hk']]%lookup_insert_Some; cbn;
      [done|intros E; by destruct (Ht k' p')|intros E; by destruct (Ht k p)|by apply Ig].
  - specialize (Ie Ef). lia.
  - intros revision measured E. specialize (Ire _ _ E) as [Hle _]. split; [lia|]. intros. lia.
Qed.

Lemma settle_quota q sizes sizes' p result err q' :
  publication_ok sizes p → effect result p sizes sizes' → unwrapped q →
  (∀ t n, sizes !! t = Some n → 0 <= n) → 0 <= st_revision q →
  growth p + held sizes <= st_count q <= MaxInt64 → pb_settle p result q = Some (err, q') →
  st_limit q' = st_limit q
  ∧ st_count q - (held sizes + growth p) <= st_count q' - held sizes'
  ∧ st_count q' <= st_count q
  ∧ (st_fault q' = None → st_fault q = None ∧ st_count q - (held sizes + growth p) = st_count q' - held sizes')
  ∧ st_revision q <= st_revision q' <= st_revision q + 1.
Proof.
  intros (Hprev & Hp & Hn & Hs) He Hu Hsz Hr Hc. rewrite Hs. unfold unwrapped, growth in *.
  assert (Hh' : result = PublicationApplied → held sizes' = held sizes - pb_previous p + pb_next p).
  { intros ->. destruct He as [[[|] _]|[_ ->]]; [done..|]. by rewrite held_insert, Hprev. }
  assert (Hh : result = PublicationNotApplied → held sizes' = held sizes).
  { intros ->. by destruct He as [[_ ->]|[[|] _]]. }
  pose proof (held_lookup sizes (pb_target p) Hsz) as Hl. rewrite Hprev in Hl.
  unfold settle_reservation, release, bind, gets, modify, ret.
  destruct (Z.eqb_spec result PublicationNotApplied) as [E1|E1]; [|destruct (Z.eqb_spec result PublicationApplied) as [E2|E2]].
  - intros [= <- <-]. cbn. rewrite i64_small by (unfold is_int64; lia). rewrite u64_next, Hh by (done || lia).
    unfold floor. split_and!; try done; try lia. intros. split; [done|lia].
  - rewrite Hh' by done. destruct (Z.ltb_spec (pb_next p - pb_previous p) 0).
    + intros [= <- <-]. cbn. rewrite !i64_small; [|unfold is_int64; lia..|].
      * rewrite u64_next by lia. unfold floor. split_and!; try done; try lia. intros. split; [done|lia].
      * rewrite i64_small; unfold is_int64; lia.
    + intros [= <- <-]. split_and!; try done; try lia. intros. split; [done|lia].
  - assert (Hle : held sizes' <= held sizes + Z.max (pb_next p - pb_previous p) 0).
    { destruct He as [[_ ->]|[_ ->]]; [lia|]. rewrite held_insert, Hprev. lia. }
    destruct (st_fault q) eqn:Ef; cbn; intros [= <- <-]; cbn; rewrite ?Ef; split_and!; try done; lia.
Qed.

Lemma settle_inv q sizes sizes' pending recount pid p result err q' :
  inv {| w_quota := q; w_sizes := sizes; w_pending := pending; w_recount := recount |} →
  unwrapped q → pending !! pid = Some p → effect result p sizes sizes' →
  pb_settle p result q = Some (err, q') →
  inv {| w_quota := q'; w_sizes := sizes'; w_pending := delete pid pending; w_recount := recount |}.
Proof.
  intros Hi Hu Hp He Hs. pose proof (inv_count _ Hi) as (Hh & Hc & Hlim).
  destruct Hi as [Il It Is Ir Ip Ig Ia Ie Ic Ire]; cbn in *.
  pose proof (msum_delete (λ _ p, growth p) _ _ _ Hp) as Hres. cbn beta in Hres.
  fold (reserved_bytes pending) in Hres.
  fold (reserved_bytes (delete pid pending)) in Hres. pose proof (reserved_nonneg (delete pid pending)).
  destruct (settle_quota q sizes sizes' p result err q') as (S1 & S2 & S3 & S4 & S5); [by eapply Ip|done..|lia|lia|done|].
  unfold unwrapped in Hu. destruct (Ip _ _ Hp) as (_ & _ & Hn & _). split; cbn; try done; try lia.
  - intros t n Ht. destruct He as [[_ ->]|[_ ->]]; [by eapply Is|].
    apply lookup_insert_Some in Ht as [[_ <-]|[_ Ht]]; [lia|by eapply Is].
  - intros k p' [Hne Hk]%lookup_delete_Some. destruct (Ip k p' Hk) as (H1 & H2). split; [|done].
    destruct He as [[_ ->]|[_ ->]]; [done|]. rewrite lookup_insert_ne; [done|].
    intros E. destruct Hne. by eapply Ig.
  - intros k k' p1 p2 [_ Hk]%lookup_delete_Some [_ Hk']%lookup_delete_Some. by apply Ig.
  - intros Hf. specialize (S4 Hf) as [S4 S4']. specialize (Ie S4). lia.
  - intros revision measured E. destruct (Ire _ _ E) as [Hle Heq]. split; [lia|]. intros Er count Em.
    destruct (Heq ltac:(lia) count Em) as [-> _]. by rewrite lookup_empty in Hp.
Qed.

Lemma step_inv w w' : inv w → step w w' → inv w'.
Proof.
  intros Hi Hs. destruct Hs as [q sizes pending recount pid target next answer q' Hu Hp Ht Hn previous E
    |q sizes sizes' pending recount pid p result err q' Hu Hp He E|q sizes pending recount err err' q' E
    |q sizes pending recount Hf|q sizes revision|q sizes pending revision count answer q' Hu E].
  - by apply (prepare_inv q sizes pending recount pid target next answer q').
  - by eapply settle_inv.
  - destruct Hi as [Il It Is Ir Ip Ig Ia Ie Ic Ire]; cbn in *. unfold publicationError, bind, modify, ret in E.
    destruct err as [err|]; [|injection E as <- <-; by split].
    destruct (IsPublicationAccountingUncertain err); cbn [negb] in E; [|injection E as <- <-; by split].
    injection E as <- <-. destruct (st_fault q) as [f|] eqn:Ef in |- *;
      [destruct (IsPublicationAccountingUncertain f)|]; by split.
  - destruct Hi as [Il It Is Ir Ip Ig Ia Ie Ic Ire]; cbn in *. split; cbn; try done.
    intros revision measured [= <- <-]. done.
  - destruct Hi as [Il It Is Ir Ip Ig Ia Ie Ic Ire]; cbn in *. split; cbn; try done.
    intros revision' measured [= <- <-]. destruct (Ire _ _ eq_refl) as [Hle _].
    split; [done|]. intros _ count [= <-]. done.
  - pose proof (inv_count _ Hi) as (Hh & Hc & Hlim).
    destruct Hi as [Il It Is Ir Ip Ig Ia Ie Ic Ire]; cbn in *. unfold recount_commit, bind, gets, modify, ret in E.
    cbn [id] in E. destruct (st_fault q) as [f|] eqn:Ef in E; [injection E as <- <-; by split|].
    destruct (Z.eqb_spec (st_revision q) revision) as [Er|]; injection E as <- <-; [|by split].
    destruct (Ire _ _ eq_refl) as [_ Heq]. destruct (Heq Er count eq_refl) as [-> ->].
    specialize (Ie Ef). unfold unwrapped in Hu. unfold reserved_bytes in *. rewrite msum_empty in *.
    split; cbn; rewrite ?u64_next by lia; try done; try (unfold reserved_bytes; rewrite msum_empty); lia.
Qed.
End steps.

Inductive steps : world → world → Prop :=
| Steps_refl w : steps w w
| Steps_next w w1 w' : steps w w1 → step w1 w' → steps w w'.

(** C23: a volume stays within its allowance.  However publications are
    prepared, applied, undone or lost, and recounts run between them, the
    count is never below what the volume holds and never above the larger of
    the allowance and what the volume held when it was opened.  As long as no
    outcome has been lost, the count is exactly what is held plus what pending
    publications have reserved. *)
Theorem allowance_kept (limit : Z) (sizes : gmap Z Z) (w : world) :
  0 <= limit <= MaxInt64 → (∀ t n, sizes !! t = Some n → 0 <= n) → held sizes <= MaxInt64 →
  steps (opened limit sizes) w →
  held (w_sizes w) <= st_count (w_quota w) <= Z.max limit (held sizes)
  ∧ (st_fault (w_quota w) = None →
     st_count (w_quota w) = held (w_sizes w) + reserved_bytes (w_pending w)).
Proof.
  intros Hl Hs Hh Hsteps. assert (Hi : quota_inv limit (held sizes) w).
  { remember (opened limit sizes) as w0 eqn:E. induction Hsteps as [w|w w1 w' _ IH Hst]; subst.
    - by apply opened_inv.
    - eapply step_inv; [by apply IH|done]. }
  pose proof (reserved_nonneg (w_pending w)). destruct Hi. split; [lia|done].
Qed.

(** A growing publication is prepared and its outcome lost. *)
Lemma allowance_kept_witness :
  ∃ w, steps (opened 5000 ∅) w ∧ st_count (w_quota w) = 600 ∧ held (w_sizes w) <= 600.
Proof.
  set (q1 := {| st_limit := 5000; st_count := 600; st_fault := None; st_revision := 1 |}).
  set (q2 := {| st_limit := 5000; st_count := 600; st_fault := Some (Wrapped (Errno EIO)); st_revision := 1 |}).
  set (p := {| pb_target := 2; pb_previous := default 0 ((∅ : gmap Z Z) !! 2); pb_next := 600;
               pb_settle := settle_reservation 600 600 |}).
  set (w2 := {| w_quota := q2; w_sizes := ∅; w_pending := delete 0%nat (<[0%nat := p]> ∅); w_recount := None |}).
  assert (H : steps (opened 5000 ∅) w2).
  { eapply Steps_next; [eapply Steps_next; [constructor|]|].
    - eapply (Prepare _ ∅ ∅ None 0 2 600 (Some (settle_reservation 600 600), None) q1);
        [done|apply lookup_empty|intros k p' Hk; by rewrite lookup_empty in Hk|lia|].
      unfold preparePublication, bind. change (i64 (600 - default 0 (∅ !! 2))) with 600.
      by rewrite reserve_spec by done.
    - eapply (Settle q1 _ ∅ _ None 0 p PublicationUnknown (Some (Wrapped (Errno EIO))) q2);
        [done|apply lookup_insert_eq|left; split; [by right|done]|reflexivity]. }
  exists w2. split; [done|]. split; [done|].
  destruct (allowance_kept 5000 ∅ w2) as [[Hle _] _]; [lia| |vm_compute; discriminate|done|done].
  intros t n Ht. by rewrite lookup_empty in Ht.
Defined.

(** ** Nested allowances

    A volume may be held under several allowances; each wrapper adds its hook
    to the context.  The store is all of them, [i] the address of one. *)

Definition quotas : Type := nat → Storage.

Definition at_quota {A} (i : nat) (m : comp Storage A) : comp quotas A := λ s,
  match m (s i) with
  | Some (a, q) => Some (a, λ j, if bool_decide (j = i) then q else s j)
  | None => None
  end.

Definition prepare_at (i : nat) : PublicationAccounting quotas := λ previous next,
  let! answer := at_quota i (preparePublication previous next) in
  ret ((λ settle result, at_quota i (settle result)) <$> answer.1, answer.2).

(** The same to the accounting: only revisions may differ. *)
Definition same_quota (a b : Storage) : Prop :=
  st_limit a = st_limit b ∧ st_count a = st_count b ∧ st_fault a = st_fault b.
Definition same_quotas (a b : quotas) : Prop := ∀ i, same_quota (a i) (b i).

#[global] Instance same_quotas_equivalence : Equivalence same_quotas.
Proof. split; repeat intro; unfold same_quotas, same_quota in *; naive_solver congruence. Qed.

Definition quota_typed (s : Storage) : Prop :=
  0 <= st_limit s <= MaxInt64 ∧ 0 <= st_count s <= MaxInt64.
Definition quotas_typed (s : quotas) : Prop := ∀ i, quota_typed (s i).

(** An allowance keeps the contract of an accounting hook. *)
#[global] Instance prepare_at_undoable i : Undoable quotas_typed same_quotas (prepare_at i).
Proof.
  intros previous next s Hp Hn Hs. destruct (Hs i) as [Hl Hc].
  unfold prepare_at, at_quota, preparePublication, bind. rewrite (i64_small (next - previous)) by (unfold is_int64; lia).
  rewrite reserve_spec by (done || unfold is_int64; lia).
  assert (Hsame : ∀ q, same_quota (s i) q → same_quotas s (λ j, if bool_decide (j = i) then q else s j)).
  { intros q Hq j. case_bool_decide as Hj; [by subst|done]. }
  assert (Htyped : ∀ s' q, quotas_typed s' → quota_typed q →
            quotas_typed (λ j, if bool_decide (j = i) then q else s' j)).
  { intros s' q Hs' Hq j. case_bool_decide; [done|apply Hs']. }
  destruct (st_fault (s i)) as [err|] eqn:Ef in |- *.
  { eexists _, _. split; [done|]. split; [by apply Htyped|]. by apply Hsame. }
  destruct (_ && _) eqn:Er.
  { eexists _, _. split; [done|]. split; [by apply Htyped|]. by apply Hsame. }
  eexists _, _. split; [done|]. cbn. split.
  { apply Htyped; [done|]. split; cbn; lia. }
  intros s2 H2 Hs2. destruct (H2 i) as [Hl2 Hc2]. pose proof (Hs2 i) as (S1 & S2 & S3).
  rewrite bool_decide_true in S1, S2, S3 by done. cbn in S1, S2, S3.
  eexists. split; [done|]. cbn. rewrite i64_small by (unfold is_int64; lia). split.
  - apply Htyped; [done|]. split; cbn; [done|]. unfold floor. lia.
  - intros j. case_bool_decide as Hj.
    + subst. split_and!; cbn; [congruence|unfold floor; lia|congruence].
    + specialize (Hs2 j). unfold same_quota in *. cbn beta in Hs2. by rewrite bool_decide_false in Hs2.
Qed.

(** *** What nested allowances are charged

    [previous] and [next] are the sizes of the publication; an allowance that
    wraps the volume more than once is charged as often. *)

Definition times (i : nat) (allowances : list nat) : Z := Z.of_nat (count_occ Nat.eq_dec allowances i).

Definition bytes_grown (previous next : Z) : Z := Z.max (next - previous) 0.

(** Every allowance is sound and has room for the growth. *)
Definition has_room (previous next : Z) (allowances : list nat) (s : quotas) : Prop :=
  ∀ i, i ∈ allowances → st_fault (s i) = None
    ∧ (bytes_grown previous next = 0
       ∨ st_count (s i) + times i allowances * bytes_grown previous next <= st_limit (s i)).

(** [s'] is [s] with the growth charged to each of the allowances. *)
Definition charged (previous next : Z) (allowances : list nat) (s s' : quotas) : Prop :=
  ∀ i, st_limit (s' i) = st_limit (s i) ∧ st_fault (s' i) = st_fault (s i)
    ∧ st_count (s' i) = st_count (s i) + times i allowances * bytes_grown previous next.

(** The bytes a settlement gives back to each allowance. *)
Definition given_back (previous next result : Z) : Z :=
  if result =? PublicationNotApplied then bytes_grown previous next
  else if result =? PublicationApplied then Z.max (previous - next) 0
  else 0.

(** [s'] is [s] with a settlement carried out in each of the allowances: the
    bytes are given back, and an unknown outcome fences the allowance. *)
Definition settled_as (previous next result : Z) (allowances : list nat) (s s' : quotas) : Prop :=
  ∀ i, st_limit (s' i) = st_limit (s i)
    ∧ st_count (s' i) = floor (st_count (s i) - times i allowances * given_back previous next result)
    ∧ (if bool_decide (result = PublicationUnknown ∧ i ∈ allowances)
       then is_Some (st_fault (s' i)) else st_fault (s' i) = st_fault (s i)).

Definition settle_at (previous next : Z) (i : nat) : PublicationSettlement quotas := λ result,
  at_quota i (settle_reservation (next - previous) (bytes_grown previous next) result).

Lemma times_nil i : times i [] = 0.
Proof. done. Qed.

Lemma times_cons i j l : times i (j :: l) = times i l + if bool_decide (i = j) then 1 else 0.
Proof. unfold times. cbn. destruct (Nat.eq_dec j i); case_bool_decide; subst; try done; lia. Qed.

Lemma times_app i l k : times i (l ++ k) = times i l + times i k.
Proof. unfold times. rewrite count_occ_app. lia. Qed.

Lemma times_rev i l : times i (rev l) = times i l.
Proof. unfold times. by rewrite count_occ_rev. Qed.

Lemma times_nonneg i l : 0 <= times i l.
Proof. unfold times. lia. Qed.

Lemma times_not_in i l : i ∉ l → times i l = 0.
Proof. rewrite list_elem_of_In. intros H%(count_occ_not_In Nat.eq_dec). unfold times. by rewrite H. Qed.

Lemma bytes_grown_nonneg previous next : 0 <= bytes_grown previous next.
Proof. unfold bytes_grown. lia. Qed.

(** The order of the allowances does not matter. *)
Lemma elem_of_rev (i : nat) l : i ∈ rev l ↔ i ∈ l.
Proof. by rewrite !list_elem_of_In, <- in_rev. Qed.

Lemma settled_rev previous next result l s s' :
  settled_as previous next result (rev l) s s' → settled_as previous next result l s s'.
Proof.
  intros H i. specialize (H i). rewrite times_rev in H. destruct H as (? & ? & F). split_and!; [done..|].
  by rewrite (bool_decide_ext _ (result = PublicationUnknown ∧ i ∈ rev l)) by (by rewrite elem_of_rev).
Qed.

Lemma charged_rev previous next l s s' :
  charged previous next (rev l) s s' → charged previous next l s s'.
Proof. intros H i. specialize (H i). by rewrite times_rev in H. Qed.

Lemma has_room_rev previous next l s : has_room previous next (rev l) s ↔ has_room previous next l s.
Proof. unfold has_room. by setoid_rewrite times_rev; setoid_rewrite elem_of_rev. Qed.

Section nested.
Context (previous next : Z) (Hp : 0 <= previous <= MaxInt64) (Hn : 0 <= next <= MaxInt64).
Notation grown := (bytes_grown previous next).

(** One hook: it charges its allowance, or refuses for want of room. *)
Lemma prepare_at_spec i s :
  quotas_typed s →
  ∃ answer s', prepare_at i previous next s = Some (answer, s')
    ∧ ((st_fault (s i) = None ∧ (grown = 0 ∨ st_count (s i) + grown <= st_limit (s i))
        ∧ answer = (Some (settle_at previous next i), None)
        ∧ charged previous next [i] s s' ∧ quotas_typed s')
       ∨ (¬ (st_fault (s i) = None ∧ (grown = 0 ∨ st_count (s i) + grown <= st_limit (s i)))
          ∧ ∃ err, answer = (None, Some err))).
Proof.
  intros Hs. destruct (Hs i) as [Hl Hc]. unfold prepare_at, at_quota, preparePublication, bind.
  rewrite (i64_small (next - previous)) by (unfold is_int64; lia).
  rewrite reserve_spec by (done || unfold is_int64; lia).
  destruct (st_fault (s i)) as [err|] eqn:Ef in |- *.
  { eexists _, _. split; [done|]. right. split; [intros [? _]; congruence|by eexists]. }
  destruct (_ && _) eqn:Er; eexists _, _; (split; [done|]); bool_prop.
  { right. split; [|by eexists]. unfold bytes_grown. intros [_ [?|?]]; lia. }
  left. split; [done|]. split; [unfold bytes_grown; lia|]. split; [done|]. cbn. split.
  - intros j. rewrite times_cons, times_nil. case_bool_decide; cbn; [subst|split_and!; try done; lia].
    split_and!; try done. unfold bytes_grown. lia.
  - intros j. cbn beta. case_bool_decide; [|apply Hs]. split; cbn; lia.
Qed.

Lemma charged_app l k s s1 s2 :
  charged previous next l s s1 → charged previous next k s1 s2 → charged previous next (l ++ k) s s2.
Proof.
  intros H1 H2 i. destruct (H1 i) as (? & ? & ?), (H2 i) as (? & ? & ?). rewrite times_app.
  split_and!; [congruence..|lia].
Qed.

(** A hook of a chain has room for its own charge exactly when the chain up to
    it has. *)
Lemma has_room_snoc l i s s1 :
  charged previous next l s s1 →
  has_room previous next (l ++ [i]) s ↔
  has_room previous next l s
  ∧ st_fault (s1 i) = None ∧ (grown = 0 ∨ st_count (s1 i) + grown <= st_limit (s1 i)).
Proof.
  intros Hc. pose proof (bytes_grown_nonneg previous next) as Hg.
  destruct (Hc i) as (E1 & E2 & E3). rewrite E1, E2, E3. unfold has_room.
  setoid_rewrite elem_of_app. setoid_rewrite times_app. setoid_rewrite times_cons.
  setoid_rewrite times_nil. split.
  - intros H. split.
    + intros j Hj. destruct (H j) as [Hf Hr]; [by left|]. split; [done|]. case_bool_decide; nia.
    + destruct (H i) as [Hf Hr]; [right; set_solver|]. rewrite bool_decide_true in Hr by done.
      split; [done|nia].
  - intros (H & Hf & Hr) j Hj. case_bool_decide as Hji.
    + subst j. split; [done|nia].
    + destruct (H j) as [Hfj Hrj]; [set_solver|]. split; [done|nia].
Qed.

Lemma unwind_errs (settlements : list (PublicationSettlement quotas)) err s r s' :
  (let! e := unwind settlements err in ret (Err e)) s = Some (r, s') →
  ∃ e, r = @Err (list (PublicationSettlement quotas)) e.
Proof. unfold bind, ret. destruct (unwind _ _ _) as [[]|]; [|done]. intros [= <- _]. by eexists. Qed.

(** The loop over the hooks prepares all of them or fails. *)
Lemma prepare_each ctx todo : ∀ k before s s1 r s2,
  charged previous next before s s1 → quotas_typed s1 → has_room previous next before s →
  prepare_loop ctx k (prepare_at <$> todo) (settle_at previous next <$> before) previous next s1 = Some (r, s2) →
  match r with
  | Ok settlements => settlements = settle_at previous next <$> before ++ todo
      ∧ charged previous next (before ++ todo) s s2 ∧ quotas_typed s2
      ∧ has_room previous next (before ++ todo) s
  | Err _ => (∀ j, ctx j = None) → ¬ has_room previous next (before ++ todo) s
  end.
Proof.
  induction todo as [|i todo IH]; intros k before s s1 r s2 Hc Ht Hr; cbn [prepare_loop fmap list_fmap];
    (destruct (ctx k) as [err|] eqn:Ek;
      [intros E; apply unwind_errs in E as [e ->]; intros Hx; by rewrite Hx in Ek|]).
  { intros [= <- <-]. by rewrite app_nil_r. }
  destruct (prepare_at_spec i s1 Ht) as (answer & s3 & E & Ha). unfold bind at 1. rewrite E.
  pose proof (has_room_snoc before i s s1 Hc) as Hroom.
  destruct Ha as [(Hf & Hg & -> & Hc3 & Ht3)|(Hno & err & ->)]; cbn [fst option_list].
  - intros Hrun. replace (before ++ i :: todo) with ((before ++ [i]) ++ todo) by by rewrite <- app_assoc.
    apply (IH (S k) _ s s3 r s2); [by eapply charged_app|done|by apply Hroom|].
    by rewrite fmap_app.
  - intros Hrun. apply unwind_errs in Hrun as [e ->]. intros _ Hall. apply Hno, Hroom.
    intros j Hj. destruct (Hall j) as [Hfj Hgj]; [set_solver|]. split; [done|].
    pose proof (bytes_grown_nonneg previous next). pose proof (times_nonneg j todo).
    rewrite times_app, times_cons in *. rewrite times_nil. case_bool_decide; nia.
Qed.

(** One settlement, and all of them in any order. *)
Lemma settle_at_spec i result s :
  valid_result result → quotas_typed s →
  ∃ err s', settle_at previous next i result s = Some (err, s') ∧ quotas_typed s'
    ∧ settled_as previous next result [i] s s' ∧ (result ≠ PublicationUnknown → err = None).
Proof.
  intros Hv Hs. destruct (Hs i) as [Hl Hc].
  assert (Hbuild : ∀ q err, quota_typed q → (result ≠ PublicationUnknown → err = None) →
    settle_reservation (next - previous) grown result (s i) = Some (err, q) →
    st_limit q = st_limit (s i) → st_count q = floor (st_count (s i) - given_back previous next result) →
    (result = PublicationUnknown → is_Some (st_fault q)) →
    (result ≠ PublicationUnknown → st_fault q = st_fault (s i)) →
    ∃ err s', settle_at previous next i result s = Some (err, s') ∧ quotas_typed s'
      ∧ settled_as previous next result [i] s s' ∧ (result ≠ PublicationUnknown → err = None)).
  { intros q err Hq He Hrun E1 E2 E3 E4. unfold settle_at, at_quota. rewrite Hrun.
    eexists _, _. split; [done|]. split; [|split; [|done]]; intros j; cbn beta.
    - case_bool_decide; [done|apply Hs].
    - rewrite times_cons, times_nil. case_bool_decide as Hj.
      + subst j. split; [done|]. split; [by rewrite E2; f_equal; lia|].
        destruct (decide (result = PublicationUnknown)).
        * rewrite bool_decide_true; [auto|set_solver].
        * rewrite bool_decide_false; [auto|tauto].
      + split; [done|]. split; [destruct (Hs j); unfold floor; lia|].
        rewrite bool_decide_false; [done|set_solver]. }
  pose proof (bytes_grown_nonneg previous next). unfold bytes_grown in *.
  destruct Hv as [->|[->| ->]]; unfold given_back, bytes_grown in *; cbn in Hbuild |- *.
  - eapply Hbuild; [|done|reflexivity|done| |done|done];
      cbn; rewrite i64_small by (unfold is_int64; lia); [split; cbn; unfold floor; lia|done].
  - unfold settle_reservation in Hbuild. cbn in Hbuild. destruct (Z.ltb_spec (next - previous) 0).
    + eapply Hbuild; [|done|reflexivity|done| |done|done]; cbn;
        rewrite (i64_small (- _)), i64_small by (unfold is_int64; lia).
      * split; cbn; unfold floor; lia.
      * f_equal. lia.
    + eapply Hbuild; [|done|reflexivity|done| |done|done]; [done|unfold floor; lia].
  - eapply (Hbuild (match st_fault (s i) with
                    | None => set_st_fault (Some (Wrapped (Errno EIO))) (s i) | Some _ => s i end)).
    3: reflexivity.
    all: destruct (st_fault (s i)) eqn:Ef; cbn; rewrite ?Ef; try done; unfold floor; try lia; by eexists.
Qed.

Lemma settled_cons i result l s s1 s2 :
  settled_as previous next result [i] s s1 → settled_as previous next result l s1 s2 →
  settled_as previous next result (i :: l) s s2.
Proof.
  intros H1 H2 j. destruct (H1 j) as (L1 & C1 & F1), (H2 j) as (L2 & C2 & F2).
  split; [congruence|]. split.
  - assert (0 <= given_back previous next result).
    { unfold given_back, bytes_grown. repeat case_match; lia. }
    pose proof (times_nonneg j l). revert C1. rewrite C2, !times_cons, times_nil. unfold floor. nia.
  - destruct (decide (result = PublicationUnknown ∧ j ∈ l)).
    { rewrite bool_decide_true in F2 by done. rewrite bool_decide_true; [done|set_solver]. }
    rewrite bool_decide_false in F2 by done. rewrite F2.
    destruct (decide (result = PublicationUnknown ∧ j ∈ [i])).
    + rewrite bool_decide_true in F1 by done. rewrite bool_decide_true; [done|set_solver].
    + rewrite bool_decide_false in F1 by done. rewrite bool_decide_false; [done|set_solver].
Qed.

Lemma settle_each result l : ∀ s,
  valid_result result → quotas_typed s →
  ∃ failures s', settle_loop (settle_at previous next <$> l) result s = Some (failures, s')
    ∧ settled_as previous next result l s s' ∧ (result ≠ PublicationUnknown → failures = []).
Proof.
  induction l as [|i l IH]; intros s Hv Hs; cbn [settle_loop fmap list_fmap].
  { exists [], s. split; [done|]. split; [|done]. intros i. rewrite times_nil.
    rewrite bool_decide_false by set_solver. destruct (Hs i). unfold floor. split_and!; [done|lia|done]. }
  destruct (settle_at_spec i result s Hv Hs) as (err & s1 & E1 & H1 & S1 & N1).
  destruct (IH s1 Hv H1) as (failures & s2 & E2 & S2 & N2).
  unfold bind. rewrite E1, E2. eexists _, s2. split; [done|]. split; [by eapply settled_cons|].
  intros Hr. by rewrite N1, N2.
Qed.

Lemma settle_publication result l s :
  valid_result result → quotas_typed s →
  ∃ err s', settlePublication (settle_at previous next <$> l) result s = Some (err, s')
    ∧ settled_as previous next result l s s'
    ∧ (if bool_decide (result = PublicationUnknown) then ∃ cause, err = Some (Uncertain cause)
       else err = None).
Proof.
  intros Hv Hs. unfold settlePublication.
  replace (rev (settle_at previous next <$> l)) with (settle_at previous next <$> rev l)
    by apply List.map_rev.
  destruct (settle_each result (rev l) s Hv Hs) as (failures & s' & E & S & N).
  unfold bind. rewrite E. eexists _, s'. split; [done|]. split; [by apply settled_rev|].
  case_bool_decide as Hr; [subst; by eexists|]. rewrite N by done.
  by destruct (Z.eqb_spec result PublicationUnknown).
Qed.
End nested.

Lemma prepared_exactly ctx allowances previous next s r s' :
  previous <= MaxInt64 → next <= MaxInt64 → quotas_typed s →
  PreparePublication ctx (prepare_at <$> allowances) previous next s = Some (r, s') →
  ((∀ k, ctx k = None) → 0 <= previous → 0 <= next →
     ((∃ p, r = Ok p) ↔ has_room previous next allowances s))
  ∧ match r with
    | Ok p => 0 <= previous ∧ 0 <= next ∧ charged previous next allowances s s'
        ∧ p = {| pp_settlements := settle_at previous next <$> rev allowances; pp_consumed := false |}
    | Err _ => True
    end.
Proof.
  intros Hp Hn Hs. unfold PreparePublication, ret.
  destruct (Z.ltb_spec previous 0); [intros [= <- <-]; split; [lia|done]|].
  destruct (Z.ltb_spec next 0); [intros [= <- <-]; split; [lia|done]|]. cbn [orb].
  destruct (ctx 0%nat) eqn:E0; [intros [= <- <-]; split; [|done]; intros Hx; by rewrite Hx in E0|].
  unfold bind. replace (rev (prepare_at <$> allowances)) with (prepare_at <$> rev allowances)
    by apply List.map_rev.
  destruct (prepare_loop _ _ _ _ _ _ _) as [[x s2]|] eqn:E; [|done]. intros [= <- <-].
  apply (prepare_each previous next ltac:(lia) ltac:(lia) ctx (rev allowances) 1 [] s s) in E; [|..].
  - destruct x as [settlements|err]; cbn [app] in E; setoid_rewrite has_room_rev in E.
    + destruct E as (-> & Hc & _ & Hr). split; [|split_and!; try done; by apply charged_rev].
      intros _ _ _. split; [done|by eexists].
    + split; [|done]. intros Hx _ _. split; [by intros [? ?]|]. intros Hr. by destruct (E Hx).
  - intros i. rewrite times_nil. split_and!; [done..|lia].
  - done.
  - intros i Hi. by apply not_elem_of_nil in Hi.
Qed.

(** C24: a publication is charged to every allowance or to none.  With any
    allowances around a volume and any point at which the request is cancelled,
    preparing a publication answers.  A request that is not cancelled, with
    sizes that are not negative, is prepared exactly when every allowance is
    sound and has room for the growth.  A refusal leaves every count as it was;
    a success has charged the growth to each allowance as often as it wraps the
    volume.  The settlement then acts on every allowance: not applied takes the
    charges back, applied leaves each count changed by the difference in size,
    unknown keeps the charges, fences each allowance and reports uncertainty.
    An invalid outcome is refused without settling, and whatever the outcome a
    second settlement is refused and changes nothing. *)
Theorem publication_all_or_nothing (ctx : context) (allowances : list nat) (previous next : Z) (s : quotas) :
  previous <= MaxInt64 → next <= MaxInt64 → quotas_typed s →
  ∃ r s', PreparePublication ctx (prepare_at <$> allowances) previous next s = Some (r, s')
    ∧ ((∀ k, ctx k = None) → 0 <= previous → 0 <= next →
       ((∃ p, r = Ok p) ↔ has_room previous next allowances s))
    ∧ match r with
      | Err _ => same_quotas s s'
      | Ok p =>
          charged previous next allowances s s'
          ∧ (∀ result s2, ¬ valid_result result →
               settle p result s2 = Some ((p, Some (Wrapped (Errno EINVAL))), s2))
          ∧ ∀ result, valid_result result →
              ∃ p2 err s2, settle p result s' = Some ((p2, err), s2)
                ∧ settled_as previous next result allowances s' s2
                ∧ (if bool_decide (result = PublicationUnknown)
                   then ∃ cause, err = Some (Uncertain cause) else err = None)
                ∧ ∀ again s3, settle p2 again s3 = Some ((p2, Some (Wrapped (Errno EINVAL))), s3)
      end.
Proof.
  intros Hp Hn Hs.
  destruct (prepare_undo quotas_typed same_quotas ctx (prepare_at <$> allowances) previous next s)
    as (r & s' & E & Hs' & Hr); [done|done| |done|].
  { apply Forall_fmap, Forall_true. intros i. apply prepare_at_undoable. }
  exists r, s'. split; [done|]. destruct (prepared_exactly ctx allowances previous next s r s') as [Hiff Hok];
    [done..|]. split; [done|]. destruct r as [p|err]; [|done].
  destruct Hok as (H0p & H0n & Hc & ->). split; [done|]. split; [by apply settle_invalid|].
  intros result Hv. destruct (settle_publication previous next (conj H0p Hp) (conj H0n Hn) result
    (rev allowances) s' Hv Hs') as (err & s2 & E2 & S2 & N2).
  eexists {| pp_settlements := []; pp_consumed := true |}, err, s2.
  split; [by apply settle_valid|]. split; [by apply settled_rev|]. split; [done|].
  intros again s3. unfold settle. cbn [pp_consumed]. by destruct (_ && _).
Qed.

(** Two allowances with room for 1000 and 5000 bytes more. *)
Lemma publication_all_or_nothing_witness :
  let s := λ i : nat, {| st_limit := if bool_decide (i = 0%nat) then 9000 else 5000;
                         st_count := 4000; st_fault := None; st_revision := 0 |} in
  (∃ e s', PreparePublication (λ _, None) (prepare_at <$> [1; 0]%nat) 0 2000 s = Some (Err e, s')
     ∧ st_count (s' 0%nat) = 4000)
  ∧ ∃ p s', PreparePublication (λ _, None) (prepare_at <$> [1; 0]%nat) 0 500 s = Some (Ok p, s')
     ∧ st_count (s' 0%nat) = 4500 ∧ st_count (s' 1%nat) = 4500.
Proof.
  intros s. assert (quotas_typed s) by (intros i; split; cbn; [case_bool_decide|]; lia). split.
  - destruct (publication_all_or_nothing (λ _, None) [1; 0]%nat 0 2000 s) as (r & s' & E & Hiff & H');
      [lia|lia|done|].
    destruct r as [p|e].
    + destruct (proj1 (Hiff (λ _, eq_refl) ltac:(lia) ltac:(lia)) (ex_intro _ p eq_refl) 1%nat) as [_ [?|Hroom]];
        [set_solver|done|]. by destruct Hroom.
    + exists e, s'. split; [done|]. destruct (H' 0%nat) as (_ & Hc & _). by rewrite <- Hc.
  - destruct (publication_all_or_nothing (λ _, None) [1; 0]%nat 0 500 s) as (r & s' & E & Hiff & H');
      [lia|lia|done|].
    destruct (proj2 (Hiff (λ _, eq_refl) ltac:(lia) ltac:(lia))) as [p ->].
    { intros i Hi. split; [done|]. right.
      apply elem_of_cons in Hi as [->|[->|[]%not_elem_of_nil]%elem_of_cons]; by vm_compute. }
    exists p, s'. split; [done|]. destruct H' as (Hc & _).
    destruct (Hc 0%nat) as (_ & _ & ->), (Hc 1%nat) as (_ & _ & ->). done.
Defined.
