(* ===== verification/SmbMetadata.v ===== *)
(** * Windows metadata over opaque metadata

    [packages/smb/windows_metadata.go], the conversions of
    [packages/smb/commands_file_info.go] and [packages/smb/content_metadata.go],
    and the sealed byte transformations of [packages/storage/content_metadata.go]
    they rely on: DOS attributes are kept as eight bytes in one namespace of a
    node's opaque metadata, and times travel as FILETIMEs. *)

From S2P Require Import Prelude Bytes Errors Metadata Attributes WireHeader WireText WireRequests WireResponses.

(** ** Calls that panic or fail

    [let? x := m in k]: an error of [m] is returned; [None] is a panic. *)

Definition rbind {A B} (m : option (result A)) (k : A → option (result B)) : option (result B) :=
  match m with
  | Some (Ok a) => k a
  | Some (Err err) => Some (Err err)
  | None => None
  end.

Notation "'let?' x := m 'in' k" := (rbind m (λ x, k))
  (at level 10, x name, m at level 100, k at level 200,
   format "'[v' 'let?'  x  :=  m  'in'  '/' k ']'") : wire_scope.

(** ** Attributes *)

Definition dosReadOnly : Z := 1.
Definition dosHidden : Z := 2.
Definition dosSystem : Z := 4.
Definition dosDirectory : Z := 16.
Definition dosArchive : Z := 32.
Definition dosNormal : Z := 128.
Definition dosReparsePoint : Z := 1024.

Definition dosSettableAttributes : Z :=
  Z.lor (Z.lor (Z.lor (Z.lor dosReadOnly dosHidden) dosSystem) dosArchive) dosNormal.

(** ["smb.windows"] *)
Definition windowsMetadataKey : list Z := [115; 109; 98; 46; 119; 105; 110; 100; 111; 119; 115].

Definition normalizeCreateAttributes (attributes : Z) : result Z :=
  if negb (Z.ldiff attributes (Z.lor dosSettableAttributes dosDirectory) =? 0)
  then Err (Errno EOPNOTSUPP) else Ok (Z.ldiff attributes (Z.lor dosNormal dosDirectory)).

Definition validDOSAttributes (attributes : Z) : bool :=
  (Z.ldiff attributes dosSettableAttributes =? 0)
  && ((Z.land attributes dosNormal =? 0) || (attributes =? dosNormal)).

(** ["SMW"] and the format version. *)
Definition windows_header : list Z := [83; 77; 87; 1].

Definition encodeWindowsMetadata (attributes : Z) : option (result (list Z)) :=
  if negb (validDOSAttributes attributes) then Some (Err (Wrapped (Errno EINVAL)))
  else
    let% data := copy_to 0 8 windows_header (make 8) in
    let% data := PutUint32 4 attributes data in
    Some (Ok data).

Definition decodeWindowsMetadataPayload (data : list Z) : option (result Z) :=
  let% header := (if zlen data <? 4 then Some [] else slice data 0 3) in
  if (zlen data <? 4) || negb (bool_decide (header = take 3 windows_header))
  then Some (Err (Wrapped (Errno EIO)))
  else
    let% version := index data 3 in
    if negb (version =? 1) then Some (Err (Wrapped (Errno EOPNOTSUPP)))
    else if negb (zlen data =? 8) then Some (Err (Wrapped (Errno EIO)))
    else
      let% attributes := Uint32 data 4 in
      if negb (validDOSAttributes attributes) then Some (Err (Wrapped (Errno EIO)))
      else Some (Ok attributes).

Definition decodeWindowsMetadata (values : metadata) : option (result Z) :=
  match CheckMetadata values with
  | Some err => Some (Err (Joined [Errno EIO; err]))
  | None =>
      match values !! windowsMetadataKey with
      | None => Some (Ok 0)
      | Some value => decodeWindowsMetadataPayload (Data value)
      end
  end.

Definition withWindowsMetadata (initial : gmap (list Z) (list Z)) (attributes : Z)
  : option (result (gmap (list Z) (list Z))) :=
  let? data := encodeWindowsMetadata attributes in
  match CheckInitialMetadata initial with
  | Some err => Some (Err err)
  | None =>
      let values := <[windowsMetadataKey := data]> initial in
      match CheckInitialMetadata values with
      | Some err => Some (Err err)
      | None => Some (Ok values)
      end
  end.

(** ** Times *)

Definition filetimeUnixOffset : Z := 11644473600.

(** [^uint64(0) / 10_000_000] and the remainder *)
Definition max_filetime_seconds : Z := 18446744073709551615 / 10000000.
Definition max_filetime_partial : Z := 18446744073709551615 mod 10000000.

Definition toFiletime (value : Time) : result Z :=
  if Unix value <? - filetimeUnixOffset then Err (Wrapped (Errno EIO))
  else if max_filetime_seconds - filetimeUnixOffset <? Unix value then Err (Wrapped (Errno EIO))
  else
    let ticks := u64 (Unix value + filetimeUnixOffset) in
    let partial := Nanosecond value / 100 in
    if (ticks =? max_filetime_seconds) && (max_filetime_partial <? partial)
    then Err (Wrapped (Errno EIO))
    else Ok (u64 (u64 (ticks * 10000000) + partial)).

Definition optionalFiletime (value : option Time) : result Z :=
  match value with None => Ok 0 | Some value => toFiletime value end.

(** [setFiletime]: the instant a client sets; a nil pointer is [None]. *)
Definition setFiletime (value : Z) : result (option Time) :=
  if value =? 0 then Ok None
  else if (value =? -1) || (value =? -2) then Err (Errno EOPNOTSUPP)
  else if value <? 0 then Err (Errno EINVAL)
  else Ok (Some {| Unix := value / 10000000 - filetimeUnixOffset;
                   Nanosecond := value mod 10000000 * 100 |}).

(** ** Captured attributes *)

Definition checkCreateAllocation (a : Attr) : option error :=
  match CheckAllocation a with
  | Some err => Some err
  | None => if negb (at_AllocationKnown a) then Some (Wrapped (Errno EIO)) else None
  end.

Definition projectWindowsAttributes (a : Attr) : option (result Z) :=
  if (at_ID a =? 0) || (if NodeKind_Check (at_Kind a) then true else false)
  then Some (Err (Wrapped (Errno EIO)))
  else
    let? attributes := decodeWindowsMetadata (at_Metadata a) in
    let attributes := if bool_decide (at_Kind a = NodeDirectory)
                      then Z.lor (Z.ldiff attributes dosNormal) dosDirectory else attributes in
    let attributes := if bool_decide (at_Kind a = NodeSymlink)
                      then Z.lor (Z.ldiff attributes dosNormal) dosReparsePoint else attributes in
    Some (Ok (if attributes =? 0 then dosNormal else attributes)).

Record createMetadata := {
  cm_Attributes : Z; cm_CreationTime : Z; cm_LastAccessTime : Z; cm_LastWriteTime : Z;
  cm_ChangeTime : Z; cm_AllocationSize : Z; cm_EndOfFile : Z }.

Definition projectCreateMetadata (a : Attr) : option (result createMetadata) :=
  match checkCreateAllocation a with
  | Some err => Some (Err err)
  | None =>
      let? attributes := projectWindowsAttributes a in
      if at_Size a <? 0 then Some (Err (Wrapped (Errno EIO)))
      else
        let? creation := Some (optionalFiletime (at_BirthTime a)) in
        let? access := Some (toFiletime (at_AccessTime a)) in
        let? write := Some (toFiletime (at_ModTime a)) in
        let? change := Some (optionalFiletime (at_ChangeTime a)) in
        Some (Ok {| cm_Attributes := attributes; cm_CreationTime := creation;
                    cm_LastAccessTime := access; cm_LastWriteTime := write; cm_ChangeTime := change;
                    cm_AllocationSize := at_AllocationSize a;
                    cm_EndOfFile := if bool_decide (at_Kind a = NodeRegular) then at_Size a else 0 |})
  end.

(** The loop of [createAttrBudget] over the instants. *)
Fixpoint check_instants (values : list (option Time)) : option error :=
  match values with
  | [] => None
  | None :: values => check_instants values
  | Some value :: values =>
      match toFiletime value with Err err => Some err | Ok _ => check_instants values end
  end.

(** [createAttrBudget(limit)(attr, metadataBytes)]; [None] is a nil error. *)
Definition createAttrBudget (limit : Z) (a : Attr) (metadataBytes : Z) : option error :=
  if (at_ID a =? 0) || (if NodeKind_Check (at_Kind a) then true else false) || (at_Size a <? 0)
  then Some (Errno EIO)
  else
    match checkCreateAllocation a with
    | Some err => Some err
    | None =>
        match check_instants [at_BirthTime a; Some (at_AccessTime a); Some (at_ModTime a);
                              at_ChangeTime a] with
        | Some err => Some err
        | None =>
            match MetadataRetentionBytes metadataBytes with
            | Err err => Some err
            | Ok retained => if limit <? retained + 512 then Some (Errno EFBIG) else None
            end
        end
    end.

Definition basicInformation (a : Attr) : option (result FileBasicInfo) :=
  let? attributes := projectWindowsAttributes a in
  let? birth := Some (optionalFiletime (at_BirthTime a)) in
  let? access := Some (toFiletime (at_AccessTime a)) in
  let? modified := Some (toFiletime (at_ModTime a)) in
  let? change := Some (optionalFiletime (at_ChangeTime a)) in
  if (MaxInt64 <? birth) || (MaxInt64 <? access) || (MaxInt64 <? modified) || (MaxInt64 <? change)
  then Some (Err (Errno EIO))
  else Some (Ok {| bi_CreationTime := birth; bi_LastAccessTime := access; bi_LastWriteTime := modified;
                   bi_ChangeTime := change; bi_Attributes := attributes |}).

(** What [basicMutation] fills of a [storage.FileMutation]. *)
Record basic_command := {
  bc_BirthTime : option Time; bc_AccessTime : option Time; bc_ModTime : option Time;
  bc_Metadata : option (list Z) }. (* the data under the Windows key *)

Definition basicMutation (info : FileBasicInfo) (kind : NodeKind) : option (result basic_command) :=
  let? birth := Some (setFiletime (bi_CreationTime info)) in
  let? access := Some (setFiletime (bi_LastAccessTime info)) in
  let? modified := Some (setFiletime (bi_LastWriteTime info)) in
  let command data := {| bc_BirthTime := birth; bc_AccessTime := access; bc_ModTime := modified;
                         bc_Metadata := data |} in
  if bi_ChangeTime info <? -2 then Some (Err (Errno EINVAL))
  else if negb (bi_ChangeTime info =? 0) then Some (Err (Errno EOPNOTSUPP))
  else if bi_Attributes info =? 0 then Some (Ok (command None))
  else if negb (Z.land (bi_Attributes info) dosDirectory =? 0) && negb (bool_decide (kind = NodeDirectory))
  then Some (Err (Errno EINVAL))
  else
    let attributes := Z.ldiff (bi_Attributes info) dosDirectory in
    if negb (Z.ldiff attributes dosSettableAttributes =? 0) then Some (Err (Errno EOPNOTSUPP))
    else if negb (Z.land attributes dosNormal =? 0) && negb (attributes =? dosNormal)
    then Some (Err (Errno EINVAL))
    else
      let? data := encodeWindowsMetadata (Z.ldiff attributes dosNormal) in
      Some (Ok (command (Some data))).

(** ** Content effects *)

Record ContentMetadataEffect := {
  ce_Namespace : list Z; ce_PayloadBytes : Z; ce_PresentPrefix : list Z; ce_AbsentPayload : list Z;
  ce_ClearMask : list Z; ce_SetMask : list Z }.

Definition MaxContentMetadataEffects : Z := 16.
Definition MaxContentMetadataEffectBytes : Z := 65536.

(** [bytes.HasPrefix] *)
Definition has_prefix (s prefix : list Z) : bool := bool_decide (take (length prefix) s = prefix).

(** [ContentMetadataEffect.Check]; [None] is a nil error.  The masks are at
    least as long as the prefix when they are read. *)
Definition Effect_Check (e : ContentMetadataEffect) : option error :=
  match CheckMetadataNamespace (ce_Namespace e) with
  | Some err => Some err
  | None =>
      if ce_PayloadBytes e <? 1 then Some (Errno EINVAL)
      else if MaxMetadataValueBytes <? ce_PayloadBytes e then Some (Errno EFBIG)
      else if negb (zlen (ce_ClearMask e) =? ce_PayloadBytes e)
              || negb (zlen (ce_SetMask e) =? ce_PayloadBytes e)
              || negb (zlen (ce_AbsentPayload e) =? ce_PayloadBytes e)
              || (ce_PayloadBytes e <? zlen (ce_PresentPrefix e))
      then Some (Errno EINVAL)
      else if negb (has_prefix (ce_AbsentPayload e) (ce_PresentPrefix e)) then Some (Errno EINVAL)
      else
        let n := length (ce_PresentPrefix e) in
        if existsb (λ p, negb (p.1 =? 0) || negb (p.2 =? 0))
                   (zip (take n (ce_ClearMask e)) (take n (ce_SetMask e)))
        then Some (Errno EINVAL) else None
  end.

(** The loop of [Apply]. *)
Definition masked (source clear set : list Z) : list Z :=
  zip_with (λ b m, Z.lor (Z.ldiff b m.1) m.2) source (zip clear set).

(** [Apply]; a nil value is [None]. *)
Definition Effect_Apply (e : ContentMetadataEffect) (value : option OpaquePayload) : result (list Z) :=
  match Effect_Check e with
  | Some err => Err err
  | None =>
      match value with
      | None => Ok (masked (ce_AbsentPayload e) (ce_ClearMask e) (ce_SetMask e))
      | Some value =>
          if (zlen (Version value) =? 0) || (MaxObservationTokenBytes <? zlen (Version value))
             || negb (zlen (Data value) =? ce_PayloadBytes e)
             || negb (has_prefix (Data value) (ce_PresentPrefix e))
          then Err (Errno EIO)
          else Ok (masked (Data value) (ce_ClearMask e) (ce_SetMask e))
      end
  end.

(** [windowsContentEffects]: its one effect. *)
Definition windowsContentEffects : option ContentMetadataEffect :=
  let% clearMask := PutUint32 4 dosNormal (make 8) in
  let% setMask := PutUint32 4 dosArchive (make 8) in
  let% absent := copy_to 0 8 windows_header (make 8) in
  Some {| ce_Namespace := windowsMetadataKey; ce_PayloadBytes := 8;
          ce_PresentPrefix := windows_header; ce_AbsentPayload := absent; ce_ClearMask := clearMask;
          ce_SetMask := setMask |}.

(** ** Theorems *)

(** The valid attributes are few enough to be tried one by one. *)
Lemma valid_range a : validDOSAttributes a = true → 0 <= a < 256.
Proof.
  unfold validDOSAttributes. rewrite andb_true_iff, Z.eqb_eq. intros [H _].
  pose proof (Z.lor_ldiff_and a dosSettableAttributes) as E. rewrite H, Z.lor_0_l in E.
  change dosSettableAttributes with 167 in *.
  assert (a mod 256 = a) as Hm.
  { change 256 with (2 ^ 8). rewrite <- Z.land_ones by lia. rewrite <- E at 1. rewrite <- Z.land_assoc. exact E. }
  rewrite <- Hm. by apply Z.mod_pos_bound.
Qed.

Lemma each_valid (P : Z → bool) :
  forallb (λ a, negb (validDOSAttributes a) || P a) (seqZ 0 256) = true →
  ∀ a, validDOSAttributes a = true → P a = true.
Proof.
  intros H a Ha. pose proof (valid_range a Ha) as Hr. rewrite forallb_forall in H.
  specialize (H a). rewrite Ha in H. apply H, list_elem_of_In, elem_of_seqZ. lia.
Qed.

(** The eight bytes attributes are kept in. *)
Definition windows_payload (a : Z) : list Z := windows_header ++ le_split 4 a.

Lemma encode_payload a :
  validDOSAttributes a = true → encodeWindowsMetadata a = Some (Ok (windows_payload a)).
Proof. intros Ha. unfold encodeWindowsMetadata. rewrite Ha. reflexivity. Qed.

Lemma read_payload a : 0 <= a < 256 → Uint32 (windows_payload a) 4 = Some a.
Proof.
  intros Ha. unfold Uint32, windows_payload. rewrite le_get_app_r by done.
  change (4 - zlen windows_header) with 0. rewrite <- (app_nil_r (le_split 4 a)), le_get_split_app.
  f_equal. apply Z.mod_small. lia.
Qed.

Lemma decode_payload a :
  validDOSAttributes a = true → decodeWindowsMetadataPayload (windows_payload a) = Some (Ok a).
Proof.
  intros Ha. unfold decodeWindowsMetadataPayload. cbn -[Uint32 windows_payload].
  change (zlen (windows_payload a)) with 8. change (slice (windows_payload a) 0 3) with (Some [83; 77; 87]).
  cbn -[Uint32 windows_payload]. change (index (windows_payload a) 3) with (Some 1). cbn -[Uint32 windows_payload].
  rewrite read_payload by (by apply valid_range). cbn [mbind option_bind]. by rewrite Ha.
Qed.

(** Whatever decodes is the payload of what it decodes to. *)
Lemma decode_payload_inv data a :
  bytes data → decodeWindowsMetadataPayload data = Some (Ok a) →
  validDOSAttributes a = true ∧ data = windows_payload a.
Proof.
  intros Hb. unfold decodeWindowsMetadataPayload. destruct (Z.ltb_spec (zlen data) 4) as [|H4]; [done|].
  destruct (slice data 0 3) as [header|] eqn:Hh; [|done]. cbn [mbind option_bind orb].
  destruct (bool_decide_reflect (header = take 3 windows_header)) as [->|]; [|done]. cbn [negb].
  destruct (index data 3) as [version|] eqn:Hv; [|done]. cbn [mbind option_bind].
  destruct (Z.eqb_spec version 1) as [->|]; [|done]. destruct (Z.eqb_spec (zlen data) 8) as [H8|]; [|done]. cbn [negb].
  destruct (Uint32 data 4) as [attributes|] eqn:Ha; [|done]. cbn [mbind option_bind].
  destruct (validDOSAttributes attributes) eqn:Hvalid; [|done]. intros [= <-]. split; [done|].
  pose proof (le_get_split 4 data 4 attributes Hb Ha) as Hs.
  assert (slice data 3 4 = Some [1]) as H1.
  { rewrite slice_Some by lia. change (Z.to_nat (4 - 3)) with 1%nat. change (data !! 3%nat = Some 1) in Hv.
    change (Z.to_nat 3) with 3%nat. rewrite (drop_S _ _ _ Hv). done. }
  pose proof (slice_join data _ _ 0 3 4 Hh H1) as H04. rewrite <- H8 in Hs at 1.
  exact (slice_cut data _ _ 4 H04 Hs).
Qed.

(** Times are converted exactly.  [toFiletime] is the number of 100 ns
    ticks since 1601, rounded down and never wrapped, for exactly the instants
    whose count fits 64 bits unsigned; every other instant is refused.  A time a client
    sets and reads back is the one it set. *)
Theorem filetime_exact :
  (∀ t, 0 <= Nanosecond t < 1000000000 → is_int64 (Unix t) →
   let ticks := (Unix t + filetimeUnixOffset) * 10000000 + Nanosecond t / 100 in
   toFiletime t = if bool_decide (is_u64 ticks) then Ok ticks else Err (Wrapped (Errno EIO)))
  ∧ ∀ v, 0 < v <= MaxInt64 →
      ∃ t, setFiletime v = Ok (Some t) ∧ 0 <= Nanosecond t < 1000000000 ∧ toFiletime t = Ok v.
Proof.
  assert (Hto : ∀ t, 0 <= Nanosecond t < 1000000000 →
   let ticks := (Unix t + filetimeUnixOffset) * 10000000 + Nanosecond t / 100 in
   toFiletime t = if bool_decide (is_u64 ticks) then Ok ticks else Err (Wrapped (Errno EIO))).
  { intros [seconds nanos] Hn ticks. cbn [Unix Nanosecond] in *. unfold toFiletime. cbn [Unix Nanosecond].
    assert (0 <= nanos / 100 < 10000000) as Hp by (Z.to_euclidean_division_equations; lia).
    unfold filetimeUnixOffset, max_filetime_seconds, max_filetime_partial in *.
    change (18446744073709551615 / 10000000) with 1844674407370. change (18446744073709551615 mod 10000000) with 9551615.
    destruct (Z.ltb_spec seconds (- (11644473600))) as [H1|H1].
    { rewrite bool_decide_false; [done|]. unfold is_u64, ticks. lia. }
    destruct (Z.ltb_spec (1844674407370 - 11644473600) seconds) as [H2|H2].
    { rewrite bool_decide_false; [done|]. unfold is_u64, ticks. lia. }
    rewrite (u64_small (seconds + 11644473600)) by (unfold is_u64; lia).
    rewrite (u64_small (_ * _)) by (unfold is_u64; lia).
    destruct (Z.eqb_spec (seconds + 11644473600) 1844674407370) as [H3|H3];
      [destruct (Z.ltb_spec 9551615 (nanos / 100)) as [H4|H4]|]; cbn [andb].
    - rewrite bool_decide_false; [done|]. unfold is_u64, ticks. lia.
    - rewrite u64_small, bool_decide_true by (unfold is_u64, ticks; lia). done.
    - rewrite u64_small, bool_decide_true by (unfold is_u64, ticks; lia). done. }
  split; [by intros t Hn _; apply Hto|]. intros v Hv. unfold setFiletime.
  rewrite !(proj2 (Z.eqb_neq _ _)), (proj2 (Z.ltb_ge _ _)) by lia. cbn [orb]. eexists. split; [done|]. cbn [Nanosecond].
  split; [Z.to_euclidean_division_equations; lia|]. rewrite Hto by (cbn [Nanosecond]; Z.to_euclidean_division_equations; lia).
  cbn [Unix Nanosecond]. assert ((v / 10000000 - filetimeUnixOffset + filetimeUnixOffset) * 10000000
    + v mod 10000000 * 100 / 100 = v) as ->.
  { rewrite Z.div_mul by lia. pose proof (Z.div_mod v 10000000). lia. }
  rewrite bool_decide_true; [done|]. unfold is_u64. lia.
Qed.

Lemma filetime_exact_witness :
  toFiletime {| Unix := 0; Nanosecond := 150 |} = Ok 116444736000000001
  ∧ ∃ t, setFiletime 7 = Ok (Some t) ∧ 0 <= Nanosecond t < 1000000000 ∧ toFiletime t = Ok 7.
Proof.
  split; [|apply filetime_exact; lia].
  rewrite (proj1 filetime_exact) by (cbn; unfold is_int64; lia). vm_compute. reflexivity.
Defined.

(** What a client is shown for stored attributes [a] of a node. *)
Definition shown_attributes (kind : NodeKind) (a : Z) : Z :=
  match kind with
  | NodeDirectory => Z.lor (Z.ldiff a dosNormal) dosDirectory
  | NodeSymlink => Z.lor (Z.ldiff a dosNormal) dosReparsePoint
  | _ => if a =? 0 then dosNormal else a
  end.

Definition bit (r flag : Z) : bool := negb (Z.land r flag =? 0).

(** What makes attributes presentable: never none, NORMAL only alone, and the
    structural bits those of the kind. *)
Definition presentable (kind : NodeKind) (r : Z) : bool :=
  negb (r =? 0) && (negb (bit r dosNormal) || (r =? dosNormal))
  && Bool.eqb (bit r dosDirectory) (bool_decide (kind = NodeDirectory))
  && Bool.eqb (bit r dosReparsePoint) (bool_decide (kind = NodeSymlink)).

Lemma project_shown (a : Attr) attributes :
  at_ID a ≠ 0 → at_Kind a ≠ NodeInvalid →
  decodeWindowsMetadata (at_Metadata a) = Some (Ok attributes) → validDOSAttributes attributes = true →
  projectWindowsAttributes a = Some (Ok (shown_attributes (at_Kind a) attributes))
  ∧ presentable (at_Kind a) (shown_attributes (at_Kind a) attributes) = true.
Proof.
  intros Hid Hk Hd Hv. unfold projectWindowsAttributes. rewrite (proj2 (Z.eqb_neq _ _)) by done.
  unfold NodeKind_Check. rewrite bool_decide_false by done. cbn [orb]. rewrite Hd. cbn [rbind].
  assert (Hif : ∀ x, negb (x =? 0) = true → (if x =? 0 then dosNormal else x) = x)
    by (intros x ->%negb_true_iff; done).
  clear Hid Hd. revert Hk. destruct (at_Kind a); intros Hk; [done|..].
  - rewrite !bool_decide_false by done. split; [done|]. revert attributes Hv.
    apply (each_valid (λ x, presentable NodeRegular (shown_attributes NodeRegular x))). vm_compute. reflexivity.
  - rewrite (bool_decide_true (NodeDirectory = NodeDirectory)), (bool_decide_false (NodeDirectory = NodeSymlink)), Hif; try done.
    + split; [done|]. revert attributes Hv.
      apply (each_valid (λ x, presentable NodeDirectory (shown_attributes NodeDirectory x))). vm_compute. reflexivity.
    + revert attributes Hv. apply (each_valid (λ x, negb (shown_attributes NodeDirectory x =? 0))).
      vm_compute. reflexivity.
  - rewrite (bool_decide_false (NodeSymlink = NodeDirectory)), (bool_decide_true (NodeSymlink = NodeSymlink)), Hif; try done.
    + split; [done|]. revert attributes Hv.
      apply (each_valid (λ x, presentable NodeSymlink (shown_attributes NodeSymlink x))). vm_compute. reflexivity.
    + revert attributes Hv. apply (each_valid (λ x, negb (shown_attributes NodeSymlink x =? 0))).
      vm_compute. reflexivity.
Qed.

(** Attributes a client sets are the attributes clients see.  When a set
    of basic information is accepted with attributes, and its payload becomes
    the node's value in the Windows namespace, every later projection succeeds
    and shows those attributes: DIRECTORY and NORMAL as given are dropped,
    DIRECTORY and REPARSE_POINT follow the node's kind, and NORMAL stands for
    none, and only alone. *)
Theorem attributes_set_are_shown (info : FileBasicInfo) (kind : NodeKind) (command : basic_command)
    (data version : list Z) (a : Attr) :
  basicMutation info kind = Some (Ok command) → bc_Metadata command = Some data →
  at_ID a ≠ 0 → at_Kind a = kind → kind ≠ NodeInvalid → CheckMetadata (at_Metadata a) = None →
  at_Metadata a !! windowsMetadataKey = Some {| Version := version; Data := data |} →
  let attributes := Z.ldiff (Z.ldiff (bi_Attributes info) dosDirectory) dosNormal in
  projectWindowsAttributes a = Some (Ok (shown_attributes kind attributes))
  ∧ presentable kind (shown_attributes kind attributes) = true.
Proof.
  intros Hb Hdata Hid <- Hk Hc Hkey attributes.
  assert (validDOSAttributes attributes = true ∧ data = windows_payload attributes) as [Hv ->].
  { unfold basicMutation in Hb. destruct (setFiletime (bi_CreationTime info)); [|done].
    destruct (setFiletime (bi_LastAccessTime info)); [|done]. destruct (setFiletime (bi_LastWriteTime info)); [|done].
    cbn [rbind] in Hb. repeat (destruct (_ : bool); [by simplify_eq|]). fold attributes in Hb.
    destruct (validDOSAttributes attributes) eqn:Hv.
    - rewrite encode_payload in Hb by done. cbn [rbind] in Hb. injection Hb as <-. by injection Hdata as <-.
    - unfold encodeWindowsMetadata in Hb. by rewrite Hv in Hb. }
  apply project_shown; [done|done| |done]. unfold decodeWindowsMetadata. rewrite Hc, Hkey. by apply decode_payload.
Qed.

Lemma attributes_set_are_shown_witness :
  projectWindowsAttributes
    {| at_ID := 9; at_Kind := NodeDirectory; at_BirthTime := None; at_ChangeTime := None;
       at_Metadata := {[ windowsMetadataKey := {| Version := [1]; Data := [83; 77; 87; 1; 3; 0; 0; 0] |} ]};
       at_Size := 0; at_AllocationSize := 0; at_AllocationKnown := true;
       at_AccessTime := {| Unix := 0; Nanosecond := 0 |}; at_ModTime := {| Unix := 0; Nanosecond := 0 |} |}
  = Some (Ok 19).
Proof.
  destruct (attributes_set_are_shown
    {| bi_CreationTime := 0; bi_LastAccessTime := 0; bi_LastWriteTime := 5; bi_ChangeTime := 0; bi_Attributes := 19 |}
    NodeDirectory
    {| bc_BirthTime := None; bc_AccessTime := None;
       bc_ModTime := Some {| Unix := -11644473600; Nanosecond := 500 |};
       bc_Metadata := Some [83; 77; 87; 1; 3; 0; 0; 0] |}
    [83; 77; 87; 1; 3; 0; 0; 0] [1]
    {| at_ID := 9; at_Kind := NodeDirectory; at_BirthTime := None; at_ChangeTime := None;
       at_Metadata := {[ windowsMetadataKey := {| Version := [1]; Data := [83; 77; 87; 1; 3; 0; 0; 0] |} ]};
       at_Size := 0; at_AllocationSize := 0; at_AllocationKnown := true;
       at_AccessTime := {| Unix := 0; Nanosecond := 0 |}; at_ModTime := {| Unix := 0; Nanosecond := 0 |} |})
    as [H _]; [vm_compute; reflexivity|reflexivity|done|reflexivity|done|vm_compute; reflexivity|vm_compute; reflexivity|].
  exact H.
Defined.

(** A write marks the file for archiving.  The content effect the server
    seals into its references is a valid one, and applied to a node's Windows
    value, or to its absence, it yields a valid value in which ARCHIVE is set,
    NORMAL cleared and every other attribute kept. *)
Theorem write_archives :
  ∃ e, windowsContentEffects = Some e ∧ Effect_Check e = None
    ∧ (∃ data, Effect_Apply e None = Ok data ∧ decodeWindowsMetadataPayload data = Some (Ok dosArchive))
    ∧ ∀ value a,
        bytes (Data value) → 1 <= zlen (Version value) <= MaxObservationTokenBytes →
        decodeWindowsMetadataPayload (Data value) = Some (Ok a) →
        ∃ data, Effect_Apply e (Some value) = Ok data
          ∧ decodeWindowsMetadataPayload data = Some (Ok (Z.lor (Z.ldiff a dosNormal) dosArchive)).
Proof.
  destruct windowsContentEffects as [e|] eqn:Ee; [|vm_compute in Ee; done].
  assert (Effect_Check e = None) as Hc by (vm_compute in Ee; injection Ee as <-; vm_compute; reflexivity).
  exists e. split; [done|]. split; [done|]. split.
  { eexists. vm_compute in Ee. injection Ee as <-. split; vm_compute; reflexivity. }
  intros [version data] a Hb Hv Hd. cbn [Version Data] in *.
  destruct (decode_payload_inv data a Hb Hd) as [Hva ->].
  assert (Effect_Apply e (Some {| Version := version; Data := windows_payload a |})
          = Ok (masked (windows_payload a) (ce_ClearMask e) (ce_SetMask e))) as ->.
  { unfold Effect_Apply. rewrite Hc. cbn [Version Data]. unfold MaxObservationTokenBytes in *.
    rewrite (proj2 (Z.eqb_neq (zlen version) 0)), (proj2 (Z.ltb_ge 64 (zlen version))) by lia.
    vm_compute in Ee. injection Ee as <-. reflexivity. }
  eexists. split; [done|]. clear Hb Hd Hc.
  set (next := Z.lor (Z.ldiff a dosNormal) dosArchive).
  assert (validDOSAttributes next = true ∧ masked (windows_payload a) (ce_ClearMask e) (ce_SetMask e) = windows_payload next)
    as [Hn ->]; [|by apply decode_payload].
  apply (each_valid (λ a, validDOSAttributes (Z.lor (Z.ldiff a dosNormal) dosArchive)
    && bool_decide (masked (windows_payload a) (ce_ClearMask e) (ce_SetMask e)
                    = windows_payload (Z.lor (Z.ldiff a dosNormal) dosArchive)))) in Hva.
  - apply andb_true_iff in Hva as [? ?%bool_decide_eq_true]. done.
  - vm_compute in Ee. injection Ee as <-. vm_compute. reflexivity.
Qed.
