(* ===== verification/SmbNames.v ===== *)
(** * SMB names

    [packages/smb/names.go] and [packages/smb/name_compare.go]: tree-relative
    paths, the Windows rules for one component, the projection of a directory
    onto Windows names and the selection of one of them.  A Go string is its
    bytes; a name in UTF-16 is its units. *)

From S2P Require Import Prelude Bytes WireText Errors Metadata Attributes Paths SmbUppercase.

(** ** Strings *)

Definition maxNameUnits : Z := 255.
Definition maxPathUnits : Z := 32767.
Definition MaxNamespaceGuards : Z := 256.
Definition MaxDirectoryEntries : Z := 65536.

Definition backslash : Z := 92.
Definition dot : Z := 46.
Definition space : Z := 32.

(** [strings.HasPrefix] *)
Definition HasPrefix (s prefix : list Z) : bool := bool_decide (take (length prefix) s = prefix).

(** [strings.HasSuffix] of one byte *)
Definition ends_with (c : Z) (s : list Z) : bool :=
  match last s with Some x => x =? c | None => false end.

(** What [strings.Cut(s, ".")] puts before the separator *)
Fixpoint cut_before (sep : Z) (s : list Z) : list Z :=
  match s with
  | [] => []
  | c :: s => if c =? sep then [] else c :: cut_before sep s
  end.

(** [strings.TrimRight(s, " ")] *)
Fixpoint TrimRight (c : Z) (s : list Z) : list Z :=
  match s with
  | [] => []
  | x :: s =>
      match TrimRight c s with
      | [] => if x =? c then [] else [x]
      | rest => x :: rest
      end
  end.

(** ** names.go *)

Fixpoint utf16_length (rs : list Z) (length : Z) : Z :=
  match rs with
  | [] => length
  | r :: rs => utf16_length rs (if 65535 <? r then length + 1 + 1 else length + 1)
  end.

Definition utf16Length (value : list Z) : Z := utf16_length (runes value) 0.

Definition asciiNameEqual (left right : list Z) : bool :=
  if negb (zlen left =? zlen right) then false
  else
    forallb (λ p, (if (97 <=? p.1) && (p.1 <=? 122) then p.1 - 32 else p.1) =? p.2)
            (zip left right).

(** The nine characters a component cannot have: angle brackets, colon, quote,
    slash, backslash, bar, question mark and star. *)
Definition reserved_runes : list Z := [60; 62; 58; 34; 47; 92; 124; 63; 42].

(** "CON", "PRN", "AUX", "NUL" *)
Definition reserved_stems : list (list Z) := [[67; 79; 78]; [80; 82; 78]; [65; 85; 88]; [78; 85; 76]].

(** The suffix of a serial or parallel port: a digit from 1 to 9 or one of the
    superscripts 1, 2 and 3 in UTF-8. *)
Definition port_suffix (suffix : list Z) : bool :=
  match suffix with
  | [c] => (49 <=? c) && (c <=? 57)
  | _ => bool_decide (suffix = [194; 185]) || bool_decide (suffix = [194; 178])
         || bool_decide (suffix = [194; 179])
  end.

(** [None] is a nil error. *)
Definition checkWindowsLeaf (name : list Z) : option error :=
  if bool_decide (name = []) || negb (ValidString name) || (MaxLeafBytes <? zlen name)
     || (maxNameUnits <? utf16Length name) || bool_decide (name = [dot])
     || bool_decide (name = [dot; dot]) || ends_with dot name || ends_with space name
  then Some (Sentinel errNameInvalid)
  else if existsb (λ r, (r <? 32) || existsb (Z.eqb r) reserved_runes) (runes name)
  then Some (Sentinel errNameInvalid)
  else
    let stem := TrimRight space (cut_before dot name) in
    if existsb (asciiNameEqual stem) reserved_stems then Some (Sentinel errNameInvalid)
    else if (3 <=? zlen stem)
            && (asciiNameEqual (take 3 stem) [67; 79; 77] || asciiNameEqual (take 3 stem) [76; 80; 84])
            && port_suffix (drop 3 stem)
    then Some (Sentinel errNameInvalid)
    else None.

Record smbPath := { components : list (list Z); directoryRequired : bool }.

(** The first error of the loop over the parts. *)
Fixpoint check_leaves (parts : list (list Z)) : option error :=
  match parts with
  | [] => None
  | part :: parts =>
      match checkWindowsLeaf part with Some err => Some err | None => check_leaves parts end
  end.

Definition parseSMBPath (name : list Z) : result smbPath :=
  if negb (ValidString name) || (maxPathUnits <? utf16Length name)
     || HasPrefix name [backslash; backslash]
  then Err (Sentinel errNameInvalid)
  else if existsb (Z.eqb 58) (runes name) then Err (Wrapped (Errno EOPNOTSUPP))
  else if bool_decide (name = []) then Ok {| components := []; directoryRequired := false |}
  else
    let name := if HasPrefix name [backslash] then drop 1 name else name in
    if bool_decide (name = []) then Ok {| components := []; directoryRequired := true |}
    else
      let directory := ends_with backslash name in
      let name := if directory then take (length name - 1) name else name in
      let parts := Split backslash name in
      if MaxNamespaceGuards <? zlen parts then Err (Errno EFBIG)
      else
        match check_leaves parts with
        | Some err => Err err
        | None => Ok {| components := parts; directoryRequired := directory |}
        end.

Fixpoint name_units (rs : list Z) : list Z :=
  match rs with
  | [] => []
  | r :: rs => (if r <=? 65535 then [r] else utf16_encode_rune r) ++ name_units rs
  end.

Definition nameUnits (name : list Z) : list Z := name_units (runes name).

(** ** name_compare.go *)

(** The loop over the common length. *)
Fixpoint compare_units (lefts rights : list Z) : Z :=
  match lefts, rights with
  | l :: lefts, r :: rights =>
      let a := uppercaseNameUnit l in
      let b := uppercaseNameUnit r in
      if a <? b then -1 else if b <? a then 1 else compare_units lefts rights
  | [], [] => 0
  | [], _ :: _ => -1
  | _ :: _, [] => 1
  end.

Definition portableNameCompare (left right : list Z) : result Z :=
  if (zlen left =? 0) || (zlen right =? 0) || (maxNameUnits <? zlen left)
     || (maxNameUnits <? zlen right)
  then Err (Errno EINVAL) else Ok (compare_units left right).

(** ** Projection and selection *)

Record projectedName := { pn_units : list Z; pn_entry : nat }.

Definition nameComparer := list Z → list Z → result Z.

(** The loop that checks every entry and projects its name. *)
Fixpoint project_entries (i : nat) (ids : list Z) (entries : list Entry)
  : result (list projectedName) :=
  match entries with
  | [] => Ok []
  | entry :: entries =>
      match checkWindowsLeaf (en_Name entry) with
      | Some err => Err err
      | None =>
          if (at_ID (en_Attr entry) =? 0) || existsb (Z.eqb (at_ID (en_Attr entry))) ids
             || (if NodeKind_Check (at_Kind (en_Attr entry)) then true else false)
             || bool_decide (at_Kind (en_Attr entry) = NodeRegular) && (at_Size (en_Attr entry) <? 0)
          then Err (Errno EIO)
          else
            match project_entries (S i) (at_ID (en_Attr entry) :: ids) entries with
            | Err err => Err err
            | Ok rest => Ok ({| pn_units := nameUnits (en_Name entry); pn_entry := i |} :: rest)
            end
      end
  end.

(** [sort.Slice] by [order < 0]; the first comparison that fails is the
    failure.  What sorting algorithm runs does not show: names without equals
    have one sorted order, and names with equals are refused below. *)
Fixpoint sort_insert (compare : nameComparer) (x : projectedName) (l : list projectedName)
  : result (list projectedName) :=
  match l with
  | [] => Ok [x]
  | y :: l =>
      match compare (pn_units y) (pn_units x) with
      | Err err => Err err
      | Ok order =>
          if order <? 0 then
            match sort_insert compare x l with Err err => Err err | Ok l => Ok (y :: l) end
          else Ok (x :: y :: l)
      end
  end.

Fixpoint sort_names (compare : nameComparer) (l : list projectedName) : result (list projectedName) :=
  match l with
  | [] => Ok []
  | x :: l =>
      match sort_names compare l with Err err => Err err | Ok l => sort_insert compare x l end
  end.

(** The loop over neighbours; [None] is a nil error. *)
Fixpoint check_neighbours (compare : nameComparer) (l : list projectedName) : option error :=
  match l with
  | x :: ((y :: _) as rest) =>
      match compare (pn_units x) (pn_units y) with
      | Err err => Some err
      | Ok order =>
          if order =? 0 then Some (Sentinel errNameAmbiguous) else check_neighbours compare rest
      end
  | _ => None
  end.

Definition projectDirectory (entries : list Entry) (compare : nameComparer)
  : result (list projectedName) :=
  if MaxDirectoryEntries <? zlen entries then Err (Errno EFBIG)
  else
    match project_entries 0 [] entries with
    | Err err => Err err
    | Ok projected =>
        match sort_names compare projected with
        | Err err => Err err
        | Ok projected =>
            match check_neighbours compare projected with
            | Some err => Err err
            | None => Ok projected
            end
        end
    end.

(** The binary search; [None] is the panic of an index out of range. *)
Fixpoint select_loop (fuel : nat) (projected : list projectedName) (wanted : list Z)
    (compare : nameComparer) (low high : nat) : option (result (nat * bool)) :=
  match fuel with
  | O => None
  | S fuel =>
      if (low <? high)%nat then
        let mid := (low + (high - low) / 2)%nat in
        let% at_mid := projected !! mid in
        match compare (pn_units at_mid) wanted with
        | Err err => Some (Err err)
        | Ok order =>
            if order =? 0 then Some (Ok (pn_entry at_mid, true))
            else if order <? 0 then select_loop fuel projected wanted compare (S mid) high
            else select_loop fuel projected wanted compare low mid
        end
      else Some (Ok (0%nat, false))
  end.

Definition selectName (projected : list projectedName) (wanted : list Z) (compare : nameComparer)
  : option (result (nat * bool)) :=
  select_loop (S (length projected)) projected wanted compare 0 (length projected).

(** ** Orders *)

(** What the projection and the selection need of a comparer: on valid names it
    answers, by the order of some key. *)
Class Comparer (compare : nameComparer) (valid : list Z → Prop) := {
  key : list Z → list Z;
  compare_key a b : valid a → valid b → ∃ o, compare a b = Ok o ∧ (o ?= 0) = lex (key a) (key b) }.
Arguments key _ _ {_}.

Section selection.
  Context (compare : nameComparer) (valid : list Z → Prop) `{!Comparer compare valid}.
  Notation order := (key compare valid).
  Notation name_key p := (order (pn_units p)).

Definition name_lt (p q : projectedName) : Prop := lex (name_key p) (name_key q) = Lt.
Definition name_le (p q : projectedName) : Prop := lex (name_key p) (name_key q) ≠ Gt.
Definition all_valid (l : list projectedName) : Prop := Forall (λ p, valid (pn_units p)) l.

Lemma name_le_trans p q r : name_le p q → name_le q r → name_le p r.
Proof.
  unfold name_le. destruct (lex (name_key p) (name_key q)) eqn:E1; [..|done].
  - apply lex_eq in E1. by rewrite E1.
  - intros _. destruct (lex (name_key q) (name_key r)) eqn:E2; [..|done].
    + apply lex_eq in E2. intros _. rewrite <- E2. congruence.
    + intros _. rewrite (lex_trans _ _ _ E1 E2). done.
Qed.

Lemma sort_insert_ok x l :
  valid (pn_units x) → all_valid l → StronglySorted name_le l →
  ∃ l', sort_insert compare x l = Ok l' ∧ l' ≡ₚ x :: l ∧ StronglySorted name_le l'.
Proof.
  intros Hx. induction l as [|y l IH]; intros Hl Hs; cbn [sort_insert].
  { eexists. split; [done|]. split; [done|]. repeat constructor. }
  inversion_clear Hl as [|? ? Hy Hl']. inversion_clear Hs as [|? ? Hs' Hy'].
  destruct (compare_key (pn_units y) (pn_units x) Hy Hx) as (o & -> & Ho).
  destruct (Z.ltb_spec o 0) as [H|H].
  - destruct (IH Hl' Hs') as (l' & -> & Hp & Hsl). eexists. split; [done|]. split.
    { rewrite Hp. constructor. }
    constructor; [done|]. apply Z.compare_lt_iff in H. rewrite H in Ho. rewrite Hp. constructor; [|done].
    unfold name_le. by rewrite <- Ho.
  - eexists. split; [done|]. split; [done|]. constructor; [by constructor|].
    assert (name_le x y) as Hxy.
    { unfold name_le. rewrite lex_flip, <- Ho. destruct (Z.compare_spec o 0); cbn; lia || done. }
    constructor; [done|]. eapply Forall_impl; [exact Hy'|]. intros z. by apply name_le_trans.
Qed.

Lemma sort_names_ok l :
  all_valid l → ∃ l', sort_names compare l = Ok l' ∧ l' ≡ₚ l ∧ StronglySorted name_le l'.
Proof.
  induction 1 as [|x l Hx Hl (l' & H & Hp & Hs)]; cbn [sort_names].
  { eexists. split; [done|]. split; [done|constructor]. }
  rewrite H. destruct (sort_insert_ok x l' Hx) as (l'' & -> & Hp' & Hs').
  { unfold all_valid. by rewrite Hp. } { done. }
  eexists. split; [done|]. split; [by rewrite Hp', Hp|done].
Qed.

Lemma check_neighbours_ok l :
  all_valid l → StronglySorted name_le l →
  (check_neighbours compare l = None ∧ StronglySorted name_lt l)
  ∨ (check_neighbours compare l = Some (Sentinel errNameAmbiguous)
     ∧ ¬ NoDup ((λ p, name_key p) <$> l)).
Proof.
  induction l as [|x l IH]; intros Hl Hs; [left; split; [done|constructor]|].
  inversion_clear Hl as [|? ? Hx Hl']. inversion_clear Hs as [|? ? Hs' Hx'].
  destruct l as [|y l]; [left; split; [done|repeat constructor]|].
  inversion Hl' as [|? ? Hy _]; subst. inversion Hx' as [|? ? Hxy Hxl]; subst.
  specialize (IH Hl' Hs'). cbn [check_neighbours] in *.
  destruct (compare_key (pn_units x) (pn_units y) Hx Hy) as (o & -> & Ho).
  destruct (Z.eqb_spec o 0) as [->|Hne].
  { right. split; [done|]. symmetry in Ho. apply lex_eq in Ho. rewrite !fmap_cons, Ho.
    rewrite NoDup_cons. intros [Hin _]. apply Hin. by left. }
  assert (name_lt x y) as Hlt.
  { unfold name_lt. unfold name_le in Hxy. rewrite <- Ho in *. destruct (Z.compare_spec o 0); congruence || done. }
  destruct IH as [[-> Hst]|[-> Hdup]]; [left|right]; (split; [done|]).
  - constructor; [done|]. constructor; [done|]. inversion_clear Hst as [|? ? _ Hyl].
    eapply Forall_impl; [exact Hyl|]. intros z. by apply lex_trans.
  - rewrite fmap_cons, NoDup_cons. by intros [_ ?].
Qed.

Lemma sorted_lookup {A} (R : A → A → Prop) l i j x y :
  StronglySorted R l → l !! i = Some x → l !! j = Some y → (i < j)%nat → R x y.
Proof.
  intros Hs. revert i j. induction Hs as [|z l _ IH Hz]; intros i j Hi Hj Hlt; [done|].
  destruct j as [|j]; [lia|]. destruct i as [|i]; cbn in *.
  - injection Hi as <-. rewrite Forall_lookup in Hz. by apply (Hz j).
  - apply (IH i j); [done..|lia].
Qed.

(** The search between [low] and [high], what lies outside being too small or
    too large. *)
Lemma select_loop_ok l wanted fuel : ∀ low high,
  all_valid l → StronglySorted name_lt l → valid wanted →
  (low <= high)%nat → (high <= length l)%nat → (high - low < fuel)%nat →
  (∀ i p, l !! i = Some p → (i < low)%nat → lex (name_key p) (order wanted) = Lt) →
  (∀ i p, l !! i = Some p → (high <= i)%nat → lex (name_key p) (order wanted) = Gt) →
  ∃ i found, select_loop fuel l wanted compare low high = Some (Ok (i, found))
    ∧ if found : bool then ∃ p, p ∈ l ∧ pn_entry p = i ∧ name_key p = order wanted
      else ∀ p, p ∈ l → name_key p ≠ order wanted.
Proof.
  induction fuel as [|fuel IH]; intros low high Hv Hs Hw H1 H2 H3 Hlow Hhigh; [lia|].
  cbn [select_loop]. destruct (Nat.ltb_spec low high) as [Hlt|Hge].
  2: { exists 0%nat, false. split; [done|]. intros p [i Hi]%list_elem_of_lookup E. rewrite <- E in *.
       assert (lex (name_key p) (name_key p) = Eq) as Er by (by apply lex_eq).
       destruct (decide (i < low)%nat); [rewrite (Hlow i p) in Er|rewrite (Hhigh i p) in Er]; done || lia. }
  set (mid := (low + (high - low) / 2)%nat).
  assert (low <= mid < high)%nat as Hmid.
  { unfold mid. pose proof (Nat.div_lt (high - low) 2). lia. }
  destruct (lookup_lt_is_Some_2 l mid) as [p Hp]; [lia|]. rewrite Hp. cbn [mbind option_bind].
  assert (valid (pn_units p)) as Hvp by (by apply (Forall_lookup_1 _ _ _ _ Hv Hp)).
  destruct (compare_key (pn_units p) wanted Hvp Hw) as (o & -> & Ho).
  destruct (Z.eqb_spec o 0) as [->|Hne].
  { exists (pn_entry p), true. split; [done|]. exists p. split; [by apply list_elem_of_lookup_2 in Hp|].
    split; [done|]. by apply lex_eq. }
  destruct (Z.ltb_spec o 0) as [Hneg|Hpos].
  - apply Z.compare_lt_iff in Hneg. rewrite Hneg in Ho. apply IH; [done..|lia|lia|lia| |done].
    intros i q Hq Hi. destruct (decide (i = mid)) as [->|]; [by rewrite Hp in Hq; injection Hq as <-|].
    apply (lex_trans _ (name_key p)); [|done]. apply (sorted_lookup name_lt l i mid); [done..|lia].
  - assert ((o ?= 0) = Gt) as Hgt by (apply Z.compare_gt_iff; lia). rewrite Hgt in Ho.
    apply IH; [done..|lia|lia|lia|done|].
    intros i q Hq Hi. destruct (decide (i = mid)) as [->|]; [by rewrite Hp in Hq; injection Hq as <-|].
    rewrite lex_flip. apply (f_equal CompOpp) in Ho. rewrite <- lex_flip in Ho. cbn in Ho.
    rewrite (lex_trans (order wanted) (name_key p)); [done..|].
    apply (sorted_lookup name_lt l mid i); [done..|lia].
Qed.
End selection.

(** ** Checked names are valid for the comparer *)

Definition comparable (units : list Z) : Prop := 1 <= zlen units <= maxNameUnits.

Lemma compare_units_lex a : ∀ b,
  (compare_units a b ?= 0) = lex (uppercaseNameUnit <$> a) (uppercaseNameUnit <$> b).
Proof.
  induction a as [|x a IH]; intros [|y b]; try done. cbn [compare_units fmap list_fmap lex].
  destruct (Z.compare_spec (uppercaseNameUnit x) (uppercaseNameUnit y)) as [E|E|E].
  - rewrite E, Z.ltb_irrefl. apply IH.
  - by rewrite (proj2 (Z.ltb_lt _ _)).
  - rewrite (proj2 (Z.ltb_ge _ _)), (proj2 (Z.ltb_lt _ _)) by lia. done.
Qed.

#[global] Instance portable_comparer : Comparer portableNameCompare comparable.
Proof.
  refine {| key := fmap uppercaseNameUnit |}. intros a b Ha Hb. unfold comparable, portableNameCompare in *.
  exists (compare_units a b). rewrite compare_units_lex. split; [|done].
  rewrite !(proj2 (Z.eqb_neq _ _)), !(proj2 (Z.ltb_ge _ _)) by lia. done.
Defined.

Lemma utf16_length_from rs : ∀ n, utf16_length rs n = n + utf16_length rs 0.
Proof.
  induction rs as [|r rs IH]; intros n; cbn [utf16_length]; [lia|].
  destruct (65535 <? r); [rewrite (IH (n + 1 + 1)), (IH (0 + 1 + 1))|rewrite (IH (n + 1)), (IH (0 + 1))]; lia.
Qed.

Lemma name_units_length rs :
  Forall (λ r, is_scalar r = true) rs → zlen (name_units rs) = utf16_length rs 0.
Proof.
  induction 1 as [|r rs Hr _ IH]; [done|]. cbn [name_units utf16_length]. rewrite zlen_app, utf16_length_from, IH.
  unfold is_scalar in Hr. apply orb_true_iff in Hr. rewrite !within_true in Hr.
  destruct (Z.leb_spec r 65535) as [H|H].
  - rewrite (proj2 (Z.ltb_ge _ _)) by lia. done.
  - rewrite (proj2 (Z.ltb_lt _ _)) by lia. unfold utf16_encode_rune.
    rewrite (proj2 (within_false _ _ r)), (proj2 (within_false 57344 _ _)), (proj2 (within_true _ _ _)) by lia.
    done.
Qed.

(** What the check of a component leaves. *)
Lemma checked_leaf name :
  checkWindowsLeaf name = None →
  name ≠ [] ∧ ValidString name = true ∧ utf16Length name <= maxNameUnits ∧ zlen name <= MaxLeafBytes
  ∧ name ≠ [dot] ∧ name ≠ [dot; dot] ∧ ends_with dot name = false ∧ ends_with space name = false
  ∧ Forall (λ r, 32 <= r ∧ r ∉ reserved_runes) (runes name).
Proof.
  unfold checkWindowsLeaf. destruct (_ || _) eqn:E1; [done|]. destruct (existsb _ (runes name)) eqn:E2; [done|].
  intros _. rewrite !orb_false_iff in E1. rewrite !bool_decide_eq_false, negb_false_iff, !Z.ltb_ge in E1.
  destruct E1 as [[[[[[[? ?] ?] ?] ?] ?] ?] ?]. split_and!; try done.
  apply Forall_forall. intros r Hr. rewrite <- not_true_iff_false, existsb_exists in E2.
  destruct (Z.ltb_spec r 32) as [H7|H7]; [destruct E2; exists r; split; [by apply list_elem_of_In|]|].
  { by rewrite (proj2 (Z.ltb_lt _ _)). }
  split; [done|]. intros Hin. destruct E2. exists r. split; [by apply list_elem_of_In|].
  apply orb_true_iff. right. apply existsb_exists. exists r. split; [by apply list_elem_of_In|apply Z.eqb_refl].
Qed.

Lemma leaf_comparable name : checkWindowsLeaf name = None → comparable (nameUnits name).
Proof.
  intros (Hne & Hv & Hu & _)%checked_leaf. destruct (encode_decoded (length name) name) as [Hr Hs]; [lia|done|].
  unfold comparable, nameUnits. rewrite name_units_length by done. unfold utf16Length in *. split; [|done].
  destruct (runes name) as [|r rs]; [by rewrite <- Hr in Hne|]. cbn [utf16_length]. rewrite utf16_length_from.
  assert (0 <= utf16_length rs 0); [|destruct (65535 <? r); lia].
  clear. induction rs as [|r rs IH]; cbn [utf16_length]; [lia|]. rewrite utf16_length_from.
  destruct (65535 <? r); lia.
Qed.

(** The projection of acceptable entries, in their order. *)
Lemma project_entries_ok entries : ∀ i ids l,
  project_entries i ids entries = Ok l →
  l = imap (λ k e, {| pn_units := nameUnits (en_Name e); pn_entry := (i + k)%nat |}) entries
  ∧ Forall (λ e, checkWindowsLeaf (en_Name e) = None) entries.
Proof.
  induction entries as [|e rest IH]; intros i ids l; cbn [project_entries]; [by intros [= <-]|].
  destruct (checkWindowsLeaf _) eqn:Ec; [done|]. destruct (_ || _); [done|].
  destruct (project_entries _ _ _) as [l'|] eqn:El; [|done]. intros [= <-].
  destruct (IH _ _ _ El) as [-> Hrest]. split; [|by constructor]. cbn [imap]. f_equal; [f_equal; lia|].
  apply imap_ext. intros k x _. cbn. f_equal. lia.
Qed.

Lemma projected_entry entries p :
  p ∈ imap (λ k e, {| pn_units := nameUnits (en_Name e); pn_entry := (0 + k)%nat |}) entries
  ↔ ∃ e, entries !! pn_entry p = Some e ∧ pn_units p = nameUnits (en_Name e).
Proof.
  rewrite list_elem_of_lookup. setoid_rewrite list_lookup_imap. split.
  - intros (i & (e & He & ->)%fmap_Some). cbn. eauto.
  - intros (e & He & Hu). exists (pn_entry p). rewrite He. cbn. f_equal. destruct p. cbn in *. by subst.
Qed.

Section directory.
  Context (compare : nameComparer) (valid : list Z → Prop) `{!Comparer compare valid}.
  Hypothesis leaves_valid : ∀ name, checkWindowsLeaf name = None → valid (nameUnits name).
  Notation entry_key e := (key compare valid (nameUnits (en_Name e))).

Lemma projectDirectory_ok entries l :
  zlen entries <= MaxDirectoryEntries → project_entries 0 [] entries = Ok l →
  (∃ sorted, projectDirectory entries compare = Ok sorted ∧ sorted ≡ₚ l
     ∧ all_valid valid sorted ∧ StronglySorted (name_lt compare valid) sorted)
  ∨ (projectDirectory entries compare = Err (Sentinel errNameAmbiguous)
     ∧ ¬ NoDup ((λ e, entry_key e) <$> entries)).
Proof.
  intros Hn Hl. unfold projectDirectory. rewrite (proj2 (Z.ltb_ge _ _)), Hl by done.
  destruct (project_entries_ok _ _ _ _ Hl) as [El Hc].
  assert (all_valid valid l) as Hv.
  { apply Forall_forall. rewrite El. intros p (e & He & ->)%projected_entry.
    rewrite Forall_lookup in Hc. by eapply leaves_valid, Hc. }
  destruct (sort_names_ok compare valid l Hv) as (sorted & -> & Hp & Hs).
  assert (all_valid valid sorted) as Hvs by (unfold all_valid; by rewrite Hp).
  destruct (check_neighbours_ok compare valid sorted Hvs Hs) as [[-> Hlt]|[-> Hdup]]; [left; by eexists|right].
  split; [done|]. intros Hnd. apply Hdup. rewrite Hp, El.
  assert ((λ p, key compare valid (pn_units p)) <$>
    imap (λ k e, {| pn_units := nameUnits (en_Name e); pn_entry := (0 + k)%nat |}) entries
    = (λ e, entry_key e) <$> entries) as ->; [|done].
  rewrite fmap_imap. apply list_eq. intros i. rewrite list_lookup_imap, list_lookup_fmap. done.
Qed.

Lemma selection_ok entries l wanted :
  zlen entries <= MaxDirectoryEntries → project_entries 0 [] entries = Ok l → valid wanted →
  match projectDirectory entries compare with
  | Ok projected =>
      ∃ i found, selectName projected wanted compare = Some (Ok (i, found))
        ∧ if found : bool
          then ∃ e, entries !! i = Some e ∧ entry_key e = key compare valid wanted
                 ∧ ∀ j e', entries !! j = Some e' → entry_key e' = key compare valid wanted → j = i
          else ∀ e, e ∈ entries → entry_key e ≠ key compare valid wanted
  | Err err => err = Sentinel errNameAmbiguous ∧ ¬ NoDup ((λ e, entry_key e) <$> entries)
  end.
Proof.
  intros Hn Hl Hw. destruct (projectDirectory_ok entries l Hn Hl) as [(sorted & -> & Hp & Hv & Hs)|[-> ?]]; [|done].
  destruct (project_entries_ok _ _ _ _ Hl) as [El _].
  assert (Hmem : ∀ p, p ∈ sorted ↔ ∃ e, entries !! pn_entry p = Some e ∧ pn_units p = nameUnits (en_Name e)).
  { intros p. by rewrite Hp, El, projected_entry. }
  destruct (select_loop_ok compare valid sorted wanted (S (length sorted)) 0 (length sorted))
    as (i & found & Hsel & Hr); [done..|lia|lia|lia|lia| |].
  { intros j p Hj Hge. apply lookup_lt_Some in Hj. lia. }
  exists i, found. split; [exact Hsel|]. destruct found.
  - destruct Hr as (p & Hpin & <- & Hk). destruct (proj1 (Hmem p) Hpin) as (e & He & Hu). rewrite Hu in Hk.
    exists e. split; [done|]. split; [done|]. intros j e' He' Hk'.
    set (q := {| pn_units := nameUnits (en_Name e'); pn_entry := j |}).
    assert (q ∈ sorted) as Hq by (apply Hmem; by exists e').
    destruct (decide (j = pn_entry p)) as [|Hne]; [done|]. exfalso.
    apply list_elem_of_lookup in Hpin as [a Ha], Hq as [b Hb].
    assert (lex (key compare valid (pn_units p)) (key compare valid (pn_units q)) = Eq) as Heq.
    { apply lex_eq. cbn. by rewrite Hu, Hk, Hk'. }
    destruct (decide (a = b)) as [->|]; [rewrite Ha in Hb; injection Hb as ->; done|].
    destruct (decide (a < b)%nat).
    + pose proof (sorted_lookup _ _ a b _ _ Hs Ha Hb) as Hab. unfold name_lt in Hab. rewrite Heq in Hab. naive_solver.
    + pose proof (sorted_lookup _ _ b a _ _ Hs Hb Ha) as Hab. unfold name_lt in Hab.
      rewrite lex_flip, Heq in Hab. specialize (Hab ltac:(lia)). done.
  - intros e [j He]%list_elem_of_lookup. intros Hk.
    apply (Hr {| pn_units := nameUnits (en_Name e); pn_entry := j |}); [apply Hmem; by exists e|done].
Qed.
End directory.

(** C29: a Windows name selects at most one child.  When every entry of a
    directory is acceptable on its own, the projection is refused as ambiguous
    only if two entries have the same name up to case; otherwise the binary search for
    a name over it does not panic, and it finds the one entry that has the
    wanted name up to case exactly when there is one. *)
Theorem name_selection_exact (entries : list Entry) (l : list projectedName) (wanted : list Z) :
  zlen entries <= MaxDirectoryEntries → project_entries 0 [] entries = Ok l → comparable wanted →
  let folded units := uppercaseNameUnit <$> units in
  let name e := folded (nameUnits (en_Name e)) in
  match projectDirectory entries portableNameCompare with
  | Ok projected =>
      ∃ i found, selectName projected wanted portableNameCompare = Some (Ok (i, found))
        ∧ if found : bool
          then ∃ e, entries !! i = Some e ∧ name e = folded wanted
                 ∧ ∀ j e', entries !! j = Some e' → name e' = folded wanted → j = i
          else ∀ e, e ∈ entries → name e ≠ folded wanted
  | Err err => err = Sentinel errNameAmbiguous ∧ ¬ NoDup (name <$> entries)
  end.
Proof.
  intros Hn Hl Hw. exact (selection_ok portableNameCompare comparable leaf_comparable entries l wanted Hn Hl Hw).
Qed.

Lemma name_selection_exact_witness :
  ∃ projected i,
    projectDirectory [{| en_Name := [98]; en_Attr := bare_attr 5 NodeRegular 0 |};
                      {| en_Name := [65; 97]; en_Attr := bare_attr 6 NodeDirectory 0 |}]
      portableNameCompare = Ok projected
    ∧ selectName projected [97; 65] portableNameCompare = Some (Ok (i, true)) ∧ i = 1%nat.
Proof.
  pose proof (name_selection_exact
    [{| en_Name := [98]; en_Attr := bare_attr 5 NodeRegular 0 |};
     {| en_Name := [65; 97]; en_Attr := bare_attr 6 NodeDirectory 0 |}]
    [{| pn_units := [98]; pn_entry := 0 |}; {| pn_units := [65; 97]; pn_entry := 1 |}] [97; 65]) as H.
  cbv zeta in H. destruct (projectDirectory _ _) as [projected|err] eqn:E; [|vm_compute in E; discriminate].
  destruct H as (i & found & Hsel & Hr); [vm_compute; discriminate|vm_compute; reflexivity|vm_compute; split; discriminate|].
  exists projected, i. split; [reflexivity|]. destruct found.
  - split; [exact Hsel|]. destruct Hr as (e & _ & _ & Hu). symmetry. apply (Hu 1%nat {| en_Name := [65; 97]; en_Attr := bare_attr 6 NodeDirectory 0 |});
      [reflexivity|vm_compute; reflexivity].
  - destruct (Hr {| en_Name := [65; 97]; en_Attr := bare_attr 6 NodeDirectory 0 |});
      [by right; left|vm_compute; reflexivity].
Defined.

(** ** Paths *)

(** A byte below 128 in a valid string is a rune of it. *)
Lemma ascii_rune c s : ValidString s = true → 0 <= c < 128 → c ∈ s ↔ c ∈ runes s.
Proof.
  intros Hv Hc. destruct (encode_decoded (length s) s) as [Hr Hs]; [lia|done|].
  rewrite <- Hr at 1. unfold string_of_runes. clear Hr Hv.
  induction Hs as [|r rs Hr _ IH]; [done|]. cbn [fmap list_fmap concat].
  rewrite elem_of_app, IH, elem_of_cons. unfold encode_rune. rewrite Hr.
  unfold is_scalar in Hr. apply orb_true_iff in Hr. rewrite !within_true in Hr.
  assert (∀ x, c ∈ [x] ↔ c = x) as H1 by (intros; by rewrite list_elem_of_singleton).
  destruct (Z.ltb_spec r 128); [by rewrite H1|].
  destruct (Z.ltb_spec r 2048); [|destruct (Z.ltb_spec r 65536)];
    rewrite ?elem_of_cons, elem_of_nil; (split; [|intros [->|?]; [lia|by right]]);
    (intros [Hin|?]; [|by right]); exfalso;
    pose proof (Z.mod_pos_bound r 64); pose proof (Z.mod_pos_bound (r / 64) 64);
    pose proof (Z.mod_pos_bound (r / 4096) 64); pose proof (Z.div_pos r 64);
    pose proof (Z.div_pos r 4096); pose proof (Z.div_pos r 262144); lia.
Qed.

(** How a parsed path is spelled, with or without a leading backslash. *)
Definition spelled (leading : bool) (p : smbPath) : list Z :=
  (if leading then [backslash] else []) ++ join backslash (components p)
  ++ (if directoryRequired p && negb (bool_decide (components p = [])) then [backslash] else []).

(** The components are Windows names, and not too many. *)
Definition path_ok (p : smbPath) : Prop :=
  Forall (λ part, checkWindowsLeaf part = None) (components p)
  ∧ zlen (components p) <= MaxNamespaceGuards.

Lemma check_leaves_ok parts :
  check_leaves parts = None ↔ Forall (λ part, checkWindowsLeaf part = None) parts.
Proof.
  induction parts as [|part parts IH]; cbn [check_leaves]; [done|].
  rewrite Forall_cons, <- IH. destruct (checkWindowsLeaf part); naive_solver.
Qed.

Lemma leaf_unreserved part c : checkWindowsLeaf part = None → c ∈ reserved_runes → c ∉ part.
Proof.
  intros (_ & Hv & _ & _ & _ & _ & _ & _ & Hr)%checked_leaf Hc.
  rewrite ascii_rune by (done || by repeat (apply elem_of_cons in Hc as [->|Hc]; [done|]); apply elem_of_nil in Hc).
  intros Hin. rewrite Forall_forall in Hr. by apply (Hr c Hin).
Qed.

Lemma ends_with_snoc c s : ends_with c s = true ↔ ∃ s', s = s' ++ [c].
Proof.
  unfold ends_with. split.
  - destruct (last s) as [x|] eqn:E; [|done]. intros ->%Z.eqb_eq. apply last_Some in E as [s' ->]. by exists s'.
  - intros [s' ->]. rewrite last_snoc. apply Z.eqb_refl.
Qed.

Lemma ends_with_app c a b : b ≠ [] → ends_with c (a ++ b) = ends_with c b.
Proof.
  intros Hb. unfold ends_with. rewrite last_app. destruct (last b) eqn:E; [done|].
  by apply last_None in E.
Qed.

Lemma join_ne sep part parts : part ≠ [] → join sep (part :: parts) ≠ [].
Proof. intros Hp. destruct parts; cbn; [done|]. by destruct part. Qed.

Lemma join_last sep parts :
  parts ≠ [] → Forall (λ part, part ≠ [] ∧ sep ∉ part) parts → ends_with sep (join sep parts) = false.
Proof.
  intros Hne H. induction H as [|part parts [Hp Hs] Hps IH]; [done|].
  destruct parts as [|part' parts].
  - cbn [join]. apply not_true_iff_false. intros [s' ->]%ends_with_snoc. apply Hs. set_solver.
  - inversion_clear Hps as [|? ? [Hp' _] _]. pose proof (join_ne sep part' parts Hp') as Hj.
    change (join sep (part :: part' :: parts)) with (part ++ [sep] ++ join sep (part' :: parts)).
    rewrite !ends_with_app by (done || by destruct (join sep (part' :: parts))). by apply IH.
Qed.

(** The first character is that of the first component. *)
Lemma join_head sep parts rest :
  parts ≠ [] → Forall (λ part, part ≠ [] ∧ sep ∉ part) parts →
  ∃ c s, join sep parts ++ rest = c :: s ∧ c ≠ sep.
Proof.
  intros Hne H. destruct H as [|part parts [Hp Hs] _]; [done|]. destruct part as [|c part]; [done|].
  rewrite not_elem_of_cons in Hs. destruct parts; cbn [join app]; eexists _, _; (split; [done|]); naive_solver.
Qed.

(** A path spelled from checked components is valid and has no colon. *)
Lemma spelled_valid leading p :
  Forall (λ part, checkWindowsLeaf part = None) (components p) →
  ValidString (spelled leading p) = true ∧ existsb (Z.eqb 58) (runes (spelled leading p)) = false.
Proof.
  intros Hc.
  assert (∃ rs, spelled leading p = string_of_runes rs ∧ Forall (λ r, is_scalar r = true ∧ r ≠ 58) rs)
    as (rs & -> & Hrs).
  { assert (Happ : ∀ a b,
      (∃ rs, a = string_of_runes rs ∧ Forall (λ r, is_scalar r = true ∧ r ≠ 58) rs) →
      (∃ rs, b = string_of_runes rs ∧ Forall (λ r, is_scalar r = true ∧ r ≠ 58) rs) →
      ∃ rs, a ++ b = string_of_runes rs ∧ Forall (λ r, is_scalar r = true ∧ r ≠ 58) rs).
    { intros a b (ra & -> & Ha) (rb & -> & Hb). exists (ra ++ rb). unfold string_of_runes.
      rewrite fmap_app, concat_app. split; [done|by apply Forall_app]. }
    assert (Hnil : ∃ rs, [] = string_of_runes rs ∧ Forall (λ r, is_scalar r = true ∧ r ≠ 58) rs).
    { exists []. by split; [|constructor]. }
    assert (Hsep : ∃ rs, [backslash] = string_of_runes rs ∧ Forall (λ r, is_scalar r = true ∧ r ≠ 58) rs).
    { exists [backslash]. split; [done|]. by repeat constructor. }
    unfold spelled. apply Happ; [by destruct leading|]. apply Happ; [|by destruct (_ && _)].
    induction Hc as [|part parts Hp _ IH]; [done|].
    assert (∃ rs, part = string_of_runes rs ∧ Forall (λ r, is_scalar r = true ∧ r ≠ 58) rs) as Hpart.
    { destruct (checked_leaf part Hp) as (_ & Hv & _ & _ & _ & _ & _ & _ & Hr).
      destruct (encode_decoded (length part) part) as [He Hs]; [lia|done|].
      exists (runes part). split; [done|]. apply Forall_and. split; [done|].
      eapply Forall_impl; [exact Hr|]. intros r [_ Hn] ->. apply Hn. set_solver. }
    destruct parts as [|part' parts]; [done|]. cbn [join].
    apply Happ; [done|]. change (backslash :: ?s) with ([backslash] ++ s). by apply Happ. }
  apply Forall_and in Hrs as [Hs H58]. split; [by apply ValidString_string_of_runes|].
  rewrite runes_string_of_runes by done. apply not_true_iff_false. intros (r & Hin & Heq%Z.eqb_eq)%existsb_exists.
  rewrite Forall_forall in H58. apply (H58 r); [by apply list_elem_of_In|done].
Qed.

Lemma HasPrefix_one c s : HasPrefix s [c] = true ↔ ∃ s', s = c :: s'.
Proof.
  unfold HasPrefix. rewrite bool_decide_eq_true. destruct s as [|x s]; cbn; [naive_solver|].
  rewrite take_0. naive_solver.
Qed.

Lemma HasPrefix_two c s : HasPrefix s [c; c] = true ↔ ∃ s', s = c :: c :: s'.
Proof.
  unfold HasPrefix. rewrite bool_decide_eq_true. destruct s as [|x [|y s]]; cbn; [naive_solver..|].
  rewrite take_0. naive_solver.
Qed.

Lemma parse_spells (name : list Z) (p : smbPath) :
  parseSMBPath name = Ok p →
  path_ok p ∧ utf16Length name <= maxPathUnits
  ∧ ∃ leading, name = spelled leading p ∧ (components p = [] → leading = directoryRequired p).
Proof.
  unfold parseSMBPath. destruct (_ || HasPrefix _ _) eqn:E1; [done|]. rewrite !orb_false_iff, Z.ltb_ge in E1.
  destruct E1 as [[_ Hu] H2]. destruct (existsb _ _); [done|]. destruct (bool_decide_reflect (name = [])) as [->|Hne].
  { intros [= <-]. split; [by split; [constructor|]|]. split; [done|]. by exists false. }
  set (leading := HasPrefix name [backslash]). set (rest := if leading then drop 1 name else name).
  assert (name = (if leading then [backslash] else []) ++ rest) as Hname.
  { unfold rest. destruct leading eqn:El; [|done]. apply HasPrefix_one in El as [s' ->]. done. }
  destruct (bool_decide_reflect (rest = [])) as [Er|Hr].
  { intros [= <-]. rewrite Er in Hname. destruct leading; [|done]. split; [by split; [constructor|]|].
    split; [done|]. by exists true. }
  set (directory := ends_with backslash rest).
  set (body := if directory then take (length rest - 1) rest else rest).
  assert (rest = body ++ if directory then [backslash] else []) as Hbody.
  { unfold body. destruct directory eqn:Ed; [|by rewrite app_nil_r]. apply ends_with_snoc in Ed as [s' ->].
    rewrite length_app. cbn. rewrite Nat.add_sub, take_app_length. done. }
  destruct (Z.ltb_spec MaxNamespaceGuards (zlen (Split backslash body))) as [|Hg]; [done|].
  destruct (check_leaves _) eqn:Ec; [done|]. intros [= <-]. apply check_leaves_ok in Ec.
  split; [done|]. split; [done|]. exists leading. unfold spelled. cbn [components directoryRequired].
  rewrite join_Split, (bool_decide_false (Split _ _ = [])) by apply Split_ne. rewrite andb_true_r, <- Hbody.
  split; [done|]. intros E. by apply Split_ne in E.
Qed.

Lemma spelled_parses leading p :
  path_ok p → utf16Length (spelled leading p) <= maxPathUnits →
  (components p = [] → leading = directoryRequired p) → parseSMBPath (spelled leading p) = Ok p.
Proof.
  intros [Hc Hg] Hu Hlead. destruct (spelled_valid leading p Hc) as [Hv H58].
  unfold parseSMBPath. rewrite Hv, H58, (proj2 (Z.ltb_ge _ _)) by done. cbn [negb orb].
  destruct p as [parts directory]. unfold spelled in *. cbn [components directoryRequired] in *.
  assert (Forall (λ part, part ≠ [] ∧ backslash ∉ part) parts) as Hplain.
  { eapply Forall_impl; [exact Hc|]. intros part Hp. split; [by apply checked_leaf|].
    apply leaf_unreserved; [done|]. unfold reserved_runes, backslash. set_solver. }
  destruct (decide (parts = [])) as [->|Hne]; [rewrite Hlead by done; by destruct directory|].
  rewrite (bool_decide_false (parts = [])) by done. cbn [negb]. rewrite andb_true_r.
  set (tail := if directory then [backslash] else []).
  destruct (join_head backslash parts tail Hne Hplain) as (c & s & Hj & Hcb).
  rewrite Hj. set (name := (if leading then _ else _) ++ c :: s).
  assert (HasPrefix name [backslash; backslash] = false) as ->.
  { apply not_true_iff_false. intros [s' E]%HasPrefix_two. unfold name in E. destruct leading; naive_solver. }
  rewrite (bool_decide_false (name = [])) by (unfold name; by destruct leading).
  assert ((if HasPrefix name [backslash] then drop 1 name else name) = c :: s) as ->.
  { destruct (HasPrefix name [backslash]) eqn:E.
    - apply HasPrefix_one in E as [s' E]. unfold name in *. destruct leading; [done|]. naive_solver.
    - unfold name in *. destruct leading; [|done]. apply not_true_iff_false in E. destruct E.
      apply HasPrefix_one. by eexists. }
  rewrite (bool_decide_false (c :: s = [])), <- Hj by done.
  pose proof (join_last backslash parts Hne Hplain) as Hlast.
  assert (ends_with backslash (join backslash parts ++ tail) = directory) as ->.
  { unfold tail. destruct directory; [by rewrite ends_with_app|by rewrite app_nil_r]. }
  assert ((if directory then take (length (join backslash parts ++ tail) - 1) (join backslash parts ++ tail)
           else join backslash parts ++ tail) = join backslash parts) as ->.
  { unfold tail. destruct directory; [|apply app_nil_r]. rewrite length_app. cbn.
    by rewrite Nat.add_sub, take_app_length. }
  rewrite Split_join; [|done|by eapply Forall_impl; [exact Hplain|]; intros part []].
  rewrite (proj2 (Z.ltb_ge _ _)) by done. by rewrite (proj2 (check_leaves_ok parts) Hc).
Qed.

(** C34: a tree-relative path is taken literally.  A name parses exactly when it
    spells at most 256 Windows component names, separated by backslashes, with at most
    one backslash before and one after them, within the length limit; the parse
    returns those components and whether a directory was named.  So no
    component is empty, a dot, a double dot, or holds a separator, a stream selector or a wildcard. *)
Theorem path_parse_exact (name : list Z) (p : smbPath) :
  parseSMBPath name = Ok p ↔
  path_ok p ∧ utf16Length name <= maxPathUnits
  ∧ ∃ leading, name = spelled leading p ∧ (components p = [] → leading = directoryRequired p).
Proof.
  split; [apply parse_spells|]. intros (Hok & Hu & leading & -> & Hlead). by apply spelled_parses.
Qed.
