(* ===== verification/SmbPattern.v ===== *)
(** * SMB directory patterns

    [packages/smb/directory_pattern.go]: a search pattern is compiled once and
    matched against every name of a snapshot by an automaton that works on sets
    of pattern positions, within a budget of steps shared by the enumeration. *)

From S2P Require Import Prelude Bytes WireText Errors SmbUppercase SmbNames.

(** ** Definitions *)

Definition star : Z := 42.
Definition question : Z := 63.
Definition dos_star : Z := 60. (* < *)
Definition dos_qm : Z := 62.   (* > *)
Definition dos_dot : Z := 34.  (* quotation mark *)

Record directoryPattern := { dp_units : list Z; dp_qmEnd : list nat; dp_all : bool }.

(** The loop over the units: [None] for an invalid one, else whether a wildcard
    was seen. *)
Fixpoint scan_pattern (wild : bool) (units : list Z) : option bool :=
  match units with
  | [] => Some wild
  | unit :: units =>
      if (unit <? 32) || (unit =? 58) || (unit =? 47) || (unit =? 92) || (unit =? 124) then None
      else
        let wild := if (unit =? star) || (unit =? question) || (unit =? dos_star) || (unit =? dos_qm)
                       || (unit =? dos_dot) then true else wild in
        if (55296 <=? unit) && (unit <=? 56319) then
          match units with
          | [] => None
          | low :: units =>
              if (low <? 56320) || (57343 <? low) then None else scan_pattern wild units
          end
        else if (56320 <=? unit) && (unit <=? 57343) then None
        else scan_pattern wild units
  end.

(** The loop from the last unit down: for a position with [>] where its run
    ends, and where the run starting at the first position ends. *)
Fixpoint qm_ends (position : nat) (units : list Z) : list nat * nat :=
  match units with
  | [] => ([], position)
  | unit :: units =>
      let '(ends, end_) := qm_ends (S position) units in
      if negb (unit =? dos_qm) then (0%nat :: ends, position) else (end_ :: ends, end_)
  end.

Definition compileDirectoryPattern (pattern : list Z) : result directoryPattern :=
  let pattern := if zlen pattern =? 0 then [star] else pattern in
  if maxNameUnits <? zlen pattern then Err (Sentinel errNameInvalid)
  else
    match scan_pattern false pattern with
    | None => Err (Sentinel errNameInvalid)
    | Some wild =>
        let literal := string_of_runes (utf16_Decode pattern) in
        match (if wild || bool_decide (literal = [dot]) || bool_decide (literal = [dot; dot]) then None
               else checkWindowsLeaf literal) with
        | Some err => Err err
        | None =>
            let units := uppercaseNameUnit <$> pattern in
            Ok {| dp_units := units; dp_qmEnd := (qm_ends 0 units).1;
                  dp_all := bool_decide (units = [star]) || bool_decide (units = [star; dot; star]) |}
        end
    end.

(** The loop that finds the index of the last dot. *)
Fixpoint last_dot_from (i lastDot : Z) (name : list Z) : Z :=
  match name with
  | [] => lastDot
  | unit :: name => last_dot_from (i + 1) (if unit =? dot then i else lastDot) name
  end.

Definition last_dot (name : list Z) : Z := last_dot_from 0 (-1) name.

(** [set[i] = true]; out of range is a panic. *)
Definition mark (i : nat) (set : list bool) : option (list bool) :=
  if (i <? length set)%nat then Some (<[i := true]> set) else None.

(** The state of one sweep over the pattern positions. *)
Record sweep := { sw_current : list bool; sw_next : list bool; sw_active : bool; sw_remaining : Z }.

Inductive swept := Going (s : sweep) | Matched (remaining : Z) | Exhausted.

(** One turn of the inner loop at a position that is set; [rest] is the name
    from [nameIndex] on.  [None] is a panic. *)
Definition visit (pattern : directoryPattern) (lastDot nameIndex : Z) (rest : list Z)
    (position : nat) (s : sweep) : option swept :=
  if sw_remaining s =? 0 then Some Exhausted
  else
    let remaining := sw_remaining s - 1 in
    let going current next active :=
      Some (Going {| sw_current := current; sw_next := next; sw_active := active;
                     sw_remaining := remaining |}) in
    if (position =? length (dp_units pattern))%nat then
      match rest with
      | [] => Some (Matched remaining)
      | _ => going (sw_current s) (sw_next s) (sw_active s)
      end
    else
      let% unit := dp_units pattern !! position in
      if (unit =? star) || (unit =? dos_star) then
        let% current := mark (S position) (sw_current s) in
        match rest with
        | _ :: _ =>
            if (unit =? star) || negb (nameIndex =? lastDot) then
              let% next := mark position (sw_next s) in going current next true
            else going current (sw_next s) (sw_active s)
        | [] => going current (sw_next s) (sw_active s)
        end
      else if unit =? dos_qm then
        let skip :=
          let% end_ := dp_qmEnd pattern !! position in
          let% current := mark end_ (sw_current s) in going current (sw_next s) (sw_active s) in
        match rest with
        | [] => skip
        | c :: _ =>
            if c =? dot then skip
            else let% next := mark (S position) (sw_next s) in going (sw_current s) next true
        end
      else if unit =? dos_dot then
        match rest with
        | [] => let% current := mark (S position) (sw_current s) in going current (sw_next s) (sw_active s)
        | c :: _ =>
            if c =? dot then let% next := mark (S position) (sw_next s) in going (sw_current s) next true
            else going (sw_current s) (sw_next s) (sw_active s)
        end
      else
        match rest with
        | c :: _ =>
            if (unit =? question) || (unit =? uppercaseNameUnit c) then
              let% next := mark (S position) (sw_next s) in going (sw_current s) next true
            else going (sw_current s) (sw_next s) (sw_active s)
        | [] => going (sw_current s) (sw_next s) (sw_active s)
        end.

(** The inner loop, [turns] positions from [position] on. *)
Fixpoint sweep_positions (pattern : directoryPattern) (lastDot nameIndex : Z) (rest : list Z)
    (turns position : nat) (s : sweep) : option swept :=
  match turns with
  | O => Some (Going s)
  | S turns =>
      let% set := sw_current s !! position in
      if negb set then sweep_positions pattern lastDot nameIndex rest turns (S position) s
      else
        let% after := visit pattern lastDot nameIndex rest position s in
        match after with
        | Going s => sweep_positions pattern lastDot nameIndex rest turns (S position) s
        | _ => Some after
        end
  end.

(** An empty position array. *)
Definition cleared : list bool := replicate 256 false.

(** The outer loop: the answer with the budget left. *)
Fixpoint match_loop (pattern : directoryPattern) (lastDot nameIndex : Z) (rest : list Z)
    (current : list bool) (remaining : Z) : option (result bool * Z) :=
  let% after := sweep_positions pattern lastDot nameIndex rest (S (length (dp_units pattern))) 0
                  {| sw_current := current; sw_next := cleared; sw_active := false;
                     sw_remaining := remaining |} in
  match after with
  | Exhausted => Some (Err (Errno ENOMEM), 0)
  | Matched remaining => Some (Ok true, remaining)
  | Going s =>
      if negb (sw_active s) then Some (Ok false, sw_remaining s)
      else
        match rest with
        | [] => Some (Ok false, sw_remaining s)
        | _ :: rest =>
            match_loop pattern lastDot (nameIndex + 1) rest (sw_next s) (sw_remaining s)
        end
  end.

(** [match]: the answer, and the budget left.  Callers always pass a budget. *)
Definition pattern_match (pattern : directoryPattern) (name : list Z) (remaining : Z)
  : option (result bool * Z) :=
  let units := dp_units pattern in
  if (zlen units =? 0) || (maxNameUnits <? zlen units) || (maxNameUnits <? zlen name)
  then Some (Err (Sentinel errNameInvalid), remaining)
  else if dp_all pattern then
    if remaining =? 0 then Some (Err (Errno ENOMEM), remaining)
    else Some (Ok (negb (zlen name =? 0)), remaining - 1)
  else
    let% current := mark 0 cleared in
    match_loop pattern (last_dot name) 0 name current remaining.

(** ** What a pattern means *)

(** A unit that is no wildcard. *)
Definition literal (unit : Z) : bool :=
  negb (existsb (Z.eqb unit) [star; question; dos_star; dos_qm; dos_dot]).

(** The name starts with its last dot. *)
Definition at_last_dot (name : list Z) : Prop :=
  match name with c :: rest => c = dot ∧ dot ∉ rest | [] => False end.

(** The name is over or at a dot. *)
Definition at_dot_or_end (name : list Z) : Prop :=
  match name with c :: _ => c = dot | [] => True end.

Inductive glob : list Z → list Z → Prop :=
| glob_end : glob [] []
| glob_star_skip p n : glob p n → glob (star :: p) n
| glob_star_take p c n : glob (star :: p) n → glob (star :: p) (c :: n)
| glob_dos_star_skip p n : glob p n → glob (dos_star :: p) n
| glob_dos_star_take p c n :
    ¬ at_last_dot (c :: n) → glob (dos_star :: p) n → glob (dos_star :: p) (c :: n)
| glob_dos_qm_skip p n : at_dot_or_end n → glob p n → glob (dos_qm :: p) n
| glob_dos_qm_take p c n : c ≠ dot → glob p n → glob (dos_qm :: p) (c :: n)
| glob_dos_dot_end p : glob p [] → glob (dos_dot :: p) []
| glob_dos_dot_take p n : glob p n → glob (dos_dot :: p) (dot :: n)
| glob_question p c n : glob p n → glob (question :: p) (c :: n)
| glob_literal u p c n :
    literal u = true → u = uppercaseNameUnit c → glob p n → glob (u :: p) (c :: n).

(** What one unit of a pattern asks for. *)
Ltac by_glob :=
  split; [intros H; inversion H; subst; try discriminate; naive_solver
         |intros H; naive_solver (eauto using glob)].

Lemma glob_nil n : glob [] n ↔ n = [].
Proof. split; [by inversion 1|intros ->; constructor]. Qed.

Lemma glob_star p n :
  glob (star :: p) n ↔ glob p n ∨ ∃ c n', n = c :: n' ∧ glob (star :: p) n'.
Proof. by_glob. Qed.

Lemma glob_dos_star p n :
  glob (dos_star :: p) n
  ↔ glob p n ∨ ∃ c n', n = c :: n' ∧ ¬ at_last_dot n ∧ glob (dos_star :: p) n'.
Proof. by_glob. Qed.

Lemma glob_dos_qm p n :
  glob (dos_qm :: p) n ↔ at_dot_or_end n ∧ glob p n ∨ ∃ c n', n = c :: n' ∧ c ≠ dot ∧ glob p n'.
Proof. by_glob. Qed.

Lemma glob_dos_dot p n :
  glob (dos_dot :: p) n ↔ n = [] ∧ glob p [] ∨ ∃ n', n = dot :: n' ∧ glob p n'.
Proof. by_glob. Qed.

Lemma glob_one u p n :
  u ∉ [star; dos_star; dos_qm; dos_dot] →
  glob (u :: p) n ↔ ∃ c n', n = c :: n' ∧ (u = question ∨ u = uppercaseNameUnit c) ∧ glob p n'.
Proof.
  intros Hu. rewrite !not_elem_of_cons in Hu. destruct Hu as (H1 & H2 & H3 & H4 & _). split.
  - intros H. inversion H; subst; naive_solver.
  - intros (c & n' & -> & [->|Hc] & Hg); [by constructor|].
    destruct (decide (u = question)) as [->|Hq]; [by constructor|]. apply glob_literal; [|done..].
    unfold literal. cbn [existsb]. by rewrite !(proj2 (Z.eqb_neq _ _)).
Qed.

(** At a dot or at the end a run of [>] is skipped as a whole. *)
Lemma qm_ends_ok units : ∀ position,
  let '(ends, e) := qm_ends position units in
  length ends = length units
  ∧ (∃ j, e = (position + j)%nat ∧ (j <= length units)%nat
     ∧ ∀ n, at_dot_or_end n → glob units n ↔ glob (drop j units) n)
  ∧ ∀ i, units !! i = Some dos_qm →
     ∃ j, ends !! i = Some (position + j)%nat ∧ (i < j <= length units)%nat
       ∧ ∀ n, at_dot_or_end n → glob (drop i units) n ↔ glob (drop j units) n.
Proof.
  induction units as [|u units IH]; intros position; cbn [qm_ends].
  { split_and!; [done| |done]. exists 0%nat. split_and!; [lia|done|done]. }
  specialize (IH (S position)). destruct (qm_ends (S position) units) as [ends e].
  destruct IH as (Hl & (j & -> & Hj & Hrun) & Hends).
  assert (Hlater : ∀ i, (u :: units) !! S i = Some dos_qm →
    ∃ j, ends !! i = Some (position + j)%nat ∧ (S i < j <= length (u :: units))%nat
      ∧ ∀ n, at_dot_or_end n → glob (drop i units) n ↔ glob (drop j (u :: units)) n).
  { intros i Hi. destruct (Hends i Hi) as (k & Hk & Hik & Hg). exists (S k). rewrite Hk. split_and!;
      [f_equal; lia|cbn; lia|cbn; lia|done]. }
  destruct (Z.eqb_spec u dos_qm) as [->|Hne]; cbn [negb].
  - assert (Hskip : ∀ n, at_dot_or_end n → glob (dos_qm :: units) n ↔ glob (drop j units) n).
    { intros n Hn. rewrite <- Hrun by done. rewrite glob_dos_qm. split; [|by left].
      intros [[_ ?]|(c & n' & -> & Hc & _)]; [done|]. by cbn in Hn. }
    split_and!; [cbn; lia| |].
    + exists (S j). split_and!; [lia|cbn; lia|done].
    + intros [|i] Hi; [|exact (Hlater i Hi)]. exists (S j). split_and!; [cbn; f_equal; lia|lia|cbn; lia|done].
  - split_and!; [cbn; lia| |].
    + exists 0%nat. split_and!; [lia|lia|done].
    + intros [|i] Hi; [cbn in Hi; congruence|exact (Hlater i Hi)].
Qed.

(** ** The automaton *)

Section automaton.
  Context (pattern : directoryPattern).
  Notation units := (dp_units pattern).
  Hypothesis short : (length units <= 255)%nat.
  Hypothesis ends_ok : dp_qmEnd pattern = (qm_ends 0 units).1.

(** Positions of the pattern only. *)
Definition within_pattern (set : list bool) : Prop :=
  length set = 256%nat ∧ ∀ q, set !! q = Some true → (q <= length units)%nat.

(** Some position from [from] on matches the rest of the name. *)
Definition live (set : list bool) (from : nat) (n : list Z) : Prop :=
  ∃ q, (from <= q)%nat ∧ set !! q = Some true ∧ glob (drop q units) n.

(** Some position matches what is left after the next unit. *)
Definition live_after (set : list bool) (n : list Z) : Prop :=
  ∃ c n', n = c :: n' ∧ live set 0 n'.

Lemma mark_ok q set :
  within_pattern set → (q <= length units)%nat →
  mark q set = Some (<[q := true]> set) ∧ within_pattern (<[q := true]> set).
Proof.
  intros [Hl Hq] Hle. unfold mark. rewrite (proj2 (Nat.ltb_lt _ _)) by lia. split; [done|].
  split; [by rewrite length_insert|]. intros r Hr. destruct (decide (q = r)) as [->|Hne]; [done|].
  rewrite list_lookup_insert_ne in Hr by done. by apply Hq.
Qed.

Lemma live_mark q set from n :
  within_pattern set → (q <= length units)%nat → (from <= q)%nat →
  live (<[q := true]> set) from n ↔ live set from n ∨ glob (drop q units) n.
Proof.
  intros [Hl _] Hq Hf. split.
  - intros (r & Hr & Hs & Hg). destruct (decide (q = r)) as [->|Hne]; [by right|].
    rewrite list_lookup_insert_ne in Hs by done. left. by exists r.
  - intros [(r & Hr & Hs & Hg)|Hg].
    + exists r. split; [done|]. destruct (decide (q = r)) as [->|Hne].
      * rewrite list_lookup_insert_eq by (apply lookup_lt_Some in Hs; lia). done.
      * by rewrite list_lookup_insert_ne.
    + exists q. split; [done|]. by rewrite list_lookup_insert_eq by lia.
Qed.

Lemma live_after_mark q set n :
  within_pattern set → (q <= length units)%nat →
  live_after (<[q := true]> set) n ↔ live_after set n ∨ ∃ c n', n = c :: n' ∧ glob (drop q units) n'.
Proof.
  intros Hs Hq. unfold live_after. split.
  - intros (c & n' & -> & [H|H]%live_mark); [left|right|done|done|lia]; by exists c, n'.
  - intros [(c & n' & -> & H)|(c & n' & -> & H)]; exists c, n'; (split; [done|]);
      rewrite live_mark by (done || lia); auto.
Qed.

Lemma live_step set from n :
  live set from n ↔ live set (S from) n ∨ set !! from = Some true ∧ glob (drop from units) n.
Proof.
  split.
  - intros (q & Hq & Hs & Hg). destruct (decide (q = from)) as [->|]; [by right|left].
    exists q. split; [lia|done].
  - intros [(q & Hq & Hs & Hg)|[Hs Hg]]; [exists q; split; [lia|done]|by exists from].
Qed.

(** What a sweep keeps true. *)
Record sweep_ok (s : sweep) : Prop := {
  ok_current : within_pattern (sw_current s);
  ok_next : within_pattern (sw_next s);
  ok_active : sw_active s = false → ∀ q, sw_next s !! q ≠ Some true;
  ok_budget : 0 <= sw_remaining s }.

(** What the sweep can still find at [n]. *)
Definition open (s : sweep) (position : nat) (n : list Z) : Prop :=
  live (sw_current s) position n ∨ live_after (sw_next s) n.

(** The sweep after a position whose unit_moves are [skip], at the same place
    in the name, and [take], after the next unit. *)
Definition set_opt (q : option nat) (set : list bool) : list bool :=
  match q with Some q => <[q := true]> set | None => set end.

Definition moved (s : sweep) (skip take : option nat) : sweep :=
  {| sw_current := set_opt skip (sw_current s); sw_next := set_opt take (sw_next s);
     sw_active := match take with Some _ => true | None => sw_active s end;
     sw_remaining := sw_remaining s - 1 |}.

Lemma moved_ok s position n skip take :
  sweep_ok s → 0 < sw_remaining s → sw_current s !! position = Some true →
  (∀ q, skip = Some q → (position < q <= length units)%nat) →
  (∀ q, take = Some q → (q <= length units)%nat) →
  (glob (drop position units) n ↔
   (∃ q, skip = Some q ∧ glob (drop q units) n)
   ∨ ∃ q, take = Some q ∧ ∃ c n', n = c :: n' ∧ glob (drop q units) n') →
  sweep_ok (moved s skip take) ∧ (open s position n ↔ open (moved s skip take) (S position) n).
Proof.
  intros [Hc Hn Ha Hb] Hr Hp Hs Ht Hg. split.
  - destruct skip as [q|], take as [r|]; constructor; cbn; try done; try lia;
      by apply mark_ok; [|naive_solver lia].
  - unfold open. rewrite live_step, Hg. cbn [moved sw_current sw_next set_opt].
    assert (live (set_opt skip (sw_current s)) (S position) n
            ↔ live (sw_current s) (S position) n ∨ ∃ q, skip = Some q ∧ glob (drop q units) n) as ->.
    { destruct skip as [q|]; cbn; [|naive_solver]. specialize (Hs q eq_refl).
      rewrite live_mark by (done || lia). naive_solver. }
    assert (live_after (set_opt take (sw_next s)) n
            ↔ live_after (sw_next s) n
              ∨ ∃ q, take = Some q ∧ ∃ c n', n = c :: n' ∧ glob (drop q units) n') as ->.
    { destruct take as [q|]; cbn; [|naive_solver]. specialize (Ht q eq_refl).
      rewrite live_after_mark by (done || lia). naive_solver. }
    naive_solver.
Qed.

(** The unit_moves of a position with unit [u], at the name [n]. *)
Definition unit_moves (lastDot nameIndex : Z) (n : list Z) (position : nat) (u : Z)
  : option nat * option nat :=
  if (u =? star) || (u =? dos_star) then
    (Some (S position),
     match n with
     | _ :: _ => if (u =? star) || negb (nameIndex =? lastDot) then Some position else None
     | [] => None
     end)
  else if u =? dos_qm then
    match n with
    | c :: _ => if c =? dot then (dp_qmEnd pattern !! position, None) else (None, Some (S position))
    | [] => (dp_qmEnd pattern !! position, None)
    end
  else if u =? dos_dot then
    match n with
    | c :: _ => if c =? dot then (None, Some (S position)) else (None, None)
    | [] => (Some (S position), None)
    end
  else
    match n with
    | c :: _ => if (u =? question) || (u =? uppercaseNameUnit c) then (None, Some (S position))
                else (None, None)
    | [] => (None, None)
    end.

Lemma qm_end position :
  units !! position = Some dos_qm →
  ∃ j, dp_qmEnd pattern !! position = Some j ∧ (position < j <= length units)%nat
    ∧ ∀ n, at_dot_or_end n → glob (drop position units) n ↔ glob (drop j units) n.
Proof.
  intros Hu. rewrite ends_ok. pose proof (qm_ends_ok units 0) as H.
  destruct (qm_ends 0 units) as [ends e]. destruct H as (_ & _ & H). exact (H position Hu).
Qed.

Lemma successors_ok lastDot nameIndex n position u :
  units !! position = Some u → (n ≠ [] → nameIndex = lastDot ↔ at_last_dot n) →
  let '(skip, take) := unit_moves lastDot nameIndex n position u in
  (∀ q, skip = Some q → (position < q <= length units)%nat)
  ∧ (∀ q, take = Some q → (q <= length units)%nat)
  ∧ (glob (drop position units) n ↔
     (∃ q, skip = Some q ∧ glob (drop q units) n)
     ∨ ∃ q, take = Some q ∧ ∃ c n', n = c :: n' ∧ glob (drop q units) n').
Proof.
  intros Hu Hdot. pose proof (lookup_lt_Some _ _ _ Hu) as Hlt. pose proof (drop_S _ _ _ Hu) as Hd.
  unfold unit_moves. destruct (Z.eqb_spec u star) as [->|Hstar].
  { cbn. rewrite Hd at 1. rewrite glob_star. destruct n as [|c n].
    - split_and!; [naive_solver lia|done|]. naive_solver.
    - split_and!; [naive_solver lia|naive_solver lia|]. rewrite <- Hd. naive_solver. }
  destruct (Z.eqb_spec u dos_star) as [->|Hds].
  { cbn. rewrite Hd at 1. rewrite glob_dos_star. destruct n as [|c n].
    - split_and!; [naive_solver lia|done|]. naive_solver.
    - specialize (Hdot ltac:(done)). rewrite <- Hd.
      destruct (Z.eqb_spec nameIndex lastDot) as [E|E]; cbn; (split_and!; [naive_solver lia|naive_solver lia|]); naive_solver. }
  cbn [orb]. destruct (Z.eqb_spec u dos_qm) as [->|Hqm].
  { destruct (qm_end position Hu) as (j & Hj & Hle & Hrun).
    destruct n as [|c n]; [|destruct (Z.eqb_spec c dot) as [->|Hc]].
    - rewrite Hj. split_and!; [naive_solver|done|]. rewrite (Hrun []) by done. naive_solver.
    - rewrite Hj. split_and!; [naive_solver|done|]. rewrite Hrun by done. naive_solver.
    - split_and!; [done|naive_solver lia|]. rewrite Hd at 1. rewrite glob_dos_qm. cbn. naive_solver. }
  destruct (Z.eqb_spec u dos_dot) as [->|Hdd].
  { destruct n as [|c n]; [|destruct (Z.eqb_spec c dot) as [->|Hc]];
      (split_and!; [naive_solver lia|naive_solver lia|]); rewrite Hd at 1; rewrite glob_dos_dot; naive_solver. }
  assert (u ∉ [star; dos_star; dos_qm; dos_dot]) as Hone 
    by (rewrite !not_elem_of_cons; split_and!; [done..|apply not_elem_of_nil]).
  assert (∀ c, (u =? question) || (u =? uppercaseNameUnit c) = true ↔ u = question ∨ u = uppercaseNameUnit c) as Hc
    by (intros; by rewrite orb_true_iff, !Z.eqb_eq).
  destruct n as [|c n]; [|specialize (Hc c); destruct (_ || _)]; (split_and!; [done|naive_solver lia|]);
    rewrite Hd at 1; rewrite glob_one by done; naive_solver.
Qed.

(** One turn of the inner loop. *)
Lemma visit_ok lastDot nameIndex n position s :
  sweep_ok s → 0 < sw_remaining s → (position <= length units)%nat →
  sw_current s !! position = Some true → (n ≠ [] → nameIndex = lastDot ↔ at_last_dot n) →
  (visit pattern lastDot nameIndex n position s = Some (Matched (sw_remaining s - 1))
   ∧ open s position n)
  ∨ ∃ s', visit pattern lastDot nameIndex n position s = Some (Going s') ∧ sweep_ok s'
          ∧ sw_remaining s' = sw_remaining s - 1 ∧ (open s position n ↔ open s' (S position) n).
Proof.
  intros Hok Hr Hp Hset Hdot. unfold visit. rewrite (proj2 (Z.eqb_neq _ _)) by lia.
  destruct (Nat.eqb_spec position (length units)) as [->|Hne].
  { destruct n as [|c n].
    - left. split; [done|]. left. exists (length units). rewrite drop_all. split; [lia|]. split; [done|constructor].
    - right. eexists. split; [done|]. destruct (moved_ok s (length units) (c :: n) None None) as [H1 H2];
        [done..|naive_solver|naive_solver| |].
      { rewrite drop_all, glob_nil. naive_solver. }
      split_and!; [exact H1|done|exact H2]. }
  destruct (lookup_lt_is_Some_2 units position) as [u Hu]; [lia|]. rewrite Hu. cbn [mbind option_bind].
  pose proof (successors_ok lastDot nameIndex n position u Hu Hdot) as Hsucc.
  destruct (unit_moves lastDot nameIndex n position u) as [skip take] eqn:Es.
  destruct Hsucc as (Hskip & Htake & Hglob).
  destruct (moved_ok s position n skip take Hok Hr Hset Hskip Htake Hglob) as [H1 H2].
  right. exists (moved s skip take). split_and!; [|done|done|done].
  destruct Hok as [Hc Hn _ _]. unfold unit_moves in Es. clear Hglob H1 H2 Hdot Hset.
  assert (Hmc : ∀ q, skip = Some q → mark q (sw_current s) = Some (<[q := true]> (sw_current s))).
  { intros q Hq. apply mark_ok; [done|]. by apply Hskip. }
  assert (Hmn : ∀ q, take = Some q → mark q (sw_next s) = Some (<[q := true]> (sw_next s))).
  { intros q Hq. apply mark_ok; [done|]. by apply Htake. }
  revert Es.
  destruct ((u =? star) || (u =? dos_star)); [|destruct (Z.eqb_spec u dos_qm) as [->|];
    [destruct (qm_end position Hu) as (j & Hj & _); rewrite Hj|destruct (u =? dos_dot)]];
    repeat case_match; intros [= <- <-]; cbn [mbind option_bind];
    rewrite ?(Hmc _ eq_refl); cbn [mbind option_bind]; rewrite ?(Hmn _ eq_refl); done.
Qed.

(** The inner loop finds a match now, runs out of budget, or leaves exactly the
    positions that can match after the next unit. *)
Lemma sweep_positions_ok lastDot nameIndex n turns : ∀ position s,
  (position + turns = S (length units))%nat → sweep_ok s →
  (n ≠ [] → nameIndex = lastDot ↔ at_last_dot n) →
  ∃ after, sweep_positions pattern lastDot nameIndex n turns position s = Some after
    ∧ match after with
      | Exhausted => sw_remaining s < Z.of_nat turns
      | Matched r => open s position n ∧ 0 <= r
      | Going s' => sweep_ok s' ∧ (open s position n ↔ live_after (sw_next s') n)
                    ∧ sw_remaining s - Z.of_nat turns <= sw_remaining s'
      end.
Proof.
  induction turns as [|turns IH]; intros position s Ht Hok Hdot; cbn [sweep_positions].
  { eexists. split; [done|]. split; [done|]. split; [|lia]. unfold open. split; [|by right].
    intros [(q & Hq & Hs & _)|?]; [|done]. apply (ok_current s Hok) in Hs. lia. }
  destruct (ok_current s Hok) as [Hl _].
  destruct (lookup_lt_is_Some_2 (sw_current s) position) as [b Hb]; [lia|]. rewrite Hb. cbn [mbind option_bind].
  destruct b; cbn [negb].
  - destruct (decide (sw_remaining s = 0)) as [Hz|Hz].
    { unfold visit. rewrite Hz. cbn. eexists. split; [done|]. cbn. lia. }
    pose proof (ok_budget s Hok).
    destruct (visit_ok lastDot nameIndex n position s) as [[-> Hm]|(s' & -> & Hok' & Hr & Ho)]; [done|lia|lia|done|done| |].
    { eexists. split; [done|]. cbn. split; [done|lia]. }
    cbn [mbind option_bind]. destruct (IH (S position) s') as (after & -> & Ha); [lia|done|done|].
    eexists. split; [done|]. destruct after; rewrite ?Ho; naive_solver lia.
  - destruct (IH (S position) s) as (after & -> & Ha); [lia|done|done|].
    assert (open s position n ↔ open s (S position) n) as Ho.
    { unfold open. rewrite live_step, Hb. naive_solver. }
    eexists. split; [done|]. destruct after; rewrite ?Ho; naive_solver lia.
Qed.

Lemma cleared_within : within_pattern cleared.
Proof.
  unfold within_pattern, cleared. rewrite length_replicate. split; [done|]. intros q Hq.
  apply lookup_replicate_1 in Hq as [? _]. done.
Qed.

(** A whole sweep. *)
Lemma first_sweep lastDot nameIndex n current remaining :
  within_pattern current → 0 <= remaining → (n ≠ [] → nameIndex = lastDot ↔ at_last_dot n) →
  ∃ after,
    sweep_positions pattern lastDot nameIndex n (S (length units)) 0
      {| sw_current := current; sw_next := cleared; sw_active := false; sw_remaining := remaining |}
    = Some after
    ∧ match after with
      | Exhausted => remaining < Z.of_nat (S (length units))
      | Matched r => live current 0 n
      | Going s' => sweep_ok s' ∧ (live current 0 n ↔ live_after (sw_next s') n)
                    ∧ remaining - Z.of_nat (S (length units)) <= sw_remaining s'
      end.
Proof.
  intros Hc Hb Hdot. assert (Hnone : ∀ q, cleared !! q ≠ Some true).
  { intros q Hq. apply lookup_replicate_1 in Hq as [? _]. done. }
  destruct (sweep_positions_ok lastDot nameIndex n (S (length units)) 0
    {| sw_current := current; sw_next := cleared; sw_active := false; sw_remaining := remaining |})
    as (after & Ha & Hafter); [done|by constructor; [|apply cleared_within|..]|done|].
  assert (Ho : open {| sw_current := current; sw_next := cleared; sw_active := false;
                       sw_remaining := remaining |} 0 n ↔ live current 0 n).
  { unfold open, live_after, live. cbn. naive_solver. }
  exists after. split; [done|]. destruct after; rewrite ?Ho in Hafter; naive_solver.
Qed.

(** The outer loop decides whether some position matches, given the budget. *)
Lemma match_loop_ok lastDot n : ∀ nameIndex current remaining,
  within_pattern current → 0 <= remaining →
  (∀ k, (k < length n)%nat → nameIndex + Z.of_nat k = lastDot ↔ at_last_dot (drop k n)) →
  ∃ answer left_, match_loop pattern lastDot nameIndex n current remaining = Some (answer, left_)
    ∧ match answer with
      | Ok b => b = true ↔ live current 0 n
      | Err e => e = Errno ENOMEM
                 ∧ remaining < Z.of_nat (S (length n)) * Z.of_nat (S (length units))
      end.
Proof.
  induction n as [|c n IH]; intros nameIndex current remaining Hc Hb Hdot.
  - destruct (first_sweep lastDot nameIndex [] current remaining) as (after & Ha & Hafter); [done..|].
    cbn [match_loop]. rewrite Ha. cbn [mbind option_bind]. destruct after as [s|r|].
    + destruct Hafter as (Hs & Hl & _). exists (Ok false), (sw_remaining s). split; [by destruct (sw_active s)|].
      cbv beta iota. rewrite Hl. split; [done|]. by intros (? & ? & ? & _).
    + by eexists _, _.
    + eexists _, _. split; [done|]. split; [done|]. cbn [length]. lia.
  - destruct (first_sweep lastDot nameIndex (c :: n) current remaining) as (after & Ha & Hafter); [done..| |].
    { intros _. rewrite <- (Hdot 0%nat) by (cbn; lia). by rewrite Z.add_0_r. }
    cbn [match_loop]. rewrite Ha. cbn [mbind option_bind]. destruct after as [s|r|].
    + destruct Hafter as (Hs & Hl & Hr). destruct (sw_active s) eqn:Eact; cbn [negb].
      2: { eexists _, _. split; [done|]. cbv beta iota. rewrite Hl. split; [done|].
           intros (c' & n' & _ & q & _ & Hq & _). by apply (ok_active s Hs Eact) in Hq. }
      destruct (IH (nameIndex + 1) (sw_next s) (sw_remaining s)) as (answer & left_ & Hm & Hans);
        [by apply ok_next|by apply ok_budget| |].
      { intros k Hk. rewrite <- (Hdot (S k)) by (cbn; lia). split; intros; lia. }
      eexists _, _. split; [exact Hm|]. destruct answer as [b|e].
      * rewrite Hl, Hans. unfold live_after. split; [intros; by exists c, n|]. by intros (? & ? & [= <- <-] & ?).
      * destruct Hans as [-> Hlt]. split; [done|]. cbn [length]. lia.
    + by eexists _, _.
    + eexists _, _. split; [done|]. split; [done|]. cbn [length]. lia.
Qed.
End automaton.

Lemma last_dot_from_spec name : ∀ i lastDot,
  (dot ∉ name → last_dot_from i lastDot name = lastDot)
  ∧ (dot ∈ name → i <= last_dot_from i lastDot name)
  ∧ (lastDot < i → ∀ k, (k < length name)%nat →
     i + Z.of_nat k = last_dot_from i lastDot name ↔ at_last_dot (drop k name)).
Proof.
  induction name as [|u name IH]; intros i lastDot; cbn [last_dot_from].
  { split_and!; [done|by intros ?%elem_of_nil|]. intros _ k Hk. cbn in Hk. lia. }
  destruct (IH (i + 1) (if u =? dot then i else lastDot)) as (H1 & H2 & H3).
  rewrite elem_of_cons. split_and!.
  - intros Hn. rewrite H1 by tauto. rewrite (proj2 (Z.eqb_neq _ _)); [done|]. intros ->. tauto.
  - intros Hin. destruct (decide (dot ∈ name)) as [Hin'|Hnot]; [specialize (H2 Hin'); lia|].
    rewrite H1 by done. destruct Hin as [<-|?]; [|done]. rewrite Z.eqb_refl. lia.
  - intros Hlt [|k] Hk.
    + cbn [drop at_last_dot]. rewrite Z.add_0_r. destruct (decide (dot ∈ name)) as [Hin|Hnot].
      * specialize (H2 Hin). split; [lia|tauto].
      * rewrite H1 by done. destruct (Z.eqb_spec u dot); split; naive_solver lia.
    + cbn [drop]. rewrite <- H3; [|destruct (u =? dot); lia|cbn in Hk; lia].
      split; intros; lia.
Qed.

Lemma compiled_pattern pattern compiled :
  compileDirectoryPattern pattern = Ok compiled →
  dp_units compiled = uppercaseNameUnit <$> (if bool_decide (pattern = []) then [star] else pattern)
  ∧ 1 <= zlen (dp_units compiled) <= maxNameUnits
  ∧ dp_qmEnd compiled = (qm_ends 0 (dp_units compiled)).1
  ∧ dp_all compiled = bool_decide (dp_units compiled ∈ [[star]; [star; dot; star]]).
Proof.
  unfold compileDirectoryPattern.
  assert ((if zlen pattern =? 0 then [star] else pattern)
          = if bool_decide (pattern = []) then [star] else pattern) as ->.
  { destruct pattern as [|u p]; [done|]. rewrite bool_decide_false, zlen_cons by done.
    pose proof (zlen_nonneg p). by rewrite (proj2 (Z.eqb_neq _ _)) by lia. }
  set (p := if bool_decide _ then _ else _). destruct (Z.ltb_spec maxNameUnits (zlen p)) as [|Hle]; [done|].
  destruct (scan_pattern false p) as [wild|]; [|done]. destruct (if _ || _ then _ else _); [done|].
  intros [= <-]. cbn [dp_units dp_qmEnd dp_all]. split_and!; [done| | |done|].
  - unfold zlen. rewrite length_fmap. unfold p. destruct (bool_decide_reflect (pattern = [])); [done|].
    destruct pattern; [done|]. cbn [length]. lia.
  - unfold zlen in *. by rewrite length_fmap.
  - rewrite <- bool_decide_or. apply bool_decide_ext. set_solver.
Qed.

(** The units a pattern is compiled to: no pattern stands for [*]. *)
Definition pattern_units (pattern : list Z) : list Z :=
  uppercaseNameUnit <$> (if bool_decide (pattern = []) then [star] else pattern).

(** C28: a directory pattern matches what it means.  For a pattern that
    compiles, and a name within the limit, the automaton never panics and never
    answers wrongly: with [*] and [*.*] (and with no pattern) every
    name but the empty one matches, and otherwise exactly the names the pattern describes, unit by
    unit, up to case, with the DOS rules for a run of [>], a [<] at the last dot
    and a quotation mark at the end.  It gives up only when the budget is below
    the number of pairs of a place in the name and a place in the pattern. *)
Theorem pattern_match_exact (pattern : list Z) (compiled : directoryPattern) (name : list Z) (remaining : Z) :
  compileDirectoryPattern pattern = Ok compiled → zlen name <= maxNameUnits → 0 <= remaining →
  let units := pattern_units pattern in
  ∃ answer left_, pattern_match compiled name remaining = Some (answer, left_)
    ∧ match answer with
      | Ok b => b = true ↔ if bool_decide (units ∈ [[star]; [star; dot; star]]) then name ≠ []
                           else glob units name
      | Err e => e = Errno ENOMEM ∧ remaining < (zlen name + 1) * (zlen units + 1)
      end.
Proof.
  intros Hc Hn Hr units. destruct (compiled_pattern _ _ Hc) as (Hu & Hl & Hq & Ha).
  change (dp_units compiled = units) in Hu. rewrite <- Hu, <- Ha. clear Hu Ha units.
  unfold maxNameUnits in *. unfold pattern_match.
  rewrite (proj2 (Z.eqb_neq _ 0)), !(proj2 (Z.ltb_ge maxNameUnits _)) by (unfold maxNameUnits; lia).
  cbn [orb]. destruct (dp_all compiled).
  - pose proof (zlen_nonneg name). pose proof (zlen_nonneg (dp_units compiled)).
    destruct (Z.eqb_spec remaining 0) as [->|Hne]; eexists _, _; (split; [done|]); cbv beta iota; [split; [done|lia]|].
    rewrite negb_true_iff, Z.eqb_neq. split; [by intros H' ->|]. intros Hne'.
    destruct name; [done|]. rewrite zlen_cons. pose proof (zlen_nonneg name). lia.
  - assert (length (dp_units compiled) <= 255)%nat as Hshort by (unfold zlen in Hl; lia).
    destruct (mark_ok compiled Hshort 0 cleared) as [-> Hw]; [apply cleared_within|lia|]. cbn [mbind option_bind].
    destruct (match_loop_ok compiled Hshort Hq (last_dot name) name 0 _ remaining Hw Hr) as (answer & left_ & Hm & Ha).
    { intros k Hk. apply (last_dot_from_spec name 0 (-1)); [lia|done]. }
    exists answer, left_. split; [exact Hm|]. destruct answer as [b|e].
    + rewrite Ha. split.
      * intros (q & _ & Hq' & Hg). destruct q as [|q]; [by rewrite drop_0 in Hg|].
        rewrite list_lookup_insert_ne in Hq' by done. apply lookup_replicate_1 in Hq' as [? _]. done.
      * intros Hg. exists 0%nat. rewrite drop_0. by split_and!.
    + destruct Ha as [-> Hlt]. split; [done|]. unfold zlen. lia.
Qed.

(** A pattern of the DOS kind, [<.]: a name up to its last dot. *)
Lemma pattern_match_exact_witness :
  ∃ answer left_, pattern_match {| dp_units := [60; 46; 84]; dp_qmEnd := [0; 0; 0]%nat; dp_all := false |}
    [97; 46; 98; 46; 116] 100 = Some (answer, left_) ∧ answer = Ok true.
Proof.
  destruct (pattern_match_exact [60; 46; 116]
    {| dp_units := [60; 46; 84]; dp_qmEnd := [0; 0; 0]%nat; dp_all := false |} [97; 46; 98; 46; 116] 100)
    as (answer & left_ & Hm & _); [vm_compute; reflexivity|vm_compute; discriminate|lia|].
  exists answer, left_. split; [exact Hm|]. vm_compute in Hm. congruence.
Defined.
