(* ===== verification/Identity.v ===== *)
(** * Request, claim and intent identities

    The textual identities of [packages/storage]: [LockRequestID] (files.go),
    [ClaimID] (ranges.go), [UseScope] (capabilities.go) and the identities of
    delete intents (capability_validation.go).  A Go string is a [string] of
    bytes.  The parts of [strconv], [strings], [unicode/utf8] and
    [encoding/hex] the code uses are defined first. *)

From S2P Require Import Prelude Errors.
From Stdlib Require Import Ascii.
Open Scope Z_scope.
#[local] Arguments String.append !_ _ /.

(** ** Bytes and decimal numbers *)

Definition byte_of (z : Z) : ascii := ascii_of_N (Z.to_N z).
Definition code (c : ascii) : Z := Z.of_N (N_of_ascii c).

Definition is_digit (c : ascii) : bool := (48 <=? code c) && (code c <=? 57).
(** ['0' <= c <= '9' || 'a' <= c <= 'f'] *)
Definition is_lower_hex (c : ascii) : bool :=
  is_digit c || ((97 <=? code c) && (code c <=? 102)).

(** [len] of a string. *)
Definition len (s : string) : Z := Z.of_nat (String.length s).

Fixpoint forall_bytes (p : ascii → bool) (s : string) : bool :=
  match s with
  | EmptyString => true
  | String c s => p c && forall_bytes p s
  end.

(** [strconv.FormatUint(n, 10)]: twenty digits hold every uint64. *)
Fixpoint format_digits (fuel : nat) (n : Z) (acc : string) : string :=
  match fuel with
  | O => acc
  | S fuel =>
      let acc := String (byte_of (48 + n mod 10)) acc in
      if n / 10 =? 0 then acc else format_digits fuel (n / 10) acc
  end.
Definition FormatUint (n : Z) : string := format_digits 20 n EmptyString.

(** The digit loop of [strconv.ParseUint(s, 10, 64)], with its two overflow tests. *)
Fixpoint parse_digits (n : Z) (s : string) : option Z :=
  match s with
  | EmptyString => Some n
  | String c s =>
      if negb (is_digit c) then None
      else if 1844674407370955162 <=? n then None
      else
        let n10 := n * 10 in
        let n1 := u64 (n10 + (code c - 48)) in
        if n1 <? n10 then None else parse_digits n1 s
  end.
Definition ParseUint (s : string) : option Z :=
  match s with EmptyString => None | _ => parse_digits 0 s end.

(** [strconv.Atoi]: an optional sign and the digits of an int. *)
Definition Atoi (s : string) : option Z :=
  match s with
  | EmptyString => None
  | String c rest =>
      if code c =? 45 then
        match ParseUint rest with
        | Some n => if n <=? 9223372036854775808 then Some (- n) else None
        | None => None
        end
      else
        match ParseUint (if code c =? 43 then rest else s) with
        | Some n => if n <=? MaxInt64 then Some n else None
        | None => None
        end
  end.

(** [strings.Cut(s, ":")]: around the first colon. *)
Fixpoint Cut (s : string) : option (string * string) :=
  match s with
  | EmptyString => None
  | String c s =>
      if code c =? 58 then Some (EmptyString, s)
      else match Cut s with
           | Some (before, after) => Some (String c before, after)
           | None => None
           end
  end.

(** Around the last colon: [s[:LastIndexByte(s, ':')]] and the rest after it. *)
Fixpoint CutLast (s : string) : option (string * string) :=
  match s with
  | EmptyString => None
  | String c s =>
      match CutLast s with
      | Some (before, after) => Some (String c before, after)
      | None => if code c =? 58 then Some (EmptyString, s) else None
      end
  end.

Definition colon : string := String (byte_of 58) EmptyString.

(** [hex.EncodeToString]. *)
Definition hex_digit (z : Z) : ascii := byte_of (if z <? 10 then 48 + z else 87 + z).
Fixpoint hex_encode (bytes : list Z) : string :=
  match bytes with
  | [] => EmptyString
  | b :: bytes => String (hex_digit (b / 16)) (String (hex_digit (b mod 16)) (hex_encode bytes))
  end.

(** ** Action identities *)

Definition LockRequestID := string.
Definition ClaimID := string.

(** [NewLockRequestID]; [nonce] is what [crypto/rand] filled in. *)
Definition NewLockRequestID (epoch : Z) (nonce : list Z) : result LockRequestID :=
  if epoch =? 0 then Err (Wrapped (Errno EINVAL))
  else Ok (FormatUint epoch +:+ colon +:+ hex_encode nonce).

Definition first_is_zero (s : string) : bool :=
  match s with EmptyString => false | String c _ => code c =? 48 end.

(** [LockRequestID.Epoch]. *)
Definition Epoch (r : LockRequestID) : result Z :=
  if 53 <? len r then Err (Wrapped (Errno EINVAL))
  else match Cut r with
  | None => Err (Wrapped (Errno EINVAL))
  | Some (epochText, nonce) =>
      if (len epochText =? 0) || (20 <? len epochText) || negb (len nonce =? 32)
         || first_is_zero epochText
      then Err (Wrapped (Errno EINVAL))
      else match ParseUint epochText with
      | None => Err (Wrapped (Errno EINVAL))
      | Some epoch =>
          if (epoch =? 0) || negb (String.eqb (FormatUint epoch) epochText)
          then Err (Wrapped (Errno EINVAL))
          else if forall_bytes is_lower_hex nonce then Ok epoch
          else Err (Wrapped (Errno EINVAL))
      end
  end.

Definition MaxRangeCommands : Z := 64.
Definition MaxRangeClaims : Z := 64.
Definition MaxRangeEffects : Z := 64.

Definition NewClaimID (request : LockRequestID) (index : Z) : result ClaimID :=
  match Epoch request with
  | Err e => Err e
  | Ok _ =>
      if (index <? 0) || (MaxRangeCommands <=? index) then Err (Errno EINVAL)
      else Ok (request +:+ colon +:+ FormatUint index)
  end.

(** [ClaimID.Check]. *)
Definition ClaimID_Check (c : ClaimID) : option error :=
  if 56 <? len c then Some (Errno EINVAL)
  else match CutLast c with
  | None => Some (Errno EINVAL)
  | Some (request, suffix) =>
      match Atoi suffix with
      | None => Some (Errno EINVAL)
      | Some index =>
          match NewClaimID request index with
          | Err _ => Some (Errno EINVAL)
          | Ok want => if String.eqb want c then None else Some (Errno EINVAL)
          end
      end
  end.

(** The request of a claim, as [reconcileRemovedClaimsLocked] recovers it; the
    slice expression panics where there is no colon. *)
Definition claim_request (c : ClaimID) : option LockRequestID := fst <$> CutLast c.

(** ** Scope tokens and delete-intent identities *)

Definition in_range (lo hi : Z) (c : ascii) : bool := (lo <=? code c) && (code c <=? hi).

(** [utf8.ValidString]: the accept ranges of each leading byte. *)
Fixpoint utf8_valid (s : string) : bool :=
  match s with
  | EmptyString => true
  | String c s1 =>
      if code c <? 128 then utf8_valid s1
      else match s1 with
      | EmptyString => false
      | String d s2 =>
          if in_range 194 223 c then in_range 128 191 d && utf8_valid s2
          else match s2 with
          | EmptyString => false
          | String e s3 =>
              if in_range 224 239 c then
                (if code c =? 224 then in_range 160 191 d
                 else if code c =? 237 then in_range 128 159 d else in_range 128 191 d)
                && in_range 128 191 e && utf8_valid s3
              else match s3 with
              | EmptyString => false
              | String f s4 =>
                  in_range 240 244 c
                  && (if code c =? 240 then in_range 144 191 d
                      else if code c =? 244 then in_range 128 143 d else in_range 128 191 d)
                  && in_range 128 191 e && in_range 128 191 f && utf8_valid s4
              end
          end
      end
  end.

Definition MaxScopeBytes : Z := 128.
Definition MaxDeleteIntentOwnerBytes : Z := 128.
Definition DeleteIntentIDBytes : Z := 32.

(** [UseScope]: an opaque reference token. *)
Record UseScope := { Token : string }.

Definition UseScope_Check (s : UseScope) : option error :=
  if (len (Token s) =? 0) || (MaxScopeBytes <? len (Token s)) || negb (utf8_valid (Token s))
  then Some (Errno EINVAL)
  else if forall_bytes (λ c, negb (code c =? 0)) (Token s) then None
  else Some (Errno EINVAL).

Definition DeleteIntentOwner_Check (owner : string) : option error :=
  if (len owner =? 0) || (MaxDeleteIntentOwnerBytes <? len owner) || negb (utf8_valid owner)
  then Some (Errno EINVAL)
  else if forall_bytes (λ c, negb (code c =? 0)) owner then None
  else Some (Errno EINVAL).

Definition DeleteIntentID_Check (id : string) : option error :=
  if negb (len id =? DeleteIntentIDBytes) then Some (Errno EINVAL)
  else if forall_bytes
            (λ c, negb ((code c <? 48) || ((57 <? code c) && (code c <? 97)) || (102 <? code c)))
            id
       then None
  else Some (Errno EINVAL).

#[global] Instance UseScope_eq_dec : EqDecision UseScope.
Proof. solve_decision. Defined.
#[global] Instance UseScope_countable : Countable UseScope.
Proof.
  refine (inj_countable' Token (λ t, {| Token := t |}) _). by intros [].
Defined.

(** ** Lemmas *)

Lemma code_byte_of z : 0 <= z < 256 → code (byte_of z) = z.
Proof.
  intros H. unfold code, byte_of. rewrite N_ascii_embedding; [lia|].
  change 256%N with (Z.to_N 256). lia.
Qed.

Lemma len_app s1 s2 : len (s1 +:+ s2) = len s1 + len s2.
Proof.
  unfold len. induction s1 as [|c s1 IH]; [done|].
  cbn [String.append String.length]. rewrite !Nat2Z.inj_succ, IH. lia.
Qed.

Lemma len_nonneg s : 0 <= len s.
Proof. unfold len. lia. Qed.

Lemma app_assoc_string s1 s2 s3 : (s1 +:+ s2) +:+ s3 = s1 +:+ (s2 +:+ s3).
Proof. induction s1 as [|c s1 IH]; simpl; congruence. Qed.

Lemma app_empty_string s : s +:+ EmptyString = s.
Proof. induction s as [|c s IH]; simpl; congruence. Qed.

Lemma forall_bytes_app p s1 s2 :
  forall_bytes p (s1 +:+ s2) = forall_bytes p s1 && forall_bytes p s2.
Proof. induction s1 as [|c s1 IH]; simpl; [done|]. by rewrite IH, andb_assoc. Qed.

Lemma code_inj c d : code c = code d → c = d.
Proof.
  unfold code. intros H. apply N2Z.inj in H.
  rewrite <- (ascii_N_embedding c), <- (ascii_N_embedding d). by rewrite H.
Qed.

(** *** Decimal numbers *)

Lemma format_digits_parse fuel : ∀ n acc,
  0 <= n <= MaxUint64 → n < 10 ^ Z.of_nat fuel → (0 < fuel)%nat →
  parse_digits 0 (format_digits fuel n acc) = parse_digits n acc.
Proof.
  induction fuel as [|fuel IH]; intros n acc Hn Hlt Hf; [lia|]. simpl.
  assert (0 <= n mod 10 < 10) by (apply Z.mod_pos_bound; lia).
  assert (n = 10 * (n / 10) + n mod 10) by (apply Z.div_mod; lia).
  assert (∀ m, m = n / 10 →
    parse_digits m (String (byte_of (48 + n mod 10)) acc) = parse_digits n acc) as Hstep.
  { intros m ->. simpl. unfold is_digit. rewrite code_byte_of by lia.
    rewrite (proj2 (Z.leb_le 48 _)), (proj2 (Z.leb_le _ 57)) by lia. simpl.
    rewrite (proj2 (Z.leb_gt 1844674407370955162 (n / 10))) by lia.
    replace (n / 10 * 10 + (48 + n mod 10 - 48)) with n by lia.
    rewrite u64_small by (unfold is_u64; lia).
    by rewrite (proj2 (Z.ltb_ge n (n / 10 * 10))) by lia. }
  destruct (Z.eqb_spec (n / 10) 0) as [E|E]; [by apply Hstep|].
  rewrite IH; [by apply Hstep|lia| |].
  - rewrite Nat2Z.inj_succ, Z.pow_succ_r in Hlt by lia. lia.
  - destruct fuel; [simpl in Hlt; lia|lia].
Qed.

Lemma format_digits_cons fuel n acc :
  (0 < fuel)%nat → ∃ c s, format_digits fuel n acc = String c s.
Proof.
  revert n acc. induction fuel as [|fuel IH]; intros n acc Hf; [lia|]. simpl.
  destruct (_ =? 0); [eauto|].
  destruct fuel; [simpl; eauto|]. apply IH. lia.
Qed.

Lemma ParseUint_FormatUint n : is_u64 n → ParseUint (FormatUint n) = Some n.
Proof.
  unfold is_u64. intros H. unfold ParseUint, FormatUint.
  destruct (format_digits_cons 20 n EmptyString) as (c & s & E); [lia|].
  rewrite E, <- E, format_digits_parse; [done|lia| |lia].
  change (Z.of_nat 20) with 20. lia.
Qed.

Lemma format_digits_digits fuel : ∀ n acc,
  0 <= n → forall_bytes is_digit acc = true →
  forall_bytes is_digit (format_digits fuel n acc) = true.
Proof.
  induction fuel as [|fuel IH]; intros n acc Hn Hacc; [done|]. simpl.
  assert (0 <= n mod 10 < 10) by (apply Z.mod_pos_bound; lia).
  assert (forall_bytes is_digit (String (byte_of (48 + n mod 10)) acc) = true) as H'.
  { simpl. unfold is_digit at 1. rewrite code_byte_of by lia. rewrite Hacc.
    rewrite (proj2 (Z.leb_le 48 _)), (proj2 (Z.leb_le _ 57)) by lia. done. }
  destruct (_ =? 0); [done|]. apply IH; [|done]. apply Z.div_pos; lia.
Qed.

Lemma format_digits_len fuel : ∀ n acc,
  len (format_digits fuel n acc) <= Z.of_nat fuel + len acc.
Proof.
  induction fuel as [|fuel IH]; intros n acc; [simpl; lia|]. cbn [format_digits].
  assert (len (String (byte_of (48 + n mod 10)) acc) = 1 + len acc) as Hl
    by (unfold len; simpl; lia).
  destruct (_ =? 0); [lia|].
  specialize (IH (n / 10) (String (byte_of (48 + n mod 10)) acc)). lia.
Qed.

Lemma format_digits_lead fuel : ∀ n acc,
  0 < n < 10 ^ Z.of_nat fuel → first_is_zero (format_digits fuel n acc) = false.
Proof.
  induction fuel as [|fuel IH]; intros n acc Hn; [simpl in Hn; lia|]. cbn [format_digits].
  assert (0 <= n mod 10 < 10) by (apply Z.mod_pos_bound; lia).
  assert (n = 10 * (n / 10) + n mod 10) by (apply Z.div_mod; lia).
  rewrite Nat2Z.inj_succ, Z.pow_succ_r in Hn by lia.
  destruct (Z.eqb_spec (n / 10) 0).
  - simpl. rewrite code_byte_of by lia. apply Z.eqb_neq. lia.
  - apply IH. lia.
Qed.

Lemma digits_no_colon s : forall_bytes is_digit s = true → ∀ rest,
  Cut (s +:+ colon +:+ rest) = Some (s, rest).
Proof.
  induction s as [|c s IH]; intros Hs rest; [done|]. simpl in *.
  apply andb_true_iff in Hs as [Hc Hs]. rewrite IH by done.
  unfold is_digit in Hc. bool_prop.
  destruct (Z.eqb_spec (code c) 58); [lia|done].
Qed.

Lemma format_digits_len_bound k : ∀ fuel n acc,
  (k <= fuel)%nat → (0 < k)%nat → 0 <= n < 10 ^ Z.of_nat k →
  len (format_digits fuel n acc) <= Z.of_nat k + len acc.
Proof.
  induction k as [|k IH]; intros fuel n acc Hk H0 Hn; [lia|].
  destruct fuel as [|fuel]; [lia|]. cbn [format_digits].
  assert (len (String (byte_of (48 + n mod 10)) acc) = 1 + len acc) as Hl
    by (unfold len; simpl; lia).
  destruct (Z.eqb_spec (n / 10) 0) as [|E]; [lia|].
  rewrite Nat2Z.inj_succ, Z.pow_succ_r in Hn by lia.
  assert (n = 10 * (n / 10) + n mod 10) by (apply Z.div_mod; lia).
  assert (0 <= n mod 10 < 10) by (apply Z.mod_pos_bound; lia).
  destruct k as [|k]; [simpl in Hn; lia|].
  specialize (IH fuel (n / 10) (String (byte_of (48 + n mod 10)) acc)). lia.
Qed.

Lemma parse_digits_range s : ∀ n m, is_u64 n → parse_digits n s = Some m → is_u64 m.
Proof.
  induction s as [|c s IH]; intros n m Hn H; simpl in H; [naive_solver|].
  repeat case_match; try discriminate. eapply IH; [|done]. apply u64_range.
Qed.

Lemma ParseUint_range s n : ParseUint s = Some n → is_u64 n.
Proof.
  unfold ParseUint. destruct s; [done|]. apply parse_digits_range. unfold is_u64. lia.
Qed.

Lemma FormatUint_digits n : 0 <= n → forall_bytes is_digit (FormatUint n) = true.
Proof. intros. by apply format_digits_digits. Qed.

Lemma FormatUint_cons n : ∃ c s, FormatUint n = String c s.
Proof. apply format_digits_cons. lia. Qed.

(** *** Colons *)

Lemma Cut_inv s : ∀ a b, Cut s = Some (a, b) → s = a +:+ colon +:+ b.
Proof.
  induction s as [|c s IH]; intros a b H; simpl in H; [done|].
  destruct (Z.eqb_spec (code c) 58) as [E|E].
  - injection H as <- <-. simpl. f_equal. by apply code_inj.
  - destruct (Cut s) as [[a' b']|]; [|done]. injection H as <- <-. cbn [String.append].
    f_equal. by apply IH.
Qed.

Lemma CutLast_digits s : forall_bytes is_digit s = true → CutLast s = None.
Proof.
  induction s as [|c s IH]; intros Hs; [done|]. simpl in *.
  apply andb_true_iff in Hs as [Hc Hs]. rewrite IH by done.
  unfold is_digit in Hc. bool_prop. destruct (Z.eqb_spec (code c) 58); [lia|done].
Qed.

Lemma CutLast_app s d :
  forall_bytes is_digit d = true → CutLast (s +:+ colon +:+ d) = Some (s, d).
Proof.
  intros Hd. induction s as [|c s IH]; simpl; [by rewrite CutLast_digits|].
  simpl in IH. by rewrite IH.
Qed.

(** *** Hexadecimal nonces *)

Lemma hex_digit_lower z : 0 <= z < 16 → is_lower_hex (hex_digit z) = true.
Proof.
  intros H. unfold is_lower_hex, is_digit, hex_digit.
  destruct (Z.ltb_spec z 10); rewrite code_byte_of by lia; apply orb_true_iff.
  - left. apply andb_true_iff. rewrite !Z.leb_le. lia.
  - right. apply andb_true_iff. rewrite !Z.leb_le. lia.
Qed.

Lemma hex_encode_lower bytes :
  Forall (λ b, 0 <= b < 256) bytes → forall_bytes is_lower_hex (hex_encode bytes) = true.
Proof.
  induction 1 as [|b bytes Hb _ IH]; [done|]. simpl.
  rewrite IH, !hex_digit_lower; [done|apply Z.mod_pos_bound; lia|].
  split; [apply Z.div_pos; lia|apply Z.div_lt_upper_bound; lia].
Qed.

Lemma hex_encode_len bytes : len (hex_encode bytes) = 2 * Z.of_nat (length bytes).
Proof.
  unfold len. induction bytes as [|b bytes IH]; [done|].
  cbn [hex_encode String.length length]. lia.
Qed.

(** *** The shape of accepted identities *)

Lemma Epoch_Ok_inv r e :
  Epoch r = Ok e →
  0 < e <= MaxUint64 ∧ len r <= 53 ∧
  ∃ nonce, r = FormatUint e +:+ colon +:+ nonce ∧ len nonce = 32 ∧
           forall_bytes is_lower_hex nonce = true.
Proof.
  unfold Epoch. destruct (Z.ltb_spec 53 (len r)); [done|].
  destruct (Cut r) as [[t nonce]|] eqn:Ec; [|done].
  destruct (_ || _) eqn:Eb; [done|].
  destruct (ParseUint t) as [n|] eqn:Ep; [|done].
  destruct ((n =? 0) || _) eqn:En; [done|].
  destruct (forall_bytes _ _) eqn:Eh; [|done]. intros [= <-].
  apply ParseUint_range in Ep. unfold is_u64 in Ep. bool_prop.
  match goal with H : String.eqb _ _ = true |- _ => apply String.eqb_eq in H; subst t end.
  apply Cut_inv in Ec. split_and!; [lia|lia|lia|]. eauto.
Qed.

Lemma Epoch_canonical e nonce :
  0 < e <= MaxUint64 → len nonce = 32 → forall_bytes is_lower_hex nonce = true →
  Epoch (FormatUint e +:+ colon +:+ nonce) = Ok e.
Proof.
  intros He Hl Hh. unfold Epoch.
  assert (len (FormatUint e) <= 20) as Hlen.
  { pose proof (format_digits_len 20 e EmptyString) as Hf.
    change (len EmptyString) with 0 in Hf. exact Hf. }
  assert (len colon = 1) as Hc by done.
  rewrite (proj2 (Z.ltb_ge 53 _)) by (rewrite !len_app; lia).
  rewrite digits_no_colon by (apply FormatUint_digits; lia).
  destruct (FormatUint_cons e) as (c & s & Ef).
  assert (1 <= len (FormatUint e)) by (rewrite Ef; unfold len; simpl; lia).
  replace (_ || _) with false; cycle 1.
  { symmetry. rewrite !orb_false_iff, negb_false_iff, Z.eqb_eq, Z.eqb_neq, Z.ltb_ge.
    split_and!; try lia. apply format_digits_lead. split; [lia|].
    change (Z.of_nat 20) with 20. lia. }
  rewrite ParseUint_FormatUint by (unfold is_u64; lia).
  rewrite (proj2 (Z.eqb_neq e 0)) by lia. by rewrite String.eqb_refl, Hh.
Qed.

Lemma Atoi_FormatUint i : 0 <= i <= MaxInt64 → Atoi (FormatUint i) = Some i.
Proof.
  intros Hi. pose proof (FormatUint_digits i) as Hd.
  pose proof (ParseUint_FormatUint i) as Hp.
  destruct (FormatUint_cons i) as (c & s & E). rewrite E in *. unfold Atoi.
  simpl in Hd. specialize (Hd ltac:(lia)). apply andb_true_iff in Hd as [Hd _].
  unfold is_digit in Hd. bool_prop.
  rewrite (proj2 (Z.eqb_neq (code c) 45)), (proj2 (Z.eqb_neq (code c) 43)) by lia.
  rewrite Hp by (unfold is_u64; lia). by rewrite (proj2 (Z.leb_le i _)) by lia.
Qed.

Lemma NewClaimID_inv request index c :
  NewClaimID request index = Ok c →
  (∃ e, Epoch request = Ok e) ∧ 0 <= index < 64 ∧ c = request +:+ colon +:+ FormatUint index ∧
  CutLast c = Some (request, FormatUint index).
Proof.
  unfold NewClaimID. destruct (Epoch request) as [e|] eqn:E; [|done].
  destruct (_ || _) eqn:Eb; [done|]. intros [= <-]. bool_prop.
  unfold MaxRangeCommands in *.
  split_and!; [eauto|lia|lia|done|]. apply CutLast_app, FormatUint_digits. lia.
Qed.

Lemma FormatUint_len_index i : 0 <= i < 64 → len (FormatUint i) <= 2.
Proof.
  intros Hi. pose proof (format_digits_len_bound 2 20 i EmptyString) as Hf.
  change (len EmptyString) with 0 in Hf. apply Hf; [lia|lia|].
  change (Z.of_nat 2) with 2. lia.
Qed.

(** ** Theorems *)

(** An identity minted for a nonzero epoch is accepted, and names that epoch
    whatever the sixteen random bytes were. *)
Theorem lock_request_roundtrip (epoch : Z) (nonce : list Z) :
  0 < epoch <= MaxUint64 → length nonce = 16%nat → Forall (λ b, 0 <= b < 256) nonce →
  ∃ id, NewLockRequestID epoch nonce = Ok id ∧ Epoch id = Ok epoch.
Proof.
  intros He Hn Hb. unfold NewLockRequestID.
  rewrite (proj2 (Z.eqb_neq epoch 0)) by lia. eexists. split; [done|].
  apply Epoch_canonical; [done| |by apply hex_encode_lower].
  rewrite hex_encode_len, Hn. done.
Qed.

Lemma lock_request_roundtrip_witness :
  ∃ id, NewLockRequestID 7 (repeat 171 16) = Ok id ∧ Epoch id = Ok 7.
Proof.
  apply (lock_request_roundtrip 7 (repeat 171 16)); [lia|reflexivity|].
  repeat constructor; lia.
Defined.

(** A claim identity passes its check exactly when it was made by
    [NewClaimID], and then the text before its last colon is the request it was
    made for, so a released claim always leads back to its request. *)
Theorem claim_identity_exact (c : ClaimID) :
  (ClaimID_Check c = None ↔ ∃ request index, NewClaimID request index = Ok c) ∧
  (∀ request index, NewClaimID request index = Ok c → claim_request c = Some request).
Proof.
  split; [split|].
  - unfold ClaimID_Check. repeat case_match; try done. intros _.
    match goal with H : String.eqb _ _ = true |- _ => apply String.eqb_eq in H; subst end.
    eauto.
  - intros (request & index & H). pose proof H as Hn.
    apply NewClaimID_inv in H as ((e & He) & Hi & -> & Hc).
    unfold ClaimID_Check. pose proof (FormatUint_len_index index Hi).
    apply Epoch_Ok_inv in He as (_ & Hr & _).
    rewrite (proj2 (Z.ltb_ge 56 _)) by (rewrite !len_app; change (len colon) with 1; lia).
    rewrite Hc, Atoi_FormatUint, Hn by lia. by rewrite String.eqb_refl.
  - intros request index H. apply NewClaimID_inv in H as (_ & _ & -> & Hc).
    unfold claim_request. by rewrite Hc.
Qed.
