(* ===== verification/LockTokens.v ===== *)
(** * Lease capabilities

    [token] and [verify] of [packages/locking/authority.go]: the identities an
    authority hands out are strings it can recognize again.  The HMAC under the
    authority's secret is a parameter, as is the random nonce; the parts of
    [encoding/base64], [strings] and [strconv] they use are defined here. *)

From S2P Require Import Prelude Errors Identity.
From Stdlib Require Import Ascii.
#[local] Arguments String.append !_ _ /.

(** ** Definitions *)

(** The alphabet of [base64.RawURLEncoding]. *)
Definition base64_char (v : Z) : ascii :=
  byte_of (if v <? 26 then 65 + v else if v <? 52 then 71 + v else if v <? 62 then v - 4
           else if v =? 62 then 45 else 95).

Definition base64_value (c : ascii) : option Z :=
  let z := code c in
  if (65 <=? z) && (z <=? 90) then Some (z - 65)
  else if (97 <=? z) && (z <=? 122) then Some (z - 71)
  else if (48 <=? z) && (z <=? 57) then Some (z + 4)
  else if z =? 45 then Some 62
  else if z =? 95 then Some 63
  else None.

(** [EncodeToString]. *)
Fixpoint base64_encode (data : list Z) : string :=
  match data with
  | a :: b :: c :: data =>
      String (base64_char (a / 4)) (String (base64_char (a mod 4 * 16 + b / 16))
        (String (base64_char (b mod 16 * 4 + c / 64)) (String (base64_char (c mod 64))
          (base64_encode data))))
  | [a; b] =>
      String (base64_char (a / 4)) (String (base64_char (a mod 4 * 16 + b / 16))
        (String (base64_char (b mod 16 * 4)) EmptyString))
  | [a] => String (base64_char (a / 4)) (String (base64_char (a mod 4 * 16)) EmptyString)
  | [] => EmptyString
  end.

(** The values of the characters; line ends are skipped, any other character
    outside the alphabet is an error. *)
Fixpoint base64_values (s : string) : option (list Z) :=
  match s with
  | EmptyString => Some []
  | String c s =>
      if (code c =? 10) || (code c =? 13) then base64_values s
      else v ← base64_value c; vs ← base64_values s; Some (v :: vs)
  end.

(** Four values are three bytes; what is left over at the end must be two or
    three values, whose spare bits are not checked. *)
Fixpoint base64_bytes (vs : list Z) : option (list Z) :=
  match vs with
  | a :: b :: c :: d :: vs =>
      rest ← base64_bytes vs; Some (a * 4 + b / 16 :: b mod 16 * 16 + c / 4 :: c mod 4 * 64 + d :: rest)
  | [a; b; c] => Some [a * 4 + b / 16; b mod 16 * 16 + c / 4]
  | [a; b] => Some [a * 4 + b / 16]
  | [a] => None
  | [] => Some []
  end.

(** [DecodeString]; [None] is an error. *)
Definition base64_decode (s : string) : option (list Z) := base64_values s ≫= base64_bytes.

(** [strings.Split] at a dot. *)
Definition dot : ascii := byte_of 46.
Fixpoint split_dots (s : string) : list string :=
  match s with
  | EmptyString => [EmptyString]
  | String c s =>
      match split_dots s with
      | part :: parts =>
          if Ascii.eqb c dot then EmptyString :: part :: parts else String c part :: parts
      | [] => []
      end
  end.

(** [strings.Join] with dots. *)
Fixpoint join_dots (parts : list string) : string :=
  match parts with
  | [] => EmptyString
  | [part] => part
  | part :: parts => String.append part (String dot (join_dots parts))
  end.

(** [strconv.FormatInt(n, 10)] *)
Definition FormatInt (n : Z) : string :=
  if n <? 0 then String (byte_of 45) (FormatUint (- n)) else FormatUint n.

(** What [New] fixes for the identities of an authority: its incarnation and
    the HMAC under its secret. *)
Record issuer := { is_incarnation : string; is_mac : string → list Z }.

(** What the HMAC is computed over. *)
Definition mac_input (parent payload : string) : string :=
  String.append parent (String (byte_of 0) payload).

(** [token] with the nonce it reads. *)
Definition token (i : issuer) (nonce : list Z) (kind parent extra : string) : string :=
  let payload := join_dots [kind; is_incarnation i; base64_encode nonce; extra] in
  String.append payload
    (String dot (base64_encode (is_mac i (mac_input parent payload)))).

Definition fail {A} (code : Code) : result A := Err (LockError code false None).

Definition verify (i : issuer) (token kind parent : string) : result string :=
  if 512 <? len token then fail Invalid
  else match split_dots token with
  | [k; incarnation; nonce; extra; signature] =>
      if negb (String.eqb k kind) then fail Invalid
      else if negb (String.eqb incarnation (is_incarnation i)) then fail Retired
      else
        let mac := is_mac i (mac_input parent (join_dots [k; incarnation; nonce; extra])) in
        match base64_decode signature with
        | Some s => if bool_decide (s = mac) then Ok extra else fail Invalid
        | None => fail Invalid
        end
  | _ => fail Invalid
  end.

(** ** Base64 *)

Lemma base64_value_char v : 0 <= v < 64 → base64_value (base64_char v) = Some v.
Proof.
  intros Hv. assert (H : forallb (λ n, bool_decide (base64_value (base64_char (Z.of_nat n)) = Some (Z.of_nat n)))
                           (seq 0 64) = true) by (vm_compute; reflexivity).
  rewrite forallb_forall in H. specialize (H (Z.to_nat v)). rewrite Z2Nat.id in H by lia.
  rewrite bool_decide_eq_true in H. apply H, in_seq. lia.
Qed.

(** A character of the alphabet is neither a line end nor a dot. *)
Lemma base64_char_plain v :
  0 <= v < 64 →
  ((code (base64_char v) =? 10) || (code (base64_char v) =? 13)) = false
  ∧ Ascii.eqb (base64_char v) dot = false.
Proof.
  intros Hv. assert (H : forallb (λ n, let c := base64_char (Z.of_nat n) in
      negb ((code c =? 10) || (code c =? 13)) && negb (Ascii.eqb c dot)) (seq 0 64) = true)
    by (vm_compute; reflexivity).
  rewrite forallb_forall in H. specialize (H (Z.to_nat v)). rewrite Z2Nat.id in H by lia.
  cbv zeta in H. rewrite andb_true_iff, !negb_true_iff in H. apply H, in_seq. lia.
Qed.

Definition bytes (data : list Z) : Prop := Forall (λ b, 0 <= b < 256) data.

Lemma values_char v s :
  0 <= v < 64 → base64_values (String (base64_char v) s) = (v ::.) <$> base64_values s.
Proof.
  intros Hv. cbn [base64_values]. rewrite (proj1 (base64_char_plain v Hv)), base64_value_char by done.
  cbn [mbind option_bind]. by destruct (base64_values s).
Qed.

#[local] Ltac bits := Z.div_mod_to_equations; lia.

Lemma base64_roundtrip data : bytes data → base64_decode (base64_encode data) = Some data.
Proof.
  unfold base64_decode. induction (Nat.lt_wf_0_projected (@length Z) data) as [data _ IH].
  intros Hb. destruct data as [|a [|b [|c data]]]; [done|..]; cbn [base64_encode].
  - apply Forall_cons in Hb as [Ha _]. rewrite !values_char by bits. cbn [base64_values fmap option_fmap option_map mbind option_bind base64_bytes].
    do 2 f_equal. bits.
  - apply Forall_cons in Hb as [Ha Hb]. apply Forall_cons in Hb as [Hb _]. rewrite !values_char by bits.
    cbn [base64_values fmap option_fmap option_map mbind option_bind base64_bytes]. f_equal. f_equal; [bits|]. f_equal. bits.
  - apply Forall_cons in Hb as [Ha Hb]. apply Forall_cons in Hb as [Hb Hc]. apply Forall_cons in Hc as [Hc Hd].
    rewrite !values_char by bits. specialize (IH data ltac:(cbn; lia) Hd).
    destruct (base64_values (base64_encode data)) as [vs|]; [|done]. cbn [mbind option_bind] in IH.
    cbn [fmap option_fmap option_map mbind option_bind base64_bytes]. rewrite IH. cbn [mbind option_bind].
    f_equal. f_equal; [bits|]. f_equal; [bits|]. f_equal. bits.
Qed.

Lemma base64_len data : len (base64_encode data) = (4 * zlen data + 2) / 3.
Proof.
  induction (Nat.lt_wf_0_projected (@length Z) data) as [data _ IH].
  assert (Hc : ∀ c s, len (String c s) = 1 + len s) by (intros; unfold len; cbn; lia).
  destruct data as [|a [|b [|c data]]]; [done..|]. cbn [base64_encode].
  rewrite !Hc, (IH data) by (cbn; lia). rewrite !zlen_cons. bits.
Qed.

(** ** Dots *)

Definition no_dots (s : string) : Prop := forall_bytes (λ c, negb (Ascii.eqb c dot)) s = true.

Lemma base64_char_no_dot v : 0 <= v < 64 → Ascii.eqb (base64_char v) dot = false.
Proof. intros Hv. apply (base64_char_plain v Hv). Qed.

Lemma base64_no_dots data : bytes data → no_dots (base64_encode data).
Proof.
  unfold no_dots. induction (Nat.lt_wf_0_projected (@length Z) data) as [data _ IH].
  intros Hb. destruct data as [|a [|b [|c data]]]; [done|..]; cbn [base64_encode forall_bytes];
    repeat (apply Forall_cons in Hb as [? Hb]); rewrite ?base64_char_no_dot by bits; try done.
  cbn [negb andb]. apply IH; [cbn; lia|done].
Qed.

Lemma split_dots_ne s : split_dots s ≠ [].
Proof. induction s as [|c s IH]; cbn [split_dots]; [done|]. destruct (split_dots s); [done|]. by case_match. Qed.

Lemma join_split_dots s : join_dots (split_dots s) = s.
Proof.
  induction s as [|c s IH]; [done|]. cbn [split_dots]. pose proof (split_dots_ne s).
  destruct (split_dots s) as [|part parts]; [done|].
  destruct (Ascii.eqb_spec c dot) as [->|]; rewrite <- IH; [done|by destruct parts].
Qed.

Lemma split_dots_whole part : no_dots part → split_dots part = [part].
Proof.
  unfold no_dots. induction part as [|c part IH]; [done|]. cbn [forall_bytes split_dots].
  intros [Hc Hp]%andb_true_iff. rewrite IH by done. apply negb_true_iff in Hc. by rewrite Hc.
Qed.

Lemma split_dots_part part rest :
  no_dots part → split_dots (String.append part (String dot rest)) = part :: split_dots rest.
Proof.
  unfold no_dots. induction part as [|c part IH]; cbn [forall_bytes String.append].
  - intros _. cbn [split_dots]. pose proof (split_dots_ne rest). by destruct (split_dots rest).
  - intros [Hc Hp]%andb_true_iff. cbn [split_dots]. rewrite IH by done.
    apply negb_true_iff in Hc. by rewrite Hc.
Qed.

(** ** Tokens *)

(** What the authority puts in a token; the HMAC is a SHA-256. *)
Record token_parts (i : issuer) (nonce : list Z) (kind extra : string) : Prop := {
  tp_nonce : bytes nonce ∧ zlen nonce = 16;
  tp_kind : no_dots kind ∧ len kind <= 1;
  tp_incarnation : no_dots (is_incarnation i) ∧ len (is_incarnation i) <= 22;
  tp_extra : no_dots extra ∧ len extra <= 20;
  tp_mac : ∀ s, bytes (is_mac i s) ∧ zlen (is_mac i s) = 32 }.

Lemma token_split i nonce kind parent extra :
  token_parts i nonce kind extra →
  let payload := join_dots [kind; is_incarnation i; base64_encode nonce; extra] in
  split_dots (token i nonce kind parent extra)
  = [kind; is_incarnation i; base64_encode nonce; extra;
     base64_encode (is_mac i (mac_input parent payload))].
Proof.
  intros [[Hn _] [Hk _] [Hi _] [He _] Hm] payload. unfold token. fold payload.
  assert (E : String.append payload (String dot (base64_encode (is_mac i (mac_input parent payload))))
    = String.append kind (String dot (String.append (is_incarnation i) (String dot
        (String.append (base64_encode nonce) (String dot (String.append extra
          (String dot (base64_encode (is_mac i (mac_input parent payload))))))))))).
  { unfold payload at 1. cbn [join_dots]. rewrite !app_assoc_string. cbn [String.append].
    rewrite !app_assoc_string. cbn [String.append]. by rewrite !app_assoc_string. }
  rewrite E, !split_dots_part by (done || by apply base64_no_dots).
  rewrite split_dots_whole; [done|]. apply base64_no_dots, Hm.
Qed.

Lemma token_len i nonce kind parent extra :
  token_parts i nonce kind extra → len (token i nonce kind parent extra) <= 512.
Proof.
  intros [[_ Hn] [_ Hk] [_ Hi] [_ He] Hm]. unfold token. cbn [join_dots].
  assert (Hc : ∀ c s, len (String c s) = 1 + len s) by (intros; unfold len; cbn; lia).
  repeat rewrite ?len_app, ?Hc. rewrite !base64_len, Hn.
  match goal with |- context [is_mac i ?x] => destruct (Hm x) as [_ ->] end.
  change ((4 * 16 + 2) / 3) with 22. change ((4 * 32 + 2) / 3) with 43. lia.
Qed.

(** C25: capabilities are recognized, and only as what they are.  A token the
    authority makes verifies for its kind and parent and gives back what it
    carries.  A string that verifies has the five parts of a token, of the
    asked kind and this incarnation, and its signature is the HMAC of the asked
    parent and of these parts; so a token made for another kind is refused,
    and one made for another parent only passes if the two HMACs collide. *)
Theorem capability_exact (i : issuer) (nonce : list Z) (kind parent extra : string) :
  token_parts i nonce kind extra →
  verify i (token i nonce kind parent extra) kind parent = Ok extra
  ∧ ∀ kind' parent' extra',
      verify i (token i nonce kind parent extra) kind' parent' = Ok extra' →
      kind' = kind ∧ extra' = extra
      ∧ let payload := join_dots [kind; is_incarnation i; base64_encode nonce; extra] in
        is_mac i (mac_input parent' payload) = is_mac i (mac_input parent payload).
Proof.
  intros Hp. pose proof (token_split i nonce kind parent extra Hp) as Hs. cbv zeta in Hs.
  pose proof (token_len i nonce kind parent extra Hp) as Hl. unfold verify. rewrite Hs.
  destruct (Z.ltb_spec 512 (len (token i nonce kind parent extra))); [lia|].
  destruct Hp as [_ _ _ _ Hm]. rewrite base64_roundtrip by apply Hm.
  rewrite !String.eqb_refl, bool_decide_true by done. split; [done|].
  intros kind' parent' extra'. destruct (String.eqb_spec kind kind') as [<-|]; cbn [negb]; [|done].
  case_bool_decide as E; [|done]. intros [= <-]. done.
Qed.

Lemma capability_exact_witness :
  let i := {| is_incarnation := "AAAA"; is_mac := λ s, replicate 32 (len s mod 256) |} in
  verify i (token i (replicate 16 7) "g" "parent" EmptyString) "g" "parent" = Ok EmptyString
  ∧ verify i (token i (replicate 16 7) "g" "parent" EmptyString) "o" "parent" = fail Invalid.
Proof.
  intros i. split; [|vm_compute; reflexivity].
  apply (capability_exact i (replicate 16 7) "g" "parent" EmptyString). split; try (split; [vm_compute; reflexivity|done]).
  - split; [|done]. apply Forall_replicate. lia.
  - intros s. split; [|done]. apply Forall_replicate, Z.mod_pos_bound. lia.
Defined.
