(* ===== verification/LockState.v ===== *)
(** * The lease authority: state

    The data of [packages/locking]: an [Authority] with its sessions, owners,
    resources, actions and grants.  Go objects that are shared through pointers
    live in heaps of the model and are named by addresses: a call keeps the
    owner, the resource and the action it works on even when the authority's
    maps have dropped them.  The clock and the random source are read in order;
    channels that only wake a goroutine up carry no data and are left out. *)

From S2P Require Import Prelude Errors Identity LockTokens.

(** ** Identities and requests *)

Definition SessionID := string.
Definition OwnerID := string.
Definition RequestID := string.
Definition ResourceID := string.
Definition GrantID := string.
Definition EnrollmentTicket := string.
Definition BackendKey := string.

(** [Mode], a string. *)
Inductive Mode := Shared | Exclusive | OtherMode (s : string).
#[global] Instance Mode_eq_dec : EqDecision Mode.
Proof. solve_decision. Defined.

Record OwnerRef := { or_Session : SessionID; or_Owner : OwnerID }.
#[global] Instance OwnerRef_eq_dec : EqDecision OwnerRef.
Proof. solve_decision. Defined.

Record ResourceRef := {
  rr_ID : ResourceID; rr_ExpiresMillis : Z; rr_NowMillis : Z; rr_HistoryExpiresMillis : Z }.
#[global] Instance ResourceRef_eq_dec : EqDecision ResourceRef.
Proof. solve_decision. Defined.

Record GrantRef := { gf_ID : GrantID; gf_Resource : ResourceID; gf_Generation : Z }.
#[global] Instance GrantRef_eq_dec : EqDecision GrantRef.
Proof. solve_decision. Defined.

Record MutationScope := { ms_Owner : OwnerRef; ms_Grants : list GrantRef }.

(** Times and durations are nanoseconds. *)
Record AcquireRequest := {
  aq_Owner : OwnerRef; aq_Request : RequestID; aq_Resource : ResourceRef; aq_Mode : Mode;
  aq_TTL : Z; aq_Wait : Z }.
#[global] Instance AcquireRequest_eq_dec : EqDecision AcquireRequest.
Proof. solve_decision. Defined.

Record RenewRequest := {
  rn_Owner : OwnerRef; rn_Request : RequestID; rn_Grant : GrantRef; rn_TTL : Z }.
#[global] Instance RenewRequest_eq_dec : EqDecision RenewRequest.
Proof. solve_decision. Defined.

Inductive ActionKind := AcquireAction | RenewAction.
#[global] Instance ActionKind_eq_dec : EqDecision ActionKind.
Proof. solve_decision. Defined.

Inductive ActionOutcome := Pending | Granted | Renewed | Cancelled | TimedOut | Rejected.
#[global] Instance ActionOutcome_eq_dec : EqDecision ActionOutcome.
Proof. solve_decision. Defined.

Inductive GrantState := Active | Released | Expired | TargetGone | OwnerRetired.
#[global] Instance GrantState_eq_dec : EqDecision GrantState.
Proof. solve_decision. Defined.

(** ** Records *)

(** A nil pointer and the empty code are [None]. *)
Record ActionReceipt := {
  rp_Kind : ActionKind;
  rp_Request : RequestID;
  rp_Acquire : option AcquireRequest;
  rp_Renew : option RenewRequest;
  rp_Outcome : ActionOutcome;
  rp_Code : option Code;
  rp_Grant : option GrantRef;
  rp_DeadlineMillis : Z;
  rp_Revision : Z }.

Definition set_rp_Kind (v : ActionKind) (x : ActionReceipt) : ActionReceipt :=
  {| rp_Kind := v; rp_Request := rp_Request x; rp_Acquire := rp_Acquire x;
     rp_Renew := rp_Renew x; rp_Outcome := rp_Outcome x; rp_Code := rp_Code x;
     rp_Grant := rp_Grant x; rp_DeadlineMillis := rp_DeadlineMillis x;
     rp_Revision := rp_Revision x |}.
Definition set_rp_Request (v : RequestID) (x : ActionReceipt) : ActionReceipt :=
  {| rp_Kind := rp_Kind x; rp_Request := v; rp_Acquire := rp_Acquire x;
     rp_Renew := rp_Renew x; rp_Outcome := rp_Outcome x; rp_Code := rp_Code x;
     rp_Grant := rp_Grant x; rp_DeadlineMillis := rp_DeadlineMillis x;
     rp_Revision := rp_Revision x |}.
Definition set_rp_Acquire (v : option AcquireRequest) (x : ActionReceipt) : ActionReceipt :=
  {| rp_Kind := rp_Kind x; rp_Request := rp_Request x; rp_Acquire := v;
     rp_Renew := rp_Renew x; rp_Outcome := rp_Outcome x; rp_Code := rp_Code x;
     rp_Grant := rp_Grant x; rp_DeadlineMillis := rp_DeadlineMillis x;
     rp_Revision := rp_Revision x |}.
Definition set_rp_Renew (v : option RenewRequest) (x : ActionReceipt) : ActionReceipt :=
  {| rp_Kind := rp_Kind x; rp_Request := rp_Request x; rp_Acquire := rp_Acquire x;
     rp_Renew := v; rp_Outcome := rp_Outcome x; rp_Code := rp_Code x; rp_Grant := rp_Grant x;
     rp_DeadlineMillis := rp_DeadlineMillis x; rp_Revision := rp_Revision x |}.
Definition set_rp_Outcome (v : ActionOutcome) (x : ActionReceipt) : ActionReceipt :=
  {| rp_Kind := rp_Kind x; rp_Request := rp_Request x; rp_Acquire := rp_Acquire x;
     rp_Renew := rp_Renew x; rp_Outcome := v; rp_Code := rp_Code x; rp_Grant := rp_Grant x;
     rp_DeadlineMillis := rp_DeadlineMillis x; rp_Revision := rp_Revision x |}.
Definition set_rp_Code (v : option Code) (x : ActionReceipt) : ActionReceipt :=
  {| rp_Kind := rp_Kind x; rp_Request := rp_Request x; rp_Acquire := rp_Acquire x;
     rp_Renew := rp_Renew x; rp_Outcome := rp_Outcome x; rp_Code := v; rp_Grant := rp_Grant x;
     rp_DeadlineMillis := rp_DeadlineMillis x; rp_Revision := rp_Revision x |}.
Definition set_rp_Grant (v : option GrantRef) (x : ActionReceipt) : ActionReceipt :=
  {| rp_Kind := rp_Kind x; rp_Request := rp_Request x; rp_Acquire := rp_Acquire x;
     rp_Renew := rp_Renew x; rp_Outcome := rp_Outcome x; rp_Code := rp_Code x; rp_Grant := v;
     rp_DeadlineMillis := rp_DeadlineMillis x; rp_Revision := rp_Revision x |}.
Definition set_rp_DeadlineMillis (v : Z) (x : ActionReceipt) : ActionReceipt :=
  {| rp_Kind := rp_Kind x; rp_Request := rp_Request x; rp_Acquire := rp_Acquire x;
     rp_Renew := rp_Renew x; rp_Outcome := rp_Outcome x; rp_Code := rp_Code x;
     rp_Grant := rp_Grant x; rp_DeadlineMillis := v; rp_Revision := rp_Revision x |}.
Definition set_rp_Revision (v : Z) (x : ActionReceipt) : ActionReceipt :=
  {| rp_Kind := rp_Kind x; rp_Request := rp_Request x; rp_Acquire := rp_Acquire x;
     rp_Renew := rp_Renew x; rp_Outcome := rp_Outcome x; rp_Code := rp_Code x;
     rp_Grant := rp_Grant x; rp_DeadlineMillis := rp_DeadlineMillis x; rp_Revision := v |}.

(** The part of [CancelResult] an action keeps. *)
Record CancelResult := { cn_Outcome : ActionOutcome; cn_Released : bool }.

Record ticketRecord := { tk_session : SessionID; tk_expires : Z }.

Record sessionRecord := {
  ss_id : SessionID;
  ss_expires : Z;
  ss_owners : gmap OwnerID nat;
  ss_creates : gmap RequestID OwnerID }.

Definition set_ss_id (v : SessionID) (x : sessionRecord) : sessionRecord :=
  {| ss_id := v; ss_expires := ss_expires x; ss_owners := ss_owners x;
     ss_creates := ss_creates x |}.
Definition set_ss_expires (v : Z) (x : sessionRecord) : sessionRecord :=
  {| ss_id := ss_id x; ss_expires := v; ss_owners := ss_owners x; ss_creates := ss_creates x |}.
Definition set_ss_owners (v : gmap OwnerID nat) (x : sessionRecord) : sessionRecord :=
  {| ss_id := ss_id x; ss_expires := ss_expires x; ss_owners := v; ss_creates := ss_creates x |}.
Definition set_ss_creates (v : gmap RequestID OwnerID) (x : sessionRecord) : sessionRecord :=
  {| ss_id := ss_id x; ss_expires := ss_expires x; ss_owners := ss_owners x; ss_creates := v |}.

Record ownerRecord := {
  ow_ref : OwnerRef;
  ow_session : nat;
  ow_actions : gmap RequestID nat;
  ow_grants : gmap GrantID nat;
  ow_liveGrants : Z;
  ow_queued : Z }.

Definition set_ow_ref (v : OwnerRef) (x : ownerRecord) : ownerRecord :=
  {| ow_ref := v; ow_session := ow_session x; ow_actions := ow_actions x;
     ow_grants := ow_grants x; ow_liveGrants := ow_liveGrants x; ow_queued := ow_queued x |}.
Definition set_ow_session (v : nat) (x : ownerRecord) : ownerRecord :=
  {| ow_ref := ow_ref x; ow_session := v; ow_actions := ow_actions x;
     ow_grants := ow_grants x; ow_liveGrants := ow_liveGrants x; ow_queued := ow_queued x |}.
Definition set_ow_actions (v : gmap RequestID nat) (x : ownerRecord) : ownerRecord :=
  {| ow_ref := ow_ref x; ow_session := ow_session x; ow_actions := v;
     ow_grants := ow_grants x; ow_liveGrants := ow_liveGrants x; ow_queued := ow_queued x |}.
Definition set_ow_grants (v : gmap GrantID nat) (x : ownerRecord) : ownerRecord :=
  {| ow_ref := ow_ref x; ow_session := ow_session x; ow_actions := ow_actions x;
     ow_grants := v; ow_liveGrants := ow_liveGrants x; ow_queued := ow_queued x |}.
Definition set_ow_liveGrants (v : Z) (x : ownerRecord) : ownerRecord :=
  {| ow_ref := ow_ref x; ow_session := ow_session x; ow_actions := ow_actions x;
     ow_grants := ow_grants x; ow_liveGrants := v; ow_queued := ow_queued x |}.
Definition set_ow_queued (v : Z) (x : ownerRecord) : ownerRecord :=
  {| ow_ref := ow_ref x; ow_session := ow_session x; ow_actions := ow_actions x;
     ow_grants := ow_grants x; ow_liveGrants := ow_liveGrants x; ow_queued := v |}.

(** A zero [waitUntil] is [None]. *)
Record actionRecord := {
  ac_owner : nat;
  ac_receipt : ActionReceipt;
  ac_resource : option nat;
  ac_waitUntil : option Z;
  ac_grant : option nat;
  ac_cancel : option CancelResult;
  ac_tombstone : bool;
  ac_processing : bool;
  ac_failure : option error }.

Definition set_ac_owner (v : nat) (x : actionRecord) : actionRecord :=
  {| ac_owner := v; ac_receipt := ac_receipt x; ac_resource := ac_resource x;
     ac_waitUntil := ac_waitUntil x; ac_grant := ac_grant x; ac_cancel := ac_cancel x;
     ac_tombstone := ac_tombstone x; ac_processing := ac_processing x;
     ac_failure := ac_failure x |}.
Definition set_ac_receipt (v : ActionReceipt) (x : actionRecord) : actionRecord :=
  {| ac_owner := ac_owner x; ac_receipt := v; ac_resource := ac_resource x;
     ac_waitUntil := ac_waitUntil x; ac_grant := ac_grant x; ac_cancel := ac_cancel x;
     ac_tombstone := ac_tombstone x; ac_processing := ac_processing x;
     ac_failure := ac_failure x |}.
Definition set_ac_resource (v : option nat) (x : actionRecord) : actionRecord :=
  {| ac_owner := ac_owner x; ac_receipt := ac_receipt x; ac_resource := v;
     ac_waitUntil := ac_waitUntil x; ac_grant := ac_grant x; ac_cancel := ac_cancel x;
     ac_tombstone := ac_tombstone x; ac_processing := ac_processing x;
     ac_failure := ac_failure x |}.
Definition set_ac_waitUntil (v : option Z) (x : actionRecord) : actionRecord :=
  {| ac_owner := ac_owner x; ac_receipt := ac_receipt x; ac_resource := ac_resource x;
     ac_waitUntil := v; ac_grant := ac_grant x; ac_cancel := ac_cancel x;
     ac_tombstone := ac_tombstone x; ac_processing := ac_processing x;
     ac_failure := ac_failure x |}.
Definition set_ac_grant (v : option nat) (x : actionRecord) : actionRecord :=
  {| ac_owner := ac_owner x; ac_receipt := ac_receipt x; ac_resource := ac_resource x;
     ac_waitUntil := ac_waitUntil x; ac_grant := v; ac_cancel := ac_cancel x;
     ac_tombstone := ac_tombstone x; ac_processing := ac_processing x;
     ac_failure := ac_failure x |}.
Definition set_ac_cancel (v : option CancelResult) (x : actionRecord) : actionRecord :=
  {| ac_owner := ac_owner x; ac_receipt := ac_receipt x; ac_resource := ac_resource x;
     ac_waitUntil := ac_waitUntil x; ac_grant := ac_grant x; ac_cancel := v;
     ac_tombstone := ac_tombstone x; ac_processing := ac_processing x;
     ac_failure := ac_failure x |}.
Definition set_ac_tombstone (v : bool) (x : actionRecord) : actionRecord :=
  {| ac_owner := ac_owner x; ac_receipt := ac_receipt x; ac_resource := ac_resource x;
     ac_waitUntil := ac_waitUntil x; ac_grant := ac_grant x; ac_cancel := ac_cancel x;
     ac_tombstone := v; ac_processing := ac_processing x; ac_failure := ac_failure x |}.
Definition set_ac_processing (v : bool) (x : actionRecord) : actionRecord :=
  {| ac_owner := ac_owner x; ac_receipt := ac_receipt x; ac_resource := ac_resource x;
     ac_waitUntil := ac_waitUntil x; ac_grant := ac_grant x; ac_cancel := ac_cancel x;
     ac_tombstone := ac_tombstone x; ac_processing := v; ac_failure := ac_failure x |}.
Definition set_ac_failure (v : option error) (x : actionRecord) : actionRecord :=
  {| ac_owner := ac_owner x; ac_receipt := ac_receipt x; ac_resource := ac_resource x;
     ac_waitUntil := ac_waitUntil x; ac_grant := ac_grant x; ac_cancel := ac_cancel x;
     ac_tombstone := ac_tombstone x; ac_processing := ac_processing x; ac_failure := v |}.

(** [release] keeps the state the first release found. *)
Record grantRecord := {
  gt_owner : nat;
  gt_resource : nat;
  gt_ref : GrantRef;
  gt_mode : Mode;
  gt_state : GrantState;
  gt_deadline : Z;
  gt_revision : Z;
  gt_release : option GrantState }.

Definition set_gt_owner (v : nat) (x : grantRecord) : grantRecord :=
  {| gt_owner := v; gt_resource := gt_resource x; gt_ref := gt_ref x; gt_mode := gt_mode x;
     gt_state := gt_state x; gt_deadline := gt_deadline x; gt_revision := gt_revision x;
     gt_release := gt_release x |}.
Definition set_gt_resource (v : nat) (x : grantRecord) : grantRecord :=
  {| gt_owner := gt_owner x; gt_resource := v; gt_ref := gt_ref x; gt_mode := gt_mode x;
     gt_state := gt_state x; gt_deadline := gt_deadline x; gt_revision := gt_revision x;
     gt_release := gt_release x |}.
Definition set_gt_ref (v : GrantRef) (x : grantRecord) : grantRecord :=
  {| gt_owner := gt_owner x; gt_resource := gt_resource x; gt_ref := v; gt_mode := gt_mode x;
     gt_state := gt_state x; gt_deadline := gt_deadline x; gt_revision := gt_revision x;
     gt_release := gt_release x |}.
Definition set_gt_mode (v : Mode) (x : grantRecord) : grantRecord :=
  {| gt_owner := gt_owner x; gt_resource := gt_resource x; gt_ref := gt_ref x; gt_mode := v;
     gt_state := gt_state x; gt_deadline := gt_deadline x; gt_revision := gt_revision x;
     gt_release := gt_release x |}.
Definition set_gt_state (v : GrantState) (x : grantRecord) : grantRecord :=
  {| gt_owner := gt_owner x; gt_resource := gt_resource x; gt_ref := gt_ref x;
     gt_mode := gt_mode x; gt_state := v; gt_deadline := gt_deadline x;
     gt_revision := gt_revision x; gt_release := gt_release x |}.
Definition set_gt_deadline (v : Z) (x : grantRecord) : grantRecord :=
  {| gt_owner := gt_owner x; gt_resource := gt_resource x; gt_ref := gt_ref x;
     gt_mode := gt_mode x; gt_state := gt_state x; gt_deadline := v;
     gt_revision := gt_revision x; gt_release := gt_release x |}.
Definition set_gt_revision (v : Z) (x : grantRecord) : grantRecord :=
  {| gt_owner := gt_owner x; gt_resource := gt_resource x; gt_ref := gt_ref x;
     gt_mode := gt_mode x; gt_state := gt_state x; gt_deadline := gt_deadline x;
     gt_revision := v; gt_release := gt_release x |}.
Definition set_gt_release (v : option GrantState) (x : grantRecord) : grantRecord :=
  {| gt_owner := gt_owner x; gt_resource := gt_resource x; gt_ref := gt_ref x;
     gt_mode := gt_mode x; gt_state := gt_state x; gt_deadline := gt_deadline x;
     gt_revision := gt_revision x; gt_release := v |}.

Record resourceRecord := {
  rs_id : ResourceID;
  rs_key : BackendKey;
  rs_referenceUntil : Z;
  rs_grants : gmap GrantID nat;
  rs_queue : list nat;
  rs_busy : bool;
  rs_retired : bool;
  rs_worker : bool;
  rs_holds : Z;
  rs_forgetting : bool }.

Definition set_rs_id (v : ResourceID) (x : resourceRecord) : resourceRecord :=
  {| rs_id := v; rs_key := rs_key x; rs_referenceUntil := rs_referenceUntil x;
     rs_grants := rs_grants x; rs_queue := rs_queue x; rs_busy := rs_busy x;
     rs_retired := rs_retired x; rs_worker := rs_worker x; rs_holds := rs_holds x;
     rs_forgetting := rs_forgetting x |}.
Definition set_rs_key (v : BackendKey) (x : resourceRecord) : resourceRecord :=
  {| rs_id := rs_id x; rs_key := v; rs_referenceUntil := rs_referenceUntil x;
     rs_grants := rs_grants x; rs_queue := rs_queue x; rs_busy := rs_busy x;
     rs_retired := rs_retired x; rs_worker := rs_worker x; rs_holds := rs_holds x;
     rs_forgetting := rs_forgetting x |}.
Definition set_rs_referenceUntil (v : Z) (x : resourceRecord) : resourceRecord :=
  {| rs_id := rs_id x; rs_key := rs_key x; rs_referenceUntil := v; rs_grants := rs_grants x;
     rs_queue := rs_queue x; rs_busy := rs_busy x; rs_retired := rs_retired x;
     rs_worker := rs_worker x; rs_holds := rs_holds x; rs_forgetting := rs_forgetting x |}.
Definition set_rs_grants (v : gmap GrantID nat) (x : resourceRecord) : resourceRecord :=
  {| rs_id := rs_id x; rs_key := rs_key x; rs_referenceUntil := rs_referenceUntil x;
     rs_grants := v; rs_queue := rs_queue x; rs_busy := rs_busy x; rs_retired := rs_retired x;
     rs_worker := rs_worker x; rs_holds := rs_holds x; rs_forgetting := rs_forgetting x |}.
Definition set_rs_queue (v : list nat) (x : resourceRecord) : resourceRecord :=
  {| rs_id := rs_id x; rs_key := rs_key x; rs_referenceUntil := rs_referenceUntil x;
     rs_grants := rs_grants x; rs_queue := v; rs_busy := rs_busy x;
     rs_retired := rs_retired x; rs_worker := rs_worker x; rs_holds := rs_holds x;
     rs_forgetting := rs_forgetting x |}.
Definition set_rs_busy (v : bool) (x : resourceRecord) : resourceRecord :=
  {| rs_id := rs_id x; rs_key := rs_key x; rs_referenceUntil := rs_referenceUntil x;
     rs_grants := rs_grants x; rs_queue := rs_queue x; rs_busy := v;
     rs_retired := rs_retired x; rs_worker := rs_worker x; rs_holds := rs_holds x;
     rs_forgetting := rs_forgetting x |}.
Definition set_rs_retired (v : bool) (x : resourceRecord) : resourceRecord :=
  {| rs_id := rs_id x; rs_key := rs_key x; rs_referenceUntil := rs_referenceUntil x;
     rs_grants := rs_grants x; rs_queue := rs_queue x; rs_busy := rs_busy x; rs_retired := v;
     rs_worker := rs_worker x; rs_holds := rs_holds x; rs_forgetting := rs_forgetting x |}.
Definition set_rs_worker (v : bool) (x : resourceRecord) : resourceRecord :=
  {| rs_id := rs_id x; rs_key := rs_key x; rs_referenceUntil := rs_referenceUntil x;
     rs_grants := rs_grants x; rs_queue := rs_queue x; rs_busy := rs_busy x;
     rs_retired := rs_retired x; rs_worker := v; rs_holds := rs_holds x;
     rs_forgetting := rs_forgetting x |}.
Definition set_rs_holds (v : Z) (x : resourceRecord) : resourceRecord :=
  {| rs_id := rs_id x; rs_key := rs_key x; rs_referenceUntil := rs_referenceUntil x;
     rs_grants := rs_grants x; rs_queue := rs_queue x; rs_busy := rs_busy x;
     rs_retired := rs_retired x; rs_worker := rs_worker x; rs_holds := v;
     rs_forgetting := rs_forgetting x |}.
Definition set_rs_forgetting (v : bool) (x : resourceRecord) : resourceRecord :=
  {| rs_id := rs_id x; rs_key := rs_key x; rs_referenceUntil := rs_referenceUntil x;
     rs_grants := rs_grants x; rs_queue := rs_queue x; rs_busy := rs_busy x;
     rs_retired := rs_retired x; rs_worker := rs_worker x; rs_holds := rs_holds x;
     rs_forgetting := v |}.

(** [Options]; the clock is a field of the state. *)
Record Options := {
  op_MaxSessions : Z;
  op_MaxTickets : Z;
  op_MaxOwners : Z;
  op_MaxResources : Z;
  op_MaxActions : Z;
  op_MaxGrants : Z;
  op_MaxQueued : Z;
  op_OwnersPerSession : Z;
  op_OwnerActionsPerSession : Z;
  op_ActionsPerOwner : Z;
  op_GrantsPerOwner : Z;
  op_QueuedPerOwner : Z;
  op_QueuedPerResource : Z;
  op_MaxProofs : Z;
  op_MaxRequestBytes : Z;
  op_MaxLease : Z;
  op_MaxWait : Z;
  op_TicketTTL : Z;
  op_SessionIdle : Z;
  op_ResourceTTL : Z }.

(** What [New] fixes, with the readings of the clock and of the random source. *)
Record environment := {
  ev_options : Options; ev_issuer : issuer; ev_start : Z; ev_recoveryUntil : Z;
  ev_clock : nat → Z; ev_nonce : nat → list Z }.

Record Authority := {
  au_env : environment;
  au_reads : nat;
  au_nonces : nat;
  au_watermark : Z;
  au_sessions : gmap SessionID nat;
  au_owners : gmap OwnerID nat;
  au_tickets : gmap EnrollmentTicket ticketRecord;
  au_resources : gmap ResourceID nat;
  au_keys : gmap BackendKey nat;
  au_lastGeneration : Z;
  au_actions : Z;
  au_grants : Z;
  au_queued : Z;
  au_publications : Z;
  au_nativeCalls : Z;
  au_fenced : option error;
  au_closed : bool;
  au_closeErr : option error;
  au_sessionHeap : gmap nat sessionRecord;
  au_ownerHeap : gmap nat ownerRecord;
  au_actionHeap : gmap nat actionRecord;
  au_grantHeap : gmap nat grantRecord;
  au_resourceHeap : gmap nat resourceRecord }.

Definition set_au_env (v : environment) (x : Authority) : Authority :=
  {| au_env := v; au_reads := au_reads x; au_nonces := au_nonces x;
     au_watermark := au_watermark x; au_sessions := au_sessions x; au_owners := au_owners x;
     au_tickets := au_tickets x; au_resources := au_resources x; au_keys := au_keys x;
     au_lastGeneration := au_lastGeneration x; au_actions := au_actions x;
     au_grants := au_grants x; au_queued := au_queued x; au_publications := au_publications x;
     au_nativeCalls := au_nativeCalls x; au_fenced := au_fenced x; au_closed := au_closed x;
     au_closeErr := au_closeErr x; au_sessionHeap := au_sessionHeap x;
     au_ownerHeap := au_ownerHeap x; au_actionHeap := au_actionHeap x;
     au_grantHeap := au_grantHeap x; au_resourceHeap := au_resourceHeap x |}.
Definition set_au_reads (v : nat) (x : Authority) : Authority :=
  {| au_env := au_env x; au_reads := v; au_nonces := au_nonces x;
     au_watermark := au_watermark x; au_sessions := au_sessions x; au_owners := au_owners x;
     au_tickets := au_tickets x; au_resources := au_resources x; au_keys := au_keys x;
     au_lastGeneration := au_lastGeneration x; au_actions := au_actions x;
     au_grants := au_grants x; au_queued := au_queued x; au_publications := au_publications x;
     au_nativeCalls := au_nativeCalls x; au_fenced := au_fenced x; au_closed := au_closed x;
     au_closeErr := au_closeErr x; au_sessionHeap := au_sessionHeap x;
     au_ownerHeap := au_ownerHeap x; au_actionHeap := au_actionHeap x;
     au_grantHeap := au_grantHeap x; au_resourceHeap := au_resourceHeap x |}.
Definition set_au_nonces (v : nat) (x : Authority) : Authority :=
  {| au_env := au_env x; au_reads := au_reads x; au_nonces := v;
     au_watermark := au_watermark x; au_sessions := au_sessions x; au_owners := au_owners x;
     au_tickets := au_tickets x; au_resources := au_resources x; au_keys := au_keys x;
     au_lastGeneration := au_lastGeneration x; au_actions := au_actions x;
     au_grants := au_grants x; au_queued := au_queued x; au_publications := au_publications x;
     au_nativeCalls := au_nativeCalls x; au_fenced := au_fenced x; au_closed := au_closed x;
     au_closeErr := au_closeErr x; au_sessionHeap := au_sessionHeap x;
     au_ownerHeap := au_ownerHeap x; au_actionHeap := au_actionHeap x;
     au_grantHeap := au_grantHeap x; au_resourceHeap := au_resourceHeap x |}.
Definition set_au_watermark (v : Z) (x : Authority) : Authority :=
  {| au_env := au_env x; au_reads := au_reads x; au_nonces := au_nonces x; au_watermark := v;
     au_sessions := au_sessions x; au_owners := au_owners x; au_tickets := au_tickets x;
     au_resources := au_resources x; au_keys := au_keys x;
     au_lastGeneration := au_lastGeneration x; au_actions := au_actions x;
     au_grants := au_grants x; au_queued := au_queued x; au_publications := au_publications x;
     au_nativeCalls := au_nativeCalls x; au_fenced := au_fenced x; au_closed := au_closed x;
     au_closeErr := au_closeErr x; au_sessionHeap := au_sessionHeap x;
     au_ownerHeap := au_ownerHeap x; au_actionHeap := au_actionHeap x;
     au_grantHeap := au_grantHeap x; au_resourceHeap := au_resourceHeap x |}.
Definition set_au_sessions (v : gmap SessionID nat) (x : Authority) : Authority :=
  {| au_env := au_env x; au_reads := au_reads x; au_nonces := au_nonces x;
     au_watermark := au_watermark x; au_sessions := v; au_owners := au_owners x;
     au_tickets := au_tickets x; au_resources := au_resources x; au_keys := au_keys x;
     au_lastGeneration := au_lastGeneration x; au_actions := au_actions x;
     au_grants := au_grants x; au_queued := au_queued x; au_publications := au_publications x;
     au_nativeCalls := au_nativeCalls x; au_fenced := au_fenced x; au_closed := au_closed x;
     au_closeErr := au_closeErr x; au_sessionHeap := au_sessionHeap x;
     au_ownerHeap := au_ownerHeap x; au_actionHeap := au_actionHeap x;
     au_grantHeap := au_grantHeap x; au_resourceHeap := au_resourceHeap x |}.
Definition set_au_owners (v : gmap OwnerID nat) (x : Authority) : Authority :=
  {| au_env := au_env x; au_reads := au_reads x; au_nonces := au_nonces x;
     au_watermark := au_watermark x; au_sessions := au_sessions x; au_owners := v;
     au_tickets := au_tickets x; au_resources := au_resources x; au_keys := au_keys x;
     au_lastGeneration := au_lastGeneration x; au_actions := au_actions x;
     au_grants := au_grants x; au_queued := au_queued x; au_publications := au_publications x;
     au_nativeCalls := au_nativeCalls x; au_fenced := au_fenced x; au_closed := au_closed x;
     au_closeErr := au_closeErr x; au_sessionHeap := au_sessionHeap x;
     au_ownerHeap := au_ownerHeap x; au_actionHeap := au_actionHeap x;
     au_grantHeap := au_grantHeap x; au_resourceHeap := au_resourceHeap x |}.
Definition set_au_tickets (v : gmap EnrollmentTicket ticketRecord) (x : Authority) : Authority :=
  {| au_env := au_env x; au_reads := au_reads x; au_nonces := au_nonces x;
     au_watermark := au_watermark x; au_sessions := au_sessions x; au_owners := au_owners x;
     au_tickets := v; au_resources := au_resources x; au_keys := au_keys x;
     au_lastGeneration := au_lastGeneration x; au_actions := au_actions x;
     au_grants := au_grants x; au_queued := au_queued x; au_publications := au_publications x;
     au_nativeCalls := au_nativeCalls x; au_fenced := au_fenced x; au_closed := au_closed x;
     au_closeErr := au_closeErr x; au_sessionHeap := au_sessionHeap x;
     au_ownerHeap := au_ownerHeap x; au_actionHeap := au_actionHeap x;
     au_grantHeap := au_grantHeap x; au_resourceHeap := au_resourceHeap x |}.
Definition set_au_resources (v : gmap ResourceID nat) (x : Authority) : Authority :=
  {| au_env := au_env x; au_reads := au_reads x; au_nonces := au_nonces x;
     au_watermark := au_watermark x; au_sessions := au_sessions x; au_owners := au_owners x;
     au_tickets := au_tickets x; au_resources := v; au_keys := au_keys x;
     au_lastGeneration := au_lastGeneration x; au_actions := au_actions x;
     au_grants := au_grants x; au_queued := au_queued x; au_publications := au_publications x;
     au_nativeCalls := au_nativeCalls x; au_fenced := au_fenced x; au_closed := au_closed x;
     au_closeErr := au_closeErr x; au_sessionHeap := au_sessionHeap x;
     au_ownerHeap := au_ownerHeap x; au_actionHeap := au_actionHeap x;
     au_grantHeap := au_grantHeap x; au_resourceHeap := au_resourceHeap x |}.
Definition set_au_keys (v : gmap BackendKey nat) (x : Authority) : Authority :=
  {| au_env := au_env x; au_reads := au_reads x; au_nonces := au_nonces x;
     au_watermark := au_watermark x; au_sessions := au_sessions x; au_owners := au_owners x;
     au_tickets := au_tickets x; au_resources := au_resources x; au_keys := v;
     au_lastGeneration := au_lastGeneration x; au_actions := au_actions x;
     au_grants := au_grants x; au_queued := au_queued x; au_publications := au_publications x;
     au_nativeCalls := au_nativeCalls x; au_fenced := au_fenced x; au_closed := au_closed x;
     au_closeErr := au_closeErr x; au_sessionHeap := au_sessionHeap x;
     au_ownerHeap := au_ownerHeap x; au_actionHeap := au_actionHeap x;
     au_grantHeap := au_grantHeap x; au_resourceHeap := au_resourceHeap x |}.
Definition set_au_lastGeneration (v : Z) (x : Authority) : Authority :=
  {| au_env := au_env x; au_reads := au_reads x; au_nonces := au_nonces x;
     au_watermark := au_watermark x; au_sessions := au_sessions x; au_owners := au_owners x;
     au_tickets := au_tickets x; au_resources := au_resources x; au_keys := au_keys x;
     au_lastGeneration := v; au_actions := au_actions x; au_grants := au_grants x;
     au_queued := au_queued x; au_publications := au_publications x;
     au_nativeCalls := au_nativeCalls x; au_fenced := au_fenced x; au_closed := au_closed x;
     au_closeErr := au_closeErr x; au_sessionHeap := au_sessionHeap x;
     au_ownerHeap := au_ownerHeap x; au_actionHeap := au_actionHeap x;
     au_grantHeap := au_grantHeap x; au_resourceHeap := au_resourceHeap x |}.
Definition set_au_actions (v : Z) (x : Authority) : Authority :=
  {| au_env := au_env x; au_reads := au_reads x; au_nonces := au_nonces x;
     au_watermark := au_watermark x; au_sessions := au_sessions x; au_owners := au_owners x;
     au_tickets := au_tickets x; au_resources := au_resources x; au_keys := au_keys x;
     au_lastGeneration := au_lastGeneration x; au_actions := v; au_grants := au_grants x;
     au_queued := au_queued x; au_publications := au_publications x;
     au_nativeCalls := au_nativeCalls x; au_fenced := au_fenced x; au_closed := au_closed x;
     au_closeErr := au_closeErr x; au_sessionHeap := au_sessionHeap x;
     au_ownerHeap := au_ownerHeap x; au_actionHeap := au_actionHeap x;
     au_grantHeap := au_grantHeap x; au_resourceHeap := au_resourceHeap x |}.
Definition set_au_grants (v : Z) (x : Authority) : Authority :=
  {| au_env := au_env x; au_reads := au_reads x; au_nonces := au_nonces x;
     au_watermark := au_watermark x; au_sessions := au_sessions x; au_owners := au_owners x;
     au_tickets := au_tickets x; au_resources := au_resources x; au_keys := au_keys x;
     au_lastGeneration := au_lastGeneration x; au_actions := au_actions x; au_grants := v;
     au_queued := au_queued x; au_publications := au_publications x;
     au_nativeCalls := au_nativeCalls x; au_fenced := au_fenced x; au_closed := au_closed x;
     au_closeErr := au_closeErr x; au_sessionHeap := au_sessionHeap x;
     au_ownerHeap := au_ownerHeap x; au_actionHeap := au_actionHeap x;
     au_grantHeap := au_grantHeap x; au_resourceHeap := au_resourceHeap x |}.
Definition set_au_queued (v : Z) (x : Authority) : Authority :=
  {| au_env := au_env x; au_reads := au_reads x; au_nonces := au_nonces x;
     au_watermark := au_watermark x; au_sessions := au_sessions x; au_owners := au_owners x;
     au_tickets := au_tickets x; au_resources := au_resources x; au_keys := au_keys x;
     au_lastGeneration := au_lastGeneration x; au_actions := au_actions x;
     au_grants := au_grants x; au_queued := v; au_publications := au_publications x;
     au_nativeCalls := au_nativeCalls x; au_fenced := au_fenced x; au_closed := au_closed x;
     au_closeErr := au_closeErr x; au_sessionHeap := au_sessionHeap x;
     au_ownerHeap := au_ownerHeap x; au_actionHeap := au_actionHeap x;
     au_grantHeap := au_grantHeap x; au_resourceHeap := au_resourceHeap x |}.
Definition set_au_publications (v : Z) (x : Authority) : Authority :=
  {| au_env := au_env x; au_reads := au_reads x; au_nonces := au_nonces x;
     au_watermark := au_watermark x; au_sessions := au_sessions x; au_owners := au_owners x;
     au_tickets := au_tickets x; au_resources := au_resources x; au_keys := au_keys x;
     au_lastGeneration := au_lastGeneration x; au_actions := au_actions x;
     au_grants := au_grants x; au_queued := au_queued x; au_publications := v;
     au_nativeCalls := au_nativeCalls x; au_fenced := au_fenced x; au_closed := au_closed x;
     au_closeErr := au_closeErr x; au_sessionHeap := au_sessionHeap x;
     au_ownerHeap := au_ownerHeap x; au_actionHeap := au_actionHeap x;
     au_grantHeap := au_grantHeap x; au_resourceHeap := au_resourceHeap x |}.
Definition set_au_nativeCalls (v : Z) (x : Authority) : Authority :=
  {| au_env := au_env x; au_reads := au_reads x; au_nonces := au_nonces x;
     au_watermark := au_watermark x; au_sessions := au_sessions x; au_owners := au_owners x;
     au_tickets := au_tickets x; au_resources := au_resources x; au_keys := au_keys x;
     au_lastGeneration := au_lastGeneration x; au_actions := au_actions x;
     au_grants := au_grants x; au_queued := au_queued x; au_publications := au_publications x;
     au_nativeCalls := v; au_fenced := au_fenced x; au_closed := au_closed x;
     au_closeErr := au_closeErr x; au_sessionHeap := au_sessionHeap x;
     au_ownerHeap := au_ownerHeap x; au_actionHeap := au_actionHeap x;
     au_grantHeap := au_grantHeap x; au_resourceHeap := au_resourceHeap x |}.
Definition set_au_fenced (v : option error) (x : Authority) : Authority :=
  {| au_env := au_env x; au_reads := au_reads x; au_nonces := au_nonces x;
     au_watermark := au_watermark x; au_sessions := au_sessions x; au_owners := au_owners x;
     au_tickets := au_tickets x; au_resources := au_resources x; au_keys := au_keys x;
     au_lastGeneration := au_lastGeneration x; au_actions := au_actions x;
     au_grants := au_grants x; au_queued := au_queued x; au_publications := au_publications x;
     au_nativeCalls := au_nativeCalls x; au_fenced := v; au_closed := au_closed x;
     au_closeErr := au_closeErr x; au_sessionHeap := au_sessionHeap x;
     au_ownerHeap := au_ownerHeap x; au_actionHeap := au_actionHeap x;
     au_grantHeap := au_grantHeap x; au_resourceHeap := au_resourceHeap x |}.
Definition set_au_closed (v : bool) (x : Authority) : Authority :=
  {| au_env := au_env x; au_reads := au_reads x; au_nonces := au_nonces x;
     au_watermark := au_watermark x; au_sessions := au_sessions x; au_owners := au_owners x;
     au_tickets := au_tickets x; au_resources := au_resources x; au_keys := au_keys x;
     au_lastGeneration := au_lastGeneration x; au_actions := au_actions x;
     au_grants := au_grants x; au_queued := au_queued x; au_publications := au_publications x;
     au_nativeCalls := au_nativeCalls x; au_fenced := au_fenced x; au_closed := v;
     au_closeErr := au_closeErr x; au_sessionHeap := au_sessionHeap x;
     au_ownerHeap := au_ownerHeap x; au_actionHeap := au_actionHeap x;
     au_grantHeap := au_grantHeap x; au_resourceHeap := au_resourceHeap x |}.
Definition set_au_closeErr (v : option error) (x : Authority) : Authority :=
  {| au_env := au_env x; au_reads := au_reads x; au_nonces := au_nonces x;
     au_watermark := au_watermark x; au_sessions := au_sessions x; au_owners := au_owners x;
     au_tickets := au_tickets x; au_resources := au_resources x; au_keys := au_keys x;
     au_lastGeneration := au_lastGeneration x; au_actions := au_actions x;
     au_grants := au_grants x; au_queued := au_queued x; au_publications := au_publications x;
     au_nativeCalls := au_nativeCalls x; au_fenced := au_fenced x; au_closed := au_closed x;
     au_closeErr := v; au_sessionHeap := au_sessionHeap x; au_ownerHeap := au_ownerHeap x;
     au_actionHeap := au_actionHeap x; au_grantHeap := au_grantHeap x;
     au_resourceHeap := au_resourceHeap x |}.
Definition set_au_sessionHeap (v : gmap nat sessionRecord) (x : Authority) : Authority :=
  {| au_env := au_env x; au_reads := au_reads x; au_nonces := au_nonces x;
     au_watermark := au_watermark x; au_sessions := au_sessions x; au_owners := au_owners x;
     au_tickets := au_tickets x; au_resources := au_resources x; au_keys := au_keys x;
     au_lastGeneration := au_lastGeneration x; au_actions := au_actions x;
     au_grants := au_grants x; au_queued := au_queued x; au_publications := au_publications x;
     au_nativeCalls := au_nativeCalls x; au_fenced := au_fenced x; au_closed := au_closed x;
     au_closeErr := au_closeErr x; au_sessionHeap := v; au_ownerHeap := au_ownerHeap x;
     au_actionHeap := au_actionHeap x; au_grantHeap := au_grantHeap x;
     au_resourceHeap := au_resourceHeap x |}.
Definition set_au_ownerHeap (v : gmap nat ownerRecord) (x : Authority) : Authority :=
  {| au_env := au_env x; au_reads := au_reads x; au_nonces := au_nonces x;
     au_watermark := au_watermark x; au_sessions := au_sessions x; au_owners := au_owners x;
     au_tickets := au_tickets x; au_resources := au_resources x; au_keys := au_keys x;
     au_lastGeneration := au_lastGeneration x; au_actions := au_actions x;
     au_grants := au_grants x; au_queued := au_queued x; au_publications := au_publications x;
     au_nativeCalls := au_nativeCalls x; au_fenced := au_fenced x; au_closed := au_closed x;
     au_closeErr := au_closeErr x; au_sessionHeap := au_sessionHeap x; au_ownerHeap := v;
     au_actionHeap := au_actionHeap x; au_grantHeap := au_grantHeap x;
     au_resourceHeap := au_resourceHeap x |}.
Definition set_au_actionHeap (v : gmap nat actionRecord) (x : Authority) : Authority :=
  {| au_env := au_env x; au_reads := au_reads x; au_nonces := au_nonces x;
     au_watermark := au_watermark x; au_sessions := au_sessions x; au_owners := au_owners x;
     au_tickets := au_tickets x; au_resources := au_resources x; au_keys := au_keys x;
     au_lastGeneration := au_lastGeneration x; au_actions := au_actions x;
     au_grants := au_grants x; au_queued := au_queued x; au_publications := au_publications x;
     au_nativeCalls := au_nativeCalls x; au_fenced := au_fenced x; au_closed := au_closed x;
     au_closeErr := au_closeErr x; au_sessionHeap := au_sessionHeap x;
     au_ownerHeap := au_ownerHeap x; au_actionHeap := v; au_grantHeap := au_grantHeap x;
     au_resourceHeap := au_resourceHeap x |}.
Definition set_au_grantHeap (v : gmap nat grantRecord) (x : Authority) : Authority :=
  {| au_env := au_env x; au_reads := au_reads x; au_nonces := au_nonces x;
     au_watermark := au_watermark x; au_sessions := au_sessions x; au_owners := au_owners x;
     au_tickets := au_tickets x; au_resources := au_resources x; au_keys := au_keys x;
     au_lastGeneration := au_lastGeneration x; au_actions := au_actions x;
     au_grants := au_grants x; au_queued := au_queued x; au_publications := au_publications x;
     au_nativeCalls := au_nativeCalls x; au_fenced := au_fenced x; au_closed := au_closed x;
     au_closeErr := au_closeErr x; au_sessionHeap := au_sessionHeap x;
     au_ownerHeap := au_ownerHeap x; au_actionHeap := au_actionHeap x; au_grantHeap := v;
     au_resourceHeap := au_resourceHeap x |}.
Definition set_au_resourceHeap (v : gmap nat resourceRecord) (x : Authority) : Authority :=
  {| au_env := au_env x; au_reads := au_reads x; au_nonces := au_nonces x;
     au_watermark := au_watermark x; au_sessions := au_sessions x; au_owners := au_owners x;
     au_tickets := au_tickets x; au_resources := au_resources x; au_keys := au_keys x;
     au_lastGeneration := au_lastGeneration x; au_actions := au_actions x;
     au_grants := au_grants x; au_queued := au_queued x; au_publications := au_publications x;
     au_nativeCalls := au_nativeCalls x; au_fenced := au_fenced x; au_closed := au_closed x;
     au_closeErr := au_closeErr x; au_sessionHeap := au_sessionHeap x;
     au_ownerHeap := au_ownerHeap x; au_actionHeap := au_actionHeap x;
     au_grantHeap := au_grantHeap x; au_resourceHeap := v |}.
