(* ===== verification/LockAuthority.v ===== *)
(** * The lease authority: operations

    Every operation of [packages/locking]: authority.go, enrollment.go,
    actions.go, resources.go, results.go and publication.go.  The code between
    [a.mu.Lock()] and [a.mu.Unlock()] is one computation over the authority,
    named after its function; a call that unlocks to wait, to persist or to
    enter the backend is the sequence of its sections, and [LockSteps] lets
    other calls run between them.  A loop that waits for a publication ends its
    turn with [Busy]. *)

From S2P Require Import Prelude Errors Identity LockTokens LockState.

Definition A (X : Type) : Type := comp Authority X.

(** One turn of a loop that waits while a resource is being published. *)
Inductive turn (X : Type) := Busy | Done (x : X).
Arguments Busy {X}.
Arguments Done {X} x.

Definition millisecond : Z := 1000000.

(** ** authority.go *)

Definition minute : Z := 60000 * millisecond.

Definition DefaultOptions : Options :=
  {| op_MaxSessions := 1024; op_MaxTickets := 1024; op_MaxOwners := 4096; op_MaxResources := 4096;
     op_MaxActions := 262144; op_MaxGrants := 8192; op_MaxQueued := 4096; op_OwnersPerSession := 64;
     op_OwnerActionsPerSession := 256; op_ActionsPerOwner := 1024; op_GrantsPerOwner := 64;
     op_QueuedPerOwner := 64; op_QueuedPerResource := 128; op_MaxProofs := 16;
     op_MaxRequestBytes := 128; op_MaxLease := minute; op_MaxWait := minute; op_TicketTTL := minute;
     op_SessionIdle := 10 * minute; op_ResourceTTL := minute |}.

Definition Options_Validate (o : Options) : option error :=
  if existsb (λ n, n <=? 0)
       [op_MaxSessions o; op_MaxTickets o; op_MaxOwners o; op_MaxResources o; op_MaxActions o;
        op_MaxGrants o; op_MaxQueued o; op_OwnersPerSession o; op_OwnerActionsPerSession o;
        op_ActionsPerOwner o; op_GrantsPerOwner o; op_QueuedPerOwner o; op_QueuedPerResource o;
        op_MaxProofs o; op_MaxRequestBytes o]
     || existsb (λ d, d <? millisecond)
          [op_MaxLease o; op_MaxWait o; op_TicketTTL o; op_SessionIdle o; op_ResourceTTL o]
     || (op_SessionIdle o <? op_MaxLease o) || (op_SessionIdle o <? op_MaxWait o)
  then Some (LockError Invalid false None) else None.

(** [New]: [watermark] and [recoveryStart] are the answers of the persistence;
    a zero [recoveryStart] is [None]. *)
Definition New (o : Options) (watermark : result Z) (recoveryStart : option Z) (i : issuer)
    (clock : nat → Z) (nonce : nat → list Z) : result Authority :=
  match Options_Validate o with
  | Some err => Err err
  | None =>
      match watermark with
      | Err err => Err (LockError Unavailable false (Some err))
      | Ok watermark =>
          match recoveryStart with
          | None => fail Invalid
          | Some start =>
              if watermark <? 0 then fail Invalid
              else Ok {| au_env := {| ev_options := o; ev_issuer := i; ev_start := clock 0%nat;
                                      ev_recoveryUntil := start + watermark; ev_clock := clock;
                                      ev_nonce := nonce |};
                         au_reads := 1; au_nonces := 0; au_watermark := watermark; au_sessions := ∅;
                         au_owners := ∅; au_tickets := ∅; au_resources := ∅; au_keys := ∅;
                         au_lastGeneration := 0; au_actions := 0; au_grants := 0; au_queued := 0;
                         au_publications := 0; au_nativeCalls := 0; au_fenced := None;
                         au_closed := false; au_closeErr := None; au_sessionHeap := ∅; au_ownerHeap := ∅;
                         au_actionHeap := ∅; au_grantHeap := ∅; au_resourceHeap := ∅ |}
          end
      end
  end.

(** [a.clock.Now()] *)
Definition clock_now : A Z := λ a,
  Some (ev_clock (au_env a) (au_reads a), set_au_reads (S (au_reads a)) a).

Definition options : A Options := gets (λ a, ev_options (au_env a)).

(** [a.token(kind, parent, extra)] *)
Definition new_token (kind parent extra : string) : A string := λ a,
  Some (token (ev_issuer (au_env a)) (ev_nonce (au_env a) (au_nonces a)) kind parent extra,
        set_au_nonces (S (au_nonces a)) a).

Definition verify_token (t kind parent : string) : A (result string) :=
  gets (λ a, verify (ev_issuer (au_env a)) t kind parent).

(** [t.Sub(a.start).Milliseconds()] *)
Definition tick (a : Authority) (t : Z) : Z := Z.quot (t - ev_start (au_env a)) millisecond.

Definition get_session (s : nat) : A sessionRecord := deref (λ a, au_sessionHeap a !! s).
Definition get_owner (o : nat) : A ownerRecord := deref (λ a, au_ownerHeap a !! o).
Definition get_action (q : nat) : A actionRecord := deref (λ a, au_actionHeap a !! q).
Definition get_grant (g : nat) : A grantRecord := deref (λ a, au_grantHeap a !! g).
Definition get_resource (r : nat) : A resourceRecord := deref (λ a, au_resourceHeap a !! r).

Definition upd_session (s : nat) (f : sessionRecord → sessionRecord) : A unit :=
  modify (λ a, set_au_sessionHeap (alter f s (au_sessionHeap a)) a).
Definition upd_owner (o : nat) (f : ownerRecord → ownerRecord) : A unit :=
  modify (λ a, set_au_ownerHeap (alter f o (au_ownerHeap a)) a).
Definition upd_action (q : nat) (f : actionRecord → actionRecord) : A unit :=
  modify (λ a, set_au_actionHeap (alter f q (au_actionHeap a)) a).
Definition upd_grant (g : nat) (f : grantRecord → grantRecord) : A unit :=
  modify (λ a, set_au_grantHeap (alter f g (au_grantHeap a)) a).
Definition upd_resource (r : nat) (f : resourceRecord → resourceRecord) : A unit :=
  modify (λ a, set_au_resourceHeap (alter f r (au_resourceHeap a)) a).

(** [healthyLocked]; [ctx_err] is [ctx.Err()]. *)
Definition healthyLocked (ctx_err : option error) (admission : bool) : A (option error) :=
  let! a := gets id in
  match ctx_err with
  | Some err => ret (Some err)
  | None =>
      if au_closed a then ret (Some (LockError Retired false None))
      else match au_fenced a with
      | Some cause => ret (Some (LockError Unavailable false (Some cause)))
      | None =>
          if admission then
            let! now := clock_now in
            ret (if now <? ev_recoveryUntil (au_env a)
                 then Some (LockError Recovering false None) else None)
          else ret None
      end
  end.

Definition ownerLocked (ref : OwnerRef) : A (result nat) :=
  let! session := verify_token (or_Session ref) "s" EmptyString in
  match session with
  | Err err => ret (Err err)
  | Ok _ =>
      let! owner := verify_token (or_Owner ref) "o" (or_Session ref) in
      match owner with
      | Err err => ret (Err err)
      | Ok _ =>
          let! found := gets (λ a, au_owners a !! or_Owner ref) in
          match found with
          | None => ret (fail Retired)
          | Some o =>
              let! owner := get_owner o in
              ret (if bool_decide (ow_ref owner = ref) then Ok o else fail Retired)
          end
      end
  end.

Definition sessionLocked (id : SessionID) : A (result nat) :=
  let! session := verify_token id "s" EmptyString in
  match session with
  | Err err => ret (Err err)
  | Ok _ =>
      let! found := gets (λ a, au_sessions a !! id) in
      ret (match found with Some s => Ok s | None => fail Retired end)
  end.

Definition touchSessionLocked (s : nat) : A unit :=
  let! now := clock_now in
  let! o := options in
  let until := now + op_SessionIdle o in
  let! session := get_session s in
  if ss_expires session <? until then upd_session s (set_ss_expires until) else ret tt.

Definition touchLocked (o : nat) : A unit :=
  let! owner := get_owner o in
  touchSessionLocked (ow_session owner).

(** [raise]; [persist] is the answer of [RaiseMaxLease].  [raiseMu] is held
    from the check to the end, and nothing else sets the watermark. *)
Definition raise (ctx_err : option error) (ttl : Z) (persist : option error) : A (option error) :=
  let! err := healthyLocked ctx_err false in
  match err with
  | Some err => ret (Some err)
  | None =>
      let! current := gets au_watermark in
      if ttl <=? current then ret None
      else match persist with
      | Some err => ret (Some (LockError Unavailable false (Some err)))
      | None => do! modify (set_au_watermark ttl) in ret None
      end
  end.

Definition requestValid (id : RequestID) (max : Z) : bool := (0 <? len id) && (len id <=? max).

(** The counter of native calls that [Close] waits for. *)
Definition beginNative (ctx_err : option error) : A (option error) :=
  let! err := healthyLocked ctx_err false in
  match err with
  | Some err => ret (Some err)
  | None => do! modify (λ a, set_au_nativeCalls (au_nativeCalls a + 1) a) in ret None
  end.

(** The function [beginNative] returns. *)
Definition finish_native : A unit := modify (λ a, set_au_nativeCalls (au_nativeCalls a - 1) a).

Definition ticketExpiry (a : Authority) (extra : string) : result Z :=
  match Atoi extra with
  | None => fail Invalid
  | Some n => if (n <? 0) || (MaxInt64 / millisecond <? n) then fail Invalid
              else Ok (ev_start (au_env a) + n * millisecond)
  end.

(** ** resources.go: grants and queues *)

Definition endGrantLocked (g : nat) (state : GrantState) : A unit :=
  let! grant := get_grant g in
  if negb (bool_decide (gt_state grant = Active)) then ret tt
  else
    do! upd_grant g (set_gt_state state) in
    do! modify (λ a, set_au_grants (au_grants a - 1) a) in
    do! upd_owner (gt_owner grant) (λ o, set_ow_liveGrants (ow_liveGrants o - 1) o) in
    upd_resource (gt_resource grant) (λ r, set_rs_grants (delete (gf_ID (gt_ref grant)) (rs_grants r)) r).

Definition expire_grant (now : Z) (g : nat) : A unit :=
  let! grant := get_grant g in
  if now <? gt_deadline grant then ret tt else endGrantLocked g Expired.

Definition expireGrantsLocked (r : nat) (now : Z) : A unit :=
  let! resource := get_resource r in
  if rs_busy resource then ret tt
  else iter (expire_grant now) (map_to_list (rs_grants resource)).*2.

Fixpoint remove_first (q : nat) (queue : list nat) : list nat :=
  match queue with
  | [] => []
  | v :: queue => if bool_decide (v = q) then queue else v :: remove_first q queue
  end.

Definition set_outcome (outcome : ActionOutcome) (code : option Code) (action : actionRecord) : actionRecord :=
  set_ac_receipt (set_rp_Code code (set_rp_Outcome outcome (ac_receipt action))) action.

Definition finishLocked (q : nat) (outcome : ActionOutcome) (code : option Code) : A unit :=
  let! action := get_action q in
  if negb (bool_decide (rp_Outcome (ac_receipt action) = Pending)) then ret tt
  else
    do! match ac_waitUntil action with
        | None => ret tt
        | Some _ =>
            do! modify (λ a, set_au_queued (au_queued a - 1) a) in
            do! upd_owner (ac_owner action) (λ o, set_ow_queued (ow_queued o - 1) o) in
            let! r := deref (λ _, ac_resource action) in
            upd_resource r (λ r, set_rs_queue (remove_first q (rs_queue r)) r)
        end in
    upd_action q (set_outcome outcome code).

Definition expire_queued (now : Z) (q : nat) : A unit :=
  let! action := get_action q in
  if match ac_waitUntil action with Some until => now <? until | None => false end
  then ret tt else finishLocked q TimedOut None.

Definition expireQueuedLocked (r : nat) (now : Z) : A unit :=
  let! resource := get_resource r in
  iter (expire_queued now) (rev (rs_queue resource)).

(** [startWorkerLocked]: the goroutine it starts is a worker of [LockSteps]. *)
Definition startWorkerLocked (r : nat) : A unit :=
  let! resource := get_resource r in
  let! a := gets id in
  if rs_worker resource || bool_decide (rs_queue resource = []) || au_closed a
     || (if au_fenced a then true else false)
  then ret tt else upd_resource r (set_rs_worker true).

(** ** enrollment.go *)

Definition grant_busy (g : nat) : A bool :=
  let! grant := get_grant g in
  let! resource := get_resource (gt_resource grant) in
  ret (rs_busy resource).

(** Whether some element passes a test. *)
Fixpoint exists_in {X} (test : X → A bool) (l : list X) : A bool :=
  match l with
  | [] => ret false
  | x :: l => let! b := test x in if b : bool then ret true else exists_in test l
  end.

Definition ownerBusyLocked (o : nat) : A bool :=
  let! owner := get_owner o in
  exists_in grant_busy (map_to_list (ow_grants owner)).*2.

Definition cancel_pending (q : nat) : A unit := finishLocked q Cancelled None.
Definition end_retired (g : nat) : A unit := endGrantLocked g OwnerRetired.

Definition retireOwnerLocked (o : nat) : A unit :=
  let! owner := get_owner o in
  do! iter cancel_pending (map_to_list (ow_actions owner)).*2 in
  do! iter end_retired (map_to_list (ow_grants owner)).*2 in
  do! modify (λ a, set_au_actions (au_actions a - Z.of_nat (size (ow_actions owner))) a) in
  do! modify (λ a, set_au_owners (delete (or_Owner (ow_ref owner)) (au_owners a)) a) in
  upd_session (ow_session owner) (λ s, set_ss_owners (delete (or_Owner (ow_ref owner)) (ss_owners s)) s).

Definition retireSessionLocked (s : nat) : A unit :=
  let! session := get_session s in
  do! iter retireOwnerLocked (map_to_list (ss_owners session)).*2 in
  modify (λ a, set_au_sessions (delete (ss_id session) (au_sessions a)) a).

Definition session_busy (s : nat) : A bool :=
  let! session := get_session s in
  exists_in ownerBusyLocked (map_to_list (ss_owners session)).*2.

Definition expire_session (now : Z) (s : nat) : A unit :=
  let! session := get_session s in
  if now <? ss_expires session then ret tt
  else
    let! busy := session_busy s in
    if busy : bool then ret tt else retireSessionLocked s.

Definition expireSessionsLocked (now : Z) : A unit :=
  do! modify (λ a, set_au_tickets (filter (λ p, now < tk_expires p.2) (au_tickets a)) a) in
  let! sessions := gets au_sessions in
  iter (expire_session now) (map_to_list sessions).*2.

Definition BeginEnrollment (ctx_err : option error) : A (result EnrollmentTicket) :=
  let! err := healthyLocked ctx_err false in
  match err with
  | Some err => ret (Err err)
  | None =>
      let! now := clock_now in
      let! o := options in
      let! expiry := gets (λ a, tick a (now + op_TicketTTL o)) in
      let! t := new_token "t" EmptyString (FormatInt expiry) in
      ret (Ok t)
  end.

Record Session := {
  sr_ID : SessionID; sr_Authority : string; sr_HistoryExpiresMillis : Z; sr_NowMillis : Z;
  sr_Retired : bool }.

Definition sessionResultLocked (s : nat) : A Session :=
  let! session := get_session s in
  let! now := clock_now in
  gets (λ a, {| sr_ID := ss_id session; sr_Authority := is_incarnation (ev_issuer (au_env a));
                sr_HistoryExpiresMillis := tick a (ss_expires session); sr_NowMillis := tick a now;
                sr_Retired := false |}).

Definition OpenSession (ctx_err : option error) (ticket : EnrollmentTicket) : A (result Session) :=
  let! err := healthyLocked ctx_err false in
  match err with
  | Some err => ret (Err err)
  | None =>
      let! extra := verify_token ticket "t" EmptyString in
      match extra with
      | Err err => ret (Err err)
      | Ok extra =>
          let! expiry := gets (λ a, ticketExpiry a extra) in
          match expiry with
          | Err err => ret (Err err)
          | Ok expiry =>
              let! now := clock_now in
              do! expireSessionsLocked now in
              if negb (now <? expiry) then ret (fail Retired)
              else
                let! previous := gets (λ a, au_tickets a !! ticket) in
                match previous with
                | Some previous =>
                    let! session := gets (λ a, au_sessions a !! tk_session previous) in
                    match session with
                    | Some s =>
                        do! touchSessionLocked s in
                        let! result := sessionResultLocked s in
                        ret (Ok result)
                    | None =>
                        gets (λ a, Ok {| sr_ID := tk_session previous;
                                         sr_Authority := is_incarnation (ev_issuer (au_env a));
                                         sr_HistoryExpiresMillis := 0; sr_NowMillis := tick a now;
                                         sr_Retired := true |})
                    end
                | None =>
                    let! a := gets id in
                    let! o := options in
                    if (op_MaxTickets o <=? Z.of_nat (size (au_tickets a)))
                       || (op_MaxSessions o <=? Z.of_nat (size (au_sessions a)))
                    then ret (fail Capacity)
                    else
                      let! id := new_token "s" EmptyString EmptyString in
                      let s := fresh (dom (au_sessionHeap a)) in
                      do! modify (λ a, set_au_sessionHeap
                            (<[s := {| ss_id := id; ss_expires := now + op_SessionIdle o;
                                       ss_owners := ∅; ss_creates := ∅ |}]> (au_sessionHeap a)) a) in
                      do! modify (λ a, set_au_sessions (<[id := s]> (au_sessions a)) a) in
                      do! modify (λ a, set_au_tickets
                            (<[ticket := {| tk_session := id; tk_expires := expiry |}]> (au_tickets a)) a) in
                      let! result := sessionResultLocked s in
                      ret (Ok result)
                end
          end
      end
  end.

Record Owner := {
  wr_Ref : OwnerRef; wr_ActionCapacity : Z; wr_HistoryExpiresMillis : Z; wr_NowMillis : Z;
  wr_Retired : bool }.

(** The owner [ref] of the session [s] as a result. *)
Definition owner_result (ref : OwnerRef) (s : nat) (retired : bool) : A Owner :=
  let! session := get_session s in
  let! now := clock_now in
  let! o := options in
  gets (λ a, {| wr_Ref := ref; wr_ActionCapacity := op_ActionsPerOwner o;
                wr_HistoryExpiresMillis := tick a (ss_expires session); wr_NowMillis := tick a now;
                wr_Retired := retired |}).

Definition ownerResultLocked (o : nat) : A Owner :=
  let! owner := get_owner o in
  owner_result (ow_ref owner) (ow_session owner) false.

Definition CreateOwner (ctx_err : option error) (id : SessionID) (request : RequestID)
  : A (result Owner) :=
  let! err := healthyLocked ctx_err false in
  match err with
  | Some err => ret (Err err)
  | None =>
      let! now := clock_now in
      do! expireSessionsLocked now in
      let! found := sessionLocked id in
      match found with
      | Err err => ret (Err err)
      | Ok s =>
          let! opts := options in
          if negb (requestValid request (op_MaxRequestBytes opts)) then ret (fail Invalid)
          else
            let! session := get_session s in
            match ss_creates session !! request with
            | Some previous =>
                do! touchSessionLocked s in
                match ss_owners session !! previous with
                | Some o => let! result := ownerResultLocked o in ret (Ok result)
                | None =>
                    let! result := owner_result {| or_Session := id; or_Owner := previous |} s true in
                    ret (Ok result)
                end
            | None =>
                let! a := gets Datatypes.id in
                if (op_MaxOwners opts <=? Z.of_nat (size (au_owners a)))
                   || (op_OwnersPerSession opts <=? Z.of_nat (size (ss_owners session)))
                   || (op_OwnerActionsPerSession opts <=? Z.of_nat (size (ss_creates session)))
                then ret (fail Capacity)
                else
                  let! ownerID := new_token "o" id EmptyString in
                  let o := fresh (dom (au_ownerHeap a)) in
                  do! modify (λ a, set_au_ownerHeap
                        (<[o := {| ow_ref := {| or_Session := id; or_Owner := ownerID |};
                                   ow_session := s; ow_actions := ∅; ow_grants := ∅;
                                   ow_liveGrants := 0; ow_queued := 0 |}]> (au_ownerHeap a)) a) in
                  do! modify (λ a, set_au_owners (<[ownerID := o]> (au_owners a)) a) in
                  do! upd_session s (λ s, set_ss_creates (<[request := ownerID]> (ss_creates s))
                                            (set_ss_owners (<[ownerID := o]> (ss_owners s)) s)) in
                  do! touchLocked o in
                  let! result := ownerResultLocked o in
                  ret (Ok result)
            end
      end
  end.

(** A turn of the loop of [RetireOwner]. *)
Definition RetireOwner (ctx_err : option error) (ref : OwnerRef) : A (turn (option error)) :=
  let! err := healthyLocked ctx_err false in
  match err with
  | Some err => ret (Done (Some err))
  | None =>
      let! found := ownerLocked ref in
      match found with
      | Err err => ret (Done (if bool_decide (CodeOf err = Retired) then None else Some err))
      | Ok o =>
          let! busy := ownerBusyLocked o in
          if busy : bool then ret Busy
          else do! retireOwnerLocked o in ret (Done None)
      end
  end.

(** A turn of the loop of [CloseSession]. *)
Definition CloseSession (ctx_err : option error) (id : SessionID) : A (turn (option error)) :=
  let! err := healthyLocked ctx_err false in
  match err with
  | Some err => ret (Done (Some err))
  | None =>
      let! found := sessionLocked id in
      match found with
      | Err err => ret (Done (if bool_decide (CodeOf err = Retired) then None else Some err))
      | Ok s =>
          let! busy := session_busy s in
          if busy : bool then ret Busy
          else do! retireSessionLocked s in ret (Done None)
      end
  end.

(** ** resources.go: resolution *)

(** The first section of [Resolve]. *)
Definition resolve_check (ctx_err : option error) (ref : OwnerRef) : A (option error) :=
  let! err := healthyLocked ctx_err false in
  match err with
  | Some err => ret (Some err)
  | None =>
      let! now := clock_now in
      do! expireSessionsLocked now in
      let! found := ownerLocked ref in
      ret (match found with Err err => Some err | Ok _ => None end)
  end.

(** A new resource for a backend key. *)
Definition adopt_resource (key : BackendKey) : A nat :=
  let! id := new_token "r" EmptyString EmptyString in
  let! r := gets (λ a, fresh (dom (au_resourceHeap a))) in
  do! modify (λ a, set_au_resourceHeap
        (<[r := {| rs_id := id; rs_key := key; rs_referenceUntil := 0; rs_grants := ∅;
                   rs_queue := []; rs_busy := false; rs_retired := false;
                   rs_worker := false; rs_holds := 0; rs_forgetting := false |}]>
           (au_resourceHeap a)) a) in
  do! modify (λ a, set_au_resources (<[id := r]> (au_resources a)) a) in
  do! modify (λ a, set_au_keys (<[key := r]> (au_keys a)) a) in
  ret r.

(** The callback [Resolve] gives to [native.Discover]: whether the pin is
    adopted, and the reference. *)
Definition resolve_callback (ctx_err : option error) (ref : OwnerRef) (key : BackendKey)
  : A (result (bool * ResourceRef)) :=
  let! err := healthyLocked ctx_err false in
  match err with
  | Some err => ret (Err err)
  | None =>
      let! now := clock_now in
      do! expireSessionsLocked now in
      let! found := ownerLocked ref in
      match found with
      | Err err => ret (Err err)
      | Ok o =>
          if String.eqb key EmptyString then ret (fail Invalid)
          else
            let! known := gets (λ a, au_keys a !! key) in
            let! opts := options in
            let! selected :=
              match known with
              | None =>
                  let! count := gets (λ a, Z.of_nat (size (au_resources a))) in
                  if op_MaxResources opts <=? count then ret (fail Capacity)
                  else let! r := adopt_resource key in ret (Ok (r, true))
              | Some r =>
                  let! resource := get_resource r in
                  ret (if rs_retired resource || rs_forgetting resource
                       then fail StaleResource else Ok (r, false))
              end in
            match selected with
            | Err err => ret (Err err)
            | Ok (r, adopt) =>
                let! now := clock_now in
                do! upd_resource r (set_rs_referenceUntil (now + op_ResourceTTL opts)) in
                do! touchLocked o in
                let! resource := get_resource r in
                let! owner := get_owner o in
                let! session := get_session (ow_session owner) in
                gets (λ a, Ok (adopt, {| rr_ID := rs_id resource;
                                         rr_ExpiresMillis := tick a (rs_referenceUntil resource);
                                         rr_NowMillis := tick a now;
                                         rr_HistoryExpiresMillis := tick a (ss_expires session) |}))
            end
      end
  end.

Definition resourceLocked (ref : ResourceRef) : A (result nat) :=
  let! id := verify_token (rr_ID ref) "r" EmptyString in
  match id with
  | Err err => ret (Err err)
  | Ok _ =>
      let! found := gets (λ a, au_resources a !! rr_ID ref) in
      match found with
      | None => ret (fail StaleResource)
      | Some r =>
          let! resource := get_resource r in
          if rs_retired resource || rs_forgetting resource then ret (fail StaleResource)
          else
            let! now := clock_now in
            let! a := gets Datatypes.id in
            ret (if negb (now <? rs_referenceUntil resource) || (rr_ExpiresMillis ref <=? tick a now)
                    || (tick a (rs_referenceUntil resource) <? rr_ExpiresMillis ref)
                 then fail StaleResource else Ok r)
      end
  end.

(** ** actions.go: granting *)

Definition grant_compatible (o : nat) (mode : Mode) (g : nat) : A bool :=
  let! grant := get_grant g in
  ret (bool_decide (gt_owner grant = o) || bool_decide (mode = Exclusive)
       || bool_decide (gt_mode grant = Exclusive)).

Definition compatibleLocked (r o : nat) (mode : Mode) : A bool :=
  let! resource := get_resource r in
  let! refused := exists_in (grant_compatible o mode) (map_to_list (rs_grants resource)).*2 in
  ret (negb refused).

(** [string(o.ref.Owner) + "/" + string(r.id) + "/" + generation] *)
Definition grant_parent (owner : OwnerID) (resource : ResourceID) (generation : Z) : string :=
  String.append owner (String (byte_of 47) (String.append resource
    (String (byte_of 47) (FormatUint generation)))).

(** A new active grant [g] of the owner [o] on the resource [r]. *)
Definition install_grant (o r : nat) (ref : GrantRef) (mode : Mode) (deadline : Z) : A nat :=
  let! g := gets (λ a, fresh (dom (au_grantHeap a))) in
  do! modify (λ a, set_au_grantHeap
        (<[g := {| gt_owner := o; gt_resource := r; gt_ref := ref; gt_mode := mode;
                   gt_state := Active; gt_deadline := deadline; gt_revision := 1;
                   gt_release := None |}]> (au_grantHeap a)) a) in
  do! upd_resource r (λ r, set_rs_grants (<[gf_ID ref := g]> (rs_grants r)) r) in
  do! upd_owner o (λ o, set_ow_liveGrants (ow_liveGrants o + 1)
                          (set_ow_grants (<[gf_ID ref := g]> (ow_grants o)) o)) in
  do! modify (λ a, set_au_grants (au_grants a + 1) a) in
  ret g.

(** [grantLocked]; the action is an acquisition with its resource. *)
Definition grantLocked (q : nat) : A (option error) :=
  let! action := get_action q in
  let! request := deref (λ _, rp_Acquire (ac_receipt action)) in
  let! r := deref (λ _, ac_resource action) in
  let o := ac_owner action in
  let! owner := get_owner o in
  let! resource := get_resource r in
  let! a := gets id in
  let! opts := options in
  if (op_MaxGrants opts <=? au_grants a) || (op_GrantsPerOwner opts <=? ow_liveGrants owner)
  then ret (Some (LockError Capacity false None))
  else if au_lastGeneration a =? MaxUint64 then ret (Some (LockError Capacity false None))
  else
    let generation := au_lastGeneration a + 1 in
    do! modify (set_au_lastGeneration generation) in
    let! id := new_token "g" (grant_parent (or_Owner (ow_ref owner)) (rs_id resource) generation) EmptyString in
    let ref := {| gf_ID := id; gf_Resource := rs_id resource; gf_Generation := generation |} in
    let! now := clock_now in
    let deadline := now + aq_TTL request in
    let! g := install_grant o r ref (aq_Mode request) deadline in
    let! millis := gets (λ a, tick a deadline) in
    do! upd_action q (λ q, set_ac_grant (Some g)
          (set_ac_receipt (set_rp_Revision 1 (set_rp_DeadlineMillis millis
             (set_rp_Grant (Some ref) (ac_receipt q)))) q)) in
    do! finishLocked q Granted None in
    do! touchLocked o in
    ret None.

Definition grantLockedForOwner (o : nat) (ref : GrantRef) : A (result nat) :=
  let! owner := get_owner o in
  let! verified := verify_token (gf_ID ref) "g"
                     (grant_parent (or_Owner (ow_ref owner)) (gf_Resource ref) (gf_Generation ref)) in
  match verified with
  | Err err => ret (Err (LockError StaleGrant false (Some err)))
  | Ok _ =>
      match ow_grants owner !! gf_ID ref with
      | None => ret (fail StaleGrant)
      | Some g =>
          let! grant := get_grant g in
          if negb (bool_decide (gt_ref grant = ref)) then ret (fail StaleGrant)
          else
            let! now := clock_now in
            do! expireGrantsLocked (gt_resource grant) now in
            ret (Ok g)
      end
  end.

(** ** results.go *)

Record GrantStatus := {
  gs_Ref : GrantRef; gs_Mode : Mode; gs_State : GrantState; gs_Revision : Z; gs_DeadlineMillis : Z;
  gs_RemainingMillis : Z; gs_NowMillis : Z; gs_HistoryExpiresMillis : Z }.

Definition grantStatusLocked (g : nat) : A GrantStatus :=
  let! now := clock_now in
  let! grant := get_grant g in
  do! expireGrantsLocked (gt_resource grant) now in
  let! grant := get_grant g in
  let remaining := gt_deadline grant - now in
  let remaining := if (remaining <? 0) || negb (bool_decide (gt_state grant = Active)) then 0 else remaining in
  let! owner := get_owner (gt_owner grant) in
  let! session := get_session (ow_session owner) in
  gets (λ a, {| gs_Ref := gt_ref grant; gs_Mode := gt_mode grant; gs_State := gt_state grant;
                gs_Revision := gt_revision grant; gs_DeadlineMillis := tick a (gt_deadline grant);
                gs_RemainingMillis := Z.quot remaining millisecond; gs_NowMillis := tick a now;
                gs_HistoryExpiresMillis := tick a (ss_expires session) |}).

Record ActionResult := {
  ar_Recorded : bool; ar_Receipt : ActionReceipt; ar_Grant : option GrantStatus; ar_NowMillis : Z;
  ar_HistoryExpiresMillis : Z }.

(** [actionResultLocked]: a recorded result, with an error when it is a
    rejection. *)
Definition actionResultLocked (q : nat) : A (ActionResult * option error) :=
  let! action := get_action q in
  let! now := clock_now in
  let! owner := get_owner (ac_owner action) in
  let! session := get_session (ow_session owner) in
  let! times := gets (λ a, (tick a now, tick a (ss_expires session))) in
  let! status := match ac_grant action with
                 | None => ret None
                 | Some g => let! status := grantStatusLocked g in ret (Some status)
                 end in
  ret ({| ar_Recorded := true; ar_Receipt := ac_receipt action; ar_Grant := status; ar_NowMillis := times.1;
          ar_HistoryExpiresMillis := times.2 |},
       if bool_decide (rp_Outcome (ac_receipt action) = Rejected)
       then Some (LockError (default (OtherCode EmptyString) (rp_Code (ac_receipt action))) true
                            (ac_failure action))
       else None).

(** What an action's call answers: a recorded result or an error alone. *)
Definition action_answer : Type := result (ActionResult * option error).

(** Whether the grant of an action is being published under. *)
Definition action_busy (action : actionRecord) : A bool :=
  match ac_grant action with None => ret false | Some g => grant_busy g end.

(** A turn of [QueryAction]. *)
Definition QueryAction (ctx_err : option error) (ref : OwnerRef) (request : RequestID)
  : A (turn action_answer) :=
  let! err := healthyLocked ctx_err false in
  match err with
  | Some err => ret (Done (Err err))
  | None =>
      let! now := clock_now in
      do! expireSessionsLocked now in
      let! found := ownerLocked ref in
      match found with
      | Err err => ret (Done (Err err))
      | Ok o =>
          let! opts := options in
          if negb (requestValid request (op_MaxRequestBytes opts)) then ret (Done (fail Invalid))
          else
            let! owner := get_owner o in
            match ow_actions owner !! request with
            | None => ret (Done (fail OutcomeUnknown))
            | Some q =>
                let! action := get_action q in
                let! busy := action_busy action in
                if busy : bool then ret Busy
                else
                  do! (if bool_decide (rp_Outcome (ac_receipt action) = Pending) then
                         match ac_waitUntil action with
                         | None => ret tt
                         | Some until =>
                             let! now := clock_now in
                             if now <? until then ret tt else finishLocked q TimedOut None
                         end
                       else ret tt) in
                  do! touchLocked o in
                  let! result := actionResultLocked q in
                  ret (Done (Ok result))
            end
      end
  end.

(** A turn of [QueryGrant]. *)
Definition QueryGrant (ctx_err : option error) (ref : OwnerRef) (grant : GrantRef)
  : A (turn (result GrantStatus)) :=
  let! err := healthyLocked ctx_err false in
  match err with
  | Some err => ret (Done (Err err))
  | None =>
      let! now := clock_now in
      do! expireSessionsLocked now in
      let! found := ownerLocked ref in
      match found with
      | Err err => ret (Done (Err err))
      | Ok o =>
          let! held := grantLockedForOwner o grant in
          match held with
          | Err err => ret (Done (Err err))
          | Ok g =>
              let! busy := grant_busy g in
              if busy : bool then ret Busy
              else
                do! touchLocked o in
                let! status := grantStatusLocked g in
                ret (Done (Ok status))
          end
      end
  end.

Record ReleaseResult := {
  rl_State : GrantState; rl_Grant : GrantStatus; rl_NowMillis : Z; rl_HistoryExpiresMillis : Z }.

(** A turn of [Release]. *)
Definition Release (ctx_err : option error) (ref : OwnerRef) (grant : GrantRef)
  : A (turn (result ReleaseResult)) :=
  let! err := healthyLocked ctx_err false in
  match err with
  | Some err => ret (Done (Err err))
  | None =>
      let! now := clock_now in
      do! expireSessionsLocked now in
      let! found := ownerLocked ref in
      match found with
      | Err err => ret (Done (Err err))
      | Ok o =>
          let! held := grantLockedForOwner o grant in
          match held with
          | Err err => ret (Done (Err err))
          | Ok g =>
              let! busy := grant_busy g in
              if busy : bool then ret Busy
              else
                let! record := get_grant g in
                do! match gt_release record with
                    | Some _ => ret tt
                    | None =>
                        do! endGrantLocked g Released in
                        let! record := get_grant g in
                        upd_grant g (set_gt_release (Some (gt_state record)))
                    end in
                do! touchLocked o in
                let! record := get_grant g in
                let! state := deref (λ _, gt_release record) in
                let! status := grantStatusLocked g in
                let! now := clock_now in
                let! owner := get_owner o in
                let! session := get_session (ow_session owner) in
                gets (λ a, Done (Ok {| rl_State := state; rl_Grant := status; rl_NowMillis := tick a now;
                                       rl_HistoryExpiresMillis := tick a (ss_expires session) |}))
          end
      end
  end.

(** A new action of an owner. *)
Definition record_action (o : nat) (receipt : ActionReceipt) (tombstone : bool) : A nat :=
  let! q := gets (λ a, fresh (dom (au_actionHeap a))) in
  do! modify (λ a, set_au_actionHeap
        (<[q := {| ac_owner := o; ac_receipt := receipt; ac_resource := None; ac_waitUntil := None;
                   ac_grant := None; ac_cancel := None; ac_tombstone := tombstone;
                   ac_processing := false; ac_failure := None |}]> (au_actionHeap a)) a) in
  do! upd_owner o (λ o, set_ow_actions (<[rp_Request receipt := q]> (ow_actions o)) o) in
  do! modify (λ a, set_au_actions (au_actions a + 1) a) in
  ret q.

(** A turn of [Cancel]; the answer is the kept result with the two times. *)
Definition Cancel (ctx_err : option error) (ref : OwnerRef) (request : RequestID)
  : A (turn (result (CancelResult * Z * Z))) :=
  let! err := healthyLocked ctx_err false in
  match err with
  | Some err => ret (Done (Err err))
  | None =>
      let! now := clock_now in
      do! expireSessionsLocked now in
      let! found := ownerLocked ref in
      match found with
      | Err err => ret (Done (Err err))
      | Ok o =>
          let! opts := options in
          if negb (requestValid request (op_MaxRequestBytes opts)) then ret (Done (fail Invalid))
          else
            let! owner := get_owner o in
            let! selected :=
              match ow_actions owner !! request with
              | Some q => ret (Ok q)
              | None =>
                  let! a := gets id in
                  if (op_ActionsPerOwner opts <=? Z.of_nat (size (ow_actions owner)))
                     || (op_MaxActions opts <=? au_actions a)
                  then ret (fail OutcomeUnknown)
                  else
                    let! q := record_action o
                      {| rp_Kind := AcquireAction; rp_Request := request; rp_Acquire := None;
                         rp_Renew := None; rp_Outcome := Cancelled; rp_Code := None; rp_Grant := None;
                         rp_DeadlineMillis := 0; rp_Revision := 0 |} true in
                    ret (Ok q)
              end in
            match selected with
            | Err err => ret (Done (Err err))
            | Ok q =>
                let! action := get_action q in
                if negb (bool_decide (rp_Kind (ac_receipt action) = AcquireAction))
                then ret (Done (fail RequestMismatch))
                else
                  let! busy := action_busy action in
                  if busy : bool then ret Busy
                  else
                    do! match ac_cancel action with
                        | Some _ => ret tt
                        | None =>
                            do! finishLocked q Cancelled None in
                            let! released :=
                              match ac_grant action with
                              | None => ret false
                              | Some g =>
                                  let! now := clock_now in
                                  let! grant := get_grant g in
                                  do! expireGrantsLocked (gt_resource grant) now in
                                  let! grant := get_grant g in
                                  if bool_decide (gt_state grant = Active)
                                  then do! endGrantLocked g Released in ret true
                                  else ret false
                              end in
                            let! action := get_action q in
                            upd_action q (set_ac_cancel
                              (Some {| cn_Outcome := rp_Outcome (ac_receipt action); cn_Released := released |}))
                        end in
                    do! touchLocked o in
                    let! action := get_action q in
                    let! kept := deref (λ _, ac_cancel action) in
                    let! now := clock_now in
                    let! owner := get_owner o in
                    let! session := get_session (ow_session owner) in
                    gets (λ a, Done (Ok (kept, tick a now, tick a (ss_expires session))))
            end
      end
  end.

(** ** actions.go: acquisition and renewal *)

(** How the first section of an action's call ends: with an answer, with a
    query of the recorded action, or with a new action to be worked on. *)
Inductive admission :=
| Answered (answer : action_answer)
| Recorded
| Admits (q : nat) (started : Z).

(** [a.finishLocked(action, Rejected, CodeOf(err))] and the result. *)
Definition reject_action (q : nat) (err : error) : A admission :=
  do! finishLocked q Rejected (Some (CodeOf err)) in
  let! result := actionResultLocked q in
  ret (Answered (Ok result)).

(** [action.processing = true] and [r.holds++] *)
Definition hold_resource (q r : nat) : A unit :=
  do! upd_action q (set_ac_processing true) in
  upd_resource r (λ r, set_rs_holds (rs_holds r + 1) r).

(** The last section of [Acquire], of [Renew] and of a worker's turn. *)
Definition finish_action (q r : nat) (err : option error) : A unit :=
  do! upd_action q (set_ac_processing false) in
  do! upd_resource r (λ r, set_rs_holds (rs_holds r - 1) r) in
  match err with
  | None => ret tt
  | Some err =>
      let! action := get_action q in
      if bool_decide (rp_Outcome (ac_receipt action) = Pending) then
        do! upd_action q (set_ac_failure (Some err)) in
        finishLocked q Rejected (Some (CodeOf err))
      else ret tt
  end.

Definition acquire_valid (opts : Options) (request : AcquireRequest) : bool :=
  requestValid (aq_Request request) (op_MaxRequestBytes opts)
  && (bool_decide (aq_Mode request = Shared) || bool_decide (aq_Mode request = Exclusive))
  && (millisecond <=? aq_TTL request) && (aq_TTL request <=? op_MaxLease opts)
  && (0 <=? aq_Wait request) && (aq_Wait request <=? op_MaxWait opts)
  && (Z.rem (aq_TTL request) millisecond =? 0) && (Z.rem (aq_Wait request) millisecond =? 0).

Definition acquire_admit (ctx_err : option error) (request : AcquireRequest) : A admission :=
  let! err := healthyLocked ctx_err true in
  match err with
  | Some err => ret (Answered (Err err))
  | None =>
      let! now := clock_now in
      do! expireSessionsLocked now in
      let! found := ownerLocked (aq_Owner request) in
      match found with
      | Err err => ret (Answered (Err err))
      | Ok o =>
          let! opts := options in
          if negb (acquire_valid opts request) then ret (Answered (fail Invalid))
          else
            let! owner := get_owner o in
            match ow_actions owner !! aq_Request request with
            | Some previous =>
                let! previous := get_action previous in
                if ac_tombstone previous then ret Recorded
                else if negb (bool_decide (rp_Kind (ac_receipt previous) = AcquireAction))
                        || negb (bool_decide (rp_Acquire (ac_receipt previous) = Some request))
                then ret (Answered (fail RequestMismatch))
                else ret Recorded
            | None =>
                let! a := gets id in
                if (op_ActionsPerOwner opts <=? Z.of_nat (size (ow_actions owner)))
                   || (op_MaxActions opts <=? au_actions a)
                then ret (Answered (fail Capacity))
                else
                  let! q := record_action o
                    {| rp_Kind := AcquireAction; rp_Request := aq_Request request;
                       rp_Acquire := Some request; rp_Renew := None; rp_Outcome := Pending;
                       rp_Code := None; rp_Grant := None; rp_DeadlineMillis := 0; rp_Revision := 0 |} false in
                  do! touchLocked o in
                  let! found := resourceLocked (aq_Resource request) in
                  match found with
                  | Err err => reject_action q err
                  | Ok r =>
                      do! upd_action q (set_ac_resource (Some r)) in
                      do! hold_resource q r in
                      let! started := clock_now in
                      ret (Admits q started)
                  end
            end
      end
  end.

(** What the callbacks of [Acquire], [Renew] and the worker check first: a
    pending action of a live owner of a healthy authority.  [Some] is what the
    callback returns. *)
Definition callback_check (ctx_err : option error) (q : nat) : A (option (option error)) :=
  let! action := get_action q in
  if negb (bool_decide (rp_Outcome (ac_receipt action) = Pending)) then ret (Some None)
  else
    let! err := healthyLocked ctx_err true in
    match err with
    | Some err => ret (Some (Some err))
    | None =>
        let! now := clock_now in
        do! expireSessionsLocked now in
        let! owner := get_owner (ac_owner action) in
        let! live := gets (λ a, bool_decide (au_owners a !! or_Owner (ow_ref owner) = Some (ac_owner action))) in
        ret (if live : bool then None else Some (Some (LockError Retired false None)))
    end.

Definition held_by (o g : nat) : A bool :=
  let! grant := get_grant g in
  ret (bool_decide (gt_owner grant = o)).

(** The callback [Acquire] gives to [native.Guard]. *)
Definition acquire_callback (ctx_err : option error) (request : AcquireRequest) (q r : nat) (started : Z)
  : A (option error) :=
  let! checked := callback_check ctx_err q in
  match checked with
  | Some answer => ret answer
  | None =>
      let! action := get_action q in
      let o := ac_owner action in
      let! resource := get_resource r in
      if rs_retired resource then ret (Some (LockError StaleResource false None))
      else
        let! now := clock_now in
        do! expireGrantsLocked r now in
        let! resource := get_resource r in
        let! held := exists_in (held_by o) (map_to_list (rs_grants resource)).*2 in
        if held : bool then ret (Some (LockError AlreadyHeld false None))
        else
          let! compatible := compatibleLocked r o (aq_Mode request) in
          if negb (rs_busy resource) && bool_decide (rs_queue resource = []) && compatible
          then grantLocked q
          else if aq_Wait request =? 0 then ret (Some (LockError Conflict false None))
          else
            let! a := gets id in
            let! opts := options in
            let! owner := get_owner o in
            if (op_MaxQueued opts <=? au_queued a) || (op_QueuedPerOwner opts <=? ow_queued owner)
               || (op_QueuedPerResource opts <=? zlen (rs_queue resource))
            then ret (Some (LockError Capacity false None))
            else
              let! now := clock_now in
              if negb (now <? started + aq_Wait request)
              then do! finishLocked q TimedOut None in ret None
              else
                do! upd_action q (set_ac_waitUntil (Some (started + aq_Wait request))) in
                do! upd_resource r (λ r, set_rs_queue (rs_queue r ++ [q]) r) in
                do! modify (λ a, set_au_queued (au_queued a + 1) a) in
                do! upd_owner o (λ o, set_ow_queued (ow_queued o + 1) o) in
                do! startWorkerLocked r in
                ret None
  end.

Definition renew_admit (ctx_err : option error) (request : RenewRequest) : A admission :=
  let! err := healthyLocked ctx_err true in
  match err with
  | Some err => ret (Answered (Err err))
  | None =>
      let! now := clock_now in
      do! expireSessionsLocked now in
      let! found := ownerLocked (rn_Owner request) in
      match found with
      | Err err => ret (Answered (Err err))
      | Ok o =>
          let! opts := options in
          if negb (requestValid (rn_Request request) (op_MaxRequestBytes opts))
             || (rn_TTL request <? millisecond) || (op_MaxLease opts <? rn_TTL request)
             || negb (Z.rem (rn_TTL request) millisecond =? 0)
          then ret (Answered (fail Invalid))
          else
            let! owner := get_owner o in
            match ow_actions owner !! rn_Request request with
            | Some previous =>
                let! previous := get_action previous in
                if negb (bool_decide (rp_Kind (ac_receipt previous) = RenewAction))
                   || negb (bool_decide (rp_Renew (ac_receipt previous) = Some request))
                then ret (Answered (fail RequestMismatch))
                else ret Recorded
            | None =>
                let! a := gets id in
                if (op_ActionsPerOwner opts <=? Z.of_nat (size (ow_actions owner)))
                   || (op_MaxActions opts <=? au_actions a)
                then ret (Answered (fail Capacity))
                else
                  let! q := record_action o
                    {| rp_Kind := RenewAction; rp_Request := rn_Request request; rp_Acquire := None;
                       rp_Renew := Some request; rp_Outcome := Pending; rp_Code := None;
                       rp_Grant := None; rp_DeadlineMillis := 0; rp_Revision := 0 |} false in
                  do! touchLocked o in
                  let! held := grantLockedForOwner o (rn_Grant request) in
                  match held with
                  | Err err => reject_action q err
                  | Ok g =>
                      let! grant := get_grant g in
                      if negb (bool_decide (gt_state grant = Active))
                      then reject_action q (LockError StaleGrant false None)
                      else
                        do! upd_action q (λ q, set_ac_resource (Some (gt_resource grant))
                                                 (set_ac_grant (Some g) q)) in
                        do! hold_resource q (gt_resource grant) in
                        ret (Admits q 0)
                  end
            end
      end
  end.

(** The callback [Renew] gives to [native.Guard], for the grant [g]. *)
Definition renew_callback (ctx_err : option error) (request : RenewRequest) (q g : nat)
  : A (option error) :=
  let! checked := callback_check ctx_err q in
  match checked with
  | Some answer => ret answer
  | None =>
      let! action := get_action q in
      let! grant := get_grant g in
      let! now := clock_now in
      do! expireGrantsLocked (gt_resource grant) now in
      let! grant := get_grant g in
      let! resource := get_resource (gt_resource grant) in
      let! stale := (if rs_retired resource || negb (bool_decide (gt_state grant = Active)) then ret true
                     else let! now := clock_now in ret (negb (now <? gt_deadline grant))) in
      if stale : bool then ret (Some (LockError StaleGrant false None))
      else if rs_busy resource then ret (Some (LockError Conflict false None))
      else
        let! now := clock_now in
        let deadline := Z.max (now + rn_TTL request) (gt_deadline grant) in
        let revision := u64 (gt_revision grant + 1) in
        do! upd_grant g (λ g, set_gt_revision revision (set_gt_deadline deadline g)) in
        let! millis := gets (λ a, tick a deadline) in
        do! upd_action q (λ q, set_ac_receipt (set_rp_Revision revision (set_rp_DeadlineMillis millis
                                 (set_rp_Grant (Some (gt_ref grant)) (ac_receipt q)))) q) in
        do! finishLocked q Renewed None in
        do! touchLocked (ac_owner action) in
        ret None
  end.

(** ** resources.go: the worker of a resource and the maintenance *)

Inductive worker_turn := WorkerStops | WorkerTries (q : nat) | WorkerWaits.

(** The first section of a turn of [runResource]. *)
Definition worker_pick (r : nat) : A worker_turn :=
  let! a := gets id in
  let! resource := get_resource r in
  if au_closed a || (if au_fenced a then true else false) || bool_decide (rs_queue resource = [])
  then ret WorkerStops
  else
    let! now := clock_now in
    do! expireGrantsLocked r now in
    do! expireQueuedLocked r now in
    let! resource := get_resource r in
    match rs_queue resource with
    | [] => ret WorkerStops
    | q :: _ =>
        let! current := get_action q in
        let! request := deref (λ _, rp_Acquire (ac_receipt current)) in
        if rs_busy resource then ret WorkerWaits
        else
          let! compatible := compatibleLocked r (ac_owner current) (aq_Mode request) in
          if compatible : bool then do! hold_resource q r in ret (WorkerTries q) else ret WorkerWaits
    end.

(** The callback the worker gives to [native.Guard]. *)
Definition worker_callback (ctx_err : option error) (q r : nat) : A (option error) :=
  let! checked := callback_check ctx_err q in
  match checked with
  | Some answer => ret answer
  | None =>
      let! current := get_action q in
      let! resource := get_resource r in
      if rs_retired resource then ret (Some (LockError StaleResource false None))
      else
        let! now := clock_now in
        do! expireGrantsLocked r now in
        if match ac_waitUntil current with Some until => now <? until | None => false end then
          let! resource := get_resource r in
          let! request := deref (λ _, rp_Acquire (ac_receipt current)) in
          let! compatible := compatibleLocked r (ac_owner current) (aq_Mode request) in
          if bool_decide (head (rs_queue resource) = Some q) && negb (rs_busy resource) && compatible
          then grantLocked q else ret None
        else do! finishLocked q TimedOut None in ret None
  end.

(** The end of [runResource]. *)
Definition worker_exit (r : nat) : A unit := upd_resource r (set_rs_worker false).

(** One resource of the sweep of [maintain]: whether it is to be forgotten. *)
Definition maintain_resource (now : Z) (r : nat) : A bool :=
  do! expireGrantsLocked r now in
  do! expireQueuedLocked r now in
  do! startWorkerLocked r in
  let! resource := get_resource r in
  if negb (rs_forgetting resource) && negb (now <? rs_referenceUntil resource)
     && bool_decide (rs_grants resource = ∅) && bool_decide (rs_queue resource = [])
     && negb (rs_busy resource) && negb (rs_worker resource) && (rs_holds resource =? 0)
  then do! upd_resource r (set_rs_forgetting true) in ret true
  else ret false.

Fixpoint sweep (now : Z) (l : list nat) : A (list nat) :=
  match l with
  | [] => ret []
  | r :: l =>
      let! forgotten := maintain_resource now r in
      let! rest := sweep now l in
      ret (if forgotten : bool then r :: rest else rest)
  end.

(** The first section of a turn of [maintain]: the resources to forget. *)
Definition maintain_sweep : A (list nat) :=
  let! closed := gets au_closed in
  if closed : bool then ret []
  else
    let! now := clock_now in
    do! expireSessionsLocked now in
    let! resources := gets au_resources in
    sweep now (map_to_list resources).*2.

(** The section after [native.Forget] has answered. *)
Definition forget_done (r : nat) (err : option error) : A unit :=
  match err with
  | Some err => modify (set_au_fenced (Some err))
  | None =>
      let! resource := get_resource r in
      modify (λ a, set_au_resources (delete (rs_id resource) (au_resources a))
                     (set_au_keys (delete (rs_key resource) (au_keys a)) a))
  end.

(** ** publication.go *)

Inductive MutationKind :=
| WriteMutation | SetAttrMutation | RemoveMutation | RenameMutation | CreateMutation
| OtherMutation (s : string).

Record Publication := { pu_Kind : MutationKind; pu_Targets : list BackendKey; pu_Scope : MutationScope }.

Record PublicationOutcome := {
  po_Known : bool; po_Retired : list BackendKey; po_Changed : bool; po_Err : option error }.

Definition Fence (err : option error) : A unit :=
  match err with
  | None => ret tt
  | Some err => modify (λ a, match au_fenced a with None => set_au_fenced (Some err) a | Some _ => a end)
  end.

(** [Authority.Check] *)
Definition Authority_Check (ctx_err : option error) : A (option error) := healthyLocked ctx_err false.

(** The loop of [ValidateScope]. *)
Fixpoint valid_proofs (seen : list GrantID) (grants : list GrantRef) : bool :=
  match grants with
  | [] => true
  | g :: grants =>
      negb (String.eqb (gf_ID g) EmptyString) && negb (String.eqb (gf_Resource g) EmptyString)
      && (len (gf_ID g) <=? 512) && (len (gf_Resource g) <=? 512) && negb (gf_Generation g =? 0)
      && negb (bool_decide (gf_ID g ∈ seen)) && valid_proofs (gf_ID g :: seen) grants
  end.

Definition ValidateScope (scope : MutationScope) (maxProofs : Z) : option error :=
  let no_session := String.eqb (or_Session (ms_Owner scope)) EmptyString in
  let no_owner := String.eqb (or_Owner (ms_Owner scope)) EmptyString in
  if (maxProofs <=? 0) || (maxProofs <? zlen (ms_Grants scope))
     || negb (Bool.eqb no_session no_owner) || (0 <? zlen (ms_Grants scope)) && no_owner
     || (512 <? len (or_Session (ms_Owner scope))) || (512 <? len (or_Owner (ms_Owner scope)))
     || negb (valid_proofs [] (ms_Grants scope))
  then Some (LockError Invalid false None) else None.

(** The resource of a target, when there is one, which must not be busy. *)
Definition publish_target (key : BackendKey) : A (result (list nat)) :=
  let! found := gets (λ a, au_keys a !! key) in
  match found with
  | None => ret (Ok [])
  | Some r =>
      let! resource := get_resource r in
      if rs_busy resource then ret (fail Unavailable)
      else
        let! now := clock_now in
        do! expireGrantsLocked r now in
        ret (Ok [r])
  end.

(** The loop over the targets: the resources among them, none of them busy,
    with the distinct keys seen so far. *)
Fixpoint publish_targets (keys : list BackendKey) (targets : list BackendKey)
  : A (result (list BackendKey * list nat)) :=
  match targets with
  | [] => ret (Ok (keys, []))
  | key :: targets =>
      if String.eqb key EmptyString then ret (fail Invalid)
      else if bool_decide (key ∈ keys) then publish_targets keys targets
      else
        let! taken := publish_target key in
        match taken with
        | Err err => ret (Err err)
        | Ok taken =>
            let! rest := publish_targets (key :: keys) targets in
            ret (match rest with
                 | Err err => Err err
                 | Ok (keys, resources) => Ok (keys, taken ++ resources)
                 end)
        end
  end.

(** Whether a grant no longer protects its resource. *)
Definition proof_stale (grant : grantRecord) (resource : resourceRecord) : A bool :=
  if negb (bool_decide (gt_state grant = Active)) || rs_retired resource then ret true
  else let! now := clock_now in ret (negb (now <? gt_deadline grant)).

(** The loop over the proofs: the grants they name by resource, live and on a
    target. *)
Fixpoint publish_proofs (owner : option nat) (keys : list BackendKey) (proofs : gmap ResourceID nat)
    (grants : list GrantRef) : A (result (gmap ResourceID nat)) :=
  match grants with
  | [] => ret (Ok proofs)
  | proof :: grants =>
      let! o := deref (λ _, owner) in
      let! held := grantLockedForOwner o proof in
      match held with
      | Err err => ret (Err err)
      | Ok g =>
          let! grant := get_grant g in
          let! resource := get_resource (gt_resource grant) in
          let! stale := proof_stale grant resource in
          if stale : bool then ret (fail StaleGrant)
          else if negb (bool_decide (rs_key resource ∈ keys)) then ret (fail UnrelatedProof)
          else publish_proofs owner keys (<[gf_Resource proof := g]> proofs) grants
      end
  end.

(** Whether a resource with grants lacks an exclusive one of the owner. *)
Definition unprotected (owner : option nat) (proofs : gmap ResourceID nat) (r : nat) : A bool :=
  let! resource := get_resource r in
  if bool_decide (rs_grants resource = ∅) then ret false
  else match proofs !! rs_id resource with
  | None => ret true
  | Some g =>
      let! grant := get_grant g in
      ret (negb (bool_decide (Some (gt_owner grant) = owner))
           || negb (bool_decide (gt_mode grant = Exclusive)))
  end.

Definition proof_expired (admission : Z) (g : nat) : A bool :=
  let! grant := get_grant g in
  ret (negb (admission <? gt_deadline grant)).

Definition set_busy (busy : bool) (r : nat) : A unit := upd_resource r (set_rs_busy busy).

Definition known_kind (kind : MutationKind) : bool :=
  match kind with OtherMutation _ => false | _ => true end.

(** The owner a scope names, if it names one. *)
Definition publish_owner (scope : MutationScope) : A (result (option nat)) :=
  if String.eqb (or_Owner (ms_Owner scope)) EmptyString then ret (Ok None)
  else
    let! found := ownerLocked (ms_Owner scope) in
    ret (match found with Err err => Err err | Ok o => Ok (Some o) end).

(** The admitted publication takes its resources. *)
Definition publish_own (owner : option nat) (resources : list nat) (keys : list BackendKey)
  : A (result (option nat * list nat * list BackendKey)) :=
  do! iter (set_busy true) resources in
  do! modify (λ a, set_au_publications (au_publications a + 1) a) in
  ret (Ok (owner, resources, keys)).

(** The checks of the proofs against the resources. *)
Definition publish_protect (owner : option nat) (resources : list nat) (keys : list BackendKey)
    (proofs : gmap ResourceID nat) : A (result (option nat * list nat * list BackendKey)) :=
  let! refused := exists_in (unprotected owner proofs) resources in
  if refused : bool then ret (fail Conflict)
  else
    let! admission := clock_now in
    let! expired := exists_in (proof_expired admission) (map_to_list proofs).*2 in
    if expired : bool then ret (fail StaleGrant) else publish_own owner resources keys.

(** [Publish] up to its transition: its owner, the resources it owns and its
    targets. *)
Definition publish_admit (ctx_err : option error) (p : Publication)
  : A (result (option nat * list nat * list BackendKey)) :=
  if 2 <? zlen (pu_Targets p) then ret (fail Invalid)
  else if negb (known_kind (pu_Kind p)) then ret (fail Invalid)
  else
    let! opts := options in
    match ValidateScope (pu_Scope p) (op_MaxProofs opts) with
    | Some err => ret (Err err)
    | None =>
        let! err := healthyLocked ctx_err true in
        match err with
        | Some err => ret (Err err)
        | None =>
            let! now := clock_now in
            do! expireSessionsLocked now in
            let! owner := publish_owner (pu_Scope p) in
            match owner with
            | Err err => ret (Err err)
            | Ok owner =>
                let! targets := publish_targets [] (pu_Targets p) in
                match targets with
                | Err err => ret (Err err)
                | Ok (keys, resources) =>
                    let! proofs := publish_proofs owner keys ∅ (ms_Grants (pu_Scope p)) in
                    match proofs with
                    | Err err => ret (Err err)
                    | Ok proofs => publish_protect owner resources keys proofs
                    end
                end
            end
        end
    end.

Definition end_gone (g : nat) : A unit := endGrantLocked g TargetGone.
Definition reject_stale (q : nat) : A unit := finishLocked q Rejected (Some StaleResource).

(** A retired target of a publication whose outcome is known. *)
Definition retire_target (key : BackendKey) : A unit :=
  let! found := gets (λ a, au_keys a !! key) in
  match found with
  | None => ret tt
  | Some r =>
      do! upd_resource r (set_rs_retired true) in
      let! now := clock_now in
      do! upd_resource r (set_rs_referenceUntil now) in
      let! resource := get_resource r in
      do! iter end_gone (map_to_list (rs_grants resource)).*2 in
      let! resource := get_resource r in
      iter reject_stale (rs_queue resource)
  end.

Definition completePublication (resources : list nat) (targets : list BackendKey)
    (outcome : PublicationOutcome) : A (option error) :=
  let undeclared := existsb (λ key, negb (bool_decide (key ∈ targets))) (po_Retired outcome) in
  let known := po_Known outcome && negb undeclared in
  let err := if undeclared
             then errors_Join [po_Err outcome; Some (LockError Unavailable false None)]
             else po_Err outcome in
  let! err :=
    (if known then do! iter retire_target (po_Retired outcome) in ret err
     else
       let err := default (LockError Unavailable false None) err in
       do! Fence (Some err) in
       ret (Some err)) in
  do! iter (set_busy false) resources in
  do! modify (λ a, set_au_publications (au_publications a - 1) a) in
  ret err.

(** ** Status and closing *)

Record Status := {
  su_Authority : string; su_NowMillis : Z; su_Recovering : bool; su_RecoveryRemainingMillis : Z;
  su_Sessions : Z; su_Owners : Z; su_Resources : Z; su_Actions : Z; su_Grants : Z; su_Queued : Z;
  su_Unavailable : bool }.

Definition Authority_Status (ctx_err : option error) : A (result Status) :=
  match ctx_err with
  | Some err => ret (Err err)
  | None =>
      let! now := clock_now in
      gets (λ a,
        let remaining := Z.max (ev_recoveryUntil (au_env a) - now) 0 in
        Ok {| su_Authority := is_incarnation (ev_issuer (au_env a)); su_NowMillis := tick a now;
              su_Recovering := 0 <? remaining; su_RecoveryRemainingMillis := Z.quot remaining millisecond;
              su_Sessions := Z.of_nat (size (au_sessions a)); su_Owners := Z.of_nat (size (au_owners a));
              su_Resources := Z.of_nat (size (au_resources a)); su_Actions := au_actions a;
              su_Grants := au_grants a; su_Queued := au_queued a;
              su_Unavailable := au_closed a || (if au_fenced a then true else false) |})
  end.

(** The first section of [Close]; [false] is a second call. *)
Definition close_begin : A bool :=
  let! closed := gets au_closed in
  if closed : bool then ret false else do! modify (set_au_closed true) in ret true.

(** The second one, once native calls, publications and workers have ended:
    the resources whose pins are released. *)
Definition close_drop : A (list nat) :=
  let! a := gets id in
  do! modify (λ a, set_au_keys ∅ (set_au_resources ∅ a)) in
  ret (filter (λ r, rs_forgetting <$> au_resourceHeap a !! r ≠ Some true) (map_to_list (au_resources a)).*2).

(** The last one, with the answers of [native.Forget]. *)
Definition close_end (errs : list (option error)) : A (option error) :=
  let err := foldl (λ err e, errors_Join [err; e]) None errs in
  do! modify (λ a, set_au_closeErr (errors_Join [au_fenced a; err]) a) in
  gets au_closeErr.
