(* ===== verification/LockInv.v ===== *)
(** * The lease authority: invariant

    What holds of an authority between critical sections, and the frame of the
    sections that neither grant, renew nor publish: they may end grants, but
    they create none, and they leave busy resources and deadlines alone. *)

From S2P Require Import Prelude Errors Identity LockTokens LockState LockAuthority.

(** ** The environment *)

(** What is relied on of the environment: a monotonic clock, and nonces, an
    incarnation and codes of the sizes that the code asks for. *)
Record env_ok (e : environment) : Prop := {
  eo_clock : ∀ i j : nat, (i <= j)%nat → ev_clock e i <= ev_clock e j;
  eo_nonce : ∀ n, bytes (ev_nonce e n) ∧ zlen (ev_nonce e n) = 16;
  eo_incarnation : no_dots (is_incarnation (ev_issuer e)) ∧ len (is_incarnation (ev_issuer e)) <= 22;
  eo_mac : ∀ s, bytes (is_mac (ev_issuer e) s) ∧ zlen (is_mac (ev_issuer e) s) = 32 }.

(** The random nonces drawn so far are distinct. *)
Definition drawn (a : Authority) : Prop :=
  ∀ i j : nat, (i < au_nonces a)%nat → (j < au_nonces a)%nat →
    ev_nonce (au_env a) i = ev_nonce (au_env a) j → i = j.

Definition grown (a a' : Authority) : Prop := au_env a' = au_env a ∧ (au_nonces a <= au_nonces a')%nat.

#[global] Instance grown_refl : Reflexive grown.
Proof. done. Qed.
#[global] Instance grown_trans : Transitive grown.
Proof. intros a b c [E1 N1] [E2 N2]. split; [congruence|lia]. Qed.

Lemma grown_drawn a a' : grown a a' → drawn a' → drawn a.
Proof. intros [E N] Hd i j Hi Hj Hij. apply Hd; [lia|lia|by rewrite E]. Qed.

(** The token made of the [n]-th nonce. *)
Definition nth_token (e : environment) (n : nat) (kind parent : string) : string :=
  token (ev_issuer e) (ev_nonce e n) kind parent EmptyString.

Lemma nth_token_inj e i j kind parent parent' :
  env_ok e → no_dots kind ∧ len kind <= 1 →
  nth_token e i kind parent = nth_token e j kind parent' → ev_nonce e i = ev_nonce e j.
Proof.
  intros [_ Hn Hi Hm] Hk E. unfold nth_token in E.
  assert (Hp : ∀ n, token_parts (ev_issuer e) (ev_nonce e n) kind EmptyString) by (by split; [apply Hn|..]).
  pose proof (token_split _ _ _ parent _ (Hp i)) as H1. pose proof (token_split _ _ _ parent' _ (Hp j)) as H2.
  cbv zeta in H1, H2. rewrite E, H2 in H1. injection H1 as H1 _.
  assert (Some (ev_nonce e i) = Some (ev_nonce e j)) as [= ->]; [|done].
  rewrite <- !base64_roundtrip by apply Hn. by rewrite H1.
Qed.

(** ** Frame *)

Definition resource_frame (o o' : option resourceRecord) : Prop :=
  match o, o' with
  | Some r, Some r' =>
      rs_id r' = rs_id r ∧ rs_key r' = rs_key r ∧ rs_busy r' = rs_busy r
      ∧ rs_grants r' ⊆ rs_grants r ∧ rs_queue r' ⊆ rs_queue r
  | None, Some r' => rs_busy r' = false ∧ rs_grants r' = ∅ ∧ rs_queue r' = []
  | None, None => True
  | Some _, None => False
  end.

Definition grant_frame (o o' : option grantRecord) : Prop :=
  match o, o' with
  | Some g, Some g' =>
      gt_owner g' = gt_owner g ∧ gt_resource g' = gt_resource g ∧ gt_ref g' = gt_ref g
      ∧ gt_mode g' = gt_mode g ∧ gt_deadline g' = gt_deadline g
      ∧ (gt_state g' = Active → gt_state g = Active)
  | None, None => True
  | _, _ => False
  end.

Definition action_frame (o o' : option actionRecord) : Prop :=
  match o, o' with
  | Some q, Some q' =>
      ac_owner q' = ac_owner q ∧ rp_Acquire (ac_receipt q') = rp_Acquire (ac_receipt q)
      ∧ ac_resource q' = ac_resource q
  | Some _, None => False
  | None, _ => True
  end.

Record frame (a a' : Authority) : Prop := {
  fr_env : au_env a' = au_env a;
  fr_reads : (au_reads a <= au_reads a')%nat;
  fr_nonces : (au_nonces a <= au_nonces a')%nat;
  fr_watermark : au_watermark a' = au_watermark a;
  fr_resources : ∀ r, resource_frame (au_resourceHeap a !! r) (au_resourceHeap a' !! r);
  fr_grants : ∀ g, grant_frame (au_grantHeap a !! g) (au_grantHeap a' !! g);
  fr_actions : ∀ q, action_frame (au_actionHeap a !! q) (au_actionHeap a' !! q) }.

Lemma resource_frame_refl o : resource_frame o o.
Proof. destruct o; cbn; done. Qed.
Lemma grant_frame_refl o : grant_frame o o.
Proof. destruct o; cbn; done. Qed.
Lemma action_frame_refl o : action_frame o o.
Proof. destruct o; cbn; done. Qed.

#[global] Instance frame_refl : Reflexive frame.
Proof. intros a. split; try done; intros k; [apply resource_frame_refl|apply grant_frame_refl|apply action_frame_refl]. Qed.

#[global] Instance frame_trans : Transitive frame.
Proof.
  intros a b c [E1 R1 N1 W1 H1 G1 A1] [E2 R2 N2 W2 H2 G2 A2].
  split; [congruence|lia|lia|congruence|..]; intros k.
  - specialize (H1 k). specialize (H2 k). unfold resource_frame in *.
    destruct (au_resourceHeap a !! k), (au_resourceHeap b !! k), (au_resourceHeap c !! k);
      try done; [destruct H1 as (?&?&?&?&?), H2 as (?&?&?&?&?); split_and!; (congruence || (etrans; done))|].
    destruct H1 as (?&Hg&Hq), H2 as (?&?&?&Hg'&Hq'). rewrite Hg in Hg'. rewrite Hq in Hq'.
    split_and!; [congruence| |]; [apply map_eq; intros i; apply eq_None_not_Some; intros [x Hx];
      by eapply lookup_weaken in Hx; [rewrite lookup_empty in Hx|]|by apply list_nil_subseteq].
  - specialize (G1 k). specialize (G2 k). unfold grant_frame in *.
    destruct (au_grantHeap a !! k), (au_grantHeap b !! k), (au_grantHeap c !! k); try done.
    naive_solver congruence.
  - specialize (A1 k). specialize (A2 k). unfold action_frame in *.
    destruct (au_actionHeap a !! k), (au_actionHeap b !! k), (au_actionHeap c !! k); try done.
    naive_solver congruence.
Qed.

(** ** Invariant *)

(** The last reading of the clock. *)
Definition latest (a : Authority) : Z := ev_clock (au_env a) (pred (au_reads a)).

(** Two grants that may be held together. *)
Definition compatible (g1 g2 : grantRecord) : Prop :=
  gt_mode g1 ≠ Exclusive ∧ gt_mode g2 ≠ Exclusive ∧ gt_owner g1 ≠ gt_owner g2.

Record lease_inv (a : Authority) : Prop := {
  li_env : env_ok (au_env a);
  li_grant_ids : ∀ g gr, au_grantHeap a !! g = Some gr →
    ∃ n parent, (n < au_nonces a)%nat ∧ gf_ID (gt_ref gr) = nth_token (au_env a) n "g" parent;
  li_resource_ids : ∀ r res, au_resourceHeap a !! r = Some res →
    ∃ n, (n < au_nonces a)%nat ∧ rs_id res = nth_token (au_env a) n "r" EmptyString;
  li_resource_inj : ∀ r r' res res', au_resourceHeap a !! r = Some res →
    au_resourceHeap a !! r' = Some res' → rs_id res = rs_id res' → r = r';
  li_grant_resource : ∀ g gr, au_grantHeap a !! g = Some gr →
    ∃ res, au_resourceHeap a !! gt_resource gr = Some res ∧ gf_Resource (gt_ref gr) = rs_id res;
  li_listed : ∀ g gr, au_grantHeap a !! g = Some gr → gt_state gr = Active →
    ∃ res, au_resourceHeap a !! gt_resource gr = Some res ∧ rs_grants res !! gf_ID (gt_ref gr) = Some g;
  li_entries : ∀ r res id g, au_resourceHeap a !! r = Some res → rs_grants res !! id = Some g →
    ∃ gr, au_grantHeap a !! g = Some gr ∧ gt_resource gr = r ∧ gf_ID (gt_ref gr) = id
          ∧ gt_state gr = Active;
  li_exclusion : ∀ r res id1 id2 g1 g2 gr1 gr2, au_resourceHeap a !! r = Some res →
    rs_grants res !! id1 = Some g1 → rs_grants res !! id2 = Some g2 → g1 ≠ g2 →
    au_grantHeap a !! g1 = Some gr1 → au_grantHeap a !! g2 = Some gr2 → compatible gr1 gr2;
  li_queue : ∀ r res q, au_resourceHeap a !! r = Some res → q ∈ rs_queue res →
    ∃ act, au_actionHeap a !! q = Some act ∧ ac_resource act = Some r;
  li_deadline : ∀ g gr, au_grantHeap a !! g = Some gr → gt_state gr = Active →
    gt_deadline gr <= latest a + au_watermark a;
  li_reads : (1 <= au_reads a)%nat }.

Definition grows {X} (m : A X) : Prop := ∀ a x a', m a = Some (x, a') → grown a a'.

(** A computation that keeps the invariant within the frame, as long as nonces
    do not repeat. *)
Definition keeps {X} (m : A X) : Prop :=
  ∀ a x a', m a = Some (x, a') → grown a a' ∧ (lease_inv a → drawn a' → lease_inv a' ∧ frame a a').

Lemma keeps_grows {X} (m : A X) : keeps m → grows m.
Proof. intros Hm a x a' E. by apply (Hm a x a'). Qed.

Lemma keeps_inv {X} (m : A X) a x a' :
  keeps m → lease_inv a → drawn a' → m a = Some (x, a') → lease_inv a' ∧ frame a a'.
Proof. intros Hm HI Hd E. by apply (Hm a x a' E). Qed.

Lemma latest_mono e i j :
  env_ok e → (i <= j)%nat → ev_clock e (pred i) <= ev_clock e (pred j).
Proof. intros He Hij. apply (eo_clock e He). lia. Qed.

(** What the frame leaves to be shown: identities of new resources, and that
    active grants are exactly the listed ones. *)
Lemma frame_inv a a' :
  lease_inv a → drawn a' → frame a a' →
  (∀ r res', au_resourceHeap a !! r = None → au_resourceHeap a' !! r = Some res' →
     ∃ n, (au_nonces a <= n < au_nonces a')%nat ∧ rs_id res' = nth_token (au_env a) n "r" EmptyString
          ∧ ∀ r2, au_resourceHeap a !! r2 = None → is_Some (au_resourceHeap a' !! r2) → r2 = r) →
  (∀ g gr', au_grantHeap a' !! g = Some gr' → gt_state gr' = Active →
     ∃ res', au_resourceHeap a' !! gt_resource gr' = Some res' ∧ rs_grants res' !! gf_ID (gt_ref gr') = Some g) →
  (∀ r res' id g gr', au_resourceHeap a' !! r = Some res' → rs_grants res' !! id = Some g →
     au_grantHeap a' !! g = Some gr' → gt_state gr' = Active) →
  lease_inv a'.
Proof.
  intros HI Hdr [E R N W FR FG FA] Hnew Hlist Hact.
  assert (HG : ∀ g gr', au_grantHeap a' !! g = Some gr' → ∃ gr, au_grantHeap a !! g = Some gr
            ∧ gt_owner gr' = gt_owner gr ∧ gt_resource gr' = gt_resource gr ∧ gt_ref gr' = gt_ref gr
            ∧ gt_mode gr' = gt_mode gr ∧ gt_deadline gr' = gt_deadline gr
            ∧ (gt_state gr' = Active → gt_state gr = Active)).
  { intros g gr' Hg. specialize (FG g). rewrite Hg in FG. destruct (au_grantHeap a !! g); [|done]. eauto. }
  assert (HR : ∀ r res', au_resourceHeap a' !! r = Some res' →
            (∃ res, au_resourceHeap a !! r = Some res ∧ rs_id res' = rs_id res
              ∧ rs_grants res' ⊆ rs_grants res ∧ rs_queue res' ⊆ rs_queue res)
            ∨ au_resourceHeap a !! r = None ∧ rs_grants res' = ∅ ∧ rs_queue res' = []).
  { intros r res' Hr. specialize (FR r). rewrite Hr in FR. destruct (au_resourceHeap a !! r); cbn in FR; naive_solver. }
  assert (HE : ∀ r res' id g, au_resourceHeap a' !! r = Some res' → rs_grants res' !! id = Some g →
            ∃ res, au_resourceHeap a !! r = Some res ∧ rs_grants res !! id = Some g).
  { intros r res' id g Hr Hid. destruct (HR r res' Hr) as [(res & H1 & _ & H2 & _)|(_ & H2 & _)].
    - exists res. split; [done|]. by eapply lookup_weaken.
    - by rewrite H2, lookup_empty in Hid. }
  destruct HI as [Ie Igi Iri Irj Igr Il Ien Iex Iq Id Ird]. split; rewrite ?E, ?W.
  - done.
  - intros g gr' (gr & Hg & _ & _ & -> & _)%HG. destruct (Igi g gr Hg) as (n & p & Hn & ->). exists n, p. split; [lia|done].
  - intros r res' Hr. destruct (HR r res' Hr) as [(res & H1 & -> & _)|[H1 _]].
    + destruct (Iri r res H1) as (n & Hn & ->). exists n. split; [lia|done].
    + destruct (Hnew r res' H1 Hr) as (n & Hn & -> & _). exists n. split; [lia|done].
  - intros r r2 res' res2' Hr Hr2 Heq.
    destruct (HR r res' Hr) as [(res & H1 & Hi & _)|[H1 _]], (HR r2 res2' Hr2) as [(res2 & H2 & Hi2 & _)|[H2 _]].
    + exact (Irj r r2 res res2 H1 H2 ltac:(congruence)).
    + destruct (Hnew _ _ H2 Hr2) as (n & Hn & Hid & _). destruct (Iri _ _ H1) as (m & Hm & Hid').
      assert (m = n); [|lia]. apply Hdr; [lia|lia|]. rewrite E.
      apply (nth_token_inj (au_env a) m n "r" EmptyString EmptyString); [done|done|congruence].
    + destruct (Hnew _ _ H1 Hr) as (n & Hn & Hid & _). destruct (Iri _ _ H2) as (m & Hm & Hid').
      assert (m = n); [|lia]. apply Hdr; [lia|lia|]. rewrite E.
      apply (nth_token_inj (au_env a) m n "r" EmptyString EmptyString); [done|done|congruence].
    + destruct (Hnew _ _ H1 Hr) as (_ & _ & _ & Hu). symmetry. by apply Hu.
  - intros g gr' (gr & Hg & _ & -> & -> & _)%HG. destruct (Igr g gr Hg) as (res & H1 & H2).
    pose proof (FR (gt_resource gr)) as F. rewrite H1 in F. destruct (au_resourceHeap a' !! gt_resource gr); [|done].
    eexists. split; [done|]. rewrite H2. symmetry. apply F.
  - done.
  - intros r res' id g Hr Hid. destruct (HE r res' id g Hr Hid) as (res & H1 & H2).
    destruct (Ien r res id g H1 H2) as (gr & Hg & H3 & H4 & _). pose proof (FG g) as F. rewrite Hg in F.
    destruct (au_grantHeap a' !! g) as [gr'|] eqn:Eg; [|done]. destruct F as (_ & F1 & F2 & _).
    exists gr'. split_and!; [done|congruence|congruence|by eapply Hact].
  - intros r res' id1 id2 g1 g2 gr1' gr2' Hr Hid1 Hid2 Hne (gr1 & Hg1 & O1 & _ & _ & M1 & _)%HG (gr2 & Hg2 & O2 & _ & _ & M2 & _)%HG.
    destruct (HE r res' id1 g1 Hr Hid1) as (res & H1 & H2). destruct (HE r res' id2 g2 Hr Hid2) as (res2 & H3 & H4).
    simplify_eq. unfold compatible. rewrite O1, O2, M1, M2. eapply (Iex r); [done|exact H2|exact H4|done..].
  - intros r res' q Hr Hq. destruct (HR r res' Hr) as [(res & H1 & _ & _ & H2)|(_ & _ & H2)].
    + destruct (Iq r res q H1 (H2 _ Hq)) as (act & H3 & H4). pose proof (FA q) as F. rewrite H3 in F.
      destruct (au_actionHeap a' !! q) as [act'|]; [|done]. exists act'. split; [done|].
      destruct F as (_ & _ & ->). done.
    + rewrite H2 in Hq. by apply not_elem_of_nil in Hq.
  - intros g gr' (gr & Hg & _ & _ & _ & _ & -> & Hs)%HG Ha. pose proof (Id g gr Hg (Hs Ha)) as Hd.
    unfold latest in *. rewrite E. pose proof (latest_mono (au_env a) (au_reads a) (au_reads a') Ie R). lia.
  - lia.
Qed.

(** ** Composition *)

Section keeps.
Lemma keeps_ret {X} (x : X) : keeps (ret x).
Proof. by intros a y a' [= _ <-]. Qed.

Lemma keeps_gets {X} (f : Authority → X) : keeps (gets f).
Proof. by intros a y a' [= _ <-]. Qed.

Lemma keeps_deref {X} (f : Authority → option X) : keeps (deref f).
Proof. intros a y a'. unfold deref. destruct (f a); [|done]. by intros [= _ <-]. Qed.

Lemma keeps_bind {X Y} (m : A X) (k : X → A Y) : keeps m → (∀ x, keeps (k x)) → keeps (bind m k).
Proof.
  intros Hm Hk a y a'. unfold bind. destruct (m a) as [[x a1]|] eqn:E; [|done]. intros Ek.
  destruct (Hm _ _ _ E) as [G1 C1]. destruct (Hk x _ _ _ Ek) as [G2 C2]. split; [by etrans|]. intros HI Hd.
  destruct (C1 HI (grown_drawn _ _ G2 Hd)) as [H1 F1]. destruct (C2 H1 Hd) as [H2 F2]. split; [done|by etrans].
Qed.

Lemma keeps_iter {X} (f : X → A unit) l : (∀ x, keeps (f x)) → keeps (iter f l).
Proof. intros Hf. induction l as [|x l IH]; cbn [iter]; [apply keeps_ret|]. apply keeps_bind; [apply Hf|done]. Qed.

Lemma keeps_exists_in {X} (f : X → A bool) l : (∀ x, keeps (f x)) → keeps (exists_in f l).
Proof.
  intros Hf. induction l as [|x l IH]; cbn [exists_in]; [apply keeps_ret|].
  apply keeps_bind; [apply Hf|]. intros []; [apply keeps_ret|done].
Qed.

(** What the frame and the invariant talk about. *)
Record same_core (a a' : Authority) : Prop := {
  sc_env : au_env a' = au_env a;
  sc_reads : (au_reads a <= au_reads a')%nat;
  sc_nonces : (au_nonces a <= au_nonces a')%nat;
  sc_watermark : au_watermark a' = au_watermark a;
  sc_resources : au_resourceHeap a' = au_resourceHeap a;
  sc_grants : au_grantHeap a' = au_grantHeap a;
  sc_actions : au_actionHeap a' = au_actionHeap a }.

Lemma same_core_keeps a a' : lease_inv a → drawn a' → same_core a a' → lease_inv a' ∧ frame a a'.
Proof.
  intros HI Hd [E R N W HR HG HA]. assert (F : frame a a').
  { split; try done; intros k; rewrite ?HR, ?HG, ?HA;
      [apply resource_frame_refl|apply grant_frame_refl|apply action_frame_refl]. }
  split; [|done]. apply (frame_inv a); [done|done|done|rewrite HR, ?HG..].
  - intros r res' H1 H2. congruence.
  - apply (li_listed a HI).
  - intros r res id g gr Hr Hid Hg. destruct (li_entries a HI r res id g Hr Hid) as (gr2 & H1 & _ & _ & H2).
    congruence.
Qed.

Lemma keeps_modify f : (∀ a, same_core a (f a)) → keeps (modify f).
Proof. intros Hf a x a' [= _ <-]. split; [by destruct (Hf a)|]. intros. by apply same_core_keeps. Qed.

Lemma keeps_clock_now : keeps clock_now.
Proof.
  intros a x a' [= _ <-]. split; [split; cbn; [done|lia]|]. intros. apply same_core_keeps; [done|done|].
  split; cbn; try done; lia.
Qed.

Lemma keeps_new_token kind parent extra : keeps (new_token kind parent extra).
Proof.
  intros a x a' [= _ <-]. split; [split; cbn; [done|lia]|]. intros. apply same_core_keeps; [done|done|].
  split; cbn; try done; lia.
Qed.

(** Changes of a resource that leave its grants alone. *)
Lemma keeps_upd_resource r f :
  (∀ x, rs_id (f x) = rs_id x ∧ rs_key (f x) = rs_key x ∧ rs_busy (f x) = rs_busy x
        ∧ rs_grants (f x) = rs_grants x ∧ rs_queue (f x) ⊆ rs_queue x) →
  keeps (upd_resource r f).
Proof.
  intros Hf a x a' [= _ <-]. split; [done|]. intros HI Hd.
  assert (HL : ∀ k, au_resourceHeap (set_au_resourceHeap (alter f r (au_resourceHeap a)) a) !! k
                    = (if decide (k = r) then f else id) <$> au_resourceHeap a !! k).
  { intros k. cbn. destruct (decide (k = r)) as [->|Hne]; [apply lookup_alter_eq|].
    rewrite lookup_alter_ne by done. by destruct (au_resourceHeap a !! k). }
  assert (Hrel : ∀ k res, (if decide (k = r) then f else id) res = f res ∨ (if decide (k = r) then f else id) res = res).
  { intros k res. destruct (decide (k = r)); [by left|by right]. }
  assert (F : frame a (set_au_resourceHeap (alter f r (au_resourceHeap a)) a)).
  { split; try done; intros k; [|apply grant_frame_refl|apply action_frame_refl]. rewrite HL.
    destruct (au_resourceHeap a !! k) as [res|]; [|done]. cbn. destruct (Hrel k res) as [->| ->]; [|done].
    destruct (Hf res) as (-> & -> & -> & -> & H). done. }
  split; [|done]. apply (frame_inv a); [done|done|done|..].
  - intros k res' H1. rewrite HL, H1. done.
  - intros g gr Hg Ha. destruct (li_listed a HI g gr Hg Ha) as (res & H1 & H2). rewrite HL, H1. cbn.
    eexists. split; [done|]. destruct (Hrel (gt_resource gr) res) as [->| ->]; [|done].
    by destruct (Hf res) as (_ & _ & _ & -> & _).
  - intros k res' id0 g gr Hk Hid Hg. rewrite HL in Hk. destruct (au_resourceHeap a !! k) as [res|] eqn:Er; [|done].
    injection Hk as <-. assert (Hid' : rs_grants res !! id0 = Some g).
    { destruct (Hrel k res) as [E|E]; rewrite E in Hid; [|done]. by destruct (Hf res) as (_ & _ & _ & <- & _). }
    destruct (li_entries a HI k res id0 g Er Hid') as (gr2 & H1 & _ & _ & H2). cbn in Hg. congruence.
Qed.

(** A change of actions that keeps the owner, the acquisition and the
    resource of every old one. *)
Lemma actions_keeps a heap :
  lease_inv a → drawn a → (∀ q, action_frame (au_actionHeap a !! q) (heap !! q)) →
  lease_inv (set_au_actionHeap heap a) ∧ frame a (set_au_actionHeap heap a).
Proof.
  intros HI Hd HA. assert (F : frame a (set_au_actionHeap heap a)).
  { split; try done; intros k; [apply resource_frame_refl|apply grant_frame_refl]. }
  split; [|done]. apply (frame_inv a); [done|done|done|..].
  - intros r res H1 H2. cbn in H2. congruence.
  - apply (li_listed a HI).
  - intros r res id0 g gr Hr Hid Hg. destruct (li_entries a HI r res id0 g Hr Hid) as (gr2 & H1 & _ & _ & H2).
    cbn in Hg. congruence.
Qed.

Lemma keeps_upd_action q f :
  (∀ x, ac_owner (f x) = ac_owner x ∧ rp_Acquire (ac_receipt (f x)) = rp_Acquire (ac_receipt x)
        ∧ ac_resource (f x) = ac_resource x) →
  keeps (upd_action q f).
Proof.
  intros Hf a x a' [= _ <-]. split; [done|]. intros HI Hd. apply actions_keeps; [done|done|]. intros k. destruct (decide (k = q)) as [->|].
  - rewrite lookup_alter_eq. destruct (au_actionHeap a !! q) as [act|]; [|done]. apply Hf.
  - rewrite lookup_alter_ne by done. apply action_frame_refl.
Qed.

(** The release a grant remembers. *)
Lemma keeps_set_release g v : keeps (upd_grant g (set_gt_release v)).
Proof.
  intros a x a' [= _ <-]. split; [done|]. intros HI Hd.
  assert (HL : ∀ k gr, alter (set_gt_release v) g (au_grantHeap a) !! k = Some gr →
            ∃ gr0, au_grantHeap a !! k = Some gr0 ∧ gt_resource gr = gt_resource gr0 ∧ gt_ref gr = gt_ref gr0
                   ∧ gt_state gr = gt_state gr0).
  { intros k gr. destruct (decide (k = g)) as [->|].
    - rewrite lookup_alter_eq. destruct (au_grantHeap a !! g); cbn; [|done]. intros [= <-]. eauto.
    - rewrite lookup_alter_ne by done. eauto. }
  assert (F : frame a (set_au_grantHeap (alter (set_gt_release v) g (au_grantHeap a)) a)).
  { split; try done; intros k; [apply resource_frame_refl| |apply action_frame_refl]. cbn.
    destruct (decide (k = g)) as [->|]; [|rewrite lookup_alter_ne by done; apply grant_frame_refl].
    rewrite lookup_alter_eq. by destruct (au_grantHeap a !! g). }
  split; [|done]. apply (frame_inv a); [done|done|done|..]; cbn.
  - intros r res H1 H2. congruence.
  - intros k gr (gr0 & H1 & -> & -> & ->)%HL. by apply (li_listed a HI).
  - intros r res id0 k gr Hr Hid (gr0 & H1 & _ & _ & ->)%HL.
    destruct (li_entries a HI r res id0 k Hr Hid) as (gr2 & H2 & _ & _ & H3). congruence.
Qed.

(** Ending a grant takes it off its resource. *)
Lemma keeps_endGrantLocked g state : state ≠ Active → keeps (endGrantLocked g state).
Proof.
  intros Hst a x a'. unfold endGrantLocked, get_grant, deref, bind.
  destruct (au_grantHeap a !! g) as [gr|] eqn:Eg; [|done].
  case_bool_decide as Ha; cbn [negb]; [|by intros [= _ <-]]. intros [= _ <-]. split; [done|]. intros HI Hd.
  destruct (li_listed a HI g gr Eg Ha) as (res & Hr & Hid).
  set (r := gt_resource gr) in *. set (id := gf_ID (gt_ref gr)) in *.
  set (f := λ r, set_rs_grants (delete id (rs_grants r)) r).
  assert (HR : ∀ k, alter f r (au_resourceHeap a) !! k
                    = if decide (k = r) then Some (f res) else au_resourceHeap a !! k).
  { intros k. destruct (decide (k = r)) as [->|]; [by rewrite lookup_alter_eq, Hr|by apply lookup_alter_ne]. }
  assert (HG : ∀ k, alter (set_gt_state state) g (au_grantHeap a) !! k
                    = if decide (k = g) then Some (set_gt_state state gr) else au_grantHeap a !! k).
  { intros k. destruct (decide (k = g)) as [->|]; [by rewrite lookup_alter_eq, Eg|by apply lookup_alter_ne]. }
  match goal with |- lease_inv ?b ∧ _ => set (a' := b) in * end.
  assert (F : frame a a').
  { split; try done; intros k; [|..|apply action_frame_refl]; subst a'; cbn.
    - rewrite HR. destruct (decide (k = r)) as [->|]; [|apply resource_frame_refl]. rewrite Hr. cbn.
      split_and!; try done. apply delete_subseteq.
    - rewrite HG. destruct (decide (k = g)) as [->|]; [|apply grant_frame_refl]. rewrite Eg. cbn. done. }
  split; [|done]. apply (frame_inv a); [done|done|done|..]; subst a'; cbn.
  - intros k res' H1. rewrite HR. destruct (decide (k = r)) as [->|]; [congruence|]. congruence.
  - intros k gr'. rewrite HG. destruct (decide (k = g)) as [->|Hne]; [intros [= <-]; cbn; done|].
    intros Hk Hka. destruct (li_listed a HI k gr' Hk Hka) as (res' & H1 & H2). rewrite HR.
    destruct (decide (gt_resource gr' = r)) as [E|]; [|eauto]. rewrite E, Hr in H1. injection H1 as <-.
    eexists. split; [done|]. cbn. rewrite lookup_delete_ne; [done|]. intros E'. rewrite <- E', Hid in H2. congruence.
  - intros k res' id0 g0 gr0. rewrite HR, HG. intros Hk Hi.
    assert (Hi0 : ∃ res0, au_resourceHeap a !! k = Some res0 ∧ rs_grants res0 !! id0 = Some g0
                          ∧ (k = r → id0 ≠ id)).
    { destruct (decide (k = r)) as [->|]; [|by exists res']. injection Hk as <-. cbn in Hi.
      apply lookup_delete_Some in Hi as [H1 H2]. exists res. split_and!; [done|done|congruence]. }
    clear Hk Hi.
    destruct Hi0 as (res0 & H1 & H2 & H3). destruct (li_entries a HI k res0 id0 g0 H1 H2) as (gr2 & H4 & H5 & H6 & H7).
    destruct (decide (g0 = g)) as [->|]; [|congruence]. rewrite Eg in H4. injection H4 as <-.
    by destruct (H3 (eq_sym H5)).
Qed.

(** A new resource has a new identity and no grants. *)
Lemma keeps_adopt_resource key : keeps (adopt_resource key).
Proof.
  intros a x a' [= _ <-]. split; [split; cbn; [done|lia]|]. intros HI Hd. set (r := fresh (dom (au_resourceHeap a))) in *.
  assert (Hr : au_resourceHeap a !! r = None) by apply not_elem_of_dom, is_fresh.
  match goal with |- context [<[r := ?v]> (au_resourceHeap a)] => set (res := v) in * end.
  match goal with |- lease_inv ?b ∧ _ => set (a' := b) in * end.
  assert (F : frame a a').
  { split; subst a'; cbn; try done; try lia; intros k; [|apply grant_frame_refl|apply action_frame_refl].
    destruct (decide (k = r)) as [->|]; [by rewrite lookup_insert_eq, Hr|].
    rewrite lookup_insert_ne by done. apply resource_frame_refl. }
  split; [|done]. apply (frame_inv a); [done|done|done|..]; subst a'; cbn.
  - intros k res' H1 [[<- <-]|[_ H2]]%lookup_insert_Some; [|congruence].
    exists (au_nonces a). split; [lia|]. split; [done|].
    intros r2 H2 [v [[<- _]|[_ H3]]%lookup_insert_Some]; [done|congruence].
  - intros g gr Hg Ha. destruct (li_listed a HI g gr Hg Ha) as (res0 & H1 & H2). exists res0.
    split; [|done]. rewrite lookup_insert_ne; [done|congruence].
  - intros k res' id0 g gr [[<- <-]|[_ Hk]]%lookup_insert_Some Hid Hg; [cbn in Hid; by rewrite lookup_empty in Hid|].
    destruct (li_entries a HI k res' id0 g Hk Hid) as (gr2 & H1 & _ & _ & H2). congruence.
Qed.
End keeps.

(** Computations that start after [a0]: they may still change what [a0] does
    not know. *)
Definition keeps_from (a0 : Authority) {X} (m : A X) : Prop :=
  ∀ a x a', m a = Some (x, a') →
    grown a a' ∧ (lease_inv a0 → lease_inv a → drawn a' → frame a0 a → lease_inv a' ∧ frame a0 a').

Lemma keeps_from_keeps a0 {X} (m : A X) : keeps m → keeps_from a0 m.
Proof.
  intros Hm a x a' E. destruct (Hm a x a' E) as [G C]. split; [done|]. intros H0 HI Hd F.
  destruct (C HI Hd) as [H1 H2]. split; [done|by etrans].
Qed.

Lemma keeps_from_bind a0 {X Y} (m : A X) (k : X → A Y) :
  keeps_from a0 m → (∀ x, keeps_from a0 (k x)) → keeps_from a0 (bind m k).
Proof.
  intros Hm Hk a y a'. unfold bind. destruct (m a) as [[x a1]|] eqn:E; [|done]. intros Ek.
  destruct (Hm _ _ _ E) as [G1 C1]. destruct (Hk x _ _ _ Ek) as [G2 C2]. split; [by etrans|]. intros H0 HI Hd F.
  destruct (C1 H0 HI (grown_drawn _ _ G2 Hd) F) as [H1 F1]. by apply C2.
Qed.

(** An action that [a0] does not know is in no queue yet. *)
Lemma keeps_from_action a0 q f :
  au_actionHeap a0 !! q = None → keeps_from a0 (upd_action q f).
Proof.
  intros Hq a x a' [= _ <-]. split; [done|]. intros H0 HI Hd F.
  assert (F' : frame a0 (set_au_actionHeap (alter f q (au_actionHeap a)) a)).
  { destruct F as [F1 F2 F3 F4 F5 F6 F7]. split; try done. intros k. cbn. destruct (decide (k = q)) as [->|].
    - by rewrite Hq.
    - by rewrite lookup_alter_ne. }
  split; [|done]. destruct HI. split; try done. cbn. intros r res k Hr Hk.
  destruct (li_queue0 r res k Hr Hk) as (act & H1 & H2). exists act. split; [|done].
  rewrite lookup_alter_ne; [done|]. intros <-. pose proof (fr_resources a0 a F r) as FR. rewrite Hr in FR.
  destruct (au_resourceHeap a0 !! r) as [res0|] eqn:E0; cbn in FR.
  - destruct FR as (_ & _ & _ & _ & Hsub). destruct (li_queue a0 H0 r res0 q E0 (Hsub _ Hk)) as (? & ? & _). congruence.
  - destruct FR as (_ & _ & Hnil). rewrite Hnil in Hk. by apply not_elem_of_nil in Hk.
Qed.

Lemma keeps_record_action o receipt tombstone {X} (k : nat → A X) :
  (∀ a0 q, au_actionHeap a0 !! q = None → keeps_from a0 (k q)) →
  keeps (bind (record_action o receipt tombstone) k).
Proof.
  intros Hk a x a'. unfold bind at 1. destruct (record_action o receipt tombstone a) as [[q a1]|] eqn:E; [|done].
  assert (Hq : au_actionHeap a !! q = None).
  { injection E as <- _. apply not_elem_of_dom, is_fresh. }
  intros Ek. destruct (Hk a q Hq a1 x a' Ek) as [G2 C2].
  assert (G1 : grown a a1) by (by injection E as <- <-). split; [by etrans|]. intros HI Hd.
  pose proof (grown_drawn _ _ G2 Hd) as Hd1. assert (H1 : lease_inv a1 ∧ frame a a1); [|destruct H1; by apply C2].
  injection E as <- <-. set (q := fresh (dom (au_actionHeap a))) in *.
  match goal with |- context [set_au_actionHeap ?h a] => destruct (actions_keeps a h HI) as [H1 F1] end.
  - done.
  - intros k0. destruct (decide (k0 = q)) as [->|]; [by rewrite Hq|].
    rewrite lookup_insert_ne by done. apply action_frame_refl.
  - match goal with |- lease_inv ?b ∧ _ => destruct (same_core_keeps _ b H1) as [H2 F2]; [done|by split|] end.
    split; [done|by etrans].
Qed.

(** ** The sections *)

Create HintDb keeps.
#[export] Hint Resolve @keeps_ret @keeps_gets @keeps_deref keeps_clock_now keeps_new_token
  keeps_set_release keeps_adopt_resource : keeps.
#[export] Hint Extern 1 (keeps (endGrantLocked _ _)) => by apply keeps_endGrantLocked : keeps.
#[export] Hint Extern 1 (keeps (upd_action _ _)) => by apply keeps_upd_action : keeps.
#[export] Hint Extern 1 (keeps (upd_resource _ _)) => by apply keeps_upd_resource : keeps.
#[export] Hint Extern 1 (keeps (modify _)) => by apply keeps_modify; split : keeps.
#[export] Hint Extern 1 (keeps (options)) => apply @keeps_gets : keeps.
#[export] Hint Extern 1 (keeps (verify_token _ _ _)) => apply @keeps_gets : keeps.
#[export] Hint Extern 1 (keeps (get_session _)) => apply @keeps_deref : keeps.
#[export] Hint Extern 1 (keeps (get_owner _)) => apply @keeps_deref : keeps.
#[export] Hint Extern 1 (keeps (get_action _)) => apply @keeps_deref : keeps.
#[export] Hint Extern 1 (keeps (get_grant _)) => apply @keeps_deref : keeps.
#[export] Hint Extern 1 (keeps (get_resource _)) => apply @keeps_deref : keeps.
#[export] Hint Extern 1 (keeps (upd_session _ _)) => by apply keeps_modify; split : keeps.
#[export] Hint Extern 1 (keeps (upd_owner _ _)) => by apply keeps_modify; split : keeps.

Ltac keeps_step :=
  lazymatch goal with
  | |- keeps (bind (record_action _ _ _) _) => fail
  | |- keeps (bind _ _) => apply keeps_bind; [|intros ?]
  | |- keeps (iter _ _) => apply keeps_iter; intros ?
  | |- keeps (exists_in _ _) => apply keeps_exists_in; intros ?
  | |- keeps (match ?x with _ => _ end) => destruct x
  | |- keeps (let _ := _ in _) => cbv zeta
  end.
Ltac keeps := repeat first [keeps_step | solve [auto 1 with keeps nocore]].
