(* ===== verification/LockSections.v ===== *)
(** * The lease authority: sections within the frame

    Every critical section that neither grants, renews, raises the watermark nor
    publishes keeps the invariant within the frame. *)

From S2P Require Import Prelude Errors Identity LockTokens LockState LockAuthority LockInv.

Lemma keeps_healthyLocked ctx_err admission : keeps (healthyLocked ctx_err admission).
Proof. unfold healthyLocked. keeps. Qed.
#[export] Hint Resolve keeps_healthyLocked : keeps.

Lemma keeps_ownerLocked ref : keeps (ownerLocked ref).
Proof. unfold ownerLocked. keeps. Qed.
#[export] Hint Resolve keeps_ownerLocked : keeps.

Lemma keeps_sessionLocked id : keeps (sessionLocked id).
Proof. unfold sessionLocked. keeps. Qed.
#[export] Hint Resolve keeps_sessionLocked : keeps.

Lemma keeps_touchSessionLocked s : keeps (touchSessionLocked s).
Proof. unfold touchSessionLocked. keeps. Qed.
#[export] Hint Resolve keeps_touchSessionLocked : keeps.

Lemma keeps_touchLocked o : keeps (touchLocked o).
Proof. unfold touchLocked. keeps. Qed.
#[export] Hint Resolve keeps_touchLocked : keeps.

Lemma keeps_beginNative ctx_err : keeps (beginNative ctx_err).
Proof. unfold beginNative. keeps. Qed.
#[export] Hint Resolve keeps_beginNative : keeps.

Lemma keeps_finish_native : keeps finish_native.
Proof. unfold finish_native. keeps. Qed.
#[export] Hint Resolve keeps_finish_native : keeps.

Lemma keeps_expire_grant now g : keeps (expire_grant now g).
Proof. unfold expire_grant. keeps. Qed.
#[export] Hint Resolve keeps_expire_grant : keeps.

Lemma keeps_expireGrantsLocked r now : keeps (expireGrantsLocked r now).
Proof. unfold expireGrantsLocked. keeps. Qed.
#[export] Hint Resolve keeps_expireGrantsLocked : keeps.

Lemma remove_first_subseteq q queue : remove_first q queue ⊆ queue.
Proof. induction queue as [|v queue IH]; cbn [remove_first]; [done|]. case_bool_decide; set_solver. Qed.

Lemma keeps_finishLocked q outcome code : keeps (finishLocked q outcome code).
Proof.
  unfold finishLocked. keeps. apply keeps_upd_resource. intros res. split_and!; [done..|].
  apply remove_first_subseteq.
Qed.
#[export] Hint Resolve keeps_finishLocked : keeps.

Lemma keeps_expire_queued now q : keeps (expire_queued now q).
Proof. unfold expire_queued. keeps. Qed.
#[export] Hint Resolve keeps_expire_queued : keeps.

Lemma keeps_expireQueuedLocked r now : keeps (expireQueuedLocked r now).
Proof. unfold expireQueuedLocked. keeps. Qed.
#[export] Hint Resolve keeps_expireQueuedLocked : keeps.

Lemma keeps_startWorkerLocked r : keeps (startWorkerLocked r).
Proof. unfold startWorkerLocked. keeps. Qed.
#[export] Hint Resolve keeps_startWorkerLocked : keeps.

Lemma keeps_grant_busy g : keeps (grant_busy g).
Proof. unfold grant_busy. keeps. Qed.
#[export] Hint Resolve keeps_grant_busy : keeps.

Lemma keeps_ownerBusyLocked o : keeps (ownerBusyLocked o).
Proof. unfold ownerBusyLocked. keeps. Qed.
#[export] Hint Resolve keeps_ownerBusyLocked : keeps.

Lemma keeps_cancel_pending q : keeps (cancel_pending q).
Proof. unfold cancel_pending. keeps. Qed.
#[export] Hint Resolve keeps_cancel_pending : keeps.

Lemma keeps_end_retired g : keeps (end_retired g).
Proof. unfold end_retired. keeps. Qed.
#[export] Hint Resolve keeps_end_retired : keeps.

Lemma keeps_retireOwnerLocked o : keeps (retireOwnerLocked o).
Proof. unfold retireOwnerLocked. keeps. Qed.
#[export] Hint Resolve keeps_retireOwnerLocked : keeps.

Lemma keeps_retireSessionLocked s : keeps (retireSessionLocked s).
Proof. unfold retireSessionLocked. keeps. Qed.
#[export] Hint Resolve keeps_retireSessionLocked : keeps.

Lemma keeps_session_busy s : keeps (session_busy s).
Proof. unfold session_busy. keeps. Qed.
#[export] Hint Resolve keeps_session_busy : keeps.

Lemma keeps_expire_session now s : keeps (expire_session now s).
Proof. unfold expire_session. keeps. Qed.
#[export] Hint Resolve keeps_expire_session : keeps.

Lemma keeps_expireSessionsLocked now : keeps (expireSessionsLocked now).
Proof. unfold expireSessionsLocked. keeps. Qed.
#[export] Hint Resolve keeps_expireSessionsLocked : keeps.

Lemma keeps_BeginEnrollment ctx_err : keeps (BeginEnrollment ctx_err).
Proof. unfold BeginEnrollment. keeps. Qed.
#[export] Hint Resolve keeps_BeginEnrollment : keeps.

Lemma keeps_sessionResultLocked s : keeps (sessionResultLocked s).
Proof. unfold sessionResultLocked. keeps. Qed.
#[export] Hint Resolve keeps_sessionResultLocked : keeps.

Lemma keeps_OpenSession ctx_err ticket : keeps (OpenSession ctx_err ticket).
Proof. unfold OpenSession. keeps. Qed.
#[export] Hint Resolve keeps_OpenSession : keeps.

Lemma keeps_owner_result ref s retired : keeps (owner_result ref s retired).
Proof. unfold owner_result. keeps. Qed.
#[export] Hint Resolve keeps_owner_result : keeps.

Lemma keeps_ownerResultLocked o : keeps (ownerResultLocked o).
Proof. unfold ownerResultLocked. keeps. Qed.
#[export] Hint Resolve keeps_ownerResultLocked : keeps.

Lemma keeps_CreateOwner ctx_err id request : keeps (CreateOwner ctx_err id request).
Proof. unfold CreateOwner. keeps. Qed.
#[export] Hint Resolve keeps_CreateOwner : keeps.

Lemma keeps_RetireOwner ctx_err ref : keeps (RetireOwner ctx_err ref).
Proof. unfold RetireOwner. keeps. Qed.
#[export] Hint Resolve keeps_RetireOwner : keeps.

Lemma keeps_CloseSession ctx_err id : keeps (CloseSession ctx_err id).
Proof. unfold CloseSession. keeps. Qed.
#[export] Hint Resolve keeps_CloseSession : keeps.

Lemma keeps_resolve_check ctx_err ref : keeps (resolve_check ctx_err ref).
Proof. unfold resolve_check. keeps. Qed.
#[export] Hint Resolve keeps_resolve_check : keeps.

Lemma keeps_resolve_callback ctx_err ref key : keeps (resolve_callback ctx_err ref key).
Proof. unfold resolve_callback. keeps. Qed.
#[export] Hint Resolve keeps_resolve_callback : keeps.

Lemma keeps_resourceLocked ref : keeps (resourceLocked ref).
Proof. unfold resourceLocked. keeps. Qed.
#[export] Hint Resolve keeps_resourceLocked : keeps.

Lemma keeps_grant_compatible o mode g : keeps (grant_compatible o mode g).
Proof. unfold grant_compatible. keeps. Qed.
#[export] Hint Resolve keeps_grant_compatible : keeps.

Lemma keeps_compatibleLocked r o mode : keeps (compatibleLocked r o mode).
Proof. unfold compatibleLocked. keeps. Qed.
#[export] Hint Resolve keeps_compatibleLocked : keeps.

Lemma keeps_grantLockedForOwner o ref : keeps (grantLockedForOwner o ref).
Proof. unfold grantLockedForOwner. keeps. Qed.
#[export] Hint Resolve keeps_grantLockedForOwner : keeps.

Lemma keeps_grantStatusLocked g : keeps (grantStatusLocked g).
Proof. unfold grantStatusLocked. keeps. Qed.
#[export] Hint Resolve keeps_grantStatusLocked : keeps.

Lemma keeps_actionResultLocked q : keeps (actionResultLocked q).
Proof. unfold actionResultLocked. keeps. Qed.
#[export] Hint Resolve keeps_actionResultLocked : keeps.

Lemma keeps_action_busy action : keeps (action_busy action).
Proof. unfold action_busy. keeps. Qed.
#[export] Hint Resolve keeps_action_busy : keeps.

Lemma keeps_QueryAction ctx_err ref request : keeps (QueryAction ctx_err ref request).
Proof. unfold QueryAction. keeps. Qed.
#[export] Hint Resolve keeps_QueryAction : keeps.

Lemma keeps_QueryGrant ctx_err ref grant : keeps (QueryGrant ctx_err ref grant).
Proof. unfold QueryGrant. keeps. Qed.
#[export] Hint Resolve keeps_QueryGrant : keeps.

Lemma keeps_Release ctx_err ref grant : keeps (Release ctx_err ref grant).
Proof. unfold Release. keeps. Qed.
#[export] Hint Resolve keeps_Release : keeps.

Lemma keeps_Cancel ctx_err ref request : keeps (Cancel ctx_err ref request).
Proof. unfold Cancel. keeps. apply keeps_record_action. intros a0 q _. apply keeps_from_keeps. keeps. Qed.
#[export] Hint Resolve keeps_Cancel : keeps.

Lemma keeps_reject_action q err : keeps (reject_action q err).
Proof. unfold reject_action. keeps. Qed.
#[export] Hint Resolve keeps_reject_action : keeps.

Lemma keeps_hold_resource q r : keeps (hold_resource q r).
Proof. unfold hold_resource. keeps. Qed.
#[export] Hint Resolve keeps_hold_resource : keeps.

Lemma keeps_finish_action q r err : keeps (finish_action q r err).
Proof. unfold finish_action. keeps. Qed.
#[export] Hint Resolve keeps_finish_action : keeps.

Ltac keeps_new :=
  lazymatch goal with
  | |- keeps_from _ (bind (upd_action _ _) _) =>
      apply keeps_from_bind; [by apply keeps_from_action|intros _]
  | |- keeps_from _ (bind _ _) => apply keeps_from_bind; [apply keeps_from_keeps; keeps|intros ?]
  | |- keeps_from _ (match ?x with _ => _ end) => destruct x
  | |- keeps_from _ _ => apply keeps_from_keeps; keeps
  end.

Lemma keeps_acquire_admit ctx_err request : keeps (acquire_admit ctx_err request).
Proof. unfold acquire_admit. keeps. apply keeps_record_action. intros a0 q Hq. repeat keeps_new. Qed.
#[export] Hint Resolve keeps_acquire_admit : keeps.

Lemma keeps_callback_check ctx_err q : keeps (callback_check ctx_err q).
Proof. unfold callback_check. keeps. Qed.
#[export] Hint Resolve keeps_callback_check : keeps.

Lemma keeps_held_by o g : keeps (held_by o g).
Proof. unfold held_by. keeps. Qed.
#[export] Hint Resolve keeps_held_by : keeps.

Lemma keeps_renew_admit ctx_err request : keeps (renew_admit ctx_err request).
Proof. unfold renew_admit. keeps. apply keeps_record_action. intros a0 q Hq. repeat keeps_new. Qed.
#[export] Hint Resolve keeps_renew_admit : keeps.

Lemma keeps_worker_pick r : keeps (worker_pick r).
Proof. unfold worker_pick. keeps. Qed.
#[export] Hint Resolve keeps_worker_pick : keeps.

Lemma keeps_worker_exit r : keeps (worker_exit r).
Proof. unfold worker_exit. keeps. Qed.
#[export] Hint Resolve keeps_worker_exit : keeps.

Lemma keeps_maintain_resource now r : keeps (maintain_resource now r).
Proof. unfold maintain_resource. keeps. Qed.
#[export] Hint Resolve keeps_maintain_resource : keeps.

Lemma keeps_sweep now l : keeps (sweep now l).
Proof. induction l; cbn [sweep]; keeps. Qed.
#[export] Hint Resolve keeps_sweep : keeps.

Lemma keeps_maintain_sweep : keeps maintain_sweep.
Proof. unfold maintain_sweep. keeps. Qed.
#[export] Hint Resolve keeps_maintain_sweep : keeps.

Lemma keeps_forget_done r err : keeps (forget_done r err).
Proof. unfold forget_done. keeps. Qed.
#[export] Hint Resolve keeps_forget_done : keeps.

Lemma keeps_Fence err : keeps (Fence err).
Proof. unfold Fence. keeps. apply keeps_modify. intros a. by destruct (au_fenced a); split. Qed.
#[export] Hint Resolve keeps_Fence : keeps.

Lemma keeps_Authority_Check ctx_err : keeps (Authority_Check ctx_err).
Proof. unfold Authority_Check. keeps. Qed.
#[export] Hint Resolve keeps_Authority_Check : keeps.

Lemma keeps_Authority_Status ctx_err : keeps (Authority_Status ctx_err).
Proof. unfold Authority_Status. keeps. Qed.
#[export] Hint Resolve keeps_Authority_Status : keeps.

Lemma keeps_close_begin : keeps close_begin.
Proof. unfold close_begin. keeps. Qed.
#[export] Hint Resolve keeps_close_begin : keeps.

Lemma keeps_close_drop : keeps close_drop.
Proof. unfold close_drop. keeps. Qed.
#[export] Hint Resolve keeps_close_drop : keeps.

Lemma keeps_end_gone g : keeps (end_gone g).
Proof. unfold end_gone. keeps. Qed.
#[export] Hint Resolve keeps_end_gone : keeps.

Lemma keeps_reject_stale q : keeps (reject_stale q).
Proof. unfold reject_stale. keeps. Qed.
#[export] Hint Resolve keeps_reject_stale : keeps.

Lemma keeps_retire_target key : keeps (retire_target key).
Proof. unfold retire_target. keeps. Qed.
#[export] Hint Resolve keeps_retire_target : keeps.


Lemma keeps_close_end errs : keeps (close_end errs).
Proof. unfold close_end. keeps. Qed.
#[export] Hint Resolve keeps_close_end : keeps.
