(* ===== verification/LockEvolve.v ===== *)
(** * The lease authority: granting, renewing and publishing

    The sections outside the frame: they keep the invariant, and they leave
    alone what the calls in progress rely on. *)

From S2P Require Import Prelude Errors Identity LockTokens LockState LockAuthority LockInv LockSections.

(** ** What calls rely on *)

(** Resources, grants and actions are never dropped, the watermark stays, and a
    busy resource gains no grant; the resources [rs] change hands. *)
Record evolves (rs : list nat) (a a' : Authority) : Prop := {
  vo_watermark : au_watermark a' = au_watermark a;
  vo_resources : ∀ r res, au_resourceHeap a !! r = Some res →
    ∃ res', au_resourceHeap a' !! r = Some res'
      ∧ (r ∉ rs → rs_busy res' = rs_busy res ∧ (rs_busy res = true → rs_grants res' ⊆ rs_grants res));
  vo_grants : ∀ g gr, au_grantHeap a !! g = Some gr →
    ∃ gr', au_grantHeap a' !! g = Some gr' ∧ gt_owner gr' = gt_owner gr
      ∧ gt_resource gr' = gt_resource gr ∧ gt_mode gr' = gt_mode gr;
  vo_actions : ∀ q act, au_actionHeap a !! q = Some act →
    ∃ act', au_actionHeap a' !! q = Some act' ∧ ac_owner act' = ac_owner act
      ∧ rp_Acquire (ac_receipt act') = rp_Acquire (ac_receipt act) ∧ ac_resource act' = ac_resource act }.

Lemma frame_evolves a a' : frame a a' → evolves [] a a'.
Proof.
  intros [_ _ _ W FR FG FA]. split; [done|..].
  - intros r res Hr. specialize (FR r). rewrite Hr in FR. destruct (au_resourceHeap a' !! r); [|done]. naive_solver.
  - intros g gr Hg. specialize (FG g). rewrite Hg in FG. destruct (au_grantHeap a' !! g); [|done]. naive_solver.
  - intros q act Hq. specialize (FA q). rewrite Hq in FA. destruct (au_actionHeap a' !! q); [|done]. naive_solver.
Qed.

#[global] Instance evolves_trans rs : Transitive (evolves rs).
Proof.
  intros a b c [W1 R1 G1 A1] [W2 R2 G2 A2]. split; [congruence|..].
  - intros r res Hr. destruct (R1 r res Hr) as (res1 & H1 & H2), (R2 r res1 H1) as (res2 & H3 & H4).
    exists res2. split; [done|]. intros Hn. destruct (H2 Hn) as [B1 S1], (H4 Hn) as [B2 S2].
    split; [congruence|]. intros Hb. etrans; [apply S2; congruence|by apply S1].
  - intros g gr Hg. destruct (G1 g gr Hg) as (g1 & H1 & ?), (G2 g g1 H1) as (g2 & H2 & ?).
    exists g2. split; [done|]. intuition congruence.
  - intros q act Hq. destruct (A1 q act Hq) as (q1 & H1 & ?), (A2 q q1 H1) as (q2 & H2 & ?).
    exists q2. split; [done|]. intuition congruence.
Qed.

Lemma evolves_weaken rs a a' : evolves [] a a' → evolves rs a a'.
Proof.
  intros [W R G Q]. split; [done| |done|done]. intros r res Hr. destruct (R r res Hr) as (res' & H1 & H2).
  exists res'. split; [done|]. intros _. apply H2. set_solver.
Qed.

(** A computation from [a] that keeps the invariant and evolves, as long as
    nonces do not repeat. *)
Definition advances (a : Authority) {X} (m : A X) : Prop :=
  ∀ x a', m a = Some (x, a') → drawn a' → lease_inv a' ∧ evolves [] a a'.

Lemma keeps_advances a {X} (m : A X) : lease_inv a → keeps m → advances a m.
Proof. intros HI Hm x a' E Hd. destruct (keeps_inv m a x a' Hm HI Hd E) as [H1 H2]. split; [done|by apply frame_evolves]. Qed.

Lemma grows_bind {X Y} (m : A X) (k : X → A Y) : grows m → (∀ x, grows (k x)) → grows (bind m k).
Proof.
  intros Hm Hk a y a'. unfold bind. destruct (m a) as [[x a1]|] eqn:E; [|done]. intros Ek.
  etrans; [by apply (Hm a x)|by apply (Hk x a1 y)].
Qed.

Create HintDb grows.
#[export] Hint Extern 1 (grows (modify _)) => by intros ? ? ? [= _ <-] : grows.
#[export] Hint Extern 2 (grows _) => solve [apply keeps_grows; keeps] : grows.

Lemma grows_upd_resource r f : grows (upd_resource r f).
Proof. by intros a x a' [= _ <-]. Qed.
Lemma grows_upd_grant g f : grows (upd_grant g f).
Proof. by intros a x a' [= _ <-]. Qed.
Lemma grows_upd_action q f : grows (upd_action q f).
Proof. by intros a x a' [= _ <-]. Qed.
#[export] Hint Resolve grows_upd_resource grows_upd_grant grows_upd_action : grows.

Ltac grows :=
  repeat lazymatch goal with
  | |- ∀ _, _ => intros ?
  | |- grows (bind _ _) => apply grows_bind
  | |- grows (match ?x with _ => _ end) => destruct x
  | |- grows (let _ := _ in _) => cbv zeta
  | |- grows _ => solve [auto 1 with grows nocore]
  end.

Lemma advances_bind a {X Y} (m : A X) (k : X → A Y) :
  (∀ x, grows (k x)) → advances a m →
  (∀ x a', m a = Some (x, a') → lease_inv a' → drawn a' → advances a' (k x)) → advances a (bind m k).
Proof.
  intros Hg Hm Hk y a'. unfold bind. destruct (m a) as [[x a1]|] eqn:E; [|done]. intros Ek Hd.
  pose proof (grown_drawn _ _ (Hg x a1 y a' Ek) Hd) as Hd1.
  destruct (Hm x a1 E Hd1) as [H1 V1]. destruct (Hk x a1 eq_refl H1 Hd1 y a' Ek Hd) as [H2 V2]. split; [done|by etrans].
Qed.

Lemma advances_after a {X Y} (m : A X) (k : X → A Y) :
  lease_inv a → keeps m → (∀ x, grows (k x)) →
  (∀ x a', m a = Some (x, a') → lease_inv a' → frame a a' → advances a' (k x)) → advances a (bind m k).
Proof.
  intros HI Hm Hg Hk. apply advances_bind; [done|by apply keeps_advances|]. intros x a' E H' Hd. apply Hk; [done|done|].
  by apply (keeps_inv m a x a').
Qed.

(** ** Reading *)

Definition reads {X} (m : A X) : Prop := ∀ a x a', m a = Some (x, a') → a' = a.

Lemma exists_in_reads {X} (test : X → A bool) l :
  (∀ x, reads (test x)) → ∀ a b a', exists_in test l a = Some (b, a') →
  a' = a ∧ (b = false → ∀ x, x ∈ l → test x a = Some (false, a)).
Proof.
  intros Ht. induction l as [|x l IH]; intros a b a'; cbn [exists_in].
  - intros [= <- <-]. split; [done|]. set_solver.
  - unfold bind. destruct (test x a) as [[[] a1]|] eqn:E; [| |done]; pose proof (Ht _ _ _ _ E) as ->.
    + intros [= <- <-]. done.
    + intros [-> Hf]%IH. split; [done|]. intros Hb y [->|Hy]%elem_of_cons; [done|by apply Hf].
Qed.

Lemma reads_grant {X} g (f : grantRecord → X) : reads (let! grant := get_grant g in ret (f grant)).
Proof.
  intros a x a'. unfold get_grant, deref, bind. destruct (au_grantHeap a !! g); [|done]. by intros [= _ <-].
Qed.

Lemma grant_compatible_reads o mode g : reads (grant_compatible o mode g).
Proof. apply reads_grant. Qed.

Lemma held_by_reads o g : reads (held_by o g).
Proof. apply (reads_grant g (λ grant, bool_decide (gt_owner grant = o))). Qed.

(** What a positive answer of [compatibleLocked] says of the grants held. *)
Definition admissible (a : Authority) (res : resourceRecord) (o : nat) (mode : Mode) : Prop :=
  ∀ id g gr, rs_grants res !! id = Some g → au_grantHeap a !! g = Some gr →
    gt_owner gr ≠ o ∧ mode ≠ Exclusive ∧ gt_mode gr ≠ Exclusive.

Lemma compatibleLocked_spec r o mode a b a' :
  compatibleLocked r o mode a = Some (b, a') →
  a' = a ∧ (b = true → ∃ res, au_resourceHeap a !! r = Some res ∧ admissible a res o mode).
Proof.
  unfold compatibleLocked, get_resource, deref. unfold bind at 1.
  destruct (au_resourceHeap a !! r) as [res|]; [|done]. unfold bind.
  destruct (exists_in _ _ a) as [[refused a1]|] eqn:E; [|done]. intros [= <- <-].
  apply exists_in_reads in E as [-> Hf]; [|apply grant_compatible_reads]. split; [done|].
  intros ->%negb_true_iff. exists res. split; [done|]. intros id g gr Hid Hg.
  assert (Hin : g ∈ (map_to_list (rs_grants res)).*2).
  { apply list_elem_of_fmap. exists (id, g). split; [done|by apply elem_of_map_to_list]. }
  specialize (Hf eq_refl g Hin). unfold grant_compatible, get_grant, deref, bind in Hf. rewrite Hg in Hf.
  injection Hf as Hf. apply orb_false_iff in Hf as [[H1 H2]%orb_false_iff H3].
  apply bool_decide_eq_false in H1, H2, H3. done.
Qed.

(** ** Granting *)

(** A new grant [g] on an idle resource that admits it. *)
Section install.
Context (a : Authority) (o r : nat) (res : resourceRecord) (ref : GrantRef) (mode : Mode) (deadline : Z).
Let g : nat := fresh (dom (au_grantHeap a)).
Let gr : grantRecord :=
  {| gt_owner := o; gt_resource := r; gt_ref := ref; gt_mode := mode; gt_state := Active;
     gt_deadline := deadline; gt_revision := 1; gt_release := None |}.
Let f (r : resourceRecord) : resourceRecord := set_rs_grants (<[gf_ID ref := g]> (rs_grants r)) r.
Let resources := alter f r (au_resourceHeap a).
Let grants := <[g := gr]> (au_grantHeap a).

Hypothesis HI : lease_inv a.
Hypothesis Hr : au_resourceHeap a !! r = Some res.
Hypothesis Hadm : admissible a res o mode.
Hypothesis Hfresh : ∀ k gr, au_grantHeap a !! k = Some gr → gf_ID (gt_ref gr) ≠ gf_ID ref.

Lemma installed_resource k : resources !! k = if decide (k = r) then Some (f res) else au_resourceHeap a !! k.
Proof. destruct (decide (k = r)) as [->|]; [unfold resources; by rewrite lookup_alter_eq, Hr|by apply lookup_alter_ne]. Qed.

Lemma installed_grant k : grants !! k = if decide (k = g) then Some gr else au_grantHeap a !! k.
Proof. destruct (decide (k = g)) as [->|]; [apply lookup_insert_eq|by apply lookup_insert_ne]. Qed.

Lemma installed_new : au_grantHeap a !! g = None.
Proof. apply not_elem_of_dom, is_fresh. Qed.

Lemma installed_other k res0 id k0 : au_resourceHeap a !! k = Some res0 → rs_grants res0 !! id = Some k0 →
  k0 ≠ g ∧ id ≠ gf_ID ref.
Proof.
  intros Hk Hi. destruct (li_entries a HI k res0 id k0 Hk Hi) as (gr0 & H1 & _ & <- & _).
  pose proof installed_new. split; [congruence|by apply (Hfresh k0)].
Qed.

(** The entries of a resource are the old ones and the new grant. *)
Lemma installed_entry k res0 id k0 : resources !! k = Some res0 → rs_grants res0 !! id = Some k0 →
  (k = r ∧ id = gf_ID ref ∧ k0 = g)
  ∨ k0 ≠ g ∧ ∃ res1, au_resourceHeap a !! k = Some res1 ∧ rs_grants res1 !! id = Some k0.
Proof.
  rewrite installed_resource. destruct (decide (k = r)) as [->|].
  - intros [= <-]. cbn. intros [[<- <-]|[_ H1]]%lookup_insert_Some; [by left|right].
    split; [by apply (installed_other r res id)|eauto].
  - intros H1 H2. right. split; [by apply (installed_other k res0 id)|eauto].
Qed.

Lemma installed_entries k res0 id k0 : resources !! k = Some res0 → rs_grants res0 !! id = Some k0 →
  ∃ gr0, grants !! k0 = Some gr0 ∧ gt_resource gr0 = k ∧ gf_ID (gt_ref gr0) = id ∧ gt_state gr0 = Active.
Proof.
  intros H1 H2. rewrite installed_grant. destruct (installed_entry k res0 id k0 H1 H2) as [(-> & -> & ->)|(Hne & res1 & H3 & H4)].
  - rewrite decide_True by done. by exists gr.
  - rewrite decide_False by done. by apply (li_entries a HI k res1).
Qed.

Lemma installed_listed k gr0 : grants !! k = Some gr0 → gt_state gr0 = Active →
  ∃ res0, resources !! gt_resource gr0 = Some res0 ∧ rs_grants res0 !! gf_ID (gt_ref gr0) = Some k.
Proof.
  rewrite installed_grant. destruct (decide (k = g)) as [->|]; [intros [= <-] _|intros H1 Ha].
  - cbn. rewrite installed_resource, decide_True by done. exists (f res). split; [done|apply lookup_insert_eq].
  - destruct (li_listed a HI k gr0 H1 Ha) as (res0 & H2 & H3). rewrite installed_resource.
    destruct (decide (gt_resource gr0 = r)) as [E|]; [|eauto]. rewrite E, Hr in H2. injection H2 as <-.
    exists (f res). split; [done|]. cbn. rewrite lookup_insert_ne; [done|]. intros E'. by apply (Hfresh k gr0 H1).
Qed.

Lemma installed_exclusion k res0 id1 id2 g1 g2 gr1 gr2 : resources !! k = Some res0 →
  rs_grants res0 !! id1 = Some g1 → rs_grants res0 !! id2 = Some g2 → g1 ≠ g2 →
  grants !! g1 = Some gr1 → grants !! g2 = Some gr2 → compatible gr1 gr2.
Proof.
  intros Hk H1 H2 Hne. rewrite !installed_grant.
  destruct (installed_entry k res0 id1 g1 Hk H1) as [(K1 & _ & G1)|(N1 & res1 & R1 & E1)],
    (installed_entry k res0 id2 g2 Hk H2) as [(K2 & _ & G2)|(N2 & res2 & R2 & E2)]; [congruence|..].
  - rewrite decide_True, decide_False by done. clear G1. intros [= <-] G2. rewrite K1, Hr in R2. injection R2 as <-.
    destruct (Hadm id2 g2 gr2 E2 G2) as (? & ? & ?). by split_and!.
  - rewrite decide_False, decide_True by done. clear G2. intros G1 [= <-]. rewrite K2, Hr in R1. injection R1 as <-.
    destruct (Hadm id1 g1 gr1 E1 G1) as (? & ? & ?). by split_and!.
  - rewrite !decide_False by done. simplify_eq. by eapply (li_exclusion a HI k).
Qed.

Context (n : nat) (parent : string) (g' : nat) (a' : Authority).

Lemma install_grant_inv :
  rs_busy res = false → gf_Resource ref = rs_id res →
  (n < au_nonces a)%nat → gf_ID ref = nth_token (au_env a) n "g" parent →
  deadline <= latest a + au_watermark a →
  install_grant o r ref mode deadline a = Some (g', a') → lease_inv a' ∧ evolves [] a a'.
Proof.
  intros Hb Href Hn Hid Hd [= _ <-].
  split; [split|split; cbn; [done|..]]; try apply HI; cbn.
  - intros k gr0. fold g gr. fold grants. rewrite installed_grant.
    destruct (decide (k = g)); [intros [= <-]; by exists n, parent|apply HI].
  - intros k res0. fold g f. fold resources. rewrite installed_resource.
    destruct (decide (k = r)); [intros [= <-]; exact (li_resource_ids a HI r res Hr)|apply HI].
  - intros k k' res0 res1. fold g f. fold resources. rewrite !installed_resource.
    destruct (decide (k = r)) as [->|], (decide (k' = r)) as [->|]; [done|intros [= <-] H1 H2|intros H1 [= <-] H2|apply HI].
    + by apply (li_resource_inj a HI r k' res res1).
    + by apply (li_resource_inj a HI k r res0 res).
  - intros k gr0. fold g f gr. fold resources grants. rewrite installed_grant.
    destruct (decide (k = g)) as [->|]; [intros [= <-]|intros H1]; rewrite installed_resource.
    + cbn. rewrite decide_True by done. by exists (f res).
    + destruct (li_grant_resource a HI k gr0 H1) as (res0 & H2 & H3).
      destruct (decide (gt_resource gr0 = r)) as [E|]; [|eauto]. exists (f res). split; [done|]. cbn. congruence.
  - apply installed_listed.
  - apply installed_entries.
  - apply installed_exclusion.
  - intros k res0 q. fold g f. fold resources. rewrite installed_resource.
    destruct (decide (k = r)) as [->|]; [intros [= <-]; exact (li_queue a HI r res q Hr)|apply HI].
  - intros k gr0. fold g gr. fold grants. rewrite installed_grant.
    destruct (decide (k = g)); [intros [= <-] _; done|apply HI].
  - intros k res0 Hk. fold g f. fold resources. rewrite installed_resource.
    destruct (decide (k = r)) as [->|]; [|eauto].
    exists (f res). split; [done|]. rewrite Hr in Hk. injection Hk as <-. intros _. split; [done|congruence].
  - intros k gr0 Hk. exists gr0. split; [|done]. fold g gr. fold grants. rewrite installed_grant.
    pose proof installed_new. rewrite decide_False; [done|congruence].
  - intros q act Hq. by exists act.
Qed.
End install.

Lemma advances_deref {X Y} a (f : Authority → option X) (k : X → A Y) v :
  f a = Some v → advances a (k v) → advances a (bind (deref f) k).
Proof. intros Hf Hk x a'. unfold bind, deref. rewrite Hf. apply Hk. Qed.

Lemma advances_gets {X Y} a (f : Authority → X) (k : X → A Y) :
  advances a (k (f a)) → advances a (bind (gets f) k).
Proof. intros Hk x a'. apply Hk. Qed.

Lemma advances_core {X Y} a a1 (m : A X) (k : X → A Y) v :
  lease_inv a → m a = Some (v, a1) → same_core a a1 → (∀ x, grows (k x)) →
  (lease_inv a1 → drawn a1 → advances a1 (k v)) → advances a (bind m k).
Proof.
  intros HI Em Hs Hg Hk. apply advances_bind; [done|..].
  - intros x a'. rewrite Em. intros [= <- <-] Hd. destruct (same_core_keeps a a1 HI Hd Hs) as [H1 F1].
    split; [done|by apply frame_evolves].
  - intros x a'. rewrite Em. intros [= <- <-]. done.
Qed.

Lemma grows_install_grant o r ref mode deadline : grows (install_grant o r ref mode deadline).
Proof. by intros a x a' [= _ <-]. Qed.
#[export] Hint Resolve grows_install_grant : grows.

Lemma grows_grantLocked q : grows (grantLocked q).
Proof. unfold grantLocked. grows. Qed.
#[export] Hint Resolve grows_grantLocked : grows.

(** [grantLocked] on an idle resource, within the persisted watermark. *)
Lemma grantLocked_advances a q act request r res :
  lease_inv a → au_actionHeap a !! q = Some act → rp_Acquire (ac_receipt act) = Some request →
  ac_resource act = Some r → au_resourceHeap a !! r = Some res → rs_busy res = false →
  admissible a res (ac_owner act) (aq_Mode request) → aq_TTL request <= au_watermark a →
  advances a (grantLocked q).
Proof.
  intros HI Hq Hrq Har Hr Hb Hadm Httl. unfold grantLocked, get_action, get_resource.
  apply (advances_deref _ _ _ act); [done|]. apply (advances_deref _ _ _ request); [done|].
  apply (advances_deref _ _ _ r); [done|]. intros x a'. unfold bind at 1, get_owner, deref at 1.
  destruct (au_ownerHeap a !! ac_owner act) as [owner|]; [|done]. revert x a'.
  apply (advances_deref _ _ _ res); [done|]. apply advances_gets, advances_gets. cbn [id].
  destruct (_ || _); [apply keeps_advances; [done|keeps]|]. destruct (au_lastGeneration a =? MaxUint64); [apply keeps_advances; [done|keeps]|].
  set (parent := grant_parent _ _ _). set (generation := au_lastGeneration a + 1). cbv zeta.
  set (a1 := set_au_lastGeneration generation a).
  set (a2 := set_au_nonces (S (au_nonces a)) a1). set (a3 := set_au_reads (S (au_reads a)) a2).
  apply (advances_core a a1 _ _ tt); [done|done|done|grows|]. intros H1 _.
  apply (advances_core a1 a2 _ _ (nth_token (au_env a) (au_nonces a) "g" parent));
    [done|done|split; cbn; try done; lia|grows|]. intros H2 D2.
  apply (advances_core a2 a3 _ _ (latest a3)); [done|done|split; cbn; try done; lia|grows|]. intros H3 _.
  apply advances_bind; [grows| |intros g a4 _ H4 _; apply keeps_advances; [done|keeps]].
  intros g a4 Ei _. revert Ei. apply (install_grant_inv a3 (ac_owner act) r res) with (n := au_nonces a) (parent := parent); try done.
  - intros k gr Hk. destruct (li_grant_ids a HI k gr Hk) as (m & p & Hm & ->). cbn [gf_ID].
    intros Eid%nth_token_inj; [|apply HI|done]. apply D2 in Eid; cbn; lia.
  - cbn. lia.
  - unfold a3. cbn [au_watermark set_au_reads set_au_nonces set_au_lastGeneration a2 a1]. lia.
Qed.

(** ** Queueing and renewing *)

(** Changes of a resource that leave its grants alone, and queue only actions
    on it. *)
Lemma upd_resource_advances a r f :
  lease_inv a →
  (∀ x, rs_id (f x) = rs_id x ∧ rs_busy (f x) = rs_busy x ∧ rs_grants (f x) = rs_grants x) →
  (∀ x q, q ∈ rs_queue (f x) → q ∈ rs_queue x ∨ ∃ act, au_actionHeap a !! q = Some act ∧ ac_resource act = Some r) →
  advances a (upd_resource r f).
Proof.
  intros HI Hf Hq x a' [= _ <-] _.
  assert (HL : ∀ k res', alter f r (au_resourceHeap a) !! k = Some res' → ∃ res, au_resourceHeap a !! k = Some res
            ∧ rs_id res' = rs_id res ∧ rs_busy res' = rs_busy res ∧ rs_grants res' = rs_grants res
            ∧ (res' = res ∨ k = r ∧ res' = f res)).
  { intros k res'. destruct (decide (k = r)) as [->|]; [|rewrite lookup_alter_ne by done; eauto 10].
    rewrite lookup_alter_eq. intros [res [H1 ->]]%fmap_Some. exists res. destruct (Hf res) as (? & ? & ?). eauto 10. }
  assert (HR : ∀ k res, au_resourceHeap a !! k = Some res → ∃ res', alter f r (au_resourceHeap a) !! k = Some res'
            ∧ rs_id res' = rs_id res ∧ rs_busy res' = rs_busy res ∧ rs_grants res' = rs_grants res).
  { intros k res Hk. destruct (decide (k = r)) as [->|]; [|rewrite lookup_alter_ne by done; eauto 10].
    rewrite lookup_alter_eq, Hk. exists (f res). split; [done|apply Hf]. }
  split; [split|split; cbn; [done|..]]; try apply HI; cbn.
  - intros k res' (res & H1 & -> & _)%HL. by apply (li_resource_ids a HI k).
  - intros k k' res' res1' (res & H1 & -> & _)%HL (res1 & H2 & -> & _)%HL. by apply (li_resource_inj a HI).
  - intros g gr Hg. destruct (li_grant_resource a HI g gr Hg) as (res & H1 & ->).
    destruct (HR _ _ H1) as (res' & H2 & H3 & _). eauto.
  - intros g gr Hg Ha. destruct (li_listed a HI g gr Hg Ha) as (res & H1 & H2).
    destruct (HR _ _ H1) as (res' & H3 & _ & _ & E). exists res'. by rewrite E.
  - intros k res' id0 g (res & H1 & _ & _ & -> & _)%HL. by apply (li_entries a HI k).
  - intros k res' id1 id2 g1 g2 gr1 gr2 (res & H1 & _ & _ & -> & _)%HL. by apply (li_exclusion a HI k).
  - intros k res' q (res & H1 & _ & _ & _ & [->|[-> ->]])%HL; [by apply (li_queue a HI k)|].
    intros [Hin|?]%Hq; [by apply (li_queue a HI r res)|done].
  - intros k res Hk. destruct (HR k res Hk) as (res' & H1 & _ & E1 & E2). exists res'. by rewrite E1, E2.
  - intros g gr Hg. by exists gr.
  - intros q act Ha. by exists act.
Qed.

(** A later deadline of a grant. *)
Lemma set_deadline_advances a g revision deadline :
  lease_inv a → deadline <= latest a + au_watermark a →
  advances a (upd_grant g (λ g, set_gt_revision revision (set_gt_deadline deadline g))).
Proof.
  intros HI Hd x a' [= _ <-] _. set (f := λ g, set_gt_revision revision (set_gt_deadline deadline g)).
  assert (HL : ∀ k gr', alter f g (au_grantHeap a) !! k = Some gr' → ∃ gr, au_grantHeap a !! k = Some gr
            ∧ gt_owner gr' = gt_owner gr ∧ gt_resource gr' = gt_resource gr ∧ gt_ref gr' = gt_ref gr
            ∧ gt_mode gr' = gt_mode gr ∧ gt_state gr' = gt_state gr
            ∧ (gt_deadline gr' = gt_deadline gr ∨ gt_deadline gr' = deadline)).
  { intros k gr'. destruct (decide (k = g)) as [->|]; [|rewrite lookup_alter_ne by done; eauto 10].
    rewrite lookup_alter_eq. intros [gr [H1 ->]]%fmap_Some. exists gr. eauto 10. }
  assert (HR : ∀ k gr, au_grantHeap a !! k = Some gr → ∃ gr', alter f g (au_grantHeap a) !! k = Some gr'
            ∧ gt_owner gr' = gt_owner gr ∧ gt_resource gr' = gt_resource gr ∧ gt_ref gr' = gt_ref gr
            ∧ gt_mode gr' = gt_mode gr ∧ gt_state gr' = gt_state gr).
  { intros k gr Hk. destruct (decide (k = g)) as [->|]; [|rewrite lookup_alter_ne by done; eauto 10].
    rewrite lookup_alter_eq, Hk. by exists (f gr). }
  split; [split|split; cbn; [done|..]]; try apply HI; cbn.
  - intros k gr' (gr & H1 & _ & _ & -> & _)%HL. by apply (li_grant_ids a HI k).
  - intros k gr' (gr & H1 & _ & -> & -> & _)%HL. by apply (li_grant_resource a HI k).
  - intros k gr' (gr & H1 & _ & -> & -> & _ & -> & _)%HL. by apply (li_listed a HI k).
  - intros r res id0 k Hr Hi. destruct (li_entries a HI r res id0 k Hr Hi) as (gr & H1 & <- & <- & H2).
    destruct (HR k gr H1) as (gr' & H3 & _ & E1 & E2 & _ & E3). exists gr'. split_and!; congruence.
  - intros r res id1 id2 g1 g2 gr1' gr2' Hr H1 H2 Hne (gr1 & G1 & O1 & _ & _ & M1 & _)%HL (gr2 & G2 & O2 & _ & _ & M2 & _)%HL.
    unfold compatible. rewrite O1, O2, M1, M2. by apply (li_exclusion a HI r res id1 id2 g1 g2 gr1 gr2).
  - intros k gr' (gr & H1 & _ & _ & _ & _ & -> & [->| ->])%HL Ha; [by apply (li_deadline a HI k)|done].
  - intros r res Hr. exists res. done.
  - intros k gr Hk. destruct (HR k gr Hk) as (gr' & H1 & E1 & E2 & _ & E3 & _). eauto 10.
  - intros q act Ha. by exists act.
Qed.

(** ** The callbacks *)

Lemma advances_read {X Y} a (f : Authority → option X) (k : X → A Y) :
  (∀ v, f a = Some v → advances a (k v)) → advances a (bind (deref f) k).
Proof. intros Hk x a'. unfold bind, deref. destruct (f a) as [v|] eqn:E; [|done]. by apply Hk. Qed.

Lemma advances_reads {X Y} a (m : A X) (k : X → A Y) :
  reads m → (∀ v, m a = Some (v, a) → advances a (k v)) → advances a (bind m k).
Proof.
  intros Hm Hk x a'. unfold bind. destruct (m a) as [[v a1]|] eqn:E; [|done].
  pose proof (Hm _ _ _ E) as ->. by apply Hk.
Qed.

Lemma compatibleLocked_reads r o mode : reads (compatibleLocked r o mode).
Proof. by intros a x a' [-> _]%compatibleLocked_spec. Qed.

Lemma held_reads o l : reads (exists_in (held_by o) l).
Proof. by intros a x a' [-> _]%exists_in_reads; [|apply held_by_reads]. Qed.

(** The acquisition that a call works on. *)
Definition acquiring (a : Authority) (q r : nat) (request : AcquireRequest) : Prop :=
  ∃ act, au_actionHeap a !! q = Some act ∧ rp_Acquire (ac_receipt act) = Some request
         ∧ ac_resource act = Some r.

Lemma evolves_acquiring rs a a' q r request : evolves rs a a' → acquiring a q r request → acquiring a' q r request.
Proof.
  intros V (act & H1 & H2 & H3). destruct (vo_actions _ _ _ V q act H1) as (act' & H4 & _ & H5 & H6).
  exists act'. split_and!; congruence.
Qed.

Ltac after := apply advances_after; [done|solve [keeps]|solve [grows]|].
Ltac quiet := apply keeps_advances; [done|solve [keeps]].

Lemma acquire_callback_advances a ctx_err request q r started :
  lease_inv a → acquiring a q r request → aq_TTL request <= au_watermark a →
  advances a (acquire_callback ctx_err request q r started).
Proof.
  intros HI Hq Httl. unfold acquire_callback. after. intros [answer|] a1 _ H1 F1; [quiet|].
  apply (evolves_acquiring [] a a1) in Hq; [|by apply frame_evolves]. destruct Hq as (act & Hact & Hrq & Har).
  apply (advances_deref _ _ _ act); [done|]. apply advances_read. intros res1 Hres1. cbv zeta.
  destruct (rs_retired res1); [quiet|]. after. intros now a2 _ H2 F2. after. intros _ a3 _ H3 F3.
  assert (F13 : frame a1 a3) by (by etrans).
  assert (Hq3 : acquiring a3 q r request).
  { apply (evolves_acquiring [] a1); [by apply frame_evolves|by exists act]. }
  pose proof (fr_actions _ _ F13 q) as FA. rewrite Hact in FA.
  destruct (au_actionHeap a3 !! q) as [act3|] eqn:Hact3; [|done]. destruct FA as (EO & ER & EA).
  apply advances_read. intros res Hres. apply advances_reads; [apply held_reads|]. intros held _.
  destruct held; [quiet|]. apply advances_reads; [apply compatibleLocked_reads|]. intros ok Hok.
  destruct (negb (rs_busy res) && bool_decide (rs_queue res = []) && ok) eqn:Eg.
  - apply andb_true_iff in Eg as [[Eb%negb_true_iff _]%andb_true_iff ->].
    apply compatibleLocked_spec in Hok as [_ Hok]. destruct (Hok eq_refl) as (res' & Hr' & Hadm).
    rewrite Hres in Hr'. injection Hr' as <-.
    apply (grantLocked_advances a3 q act3 request r res); try done; [congruence|congruence|by rewrite EO|].
    rewrite (fr_watermark _ _ F13), (fr_watermark _ _ F1). done.
  - destruct (aq_Wait request =? 0); [quiet|]. apply advances_gets, advances_gets. apply advances_read. intros owner _.
    destruct (_ || _); [quiet|]. after. intros now2 a4 _ H4 F4. destruct (now2 <? _); cbn [negb]; [|quiet].
    after. intros _ a5 _ H5 F5. apply advances_bind; [grows| |intros _ a6 _ H6 _; quiet].
    apply upd_resource_advances; [done|done|]. cbn. intros x q0 [?|Hin]%elem_of_app; [by left|right]. apply list_elem_of_singleton in Hin as ->.
    apply (evolves_acquiring [] a3 a5) in Hq3; [|apply frame_evolves; by etrans].
    destruct Hq3 as (act5 & ? & _ & ?). eauto.
Qed.

Lemma worker_callback_advances a ctx_err request q r :
  lease_inv a → acquiring a q r request → aq_TTL request <= au_watermark a →
  advances a (worker_callback ctx_err q r).
Proof.
  intros HI Hq Httl. unfold worker_callback. after. intros [answer|] a1 _ H1 F1; [quiet|].
  apply (evolves_acquiring [] a a1) in Hq; [|by apply frame_evolves]. destruct Hq as (act & Hact & Hrq & Har).
  apply (advances_deref _ _ _ act); [done|]. apply advances_read. intros res1 Hres1.
  destruct (rs_retired res1); [quiet|]. after. intros now a2 _ H2 F2. after. intros _ a3 _ H3 F3.
  destruct (match ac_waitUntil act with Some _ => _ | None => _ end); [|quiet].
  assert (F13 : frame a1 a3) by (by etrans).
  pose proof (fr_actions _ _ F13 q) as FA. rewrite Hact in FA.
  destruct (au_actionHeap a3 !! q) as [act3|] eqn:Hact3; [|done]. destruct FA as (EO & ER & EA).
  apply advances_read. intros res Hres. apply (advances_deref _ _ _ request); [done|].
  apply advances_reads; [apply compatibleLocked_reads|]. intros ok Hok.
  destruct (bool_decide _ && negb (rs_busy res) && ok) eqn:Eg; [|quiet].
  apply andb_true_iff in Eg as [[_ Eb%negb_true_iff]%andb_true_iff ->].
  apply compatibleLocked_spec in Hok as [_ Hok]. destruct (Hok eq_refl) as (res' & Hr' & Hadm).
  rewrite Hres in Hr'. injection Hr' as <-.
  apply (grantLocked_advances a3 q act3 request r res); try done; [congruence|congruence|by rewrite EO|].
  rewrite (fr_watermark _ _ F13), (fr_watermark _ _ F1). done.
Qed.

Lemma renew_callback_advances a ctx_err request q g :
  lease_inv a → rn_TTL request <= au_watermark a →
  advances a (renew_callback ctx_err request q g).
Proof.
  intros HI Httl. unfold renew_callback. after. intros [answer|] a1 _ H1 F1; [quiet|].
  apply advances_read. intros act _. apply advances_read. intros grant0 _. after. intros now0 a2 _ H2 F2.
  after. intros _ a3 _ H3 F3. apply advances_read. intros grant Hg. apply advances_read. intros res _.
  destruct (rs_retired res || negb (bool_decide (gt_state grant = Active))) eqn:Es.
  { after. intros stale a4 [= <- <-] _ _. quiet. }
  apply orb_false_iff in Es as [_ Ea%negb_false_iff%bool_decide_eq_true].
  after. intros stale a4 _ H4 F4. destruct stale; [quiet|]. destruct (rs_busy res); [quiet|].
  assert (Hg4 : gt_deadline grant <= latest a4 + au_watermark a4).
  { transitivity (latest a3 + au_watermark a3); [by apply (li_deadline a3 H3 g)|].
    rewrite (fr_watermark _ _ F4). unfold latest. rewrite (fr_env _ _ F4).
    pose proof (latest_mono (au_env a3) _ _ (li_env a3 H3) (fr_reads _ _ F4)). lia. }
  apply (advances_core a4 (set_au_reads (S (au_reads a4)) a4) _ _ (ev_clock (au_env a4) (au_reads a4)));
    [done|done|split; cbn; try done; lia|grows|]. intros H5 _. cbv zeta.
  apply advances_bind; [grows| |intros _ a6 _ H6 _; quiet]. apply set_deadline_advances; [done|].
  cbn. assert (EW : au_watermark a4 = au_watermark a).
  { rewrite (fr_watermark _ _ F4), (fr_watermark _ _ F3), (fr_watermark _ _ F2). apply (fr_watermark _ _ F1). }
  pose proof (latest_mono (au_env a4) (au_reads a4) (S (au_reads a4)) (li_env a4 H4) ltac:(lia)).
  unfold latest in *. cbn in *. lia.
Qed.
