(* ===== verification/LockPublish.v ===== *)
(** * The lease authority: the watermark and publications

    [raise], and [Publish] before and after its transition: an admitted
    publication owns idle resources whose only grants are exclusive ones of its
    owner. *)

From S2P Require Import Prelude Errors Identity LockTokens LockState LockAuthority LockInv LockSections LockEvolve.

(** The first part of a computation. *)
Lemma keeps_run {X Y} a (m : A X) (k : X → A Y) y a' :
  lease_inv a → drawn a' → keeps m → (∀ x, grows (k x)) → bind m k a = Some (y, a') →
  ∃ x a1, m a = Some (x, a1) ∧ lease_inv a1 ∧ drawn a1 ∧ frame a a1 ∧ k x a1 = Some (y, a').
Proof.
  intros HI Hd Hm Hg. unfold bind. destruct (m a) as [[x a1]|] eqn:E; [|done]. intros Ek.
  pose proof (grown_drawn _ _ (Hg x a1 y a' Ek) Hd) as Hd1.
  destruct (keeps_inv m a x a1 Hm HI Hd1 E) as [H1 F1]. by exists x, a1.
Qed.

Ltac running := first [done | solve [keeps] | solve [grows]].

(** ** The watermark *)

(** [raise] succeeds with a watermark that covers the lease. *)
Lemma raise_spec a ctx_err ttl persist x a' :
  lease_inv a → drawn a' → raise ctx_err ttl persist a = Some (x, a') →
  ∃ a1, lease_inv a1 ∧ frame a a1
    ∧ (a' = a1 ∧ (x = None → ttl <= au_watermark a1)
       ∨ a' = set_au_watermark ttl a1 ∧ au_watermark a1 < ttl ∧ persist = None).
Proof.
  intros HI Hd E. unfold raise in E.
  apply keeps_run in E as (err & a1 & _ & H1 & _ & F1 & Er); [|running..]. exists a1. split_and!; [done..|].
  destruct err as [err|]; [injection Er as <- <-; by left|]. unfold bind at 1, gets in Er.
  destruct (ttl <=? au_watermark a1) eqn:Ettl; [injection Er as <- <-; left; split; [done|lia]|].
  destruct persist as [err|]; [injection Er as <- <-; by left|]. injection Er as <- <-. right. split_and!; [done|lia|done].
Qed.

Lemma watermark_inv a ttl : lease_inv a → au_watermark a <= ttl → lease_inv (set_au_watermark ttl a).
Proof.
  intros HI Hw. destruct HI. split; try done. cbn. intros g gr Hg Ha.
  pose proof (li_deadline g gr Hg Ha). unfold latest in *. cbn. lia.
Qed.

(** ** Busy resources *)

Definition same_but_busy (o o' : option resourceRecord) : Prop :=
  match o, o' with
  | Some r, Some r' =>
      rs_id r' = rs_id r ∧ rs_key r' = rs_key r ∧ rs_grants r' = rs_grants r ∧ rs_queue r' = rs_queue r
  | None, None => True
  | _, _ => False
  end.

Lemma busy_inv a h :
  lease_inv a → (∀ k, same_but_busy (au_resourceHeap a !! k) (h !! k)) → lease_inv (set_au_resourceHeap h a).
Proof.
  intros HI Hh.
  assert (HL : ∀ k res', h !! k = Some res' → ∃ res, au_resourceHeap a !! k = Some res
            ∧ rs_id res' = rs_id res ∧ rs_grants res' = rs_grants res ∧ rs_queue res' = rs_queue res).
  { intros k res' Hk. specialize (Hh k). rewrite Hk in Hh. destruct (au_resourceHeap a !! k); cbn in Hh; naive_solver. }
  assert (HR : ∀ k res, au_resourceHeap a !! k = Some res → ∃ res', h !! k = Some res'
            ∧ rs_id res' = rs_id res ∧ rs_grants res' = rs_grants res).
  { intros k res Hk. specialize (Hh k). rewrite Hk in Hh. destruct (h !! k); cbn in Hh; naive_solver. }
  split; try apply HI; cbn.
  - intros k res' (res & H1 & -> & _)%HL. by apply (li_resource_ids a HI k).
  - intros k k' res' res1' (res & H1 & -> & _)%HL (res1 & H2 & -> & _)%HL. by apply (li_resource_inj a HI).
  - intros g gr Hg. destruct (li_grant_resource a HI g gr Hg) as (res & H1 & ->).
    destruct (HR _ _ H1) as (res' & H2 & H3 & _). eauto.
  - intros g gr Hg Ha. destruct (li_listed a HI g gr Hg Ha) as (res & H1 & H2).
    destruct (HR _ _ H1) as (res' & H3 & _ & E). exists res'. by rewrite E.
  - intros k res' id0 g (res & H1 & _ & -> & _)%HL. by apply (li_entries a HI k).
  - intros k res' id1 id2 g1 g2 gr1 gr2 (res & H1 & _ & -> & _)%HL. by apply (li_exclusion a HI k).
  - intros k res' q (res & H1 & _ & _ & ->)%HL. by apply (li_queue a HI k).
Qed.

Lemma iter_set_busy b rs a x a' :
  iter (set_busy b) rs a = Some (x, a') →
  ∃ h, a' = set_au_resourceHeap h a ∧ (∀ k, same_but_busy (au_resourceHeap a !! k) (h !! k))
       ∧ (∀ k res res', au_resourceHeap a !! k = Some res → h !! k = Some res' →
            rs_busy res' = if bool_decide (k ∈ rs) then b else rs_busy res).
Proof.
  revert a. induction rs as [|r rs IH]; intros a; cbn [iter].
  - intros [= _ <-]. exists (au_resourceHeap a). split_and!; [by destruct a| |].
    + intros k. by destruct (au_resourceHeap a !! k).
    + intros k res res' H1 H2. rewrite bool_decide_eq_false_2 by set_solver. congruence.
  - unfold bind at 1. unfold set_busy at 1, upd_resource, modify.
    intros (h & -> & Hs & Hb)%IH. cbn in Hs, Hb. exists h. split_and!; [done| |].
    + intros k. specialize (Hs k). destruct (decide (k = r)) as [->|].
      * rewrite lookup_alter_eq in Hs. by destruct (au_resourceHeap a !! r).
      * by rewrite lookup_alter_ne in Hs.
    + intros k res res' H1 H2. destruct (decide (k = r)) as [->|Hne].
      * rewrite (Hb r (set_rs_busy b res) res'); [|by rewrite lookup_alter_eq, H1|done].
        rewrite (bool_decide_eq_true_2 (r ∈ r :: rs)) by set_solver. by case_bool_decide.
      * rewrite (Hb k res res'); [|by rewrite lookup_alter_ne|done].
        destruct (decide (k ∈ rs)) as [Hin|Hin]; [rewrite !bool_decide_eq_true_2|rewrite !bool_decide_eq_false_2];
          set_solver.
Qed.

Lemma set_busy_evolves a h rs b :
  (∀ k, same_but_busy (au_resourceHeap a !! k) (h !! k)) →
  (∀ k res res', au_resourceHeap a !! k = Some res → h !! k = Some res' →
     rs_busy res' = if bool_decide (k ∈ rs) then b else rs_busy res) →
  evolves rs a (set_au_resourceHeap h a).
Proof.
  intros Hs Hb. split; cbn; [done|..]; [|intros g gr Hg; by exists gr|intros q act Hq; by exists act].
  intros r res Hr. specialize (Hs r). specialize (Hb r). rewrite Hr in Hs, Hb.
  destruct (h !! r) as [res'|]; [|done]. exists res'. split; [done|]. intros Hn.
  rewrite (Hb res res' eq_refl eq_refl). rewrite bool_decide_eq_false_2 by done.
  destruct Hs as (_ & _ & -> & _). done.
Qed.

(** ** Admission *)

Definition idle (a : Authority) (r : nat) : Prop :=
  ∃ res, au_resourceHeap a !! r = Some res ∧ rs_busy res = false.

Lemma frame_idle a a' r : frame a a' → idle a r → idle a' r.
Proof.
  intros F (res & H1 & H2). pose proof (fr_resources _ _ F r) as FR. rewrite H1 in FR. unfold idle.
  destruct (au_resourceHeap a' !! r) as [res'|]; [|done]. exists res'. split; [done|].
  destruct FR as (_ & _ & -> & _). done.
Qed.

Lemma keeps_publish_target key : keeps (publish_target key).
Proof. unfold publish_target. keeps. Qed.
#[export] Hint Resolve keeps_publish_target : keeps.

Lemma keeps_publish_targets targets keys : keeps (publish_targets keys targets).
Proof. revert keys. induction targets; intros keys; cbn [publish_targets]; keeps; apply IHtargets. Qed.
#[export] Hint Resolve keeps_publish_targets : keeps.

Lemma publish_target_idle key a rs a' :
  lease_inv a → drawn a' → publish_target key a = Some (Ok rs, a') → ∀ r, r ∈ rs → idle a' r.
Proof.
  intros HI Hd E. destruct (keeps_inv _ a (Ok rs) a' (keeps_publish_target key) HI Hd E) as [_ F].
  unfold publish_target in E. unfold bind at 1, gets in E. destruct (au_keys a !! key) as [r0|].
  2: { injection E as <- _. set_solver. }
  unfold bind at 1, get_resource, deref in E. destruct (au_resourceHeap a !! r0) as [res|] eqn:Er; [|done].
  destruct (rs_busy res) eqn:Eb; [done|]. unfold bind in E. destruct (clock_now a) as [[now a0]|]; [|done].
  destruct (expireGrantsLocked r0 now a0) as [[? ?]|]; [|done]. injection E as <- <-.
  intros r ->%list_elem_of_singleton. apply (frame_idle a); [done|]. by exists res.
Qed.

(** The resources among the targets were idle. *)
Lemma publish_targets_idle targets keys a keys' rs a' :
  lease_inv a → drawn a' → publish_targets keys targets a = Some (Ok (keys', rs), a') → ∀ r, r ∈ rs → idle a' r.
Proof.
  revert keys a keys' rs. induction targets as [|key targets IH]; intros keys a keys' rs HI Hd; cbn [publish_targets].
  { intros [= _ <- _]. set_solver. }
  destruct (String.eqb key EmptyString); [done|]. case_bool_decide; [by apply IH|].
  intros ([taken|err] & a1 & E & H1 & D1 & _ & E1)%keeps_run; [|done|running..].
  apply keeps_run in E1 as ([[keys2 rs2]|err] & a2 & E2 & H2 & D2 & F2 & E1); [|done|running..].
  injection E1 as <- <- <-. intros r [Hr|Hr]%elem_of_app.
  - apply (frame_idle a1); [done|]. by apply (publish_target_idle key a taken).
  - by apply (IH _ _ _ _ H1 D2 E2).
Qed.

(** What a proof establishes: the grant is on the named resource, and when it
    is exclusive nothing else is held there. *)
Definition proof_ok (a : Authority) (rid : ResourceID) (g : nat) : Prop :=
  ∃ gr, au_grantHeap a !! g = Some gr ∧ gf_Resource (gt_ref gr) = rid
    ∧ (gt_mode gr = Exclusive → ∀ res id k, au_resourceHeap a !! gt_resource gr = Some res →
         rs_grants res !! id = Some k → k = g).

Lemma frame_proof_ok a a' rid g : lease_inv a → frame a a' → proof_ok a rid g → proof_ok a' rid g.
Proof.
  intros HI F (gr & H1 & H2 & H3). pose proof (fr_grants _ _ F g) as FG. rewrite H1 in FG. unfold proof_ok.
  destruct (au_grantHeap a' !! g) as [gr'|]; [|done]. destruct FG as (_ & ER & EF & EM & _).
  exists gr'. split_and!; [done|congruence|]. rewrite EM, ER. intros Hm res' id k Hr Hk.
  destruct (li_grant_resource a HI g gr H1) as (res & Hres & _).
  pose proof (fr_resources _ _ F (gt_resource gr)) as FR. rewrite Hres, Hr in FR. destruct FR as (_ & _ & _ & Hsub & _).
  apply (H3 Hm res id k Hres). by eapply lookup_weaken.
Qed.

Lemma active_proof_ok a g gr : lease_inv a → au_grantHeap a !! g = Some gr → gt_state gr = Active →
  proof_ok a (gf_Resource (gt_ref gr)) g.
Proof.
  intros HI Hg Ha. exists gr. split_and!; [done..|]. intros Hm res id k Hr Hk.
  destruct (li_listed a HI g gr Hg Ha) as (res' & Hr' & Hid). rewrite Hr in Hr'. injection Hr' as <-.
  destruct (decide (k = g)) as [|Hne]; [done|]. destruct (li_entries a HI _ res id k Hr Hk) as (grk & Hgk & _).
  destruct (li_exclusion a HI _ res _ _ k g grk gr Hr Hk Hid Hne Hgk Hg) as (_ & Hx & _). done.
Qed.

Lemma keeps_proof_stale grant resource : keeps (proof_stale grant resource).
Proof. unfold proof_stale. keeps. Qed.
#[export] Hint Resolve keeps_proof_stale : keeps.

Lemma keeps_publish_proofs owner keys proofs grants : keeps (publish_proofs owner keys proofs grants).
Proof. revert proofs. induction grants; intros proofs; cbn [publish_proofs]; keeps; apply IHgrants. Qed.
#[export] Hint Resolve keeps_publish_proofs : keeps.

(** [grantLockedForOwner] finds the grant with the given reference. *)
Lemma grantLockedForOwner_ref o ref a g a' :
  lease_inv a → drawn a' → grantLockedForOwner o ref a = Some (Ok g, a') →
  ∃ gr, au_grantHeap a' !! g = Some gr ∧ gt_ref gr = ref.
Proof.
  intros HI Hd E. pose proof (keeps_inv _ a _ a' (keeps_grantLockedForOwner o ref) HI Hd E) as [_ F].
  unfold grantLockedForOwner in E. unfold bind at 1, get_owner, deref in E.
  destruct (au_ownerHeap a !! o) as [owner|]; [|done]. unfold bind at 1, verify_token, gets in E.
  destruct (verify _ _ _ _); [|done]. destruct (ow_grants owner !! gf_ID ref) as [g0|]; [|done].
  unfold bind at 1, get_grant, deref in E. destruct (au_grantHeap a !! g0) as [gr|] eqn:Eg; [|done].
  case_bool_decide as Href; [|done]. cbn [negb] in E. unfold bind in E.
  destruct (clock_now a) as [[now a1]|]; [|done]. destruct (expireGrantsLocked _ _ a1) as [[[] a2]|]; [|done].
  injection E as <- <-. pose proof (fr_grants _ _ F g0) as FG. rewrite Eg in FG.
  destruct (au_grantHeap a2 !! g0) as [gr'|]; [|done]. exists gr'. split; [done|].
  destruct FG as (_ & _ & -> & _). done.
Qed.

Lemma publish_proofs_ok owner keys grants proofs a proofs' a' :
  lease_inv a → drawn a' → map_Forall (proof_ok a) proofs →
  publish_proofs owner keys proofs grants a = Some (Ok proofs', a') → map_Forall (proof_ok a') proofs'.
Proof.
  revert proofs a. induction grants as [|proof grants IH]; intros proofs a HI Hd Hp; cbn [publish_proofs].
  { by intros [= <- <-]. }
  unfold bind at 1, deref. destruct owner as [o|]; [|done].
  intros ([g|err] & a1 & E1 & H1 & D1 & F1 & E)%keeps_run; [|done|running..].
  destruct (grantLockedForOwner_ref o proof a g a1 HI D1 E1) as (gr & Hg & Href). revert E.
  unfold bind at 1, get_grant, deref. rewrite Hg. unfold bind at 1, get_resource, deref.
  destruct (au_resourceHeap a1 !! gt_resource gr) as [res|]; [|done].
  intros (stale & a2 & E2 & H2 & D2 & F2 & E)%keeps_run; [|running..]. destruct stale; [done|].
  assert (Ha : gt_state gr = Active).
  { destruct (decide (gt_state gr = Active)) as [|Hn]; [done|]. unfold proof_stale in E2.
    by rewrite bool_decide_eq_false_2 in E2. }
  revert E. case_bool_decide; [cbn [negb]|done].
  apply IH; [done|done|]. apply map_Forall_insert_2.
  - rewrite <- Href. apply (frame_proof_ok a1); [done..|]. by apply active_proof_ok.
  - intros rid k Hk'. apply (frame_proof_ok a1); [done..|]. apply (frame_proof_ok a); [done..|]. by apply Hp.
Qed.

(** A resource that a publication owns: only exclusive grants of its owner are
    held there. *)
Definition owned (a : Authority) (owner : option nat) (r : nat) : Prop :=
  ∃ res, au_resourceHeap a !! r = Some res ∧ rs_busy res = true
    ∧ ∀ id g gr, rs_grants res !! id = Some g → au_grantHeap a !! g = Some gr →
        Some (gt_owner gr) = owner ∧ gt_mode gr = Exclusive.

Definition not_busy (a : Authority) (r : nat) : Prop :=
  ∀ res, au_resourceHeap a !! r = Some res → rs_busy res = false.

Lemma frame_not_busy a a' r : frame a a' → idle a' r → not_busy a r.
Proof.
  intros F (res' & H1 & H2) res Hr. pose proof (fr_resources _ _ F r) as FR. rewrite Hr, H1 in FR.
  destruct FR as (_ & _ & <- & _). done.
Qed.

Lemma unprotected_reads owner proofs r : reads (unprotected owner proofs r).
Proof.
  intros a x a'. unfold unprotected, bind at 1, get_resource, deref. destruct (au_resourceHeap a !! r) as [res|]; [|done].
  case_bool_decide; [by intros [= _ <-]|]. destruct (proofs !! rs_id res); [apply reads_grant|by intros [= _ <-]].
Qed.

Lemma proof_expired_reads admission g : reads (proof_expired admission g).
Proof. apply (reads_grant g (λ grant, negb (admission <? gt_deadline grant))). Qed.

(** A protected resource is held by nobody, or by the owner exclusively. *)
Lemma protected_owned a owner proofs r res :
  lease_inv a → map_Forall (proof_ok a) proofs → unprotected owner proofs r a = Some (false, a) →
  au_resourceHeap a !! r = Some res →
  ∀ id g gr, rs_grants res !! id = Some g → au_grantHeap a !! g = Some gr →
    Some (gt_owner gr) = owner ∧ gt_mode gr = Exclusive.
Proof.
  intros HI Hp E Hr id g gr Hid Hg. unfold unprotected, bind at 1, get_resource, deref in E. rewrite Hr in E.
  case_bool_decide as Hemp; [by rewrite Hemp, lookup_empty in Hid|].
  destruct (proofs !! rs_id res) as [k|] eqn:Ek; [|done]. destruct (Hp _ _ Ek) as (grk & Hk & Hrid & Hall).
  unfold bind, get_grant, deref in E. rewrite Hk in E. injection E as E.
  apply orb_false_iff in E as [Eo%negb_false_iff%bool_decide_eq_true Em%negb_false_iff%bool_decide_eq_true].
  destruct (li_grant_resource a HI k grk Hk) as (resk & Hresk & Hidk).
  assert (Er : gt_resource grk = r) by (apply (li_resource_inj a HI _ _ resk res); congruence).
  rewrite Er in Hall. pose proof (Hall Em res id g Hr Hid) as ->. simplify_eq. done.
Qed.

(** The end of an admission. *)
Lemma own_resources a owner keys proofs rs x a' :
  lease_inv a → drawn a' → map_Forall (proof_ok a) proofs → (∀ r, r ∈ rs → idle a r) →
  (∀ r, r ∈ rs → unprotected owner proofs r a = Some (false, a)) →
  publish_own owner rs keys a = Some (x, a') →
  x = Ok (owner, rs, keys) ∧ lease_inv a' ∧ evolves rs a a' ∧ ∀ r, r ∈ rs → owned a' owner r.
Proof.
  intros HI Hd Hp Hidle Hu. unfold publish_own, bind at 1. destruct (iter (set_busy true) rs a) as [[[] a1]|] eqn:E; [|done].
  apply iter_set_busy in E as (h & -> & Hs & Hb). intros [= <- <-]. 
  pose proof (busy_inv a h HI Hs) as H1. pose proof (set_busy_evolves a h rs true Hs Hb) as V1.
  match goal with |- context [lease_inv ?b] => assert (S2 : same_core (set_au_resourceHeap h a) b) by (by split) end.
  destruct (same_core_keeps _ _ H1 Hd S2) as [H2 F2]. split_and!; [done|done|..].
  { etrans; [done|]. by apply evolves_weaken, frame_evolves. }
  intros r Hr. destruct (Hidle r Hr) as (res & Hres & _). pose proof (Hs r) as Hsr. rewrite Hres in Hsr.
  destruct (h !! r) as [res'|] eqn:Eh; [|done]. exists res'. split; [done|]. split.
  - rewrite (Hb r res res' Hres Eh). by rewrite bool_decide_eq_true_2.
  - destruct Hsr as (_ & _ & -> & _). cbn. by apply (protected_owned a owner proofs r res HI Hp (Hu r Hr) Hres).
Qed.

Definition admitted_post (a a' : Authority) (x : result (option nat * list nat * list BackendKey)) : Prop :=
  lease_inv a' ∧
  match x with
  | Err _ => evolves [] a a'
  | Ok (owner, rs, _) =>
      evolves rs a a' ∧ (∀ r, r ∈ rs → not_busy a r) ∧ ∀ r, r ∈ rs → owned a' owner r
  end.

Lemma admitted_post_frame a a1 a' x : frame a a1 → admitted_post a1 a' x → admitted_post a a' x.
Proof.
  intros F [HI Hx]. split; [done|]. pose proof (frame_evolves _ _ F) as V.
  destruct x as [[[owner rs] keys]|err]; [|by etrans]. destruct Hx as (V' & Hb & Ho).
  split_and!; [etrans; [by apply evolves_weaken|done]|..|done]. intros r Hr res Hres.
  destruct (vo_resources _ _ _ V r res Hres) as (res1 & H1 & H2). destruct H2 as [<- _]; [set_solver|].
  by apply (Hb r Hr).
Qed.

Lemma admitted_err a err : lease_inv a → admitted_post a a (Err err).
Proof. intros HI. split; [done|]. by apply frame_evolves. Qed.

Lemma grows_set_busy b rs : grows (iter (set_busy b) rs).
Proof. by intros a x a' (h & -> & _)%iter_set_busy. Qed.
#[export] Hint Resolve grows_set_busy : grows.

Lemma grows_publish_own owner rs keys : grows (publish_own owner rs keys).
Proof. unfold publish_own. grows. Qed.
#[export] Hint Resolve grows_publish_own : grows.

Lemma publish_protect_spec owner rs keys proofs a x a' :
  lease_inv a → drawn a' → map_Forall (proof_ok a) proofs → (∀ r, r ∈ rs → idle a r) →
  publish_protect owner rs keys proofs a = Some (x, a') → admitted_post a a' x.
Proof.
  intros HI Hd Hp Hidle. unfold publish_protect, bind at 1.
  destruct (exists_in (unprotected owner proofs) rs a) as [[refused a1]|] eqn:E1; [|done].
  apply exists_in_reads in E1 as [-> Hu]; [|apply unprotected_reads].
  destruct refused; [intros [= <- <-]; by apply admitted_err|]. specialize (Hu eq_refl).
  set (a1 := set_au_reads (S (au_reads a)) a). unfold bind at 1, clock_now. fold a1.
  unfold bind. destruct (exists_in (proof_expired _) _ a1) as [[expired a2]|] eqn:E2; [|done].
  apply exists_in_reads in E2 as [-> _]; [|apply proof_expired_reads]. intros E.
  assert (S1 : same_core a a1) by (split; cbn; try done; lia).
  assert (D1 : drawn a1).
  { refine (grown_drawn _ _ _ Hd). destruct expired; [by injection E as <- <-|].
    by apply (grows_publish_own _ _ _ _ _ _ E). }
  destruct (same_core_keeps a a1 HI D1 S1) as [H1 F1].
  apply (admitted_post_frame a a1); [done|]. destruct expired; [injection E as <- <-; by apply admitted_err|].
  assert (Hidle1 : ∀ r, r ∈ rs → idle a1 r) by (intros r Hr; apply (frame_idle a); [done|by apply Hidle]).
  apply own_resources with (proofs := proofs) in E as (-> & H2 & V2 & Ho); [|done|done|done|done|].
  - split; [done|]. split_and!; [done| |done]. intros r Hr. by apply (frame_not_busy a1 a1); [|apply Hidle1].
  - intros r Hr. specialize (Hu r Hr). revert Hu. unfold unprotected, bind, get_resource, get_grant, deref. cbv beta.
    change (au_resourceHeap a1) with (au_resourceHeap a). change (au_grantHeap a1) with (au_grantHeap a).
    destruct (au_resourceHeap a !! r) as [res|]; [|done]. case_bool_decide; [done|].
    destruct (proofs !! rs_id res) as [k|]; [|done]. cbv beta iota. change (au_grantHeap a1) with (au_grantHeap a).
    destruct (au_grantHeap a !! k); [|done]. by intros [= ->].
Qed.

Lemma keeps_publish_owner scope : keeps (publish_owner scope).
Proof. unfold publish_owner. keeps. Qed.
#[export] Hint Resolve keeps_publish_owner : keeps.

Lemma grows_publish_protect owner rs keys proofs : grows (publish_protect owner rs keys proofs).
Proof.
  unfold publish_protect. apply grows_bind.
  { by intros a x a' [-> _]%exists_in_reads; [|apply unprotected_reads]. }
  grows. by intros ? ? ? [-> _]%exists_in_reads; [|apply proof_expired_reads].
Qed.
#[export] Hint Resolve grows_publish_protect : grows.

Ltac run E :=
  let H := fresh "H" in let D := fresh "D" in let F := fresh "F" in
  apply keeps_run in E as (? & ? & ? & H & D & F & E); [|running..];
  apply (admitted_post_frame _ _ _ _ F).

Lemma publish_admit_spec ctx_err p a x a' :
  lease_inv a → drawn a' → publish_admit ctx_err p a = Some (x, a') → admitted_post a a' x.
Proof.
  intros HI Hd E. unfold publish_admit in E.
  destruct (2 <? zlen (pu_Targets p)); [injection E as <- <-; by apply admitted_err|].
  destruct (negb (known_kind (pu_Kind p))); [injection E as <- <-; by apply admitted_err|]. run E.
  destruct (ValidateScope _ _); [injection E as <- <-; by apply admitted_err|]. run E.
  match type of E with context [match ?err with Some _ => _ | None => _ end] => destruct err end;
    [injection E as <- <-; by apply admitted_err|]. run E. run E. run E.
  match type of E with context [match ?o with Ok _ => _ | Err _ => _ end] => destruct o as [owner|err] end;
    [|injection E as <- <-; by apply admitted_err].
  apply keeps_run in E as ([[keys rs]|err] & a1 & Ea & Ha & Da & Fa & E); [| |running..];
    apply (admitted_post_frame _ _ _ _ Fa); [|injection E as <- <-; by apply admitted_err].
  assert (Hidle : ∀ r, r ∈ rs → idle a1 r) by (eapply publish_targets_idle; [| |exact Ea]; done).
  apply keeps_run in E as ([proofs|err] & a2 & Eb & Hb & Db & Fb & E); [| |running..];
    apply (admitted_post_frame _ _ _ _ Fb); [|injection E as <- <-; by apply admitted_err].
  apply publish_proofs_ok in Eb; [|done|done|apply map_Forall_empty].
  apply publish_protect_spec in E; [done..|]. intros r Hr. by apply (frame_idle a1); [|apply Hidle].
Qed.

(** ** Completion *)

Lemma completePublication_spec rs targets outcome a x a' :
  lease_inv a → drawn a' → completePublication rs targets outcome a = Some (x, a') →
  lease_inv a' ∧ evolves rs a a'.
Proof.
  intros HI Hd E. unfold completePublication in E. cbv zeta in E.
  apply keeps_run in E as (err & a1 & _ & H1 & D1 & F1 & E); [|running..].
  unfold bind at 1 in E. destruct (iter (set_busy false) rs a1) as [[[] a2]|] eqn:E2; [|done].
  apply iter_set_busy in E2 as (h & -> & Hs & Hb). injection E as <- <-.
  pose proof (busy_inv a1 h H1 Hs) as H2. pose proof (set_busy_evolves a1 h rs false Hs Hb) as V2.
  match goal with |- context [lease_inv ?b] => assert (S3 : same_core (set_au_resourceHeap h a1) b) by (by split) end.
  destruct (same_core_keeps _ _ H2 Hd S3) as [H3 F3]. split; [done|].
  etrans; [by apply evolves_weaken, frame_evolves|]. etrans; [done|]. by apply evolves_weaken, frame_evolves.
Qed.
