(* ===== verification/LockSteps.v ===== *)
(** * The lease authority: interleavings

    The authority with the calls in progress.  A call holds the mutex in its
    critical sections only: [Acquire] and [Renew] and the workers release it to
    persist the lease bound and to enter the backend, [Publish] to run its
    transition.  Any section of any other call may run in between. *)

From stdpp Require Import relations.
From S2P Require Import Prelude Errors Identity LockTokens LockState LockAuthority LockInv LockSections LockEvolve LockPublish.

(** The sections of calls that keep nothing across them. *)
Inductive operation :=
| OpBeginEnrollment (ctx_err : option error)
| OpOpenSession (ctx_err : option error) (ticket : EnrollmentTicket)
| OpCreateOwner (ctx_err : option error) (id : SessionID) (request : RequestID)
| OpRetireOwner (ctx_err : option error) (ref : OwnerRef)
| OpCloseSession (ctx_err : option error) (id : SessionID)
| OpResolve (ctx_err : option error) (ref : OwnerRef)
| OpDiscovered (ctx_err : option error) (ref : OwnerRef) (key : BackendKey)
| OpQueryAction (ctx_err : option error) (ref : OwnerRef) (request : RequestID)
| OpQueryGrant (ctx_err : option error) (ref : OwnerRef) (grant : GrantRef)
| OpRelease (ctx_err : option error) (ref : OwnerRef) (grant : GrantRef)
| OpCancel (ctx_err : option error) (ref : OwnerRef) (request : RequestID)
| OpBeginNative (ctx_err : option error)
| OpFinishNative
| OpMaintain
| OpForgotten (r : nat) (err : option error)
| OpWorkerExit (r : nat)
| OpFence (err : option error)
| OpStatus (ctx_err : option error)
| OpCloseBegin
| OpCloseDrop
| OpCloseEnd (errs : list (option error)).

Definition run_operation (op : operation) : A unit :=
  match op with
  | OpBeginEnrollment ctx_err => do! BeginEnrollment ctx_err in ret tt
  | OpOpenSession ctx_err ticket => do! OpenSession ctx_err ticket in ret tt
  | OpCreateOwner ctx_err id request => do! CreateOwner ctx_err id request in ret tt
  | OpRetireOwner ctx_err ref => do! RetireOwner ctx_err ref in ret tt
  | OpCloseSession ctx_err id => do! CloseSession ctx_err id in ret tt
  | OpResolve ctx_err ref => do! resolve_check ctx_err ref in ret tt
  | OpDiscovered ctx_err ref key => do! resolve_callback ctx_err ref key in ret tt
  | OpQueryAction ctx_err ref request => do! QueryAction ctx_err ref request in ret tt
  | OpQueryGrant ctx_err ref grant => do! QueryGrant ctx_err ref grant in ret tt
  | OpRelease ctx_err ref grant => do! Release ctx_err ref grant in ret tt
  | OpCancel ctx_err ref request => do! Cancel ctx_err ref request in ret tt
  | OpBeginNative ctx_err => do! beginNative ctx_err in ret tt
  | OpFinishNative => finish_native
  | OpMaintain => do! maintain_sweep in ret tt
  | OpForgotten r err => forget_done r err
  | OpWorkerExit r => worker_exit r
  | OpFence err => Fence err
  | OpStatus ctx_err => do! Authority_Status ctx_err in ret tt
  | OpCloseBegin => do! close_begin in ret tt
  | OpCloseDrop => do! close_drop in ret tt
  | OpCloseEnd errs => do! close_end errs in ret tt
  end.

(** The calls that hold an action across sections. *)
Inductive task :=
| Acquiring (request : AcquireRequest) (started : Z)
| Renewing (request : RenewRequest) (g : nat)
| Serving (request : AcquireRequest).

Definition task_ttl (t : task) : Z :=
  match t with
  | Acquiring request _ | Serving request => aq_TTL request
  | Renewing request _ => rn_TTL request
  end.

(** Before [raise], after it has failed, between it and the backend's callback,
    and after the callback. *)
Inductive stage := Begun | Failed (err : error) | Raised | Returned.

Inductive call :=
| ActionCall (t : task) (q r : nat) (s : stage)
| PublishCall (owner : option nat) (resources : list nat) (targets : list BackendKey).

Definition callback (t : task) (ctx_err : option error) (q r : nat) : A (option error) :=
  match t with
  | Acquiring request started => acquire_callback ctx_err request q r started
  | Renewing request g => renew_callback ctx_err request q g
  | Serving _ => worker_callback ctx_err q r
  end.

(** The errors a call may end its action with: the one of [raise], or the
    backend's. *)
Definition ends_with (s : stage) (err : option error) : Prop :=
  match s with
  | Begun => False
  | Failed e => err = Some e
  | Raised | Returned => True
  end.

Record world := { wo_authority : Authority; wo_persisted : Z; wo_calls : gmap nat call }.

(** The action a first section admits, and its task. *)
Inductive admits : Authority → task → nat → nat → Authority → Prop :=
| admits_acquire a ctx_err request q r started act a' :
    acquire_admit ctx_err request a = Some (Admits q started, a') →
    au_actionHeap a' !! q = Some act → ac_resource act = Some r →
    admits a (Acquiring request started) q r a'
| admits_renew a ctx_err request q r g started act a' :
    renew_admit ctx_err request a = Some (Admits q started, a') →
    au_actionHeap a' !! q = Some act → ac_resource act = Some r → ac_grant act = Some g →
    admits a (Renewing request g) q r a'
| admits_worker a q r act request a' :
    worker_pick r a = Some (WorkerTries q, a') →
    au_actionHeap a' !! q = Some act → rp_Acquire (ac_receipt act) = Some request →
    admits a (Serving request) q r a'.

(** The first sections that end their call. *)
Inductive answers : Authority → Authority → Prop :=
| answers_acquire a ctx_err request x a' :
    acquire_admit ctx_err request a = Some (x, a') → (∀ q s, x ≠ Admits q s) → answers a a'
| answers_renew a ctx_err request x a' :
    renew_admit ctx_err request a = Some (x, a') → (∀ q s, x ≠ Admits q s) → answers a a'
| answers_worker a r x a' :
    worker_pick r a = Some (x, a') → (∀ q, x ≠ WorkerTries q) → answers a a'
| answers_publish a ctx_err p err a' :
    publish_admit ctx_err p a = Some (Err err, a') → answers a a'.

(** [RaiseMaxLease] never lowers what is persisted, and covers the bound when
    it succeeds. *)
Definition persists (ttl : Z) (persist : option error) (before after : Z) : Prop :=
  before <= after ∧ (persist = None → ttl <= after).

Inductive step : world → world → Prop :=
| step_operation a p calls op x a' :
    run_operation op a = Some (x, a') →
    step {| wo_authority := a; wo_persisted := p; wo_calls := calls |}
         {| wo_authority := a'; wo_persisted := p; wo_calls := calls |}
| step_answer a p calls a' :
    answers a a' →
    step {| wo_authority := a; wo_persisted := p; wo_calls := calls |}
         {| wo_authority := a'; wo_persisted := p; wo_calls := calls |}
| step_admit a p calls t q r a' c :
    admits a t q r a' → calls !! c = None →
    step {| wo_authority := a; wo_persisted := p; wo_calls := calls |}
         {| wo_authority := a'; wo_persisted := p; wo_calls := <[c := ActionCall t q r Begun]> calls |}
| step_raise a p calls c t q r ctx_err persist x a' p' :
    calls !! c = Some (ActionCall t q r Begun) →
    raise ctx_err (task_ttl t) persist a = Some (x, a') → persists (task_ttl t) persist p p' →
    step {| wo_authority := a; wo_persisted := p; wo_calls := calls |}
         {| wo_authority := a'; wo_persisted := p';
            wo_calls := <[c := ActionCall t q r (match x with None => Raised | Some err => Failed err end)]> calls |}
| step_callback a p calls c t q r ctx_err x a' :
    calls !! c = Some (ActionCall t q r Raised) →
    callback t ctx_err q r a = Some (x, a') →
    step {| wo_authority := a; wo_persisted := p; wo_calls := calls |}
         {| wo_authority := a'; wo_persisted := p; wo_calls := <[c := ActionCall t q r Returned]> calls |}
| step_finish a p calls c t q r s err x a' :
    calls !! c = Some (ActionCall t q r s) → ends_with s err →
    finish_action q r err a = Some (x, a') →
    step {| wo_authority := a; wo_persisted := p; wo_calls := calls |}
         {| wo_authority := a'; wo_persisted := p; wo_calls := delete c calls |}
| step_publish a p calls c ctx_err pub owner resources keys a' :
    publish_admit ctx_err pub a = Some (Ok (owner, resources, keys), a') → calls !! c = None →
    step {| wo_authority := a; wo_persisted := p; wo_calls := calls |}
         {| wo_authority := a'; wo_persisted := p; wo_calls := <[c := PublishCall owner resources keys]> calls |}
| step_complete a p calls c owner resources keys outcome x a' :
    calls !! c = Some (PublishCall owner resources keys) →
    completePublication resources keys outcome a = Some (x, a') →
    step {| wo_authority := a; wo_persisted := p; wo_calls := calls |}
         {| wo_authority := a'; wo_persisted := p; wo_calls := delete c calls |}.

(** A world just after [New]. *)
Inductive started : world → Prop :=
| started_new o watermark start i clock nonce a :
    New o (Ok watermark) start i clock nonce = Ok a →
    started {| wo_authority := a; wo_persisted := watermark; wo_calls := ∅ |}.

(** A world reached without drawing a nonce twice. *)
Definition reachable (w : world) : Prop :=
  ∃ w0, started w0 ∧ env_ok (au_env (wo_authority w0)) ∧ rtc step w0 w ∧ drawn (wo_authority w).

(** ** The invariant *)

Definition call_ok (a : Authority) (c : call) : Prop :=
  match c with
  | ActionCall t q r s =>
      (s = Raised → task_ttl t <= au_watermark a)
      ∧ match t with
        | Acquiring request _ | Serving request => acquiring a q r request
        | Renewing _ _ => True
        end
  | PublishCall owner resources _ => ∀ r, r ∈ resources → owned a owner r
  end.

Definition apart (c1 c2 : call) : Prop :=
  match c1, c2 with
  | PublishCall _ rs1 _, PublishCall _ rs2 _ => ∀ r, r ∈ rs1 → r ∉ rs2
  | _, _ => True
  end.

Record world_inv (w : world) : Prop := {
  wi_lease : lease_inv (wo_authority w);
  wi_calls : ∀ c cl, wo_calls w !! c = Some cl → call_ok (wo_authority w) cl;
  wi_apart : ∀ c1 c2 cl1 cl2, wo_calls w !! c1 = Some cl1 → wo_calls w !! c2 = Some cl2 → c1 ≠ c2 → apart cl1 cl2;
  wi_persisted : au_watermark (wo_authority w) <= wo_persisted w }.

Definition call_resources (c : call) : list nat :=
  match c with ActionCall _ _ _ _ => [] | PublishCall _ rs _ => rs end.

(** Calls whose resources do not change hands stay well-formed. *)
Lemma call_ok_evolves rs a a' cl :
  lease_inv a → evolves rs a a' → (∀ r, r ∈ call_resources cl → r ∉ rs) → call_ok a cl → call_ok a' cl.
Proof.
  intros HI V Hd. destruct cl as [t q r s|owner rs' keys]; cbn.
  - intros [H1 H2]. split; [rewrite (vo_watermark _ _ _ V); done|].
    destruct t; try done; by apply (evolves_acquiring rs a).
  - intros Ho r Hr. destruct (Ho r Hr) as (res & H1 & H2 & H3).
    destruct (vo_resources _ _ _ V r res H1) as (res' & H4 & H5). destruct (H5 (Hd r Hr)) as [E1 E2].
    exists res'. split_and!; [done|congruence|]. intros id g gr' Hg Hgr'.
    assert (Hg0 : rs_grants res !! id = Some g) by (eapply lookup_weaken; [done|by apply E2]).
    destruct (li_entries a HI r res id g H1 Hg0) as (gr & Hgr & _).
    destruct (vo_grants _ _ _ V g gr Hgr) as (gr1 & Hgr1 & EO & _ & EM). rewrite Hgr' in Hgr1. injection Hgr1 as <-.
    rewrite EO, EM. by apply (H3 id g).
Qed.
