(* ===== verification/LockRuns.v ===== *)
(** * The lease authority: runs

    Runs given by the events that make them, for evaluating the authority on
    concrete requests: every run is a sequence of steps. *)

From stdpp Require Import relations.
From S2P Require Import Prelude Bytes Errors Identity LockTokens LockState LockAuthority LockInv LockSections LockEvolve LockPublish LockSteps.

(** Events of live contexts, a backend and a persistence that answer. *)
Inductive event :=
| Performs (op : operation)
| Begins (request : AcquireRequest)
| Raises (c : nat)
| CallsBack (c : nat)
| Finishes (c : nat)
| Publishes (p : Publication)
| Completes (c : nat) (outcome : PublicationOutcome).

Definition with_authority (a : Authority) (w : world) : world :=
  {| wo_authority := a; wo_persisted := wo_persisted w; wo_calls := wo_calls w |}.

Definition with_call (c : nat) (cl : call) (w : world) : world :=
  {| wo_authority := wo_authority w; wo_persisted := wo_persisted w; wo_calls := <[c := cl]> (wo_calls w) |}.

Definition without_call (c : nat) (w : world) : world :=
  {| wo_authority := wo_authority w; wo_persisted := wo_persisted w; wo_calls := delete c (wo_calls w) |}.

Definition play (e : event) (w : world) : option world :=
  let a := wo_authority w in
  let c0 := fresh (dom (wo_calls w)) in
  match e with
  | Performs op => let% p := run_operation op a in let '(_, a') := p in Some (with_authority a' w)
  | Begins request =>
      let% p := acquire_admit None request a in let '(x, a') := p in
      match x with
      | Admits q started =>
          let% act := au_actionHeap a' !! q in
          let% r := ac_resource act in
          Some (with_call c0 (ActionCall (Acquiring request started) q r Begun) (with_authority a' w))
      | _ => Some (with_authority a' w)
      end
  | Raises c =>
      match wo_calls w !! c with
      | Some (ActionCall t q r Begun) =>
          let% p := raise None (task_ttl t) None a in let '(x, a') := p in
          Some {| wo_authority := a'; wo_persisted := Z.max (wo_persisted w) (task_ttl t);
                  wo_calls := <[c := ActionCall t q r (match x with None => Raised | Some err => Failed err end)]>
                                (wo_calls w) |}
      | _ => None
      end
  | CallsBack c =>
      match wo_calls w !! c with
      | Some (ActionCall t q r Raised) =>
          let% p := callback t None q r a in let '(_, a') := p in
          Some (with_call c (ActionCall t q r Returned) (with_authority a' w))
      | _ => None
      end
  | Finishes c =>
      match wo_calls w !! c with
      | Some (ActionCall t q r Returned) =>
          let% p := finish_action q r None a in let '(_, a') := p in
          Some (without_call c (with_authority a' w))
      | _ => None
      end
  | Publishes p =>
      let% p := publish_admit None p a in let '(x, a') := p in
      match x with
      | Ok (owner, resources, keys) =>
          Some (with_call c0 (PublishCall owner resources keys) (with_authority a' w))
      | Err _ => Some (with_authority a' w)
      end
  | Completes c outcome =>
      match wo_calls w !! c with
      | Some (PublishCall _ resources keys) =>
          let% p := completePublication resources keys outcome a in let '(_, a') := p in
          Some (without_call c (with_authority a' w))
      | _ => None
      end
  end.

Fixpoint plays (es : list event) (w : world) : option world :=
  match es with
  | [] => Some w
  | e :: es => let% w' := play e w in plays es w'
  end.

Lemma fresh_call (calls : gmap nat call) : calls !! fresh (dom calls) = None.
Proof. apply not_elem_of_dom, is_fresh. Qed.

Lemma play_step e w w' : play e w = Some w' → step w w'.
Proof.
  destruct w as [a p calls]. unfold play. cbn [wo_authority wo_calls wo_persisted]. cbv zeta.
  destruct e.
  - destruct (run_operation op a) as [[x a']|] eqn:E; [|done]. intros [= <-]. by eapply step_operation.
  - destruct (acquire_admit None request a) as [[x a']|] eqn:E; cbn [mbind option_bind]; [|done].
    destruct x as [answer| |q started]; [intros [= <-]; apply step_answer; by eapply answers_acquire..|].
    destruct (au_actionHeap a' !! q) as [act|] eqn:Eq; cbn [mbind option_bind]; [|done].
    destruct (ac_resource act) as [r|] eqn:Er; cbn [mbind option_bind]; [|done]. intros [= <-].
    apply step_admit; [by eapply admits_acquire|apply fresh_call].
  - destruct (calls !! c) as [[t q r []|]|] eqn:Ec; try done.
    destruct (raise None (task_ttl t) None a) as [[x a']|] eqn:E; [|done]. intros [= <-].
    eapply step_raise; [done|done|]. split; lia.
  - destruct (calls !! c) as [[t q r []|]|] eqn:Ec; try done.
    destruct (callback t None q r a) as [[x a']|] eqn:E; [|done]. intros [= <-]. by eapply step_callback.
  - destruct (calls !! c) as [[t q r []|]|] eqn:Ec; try done.
    destruct (finish_action q r None a) as [[x a']|] eqn:E; [|done]. intros [= <-]. eapply step_finish; [done|exact I|exact E].
  - destruct (publish_admit None p0 a) as [[x a']|] eqn:E; cbn [mbind option_bind]; [|done].
    destruct x as [[[owner rs] keys]|err]; intros [= <-].
    + eapply step_publish; [done|apply fresh_call].
    + apply step_answer. by eapply answers_publish.
  - destruct (calls !! c) as [[|owner rs keys]|] eqn:Ec; try done.
    destruct (completePublication rs keys outcome a) as [[x a']|] eqn:E; [|done]. intros [= <-].
    by eapply step_complete.
Qed.

Lemma plays_steps es w w' : plays es w = Some w' → rtc step w w'.
Proof.
  revert w. induction es as [|e es IH]; intros w; cbn [plays]; [by intros [= <-]|].
  destruct (play e w) as [w1|] eqn:E; cbn; [|done]. intros E'. eapply rtc_l; [by apply play_step in E|by apply IH].
Qed.

(** ** A concrete environment *)

Definition demo_issuer : issuer := {| is_incarnation := "i"; is_mac := λ _, repeat 0 32 |}.
Definition demo_clock (n : nat) : Z := Z.of_nat n.
Definition demo_nonce (n : nat) : list Z := Z.of_nat n mod 256 :: repeat 0 15.

Definition demo_start : option world :=
  match New DefaultOptions (Ok 0) (Some 0) demo_issuer demo_clock demo_nonce with
  | Ok a => Some {| wo_authority := a; wo_persisted := 0; wo_calls := ∅ |}
  | Err _ => None
  end.

Lemma demo_env a w : demo_start = Some w → au_env a = au_env (wo_authority w) → env_ok (au_env a).
Proof.
  intros [= <-] ->. split; cbn.
  - intros i j Hij. unfold demo_clock. lia.
  - intros n. split; [|done]. unfold demo_nonce. constructor; [pose proof (Z.mod_pos_bound (Z.of_nat n) 256); unfold is_byte; lia|].
    repeat (constructor; [unfold is_byte; lia|]). constructor.
  - done.
  - intros s. split; [|done]. repeat (constructor; [unfold is_byte; lia|]). constructor.
Qed.

Lemma demo_drawn a w :
  demo_start = Some w → au_env a = au_env (wo_authority w) → (au_nonces a <= 256)%nat → drawn a.
Proof.
  intros [= <-] E Hn i j Hi Hj. rewrite E. cbn. unfold demo_nonce. intros [= Hij].
  rewrite !Z.mod_small in Hij by lia. lia.
Qed.

(** A token of the environment. *)
Definition demo_token (n : nat) (kind parent : string) : string :=
  token demo_issuer (demo_nonce n) kind parent EmptyString.

Definition demo_ticket : string := token demo_issuer (demo_nonce 0) "t" EmptyString (FormatInt 60000).
Definition demo_session : string := demo_token 1 "s" EmptyString.
Definition demo_owner (n : nat) : OwnerRef :=
  {| or_Session := demo_session; or_Owner := demo_token n "o" demo_session |}.
Definition demo_resource : ResourceRef :=
  {| rr_ID := demo_token 4 "r" EmptyString; rr_ExpiresMillis := 60000; rr_NowMillis := 0;
     rr_HistoryExpiresMillis := 600000 |}.
Definition demo_acquire (owner : OwnerRef) (mode : Mode) : AcquireRequest :=
  {| aq_Owner := owner; aq_Request := "a"; aq_Resource := demo_resource; aq_Mode := mode;
     aq_TTL := minute; aq_Wait := 0 |}.

(** Two owners of a session and a resource. *)
Definition demo_setup : list event :=
  [Performs (OpBeginEnrollment None); Performs (OpOpenSession None demo_ticket);
   Performs (OpCreateOwner None demo_session "1"); Performs (OpCreateOwner None demo_session "2");
   Performs (OpDiscovered None (demo_owner 2) "key")].

(** A whole acquisition, as the only call in progress. *)
Definition demo_acquires (owner : OwnerRef) (mode : Mode) : list event :=
  [Begins (demo_acquire owner mode); Raises 0; CallsBack 0; Finishes 0].

Definition demo_run (es : list event) : option world :=
  let% w := demo_start in plays es w.
