(* ===== verification/LockTheorems.v ===== *)
(** * The lease authority: theorems

    Every reachable world satisfies the invariant.  Exclusion of leases,
    exclusiveness of publications and the recovery interval follow. *)

From stdpp Require Import relations.
From S2P Require Import Prelude Errors Identity LockTokens LockState LockAuthority LockInv LockSections LockEvolve LockPublish LockSteps LockRuns.

(** ** The first sections *)

Lemma record_action_receipt o receipt tombstone a q a' :
  record_action o receipt tombstone a = Some (q, a') →
  ∃ act, au_actionHeap a' !! q = Some act ∧ ac_receipt act = receipt.
Proof. intros [= <- <-]. eexists. split; [apply lookup_insert_eq|done]. Qed.

Lemma record_action_keeps o receipt tombstone : keeps (record_action o receipt tombstone).
Proof.
  intros a q a' E.
  assert (Hk : keeps (bind (record_action o receipt tombstone) ret)).
  { apply keeps_record_action. intros. apply keeps_from_keeps. keeps. }
  apply (Hk a q a'). unfold bind. by rewrite E.
Qed.
#[local] Hint Resolve record_action_keeps : keeps.

(** [Acquire] admits its own request. *)
Lemma acquire_admit_request ctx_err request a q started a' :
  lease_inv a → drawn a' → acquire_admit ctx_err request a = Some (Admits q started, a') →
  ∃ act, au_actionHeap a' !! q = Some act ∧ rp_Acquire (ac_receipt act) = Some request.
Proof.
  intros HI Hd E. unfold acquire_admit in E.
  apply keeps_run in E as ([err|] & a1 & _ & H1 & _ & _ & E); [done| |running..].
  apply keeps_run in E as (now & a2 & _ & H2 & _ & _ & E); [|running..].
  apply keeps_run in E as (? & a3 & _ & H3 & _ & _ & E); [|running..].
  apply keeps_run in E as ([o|err] & a4 & _ & H4 & _ & _ & E); [|done|running..].
  apply keeps_run in E as (opts & a5 & _ & H5 & _ & _ & E); [|running..].
  destruct (negb (acquire_valid opts request)); [done|].
  apply keeps_run in E as (owner & a6 & _ & H6 & _ & _ & E); [|running..].
  destruct (ow_actions owner !! aq_Request request) as [previous|].
  { apply keeps_run in E as (act & a7 & _ & H7 & _ & _ & E); [|running..].
    destruct (ac_tombstone act); [done|]. by destruct (_ || _). }
  apply keeps_run in E as (b & a7 & _ & H7 & _ & _ & E); [|running..]. destruct (_ || _); [done|].
  apply keeps_run in E as (q' & a8 & Er & H8 & _ & _ & E); [|running..].
  apply record_action_receipt in Er as (act & Hact & Hrc).
  apply keeps_run in E as (? & a9 & _ & H9 & _ & F9 & E); [|running..].
  apply keeps_run in E as ([r|err] & a10 & _ & H10 & _ & F10 & E); [| |running..].
  2: { unfold reject_action in E. apply keeps_run in E as (? & ? & _ & ? & _ & _ & E); [|running..].
       by apply keeps_run in E as (? & ? & _ & ? & _ & _ & E); [|running..]. }
  injection E as <- _ <-. cbn. rewrite !lookup_alter_eq.
  pose proof (fr_actions _ _ (transitivity F9 F10) q') as FA. rewrite Hact in FA.
  destruct (au_actionHeap a10 !! q') as [act'|]; [|done]. eexists. split; [done|]. cbn.
  destruct FA as (_ & -> & _). by rewrite Hrc.
Qed.

(** A worker takes an action queued on its resource. *)
Lemma worker_pick_queued r a q a' :
  lease_inv a → drawn a' → worker_pick r a = Some (WorkerTries q, a') →
  ∃ act, au_actionHeap a' !! q = Some act ∧ ac_resource act = Some r.
Proof.
  intros HI Hd E. unfold worker_pick in E.
  apply keeps_run in E as (b & a1 & _ & H1 & _ & _ & E); [|running..].
  apply keeps_run in E as (res & a2 & _ & H2 & _ & _ & E); [|running..]. destruct (_ || _); [done|].
  apply keeps_run in E as (now & a3 & _ & H3 & _ & _ & E); [|running..].
  apply keeps_run in E as (? & a4 & _ & H4 & _ & _ & E); [|running..].
  apply keeps_run in E as (? & a5 & _ & H5 & _ & _ & E); [|running..].
  unfold bind at 1, get_resource, deref at 1 in E. destruct (au_resourceHeap a5 !! r) as [res5|] eqn:Er; [|done].
  destruct (rs_queue res5) as [|q' queue] eqn:Eq; [done|].
  destruct (li_queue a5 H5 r res5 q' Er) as (act & Hact & Har); [rewrite Eq; left|].
  apply keeps_run in E as (current & a6 & _ & H6 & _ & F6 & E); [|running..].
  apply keeps_run in E as (request & a7 & _ & H7 & _ & F7 & E); [|running..]. destruct (rs_busy res5); [done|].
  apply keeps_run in E as (ok & a8 & _ & H8 & _ & F8 & E); [|running..]. destruct ok; [|done].
  apply keeps_run in E as (? & a9 & _ & H9 & _ & F9 & E); [|running..]. injection E as <- <-.
  pose proof (fr_actions _ _ (transitivity F6 (transitivity F7 (transitivity F8 F9))) q') as FA. rewrite Hact in FA.
  destruct (au_actionHeap a9 !! q') as [act'|]; [|done]. exists act'. split; [done|].
  destruct FA as (_ & _ & ->). done.
Qed.

Lemma admits_ok a t q r a' :
  lease_inv a → drawn a' → admits a t q r a' → lease_inv a' ∧ frame a a' ∧ call_ok a' (ActionCall t q r Begun).
Proof.
  intros HI Hd Ha. destruct Ha as [a ctx_err request q r started act a' E Hact Hr
    |a ctx_err request q r g started act a' E Hact Hr Hg|a q r act request a' E Hact Hrq].
  - destruct (keeps_inv _ _ _ _ (keeps_acquire_admit ctx_err request) HI Hd E) as [H1 F1]. split_and!; [done..|].
    destruct (acquire_admit_request _ _ _ _ _ _ HI Hd E) as (act' & Hact' & Hrq). rewrite Hact in Hact'. injection Hact' as <-.
    split; [done|]. by exists act.
  - destruct (keeps_inv _ _ _ _ (keeps_renew_admit ctx_err request) HI Hd E) as [H1 F1]. by split_and!.
  - destruct (keeps_inv _ _ _ _ (keeps_worker_pick r) HI Hd E) as [H1 F1]. split_and!; [done..|].
    destruct (worker_pick_queued _ _ _ _ HI Hd E) as (act' & Hact' & Hr). rewrite Hact in Hact'. injection Hact' as <-.
    split; [done|]. by exists act.
Qed.

Lemma answers_ok a a' : lease_inv a → drawn a' → answers a a' → lease_inv a' ∧ evolves [] a a'.
Proof.
  intros HI Hd Ha. destruct Ha as [a ctx_err request x a' E _|a ctx_err request x a' E _|a r x a' E _|a ctx_err p err a' E].
  - by apply (keeps_advances a _ HI (keeps_acquire_admit ctx_err request) x).
  - by apply (keeps_advances a _ HI (keeps_renew_admit ctx_err request) x).
  - by apply (keeps_advances a _ HI (keeps_worker_pick r) x).
  - by destruct (publish_admit_spec _ _ _ _ _ HI Hd E).
Qed.

Lemma run_operation_keeps op : keeps (run_operation op).
Proof. destruct op; cbn [run_operation]; keeps. Qed.

Lemma callback_advances a t q r ctx_err :
  lease_inv a → call_ok a (ActionCall t q r Raised) → advances a (callback t ctx_err q r).
Proof.
  intros HI [Httl Hq]. specialize (Httl eq_refl). destruct t as [request started|request g|request]; cbn in *.
  - by apply acquire_callback_advances.
  - by apply renew_callback_advances.
  - by apply (worker_callback_advances a ctx_err request).
Qed.

(** ** Preservation *)

#[global] Instance apart_sym : Symmetric apart.
Proof. intros [] []; cbn; try done. set_solver. Qed.

(** A step of the authority that leaves the calls other than [c] alone. *)
Lemma next_world a p calls rs a' p' calls' c :
  world_inv {| wo_authority := a; wo_persisted := p; wo_calls := calls |} →
  lease_inv a' → evolves rs a a' → p <= p' →
  (∀ k, k ≠ c → calls' !! k = calls !! k) →
  (∀ k cl r, k ≠ c → calls !! k = Some cl → r ∈ call_resources cl → r ∉ rs) →
  (∀ cl, calls' !! c = Some cl → call_ok a' cl ∧ ∀ k cl', k ≠ c → calls !! k = Some cl' → apart cl cl') →
  world_inv {| wo_authority := a'; wo_persisted := p'; wo_calls := calls' |}.
Proof.
  intros [HI HC HA HP] HI' V Hp Hsame Hd Hc. cbn in *. split; cbn; [done|..].
  - intros k cl Hk. destruct (decide (k = c)) as [->|Hne]; [by apply Hc|]. rewrite Hsame in Hk by done.
    apply (call_ok_evolves rs a); [done|done|intros r; by apply (Hd k cl)|by apply (HC k)].
  - intros k1 k2 cl1 cl2 H1 H2 Hne. destruct (decide (k1 = c)) as [->|N1].
    + rewrite Hsame in H2 by done. by apply (proj2 (Hc cl1 H1) k2).
    + rewrite Hsame in H1 by done. destruct (decide (k2 = c)) as [->|N2].
      * symmetry. by apply (proj2 (Hc cl2 H2) k1).
      * rewrite Hsame in H2 by done. by apply (HA k1 k2).
  - rewrite (vo_watermark _ _ _ V). lia.
Qed.

(** Steps that leave every call alone. *)
Lemma same_calls a p calls a' :
  world_inv {| wo_authority := a; wo_persisted := p; wo_calls := calls |} → lease_inv a' → evolves [] a a' →
  world_inv {| wo_authority := a'; wo_persisted := p; wo_calls := calls |}.
Proof.
  intros Hw HI V. pose proof Hw as [HI0 HC HA HP]. cbn in *.
  apply (next_world a p calls [] a' p calls (fresh (dom calls))); try done; [set_solver|].
  intros cl Hcl. destruct (is_fresh (dom calls)). by apply elem_of_dom_2 in Hcl.
Qed.

(** Steps that change a call holding an action. *)
Lemma action_call a p calls a' calls' c :
  world_inv {| wo_authority := a; wo_persisted := p; wo_calls := calls |} → lease_inv a' → evolves [] a a' →
  (∀ k, k ≠ c → calls' !! k = calls !! k) →
  (∀ cl, calls' !! c = Some cl → call_ok a' cl ∧ call_resources cl = []) →
  world_inv {| wo_authority := a'; wo_persisted := p; wo_calls := calls' |}.
Proof.
  intros Hw HI V Hsame Hc. apply (next_world a p calls [] a' p calls' c); try done; [set_solver|].
  intros cl Hcl. destruct (Hc cl Hcl) as [H1 H2]. split; [done|]. intros k cl' _ _.
  destruct cl as [|owner rs keys], cl'; try done. cbn in H2 |- *. subst. set_solver.
Qed.

Lemma delete_calls (calls : gmap nat call) c :
  (∀ k, k ≠ c → delete c calls !! k = calls !! k) ∧ delete c calls !! c = None.
Proof. split; [intros k Hk; by apply lookup_delete_ne|apply lookup_delete_eq]. Qed.

Lemma insert_calls (calls : gmap nat call) c cl :
  (∀ k, k ≠ c → <[c := cl]> calls !! k = calls !! k) ∧ ∀ cl', <[c := cl]> calls !! c = Some cl' → cl' = cl.
Proof. split; [intros k Hk; by apply lookup_insert_ne|rewrite lookup_insert_eq; by intros cl' [= <-]]. Qed.

(** A raised watermark. *)
Lemma raised_world a p calls ttl p' :
  world_inv {| wo_authority := a; wo_persisted := p; wo_calls := calls |} →
  au_watermark a <= ttl → ttl <= p' →
  world_inv {| wo_authority := set_au_watermark ttl a; wo_persisted := p'; wo_calls := calls |}.
Proof.
  intros [HI HC HA HP] Hw Hp. cbn in *. split; cbn; [by apply watermark_inv| |done|lia].
  intros c cl Hc. specialize (HC c cl Hc). destruct cl as [t q r s|owner rs keys]; [|done].
  destruct HC as [H1 H2]. split; [|by destruct t]. cbn. intros Hs. specialize (H1 Hs). lia.
Qed.

Lemma step_raise_inv a p calls c t q r ctx_err persist x a' p' :
  world_inv {| wo_authority := a; wo_persisted := p; wo_calls := calls |} →
  calls !! c = Some (ActionCall t q r Begun) →
  drawn a' → raise ctx_err (task_ttl t) persist a = Some (x, a') → persists (task_ttl t) persist p p' →
  world_inv {| wo_authority := a'; wo_persisted := p';
               wo_calls := <[c := ActionCall t q r (match x with None => Raised | Some err => Failed err end)]> calls |}.
Proof.
  intros Hw Hc Hd E [Hp1 Hp2]. pose proof Hw as [HI HC HA HP]. cbn in *. destruct (HC c _ Hc) as [_ Ht].
  destruct (raise_spec _ _ _ _ _ _ HI Hd E) as (a1 & H1 & F1 & Hcase). pose proof (frame_evolves _ _ F1) as V1.
  assert (Ht1 : call_ok a1 (ActionCall t q r Begun)).
  { apply (call_ok_evolves [] a); [done|done|cbn; set_solver|done]. }
  destruct Hcase as [[-> Hx]|(-> & Hlt & ->)].
  - apply (next_world a p calls [] a1 p' _ c); try done; [apply insert_calls|set_solver|].
    intros cl ->%insert_calls. split; [|by intros k [] ? ?; exact I]. split; [destruct x; [done|intros _; by apply Hx]|apply Ht1].
  - specialize (Hp2 eq_refl). pose proof (same_calls a p calls a1 Hw H1 V1) as Hw1.
    pose proof (raised_world a1 p calls (task_ttl t) p' Hw1 ltac:(lia) Hp2) as Hw2. pose proof Hw2 as [HI2 _ _ _].
    apply (next_world _ p' calls [] _ p' _ c Hw2); try done; [by apply frame_evolves|apply insert_calls|set_solver|].
    intros cl ->%insert_calls. split; [|by intros k [] ? ?; exact I]. split; [by intros _|]. destruct Ht1 as [_ Ht1]. by destruct t.
Qed.

Lemma world_step_inv w w' : world_inv w → drawn (wo_authority w') → step w w' → world_inv w'.
Proof.
  intros Hw Hd Hs. pose proof Hw as [HI HC HA HP].
  destruct Hs as [a p calls op x a' E|a p calls a' E|a p calls t q r a' c E Hc
    |a p calls c t q r ctx_err persist x a' p' Hc E Hp|a p calls c t q r ctx_err x a' Hc E
    |a p calls c t q r s err x a' Hc _ E|a p calls c ctx_err pub owner rs keys a' E Hc
    |a p calls c owner rs keys outcome x a' Hc E]; cbn in *.
  - destruct (keeps_inv _ _ _ _ (run_operation_keeps op) HI Hd E) as [H1 F1]. apply (same_calls a); [done|done|by apply frame_evolves].
  - destruct (answers_ok _ _ HI Hd E) as [H1 V1]. by apply (same_calls a).
  - destruct (admits_ok _ _ _ _ _ HI Hd E) as (H1 & F1 & Hok).
    apply (action_call a p calls a' _ c); [done|done|by apply frame_evolves|apply insert_calls|by intros cl ->%insert_calls].
  - by apply (step_raise_inv a p calls c t q r ctx_err persist x a').
  - destruct (callback_advances a t q r ctx_err HI (HC c _ Hc) x a' E Hd) as [H1 V1].
    apply (action_call a p calls a' _ c); [done|done|done|apply insert_calls|]. intros cl ->%insert_calls. split; [|done].
    split; [done|]. by destruct (call_ok_evolves [] a a' _ HI V1 ltac:(cbn; set_solver) (HC c _ Hc)).
  - destruct (keeps_inv _ _ _ _ (keeps_finish_action q r err) HI Hd E) as [H1 F1].
    apply (action_call a p calls a' _ c); [done|done|by apply frame_evolves|apply delete_calls|].
    intros cl. by rewrite (proj2 (delete_calls calls c)).
  - destruct (publish_admit_spec _ _ _ _ _ HI Hd E) as (H1 & V1 & Hb & Ho).
    assert (Hfree : ∀ k cl r, calls !! k = Some cl → r ∈ call_resources cl → r ∉ rs).
    { intros k [t q r0 s|owner' rs' keys'] r Hk; cbn; [set_solver|]. intros Hr Hr'.
      destruct (HC k _ Hk r Hr) as (res & Hres & Hbusy & _). by rewrite (Hb r Hr' res Hres) in Hbusy. }
    apply (next_world a p calls rs a' p _ c); [done|done|done|lia|apply insert_calls|by intros k cl r _; apply Hfree|].
    intros cl ->%insert_calls. split; [done|]. intros k [|owner' rs' keys'] _ Hk; [done|]. cbn. intros r Hr Hr'.
    by apply (Hfree k _ r Hk).
  - destruct (completePublication_spec _ _ _ _ _ _ HI Hd E) as [H1 V1].
    apply (next_world a p calls rs a' p _ c); [done|done|done|lia|apply delete_calls| |].
    + intros k cl r Hne Hk Hr Hr'. pose proof (HA c k _ _ Hc Hk (not_eq_sym Hne)) as Hap. destruct cl; cbn in *; set_solver.
    + intros cl. by rewrite (proj2 (delete_calls calls c)).
Qed.

(** ** Reachable worlds *)

Lemma grows_publish_admit ctx_err p : grows (publish_admit ctx_err p).
Proof. unfold publish_admit. grows. Qed.

Lemma grows_completePublication rs targets outcome : grows (completePublication rs targets outcome).
Proof. unfold completePublication. grows. Qed.

Lemma grows_raise ctx_err ttl persist : grows (raise ctx_err ttl persist).
Proof. unfold raise. grows. Qed.

Lemma grows_callback t ctx_err q r : grows (callback t ctx_err q r).
Proof.
  destruct t; cbn [callback]; unfold acquire_callback, renew_callback, worker_callback; grows.
Qed.

Lemma step_grown w w' : step w w' → grown (wo_authority w) (wo_authority w').
Proof.
  intros Hs. destruct Hs as [a p calls op x a' E|a p calls a' E|a p calls t q r a' c E Hc
    |a p calls c t q r ctx_err persist x a' p' Hc E Hp|a p calls c t q r ctx_err x a' Hc E
    |a p calls c t q r s err x a' Hc _ E|a p calls c ctx_err pub owner rs keys a' E Hc
    |a p calls c owner rs keys outcome x a' Hc E]; cbn.
  - exact (keeps_grows _ (run_operation_keeps op) a x a' E).
  - destruct E as [? ? ? ? ? E _|? ? ? ? ? E _|? ? ? ? E _|? ? ? ? ? E].
    + exact (keeps_grows _ (keeps_acquire_admit _ _) _ _ _ E).
    + exact (keeps_grows _ (keeps_renew_admit _ _) _ _ _ E).
    + exact (keeps_grows _ (keeps_worker_pick _) _ _ _ E).
    + exact (grows_publish_admit _ _ _ _ _ E).
  - destruct E as [? ? ? ? ? ? ? ? E _ _|? ? ? ? ? ? ? ? ? E _ _ _|? ? ? ? ? ? E _ _].
    + exact (keeps_grows _ (keeps_acquire_admit _ _) _ _ _ E).
    + exact (keeps_grows _ (keeps_renew_admit _ _) _ _ _ E).
    + exact (keeps_grows _ (keeps_worker_pick _) _ _ _ E).
  - exact (grows_raise _ _ _ _ _ _ E).
  - exact (grows_callback _ _ _ _ _ _ _ E).
  - exact (keeps_grows _ (keeps_finish_action q r err) _ _ _ E).
  - exact (grows_publish_admit _ _ _ _ _ E).
  - exact (grows_completePublication _ _ _ _ _ _ E).
Qed.

Lemma steps_grown w w' : rtc step w w' → grown (wo_authority w) (wo_authority w').
Proof. induction 1 as [|w w1 w' Hs _ IH]; [done|]. etrans; [by apply step_grown|done]. Qed.

Lemma started_inv w : started w → env_ok (au_env (wo_authority w)) → world_inv w.
Proof.
  intros [o watermark start i clock nonce a E] He. unfold New in E. destruct (Options_Validate o); [done|].
  destruct start as [start|]; [|done]. destruct (watermark <? 0); [done|]. injection E as <-. cbn in *.
  split; [split; try done|done..].
Qed.

Lemma steps_inv w w' : rtc step w w' → world_inv w → drawn (wo_authority w') → world_inv w'.
Proof.
  induction 1 as [|w w1 w' Hs Hr IH]; [done|]. intros Hw Hd. apply IH; [|done].
  apply (world_step_inv w); [done| |done]. by apply (grown_drawn _ (wo_authority w')), Hd; apply steps_grown.
Qed.

Lemma reachable_world_inv w : reachable w → world_inv w.
Proof. intros (w0 & Hs & He & Hr & Hd). apply (steps_inv w0); [done| |done]. by apply started_inv. Qed.

(** ** Theorems *)

(** C3: two active leases on a resource are shared leases of different owners,
    however the sections of concurrent calls, workers and maintenance are
    interleaved. *)
Theorem lease_exclusion w g1 g2 gr1 gr2 :
  reachable w →
  au_grantHeap (wo_authority w) !! g1 = Some gr1 → au_grantHeap (wo_authority w) !! g2 = Some gr2 →
  gt_state gr1 = Active → gt_state gr2 = Active → g1 ≠ g2 → gt_resource gr1 = gt_resource gr2 →
  gt_mode gr1 ≠ Exclusive ∧ gt_mode gr2 ≠ Exclusive ∧ gt_owner gr1 ≠ gt_owner gr2.
Proof.
  intros [HI _ _ _]%reachable_world_inv H1 H2 A1 A2 Hne Hr.
  destruct (li_listed _ HI g1 gr1 H1 A1) as (res1 & R1 & L1), (li_listed _ HI g2 gr2 H2 A2) as (res2 & R2 & L2).
  rewrite Hr, R2 in R1. injection R1 as ->. exact (li_exclusion _ HI _ res1 _ _ g1 g2 gr1 gr2 R2 L1 L2 Hne H1 H2).
Qed.

(** C6: a publication under way owns the resources that its targets had when it
    was admitted.  Whether such a resource is leased or not, no other
    publication under way owns it, and every active lease on it is an exclusive
    lease of the owner the publication was admitted for. *)
Theorem publication_exclusive w c owner resources keys r :
  reachable w → wo_calls w !! c = Some (PublishCall owner resources keys) → r ∈ resources →
  (∀ c' owner' resources' keys', wo_calls w !! c' = Some (PublishCall owner' resources' keys') →
     r ∈ resources' → c' = c)
  ∧ ∀ g gr, au_grantHeap (wo_authority w) !! g = Some gr → gt_state gr = Active → gt_resource gr = r →
     Some (gt_owner gr) = owner ∧ gt_mode gr = Exclusive.
Proof.
  intros [HI HC HA _]%reachable_world_inv Hc Hr. split.
  - intros c' owner' rs' keys' Hc' Hr'. destruct (decide (c' = c)) as [|Hne]; [done|].
    by destruct (HA c c' _ _ Hc Hc' (not_eq_sym Hne) r Hr).
  - intros g gr Hg Ha Hres. destruct (li_listed _ HI g gr Hg Ha) as (res & H1 & H2).
    destruct (HC c _ Hc r Hr) as (res' & H3 & _ & H4).
    rewrite Hres, H3 in H1. injection H1 as ->. exact (H4 _ g gr H2 Hg).
Qed.

(** The recovery interval: no admission check of an authority opened with at
    least the persisted bound passes before a deadline of the old one. *)
Lemma recovery_bound w g gr d o start i clock nonce a b b' :
  reachable w → au_grantHeap (wo_authority w) !! g = Some gr → gt_state gr = Active →
  wo_persisted w <= d → New o (Ok d) (Some start) i clock nonce = Ok a →
  latest (wo_authority w) <= start →
  au_env b = au_env a → healthyLocked None true b = Some (None, b') →
  gt_deadline gr <= latest b'.
Proof.
  intros [HI _ _ HP]%reachable_world_inv Hg Ha Hp Hn Hs He Hh. pose proof (li_deadline _ HI g gr Hg Ha) as Hd.
  unfold New in Hn. destruct (Options_Validate o); [done|]. destruct (d <? 0); [done|].
  injection Hn as <-. unfold healthyLocked, bind, gets in Hh. destruct (au_closed (id b)); [done|].
  destruct (au_fenced (id b)); [done|]. unfold clock_now in Hh. cbn [id] in Hh. rewrite He in Hh.
  cbn [ev_recoveryUntil ev_clock au_env] in Hh.
  destruct (clock (au_reads b) <? start + d) eqn:E; [done|]. injection Hh as <-.
  unfold latest at 1. cbn [au_env au_reads set_au_reads pred]. rewrite He. cbn. lia.
Qed.

(** ** Witnesses *)

(** What is looked at in the worlds of runs: the nonces drawn, the persisted
    bound, the last reading of the clock and the first two leases. *)
Definition lease_view (w : world) (g : nat) : option (Mode * nat * nat * GrantState * Z) :=
  (λ gr, (gt_mode gr, gt_owner gr, gt_resource gr, gt_state gr, gt_deadline gr))
    <$> au_grantHeap (wo_authority w) !! g.

Definition run_view (w : world) :=
  (au_nonces (wo_authority w), wo_persisted w, latest (wo_authority w), lease_view w 0, lease_view w 1).

Lemma lease_viewed w g mode o r state deadline :
  lease_view w g = Some (mode, o, r, state, deadline) →
  ∃ gr, au_grantHeap (wo_authority w) !! g = Some gr ∧ gt_mode gr = mode ∧ gt_owner gr = o
        ∧ gt_resource gr = r ∧ gt_state gr = state ∧ gt_deadline gr = deadline.
Proof.
  unfold lease_view. destruct (au_grantHeap (wo_authority w) !! g) as [gr|]; [|done]. intros [= <- <- <- <- <-]. by exists gr.
Qed.

Lemma demo_reachable es w : demo_run es = Some w → (au_nonces (wo_authority w) <= 256)%nat → reachable w.
Proof.
  unfold demo_run. destruct demo_start as [w0|] eqn:E0; [|done]. cbn. intros Hr%plays_steps Hn.
  exists w0. split_and!; [|by apply (demo_env _ w0)|done|].
  - injection E0 as <-. by eapply (started_new DefaultOptions 0 (Some 0) demo_issuer demo_clock demo_nonce).
  - apply (demo_drawn _ w0); [done| |done]. by apply steps_grown in Hr as [-> _].
Qed.

(** A run of which the view is known. *)
Lemma viewed_run {V} es (view : world → V) v :
  view <$> demo_run es = Some v → ∃ w, demo_run es = Some w ∧ view w = v.
Proof. destruct (demo_run es) as [w|]; [|done]. intros [= <-]. by exists w. Qed.

Definition two_shared : list event :=
  demo_setup ++ demo_acquires (demo_owner 2) Shared ++ demo_acquires (demo_owner 3) Shared.

Lemma two_shared_view :
  run_view <$> demo_run two_shared
  = Some (7%nat, 60000000000, 32, Some (Shared, 0%nat, 0%nat, Active, 60000000021),
          Some (Shared, 1%nat, 0%nat, Active, 60000000031)).
Proof. vm_compute. reflexivity. Qed.

Lemma lease_exclusion_witness :
  ∃ w gr1 gr2, demo_run two_shared = Some w
    ∧ au_grantHeap (wo_authority w) !! 0%nat = Some gr1 ∧ au_grantHeap (wo_authority w) !! 1%nat = Some gr2
    ∧ gt_mode gr1 ≠ Exclusive ∧ gt_mode gr2 ≠ Exclusive ∧ gt_owner gr1 ≠ gt_owner gr2.
Proof.
  destruct (viewed_run _ _ _ two_shared_view) as (w & E & Hv). unfold run_view in Hv. injection Hv as Hn _ _ H1 H2.
  apply lease_viewed in H1 as (gr1 & G1 & _ & _ & R1 & A1 & _), H2 as (gr2 & G2 & _ & _ & R2 & A2 & _).
  exists w, gr1, gr2. split; [done|]. split; [done|]. split; [done|].
  apply (lease_exclusion w 0%nat 1%nat gr1 gr2); [apply (demo_reachable two_shared); [done|lia]|done|done|done|done|lia|congruence].
Defined.

(** An exclusive lease and a publication under it. *)
Definition demo_grant : GrantRef :=
  let resource := rr_ID demo_resource in
  {| gf_ID := demo_token 5 "g" (grant_parent (or_Owner (demo_owner 2)) resource 1);
     gf_Resource := resource; gf_Generation := 1 |}.

Definition published : list event :=
  demo_setup ++ demo_acquires (demo_owner 2) Exclusive ++
  [Publishes {| pu_Kind := WriteMutation; pu_Targets := ["key"];
                pu_Scope := {| ms_Owner := demo_owner 2; ms_Grants := [demo_grant] |} |}].

Definition publish_view (w : world) :=
  (au_nonces (wo_authority w), lease_view w 0,
   match wo_calls w !! 0%nat with Some (PublishCall owner resources keys) => Some (owner, resources, keys) | _ => None end).

Lemma call_viewed w owner resources keys :
  match wo_calls w !! 0%nat with Some (PublishCall owner resources keys) => Some (owner, resources, keys) | _ => None end
  = Some (owner, resources, keys) → wo_calls w !! 0%nat = Some (PublishCall owner resources keys).
Proof. destruct (wo_calls w !! 0%nat) as [[|o rs ks]|]; try done. by intros [= -> -> ->]. Qed.

Lemma published_view :
  publish_view <$> demo_run published
  = Some (6%nat, Some (Exclusive, 0%nat, 0%nat, Active, 60000000021), Some (Some 0%nat, [0%nat], ["key"])).
Proof. vm_compute. reflexivity. Qed.

Lemma publication_exclusive_witness :
  ∃ w gr, demo_run published = Some w
    ∧ wo_calls w !! 0%nat = Some (PublishCall (Some 0%nat) [0%nat] ["key"])
    ∧ au_grantHeap (wo_authority w) !! 0%nat = Some gr
    ∧ Some (gt_owner gr) = Some 0%nat ∧ gt_mode gr = Exclusive.
Proof.
  destruct (viewed_run _ _ _ published_view) as (w & E & Hv). unfold publish_view in Hv. injection Hv as Hn H1 Hc.
  apply lease_viewed in H1 as (gr & G & _ & _ & R & A & _).
  apply call_viewed in Hc as Ec.
  exists w, gr. split; [exact E|]. split; [exact Ec|]. split; [exact G|].
  assert (Hw : reachable w) by (apply (demo_reachable published); [exact E|lia]).
  exact (proj2 (publication_exclusive w 0%nat (Some 0%nat) [0%nat] ["key"] 0%nat Hw Ec
                  (proj2 (list_elem_of_singleton _ _) eq_refl)) 0%nat gr G A R).
Defined.
