(* ===== verification/LeaseStore.v ===== *)
(** * The durable record of the longest lease

    [packages/metastore/sqlite/lock_recovery.go] and [locking_store.go], with
    [internal/nativelease] below them.  The longest lease ever granted is kept
    twice: in a row of the database and in a witness file beside it.  A raise
    prepares the row, replaces the witness and then accepts the row.

    A [machine] is the disk and the memory of the process that owns it.  Every
    call into SQLite or the file system takes the next [answer]: it works,
    fails, or the process dies in it, before or after its effect.  A file's
    name may point to contents that a power failure takes back ([st_visible]
    against [st_synced]), until its directory is synced.  Committed
    transactions are durable.  The files hold values: their encoding, a
    checksummed JSON text, is not modelled, nor are the checks of modes, owners
    and mounts, which answer as one call. *)

From S2P Require Import Prelude Errors Identity.
From Stdlib Require Import Ascii.
Open Scope Z_scope.

(** ** Evidence *)

(** [nativelease.Evidence], [sqlite.LeaseEvidence]. *)
Record Evidence := {
  DatabaseID : string;
  StateID : string;
  Generation : Z;
  MaxLease : Z
}.

#[global] Instance Evidence_eq_dec : EqDecision Evidence.
Proof. solve_decision. Defined.

(** [strings.Trim]: bytes of the cut set are taken off both ends. *)
Fixpoint trim_left (cut : list ascii) (s : list ascii) : list ascii :=
  match s with
  | [] => []
  | c :: rest => if bool_decide (c ∈ cut) then trim_left cut rest else s
  end.
Definition strings_Trim (s cut : string) : string :=
  let cut := String.list_ascii_of_string cut in
  String.string_of_list_ascii
    (rev (trim_left cut (rev (trim_left cut (String.list_ascii_of_string s))))).

Definition ValidID (id : string) : bool :=
  (len id =? 32) && bool_decide (strings_Trim id "0123456789abcdef" = EmptyString).

Definition ValidateEvidence (e : Evidence) : option error :=
  if negb (ValidID (DatabaseID e)) || negb (ValidID (StateID e))
     || (Generation e <? 0) || (MaxLease e <? 0)
  then Some (Wrapped (Errno EIO)) else None.

(** ** The database row *)

(** A column's value, by storage class. *)
Inductive column := Integer (z : Z) | Text (s : string) | Null | OtherClass.

#[global] Instance column_eq_dec : EqDecision column.
Proof. solve_decision. Defined.

(** A row of [lease_recovery]. *)
Record lease_row := {
  lr_singleton : column;
  lr_database_id : column;
  lr_state_id : column;
  lr_accepted_generation : column;
  lr_accepted_nanos : column;
  lr_prepared_generation : column;
  lr_prepared_nanos : column
}.

Record leaseRecord := {
  accepted : Evidence;
  prepared : option Evidence
}.

(** The columns as [Scan] reads them, when their storage classes are right; a
    text of another length than 32 is refused by [ValidateEvidence] too. *)
Definition null_integer (c : column) : option (option Z) :=
  match c with Integer z => Some (Some z) | Null => Some None | _ => None end.

Definition scan_row (row : lease_row) : option (Evidence * option Z * option Z) :=
  match lr_singleton row, lr_database_id row, lr_state_id row,
        lr_accepted_generation row, lr_accepted_nanos row,
        null_integer (lr_prepared_generation row), null_integer (lr_prepared_nanos row) with
  | Integer 1, Text database, Text state, Integer generation, Integer nanos, Some pg, Some pn =>
      Some ({| DatabaseID := database; StateID := state;
               Generation := generation; MaxLease := nanos |}, pg, pn)
  | _, _, _, _, _, _, _ => None
  end.

Definition with_counters (generation nanos : Z) (e : Evidence) : Evidence :=
  {| DatabaseID := DatabaseID e; StateID := StateID e; Generation := generation; MaxLease := nanos |}.

(** [readLeaseRecord] over the rows of the table, in a database whose state row
    holds the identity [database]. *)
Definition readLeaseRecord (database : string) (rows : list lease_row) : result (option leaseRecord) :=
  match rows with
  | [] => Ok None
  | [row] =>
      match scan_row row with
      | None => Err (Wrapped (Errno EIO))
      | Some (found, pg, pn) =>
          match ValidateEvidence found with
          | Some err => Err err
          | None =>
              if negb (ValidID database) then Err (Wrapped (Errno EIO))
              else if negb (bool_decide (DatabaseID found = database))
                      || negb (bool_decide (is_Some pg ↔ is_Some pn))
              then Err (Wrapped (Errno EIO))
              else match pg, pn with
              | Some pg, Some pn =>
                  if (Generation found =? MaxInt64) || negb (pg =? Generation found + 1)
                     || (pn <? MaxLease found)
                  then Err (Wrapped (Errno EIO))
                  else Ok (Some {| accepted := found; prepared := Some (with_counters pg pn found) |})
              | _, _ => Ok (Some {| accepted := found; prepared := None |})
              end
          end
      end
  | _ => Err (Wrapped (Errno EIO))
  end.

(** ** The statements that write the table *)

Definition is_singleton (row : lease_row) : bool := bool_decide (lr_singleton row = Integer 1).

(** [INSERT INTO lease_recovery]; the key is the table's primary key. *)
Definition insert_row (database state : string) (rows : list lease_row) : result (list lease_row) :=
  if existsb is_singleton rows then Err Opaque
  else Ok (rows ++ [{| lr_singleton := Integer 1; lr_database_id := Text database;
                       lr_state_id := Text state; lr_accepted_generation := Integer 0;
                       lr_accepted_nanos := Integer 0; lr_prepared_generation := Null;
                       lr_prepared_nanos := Null |}]).

Definition update_rows (f : lease_row → lease_row) (rows : list lease_row) : list lease_row :=
  (λ row, if is_singleton row then f row else row) <$> rows.

Definition prepare_row (next : Evidence) (row : lease_row) : lease_row :=
  {| lr_singleton := lr_singleton row; lr_database_id := lr_database_id row;
     lr_state_id := lr_state_id row; lr_accepted_generation := lr_accepted_generation row;
     lr_accepted_nanos := lr_accepted_nanos row;
     lr_prepared_generation := Integer (Generation next);
     lr_prepared_nanos := Integer (MaxLease next) |}.

Definition accept_row (next : Evidence) (row : lease_row) : lease_row :=
  {| lr_singleton := lr_singleton row; lr_database_id := lr_database_id row;
     lr_state_id := lr_state_id row; lr_accepted_generation := Integer (Generation next);
     lr_accepted_nanos := Integer (MaxLease next);
     lr_prepared_generation := Null; lr_prepared_nanos := Null |}.

(** The transaction bodies of [RaiseMaxLease], [finalize] and [open]. *)
Definition prepare_body (state next : Evidence) (database : string) (rows : list lease_row)
    : result (list lease_row) :=
  match readLeaseRecord database rows with
  | Err err => Err err
  | Ok (Some {| accepted := found; prepared := None |}) =>
      if bool_decide (found = state) then Ok (update_rows (prepare_row next) rows)
      else Err (Wrapped (Errno EIO))
  | Ok _ => Err (Wrapped (Errno EIO))
  end.

Definition finalize_body (next : Evidence) (database : string) (rows : list lease_row)
    : result (list lease_row) :=
  match readLeaseRecord database rows with
  | Err err => Err err
  | Ok (Some {| prepared := Some found |}) =>
      if bool_decide (found = next) then Ok (update_rows (accept_row next) rows)
      else Err (Wrapped (Errno EIO))
  | Ok _ => Err (Wrapped (Errno EIO))
  end.

Definition initialize_body (state database : string) (rows : list lease_row) : result (list lease_row) :=
  if ValidID database then insert_row database state rows else Err (Wrapped (Errno EIO)).

(** ** The machine *)

Record leaseAnchorBinding := {
  ab_Directory : string;
  ab_Name : string;
  ab_Identity : string;
  ab_StateID : string
}.

Record leaseAnchorIntent := {
  ai_Binding : leaseAnchorBinding;
  ai_Ready : bool
}.

#[global] Instance leaseAnchorBinding_eq_dec : EqDecision leaseAnchorBinding.
Proof. solve_decision. Defined.

(** A record that is replaced as a whole: what is read now, and what is read
    after a power failure at the latest. *)
Record stored (A : Type) := { st_visible : option A; st_synced : option A }.
Arguments st_visible {A} s.
Arguments st_synced {A} s.
Arguments Build_stored {A} _ _.

Definition absent {A} : stored A := Build_stored None None.
Definition put {A} (x : A) (s : stored A) : stored A := Build_stored (Some x) (st_synced s).
Definition sync {A} (s : stored A) : stored A := Build_stored (st_visible s) (st_visible s).
(** A power failure: the record may fall back. *)
Definition survive {A} (loses : bool) (s : stored A) : stored A :=
  if loses then Build_stored (st_synced s) (st_synced s) else s.

(** What becomes of one call; [done] tells whether its effect took place. *)
Inductive answer := Works | Fails (e : error) (done : bool) | Dies (done : bool).

(** The answers to come (none left: all calls work), the table, the
    database's identity, the two files, the extended attribute of the database
    file; then the memory: the file lock, the anchor's intent, the
    coordinator's poison and the state of the recovery. *)
Record machine := {
  m_io : list answer;
  m_rows : list lease_row;
  m_database : string;
  m_intent : stored leaseAnchorIntent;
  m_witness : stored Evidence;
  m_binding : stored leaseAnchorBinding;
  m_owned : bool;
  m_anchor : option leaseAnchorIntent;
  m_poison : option error;
  m_recovery : option Evidence
}.

Definition set_m_io (x : list answer) (m : machine) : machine :=
  {| m_io := x; m_rows := m_rows m; m_database := m_database m; m_intent := m_intent m; 
m_witness := m_witness m; m_binding := m_binding m; m_owned := m_owned m; m_anchor := m_anchor 
m; m_poison := m_poison m; m_recovery := m_recovery m |}.
Definition set_m_rows (x : list lease_row) (m : machine) : machine :=
  {| m_io := m_io m; m_rows := x; m_database := m_database m; m_intent := m_intent m; m_witness 
:= m_witness m; m_binding := m_binding m; m_owned := m_owned m; m_anchor := m_anchor m; 
m_poison := m_poison m; m_recovery := m_recovery m |}.
Definition set_m_intent (x : stored leaseAnchorIntent) (m : machine) : machine :=
  {| m_io := m_io m; m_rows := m_rows m; m_database := m_database m; m_intent := x; m_witness 
:= m_witness m; m_binding := m_binding m; m_owned := m_owned m; m_anchor := m_anchor m; 
m_poison := m_poison m; m_recovery := m_recovery m |}.
Definition set_m_witness (x : stored Evidence) (m : machine) : machine :=
  {| m_io := m_io m; m_rows := m_rows m; m_database := m_database m; m_intent := m_intent m; 
m_witness := x; m_binding := m_binding m; m_owned := m_owned m; m_anchor := m_anchor m; 
m_poison := m_poison m; m_recovery := m_recovery m |}.
Definition set_m_binding (x : stored leaseAnchorBinding) (m : machine) : machine :=
  {| m_io := m_io m; m_rows := m_rows m; m_database := m_database m; m_intent := m_intent m; 
m_witness := m_witness m; m_binding := x; m_owned := m_owned m; m_anchor := m_anchor m; 
m_poison := m_poison m; m_recovery := m_recovery m |}.
Definition set_m_owned (x : bool) (m : machine) : machine :=
  {| m_io := m_io m; m_rows := m_rows m; m_database := m_database m; m_intent := m_intent m; 
m_witness := m_witness m; m_binding := m_binding m; m_owned := x; m_anchor := m_anchor m; 
m_poison := m_poison m; m_recovery := m_recovery m |}.
Definition set_m_anchor (x : option leaseAnchorIntent) (m : machine) : machine :=
  {| m_io := m_io m; m_rows := m_rows m; m_database := m_database m; m_intent := m_intent m; 
m_witness := m_witness m; m_binding := m_binding m; m_owned := m_owned m; m_anchor := x; 
m_poison := m_poison m; m_recovery := m_recovery m |}.
Definition set_m_poison (x : option error) (m : machine) : machine :=
  {| m_io := m_io m; m_rows := m_rows m; m_database := m_database m; m_intent := m_intent m; 
m_witness := m_witness m; m_binding := m_binding m; m_owned := m_owned m; m_anchor := m_anchor 
m; m_poison := x; m_recovery := m_recovery m |}.
Definition set_m_recovery (x : option Evidence) (m : machine) : machine :=
  {| m_io := m_io m; m_rows := m_rows m; m_database := m_database m; m_intent := m_intent m; 
m_witness := m_witness m; m_binding := m_binding m; m_owned := m_owned m; m_anchor := m_anchor 
m; m_poison := m_poison m; m_recovery := x |}.

(** ** Calls *)

Inductive outcome (A : Type) := Value (a : A) | Error (e : error) | Death.
Arguments Value {A} a.
Arguments Error {A} e.
Arguments Death {A}.

Definition io (A : Type) : Type := machine → outcome A * machine.

Definition io_ret {A} (a : A) : io A := λ m, (Value a, m).
Definition io_error {A} (e : error) : io A := λ m, (Error e, m).
Definition io_bind {A B} (c : io A) (k : A → io B) : io B :=
  λ m, match c m with
       | (Value a, m) => k a m
       | (Error e, m) => (Error e, m)
       | (Death, m) => (Death, m)
       end.
(** What is done with the error of a call. *)
Definition io_catch {A} (c : io A) (h : error → io A) : io A :=
  λ m, match c m with
       | (Error e, m) => h e m
       | answer => answer
       end.
Definition io_gets {A} (f : machine → A) : io A := λ m, (Value (f m), m).
Definition io_modify (f : machine → machine) : io unit := λ m, (Value tt, f m).

Declare Scope io_scope.
Delimit Scope io_scope with io.
Notation "'let?' x := c 'in' k" := (io_bind c (λ x, k))
  (at level 10, x name, c at level 100, k at level 200,
   format "'[v' 'let?'  x  :=  c  'in'  '/' k ']'") : io_scope.
Notation "'do?' c 'in' k" := (io_bind c (λ _, k))
  (at level 10, c at level 100, k at level 200,
   format "'[v' 'do?'  c  'in'  '/' k ']'") : io_scope.
Open Scope io_scope.

(** An error value, returned when there is one. *)
Definition io_check (err : option error) : io unit :=
  match err with None => io_ret tt | Some err => io_error err end.

(** [errors.Join(e, c())] *)
Definition io_also {A} (e : error) (c : io unit) : io A :=
  λ m, match c m with
       | (Value _, m) => (Error (Joined [e]), m)
       | (Error e', m) => (Error (Joined [e; e']), m)
       | (Death, m) => (Death, m)
       end.
(** [errors.Join(c(), d())]: both are called. *)
Definition io_both (c d : io unit) : io unit :=
  io_bind (io_catch c (λ e, io_also e d)) (λ _, io_catch d (λ e, io_error (Joined [e]))).

(** A call with the effect [f]. *)
Definition effect (f : machine → machine) : io unit := λ m,
  let rest := set_m_io (tail (m_io m)) m in
  match head (m_io m) with
  | None | Some Works => (Value tt, f rest)
  | Some (Fails e done) => (Error e, if done then f rest else rest)
  | Some (Dies done) => (Death, if done then f rest else rest)
  end.

(** A call that reads, or whose effect nothing here depends on. *)
Definition attempt : io unit := effect id.

(** ** The anchor *)

Definition leaseAnchorFailure (cause : error) : error := Wrapped (Joined [cause; Errno EIO]).
Definition anchored {A} (c : io A) : io A := io_catch c (λ e, io_error (leaseAnchorFailure e)).

Definition syncDirectory : io unit :=
  effect (λ m, set_m_intent (sync (m_intent m)) (set_m_witness (sync (m_witness m)) m)).
Definition syncBinding : io unit := effect (λ m, set_m_binding (sync (m_binding m)) m).

(** [publish]: the stage is written and synced under a name of its own (a stage
    left behind is removed first), renamed to the record, and the directory
    synced. *)
Definition publish (exists_ : bool) (rename : machine → machine) (createOnly : bool) : io unit :=
  do? anchored attempt in
  do? anchored (if createOnly && exists_ then io_error (Errno EEXIST) else effect rename) in
  anchored syncDirectory.

Definition publish_intent (intent : leaseAnchorIntent) (createOnly : bool) : io unit :=
  let? current := io_gets (λ m, st_visible (m_intent m)) in
  publish (bool_decide (is_Some current)) (λ m, set_m_intent (put intent (m_intent m)) m) createOnly.
Definition publish_witness (next : Evidence) (createOnly : bool) : io unit :=
  let? current := io_gets (λ m, st_visible (m_witness m)) in
  publish (bool_decide (is_Some current)) (λ m, set_m_witness (put next (m_witness m)) m) createOnly.

Definition verify (intent : leaseAnchorIntent) : io unit :=
  do? anchored attempt in
  let? actual := io_gets (λ m, st_visible (m_binding m)) in
  if bool_decide (actual = Some (ai_Binding intent)) then io_ret tt
  else io_error (leaseAnchorFailure (Errno EIO)).

Definition validateEvidence (intent : leaseAnchorIntent) (evidence : Evidence) : option error :=
  if negb (ValidID (DatabaseID evidence))
     || negb (bool_decide (StateID evidence = ab_StateID (ai_Binding intent)))
     || (Generation evidence <? 0) || (MaxLease evidence <? 0)
  then Some (leaseAnchorFailure (Errno EIO)) else None.

Definition load (intent : leaseAnchorIntent) : io (option Evidence) :=
  do? anchored attempt in
  let? found := io_gets (λ m, st_visible (m_witness m)) in
  match found with
  | None => if ai_Ready intent then io_error (leaseAnchorFailure (Errno EIO)) else io_ret None
  | Some evidence => do? io_check (validateEvidence intent evidence) in io_ret (Some evidence)
  end.

(** A method of the open anchor; the code holds one whenever it calls these. *)
Definition with_anchor {A} (f : leaseAnchorIntent → io A) : io A :=
  let? anchor := io_gets m_anchor in
  match anchor with
  | None => io_error (leaseAnchorFailure (Errno EBADF))
  | Some intent => f intent
  end.

Definition Load : io (option Evidence) :=
  with_anchor (λ intent, do? verify intent in load intent).

Definition not_next (previous next : Evidence) : bool :=
  negb (bool_decide (DatabaseID next = DatabaseID previous))
  || (Generation next <=? Generation previous)
  || negb (Generation next - Generation previous =? 1)
  || (MaxLease next <? MaxLease previous).

Definition Advance (next : Evidence) : io unit :=
  with_anchor (λ intent,
    do? verify intent in
    do? io_check (validateEvidence intent next) in
    let? previous := load intent in
    match previous with
    | Some previous =>
        if bool_decide (previous = next) then anchored syncDirectory
        else if not_next previous next then io_error (leaseAnchorFailure (Errno EIO))
        else do? publish_witness next false in verify intent
    | None => do? publish_witness next true in verify intent
    end).

Definition Complete : io unit :=
  with_anchor (λ intent,
    do? verify intent in
    let? found := io_catch (load intent) (λ e, io_error (Joined [e; leaseAnchorFailure (Errno EIO)])) in
    match found with
    | None => io_error (Joined [leaseAnchorFailure (Errno EIO)])
    | Some _ =>
        if ai_Ready intent then anchored syncDirectory
        else
          let next := {| ai_Binding := ai_Binding intent; ai_Ready := true |} in
          do? publish_intent next false in
          do? io_modify (set_m_anchor (Some next)) in
          verify next
    end).

(** [nativelease.Config]; the shape of its paths is not checked here. *)
Record AnchorConfig := {
  cf_Directory : string;
  cf_Name : string;
  cf_Identity : string;
  cf_Initialize : bool
}.

Definition bound_to (config : AnchorConfig) (state : string) : leaseAnchorBinding :=
  {| ab_Directory := cf_Directory config; ab_Name := cf_Name config;
     ab_Identity := cf_Identity config; ab_StateID := state |}.

(** The intent is read, or created with the random state identity. *)
Definition open_intent (config : AnchorConfig) (random : list Z)
    (intent : option leaseAnchorIntent) (binding : option leaseAnchorBinding) : io leaseAnchorIntent :=
  match intent with
  | None =>
      if bool_decide (is_Some binding) || negb (cf_Initialize config)
      then io_error (leaseAnchorFailure (Errno EIO))
      else
        do? anchored attempt in
        let? witness := io_gets (λ m, st_visible (m_witness m)) in
        match witness with
        | Some _ => io_error (leaseAnchorFailure (Errno EIO))
        | None =>
            do? anchored attempt in
            let intent := {| ai_Binding := bound_to config (hex_encode random); ai_Ready := false |} in
            do? publish_intent intent true in
            io_ret intent
        end
  | Some intent =>
      let state := ab_StateID (ai_Binding intent) in
      if negb (bool_decide (ai_Binding intent = bound_to config state)) || negb (ValidID state)
      then io_error (leaseAnchorFailure (Errno EIO))
      else io_ret intent
  end.

Definition open_binding (config : AnchorConfig) (intent : leaseAnchorIntent)
    (binding : option leaseAnchorBinding) : io unit :=
  match binding with
  | None =>
      if ai_Ready intent || negb (cf_Initialize config)
      then io_error (leaseAnchorFailure (Errno EIO))
      else
        do? anchored (effect (λ m, set_m_binding (put (ai_Binding intent) (m_binding m)) m)) in
        anchored syncBinding
  | Some actual =>
      if bool_decide (actual = ai_Binding intent) then io_ret tt
      else io_error (leaseAnchorFailure (Errno EIO))
  end.

(** [openAnchor]: first the directory's and the binding's checks and the
    capability probes, then the records; a failure closes the descriptors. *)
Definition openAnchor (config : AnchorConfig) (random : list Z) : io leaseAnchorIntent :=
  io_catch
    (do? anchored attempt in
     do? anchored attempt in
     let? found := io_gets (λ m, st_visible (m_intent m)) in
     do? anchored attempt in
     let? binding := io_gets (λ m, st_visible (m_binding m)) in
     let? intent := open_intent config random found binding in
     do? open_binding config intent binding in
     do? anchored (io_both syncBinding syncDirectory) in
     do? verify intent in
     do? io_catch (load intent) (λ e, io_error (Joined [e; leaseAnchorFailure (Errno EIO)])) in
     do? anchored attempt in
     io_ret intent)
    (λ e, io_also e (anchored attempt)).

(** ** The store *)

(** [DurabilityFailure]: [EIO], and its cause. *)
Definition durability_failure (cause : error) : error := Joined [cause; Errno EIO].
(** The first poison stays. *)
Definition poisonLocked (e : error) (m : machine) : machine :=
  match m_poison m with
  | Some _ => m
  | None => set_m_poison (Some (durability_failure e)) m
  end.

Definition healthy : io unit :=
  let? poison := io_gets m_poison in
  match poison with Some e => io_error (Wrapped e) | None => io_ret tt end.

(** [mutationCleanupFailure], after the transaction's rollback. *)
Definition rollback {A} (primary : error) : io A :=
  λ m, match attempt m with
       | (Value _, m) => (Error primary, m)
       | (Error e, m) =>
           let err := Joined [primary; Wrapped (durability_failure e)] in
           (Error err, poisonLocked err m)
       | (Death, m) => (Death, m)
       end.

(** A failed commit may have taken place; the store is poisoned. *)
Definition commitPrepared (rows : list lease_row) : io unit :=
  io_catch (effect (set_m_rows rows)) (λ e,
    do? io_modify (poisonLocked e) in
    let? poison := io_gets m_poison in
    io_error (Wrapped (default e poison))).

(** [mutate]: the commit gate, the transaction's begin, the reads before the
    body and the accounting after it answer as calls. *)
Definition mutate (body : string → list lease_row → result (list lease_row)) : io unit :=
  do? attempt in
  do? healthy in
  do? attempt in
  let? rows := io_catch
    (do? attempt in
     let? rows := io_gets (λ m, body (m_database m) (m_rows m)) in
     match rows with
     | Err err => io_error err
     | Ok rows => do? attempt in do? healthy in io_ret rows
     end) rollback in
  commitPrepared rows.

(** [inspect] of the record. *)
Definition inspect_record : io (option leaseRecord) :=
  do? attempt in
  do? healthy in
  do? attempt in
  let? found := io_gets (λ m, readLeaseRecord (m_database m) (m_rows m)) in
  match found with
  | Err err => io_also err attempt
  | Ok record => do? io_catch attempt (λ e, io_error (Joined [e])) in io_ret record
  end.

(** [LeaseRecovery.fail] *)
Definition lease_fail {A} (e : error) : io A :=
  let poison := Joined [Errno EIO; e] in
  do? io_modify (poisonLocked poison) in io_error poison.

Definition advanceWitness (state : Evidence) : io unit :=
  io_catch (Advance state) (λ e, lease_fail (Wrapped e)).

Definition finalize (next : Evidence) : io unit :=
  io_catch (mutate (finalize_body next)) (λ e, lease_fail (Wrapped e)).

Definition lease_corrupt {A} : io A := io_error (Wrapped (Errno EIO)).

(** The record of the database, created while the volume is initialized. *)
Definition open_record (state : string) (initialize : bool) (witness : option Evidence)
    : io leaseRecord :=
  let? found := io_catch inspect_record (λ e, io_error (Wrapped (Joined [Errno EIO; e]))) in
  match found with
  | Some record => io_ret record
  | None =>
      if negb initialize || bool_decide (is_Some witness) then lease_corrupt
      else
        do? mutate (initialize_body state) in
        let? database := io_gets m_database in
        io_ret {| accepted := {| DatabaseID := database; StateID := state;
                                 Generation := 0; MaxLease := 0 |};
                  prepared := None |}
  end.

(** The witness, created while the volume is initialized. *)
Definition open_witness (initialize : bool) (record : leaseRecord) (witness : option Evidence)
    : io Evidence :=
  match witness with
  | Some witness => io_ret witness
  | None =>
      if negb initialize || negb (Generation (accepted record) =? 0)
         || negb (MaxLease (accepted record) =? 0) || bool_decide (is_Some (prepared record))
      then lease_corrupt
      else do? advanceWitness (accepted record) in io_ret (accepted record)
  end.

(** [LeaseRecovery.open] *)
Definition recovery_open (state : string) (initialize : bool) : io Evidence :=
  let? found := io_catch Load (λ e, io_error (Wrapped (Joined [Errno EIO; e]))) in
  let? record := open_record state initialize found in
  if negb (bool_decide (StateID (accepted record) = state)) then lease_corrupt
  else
    let? witness := open_witness initialize record found in
    do? io_check (ValidateEvidence witness) in
    match prepared record with
    | None => if bool_decide (accepted record = witness) then io_ret (accepted record) else lease_corrupt
    | Some next =>
        if negb (bool_decide (witness = accepted record)) && negb (bool_decide (witness = next))
        then lease_corrupt
        else
          do? advanceWitness next in
          do? finalize next in
          io_ret next
    end.

(** [ConfigureLeaseRecovery] with the anchor's own state and intent, as
    [OpenLocking] calls it. *)
Definition ConfigureLeaseRecovery : io unit :=
  do? attempt in
  with_anchor (λ intent,
    do? verify intent in
    do? attempt in
    let state := ab_StateID (ai_Binding intent) in
    let? recovery := io_gets m_recovery in
    if bool_decide (is_Some recovery) || negb (ValidID state) then io_error (Wrapped (Errno EINVAL))
    else
      do? healthy in
      let? opened := recovery_open state (negb (ai_Ready intent)) in
      io_modify (set_m_recovery (Some opened))).

Definition configuredLeaseRecovery : io Evidence :=
  let? recovery := io_gets m_recovery in
  match recovery with
  | None => io_error (Wrapped (Errno EIO))
  | Some state => io_ret state
  end.

(** [Store.MaxLease] *)
Definition Store_MaxLease : io Z :=
  let? state := configuredLeaseRecovery in
  do? attempt in
  do? healthy in
  io_ret (MaxLease state).

Definition RaiseMaxLease (ttl : Z) : io unit :=
  if ttl <=? 0 then io_error (Wrapped (Errno EINVAL))
  else
    let? state := configuredLeaseRecovery in
    do? attempt in
    do? healthy in
    if ttl <=? MaxLease state then io_ret tt
    else if Generation state =? MaxInt64 then io_error (Wrapped (Errno ENOSPC))
    else
      let next := with_counters (Generation state + 1) ttl state in
      do? mutate (prepare_body state next) in
      do? advanceWitness next in
      do? finalize next in
      io_modify (set_m_recovery (Some next)).

(** ** Opening a volume *)

Definition forget (m : machine) : machine :=
  set_m_anchor None (set_m_poison None (set_m_recovery None m)).

(** [file.Close()]: the descriptor, and with it the lock, is gone unless the
    call had no effect. *)
Definition release_file : io unit := effect (set_m_owned false).

(** [AcquireDatabase]: the lock of another owner is refused. *)
Definition AcquireDatabase : io unit :=
  let? owned := io_gets m_owned in
  do? (if owned : bool then io_error (Wrapped (Errno EBUSY)) else attempt) in
  io_modify (set_m_owned true).

(** The [cleanup] of [OpenLocking]: a store that does not close keeps the lock. *)
Definition open_cleanup {A} (primary : error) : io A :=
  do? io_modify forget in
  do? io_catch attempt (λ e, io_error (Joined [primary; e])) in
  io_also primary (io_both (anchored attempt) release_file).

(** [OpenLocking], from the acquisition of the database file. *)
Definition OpenLocking (config : AnchorConfig) (random : list Z) : io unit :=
  do? AcquireDatabase in
  let? intent := io_catch (openAnchor config random) (λ e, io_also e release_file) in
  do? io_modify (set_m_anchor (Some intent)) in
  io_catch
    (do? attempt in
     do? attempt in
     do? ConfigureLeaseRecovery in
     do? Complete in
     do? attempt in
     do? healthy in
     do? Store_MaxLease in
     attempt)
    open_cleanup.

(** ** Runs *)

(** What happens to a machine: calls of the process, the fence that other
    operations of the store may raise, its end, with or without the loss of
    records not synced, and the replacement of either record. *)
Inductive event :=
| Opens (initialize : bool) (random : list Z)
| Raises (ttl : Z)
| Asks
| Fenced (e : error)
| Stops (intent witness binding : bool)
| ReplacesRows (rows : list lease_row)
| ReplacesWitness (witness : stored Evidence).

Inductive response := Opened | Raised | Maximum (d : Z) | Refused (e : error) | Died | Quiet.

(** The end of the process; each flag tells whether a record falls back. *)
Definition stop (intent witness binding : bool) (m : machine) : machine :=
  let m := set_m_io [] (set_m_owned false (forget m)) in
  set_m_intent (survive intent (m_intent m)) (set_m_witness (survive witness (m_witness m))
    (set_m_binding (survive binding (m_binding m)) m)).

Definition answered {A} (r : A → response) (x : outcome A * machine) : response * machine :=
  match x with
  | (Value a, m) => (r a, m)
  | (Error e, m) => (Refused e, m)
  | (Death, m) => (Died, stop false false false m)
  end.

Section runs.
Context (directory name identity : string).

Definition volume_config (initialize : bool) : AnchorConfig :=
  {| cf_Directory := directory; cf_Name := name; cf_Identity := identity; cf_Initialize := initialize |}.

Definition exec (answers : list answer) (e : event) (m : machine) : response * machine :=
  let m := set_m_io answers m in
  match e with
  | Opens initialize random =>
      answered (λ _, Opened) (OpenLocking (volume_config initialize) random m)
  | Raises ttl => answered (λ _, Raised) (RaiseMaxLease ttl m)
  | Asks => answered Maximum (Store_MaxLease m)
  | Fenced e => (Quiet, poisonLocked e m)
  | Stops intent witness binding => (Quiet, stop intent witness binding m)
  | ReplacesRows rows => (Quiet, set_m_rows rows m)
  | ReplacesWitness witness => (Quiet, set_m_witness witness m)
  end.

Definition run (es : list (list answer * event)) (m : machine) : machine :=
  fold_left (λ m e, (exec e.1 e.2 m).2) es m.

End runs.

(** A database that has no lease state. *)
Definition unbound (database : string) : machine :=
  {| m_io := []; m_rows := []; m_database := database; m_intent := absent; m_witness := absent;
     m_binding := absent; m_owned := false; m_anchor := None; m_poison := None; m_recovery := None |}.
