(* ===== verification/LeaseSpecs.v ===== *)
(** * Reasoning about the calls of the lease store

    A weakest precondition for the calls of [LeaseStore], which lets every call
    into SQLite or the file system work, fail or kill the process, and what the
    anchor and the transactions do under it. *)

From S2P Require Import Prelude Errors Identity LeaseStore.
Open Scope Z_scope.
Open Scope io_scope.

(** ** The calculus *)

(** The machine without the answers to come. *)
Definition view (m : machine) : machine := set_m_io [] m.

Definition wp {A} (c : io A) (Q : outcome A → machine → Prop) (v : machine) : Prop :=
  ∀ m, view m = v → Q (c m).1 (view (c m).2).

Section rules.
Context {A B : Type}.
Implicit Types (Q : outcome A → machine → Prop) (v : machine).

Lemma wp_mono (c : io A) Q Q' v : wp c Q' v → (∀ r v, Q' r v → Q r v) → wp c Q v.
Proof. intros H HQ m Hm. auto. Qed.

Lemma wp_ret a Q v : Q (Value a) v → wp (io_ret a) Q v.
Proof. by intros H m <-. Qed.

Lemma wp_error e Q v : Q (Error e) v → wp (io_error e) Q v.
Proof. by intros H m <-. Qed.

Lemma wp_bind (c : io B) (k : B → io A) Q v :
  wp c (λ r v, match r with Value a => wp (k a) Q v | Error e => Q (Error e) v | Death => Q Death v end) v →
  wp (io_bind c k) Q v.
Proof.
  intros H m Hm. specialize (H m Hm). unfold io_bind. destruct (c m) as [[a|e|] m']; cbn in *; auto.
Qed.

Lemma wp_catch (c : io A) h Q v :
  wp c (λ r v, match r with Error e => wp (h e) Q v | r => Q r v end) v → wp (io_catch c h) Q v.
Proof.
  intros H m Hm. specialize (H m Hm). unfold io_catch. destruct (c m) as [[a|e|] m']; cbn in *; auto.
Qed.

Lemma wp_gets (f : machine → A) Q v :
  (∀ m, f (view m) = f m) → Q (Value (f v)) v → wp (io_gets f) Q v.
Proof. intros Hf H m <-. cbn. by rewrite <- Hf. Qed.

Lemma wp_also e (c : io unit) Q v :
  wp c (λ r v, match r with
               | Value _ => Q (Error (Joined [e])) v
               | Error e' => Q (Error (Joined [e; e'])) v
               | Death => Q Death v
               end) v →
  wp (io_also e c) Q v.
Proof.
  intros H m Hm. specialize (H m Hm). unfold io_also. destruct (c m) as [[a|e'|] m']; cbn in *; auto.
Qed.

Lemma wp_anchored (c : io A) Q v :
  wp c (λ r v, match r with Error e => Q (Error (leaseAnchorFailure e)) v | r => Q r v end) v →
  wp (anchored c) Q v.
Proof.
  intros H. apply wp_catch. eapply wp_mono; [exact H|]. intros [a|e|] v' HQ; try done. by apply wp_error.
Qed.
End rules.

Section effects.
Implicit Types (Q : outcome unit → machine → Prop) (v : machine).

Lemma wp_modify f Q v :
  (∀ m, view (f m) = f (view m)) → Q (Value tt) (f v) → wp (io_modify f) Q v.
Proof. intros Hf H m <-. unfold io_modify. cbn [fst snd]. by rewrite Hf. Qed.

Lemma wp_effect f Q v :
  (∀ x m, view (f (set_m_io x m)) = f (view m)) →
  Q (Value tt) (f v) →
  (∀ v', v' = f v ∨ v' = v → (∀ e, Q (Error e) v') ∧ Q Death v') →
  wp (effect f) Q v.
Proof.
  intros Hf HV HE m <-. unfold effect.
  destruct (HE (f (view m))) as [H1 H2]; [by left|]. destruct (HE (view m)) as [H3 H4]; [by right|].
  destruct (head (m_io m)) as [[|e [|]|[|]]|]; cbn [fst snd]; rewrite ?Hf; auto.
Qed.

Lemma wp_attempt Q v :
  Q (Value tt) v → (∀ e, Q (Error e) v) → Q Death v → wp attempt Q v.
Proof. intros. apply wp_effect; [done..|]. by intros v' [-> | ->]. Qed.

Lemma wp_check err Q v :
  (err = None → Q (Value tt) v) → (∀ e, err = Some e → Q (Error e) v) → wp (io_check err) Q v.
Proof. destruct err; cbn; intros; [apply wp_error|apply wp_ret]; auto. Qed.

Lemma wp_healthy Q v :
  (m_poison v = None → Q (Value tt) v) → (∀ e, Q (Error e) v) → wp healthy Q v.
Proof.
  intros H1 H2. apply wp_bind, wp_gets; [done|]. destruct (m_poison v) eqn:E; [by apply wp_error|by apply wp_ret, H1].
Qed.

Lemma wp_both c d Q v :
  wp c (λ r v, match r with
               | Value _ => wp d (λ r v, match r with Error e => Q (Error (Joined [e])) v | r => Q r v end) v
               | Error e => wp d (λ r v, match r with
                                         | Value _ => Q (Error (Joined [e])) v
                                         | Error e' => Q (Error (Joined [e; e'])) v
                                         | Death => Q Death v
                                         end) v
               | Death => Q Death v
               end) v →
  wp (io_both c d) Q v.
Proof.
  intros H. apply wp_bind, wp_catch. eapply wp_mono; [exact H|]. intros [a|e|] v' HQ; try done.
  - apply wp_catch. eapply wp_mono; [exact HQ|]. intros [b|e|] v'' HQ'; try done. by apply wp_error.
  - by apply wp_also.
Qed.
End effects.

(** Where every way out of a call but its success is allowed. *)
Definition aborts {A} (Q : outcome A → machine → Prop) (v : machine) : Prop :=
  (∀ e, Q (Error e) v) ∧ Q Death v.

(** One step of a call, with the leftover goals about [aborts] solved when they
    are hypotheses. *)
Ltac wp_leaf :=
  intros; cbn beta iota; try (apply wp_error; cbn beta iota);
  first [done | match goal with H : aborts _ _ |- _ => apply H end].
Ltac wp_step :=
  lazymatch goal with
  | |- wp (io_bind _ _) _ _ => apply wp_bind
  | |- wp (io_catch _ _) _ _ => apply wp_catch
  | |- wp (io_also _ _) _ _ => apply wp_also
  | |- wp (io_both _ _) _ _ => apply wp_both
  | |- wp (anchored _) _ _ => apply wp_anchored
  | |- wp (io_ret _) _ _ => apply wp_ret
  | |- wp (io_error _) _ _ => apply wp_error
  | |- wp (io_gets _) _ _ => apply wp_gets; [done|]
  | |- wp attempt _ _ => apply wp_attempt; [|intros ?|]; try solve [wp_leaf]
  end.
Ltac wp_steps := repeat wp_step; try solve [wp_leaf].

(** ** The anchor *)

Definition synced (v : machine) : machine :=
  set_m_intent (sync (m_intent v)) (set_m_witness (sync (m_witness v)) v).
Definition renamed (next : Evidence) (v : machine) : machine :=
  set_m_witness (put next (m_witness v)) v.

Section anchor.
Implicit Types (v w : machine).

Lemma wp_syncDirectory Q v :
  Q (Value tt) (synced v) → aborts Q v → aborts Q (synced v) → wp syncDirectory Q v.
Proof. intros H1 H2 H3. apply wp_effect; [done..|]. intros w [-> | ->]; [exact H3|exact H2]. Qed.

Lemma wp_verify intent Q v :
  (st_visible (m_binding v) = Some (ai_Binding intent) → Q (Value tt) v) → aborts Q v →
  wp (verify intent) Q v.
Proof.
  intros H1 H2. unfold verify. wp_steps. case_bool_decide; wp_steps. by apply H1.
Qed.

Lemma wp_load intent Q v :
  (∀ found, st_visible (m_witness v) = found → (found = None → ai_Ready intent = false) →
    (∀ e, found = Some e → validateEvidence intent e = None) → Q (Value found) v) →
  aborts Q v → wp (load intent) Q v.
Proof.
  intros H1 H2. unfold load. wp_steps. destruct (st_visible (m_witness v)) as [e|] eqn:E.
  - wp_steps. apply wp_check; [|intros; wp_leaf]. intros Hv. wp_steps. apply H1; [done..|]. by intros e' [= ->].
  - destruct (ai_Ready intent) eqn:Er; wp_steps. by apply H1.
Qed.

Lemma wp_with_anchor {A} (f : leaseAnchorIntent → io A) Q v :
  (∀ intent, m_anchor v = Some intent → wp (f intent) Q v) → (∀ e, Q (Error e) v) →
  wp (with_anchor f) Q v.
Proof. intros H1 H2. unfold with_anchor. wp_steps. destruct (m_anchor v); wp_steps. by apply H1. Qed.

Lemma wp_publish exists_ rename createOnly Q v :
  (∀ x m, view (rename (set_m_io x m)) = rename (view m)) →
  (createOnly && exists_ = false →
    Q (Value tt) (synced (rename v)) ∧ aborts Q (rename v) ∧ aborts Q (synced (rename v))) →
  aborts Q v → wp (publish exists_ rename createOnly) Q v.
Proof.
  intros Hr H1 H2. unfold publish. wp_steps. destruct (createOnly && exists_).
  - wp_steps.
  - destruct H1 as (H1 & H3 & H4); [done|]. apply wp_effect; [done| |].
    + wp_steps. apply wp_syncDirectory; [done| |]; split; wp_leaf.
    + intros w [-> | ->]; split; wp_leaf.
Qed.

(** The witness may be replaced by [next]. *)
Definition follows (w : stored Evidence) (next : Evidence) : Prop :=
  match st_visible w with None => True | Some previous => not_next previous next = false end.

Definition writable (next : Evidence) v : Prop :=
  ∃ intent, m_anchor v = Some intent ∧ validateEvidence intent next = None
    ∧ st_visible (m_binding v) = Some (ai_Binding intent).

(** Where [Advance] leaves the files when it succeeds, and when it does not. *)
Definition settles (next : Evidence) v v' : Prop :=
  (st_visible (m_witness v) = Some next ∧ v' = synced v)
  ∨ (follows (m_witness v) next ∧ v' = synced (renamed next v)).
Definition advances (next : Evidence) v v' : Prop :=
  settles next v v' ∨ (follows (m_witness v) next ∧ v' = renamed next v).

Lemma wp_publish_witness next createOnly Q v :
  Q (Value tt) (synced (renamed next v)) → aborts Q v → aborts Q (renamed next v) →
  aborts Q (synced (renamed next v)) → wp (publish_witness next createOnly) Q v.
Proof.
  intros H1 H2 H3 H4. unfold publish_witness. wp_steps. apply wp_publish; [done|intros _; by split_and!|done].
Qed.

Lemma wp_Advance next Q v :
  (∀ v', writable next v → settles next v v' → Q (Value tt) v') →
  aborts Q v → (∀ v', writable next v → advances next v v' → aborts Q v') →
  wp (Advance next) Q v.
Proof.
  intros H1 H2 H3. apply wp_with_anchor; [|wp_leaf]. intros intent Hi. wp_steps.
  apply wp_verify; [|split; wp_leaf]. intros Hb. wp_steps. apply wp_check; [|intros; wp_leaf]. intros Hv.
  assert (writable next v) as Hw by by exists intent.
  wp_steps. apply wp_load; [|split; wp_leaf]. intros found Hf _ _.
  assert (∀ createOnly, follows (m_witness v) next →
    wp (io_bind (publish_witness next createOnly) (λ _, verify intent)) Q v) as Hpub.
  { intros c Hfo. pose proof (H3 (renamed next v) Hw (or_intror (conj Hfo eq_refl))) as A1.
    pose proof (H3 (synced (renamed next v)) Hw (or_introl (or_intror (conj Hfo eq_refl)))) as A2.
    wp_steps. apply wp_publish_witness; [|split; wp_leaf..].
    apply wp_verify; [|done]. intros _. apply H1; [done|]. by right. }
  unfold follows in Hpub. rewrite Hf in Hpub. destruct found as [previous|].
  - case_bool_decide as Hp.
    + subst previous. wp_steps. apply wp_syncDirectory.
      * apply H1; [done|]. by left.
      * split; wp_leaf.
      * destruct (H3 (synced v) Hw) as [HA HB]; [by left; left|]. by split.
    + destruct (not_next previous next) eqn:En; [wp_steps|]. by apply Hpub.
  - by apply Hpub.
Qed.
End anchor.

(** ** Transactions *)

Section transactions.
Implicit Types (v : machine).

Lemma poison_twice e e' v : poisonLocked e (poisonLocked e' v) = poisonLocked e' v.
Proof. unfold poisonLocked. by destruct (m_poison v) eqn:E; cbn; rewrite ?E. Qed.

Lemma view_poison e m : view (poisonLocked e m) = poisonLocked e (view m).
Proof. unfold poisonLocked. by destruct (m_poison m) eqn:E; cbn; rewrite E. Qed.

Lemma wp_rollback {A} e (Q : outcome A → machine → Prop) v :
  aborts Q v → (∀ e e', Q (Error e') (poisonLocked e v)) → wp (rollback e) Q v.
Proof.
  intros H1 H2 m <-. unfold rollback, attempt, effect.
  destruct (head (m_io m)) as [[|e' [|]|[|]]|]; cbn [fst snd id]; try rewrite view_poison; wp_leaf.
Qed.

Lemma wp_commitPrepared rows Q v :
  Q (Value tt) (set_m_rows rows v) → Q Death v → Q Death (set_m_rows rows v) →
  (∀ e e', Q (Error e') (poisonLocked e v) ∧ Q (Error e') (poisonLocked e (set_m_rows rows v))) →
  wp (commitPrepared rows) Q v.
Proof.
  intros H1 H2 H3 H4. unfold commitPrepared. wp_steps. apply wp_effect; [done..|].
  intros w [-> | ->]; (split; [intros e|done]); wp_steps; (apply wp_modify; [apply view_poison|]);
    wp_steps; apply H4.
Qed.

(** [mutate] succeeds, leaves the rows alone, or poisons the store. *)
Lemma wp_mutate body Q v :
  aborts Q v → (∀ e e', Q (Error e') (poisonLocked e v)) →
  (∀ rows, m_poison v = None → body (m_database v) (m_rows v) = Ok rows →
    Q (Value tt) (set_m_rows rows v) ∧ Q Death (set_m_rows rows v)
    ∧ ∀ e e', Q (Error e') (poisonLocked e (set_m_rows rows v))) →
  wp (mutate body) Q v.
Proof.
  intros H1 H2 H3. unfold mutate. wp_steps. apply wp_healthy; [|wp_leaf]. intros Hp. wp_steps.
  all: try (by apply wp_rollback).
  destruct (body (m_database v) (m_rows v)) as [rows|err] eqn:Hb; [|wp_steps; by apply wp_rollback].
  destruct (H3 rows Hp eq_refl) as (H4 & H5 & H6). wp_steps; [|by apply wp_rollback].
  apply wp_healthy; [|intros e; by apply wp_rollback].
  intros _. wp_steps. apply wp_commitPrepared; [done|wp_leaf|done|by split].
Qed.

Lemma wp_inspect_record Q v :
  (∀ found, readLeaseRecord (m_database v) (m_rows v) = Ok found → Q (Value found) v) → aborts Q v →
  wp inspect_record Q v.
Proof.
  intros H1 H2. unfold inspect_record. wp_steps. apply wp_healthy; [|wp_leaf]. intros _. wp_steps.
  destruct (readLeaseRecord _ _) as [found|err]; wp_steps. by apply H1.
Qed.

Lemma wp_fail {A} e (Q : outcome A → machine → Prop) v :
  (∀ e e', Q (Error e') (poisonLocked e v)) → wp (lease_fail e) Q v.
Proof.
  intros H. unfold lease_fail. wp_steps. apply wp_modify; [apply view_poison|]. wp_steps.
Qed.

(** A failure of the next two poisons the store. *)
Definition fences {A} (Q : outcome A → machine → Prop) v : Prop :=
  Q Death v ∧ ∀ e e', Q (Error e') (poisonLocked e v).

Lemma wp_advanceWitness next Q v :
  (∀ v', writable next v → settles next v v' → Q (Value tt) v') →
  fences Q v → (∀ v', writable next v → advances next v v' → fences Q v') →
  wp (advanceWitness next) Q v.
Proof.
  intros H1 H2 H3. unfold advanceWitness. wp_steps. apply wp_Advance; [done| |].
  - split; [intros; apply wp_fail|]; apply H2.
  - intros v' Hw Ha. split; [intros; apply wp_fail|]; by apply H3.
Qed.

Lemma wp_finalize next Q v :
  (∀ rows, m_poison v = None → finalize_body next (m_database v) (m_rows v) = Ok rows →
    Q (Value tt) (set_m_rows rows v) ∧ fences Q (set_m_rows rows v)) →
  fences Q v → wp (finalize next) Q v.
Proof.
  intros H1 [H2 H3]. unfold finalize. wp_steps. apply wp_mutate.
  - split; [intros; by apply wp_fail|done].
  - intros e e'. apply wp_fail. intros. by rewrite poison_twice.
  - intros rows Hp Hb. destruct (H1 rows Hp Hb) as (H4 & H5 & H6). split_and!; [done..|].
    intros e e'. apply wp_fail. intros. by rewrite poison_twice.
Qed.
End transactions.
