(* ===== verification/LeaseProtocol.v ===== *)
(** * The two-record protocol

    What the lease store does to its durable records, as a step relation: the
    intent and the binding are created, the row is inserted, prepared and
    accepted, the witness follows in between, and directories are synced.  The
    operations of [LeaseStore] are sequences of these steps, whatever calls
    fail and wherever the process dies. *)

From S2P Require Import Prelude Errors Identity LeaseStore LeaseSpecs.
From stdpp Require Import relations.
Open Scope Z_scope.
Open Scope io_scope.

(** ** The row of a record *)

Definition record_ok (database : string) (r : leaseRecord) : Prop :=
  ValidID database = true ∧ DatabaseID (accepted r) = database ∧ ValidateEvidence (accepted r) = None
  ∧ match prepared r with
    | None => True
    | Some next => next = with_counters (Generation (accepted r) + 1) (MaxLease next) (accepted r)
                   ∧ Generation (accepted r) ≠ MaxInt64 ∧ MaxLease (accepted r) <= MaxLease next
    end.

Definition row_of (r : leaseRecord) : lease_row :=
  {| lr_singleton := Integer 1;
     lr_database_id := Text (DatabaseID (accepted r)); lr_state_id := Text (StateID (accepted r));
     lr_accepted_generation := Integer (Generation (accepted r));
     lr_accepted_nanos := Integer (MaxLease (accepted r));
     lr_prepared_generation := match prepared r with Some e => Integer (Generation e) | None => Null end;
     lr_prepared_nanos := match prepared r with Some e => Integer (MaxLease e) | None => Null end |}.

Lemma ValidateEvidence_spec e :
  ValidateEvidence e = None ↔
  ValidID (DatabaseID e) = true ∧ ValidID (StateID e) = true ∧ 0 <= Generation e ∧ 0 <= MaxLease e.
Proof.
  unfold ValidateEvidence. destruct (ValidID (DatabaseID e)), (ValidID (StateID e)); cbn [negb orb]; try naive_solver.
  destruct (Z.ltb_spec (Generation e) 0), (Z.ltb_spec (MaxLease e) 0); cbn; naive_solver lia.
Qed.

Section records.
Implicit Types (rows : list lease_row) (r : leaseRecord) (database : string).

Lemma scan_row_inv row found pg pn :
  scan_row row = Some (found, pg, pn) →
  row = {| lr_singleton := Integer 1; lr_database_id := Text (DatabaseID found);
           lr_state_id := Text (StateID found); lr_accepted_generation := Integer (Generation found);
           lr_accepted_nanos := Integer (MaxLease found);
           lr_prepared_generation := match pg with Some z => Integer z | None => Null end;
           lr_prepared_nanos := match pn with Some z => Integer z | None => Null end |}.
Proof.
  destruct row as [s d st g n pg' pn']. unfold scan_row. cbn.
  destruct s as [[|[]|]|?| |]; try done. destruct d; try done. destruct st; try done. destruct g; try done.
  destruct n; try done. destruct pg'; try done; destruct pn'; try done; by intros [= <- <- <-].
Qed.

Lemma read_inv database rows r :
  readLeaseRecord database rows = Ok (Some r) → rows = [row_of r] ∧ record_ok database r.
Proof.
  unfold readLeaseRecord. destruct rows as [|row [|]]; [done| |done].
  destruct (scan_row row) as [[[found pg] pn]|] eqn:Es; [|done]. apply scan_row_inv in Es as ->.
  destruct (ValidateEvidence found) eqn:Ev; [done|]. destruct (ValidID database) eqn:Ed; [|done]. cbn [negb].
  case_bool_decide as Hd; [|done]. case_bool_decide as Hp; [|done]. cbn [negb orb].
  destruct pg as [pg|], pn as [pn|]; try (exfalso; destruct Hp; naive_solver).
  - destruct (_ || _) eqn:E; [done|]. bool_prop. intros [= <-]. split; [done|].
    split_and!; cbn; try done. subst pg. by split_and!.
  - by intros [= <-].
Qed.

Lemma read_row_of database r : record_ok database r → readLeaseRecord database [row_of r] = Ok (Some r).
Proof.
  destruct r as [acc [next|]]; intros (Hd & Hi & Hv & Hp); cbn in *;
    replace {| DatabaseID := _; StateID := _; Generation := _; MaxLease := _ |} with acc by (by destruct acc);
    rewrite Hv, Hd; cbn [negb].
  - destruct Hp as (-> & Hg & Hm). cbn in *. rewrite !bool_decide_true by (done || (split; eauto)). cbn.
    rewrite Z.eqb_refl. apply Z.eqb_neq in Hg as ->. apply Z.ltb_ge in Hm as ->. done.
  - by rewrite !bool_decide_true by (done || (split; eauto)).
Qed.

(** The three statements, on the record. *)
Definition initial (database state : string) : Evidence :=
  {| DatabaseID := database; StateID := state; Generation := 0; MaxLease := 0 |}.

Lemma initialize_read database state rows :
  readLeaseRecord database rows = Ok None → ValidID state = true →
  ∀ rows', initialize_body state database rows = Ok rows' →
  readLeaseRecord database rows' = Ok (Some {| accepted := initial database state; prepared := None |}).
Proof.
  intros Hr Hs rows'. assert (rows = []) as ->.
  { unfold readLeaseRecord in Hr. repeat (done || split_match). }
  unfold initialize_body. destruct (ValidID database) eqn:Hd; [|done]. intros [= <-].
  apply (read_row_of database {| accepted := initial database state; prepared := None |}).
  unfold record_ok, ValidateEvidence; cbn. by rewrite Hd, Hs.
Qed.

Lemma prepare_read database state ttl rows rows' :
  let next := with_counters (Generation state + 1) ttl state in
  Generation state ≠ MaxInt64 → MaxLease state < ttl →
  prepare_body state next database rows = Ok rows' →
  readLeaseRecord database rows = Ok (Some {| accepted := state; prepared := None |})
  ∧ readLeaseRecord database rows' = Ok (Some {| accepted := state; prepared := Some next |}).
Proof.
  intros next Hg Ht. unfold prepare_body. destruct (readLeaseRecord database rows) as [[[acc [?|]]|]|] eqn:E; try done.
  case_bool_decide; [|done]. subst acc. intros [= <-]. split; [done|]. apply read_inv in E as (-> & Hd & Hi & Hv & _).
  apply (read_row_of database {| accepted := state; prepared := Some next |}).
  split_and!; cbn; try done. split_and!; [done..|lia].
Qed.

Lemma next_valid database r next :
  record_ok database r → prepared r = Some next →
  record_ok database {| accepted := next; prepared := None |}.
Proof.
  intros (Hd & Hi & Hv & Hp) E. rewrite E in Hp. destruct Hp as (-> & Hg & Hm).
  split_and!; cbn in *; try done. rewrite ValidateEvidence_spec in *. cbn. naive_solver lia.
Qed.

Lemma finalize_read database next rows rows' :
  finalize_body next database rows = Ok rows' →
  ∃ acc, readLeaseRecord database rows = Ok (Some {| accepted := acc; prepared := Some next |})
  ∧ readLeaseRecord database rows' = Ok (Some {| accepted := next; prepared := None |}).
Proof.
  unfold finalize_body. destruct (readLeaseRecord database rows) as [[[acc [found|]]|]|] eqn:E; try done.
  case_bool_decide; [|done]. subst found. intros [= <-]. exists acc. split; [done|].
  apply read_inv in E as (-> & Hok). pose proof (next_valid _ _ next Hok eq_refl) as Hn.
  destruct Hok as (_ & _ & _ & Hp & _). cbn in Hp.
  rewrite <- (read_row_of _ _ Hn). cbn. rewrite Hp. done.
Qed.
End records.

(** ** The protocol *)

Definition both {A} (x : A) : stored A := Build_stored (Some x) (Some x).

Definition record_of (v : machine) : result (option leaseRecord) :=
  readLeaseRecord (m_database v) (m_rows v).

(** The intent and the binding agree, durably. *)
Definition settled (intent : leaseAnchorIntent) (v : machine) : Prop :=
  m_intent v = both intent ∧ m_binding v = both (ai_Binding intent).

(** Both records hold [state] and nothing is under way. *)
Definition opened (state : Evidence) (v : machine) : Prop :=
  m_witness v = both state ∧ record_of v = Ok (Some {| accepted := state; prepared := None |}).

Definition same_disk (v v' : machine) : Prop :=
  m_rows v' = m_rows v ∧ m_database v' = m_database v ∧ m_intent v' = m_intent v
  ∧ m_witness v' = m_witness v ∧ m_binding v' = m_binding v.

Section protocol.
Context (directory name identity : string).

Definition volume_binding (state : string) : leaseAnchorBinding :=
  {| ab_Directory := directory; ab_Name := name; ab_Identity := identity; ab_StateID := state |}.

(** Records may have been replaced from outside when [loose] holds. *)
Context (loose : Prop).

Inductive protocol : machine → machine → Prop :=
| p_memory v v' : same_disk v v' → protocol v v'
| p_sync v : protocol v (synced v)
| p_sync_binding v : protocol v (set_m_binding (sync (m_binding v)) v)
| p_intend state v :
    loose ∨ ValidID state = true →
    st_visible (m_intent v) = None → st_visible (m_binding v) = None → st_visible (m_witness v) = None →
    protocol v (set_m_intent (put {| ai_Binding := volume_binding state; ai_Ready := false |} (m_intent v)) v)
| p_bind intent v :
    st_visible (m_intent v) = Some intent → ai_Ready intent = false → st_visible (m_binding v) = None →
    protocol v (set_m_binding (put (ai_Binding intent) (m_binding v)) v)
| p_insert intent rows v :
    settled intent v → ai_Ready intent = false → st_visible (m_witness v) = None →
    record_of v = Ok None →
    record_of (set_m_rows rows v)
    = Ok (Some {| accepted := initial (m_database v) (ab_StateID (ai_Binding intent)); prepared := None |}) →
    protocol v (set_m_rows rows v)
| p_first intent v :
    settled intent v → ai_Ready intent = false → st_visible (m_witness v) = None →
    record_of v
    = Ok (Some {| accepted := initial (m_database v) (ab_StateID (ai_Binding intent)); prepared := None |}) →
    protocol v (renamed (initial (m_database v) (ab_StateID (ai_Binding intent))) v)
| p_prepare state ttl rows v :
    Generation state ≠ MaxInt64 → MaxLease state < ttl →
    record_of v = Ok (Some {| accepted := state; prepared := None |}) →
    record_of (set_m_rows rows v)
    = Ok (Some {| accepted := state; prepared := Some (with_counters (Generation state + 1) ttl state) |}) →
    loose ∨ m_witness v = both state →
    protocol v (set_m_rows rows v)
| p_follow accepted next v :
    record_of v = Ok (Some {| accepted := accepted; prepared := Some next |}) →
    follows (m_witness v) next →
    protocol v (renamed next v)
| p_accept accepted next rows v :
    record_of v = Ok (Some {| accepted := accepted; prepared := Some next |}) →
    m_witness v = both next →
    record_of (set_m_rows rows v) = Ok (Some {| accepted := next; prepared := None |}) →
    protocol v (set_m_rows rows v)
| p_ready intent e v :
    settled intent v → ai_Ready intent = false → m_witness v = both e →
    protocol v (set_m_intent (put {| ai_Binding := ai_Binding intent; ai_Ready := true |} (m_intent v)) v).

Abbreviation steps := (rtc protocol).

Lemma steps_once v v' : protocol v v' → steps v v'.
Proof. apply rtc_once. Qed.

Lemma steps_memory v v1 v' : steps v v1 → same_disk v1 v' → steps v v'.
Proof. intros. eapply rtc_r; [done|]. by apply p_memory. Qed.

Lemma steps_poison v v1 e : steps v v1 → steps v (poisonLocked e v1).
Proof. intros. eapply steps_memory; [done|]. unfold poisonLocked. by destruct (m_poison v1). Qed.

Lemma steps_then v v1 v' : steps v v1 → protocol v1 v' → steps v v'.
Proof. intros. by eapply rtc_r. Qed.

(** Protocol steps that leave the memory alone, but for the poison. *)
Definition reach (v v' : machine) : Prop :=
  steps v v' ∧ m_anchor v' = m_anchor v ∧ m_recovery v' = m_recovery v ∧ m_owned v' = m_owned v
  ∧ m_database v' = m_database v.

#[local] Instance reach_refl : Reflexive reach.
Proof. by intros v. Qed.
#[local] Instance reach_trans : Transitive reach.
Proof. intros v1 v2 v3 (Ha & ? & ? & ? & ?) (Hb & ? & ? & ? & ?). split_and!; [by etrans|congruence..]. Qed.

Lemma reach_poison v e : reach v (poisonLocked e v).
Proof. split; [by apply steps_poison|]. unfold poisonLocked. by destruct (m_poison v). Qed.

Lemma reach_synced v : reach v (synced v).
Proof. split; [apply steps_once, p_sync|done]. Qed.

Lemma reach_rows v rows : protocol v (set_m_rows rows v) → reach v (set_m_rows rows v).
Proof. intros. by split; [apply steps_once|]. Qed.

Lemma poisoned e v : m_poison (poisonLocked e v) ≠ None.
Proof. unfold poisonLocked. by destruct (m_poison v) eqn:E; cbn; rewrite ?E. Qed.

(** ** The operations follow it *)

(** A way out that poisoned the store, or ended the process. *)
Definition fails_closed {A} (Q : outcome A → machine → Prop) (v : machine) : Prop :=
  Q Death v ∧ (m_poison v ≠ None → ∀ e, Q (Error e) v).

Lemma fails_closed_fences {A} (Q : outcome A → machine → Prop) v0 v :
  reach v0 v → (∀ v', reach v0 v' → fails_closed Q v') → fences Q v.
Proof.
  intros Hr H. split; [by apply H|]. intros e e'. apply H; [|apply poisoned].
  etrans; [done|apply reach_poison].
Qed.

Lemma advanced next v v' :
  (follows (m_witness v) next → protocol v (renamed next v)) → advances next v v' → reach v v'.
Proof.
  intros Hp [[[_ ->]|[Hf ->]]|[Hf ->]].
  - apply reach_synced.
  - etrans; [|apply reach_synced]. split; [by apply steps_once, Hp|done].
  - split; [by apply steps_once, Hp|done].
Qed.

Lemma reach_advanceWitness next v Q :
  (follows (m_witness v) next → writable next v → protocol v (renamed next v)) →
  (∀ v', reach v v' → m_witness v' = both next → m_rows v' = m_rows v → m_poison v' = m_poison v →
    (∀ intent, settled intent v → settled intent v') → Q (Value tt) v') →
  (∀ v', reach v v' → fails_closed Q v') →
  wp (advanceWitness next) Q v.
Proof.
  intros Hp H1 H2. apply wp_advanceWitness.
  - intros v' Hw Hs. assert (reach v v') by (apply (advanced next); [auto|by left]).
    assert (m_witness v' = both next ∧ m_rows v' = m_rows v ∧ m_poison v' = m_poison v
            ∧ m_intent v' = sync (m_intent v) ∧ m_binding v' = m_binding v) as (? & ? & ? & Hi & Hb).
    { destruct Hs as [[Hv ->]|[_ ->]]; [|done]. split_and!; try done. cbn. unfold sync, both. by rewrite Hv. }
    apply H1; try done. intros intent [Hi' Hb']. split; [|congruence]. by rewrite Hi, Hi'.
  - by eapply fails_closed_fences.
  - intros v' Hw Ha. eapply fails_closed_fences; [|done]. apply (advanced next); auto.
Qed.

Lemma reach_finalize next v Q :
  m_witness v = both next →
  (∀ v', reach v v' → opened next v' → (∀ intent, settled intent v → settled intent v') →
    m_poison v' = None → Q (Value tt) v') →
  (∀ v', reach v v' → fails_closed Q v') →
  wp (finalize next) Q v.
Proof.
  intros Hw H1 H2. apply wp_finalize.
  - intros rows Hp (acc & Hr & Hr')%finalize_read.
    assert (reach v (set_m_rows rows v)) by (by eapply reach_rows, p_accept).
    split; [by apply H1|by eapply fails_closed_fences].
  - by eapply fails_closed_fences.
Qed.

Lemma aborts_closed {A} (Q : outcome A → machine → Prop) v : aborts Q v → fails_closed Q v.
Proof. intros [? ?]. by split. Qed.

(** An open record and its witness, found or created. *)
Section opening.
Context (intent : leaseAnchorIntent) (Hid : ValidID (ab_StateID (ai_Binding intent)) = true).
Abbreviation state := (ab_StateID (ai_Binding intent)).
Abbreviation initialize := (negb (ai_Ready intent)).

Lemma reach_open_record found v Q :
  settled intent v → st_visible (m_witness v) = found →
  (∀ record v', reach v v' → settled intent v' → m_witness v' = m_witness v →
    record_of v' = Ok (Some record) → Q (Value record) v') →
  (∀ v', reach v v' → aborts Q v') →
  wp (open_record state initialize found) Q v.
Proof.
  intros Hs Hf H1 H2. pose proof (H2 v (reflexivity v)) as Ha. unfold open_record. wp_steps.
  apply wp_inspect_record; [|split; wp_leaf]. intros [record|] Hr; [wp_steps; by apply H1|].
  unfold lease_corrupt. destruct (ai_Ready intent) eqn:Er; cbn [negb orb]; [wp_steps|].
  case_bool_decide as Hw; wp_steps. assert (st_visible (m_witness v) = None) as Hn.
  { rewrite Hf. destruct found; [by destruct Hw|done]. }
  apply wp_mutate; [split; wp_leaf| |].
  - intros e e'. apply H2, reach_poison.
  - intros rows _ Hi. pose proof (initialize_read _ _ _ Hr Hid _ Hi) as Hr'.
    assert (reach v (set_m_rows rows v)) as Hv by (by eapply reach_rows, (p_insert intent)).
    split_and!; [|by apply H2|].
    + wp_steps. by apply H1.
    + intros e e'. apply H2. etrans; [done|apply reach_poison].
Qed.

Lemma reach_open_witness found record v Q :
  settled intent v → st_visible (m_witness v) = found → st_synced (m_witness v) = found →
  record_of v = Ok (Some record) → StateID (accepted record) = state →
  (∀ witness v', reach v v' → settled intent v' → m_witness v' = both witness →
    record_of v' = Ok (Some record) → Q (Value witness) v') →
  (∀ v', reach v v' → aborts Q v') →
  wp (open_witness initialize record found) Q v.
Proof.
  intros Hs Hf Hf' Hr Hst H1 H2. pose proof (H2 v (reflexivity v)) as Ha. unfold open_witness.
  destruct found as [witness|].
  { wp_steps. apply H1; try done. destruct (m_witness v). cbn in *. by subst. }
  destruct (_ || _) eqn:E; unfold lease_corrupt; [wp_steps|]. bool_prop.
  assert (record = {| accepted := initial (m_database v) state; prepared := None |}) as ->.
  { apply read_inv in Hr as (_ & _ & Hd & _). destruct record as [[d st g m] [p|]]; cbn in *; [naive_solver|].
    unfold initial. congruence. }
  wp_steps. apply reach_advanceWitness.
  - intros _ _. by apply p_first.
  - intros v' Hv Hw Hrows _ Hset. wp_steps. apply H1; [done|auto|done|].
    unfold record_of in *. destruct Hv as (_ & _ & _ & _ & ->). by rewrite Hrows.
  - intros v' Hv. by apply aborts_closed, H2.
Qed.

Lemma reach_recovery_open v Q :
  settled intent v → st_synced (m_witness v) = st_visible (m_witness v) →
  (∀ st v', reach v v' → settled intent v' → opened st v' → Q (Value st) v') →
  (∀ v', reach v v' → aborts Q v') →
  wp (recovery_open state initialize) Q v.
Proof.
  intros Hs Hw H1 H2. pose proof (H2 v (reflexivity v)) as Ha. unfold recovery_open, lease_corrupt. wp_steps.
  unfold Load. apply wp_with_anchor; [|wp_leaf]. intros intent' _. wp_steps. apply wp_verify; [|split; wp_leaf].
  intros _. apply wp_load; [|split; wp_leaf]. intros found Hf _ _. wp_steps.
  apply reach_open_record; [done..| |intros v' Hv; split; apply H2; done].
  intros record v1 Hv1 Hs1 Hw1 Hr1. assert (aborts Q v1) as Ha1 by auto.
  case_bool_decide as Hst; cbn [negb]; wp_steps.
  apply reach_open_witness; try done; [congruence..| |intros v' Hv; split; apply H2; by etrans].
  intros witness v2 Hv2 Hs2 Hw2 Hr2. assert (reach v v2) as Hv by by etrans. assert (aborts Q v2) as Ha2 by auto.
  wp_steps. apply wp_check; [|intros; wp_leaf]. intros _. destruct record as [acc [next|]]; cbn [prepared accepted].
  - case_match; wp_steps. apply reach_advanceWitness.
    + intros Hfo _. by eapply p_follow.
    + intros v3 Hv3 Hw3 _ _ Hset. wp_steps. apply reach_finalize; [done| |].
      * intros v4 Hv4 Ho Hset4 _. wp_steps. apply H1; [do 2 (etrans; [done|]); done|auto|done].
      * intros v4 Hv4. apply aborts_closed. split; apply H2; do 2 (etrans; [done|]); done.
    + intros v3 Hv3. apply aborts_closed. split; apply H2; by etrans.
  - case_bool_decide; wp_steps. subst. by apply H1.
Qed.
End opening.

Lemma reach_ConfigureLeaseRecovery intent v Q :
  m_anchor v = Some intent → settled intent v → st_synced (m_witness v) = st_visible (m_witness v) →
  (∀ st v', reach v v' → settled intent v' → opened st v' → Q (Value tt) (set_m_recovery (Some st) v')) →
  (∀ v', reach v v' → aborts Q v') →
  wp ConfigureLeaseRecovery Q v.
Proof.
  intros Hi Hs Hw H1 H2. pose proof (H2 v (reflexivity v)) as Ha. unfold ConfigureLeaseRecovery. wp_steps.
  apply wp_with_anchor; [|wp_leaf]. intros intent' Hi'. rewrite Hi in Hi'. injection Hi' as <-. wp_steps.
  apply wp_verify; [|split; wp_leaf]. intros _. wp_steps. destruct (_ || _) eqn:E; wp_steps. bool_prop.
  apply wp_healthy; [|wp_leaf]. intros _. wp_steps. apply (reach_recovery_open intent); try done.
  intros st v' Hv Hs' Ho. apply wp_modify; [done|]. by apply H1.
Qed.

Lemma wp_publish_intent intent createOnly Q v :
  let w := set_m_intent (put intent (m_intent v)) v in
  Q (Value tt) (synced w) → aborts Q v → aborts Q w → aborts Q (synced w) →
  wp (publish_intent intent createOnly) Q v.
Proof.
  intros w H1 H2 H3 H4. unfold publish_intent. wp_steps. apply wp_publish; [done|intros _; by split_and!|done].
Qed.

Lemma steps_Complete intent e v Q :
  m_anchor v = Some intent → settled intent v → m_witness v = both e →
  (∀ intent' v', steps v v' → m_anchor v' = Some intent' → ai_Ready intent' = true → settled intent' v' →
    m_witness v' = m_witness v → m_rows v' = m_rows v → m_database v' = m_database v →
    m_recovery v' = m_recovery v → m_owned v' = m_owned v → Q (Value tt) v') →
  (∀ v', steps v v' → aborts Q v') →
  wp Complete Q v.
Proof.
  intros Hi Hs Hw H1 H2. assert (aborts Q v) as Ha by by apply H2. unfold Complete.
  apply wp_with_anchor; [|wp_leaf]. intros intent' Hi'. rewrite Hi in Hi'. injection Hi' as <-. wp_steps.
  apply wp_verify; [|split; wp_leaf]. intros _. wp_steps. apply wp_load; [|split; wp_leaf].
  intros found Hf _ _. rewrite Hw in Hf. cbn in Hf. subst found. destruct Hs as [Hs1 Hs2].
  destruct (ai_Ready intent) eqn:Er; wp_steps.
  - assert (steps v (synced v)) as Hst by apply steps_once, p_sync.
    assert (aborts Q (synced v)) by auto. apply wp_syncDirectory; [|split; wp_leaf..].
    apply (H1 intent); try done; cbn; [|by rewrite Hw]. split; cbn; by rewrite ?Hs1, ?Hs2.
  - set (next := {| ai_Binding := ai_Binding intent; ai_Ready := true |}).
    set (w := set_m_intent (put next (m_intent v)) v).
    assert (steps v w) as Hw1 by (apply steps_once; by eapply p_ready).
    assert (steps v (synced w)) as Hw2 by (eapply steps_then; [done|apply p_sync]).
    assert (aborts Q w) by auto. assert (aborts Q (synced w)) by auto.
    apply wp_publish_intent; [|split; wp_leaf..]. apply wp_bind, wp_modify; [done|].
    assert (steps v (set_m_anchor (Some next) (synced w))) as Hw3 by (by eapply steps_memory).
    apply wp_verify; [|by apply H2]. intros _. apply (H1 next); try done. cbn. by rewrite Hw.
Qed.

(** ** Opening the anchor and the volume *)

Abbreviation config := (volume_config directory name identity).

Lemma reach_step v v1 v' : reach v v1 → protocol v1 v' → m_anchor v' = m_anchor v1 →
  m_recovery v' = m_recovery v1 → m_owned v' = m_owned v1 → m_database v' = m_database v1 → reach v v'.
Proof. intros Hr Hp. intros. etrans; [done|]. split; [by apply steps_once|done]. Qed.

Lemma reach_open_intent init random v Q :
  loose ∨ ValidID (hex_encode random) = true →
  (∀ intent v', reach v v' → st_visible (m_intent v') = Some intent → m_binding v' = m_binding v →
    Q (Value intent) v') →
  (∀ v', reach v v' → aborts Q v') →
  wp (open_intent (config init) random (st_visible (m_intent v)) (st_visible (m_binding v))) Q v.
Proof.
  intros Hl H1 H2. assert (aborts Q v) as Ha by by apply H2. unfold open_intent.
  destruct (st_visible (m_intent v)) as [intent|] eqn:Ei.
  { destruct (_ || _); wp_steps. by apply H1. }
  destruct (_ || _) eqn:E; wp_steps. bool_prop. destruct (st_visible (m_witness v)) eqn:Ew; wp_steps.
  set (intent := {| ai_Binding := bound_to (config init) (hex_encode random); ai_Ready := false |}).
  set (w := set_m_intent (put intent (m_intent v)) v).
  assert (reach v w) as Hw.
  { eapply (reach_step v v); try done. apply (p_intend (hex_encode random)); try done.
    destruct (st_visible (m_binding v)); [|done]. destruct H. eauto. }
  assert (reach v (synced w)) as Hw' by (etrans; [done|apply reach_synced]).
  assert (aborts Q w) by auto. assert (aborts Q (synced w)) by auto.
  apply wp_publish_intent; [|split; wp_leaf..]. wp_steps. by apply H1.
Qed.

Lemma wp_syncBinding Q v :
  let w := set_m_binding (sync (m_binding v)) v in
  Q (Value tt) w → aborts Q v → aborts Q w → wp syncBinding Q v.
Proof. intros w H1 H2 H3. apply wp_effect; [done..|]. by intros v' [-> | ->]. Qed.

Lemma reach_sync_binding v : reach v (set_m_binding (sync (m_binding v)) v).
Proof. split; [apply steps_once, p_sync_binding|done]. Qed.

Lemma reach_open_binding init intent v Q :
  st_visible (m_intent v) = Some intent →
  (∀ v', reach v v' → m_intent v' = m_intent v → st_visible (m_binding v') = Some (ai_Binding intent) →
    Q (Value tt) v') →
  (∀ v', reach v v' → aborts Q v') →
  wp (open_binding (config init) intent (st_visible (m_binding v))) Q v.
Proof.
  intros Hi H1 H2. assert (aborts Q v) as Ha by by apply H2. unfold open_binding.
  destruct (st_visible (m_binding v)) as [actual|] eqn:Eb.
  { case_bool_decide; wp_steps. subst. by apply H1. }
  destruct (_ || _) eqn:E; wp_steps. bool_prop.
  set (w := set_m_binding (put (ai_Binding intent) (m_binding v)) v).
  assert (reach v w) as Hw by (eapply (reach_step v v); try done; by apply p_bind).
  assert (reach v (set_m_binding (sync (m_binding w)) w)) as Hw' by (etrans; [done|apply reach_sync_binding]).
  assert (aborts Q w) by auto. assert (aborts Q (set_m_binding (sync (m_binding w)) w)) by auto.
  apply wp_effect; [done| |].
  - wp_steps. apply wp_syncBinding; [|split; wp_leaf..]. by apply H1.
  - intros v' [-> | ->]; split; wp_leaf.
Qed.

Lemma reach_openAnchor init random v Q :
  loose ∨ ValidID (hex_encode random) = true →
  (∀ intent v', reach v v' → settled intent v' → st_synced (m_witness v') = st_visible (m_witness v') →
    Q (Value intent) v') →
  (∀ v', reach v v' → aborts Q v') →
  wp (openAnchor (config init) random) Q v.
Proof.
  intros Hl H1 H2.
  assert (∀ v' e, reach v v' → wp (io_also e (anchored attempt)) Q v') as Hclose.
  { intros v' e Hv. pose proof (H2 v' Hv). wp_steps. }
  unfold openAnchor. apply wp_catch.
  set (Q' := λ r v, match r with Error e => wp (io_also e (anchored attempt)) Q v | r => Q r v end).
  assert (∀ v', reach v v' → aborts Q' v') as H3.
  { intros v' Hv. split; [intros; by apply Hclose|by apply H2]. }
  assert (aborts Q' v) as Ha by by apply H3. wp_steps.
  apply reach_open_intent; [done| |intros v' Hv; pose proof (H3 v' Hv); split; wp_leaf].
  intros intent v1 Hv1 Hi1 Hb1. rewrite <- Hb1. wp_steps.
  apply reach_open_binding; [done| |intros v' Hv; assert (aborts Q' v') by (apply H3; by etrans); split; wp_leaf].
  intros v2 Hv2 Hi2 Hb2. assert (reach v v2) as Hr2 by by etrans. wp_steps.
  set (v3 := set_m_binding (sync (m_binding v2)) v2).
  assert (reach v v3) as Hr3 by (etrans; [done|apply reach_sync_binding]).
  assert (reach v (synced v3)) as Hr4 by (etrans; [done|apply reach_synced]).
  assert (reach v (synced v2)) as Hr5 by (etrans; [exact Hr2|apply reach_synced]).
  assert (aborts Q' v2) as A2 by auto. assert (aborts Q' v3) as A3 by auto.
  assert (aborts Q' (synced v3)) as A4 by auto. assert (aborts Q' (synced v2)) as A5 by auto.
  assert (settled intent (synced v3)) as Hs.
  { split; cbn; unfold sync, both; by rewrite ?Hi2, ?Hi1, ?Hb2. }
  apply wp_syncBinding.
  - apply wp_syncDirectory; [|split; wp_leaf..]. wp_steps. apply wp_verify; [|split; wp_leaf]. intros _. wp_steps.
    apply wp_load; [|split; wp_leaf]. intros found _ _ _. wp_steps. by apply H1.
  - split; [intros e|wp_leaf]. apply wp_syncDirectory; [wp_leaf|split; wp_leaf..].
  - split; [intros e|wp_leaf]. apply wp_syncDirectory; [wp_leaf|split; wp_leaf..].
Qed.

(** The ways out of an opening that fails. *)
Definition unopened {A} (Q : outcome A → machine → Prop) (v : machine) : Prop :=
  ∀ v', steps v v' → Q Death v' ∧ (m_recovery v' = None → ∀ e, Q (Error e) v').

Lemma steps_release_file {A} e v v1 (Q : outcome A → machine → Prop) :
  steps v v1 → m_recovery v1 = None → unopened Q v → wp (io_also e release_file) Q v1.
Proof.
  intros Hv Hr HU. assert (steps v (set_m_owned false v1)) as Hw by (by eapply steps_memory).
  assert (aborts Q v1) by (split; [intros; apply HU; done|by apply HU]).
  assert (aborts Q (set_m_owned false v1)) by (split; [intros; apply HU; done|by apply HU]).
  wp_steps. apply wp_effect; [done|wp_leaf|]. intros v' [-> | ->]; split; wp_leaf.
Qed.

Lemma steps_open_cleanup e v v1 (Q : outcome unit → machine → Prop) :
  steps v v1 → unopened Q v → wp (open_cleanup e) Q v1.
Proof.
  intros Hv HU. unfold open_cleanup. wp_steps. apply wp_modify; [done|].
  assert (steps v (forget v1)) as Hw by (by eapply steps_memory).
  assert (steps v (set_m_owned false (forget v1))) as Hw' by (by eapply steps_memory).
  assert (aborts Q (forget v1)) by (split; [intros; apply HU; done|by apply HU]).
  assert (aborts Q (set_m_owned false (forget v1))) by (split; [intros; apply HU; done|by apply HU]).
  wp_steps; (apply wp_effect; [done|wp_leaf|]); intros v' [-> | ->]; split; wp_leaf.
Qed.

Lemma wp_configured Q v :
  (∀ st, m_recovery v = Some st → Q (Value st) v) → (∀ e, Q (Error e) v) → wp configuredLeaseRecovery Q v.
Proof.
  intros H1 H2. unfold configuredLeaseRecovery. wp_steps. destruct (m_recovery v); wp_steps. by apply H1.
Qed.

Lemma wp_MaxLease Q v :
  (∀ st, m_recovery v = Some st → m_poison v = None → Q (Value (MaxLease st)) v) → aborts Q v →
  wp Store_MaxLease Q v.
Proof.
  intros H1 H2. unfold Store_MaxLease. wp_steps. apply wp_configured; [|wp_leaf]. intros st Hst. wp_steps.
  apply wp_healthy; [|wp_leaf]. intros Hp. wp_steps. by apply H1.
Qed.

Lemma steps_OpenLocking init random v Q :
  loose ∨ ValidID (hex_encode random) = true → (m_owned v = false → m_recovery v = None) →
  (∀ st intent v', steps v v' → m_owned v' = true → m_recovery v' = Some st → opened st v' →
    ai_Ready intent = true → settled intent v' → Q (Value tt) v') →
  unopened Q v → (m_owned v = true → ∀ e, Q (Error e) v) →
  wp (OpenLocking (config init) random) Q v.
Proof.
  intros Hl Hidle H1 HU HB. unfold OpenLocking, AcquireDatabase. wp_steps.
  destruct (m_owned v) eqn:Eo; [wp_steps; auto|]. specialize (Hidle eq_refl).
  assert (aborts Q v) as Ha by (split; [intros|]; by apply HU). wp_steps. apply wp_modify; [done|]. wp_steps.
  set (v0 := set_m_owned true v). assert (steps v v0) as Hv0 by by apply steps_once, p_memory.
  apply reach_openAnchor; [done| |].
  2:{ intros v' (Hv' & _ & Hr' & _). assert (steps v v') by by etrans. split; [|by apply HU].
      intros e. apply (steps_release_file e v); [done|by rewrite Hr'|]. intros w Hw. by split; apply HU. }
  intros intent v1 Hv1 Hs1 Hw1. apply wp_bind, wp_modify; [done|]. apply wp_catch.
  set (v2 := set_m_anchor (Some intent) v1).
  assert (steps v v2) as Hv2. { eapply (steps_memory _ v1); [|done]. etrans; [done|apply Hv1]. }
  set (Q' := λ r v, match r with Error e => wp (open_cleanup e) Q v | r => Q r v end).
  assert (∀ v', steps v v' → aborts Q' v') as H2.
  { intros v' Hv'. split; [intros; by apply (steps_open_cleanup e v)|by apply HU]. }
  assert (aborts Q' v2) as A2 by auto. wp_steps.
  apply (reach_ConfigureLeaseRecovery intent); [done..| |].
  2:{ intros v' [Hv' _]. assert (aborts Q' v') by (apply H2; by etrans). split; wp_leaf. }
  intros st v3 Hv3 Hs3 Ho3. set (v4 := set_m_recovery (Some st) v3).
  assert (steps v v4) as Hv4. { eapply (steps_memory _ v3); [|done]. etrans; [done|apply Hv3]. }
  wp_steps. apply (steps_Complete intent st).
  - apply Hv3.
  - done.
  - apply Ho3.
  - intros intent' v5 Hv5 Ha5 Hr5 Hs5 Hw5 Hrows5 Hd5 Hrec5 Hown5. assert (steps v v5) as Hv by by etrans.
    assert (aborts Q' v5) as A5 by auto. wp_steps. apply wp_healthy; [|wp_leaf]. intros _. wp_steps.
    apply wp_MaxLease; [|split; wp_leaf]. intros st' Hst' _.
    assert (Q' (Value tt) v5) as HV.
    { apply (H1 st intent'); try done.
      - destruct Hv1 as (_ & _ & _ & Ho1 & _), Hv3 as (_ & _ & _ & Ho2 & _).
        rewrite Hown5. cbn. rewrite Ho2. exact Ho1.
      - unfold opened, record_of in *. rewrite Hw5, Hrows5, Hd5. apply Ho3. }
    wp_steps.
  - intros v' Hv'. assert (aborts Q' v') by (apply H2; by etrans). split; wp_leaf.
Qed.

(** A raise either completes, leaves everything as it was, or poisons. *)
Lemma steps_RaiseMaxLease ttl v Q :
  (∀ st, m_recovery v = Some st → m_poison v = None → loose ∨ m_witness v = both st) →
  (∀ st, m_recovery v = Some st → m_poison v = None → ttl <= MaxLease st → Q (Value tt) v) →
  (∀ st v', is_Some (m_recovery v) → steps v v' → m_owned v' = m_owned v → m_recovery v' = Some st →
    ttl <= MaxLease st → opened st v' → Q (Value tt) v') →
  aborts Q v → (∀ v', reach v v' → fails_closed Q v') →
  wp (RaiseMaxLease ttl) Q v.
Proof.
  intros HJ H1 H2 Ha HF. unfold RaiseMaxLease. destruct (ttl <=? 0); [wp_steps|]. wp_steps.
  apply wp_configured; [|wp_leaf]. intros st Hst. wp_steps. apply wp_healthy; [|wp_leaf]. intros Hp. wp_steps.
  destruct (Z.leb_spec ttl (MaxLease st)); [wp_steps; by apply (H1 st)|].
  destruct (Z.eqb_spec (Generation st) 9223372036854775807); wp_steps.
  set (next := with_counters (Generation st + 1) ttl st).
  apply wp_mutate; [split; wp_leaf| |].
  { intros e e'. apply HF; [apply reach_poison|apply poisoned]. }
  intros rows _ (Hr & Hr')%prepare_read; [|done..].
  assert (reach v (set_m_rows rows v)) as Hv1 by (eapply reach_rows, (p_prepare st ttl); auto).
  split_and!; [|by apply HF|].
  2:{ intros e e'. apply HF; [|apply poisoned]. etrans; [done|apply reach_poison]. }
  wp_steps. apply reach_advanceWitness.
  - intros Hf _. by eapply p_follow.
  - intros v2 Hv2 Hw2 Hrows2 _ _. wp_steps. apply reach_finalize; [done| |].
    + intros v3 Hv3 Ho3 _ _. wp_steps. apply wp_modify; [done|].
      assert (reach v v3) as (Hs & _ & _ & Ho & _) by (do 2 (etrans; [done|]); done).
      apply (H2 next); try done. by eapply steps_memory.
    + intros v3 Hv3. assert (fails_closed Q v3) as [? ?] by (apply HF; do 2 (etrans; [done|]); done). by split.
  - intros v2 Hv2. assert (fails_closed Q v2) as [? ?] by (apply HF; by etrans). by split.
Qed.

End protocol.
