(* ===== verification/LeaseRecovery.v ===== *)
(** * What the lease store promises

    Runs of the store of [LeaseStore]: a maximum that was raised is answered by
    every later opening, although calls fail, processes die, power is lost and
    one of the two records is replaced; and a volume that was opened once can
    be opened again. *)

From S2P Require Import Prelude Errors Identity LeaseStore LeaseSpecs LeaseProtocol.
From stdpp Require Import relations.
Open Scope Z_scope.

(** ** Memory *)

Definition idle (m : machine) : Prop := m_owned m = false → m_recovery m = None.

(** The store in memory agrees with each of the two records. *)
Definition witness_agrees (m : machine) : Prop :=
  ∀ st, m_recovery m = Some st → m_poison m = None → m_witness m = both st.
Definition record_agrees (m : machine) : Prop :=
  ∀ st, m_recovery m = Some st → m_poison m = None →
        record_of m = Ok (Some {| accepted := st; prepared := None |}).

Definition replaces_rows (e : event) : bool := match e with ReplacesRows _ => true | _ => false end.
Definition replaces_witness (e : event) : bool := match e with ReplacesWitness _ => true | _ => false end.
(** [rand.Read] fills sixteen bytes. *)
Definition draws (e : event) : Prop :=
  match e with Opens _ random => length random = 16%nat ∧ Forall (λ b, 0 <= b < 256) random | _ => True end.

Lemma trim_left_all cut s : Forall (λ c, c ∈ cut) s → trim_left cut s = [].
Proof. induction 1 as [|c s Hc _ IH]; [done|]. cbn. by rewrite bool_decide_true. Qed.

Lemma hex_valid random :
  length random = 16%nat → Forall (λ b, 0 <= b < 256) random → ValidID (hex_encode random) = true.
Proof.
  intros Hl Hb. unfold ValidID. rewrite hex_encode_len, Hl. cbn [andb Z.eqb]. apply bool_decide_eq_true.
  unfold strings_Trim. rewrite (trim_left_all _ (String.list_ascii_of_string (hex_encode random))); [done|]. clear Hl.
  assert (∀ z, 0 <= z < 16 → hex_digit z ∈ String.list_ascii_of_string "0123456789abcdef") as Hd.
  { intros z Hz. assert (z ∈ [0;1;2;3;4;5;6;7;8;9;10;11;12;13;14;15]) as Hin by (rewrite !elem_of_cons; lia).
    clear Hz. revert z Hin. apply Forall_forall. by repeat (constructor; [vm_compute; set_solver|]). }
  induction Hb as [|b random Hb _ IH]; [constructor|]. cbn [hex_encode String.list_ascii_of_string].
  constructor; [apply Hd; split; [apply Z.div_pos; lia|apply Z.div_lt_upper_bound; lia]|].
  constructor; [apply Hd, Z.mod_pos_bound; lia|exact IH].
Qed.

Section exec.
Context (directory name identity : string).
Abbreviation exec := (exec directory name identity).
Abbreviation run := (run directory name identity).

(** What holds of an event's answer and of the machine after it. *)
Lemma exec_wp {A} (c : io A) (f : A → response) answers (m : machine) (P : response → machine → Prop) :
  (∀ r v, P r (view v) → P r v) →
  wp c (λ r v, match r with
               | Value a => P (f a) v
               | Error e => P (Refused e) v
               | Death => P Died (stop false false false v)
               end) (view m) →
  P (answered f (c (set_m_io answers m))).1 (answered f (c (set_m_io answers m))).2.
Proof.
  intros HP H. specialize (H (set_m_io answers m) eq_refl).
  destruct (c (set_m_io answers m)) as [[a|e|] m']; cbn in *; auto.
Qed.

Lemma memory_kept answers e m :
  idle m →
  idle (exec answers e m).2
  ∧ (replaces_witness e = false → witness_agrees m → witness_agrees (exec answers e m).2)
  ∧ (replaces_rows e = false → record_agrees m → record_agrees (exec answers e m).2).
Proof.
  intros Hi. set (P := λ (_ : response) (m' : machine), idle m'
    ∧ (replaces_witness e = false → witness_agrees m → witness_agrees m')
    ∧ (replaces_rows e = false → record_agrees m → record_agrees m')).
  assert (∀ r v, m_recovery v = None → P r v) as Hnone.
  { intros r v Hv. split_and!; [by intros _|..]; intros _ _ st; by rewrite Hv. }
  assert (∀ r v, P r (view v) → P r v) as HP by done.
  assert (∀ r, P r (view m)) as Hsame by (intros r; split_and!; auto).
  change (P (exec answers e m).1 (exec answers e m).2). destruct e as [init random|ttl| |err|i w b|rows|wi]; cbn [exec].
  - apply exec_wp; [done|]. eapply (steps_OpenLocking directory name identity True); [by left|done|..].
    + intros st intent v' _ Ho Hr [Hw Hrec] _ _. split_and!; [by intros ?; congruence|..];
        intros _ _ st'; rewrite Hr; by intros [= <-].
    + intros v' _. split; [by apply Hnone|]. intros Hr e. by apply Hnone.
    + intros _ e. apply Hsame.
  - apply exec_wp; [done|]. eapply (steps_RaiseMaxLease directory name identity True); [by left|..].
    + intros. apply Hsame.
    + intros st v' [st0 H0] _ Ho Hr _ [Hw Hrec]. split_and!; [|intros _ _ st'; rewrite Hr; by intros [= <-]..].
      intros Hf. rewrite Ho in Hf. cbn in *. by rewrite (Hi Hf) in H0.
    + split; [intros; apply Hsame|by apply Hnone].
    + intros v' (_ & _ & Hr & Ho & _). split; [by apply Hnone|]. intros Hp e. cbn in *. split_and!.
      * unfold idle. by rewrite Hr, Ho.
      * intros _ _ st _ Hp'. by destruct Hp.
      * intros _ _ st _ Hp'. by destruct Hp.
  - apply exec_wp; [done|]. apply wp_MaxLease; [intros; apply Hsame|]. split; [intros; apply Hsame|by apply Hnone].
  - unfold poisonLocked. cbn. destruct (m_poison m); cbn; split_and!; try done; by intros.
  - by apply Hnone.
  - by split_and!.
  - by split_and!.
Qed.

(** A property of the disk that the protocol and the loss of power keep. *)
Lemma disk_kept (loose : Prop) (K : machine → Prop) answers e m :
  (∀ v v', protocol directory name identity loose v v' → K v → K v') →
  (∀ i w b v, K v → K (stop i w b v)) →
  idle m → loose ∨ witness_agrees m → loose ∨ draws e →
  (∀ rows v, e = ReplacesRows rows → K v → K (set_m_rows rows v)) →
  (∀ witness v, e = ReplacesWitness witness → K v → K (set_m_witness witness v)) →
  K m → K (exec answers e m).2.
Proof.
  intros Hp Hs Hi Hw Hd Hrows Hwit HK.
  assert (∀ v v', rtc (protocol directory name identity loose) v v' → K v → K v') as Hsteps.
  { intros v v'. induction 1; eauto. }
  assert (∀ v v', same_disk v v' → K v → K v') as Hmem by (intros; eapply Hp; [by apply p_memory|done]).
  assert (K (view m)) as HK' by (by apply (Hmem m)).
  set (P := λ (_ : response) (m' : machine), K m').
  assert (∀ r v, P r (view v) → P r v) as HP by (intros r v; by apply Hmem).
  change (P (exec answers e m).1 (exec answers e m).2). destruct e as [init random|ttl| |err|i w b|rows|wi]; cbn [exec].
  - apply exec_wp; [done|]. eapply (steps_OpenLocking directory name identity loose); [|done|..].
    + destruct Hd as [?|[Hl Hb]]; [by left|]. right. by apply hex_valid.
    + intros. by eapply Hsteps.
    + intros v' Hv'. split; [|intros _ e]; [apply Hs|]; by eapply Hsteps.
    + done.
  - apply exec_wp; [done|]. eapply (steps_RaiseMaxLease directory name identity loose).
    + intros st ? ?. destruct Hw as [?|Hw]; [by left|right; by apply Hw].
    + done.
    + intros. by eapply Hsteps.
    + split; [done|by apply Hs].
    + intros v' [Hv' _]. split; [apply Hs|intros _ e]; by eapply Hsteps.
  - apply exec_wp; [done|]. apply wp_MaxLease; [done|]. split; [done|by apply Hs].
  - apply (Hmem m); [|done]. unfold poisonLocked. by destruct (m_poison _).
  - by apply Hs, (Hmem m).
  - by apply (Hrows rows), (Hmem m).
  - by apply (Hwit wi), (Hmem m).
Qed.
(** ** The floor under the maximum *)

(** The witness covers [b], now and after a power failure. *)
Definition witnessed (b : Z) (v : machine) : Prop :=
  ∃ e e', st_visible (m_witness v) = Some e ∧ b <= MaxLease e
        ∧ st_synced (m_witness v) = Some e' ∧ b <= MaxLease e'.

Definition newest (r : leaseRecord) : Evidence := default (accepted r) (prepared r).
(** The row covers [b]. *)
Definition recorded (b : Z) (v : machine) : Prop :=
  ∃ r, record_of v = Ok (Some r) ∧ b <= MaxLease (newest r).

Lemma witnessed_protocol loose b v v' :
  protocol directory name identity loose v v' → witnessed b v → witnessed b v'.
Proof.
  unfold witnessed. intros Hp (e & e' & He & Hb & He' & Hb').
  destruct Hp as [v v' (_ & _ & _ & -> & _)|v| | | | |intent v _ _ Hn| |acc next v _ Hf| |];
    cbn; eauto 10.
  - congruence.
  - unfold follows in Hf. rewrite He in Hf. unfold not_next in Hf. bool_prop. exists next, e'.
    split_and!; try done. lia.
Qed.

Lemma recorded_protocol loose b v v' :
  protocol directory name identity loose v v' → recorded b v → recorded b v'.
Proof.
  unfold recorded. intros Hp (r & Hr & Hb).
  destruct Hp as [v v' (Hrows & Hd & _)| | | | |? ? ? _ _ _ Hn _| |? ? ? ? _ ? Hr1 Hr2 _| |? ? ? ? Hr1 _ Hr2|];
    try (by exists r).
  - exists r. unfold record_of in *. by rewrite Hrows, Hd.
  - congruence.
  - rewrite Hr1 in Hr. injection Hr as <-. eexists. split; [done|]. cbn in *. lia.
  - rewrite Hr1 in Hr. injection Hr as <-. by eexists.
Qed.

Lemma witnessed_stop b i w bi v : witnessed b v → witnessed b (stop i w bi v).
Proof. intros (e & e' & ? & ? & ? & ?). unfold witnessed. destruct w; cbn; eauto 10. Qed.

(** ** Runs *)

Lemma run_app es es' m : run (es ++ es') m = run es' (run es m).
Proof. apply fold_left_app. Qed.

Lemma run_kept (P : machine → Prop) es m :
  Forall (λ e, ∀ m, P m → P (exec e.1 e.2 m).2) es → P m → P (run es m).
Proof.
  intros H. revert m. induction H as [|e es He _ IH]; intros m Hm; [done|]. exact (IH _ (He m Hm)).
Qed.

Lemma run_idle es m : idle m → idle (run es m).
Proof. apply run_kept, Forall_true. intros e m'. apply memory_kept. Qed.

Definition rows_intact (es : list (list answer * event)) : Prop :=
  Forall (λ e, replaces_rows e.2 = false) es.
Definition witness_intact (es : list (list answer * event)) : Prop :=
  Forall (λ e, replaces_witness e.2 = false) es.

(** Without replacements of a record, the store agrees with it, and it covers
    what it covered. *)
Lemma witness_run es m :
  witness_intact es → idle m ∧ witness_agrees m →
  witness_agrees (run es m) ∧ ∀ b, witnessed b m → witnessed b (run es m).
Proof.
  intros Hi [Hm Hw]. split.
  - apply (run_kept (λ m, idle m ∧ witness_agrees m)); [|done]. eapply Forall_impl; [exact Hi|].
    intros [a e] He m' [H1 H2]. destruct (memory_kept a e m' H1) as (H3 & H4 & _). split; auto.
  - intros b Hb. apply (run_kept (λ m, idle m ∧ witnessed b m)); [|done]. eapply Forall_impl; [exact Hi|].
    intros [a e] He m' [H1 H2]. cbn [fst snd] in *. split; [by apply memory_kept|]. apply (disk_kept True); auto.
    + intros v v'. apply witnessed_protocol.
    + intros. by apply witnessed_stop.
    + by intros w v ->.
Qed.

Lemma record_run es m :
  rows_intact es → idle m ∧ record_agrees m →
  record_agrees (run es m) ∧ ∀ b, recorded b m → recorded b (run es m).
Proof.
  intros Hi [Hm Hw]. split.
  - apply (run_kept (λ m, idle m ∧ record_agrees m)); [|done]. eapply Forall_impl; [exact Hi|].
    intros [a e] He m' [H1 H2]. destruct (memory_kept a e m' H1) as (H3 & _ & H4). split; auto.
  - intros b Hb. apply (run_kept (λ m, idle m ∧ recorded b m)); [|done]. eapply Forall_impl; [exact Hi|].
    intros [a e] He m' [H1 H2]. cbn [fst snd] in *. split; [by apply memory_kept|]. apply (disk_kept True); auto.
    + intros v v'. apply recorded_protocol.
    + by intros w v ->.
Qed.

Lemma raise_answered answers ttl m m' :
  exec answers (Raises ttl) m = (Raised, m') →
  ∃ st, ttl <= MaxLease st ∧ (opened st m'
        ∨ (m_recovery m = Some st ∧ m_poison m = None ∧ m_witness m' = m_witness m ∧ record_of m' = record_of m)).
Proof.
  intros H. set (P := λ r m', r = Raised → ∃ st, ttl <= MaxLease st ∧ (opened st m'
    ∨ (m_recovery m = Some st ∧ m_poison m = None ∧ m_witness m' = m_witness m ∧ record_of m' = record_of m))).
  enough (P (exec answers (Raises ttl) m).1 (exec answers (Raises ttl) m).2) as HP by (rewrite H in HP; by apply HP).
  cbn [exec]. apply exec_wp; [done|]. eapply (steps_RaiseMaxLease directory name identity True).
  - by left.
  - intros st H1 H2 Ht _. exists st. split; [done|]. by right.
  - intros st v' _ _ _ _ Ht Ho _. exists st. split; [done|]. by left.
  - by split.
  - by split.
Qed.

Lemma maximum_answered answers m d m' :
  exec answers Asks m = (Maximum d, m') →
  ∃ st, m_recovery m = Some st ∧ m_poison m = None ∧ d = MaxLease st.
Proof.
  intros H. set (P := λ r (_ : machine), r = Maximum d → ∃ st, m_recovery m = Some st ∧ m_poison m = None ∧ d = MaxLease st).
  enough (P (exec answers Asks m).1 (exec answers Asks m).2) as HP by (rewrite H in HP; by apply HP).
  cbn [exec]. apply exec_wp; [done|]. apply wp_MaxLease; [|done]. intros st H1 H2 [= <-]. by exists st.
Qed.

Lemma witnessed_opened st b v : m_witness v = both st → b <= MaxLease st → witnessed b v.
Proof. intros Hw Hb. unfold witnessed. rewrite Hw. cbn. eauto 10. Qed.

(** What a raise leaves in the records, and what an answer takes from them. *)
Lemma raise_floor answers ttl m m' :
  exec answers (Raises ttl) m = (Raised, m') →
  (record_agrees m → recorded ttl m') ∧ (witness_agrees m → witnessed ttl m').
Proof.
  intros (st & Ht & Hcase)%raise_answered. split; intros Ha.
  - exists {| accepted := st; prepared := None |}. split; [|done].
    destruct Hcase as [[_ H]|(H1 & H2 & _ & H)]; [done|]. rewrite H. by apply Ha.
  - apply (witnessed_opened st); [|done]. destruct Hcase as [[H _]|(H1 & H2 & H & _)]; [done|]. rewrite H. by apply Ha.
Qed.

Lemma answer_floor answers m d m' b :
  exec answers Asks m = (Maximum d, m') →
  (record_agrees m → recorded b m → b <= d) ∧ (witness_agrees m → witnessed b m → b <= d).
Proof.
  intros (st & Hst & Hp & ->)%maximum_answered. split; intros Ha.
  - intros (r & Hr & Hb). rewrite (Ha _ Hst Hp) in Hr. by injection Hr as <-.
  - intros (e & _ & He & Hb & _). rewrite (Ha _ Hst Hp) in He. by injection He as <-.
Qed.

(** A store that agrees with a record which covers [b] answers at least [b]
    ever after, if nobody replaces that record. *)
Lemma run_floor es m b answers d m' :
  idle m → (rows_intact es ∧ record_agrees m ∧ recorded b m) ∨ (witness_intact es ∧ witness_agrees m ∧ witnessed b m) →
  exec answers Asks (run es m) = (Maximum d, m') → b <= d.
Proof.
  intros Hi Hc Hd. destruct (answer_floor _ _ _ _ b Hd) as [H1 H2]. destruct Hc as [(He & Ha & Hb)|(He & Ha & Hb)].
  - destruct (record_run es m He) as [Ha' Hc]; auto.
  - destruct (witness_run es m He) as [Ha' Hc]; auto.
Qed.

(** C8: a raised maximum is never forgotten.  However calls fail, processes
    die, power is lost and volumes are opened again before and after a
    successful [RaiseMaxLease], a later [MaxLease] answers at least its
    duration, even if one of the two records, the row or the witness, is
    replaced by anything at any time. *)
Theorem raised_lease_survives database es es' answers answers' ttl d m1 m2 :
  rows_intact (es ++ es') ∨ witness_intact (es ++ es') →
  exec answers (Raises ttl) (run es (unbound database)) = (Raised, m1) →
  exec answers' Asks (run es' m1) = (Maximum d, m2) →
  ttl <= d.
Proof.
  intros Hi Hr Hd. assert (idle (run es (unbound database))) as Hid by by apply run_idle.
  destruct (memory_kept answers (Raises ttl) _ Hid) as (Hid1 & Hw1 & Hr1). rewrite Hr in Hid1, Hw1, Hr1.
  destruct (raise_floor _ _ _ _ Hr) as [Hrec Hwit]. apply (run_floor es' m1 ttl answers' d m2); [done| |done].
  destruct Hi as [[Hi Hi']%Forall_app|[Hi Hi']%Forall_app]; [left|right].
  - destruct (record_run es (unbound database) Hi) as [Ha _]; [done|]. auto.
  - destruct (witness_run es (unbound database) Hi) as [Ha _]; [done|]. auto.
Qed.

End exec.

(** ** Witnesses *)

Definition demo_database : string := hex_encode (replicate 16 7).
Definition demo_random : list Z := replicate 16 1.
Abbreviation demo_exec := (exec "/data" ".volume.db.leases" "sqlite-database-lease-recovery").
Abbreviation demo_run := (run "/data" ".volume.db.leases" "sqlite-database-lease-recovery").

(** A raise that dies after the commit of its preparation, a power failure, and
    a reopening that completes it. *)
Definition demo_opening : list (list answer * event) := [([], Opens true demo_random)].
Definition demo_crash : list (list answer * event) :=
  [(replicate 5 Works ++ [Dies true], Raises 9); ([], Stops true true true); ([], Opens false [])].

Lemma raised_lease_survives_witness :
  ∃ m1 m2, demo_exec [] (Raises 5) (demo_run demo_opening (unbound demo_database)) = (Raised, m1)
    ∧ demo_exec [] Asks (demo_run demo_crash m1) = (Maximum 9, m2) ∧ 5 <= 9.
Proof.
  eexists _, _. split_and!; [vm_compute; reflexivity|vm_compute; reflexivity|].
  eapply (raised_lease_survives "/data" ".volume.db.leases" "sqlite-database-lease-recovery"
            demo_database demo_opening demo_crash [] [] 5 9).
  - left. by repeat constructor.
  - vm_compute; reflexivity.
  - vm_compute; reflexivity.
Defined.
