(* ===== verification/LeaseReopen.v ===== *)
(** * A volume opened once can be opened again

    The invariant of the durable records under the protocol of
    [LeaseProtocol], and the run of [OpenLocking] from any machine that
    satisfies it, when no call fails. *)

From S2P Require Import Prelude Errors Identity LeaseStore LeaseSpecs LeaseProtocol LeaseRecovery.
From stdpp Require Import relations.
Open Scope Z_scope.
Open Scope io_scope.

(** A record on its way from [a] to [b]. *)
Definition between {A} (a b : option A) (s : stored A) : Prop :=
  s = Build_stored a a ∨ s = Build_stored b a ∨ s = Build_stored b b.

Lemma between_sync {A} (a b : option A) s : between a b s → between a b (sync s).
Proof. unfold between, sync. intros [-> | [-> | ->]]; cbn; auto. Qed.
Lemma between_survive {A} (a b : option A) s l : between a b s → between a b (survive l s).
Proof. unfold between, survive. destruct l; [|done]. intros [-> | [-> | ->]]; cbn; auto. Qed.
Lemma between_put {A} (a : option A) b s : between a (Some b) s → between a (Some b) (put b s).
Proof. unfold between, put. intros [-> | [-> | ->]]; cbn; auto. Qed.

Definition holds {A} (s : stored A) (x : A) : Prop := st_visible s = Some x ∨ st_synced s = Some x.

Definition unready (v : machine) : Prop := ∀ i, holds (m_intent v) i → ai_Ready i = false.

(** Where the witness may be, given the record. *)
Definition witness_follows (r : leaseRecord) (v : machine) : Prop :=
  match prepared r with
  | Some next => between (Some (accepted r)) (Some next) (m_witness v)
  | None =>
      m_witness v = both (accepted r)
      ∨ (Generation (accepted r) = 0 ∧ MaxLease (accepted r) = 0 ∧ unready v
         ∧ between None (Some (accepted r)) (m_witness v))
  end.

Section reopen.
Context (directory name identity : string).
Abbreviation protocol := (protocol directory name identity False).
Abbreviation volume_binding := (volume_binding directory name identity).

Record disk_ok (v : machine) : Prop := {
  d_database : ValidID (m_database v) = true;
  d_intent i : holds (m_intent v) i →
    ai_Binding i = volume_binding (ab_StateID (ai_Binding i)) ∧ ValidID (ab_StateID (ai_Binding i)) = true;
  d_same i j : holds (m_intent v) i → holds (m_intent v) j → ai_Binding i = ai_Binding j;
  d_intent_kept : is_Some (st_synced (m_intent v)) → is_Some (st_visible (m_intent v));
  d_binding b i : holds (m_binding v) b → holds (m_intent v) i → b = ai_Binding i;
  d_binding_kept b : st_synced (m_binding v) = Some b → st_visible (m_binding v) = Some b;
  d_rows : (m_rows v = [] ∧ m_witness v = absent ∧ unready v)
    ∨ ∃ i r, st_synced (m_intent v) = Some i ∧ st_synced (m_binding v) = Some (ai_Binding i)
        ∧ record_of v = Ok (Some r) ∧ StateID (accepted r) = ab_StateID (ai_Binding i)
        ∧ witness_follows r v
}.

Lemma disk_ok_memory v v' : same_disk v v' → disk_ok v → disk_ok v'.
Proof.
  intros (Hr & Hd & Hi & Hw & Hb) [H1 H2 H3 H4 H5 H6 H7]. unfold record_of, witness_follows, unready in *.
  split; unfold record_of, witness_follows, unready; rewrite ?Hr, ?Hd, ?Hi, ?Hw, ?Hb; done.
Qed.

(** A record as it was, or synced, or after a power failure. *)
Definition resettle {A} (s s' : stored A) : Prop := s' = s ∨ s' = sync s ∨ s' = survive true s.

Lemma settle_holds {A} (s s' : stored A) x : resettle s s' → holds s' x → holds s x.
Proof. unfold holds. intros [-> | [-> | ->]]; cbn; naive_solver. Qed.

Lemma settle_between {A} (a b : option A) s s' : resettle s s' → between a b s → between a b s'.
Proof. intros [-> | [-> | ->]]; [done|apply between_sync|apply between_survive]. Qed.

Lemma settle_both {A} (x : A) s s' : resettle s s' → s = both x → s' = both x.
Proof. by intros [-> | [-> | ->]] ->. Qed.

Lemma settle_intent s s' (i : leaseAnchorIntent) :
  resettle s s' → (∀ i j, holds s i → holds s j → ai_Binding i = ai_Binding j) →
  (is_Some (st_synced s) → is_Some (st_visible s)) → st_synced s = Some i →
  ∃ j, st_synced s' = Some j ∧ ai_Binding j = ai_Binding i.
Proof.
  unfold holds. intros Hs Hsame Hk Hi. destruct Hs as [-> | [-> | ->]]; cbn; eauto.
  destruct Hk as [j Hj]; [by eexists|]. exists j. eauto.
Qed.

Lemma disk_ok_settle v v' :
  m_rows v' = m_rows v → m_database v' = m_database v → resettle (m_intent v) (m_intent v') →
  resettle (m_binding v) (m_binding v') → resettle (m_witness v) (m_witness v') → disk_ok v → disk_ok v'.
Proof.
  intros Hr Hd Hi Hb Hw [H1 H2 H3 H4 H5 H6 H7]. split.
  - by rewrite Hd.
  - intros i Hh. by apply H2, (settle_holds _ _ _ Hi).
  - intros i j Hh Hh'. by apply H3; apply (settle_holds _ _ _ Hi).
  - destruct Hi as [-> | [-> | ->]]; cbn; auto.
  - intros b i Hh Hh'. apply H5; [by apply (settle_holds _ _ _ Hb)|by apply (settle_holds _ _ _ Hi)].
  - intros b. destruct Hb as [-> | [-> | ->]]; cbn; auto.
  - assert (unready v → unready v') as Hu.
    { intros Hu i Hh. by apply Hu, (settle_holds _ _ _ Hi). }
    destruct H7 as [(H & Hn & Hu')|(i & r & Hsi & Hsb & Hrec & Hst & Hf)].
    { left. rewrite Hr. split_and!; [done| |auto]. rewrite Hn in Hw. by destruct Hw as [-> | [-> | ->]]. }
    destruct (settle_intent _ _ _ Hi H3 H4 Hsi) as (j & Hj & Hij). right. exists j, r.
    unfold record_of. rewrite Hr, Hd, Hij. split_and!; try done.
    + destruct Hb as [-> | [-> | ->]]; cbn; auto.
    + unfold witness_follows in *. destruct (prepared r); [by eapply settle_between|].
      destruct Hf as [Hf|(? & ? & ? & ?)]; [left; by eapply settle_both|right]. split_and!; try done; [auto|].
      by eapply settle_between.
Qed.

Lemma disk_ok_stop i w b v : disk_ok v → disk_ok (stop i w b v).
Proof.
  assert (∀ A l (s : stored A), resettle s (survive l s)) as Hl by (intros A [] s; [by right; right|by left]).
  apply disk_ok_settle; [done..|apply Hl|apply Hl|apply Hl].
Qed.

Lemma disk_ok_fresh v : disk_ok v → st_visible (m_binding v) = None ∨ st_visible (m_intent v) = None →
  m_rows v = [] ∧ m_witness v = absent ∧ unready v.
Proof.
  intros [H1 H2 H3 H4 H5 H6 [H7|(i & r & Hi & Hb & _)]] Hn; [done|].
  destruct Hn as [Hn|Hn]; [rewrite (H6 _ Hb) in Hn; done|].
  destruct H4 as [j Hj]; [by eexists|]. congruence.
Qed.

Lemma disk_ok_unbound v b : disk_ok v → st_visible (m_binding v) = None → ¬ holds (m_binding v) b.
Proof.
  intros Hok Hb [?|Hs]; [congruence|]. apply d_binding_kept in Hs; [congruence|done].
Qed.

Lemma disk_ok_intend state v :
  ValidID state = true → st_visible (m_intent v) = None → st_visible (m_binding v) = None → disk_ok v →
  disk_ok (set_m_intent (put {| ai_Binding := volume_binding state; ai_Ready := false |} (m_intent v)) v).
Proof.
  intros Hv Hi Hb Hok. destruct (disk_ok_fresh v Hok) as (Hrows & Hwit & Hu); [by right|].
  pose proof (disk_ok_unbound v) as Hn. set (new := {| ai_Binding := _ |}).
  assert (∀ i, holds (put new (m_intent v)) i → i = new) as Hnew.
  { intros i [[= <-]|Hs]; [done|]. destruct (d_intent_kept v Hok) as [? ?]; [by eexists|congruence]. }
  split; cbn [m_database m_intent m_binding set_m_intent].
  - apply Hok.
  - intros i ->%Hnew. done.
  - by intros i j ->%Hnew ->%Hnew.
  - by eexists.
  - intros b i Hh. by destruct (Hn b Hok Hb).
  - intros b Hh. destruct (Hn b Hok Hb). by right.
  - left. split_and!; [done..|]. by intros i ->%Hnew.
Qed.

Lemma disk_ok_bind intent v :
  st_visible (m_intent v) = Some intent → ai_Ready intent = false → st_visible (m_binding v) = None → disk_ok v →
  disk_ok (set_m_binding (put (ai_Binding intent) (m_binding v)) v).
Proof.
  intros Hi Hr Hb Hok. destruct (disk_ok_fresh v Hok) as (Hrows & Hwit & Hu); [by left|].
  assert (∀ b, holds (put (ai_Binding intent) (m_binding v)) b → b = ai_Binding intent) as Hnew.
  { intros b [[= <-]|Hs]; [done|]. destruct (disk_ok_unbound v b Hok Hb). by right. }
  split; cbn [m_database m_intent m_binding set_m_binding]; try apply Hok.
  - intros b i ->%Hnew Hh. apply Hok; [by left|done].
  - intros b Hs. cbn. by rewrite (Hnew b (or_intror Hs)).
Qed.

(** The rows, or the witness, move within [witness_follows]. *)
Lemma disk_ok_move i r v v' :
  m_database v' = m_database v → m_intent v' = m_intent v → m_binding v' = m_binding v →
  st_synced (m_intent v) = Some i → st_synced (m_binding v) = Some (ai_Binding i) →
  record_of v' = Ok (Some r) → StateID (accepted r) = ab_StateID (ai_Binding i) → witness_follows r v' →
  disk_ok v → disk_ok v'.
Proof.
  intros Hd Hi Hb Hsi Hsb Hr Hst Hw Hok.
  split; rewrite ?Hd, ?Hi, ?Hb; try apply Hok. right. by exists i, r.
Qed.

(** The record that is there, with the intent it belongs to. *)
Lemma disk_ok_record v r : disk_ok v → record_of v = Ok (Some r) →
  ∃ i, st_synced (m_intent v) = Some i ∧ st_synced (m_binding v) = Some (ai_Binding i)
     ∧ StateID (accepted r) = ab_StateID (ai_Binding i) ∧ witness_follows r v.
Proof.
  intros Hok Hr. destruct (d_rows v Hok) as [(Hn & _)|(i & r' & H1 & H2 & H3 & H4 & H5)].
  - unfold record_of in Hr. by rewrite Hn in Hr.
  - rewrite Hr in H3. injection H3 as <-. by exists i.
Qed.

Lemma disk_ok_ready intent e v :
  settled intent v → m_witness v = both e → disk_ok v →
  disk_ok (set_m_intent (put {| ai_Binding := ai_Binding intent; ai_Ready := true |} (m_intent v)) v).
Proof.
  intros [Hi Hb] Hw Hok. set (new := {| ai_Binding := _ |}).
  assert (∀ i, holds (put new (m_intent v)) i → ai_Binding i = ai_Binding intent) as Hnew.
  { rewrite Hi. by intros i [[= <-]|[= <-]]. }
  destruct (d_rows v Hok) as [(_ & Hn & _)|(i & r & H1 & H2 & H3 & H4 & H5)]; [by rewrite Hn in Hw|].
  split; cbn [m_database m_intent m_binding set_m_intent].
  - apply Hok.
  - intros i' ->%Hnew. apply (d_intent v Hok). left. by rewrite Hi.
  - by intros ? ? ->%Hnew ->%Hnew.
  - by eexists.
  - intros b i' Hh ->%Hnew. apply (d_binding v Hok); [done|]. left. by rewrite Hi.
  - apply Hok.
  - right. exists i, r. split_and!; try done. unfold witness_follows in *. cbn.
    destruct (prepared r); [done|]. left. destruct H5 as [?|(_ & _ & _ & H5)]; [done|].
    rewrite Hw in H5 |- *. destruct H5 as [[=]|[[=]|[= ->]]]. done.
Qed.

Lemma disk_ok_protocol v v' : protocol v v' → disk_ok v → disk_ok v'.
Proof.
  intros Hp Hok. destruct Hp as [v v' Hm|v|v|state v Hv Hi Hb Hw|intent v Hi Hr Hb|intent rows v Hs Hr Hw Hn Hn'
    |intent v Hs Hr Hw Hrec|state ttl rows v Hg Ht Hrec Hrec' Hw|acc next v Hrec Hf|acc next rows v Hrec Hw Hrec'
    |intent e v Hs Hr Hw].
  - by eapply disk_ok_memory.
  - apply (disk_ok_settle v); [done|done|by right; left|by left|by right; left|done].
  - apply (disk_ok_settle v); [done|done|by left|by right; left|by left|done].
  - destruct Hv as [[]|Hv]. by apply disk_ok_intend.
  - by apply disk_ok_bind.
  - destruct Hs as [Hi Hb]. eapply (disk_ok_move intent _ v); try done; [by rewrite Hi|by rewrite Hb|].
    destruct (d_rows v Hok) as [(_ & Hwn & Hu)|(i & r & _ & _ & H3 & _)]; [|congruence].
    right. split_and!; [done..|]. left. exact Hwn.
  - destruct (disk_ok_record v _ Hok Hrec) as (i & H1 & H2 & H3 & H4). eapply (disk_ok_move i _ v); try done.
    destruct H4 as [H4|(H4 & H5 & H6 & H7)]; [by rewrite H4 in Hw|]. right. split_and!; [done..|]. by apply between_put.
  - destruct Hw as [[]|Hw]. destruct (disk_ok_record v _ Hok Hrec) as (i & H1 & H2 & H3 & H4).
    eapply (disk_ok_move i _ v); try done. by left.
  - destruct (disk_ok_record v _ Hok Hrec) as (i & H1 & H2 & H3 & H4). eapply (disk_ok_move i _ v); try done.
    by apply between_put.
  - destruct (disk_ok_record v _ Hok Hrec) as (i & H1 & H2 & H3 & H4). eapply (disk_ok_move i _ v); try done.
    + apply read_inv in Hrec as (_ & _ & _ & _ & -> & _). done.
    + left. exact Hw.
  - by eapply disk_ok_ready.
Qed.

(** ** Runs in which every call works *)

Definition good {A} (c : io A) (Q : A → machine → Prop) (v : machine) : Prop :=
  m_io v = [] → ∃ a v', c v = (Value a, v') ∧ m_io v' = [] ∧ Q a v'.

Section rules.
Context {A B : Type}.
Implicit Types (Q : A → machine → Prop) (v : machine).

Lemma good_ret a Q v : Q a v → good (io_ret a) Q v.
Proof. intros H Hv. by exists a, v. Qed.
Lemma good_bind (c : io B) (k : B → io A) Q v : good c (λ a v, good (k a) Q v) v → good (io_bind c k) Q v.
Proof.
  intros H Hv. destruct (H Hv) as (a & v1 & E & Hv1 & H1). destruct (H1 Hv1) as (b & v2 & E2 & Hv2 & H2).
  exists b, v2. unfold io_bind. by rewrite E.
Qed.
Lemma good_catch (c : io A) h Q v : good c Q v → good (io_catch c h) Q v.
Proof. intros H Hv. destruct (H Hv) as (a & v1 & E & H1). exists a, v1. unfold io_catch. by rewrite E. Qed.
Lemma good_anchored (c : io A) Q v : good c Q v → good (anchored c) Q v.
Proof. apply good_catch. Qed.
Lemma good_gets (f : machine → A) Q v : Q (f v) v → good (io_gets f) Q v.
Proof. intros H Hv. by exists (f v), v. Qed.
End rules.

Section effects.
Implicit Types (Q : unit → machine → Prop) (v : machine).

Lemma no_io v : m_io v = [] → set_m_io [] v = v.
Proof. destruct v. cbn. by intros ->. Qed.
Lemma good_effect f Q v : (∀ v, m_io (f v) = m_io v) → Q tt (f v) → good (effect f) Q v.
Proof.
  intros Hf H Hv. exists tt, (f v). unfold effect. rewrite Hv. cbn [head tail]. rewrite (no_io v Hv).
  by rewrite Hf.
Qed.
Lemma good_attempt Q v : Q tt v → good attempt Q v.
Proof. intros H. by apply (good_effect id). Qed.
Lemma good_modify f Q v : (∀ v, m_io (f v) = m_io v) → Q tt (f v) → good (io_modify f) Q v.
Proof. intros Hf H Hv. exists tt, (f v). by rewrite Hf. Qed.
Lemma good_both c d Q v : good c (λ _ v, good d Q v) v → good (io_both c d) Q v.
Proof.
  intros H. apply good_bind, good_catch. intros Hv. destruct (H Hv) as (a & v1 & E & Hv1 & H1).
  exists a, v1. split_and!; [done..|]. by apply good_catch.
Qed.
Lemma good_check err Q v : err = None → Q tt v → good (io_check err) Q v.
Proof. intros -> H. by apply good_ret. Qed.
Lemma good_healthy Q v : m_poison v = None → Q tt v → good healthy Q v.
Proof. intros Hp H. apply good_bind, good_gets. rewrite Hp. by apply good_ret. Qed.
Lemma good_with_anchor {A} (f : leaseAnchorIntent → io A) intent (Q : A → machine → Prop) v :
  m_anchor v = Some intent → good (f intent) Q v → good (with_anchor f) Q v.
Proof. intros Hi H. apply good_bind, good_gets. by rewrite Hi. Qed.
End effects.

Ltac good_step :=
  lazymatch goal with
  | |- good (io_bind _ _) _ _ => apply good_bind
  | |- good (io_catch _ _) _ _ => apply good_catch
  | |- good (io_both _ _) _ _ => apply good_both
  | |- good (anchored _) _ _ => apply good_anchored
  | |- good (io_ret _) _ _ => apply good_ret
  | |- good (io_gets _) _ _ => apply good_gets
  | |- good attempt _ _ => apply good_attempt
  | |- good syncDirectory _ _ => apply good_effect; [done|]
  | |- good syncBinding _ _ => apply good_effect; [done|]
  | |- good (effect _) _ _ => apply good_effect; [done|]
  | |- good (io_modify _) _ _ => apply good_modify; [done|]
  end.
Ltac good_steps := repeat good_step; cbn beta.

Section opening.
Implicit Types (v : machine).

Lemma good_verify intent Q v :
  st_visible (m_binding v) = Some (ai_Binding intent) → Q tt v → good (verify intent) Q v.
Proof. intros Hb H. unfold verify. good_steps. rewrite bool_decide_true by done. by good_steps. Qed.

Lemma good_load intent e Q v :
  st_visible (m_witness v) = Some e → validateEvidence intent e = None → Q (Some e) v → good (load intent) Q v.
Proof.
  intros Hw He H. unfold load. good_steps. rewrite Hw. good_steps. apply good_check; [done|]. by good_steps.
Qed.

Lemma good_mutate body rows Q v :
  m_poison v = None → body (m_database v) (m_rows v) = Ok rows → Q tt (set_m_rows rows v) →
  good (mutate body) Q v.
Proof.
  intros Hp Hb H. unfold mutate, commitPrepared. good_steps. apply good_healthy; [done|]. good_steps.
  rewrite Hb. good_steps. apply good_healthy; [done|]. by good_steps.
Qed.

Lemma good_Advance intent previous next Q v :
  m_anchor v = Some intent → st_visible (m_binding v) = Some (ai_Binding intent) →
  validateEvidence intent next = None → st_visible (m_witness v) = Some previous →
  validateEvidence intent previous = None → previous = next ∨ not_next previous next = false →
  Q tt (synced (renamed next v)) → good (advanceWitness next) Q v.
Proof.
  intros Hi Hb Hv Hw Hv' Hf H. unfold advanceWitness, Advance. good_steps. eapply good_with_anchor; [done|]. good_steps.
  apply good_verify; [done|]. good_steps. apply good_check; [done|]. good_steps. eapply good_load; [done..|].
  case_bool_decide as Hp.
  - subst. good_steps. replace (set_m_intent _ _) with (synced (renamed next v)); [done|].
    destruct v as [? ? ? ? [wv ws] ? ? ? ? ?]. unfold synced, renamed, sync, put. cbn in *. by rewrite Hw.
  - destruct Hf as [?|Hf]; [done|]. rewrite Hf. unfold publish_witness, publish. good_steps.
    cbn [andb]. good_steps. by apply good_verify.
Qed.

Lemma validate_recorded intent r e v :
  record_of v = Ok (Some r) → StateID (accepted r) = ab_StateID (ai_Binding intent) →
  e = accepted r ∨ prepared r = Some e →
  validateEvidence intent e = None ∧ ValidateEvidence e = None.
Proof.
  intros (_ & Hok)%read_inv Hst He.
  assert (ValidateEvidence e = None ∧ StateID e = StateID (accepted r)) as [Hv Hs].
  { destruct He as [-> | He]; [by destruct Hok as (_ & _ & ? & _)|].
    pose proof (next_valid _ _ _ Hok He) as (_ & _ & ? & _). split; [done|].
    destruct Hok as (_ & _ & _ & Hp). rewrite He in Hp. by destruct Hp as (-> & _). }
  split; [|done]. unfold validateEvidence. apply ValidateEvidence_spec in Hv as (H1 & _ & H3 & H4).
  rewrite H1, bool_decide_true by congruence. cbn. apply Z.ltb_ge in H3 as ->, H4 as ->. done.
Qed.

Lemma recorded_next v r next :
  record_of v = Ok (Some r) → prepared r = Some next → not_next (accepted r) next = false.
Proof.
  intros (_ & _ & _ & _ & Hp)%read_inv Hn. rewrite Hn in Hp. destruct Hp as (-> & _ & Hm).
  unfold not_next. cbn in *. rewrite bool_decide_true by done. cbn.
  repeat (apply orb_false_iff; split); [apply Z.leb_gt; lia|apply negb_false_iff, Z.eqb_eq; lia|by apply Z.ltb_ge].
Qed.

Lemma good_recovery_open i r w Q v :
  m_anchor v = Some i → settled i v → m_poison v = None → ai_Ready i = true →
  record_of v = Ok (Some r) → StateID (accepted r) = ab_StateID (ai_Binding i) →
  m_witness v = both w → (w = accepted r ∧ prepared r = None ∨ is_Some (prepared r) ∧ (w = accepted r ∨ prepared r = Some w)) →
  (∀ v', m_anchor v' = m_anchor v → m_poison v' = None → settled i v' → opened (newest r) v' → Q (newest r) v') →
  good (recovery_open (ab_StateID (ai_Binding i)) (negb (ai_Ready i))) Q v.
Proof.
  intros Ha [Hi Hb] Hp Hr Hrec Hst Hw Hcase H.
  assert (w = accepted r ∨ prepared r = Some w) as Hwr by (destruct Hcase as [[? _]|[_ ?]]; auto).
  destruct (validate_recorded i r w v Hrec Hst Hwr) as [Hv1 Hv2].
  assert (st_visible (m_binding v) = Some (ai_Binding i)) as Hb' by by rewrite Hb.
  assert (st_visible (m_witness v) = Some w) as Hw' by by rewrite Hw.
  unfold recovery_open, Load, open_record, inspect_record. good_steps. eapply good_with_anchor; [done|]. good_steps.
  apply good_verify; [done|]. eapply good_load; [done..|]. good_steps. apply good_healthy; [done|]. good_steps.
  unfold record_of in Hrec. rewrite Hrec. good_steps. rewrite bool_decide_true by done. cbn [negb]. unfold open_witness.
  good_steps. apply good_check; [done|]. destruct r as [acc [next|]]; cbn [prepared accepted] in *.
  - destruct (validate_recorded i _ next v Hrec Hst) as [Hv3 Hv4]; [by right|].
    assert (negb (bool_decide (w = acc)) && negb (bool_decide (w = next)) = false) as ->.
    { apply andb_false_iff. rewrite !negb_false_iff, !bool_decide_eq_true. clear -Hwr. naive_solver. }
    good_steps. eapply (good_Advance i w next); try done.
    { destruct Hwr as [-> | [= ->]]; [right|by left]. by apply (recorded_next v {| accepted := acc; prepared := Some next |}). }
    assert (∃ rows, finalize_body next (m_database v) (m_rows v) = Ok rows) as [rows Hf].
    { unfold finalize_body. rewrite Hrec. rewrite bool_decide_true by done. eauto. }
    unfold finalize. good_steps. eapply good_mutate; [done|exact Hf|]. good_steps.
    apply finalize_read in Hf as (_ & _ & Hf). apply H; [done..| |].
    + split; cbn; by rewrite ?Hi, ?Hb.
    + by split.
  - destruct Hcase as [[-> _]|[[? ?] _]]; [|done]. rewrite bool_decide_true by done. good_steps. apply H; [done|done|by split|by split].
Qed.

Lemma good_openAnchor i e init random Q v :
  settled i v → ai_Ready i = true →
  ai_Binding i = volume_binding (ab_StateID (ai_Binding i)) → ValidID (ab_StateID (ai_Binding i)) = true →
  st_visible (m_witness v) = Some e → validateEvidence i e = None →
  Q i (set_m_binding (sync (m_binding v)) (synced v)) →
  good (openAnchor (volume_config directory name identity init) random) Q v.
Proof.
  intros [Hi Hb] Hr Hbi Hid Hw He H. unfold openAnchor, open_intent. good_steps. rewrite Hi. cbn [both st_visible].
  unfold bound_to. cbn [cf_Directory cf_Name cf_Identity volume_config]. rewrite bool_decide_true by done.
  rewrite Hid. cbn [negb orb]. good_steps. unfold open_binding. rewrite Hb. cbn [both st_visible].
  rewrite bool_decide_true by done. good_steps. apply good_verify; [cbn; by rewrite Hb|]. good_steps.
  eapply good_load; [done..|]. by good_steps.
Qed.
End opening.

(** ** Initialized volumes *)

Definition initialized (v : machine) : Prop := ∃ i, m_intent v = both i ∧ ai_Ready i = true.

Lemma initialized_protocol v v' : protocol v v' → initialized v → initialized v'.
Proof.
  intros Hp (i & Hi & Hr).
  destruct Hp as [v v' (_ & _ & Hm & _)|v| |? v _ Hn|? v| | | | | |? ? v [Hi' _] Hr']; try by exists i.
  - exists i. by rewrite Hm.
  - exists i. cbn. by rewrite Hi.
  - by rewrite Hi in Hn.
  - rewrite Hi in Hi'. injection Hi' as <-. congruence.
Qed.

Lemma initialized_stop i w b v : initialized v → initialized (stop i w b v).
Proof. intros (j & Hj & Hr). exists j. split; [|done]. cbn. rewrite Hj. by destruct i. Qed.

(** The witness of an initialized volume is that of its record, on either side
    of a raise. *)
Lemma initialized_record i v :
  disk_ok v → m_intent v = both i → ai_Ready i = true →
  m_binding v = both (ai_Binding i) ∧ ∃ r w, record_of v = Ok (Some r)
    ∧ StateID (accepted r) = ab_StateID (ai_Binding i) ∧ st_visible (m_witness v) = Some w
    ∧ (w = accepted r ∧ prepared r = None ∨ is_Some (prepared r) ∧ (w = accepted r ∨ prepared r = Some w)).
Proof.
  intros Hok Hi Hr. assert (holds (m_intent v) i) as Hh by (rewrite Hi; by left).
  destruct (d_rows v Hok) as [(_ & _ & Hu)|(j & r & Hj & Hb & Hrec & Hst & Hf)].
  { by rewrite (Hu i Hh) in Hr. }
  rewrite Hi in Hj. injection Hj as <-. split.
  { pose proof (d_binding_kept v Hok _ Hb). destruct (m_binding v). cbn in *. by subst. }
  exists r. unfold witness_follows in Hf. destruct (prepared r) as [next|] eqn:Ep.
  - destruct Hf as [-> | [-> | ->]]; cbn; eauto 10.
  - destruct Hf as [-> | (_ & _ & Hu & _)]; [cbn; eauto 10|]. by rewrite (Hu i Hh) in Hr.
Qed.

Lemma good_OpenLocking init random v :
  disk_ok v → initialized v → m_owned v = false → m_anchor v = None → m_poison v = None → m_recovery v = None →
  good (OpenLocking (volume_config directory name identity init) random)
    (λ _ v', is_Some (m_recovery v') ∧ m_poison v' = None) v.
Proof.
  intros Hok (i & Hi & Hr) Ho Ha Hp Hrec. destruct (initialized_record i v Hok Hi Hr) as (Hb & r & w & Hre & Hst & Hw & Hc).
  destruct (d_intent v Hok i) as [Hbi Hid]; [rewrite Hi; by left|].
  destruct (validate_recorded i r w v Hre Hst) as [Hv _]; [destruct Hc as [[? _]|[_ ?]]; auto|].
  unfold OpenLocking, AcquireDatabase. good_steps. rewrite Ho. good_steps.
  eapply (good_openAnchor i w); [by split|done..|]. good_steps.
  set (v1 := set_m_anchor _ _). unfold ConfigureLeaseRecovery. good_steps. apply (good_with_anchor _ i); [done|]. good_steps.
  apply good_verify; [cbn; by rewrite Hb|]. good_steps. cbn [m_recovery v1 set_m_anchor set_m_binding synced set_m_intent set_m_witness set_m_owned].
  rewrite Hrec, Hid, bool_decide_false by (by intros [? [=]]). cbn [negb orb]. good_steps.
  apply good_healthy; [done|]. good_steps. eapply (good_recovery_open i r w); try done.
  { split; cbn; by rewrite ?Hi, ?Hb. }
  { cbn. unfold sync. by rewrite Hw. }
  intros v2 Ha2 Hp2 [Hi2 Hb2] [Hw2 Hrec2]. good_steps. unfold Complete. apply (good_with_anchor _ i); [exact Ha2|]. good_steps.
  apply good_verify; [cbn; by rewrite Hb2|]. good_steps.
  apply (good_load _ (newest r)); [cbn; by rewrite Hw2|apply (validate_recorded i r (newest r) v Hre Hst)|].
  { unfold newest. destruct (prepared r); cbn; auto. }
  good_steps. rewrite Hr. good_steps. apply good_healthy; [done|]. good_steps.
  unfold Store_MaxLease, configuredLeaseRecovery. good_steps. cbn. good_steps. apply good_healthy; [done|]. good_steps.
  by split.
Qed.

(** ** Runs *)

Abbreviation exec := (exec directory name identity).
Abbreviation run := (run directory name identity).

(** No record is replaced from outside, and identities are random bytes. *)
Definition undisturbed (e : event) : Prop :=
  replaces_rows e = false ∧ replaces_witness e = false ∧ draws e.

Lemma undisturbed_kept (K : machine → Prop) answers e m :
  (∀ v v', protocol v v' → K v → K v') → (∀ i w b v, K v → K (stop i w b v)) →
  undisturbed e → idle m → witness_agrees m → K m → K (exec answers e m).2.
Proof.
  intros H1 H2 (He1 & He2 & He3) Hi Hw HK. apply (disk_kept _ _ _ False); auto; by intros ? ? ->.
Qed.

Definition store_ok (m : machine) : Prop := idle m ∧ witness_agrees m ∧ disk_ok m.

Lemma store_ok_exec answers e m : undisturbed e → store_ok m → store_ok (exec answers e m).2.
Proof.
  intros He (Hi & Hw & Hd). destruct (memory_kept directory name identity answers e m Hi) as (Hi' & Hw' & _).
  split_and!; [done|by apply Hw', Hw; apply He|].
  apply undisturbed_kept; [apply disk_ok_protocol|apply disk_ok_stop|done..].
Qed.

Lemma opened_initialized answers init random m m' :
  idle m → exec answers (Opens init random) m = (Opened, m') → initialized m'.
Proof.
  intros Hi H. set (P := λ r m', r = Opened → initialized m').
  enough (P (exec answers (Opens init random) m).1 (exec answers (Opens init random) m).2) as HP
    by (rewrite H in HP; by apply HP).
  cbn [exec]. apply exec_wp; [done|]. eapply (steps_OpenLocking directory name identity True); [by left|done|..].
  - intros st i v' _ _ _ _ Hr [Hs _] _. by exists i.
  - by split.
  - by intros.
Qed.

Lemma unbound_ok database : ValidID database = true → store_ok (unbound database).
Proof.
  intros Hd. split_and!; [done..|].
  split; cbn; try done; try (by intros ? [[=]|[=]]); try (by intros ? ? [[=]|[=]]); try (by intros []).
  left. split_and!; [done..|]. by intros ? [[=]|[=]].
Qed.

(** C9: a volume that was opened once opens again.  Whatever calls failed and
    wherever processes died or power was lost since, the next [OpenLocking]
    whose calls work succeeds, and [MaxLease] answers. *)
Theorem volume_reopens database es es' answers init random m1 i w b init' random' :
  ValidID database = true → Forall (λ e, undisturbed e.2) (es ++ es') → draws (Opens init random) →
  exec answers (Opens init random) (run es (unbound database)) = (Opened, m1) →
  let reopened := exec [] (Opens init' random') (stop i w b (run es' m1)) in
  reopened.1 = Opened ∧ ∃ d, (exec [] Asks reopened.2).1 = Maximum d.
Proof.
  intros Hd [He He']%Forall_app Hdr Ho. pose proof (unbound_ok _ Hd) as H0.
  assert (∀ es m, Forall (λ e, undisturbed e.2) es → store_ok m → store_ok (run es m)) as Hrun.
  { intros es0 m H. apply run_kept. eapply Forall_impl; [exact H|]. intros e Hu m'. by apply store_ok_exec. }
  pose proof (Hrun _ _ He H0) as H1. pose proof (opened_initialized _ _ _ _ _ (proj1 H1) Ho) as Hi1.
  assert (store_ok m1) as H2.
  { replace m1 with (exec answers (Opens init random) (run es (unbound database))).2 by (by rewrite Ho).
    by apply store_ok_exec. }
  assert (store_ok (run es' m1) ∧ initialized (run es' m1)) as [(_ & _ & H3) H4].
  { apply (run_kept _ _ _ (λ m, store_ok m ∧ initialized m)); [|done]. eapply Forall_impl; [exact He'|].
    intros e Hu m' [Hs Hi]. split; [by apply store_ok_exec|]. destruct Hs as (? & ? & _).
    apply undisturbed_kept; [apply initialized_protocol|apply initialized_stop|done..]. }
  intros reopened. unfold reopened. cbn [exec]. rewrite no_io by done.
  destruct (good_OpenLocking init' random' (stop i w b (run es' m1))) as (a & m2 & E & Hio & [st Hst] & Hp);
    [by apply disk_ok_stop|by apply initialized_stop|done..|].
  rewrite E. cbn [answered fst snd]. split; [done|]. exists (MaxLease st). rewrite no_io by done.
  unfold Store_MaxLease, configuredLeaseRecovery, io_bind, io_gets, io_ret. rewrite Hst.
  unfold attempt, effect. rewrite Hio. cbn [head tail id]. rewrite no_io by done.
  unfold healthy, io_bind, io_gets, io_ret. by rewrite Hp.
Qed.
End reopen.

(** ** Witness *)

Lemma volume_reopens_witness :
  ∃ m1, demo_exec [] (Opens true demo_random) (demo_run [] (unbound demo_database)) = (Opened, m1)
    ∧ (demo_exec [] (Opens false []) (stop true true true (demo_run [([Works; Dies true], Raises 9)] m1))).1 = Opened.
Proof.
  eexists. split; [vm_compute; reflexivity|].
  refine (proj1 (volume_reopens "/data" ".volume.db.leases" "sqlite-database-lease-recovery" demo_database
    [] [([Works; Dies true], Raises 9)] [] true demo_random _ true true true false [] _ _ _ _)).
  - vm_compute; reflexivity.
  - by repeat constructor.
  - split; [done|]. by repeat constructor.
  - vm_compute; reflexivity.
Defined.

(** ** An initialization that cannot be resumed *)

(** The first opening dies after the intent's rename, the second after the sync
    of the binding; then power is lost.  The binding is durable and the intent,
    whose directory was not synced yet, is not. *)
Definition stalled_run : list (list answer * event) :=
  [(replicate 7 Works ++ [Dies true], Opens true demo_random);
   (replicate 5 Works ++ [Dies true], Opens true demo_random);
   ([], Stops true false false)].

(** An intent that became visible before its directory was synced is given a
    durable binding, and the volume is refused from then on. *)
Theorem initialization_can_stall :
  Forall (λ e, undisturbed e.2) stalled_run
  ∧ ∀ init random, ∃ err,
      (demo_exec [] (Opens init random) (demo_run stalled_run (unbound demo_database))).1 = Refused err.
Proof.
  split.
  - repeat constructor; cbn; lia.
  - intros init random. eexists. vm_compute. reflexivity.
Qed.
