(* ===== verification/LeaseVolume.v ===== *)
(** * The authority on its store

    What the lease authority ([packages/locking], interface [Persistence]) asks
    of the store of the longest lease, as a type class; the authority running
    on any such store refines the runs of [LockSteps]; and the SQLite store of
    [LeaseStore] is one.  Together: leases outlive a crash. *)

From S2P Require Import Prelude Errors Identity LeaseStore LeaseSpecs LeaseProtocol LeaseRecovery LockTokens LockState LockAuthority LockInv LockSections LockEvolve LockPublish LockSteps LockRuns LockTheorems.
From stdpp Require Import relations.
Open Scope Z_scope.

(** ** The interface *)

Class LeasePersistence (S : Type) := {
  (** a call of [MaxLease] may answer *)
  answers_max : S → Z → Prop;
  (** a call of [RaiseMaxLease] with its error *)
  raises_max : S → Z → option error → S → Prop;
  (** whatever else happens to the store of a running authority *)
  background : S → S → Prop;
  (** restarts, and what they may lose *)
  restarts : S → S → Prop;
  (** a store that was opened *)
  ready : S → Prop;
  (** every restart will answer at least this *)
  covers : S → Z → Prop;
  covers_answer s d : ready s → answers_max s d → covers s d;
  covers_background s s' b : background s s' → covers s b → covers s' b;
  covers_raise s ttl err s' b : raises_max s ttl err s' → covers s b → covers s' b;
  raise_covers s ttl s' b : covers s b → raises_max s ttl None s' → covers s' ttl;
  restart_covers s s' b d : covers s b → restarts s s' → answers_max s' d → b <= d
}.

(** ** The authority on a store *)

Section volume.
Context {S : Type} `{LeasePersistence S}.

Record volume := { vl_authority : Authority; vl_calls : gmap nat call; vl_store : S }.

Definition on_bound (p : Z) (v : volume) : world :=
  {| wo_authority := vl_authority v; wo_persisted := p; wo_calls := vl_calls v |}.

(** A step of the authority that needs nothing from the store, a raise, or a
    step of the store. *)
Inductive volume_step : volume → volume → Prop :=
| volume_quiet v v' :
    (∀ p, step (on_bound p v) (on_bound p v')) → vl_store v' = vl_store v → volume_step v v'
| volume_raise a calls s c t q r ctx_err persist x a' s' :
    calls !! c = Some (ActionCall t q r Begun) →
    raises_max s (task_ttl t) persist s' → raise ctx_err (task_ttl t) persist a = Some (x, a') →
    volume_step {| vl_authority := a; vl_calls := calls; vl_store := s |}
      {| vl_authority := a'; vl_store := s';
         vl_calls := <[c := ActionCall t q r (match x with None => Raised | Some err => Failed err end)]> calls |}
| volume_background a calls s s' :
    background s s' →
    volume_step {| vl_authority := a; vl_calls := calls; vl_store := s |}
                {| vl_authority := a; vl_calls := calls; vl_store := s' |}.

(** [New] with what the store answers. *)
Inductive volume_started : volume → Prop :=
| volume_new o s watermark start i clock nonce a :
    ready s → answers_max s watermark → New o (Ok watermark) start i clock nonce = Ok a →
    volume_started {| vl_authority := a; vl_calls := ∅; vl_store := s |}.

Definition volume_reachable (v : volume) : Prop :=
  ∃ v0, volume_started v0 ∧ env_ok (au_env (vl_authority v0)) ∧ rtc volume_step v0 v
        ∧ drawn (vl_authority v).

Lemma volume_step_refines v v' p :
  volume_step v v' → covers (vl_store v) p →
  ∃ p', rtc step (on_bound p v) (on_bound p' v') ∧ covers (vl_store v') p'.
Proof.
  intros Hs Hc. destruct Hs as [v v' Hq E|a calls s c t q r ctx_err persist x a' s' Hcall Hr Ha|a calls s s' Hb].
  - exists p. rewrite E. split; [by apply rtc_once|done].
  - exists (match persist with None => Z.max p (task_ttl t) | Some _ => p end). split.
    + apply rtc_once. eapply step_raise; [done..|]. split; destruct persist; try done; intros; lia.
    + pose proof (covers_raise _ _ _ _ _ Hr Hc). destruct persist; [done|].
      destruct (Z.max_spec p (task_ttl t)) as [[_ ->]|[_ ->]]; [|done]. exact (raise_covers _ _ _ _ Hc Hr).
  - exists p. split; [done|]. by eapply covers_background.
Qed.

Lemma volume_steps_refine v v' p :
  rtc volume_step v v' → covers (vl_store v) p →
  ∃ p', rtc step (on_bound p v) (on_bound p' v') ∧ covers (vl_store v') p'.
Proof.
  intros Hr. revert p. induction Hr as [v|v0 v1 v Hstep _ IH]; intros p Hc; [by exists p|].
  destruct (volume_step_refines _ _ _ Hstep Hc) as (p1 & H1 & Hc1). destruct (IH _ Hc1) as (p2 & H2 & Hc2).
  exists p2. split; [by etrans|done].
Qed.

Lemma volume_bound v : volume_reachable v → ∃ p, reachable (on_bound p v) ∧ covers (vl_store v) p.
Proof.
  intros (v0 & [o s w start i clock nonce a Hre Hans Hn] & He & Hr & Hd).
  destruct (volume_steps_refine _ _ w Hr) as (p & Hr' & Hc); [by apply covers_answer|].
  exists p. split; [|done]. eexists. split; [by eapply started_new|done].
Qed.

(** C7: leases outlive a crash.  The authority runs on a store; the store is
    restarted, by crashes and whatever else it survives, and asked for its
    maximum; and a new authority starts with the answer, after the old clock.
    No admission check of it passes before the deadline of a lease that was
    active. *)
Theorem leases_outlive_restart v g gr s' d o start i clock nonce a b b' :
  volume_reachable v → au_grantHeap (vl_authority v) !! g = Some gr → gt_state gr = Active →
  restarts (vl_store v) s' → answers_max s' d →
  New o (Ok d) (Some start) i clock nonce = Ok a → latest (vl_authority v) <= start →
  au_env b = au_env a → healthyLocked None true b = Some (None, b') →
  gt_deadline gr <= latest b'.
Proof.
  intros (p & Hr & Hc)%volume_bound Hg Ha Hs Hd Hn Hl He Hh.
  pose proof (restart_covers _ _ _ _ Hc Hs Hd) as Hp.
  eapply (recovery_bound (on_bound p v) g gr d); done.
Qed.
End volume.

(** ** The SQLite store *)

Section sqlite.
Context (directory name identity : string).
Abbreviation exec := (exec directory name identity).
Abbreviation run := (run directory name identity).

Definition store_covers (m : machine) (b : Z) : Prop :=
  LeaseRecovery.idle m ∧ record_agrees m ∧ witness_agrees m ∧ recorded b m ∧ witnessed b m.

(** Events that leave both records to the store. *)
Definition undisturbing (e : LeaseStore.event) : Prop := replaces_rows e = false ∧ replaces_witness e = false.

Lemma store_covers_exec answers e m b :
  undisturbing e → store_covers m b → store_covers (exec answers e m).2 b.
Proof.
  intros [Hr Hw] (H1 & H2 & H3 & H4 & H5).
  destruct (memory_kept directory name identity answers e m H1) as (H6 & H7 & H8).
  split_and!; [done|by apply H8|by apply H7|..]; apply (disk_kept _ _ _ True); auto; try (by intros ? ? ->).
  - intros v v'. apply recorded_protocol.
  - intros v v'. apply witnessed_protocol.
  - intros. by apply witnessed_stop.
Qed.

#[global, refine] Instance sqlite_persistence : LeasePersistence machine := {
  answers_max m d := ∃ answers m', exec answers Asks m = (Maximum d, m');
  raises_max m ttl err m' :=
    ∃ answers, exec answers (LeaseStore.Raises ttl) m
      = (match err with None => LeaseStore.Raised | Some e => Refused e end, m');
  background m m' := ∃ answers e, undisturbing e ∧ m' = (exec answers e m).2;
  restarts m m' := ∃ es, (rows_intact es ∨ witness_intact es) ∧ m' = run es m;
  ready m := ∃ database es, rows_intact es ∧ witness_intact es ∧ m = run es (unbound database);
  covers := store_covers
}.
Proof.
  - intros m d (database & es & Hr & Hw & ->) (answers & m' & Ha).
    destruct (record_run directory name identity es (unbound database) Hr) as [Hra _]; [done|].
    destruct (witness_run directory name identity es (unbound database) Hw) as [Hwa _]; [done|].
    apply maximum_answered in Ha as (st & Hst & Hp & ->).
    split_and!; [by apply run_idle|done|done| |].
    + eexists. split; [by apply Hra|done].
    + apply (witnessed_opened st); [by apply Hwa|done].
  - intros m m' b (answers & e & He & ->). by apply store_covers_exec.
  - intros m ttl err m' b (answers & Ha) Hc.
    replace m' with (exec answers (LeaseStore.Raises ttl) m).2 by (by rewrite Ha). by apply store_covers_exec.
  - intros m ttl m' b Hc (answers & Ha). destruct (raise_floor _ _ _ _ _ _ _ Ha) as [Hr Hw].
    apply (store_covers_exec answers (LeaseStore.Raises ttl)) in Hc as Hc'; [|done]. rewrite Ha in Hc'.
    destruct Hc as (_ & ? & ? & _), Hc' as (? & ? & ? & _). split_and!; auto.
  - intros m m' b d (H1 & H2 & H3 & H4 & H5) (es & He & ->) (answers & m2 & Ha).
    apply (run_floor directory name identity es m b answers d m2); [done| |done]. destruct He; auto.
Defined.
End sqlite.

(** ** Witness *)

Section played.
Context (directory name identity : string).
#[local] Existing Instance sqlite_persistence.
Abbreviation exec := (exec directory name identity).
#[local] Abbreviation vstep := (volume_step (H := sqlite_persistence directory name identity)).

Definition rebound (p : Z) (w : world) : world :=
  {| wo_authority := wo_authority w; wo_persisted := p; wo_calls := wo_calls w |}.

Definition on_store (w : world) (m : machine) : volume :=
  {| vl_authority := wo_authority w; vl_calls := wo_calls w; vl_store := m |}.

Definition is_raise (e : LockRuns.event) : bool := match e with LockRuns.Raises _ => true | _ => false end.

Lemma play_rebound e w w' p :
  is_raise e = false → play e w = Some w' → play e (rebound p w) = Some (rebound p w').
Proof.
  intros He. destruct e; try done; unfold play, mbind, option_bind; cbn [rebound wo_authority wo_calls wo_persisted];
    repeat case_match; try done; intros ?; simplify_eq; done.
Qed.

(** An event of the authority; a raise is also a call of the store. *)
Definition volume_play (e : LockRuns.event) (x : world * machine) : option (world * machine) :=
  match e with
  | LockRuns.Raises c =>
      match wo_calls x.1 !! c with
      | Some (ActionCall t _ _ Begun) =>
          match exec [] (LeaseStore.Raises (task_ttl t)) x.2 with
          | (LeaseStore.Raised, m) => (λ w, (w, m)) <$> play e x.1
          | _ => None
          end
      | _ => None
      end
  | _ => (λ w, (w, x.2)) <$> play e x.1
  end.

Definition volume_plays (es : list LockRuns.event) (x : world * machine) : option (world * machine) :=
  fold_left (λ x e, x ≫= volume_play e) es (Some x).

Lemma volume_play_step e w m w' m' :
  volume_play e (w, m) = Some (w', m') → vstep (on_store w m) (on_store w' m').
Proof.
  destruct (is_raise e) eqn:Er.
  - destruct e; try done. unfold volume_play. cbn [fst snd]. destruct (wo_calls w !! c) as [[t q r []|]|] eqn:Ec; try done.
    destruct (exec [] (LeaseStore.Raises (task_ttl t)) m) as [[] m1] eqn:Ex; try done. unfold play. rewrite Ec.
    destruct (raise None (task_ttl t) None (wo_authority w)) as [[x a']|] eqn:Ea; [|done].
    intros [= <- <-]. eapply (volume_raise _ _ _ _ _ _ _ _ None); [done| |done]. by exists [].
  - intros H. assert ((λ w, (w, m)) <$> play e w = Some (w', m')) as H' by (by destruct e).
    destruct (play e w) as [w1|] eqn:Ep; [|done]. injection H' as <- <-. apply volume_quiet; [|done].
    intros p. apply (play_step e), (play_rebound e); done.
Qed.

Lemma volume_plays_steps es w m w' m' :
  volume_plays es (w, m) = Some (w', m') → rtc vstep (on_store w m) (on_store w' m').
Proof.
  revert w m. induction es as [|e es IH]; intros w m; cbn; [by intros [= <- <-]|].
  destruct (volume_play e (w, m)) as [[w1 m1]|] eqn:E.
  - intros H. eapply rtc_l; [by eapply volume_play_step|by apply IH].
  - intros H. exfalso. clear -H. induction es; cbn in H; [done|auto].
Qed.
End played.

Abbreviation demo_directory := "/data"%string.
Abbreviation demo_name := ".volume.db.leases"%string.
Abbreviation demo_identity := "sqlite-database-lease-recovery"%string.

(** The authority of [LockRuns] on a freshly initialized store. *)
Definition demo_store : machine :=
  LeaseStore.run demo_directory demo_name demo_identity demo_opening (unbound demo_database).
Definition demo_volume : option (world * machine) :=
  demo_start ≫= λ w, volume_plays demo_directory demo_name demo_identity two_shared (w, demo_store).

(** A crash that loses what is not synced, and a reopening. *)
Definition demo_restart : list (list answer * LeaseStore.event) :=
  [([], Stops true true true); ([], Opens false [])].

Definition volume_view (x : world * machine) :=
  (au_nonces (wo_authority x.1), latest (wo_authority x.1), lease_view x.1 0,
   (LeaseStore.exec demo_directory demo_name demo_identity [] Asks
      (LeaseStore.run demo_directory demo_name demo_identity demo_restart x.2)).1).

Lemma demo_volume_view :
  volume_view <$> demo_volume
  = Some (7%nat, 32, Some (Shared, 0%nat, 0%nat, Active, 60000000021), Maximum 60000000000).
Proof. vm_compute. reflexivity. Qed.

Lemma demo_volume_reachable w m :
  demo_volume = Some (w, m) → (au_nonces (wo_authority w) <= 256)%nat →
  volume_reachable (H := sqlite_persistence demo_directory demo_name demo_identity) (on_store w m).
Proof.
  unfold demo_volume. destruct demo_start as [w0|] eqn:E0; [|done]. cbn [mbind option_bind].
  intros Hr%volume_plays_steps Hn. exists (on_store w0 demo_store).
  assert (Hg : au_env (wo_authority w) = au_env (wo_authority w0)).
  { apply (volume_steps_refine _ _ 0) in Hr as (p & Hs & _); [apply steps_grown in Hs as [Hs _]; exact Hs|].
    apply covers_answer; [by exists demo_database, demo_opening; split_and!; [repeat constructor..|]|].
    exists []. eexists. vm_compute. reflexivity. }
  split_and!; [|by apply (demo_env _ w0)|exact Hr|by apply (demo_drawn _ w0)].
  injection E0 as <-. eapply (volume_new DefaultOptions demo_store 0 (Some 0) demo_issuer demo_clock demo_nonce).
  - exists demo_database, demo_opening. split_and!; [repeat constructor..|done].
  - exists []. eexists. vm_compute. reflexivity.
  - reflexivity.
Qed.

Definition restarted (start : Z) : result Authority :=
  New DefaultOptions (Ok 60000000000) (Some start) demo_issuer (λ n, 60000000200 + Z.of_nat n) demo_nonce.

Lemma demo_restart_answers m v :
  (LeaseStore.exec demo_directory demo_name demo_identity [] Asks m).1 = Maximum v →
  answers_max (LeasePersistence := sqlite_persistence demo_directory demo_name demo_identity) m v.
Proof.
  intros E. exists []. destruct (LeaseStore.exec _ _ _ _ _ m) as [r m']. exists m'. cbn in E. by rewrite E.
Qed.

Lemma quadruple_eq {A B C D} (a a' : A) (b b' : B) (c c' : C) (d d' : D) :
  (a, b, c, d) = (a', b', c', d') → a = a' ∧ b = b' ∧ c = c' ∧ d = d'.
Proof. by intros [= -> -> -> ->]. Qed.

Lemma viewed_volume {V} (view : world * machine → V) (o : option (world * machine)) v :
  view <$> o = Some v → ∃ w m, o = Some (w, m) ∧ view (w, m) = v.
Proof. destruct o as [[w m]|]; [|done]. intros [= <-]. by exists w, m. Qed.

Lemma leases_outlive_restart_witness :
  ∃ x gr a b', demo_volume = Some x ∧ au_grantHeap (wo_authority x.1) !! 0%nat = Some gr
    ∧ restarted 100 = Ok a ∧ healthyLocked None true a = Some (None, b') ∧ gt_deadline gr <= latest b'.
Proof.
  destruct (viewed_volume _ _ _ demo_volume_view) as (w & m & E & Hv).
  apply quadruple_eq in Hv as (Hn & Hl & H1 & Hm). cbn [fst] in Hn, Hl.
  apply lease_viewed in H1 as (gr & G & _ & _ & _ & A & _).
  eexists (w, m), gr, _, _. split; [exact E|]. split; [exact G|]. split; [reflexivity|]. split; [reflexivity|].
  eapply (leases_outlive_restart (H := sqlite_persistence demo_directory demo_name demo_identity) (on_store w m) 0%nat gr
            (LeaseStore.run demo_directory demo_name demo_identity demo_restart m) 60000000000
            DefaultOptions 100 demo_issuer (λ n, 60000000200 + Z.of_nat n) demo_nonce);
    [apply demo_volume_reachable; [exact E|lia]|exact G|exact A| |exact (demo_restart_answers _ _ Hm)
    |reflexivity|cbn [vl_authority on_store]; lia|reflexivity|reflexivity].
  exists demo_restart. split; [left; repeat constructor|reflexivity].
Defined.
