(* ===== verification/Ranges.v ===== *)
(** * Ranges, uses and claims

    The neutral vocabulary of [packages/storage]: byte ranges and range commands
    (ranges.go), use claims (capabilities.go) and session limits (files.go).
    Go's small integer enumerations are [Z], because their checks compare
    values outside the named constants. *)

From S2P Require Import Prelude Errors Identity.

(** ** Uses *)

(** [Uses] is a bit set in a uint8. *)
Definition Uses := Z.
Definition ReadData : Uses := 1.
Definition WriteData : Uses := 2.
Definition ReadEntries : Uses := 4.
Definition DeleteName : Uses := 8.
Definition AllUses : Uses := 15.

Record UseClaim := { uc_Uses : Uses; uc_Deny : Uses }.

(** [(c.Uses|c.Deny)&^AllUses != 0] *)
Definition UseClaim_Check (c : UseClaim) : option error :=
  if negb (Z.ldiff (Z.lor (uc_Uses c) (uc_Deny c)) AllUses =? 0)
  then Some (Errno EINVAL) else None.

Definition OwnerReference : Z := 1.
Definition OwnerExplicit : Z := 2.

Record OwnerOptions := { oo_Lifetime : Z; oo_Group : Z; oo_Diagnostic : Z }.

Definition OwnerOptions_Check (o : OwnerOptions) : option error :=
  if negb (oo_Lifetime o =? OwnerReference) && negb (oo_Lifetime o =? OwnerExplicit)
  then Some (Errno EINVAL) else None.

(** ** Ranges and commands *)

Definition Bytes : Z := 1.
Definition Boundary : Z := 2.

Record Range := mkRange { Kind : Z; Start : Z; Length : Z; CutAt : Z }.

Definition DomainRecord : Z := 1.
Definition DomainWholeFile : Z := 2.
Definition DomainEnforced : Z := 3.

Definition RangeShared : Z := 1.
Definition RangeExclusive : Z := 2.

Definition Replace : Z := 1.
Definition Subtract : Z := 2.
Definition AddExact : Z := 3.
Definition RemoveExact : Z := 4.

Definition PreserveBeforeAcquire : Z := 0.
Definition DropBeforeAcquire : Z := 1.

Record RangePolicy := { DenySelf : Uses; DenyOthers : Uses }.

Record RangeCommand := mkCommand {
  rc_Domain : Z;
  rc_Mode : Z;
  rc_Range : Range;
  rc_Edit : Z;
  rc_Claim : ClaimID;
  rc_Wait : bool;
  rc_Conversion : Z;
  rc_Policy : RangePolicy }.

#[global] Instance UseClaim_eq_dec : EqDecision UseClaim.
Proof. solve_decision. Defined.
#[global] Instance Range_eq_dec : EqDecision Range.
Proof. solve_decision. Defined.
#[global] Instance RangePolicy_eq_dec : EqDecision RangePolicy.
Proof. solve_decision. Defined.
#[global] Instance RangeCommand_eq_dec : EqDecision RangeCommand.
Proof. unfold EqDecision. intros. unfold Decision. repeat decide equality. Defined.

(** [Range.Check]; [^uint64(0)-r.Start] is written without wrap-around since
    both are uint64. *)
Definition Range_Check (r : Range) : option error :=
  if Kind r =? Bytes then
    if (Length r =? 0) || negb (CutAt r =? 0) || (MaxUint64 - Start r <? Length r - 1)
    then Some (Errno EINVAL) else None
  else if Kind r =? Boundary then
    if negb (Start r =? 0) || negb (Length r =? 0) then Some (Errno EINVAL) else None
  else Some (Errno EINVAL).

Definition NoPolicy : RangePolicy := {| DenySelf := 0; DenyOthers := 0 |}.

(** [RangeCommand.Check], test by test in the order of the code. *)
Definition RangeCommand_Check (c : RangeCommand) : option error :=
  Range_Check (rc_Range c) ;?
  (if (Kind (rc_Range c) =? Boundary) && ((rc_Edit c =? Replace) || (rc_Edit c =? Subtract))
   then Some (Errno EINVAL) else None) ;?
  (if (rc_Domain c <? DomainRecord) || (DomainEnforced <? rc_Domain c)
      || (rc_Mode c <? RangeShared) || (RangeExclusive <? rc_Mode c)
      || (rc_Edit c <? Replace) || (RemoveExact <? rc_Edit c)
      || (DropBeforeAcquire <? rc_Conversion c)
   then Some (Errno EINVAL) else None) ;?
  (if rc_Edit c =? RemoveExact then
     (if rc_Wait c || negb (rc_Conversion c =? PreserveBeforeAcquire)
      then Some (Errno EINVAL) else None) ;?
     ClaimID_Check (rc_Claim c)
   else if bool_decide (rc_Claim c = EmptyString) then None else Some (Errno EINVAL)) ;?
  (if (rc_Edit c =? Subtract)
      && (rc_Wait c || negb (rc_Conversion c =? PreserveBeforeAcquire))
   then Some (Errno EINVAL) else None) ;?
  (if negb (Z.ldiff (Z.lor (DenySelf (rc_Policy c)) (DenyOthers (rc_Policy c)))
                    (Z.lor ReadData WriteData) =? 0)
   then Some (Errno EINVAL) else None) ;?
  (if rc_Domain c =? DomainEnforced then
     if negb (rc_Edit c =? AddExact) && negb (rc_Edit c =? RemoveExact)
     then Some (Errno EOPNOTSUPP)
     else if DenyOthers (rc_Policy c) =? 0 then Some (Wrapped (Errno EINVAL)) else None
   else
     if negb (bool_decide (rc_Policy c = NoPolicy)) || (rc_Edit c =? AddExact)
        || (rc_Edit c =? RemoveExact)
     then Some (Errno EOPNOTSUPP) else None) ;?
  (if (rc_Conversion c =? DropBeforeAcquire)
      && (negb (rc_Domain c =? DomainWholeFile) || negb (rc_Edit c =? Replace))
   then Some (Errno EINVAL) else None).

(** ** Attempts *)

Inductive AttemptState := Pending | Granted | Rejected | Cancelled | Released.

(** [RejectionCode]; [NoRejection] is the empty string. *)
Inductive RejectionCode :=
| NoRejection | RangeBlocked | RangeNotHeld | RangeExhausted | RangeDeadlock
| RangeInvalid | RangeUnsupported | RangeExpired | RangeTooLarge.

#[global] Instance AttemptState_eq_dec : EqDecision AttemptState.
Proof. solve_decision. Defined.
#[global] Instance RejectionCode_eq_dec : EqDecision RejectionCode.
Proof. solve_decision. Defined.

Record RangeEffect := {
  re_Claim : ClaimID; re_Command : RangeCommand; re_Released : bool }.

Record RangeConflict := {
  cf_Found : bool; cf_Owner : Z; cf_Range : Range; cf_Mode : Z }.

Definition NoConflict : RangeConflict :=
  {| cf_Found := false; cf_Owner := 0;
     cf_Range := {| Kind := 0; Start := 0; Length := 0; CutAt := 0 |}; cf_Mode := 0 |}.

Record RangeAttempt := mkAttempt {
  ra_Request : LockRequestID;
  ra_State : AttemptState;
  ra_Commands : list RangeCommand;
  ra_Claims : list ClaimID;
  ra_Conflict : RangeConflict;
  ra_Rejection : RejectionCode;
  ra_FailedAt : option nat;
  ra_Effects : list RangeEffect;
  ra_EverGranted : bool;
  ra_HistoryRemaining : Z }.

(** ** Session limits *)

Record FileSessionOptions := {
  fso_Lease : Z; fso_History : Z; fso_MaxFileSize : Z; fso_MaxFiles : Z;
  fso_MaxOperations : Z; fso_MaxWaiters : Z; fso_MaxLockOwners : Z; fso_MaxLockRanges : Z;
  fso_MaxPendingLocks : Z; fso_MaxLockActions : Z; fso_MaxCloseActions : Z }.

Definition second : Z := 1000000000.

Definition DefaultFileSessionOptions : FileSessionOptions :=
  {| fso_Lease := 30 * second; fso_History := 60 * second;
     fso_MaxFileSize := 2 ^ 30; fso_MaxFiles := 4096; fso_MaxOperations := 64;
     fso_MaxWaiters := 256; fso_MaxLockOwners := 4096; fso_MaxLockRanges := 65536;
     fso_MaxPendingLocks := 1024; fso_MaxLockActions := 16384;
     fso_MaxCloseActions := 16384 |}.

(** [FileSessionOptions.Check]; Go's [/] truncates. *)
Definition FileSessionOptions_Check (o : FileSessionOptions) : option error :=
  if (fso_Lease o <=? 0) || (fso_History o <=? 0) then Some (Wrapped (Errno EINVAL))
  else if (fso_MaxFileSize o <=? 0) || (fso_MaxFiles o <=? 0) || (fso_MaxOperations o <=? 0)
       || (fso_MaxWaiters o <? 0) || (fso_MaxLockOwners o <=? 0)
       || (fso_MaxLockRanges o <=? 0) || (fso_MaxPendingLocks o <=? 0)
       || (fso_MaxLockActions o <=? 0) || (fso_MaxCloseActions o <=? 0)
       || (Z.quot (fso_MaxCloseActions o - 1) 2 <? fso_MaxFiles o)
  then Some (Wrapped (Errno EINVAL))
  else None.
