(* ===== verification/SmbConnection.v ===== *)
(** * The request window of an SMB connection

    packages/smb/connection.go: the reader of [run] with its checks of a
    received frame, the credits a request spends ([requiredCredits]) and is
    given back ([grantCredits]), the pending requests, and the ends of [process]
    and [rejectRequests]; config.go: the limits.

    The reader takes [c.mu] once per request of a frame, and every frame but a
    refused or a negotiating one is processed by a goroutine of its own, so the
    connection is a transition system: an [event] names who takes the next
    critical section, and [conn_step] is that section.  Of a pending request the
    model keeps the fields that the window depends on; what [dispatch] does
    between two sections does not touch them, [c.negotiated] apart. *)

From S2P Require Import Prelude Bytes WireHeader WireRequests Errors Identity Ranges.

(** ** config.go *)

Record ServerLimits := {
  MaxExports : Z; MaxConnections : Z; MaxSessions : Z; MaxTrees : Z;
  MaxRequests : Z; MaxCompound : Z; sl_MaxContexts : Z;
  MaxHandles : Z; MaxUnresolvedOwners : Z; MaxDiagnosticBytes : Z;
  MaxWriteOwners : Z; MaxRetainedWriteBytes : Z; MaxHandleIORequests : Z;
  MaxDirectoryBytes : Z; MaxRetainedDirectoryBytes : Z; MaxDirectoryMatchWork : Z;
  MaxFrameBytes : Z; MaxIOBytes : Z; MaxTokenBytes : Z;
  HandshakeTimeout : Z; RequestTimeout : Z; CleanupTimeout : Z;
  FileSession : FileSessionOptions }.

Definition DefaultLimits : ServerLimits :=
  {| MaxExports := 32; MaxConnections := 16; MaxSessions := 16; MaxTrees := 32;
     MaxRequests := 128; MaxCompound := 32; sl_MaxContexts := 16;
     MaxHandles := 256; MaxUnresolvedOwners := 256; MaxDiagnosticBytes := 65536;
     MaxWriteOwners := 128; MaxRetainedWriteBytes := 33554432; MaxHandleIORequests := 32;
     MaxDirectoryBytes := 8388608; MaxRetainedDirectoryBytes := 67108864;
     MaxDirectoryMatchWork := 16777216;
     MaxFrameBytes := 2097152; MaxIOBytes := 1048576; MaxTokenBytes := 65535;
     HandshakeTimeout := 30 * second; RequestTimeout := 60 * second;
     CleanupTimeout := 30 * second; FileSession := DefaultFileSessionOptions |}.

Definition diagnosticOwnerBytes : Z := 256.

(** [Limits.check]: true when the limits are accepted. *)
Definition Limits_check (l : ServerLimits) : bool :=
  if (MaxExports l <? 1) || (MaxConnections l <? 1) || (MaxSessions l <? 1) || (MaxTrees l <? 1)
     || (MaxRequests l <? 1) || (65535 <? MaxRequests l) || (MaxCompound l <? 1)
     || (128 <? MaxCompound l) || (MaxRequests l <? MaxCompound l)
     || (MaxDirectoryBytes l <? 1) || (MaxRetainedDirectoryBytes l <? 1)
     || (MaxDirectoryMatchWork l <? 1) || (MaxHandles l <? 1) || (MaxUnresolvedOwners l <? 1)
     || (MaxDiagnosticBytes l <? diagnosticOwnerBytes)
     || (MaxWriteOwners l <? 1) || (MaxRetainedWriteBytes l <? 1) || (MaxHandleIORequests l <? 1)
     || (MaxRequests l <? MaxHandleIORequests l)
     || (sl_MaxContexts l <? 1) || (MaxIOBytes l <? 65536) || (8388608 <? MaxIOBytes l)
     || (MaxFrameBytes l <? MaxIOBytes l + 65536) || (16777215 <? MaxFrameBytes l)
     || (MaxTokenBytes l <? 1) || (65535 <? MaxTokenBytes l)
     || (HandshakeTimeout l <=? 0) || (RequestTimeout l <=? 0) || (CleanupTimeout l <=? 0)
  then false
  else match FileSessionOptions_Check (FileSession l) with None => true | Some _ => false end.

(** ** Checks of a received frame *)

Definition requestEnvelopeBytes : Z := 256.
Definition maxControlFrameBytes : Z := 69632.

Definition FlagDFS : Z := 268435456.
Definition FlagReplay : Z := 536870912.

Definition controlCommand (command : Z) : bool :=
  bool_decide (command ∈ [Negotiate; SessionSetup; Logoff; TreeConnect; TreeDisconnect; Cancel; Echo]).

(** True when the requests are accepted. *)
Definition checkReceivedRequests (requests : list Request) (frameBytes : Z) (negotiated : bool)
    (limits : ServerLimits) : bool :=
  negb (negotiated && (MaxIOBytes limits + requestEnvelopeBytes <? frameBytes))
  && forallb (λ request,
       negb (controlCommand (Command (rq_Header request))
             && ((maxControlFrameBytes <? zlen (Packet request))
                 || (1 <? CreditCharge (rq_Header request))))) requests.

(** The units of 64 KiB, at least one. *)
Definition credit_units (n : Z) : Z := Z.max 1 ((n + 65535) / 65536).

(** A payload of the request, or its packet when it does not parse. *)
Definition units_or_packet {A} (request : Request) (payload : A → Z) (parsed : W A) : option Z :=
  let% r := parsed in
  Some (match r with
        | Parsed a => credit_units (payload a)
        | ErrMalformed => credit_units (zlen (Packet request))
        end).

(** [None] when a parser panics. *)
Definition requiredCredits (request : Request) : option Z :=
  let command := Command (rq_Header request) in
  if controlCommand command then Some 1
  else if command =? Read then units_or_packet request rr_Length (Request_Read request)
  else if command =? QueryInfo
  then units_or_packet request (λ p, Z.max (qi_InputBufferLength p) (qi_OutputBufferLength p))
         (Request_QueryInfo request)
  else if command =? QueryDirectory
  then units_or_packet request qd_OutputBufferLength (Request_QueryDirectory request)
  else if command =? Write then units_or_packet request wr_Length (Request_Write request)
  else Some (credit_units (zlen (Packet request))).

Definition is_negotiate (request : Request) : bool := Command (rq_Header request) =? Negotiate.
Definition is_setup (request : Request) : bool := Command (rq_Header request) =? SessionSetup.

(** The refusals of [run] before it looks at a request's credits. *)
Definition frame_refused (negotiated bootstrap : bool) (requests : list Request) : bool :=
  existsb (λ request, is_negotiate request
             && (negotiated
                 || has_flag (Flags (rq_Header request)) (FlagAsync + FlagReplay + FlagDFS))) requests
  || (1 <? zlen requests) && existsb (λ request, is_negotiate request || is_setup request) requests
  || bootstrap && negb ((zlen requests =? 1) && forallb is_negotiate requests).

(** ** The connection *)

Record pendingRequest := mkPending { pr_frame : Z; pr_command : Z; pr_charge : Z }.

(** Who answers a frame: a goroutine, or the reader itself. *)
Inductive answerer := Goroutine | Negotiation | Rejection.

#[export] Instance answerer_eq_dec : EqDecision answerer.
Proof. solve_decision. Defined.

(** A call of [process] or [rejectRequests]: the requests it was called with,
    those it has not given credits yet, and whether [writeFinal] has retired
    them. *)
Record work := mkWork {
  wk_by : answerer; wk_requests : list Request; wk_rest : list Request; wk_retired : bool }.

Inductive stop := Malformed | Exhausted | Failed.

Inductive reader :=
| Reading
| Admitting (reject : bool) (taken rest : list Request)
| Waiting                       (** in a call of process or rejectRequests of its own *)
| Returned (err : stop) (left_ : list Request)
| Panicked.

(** [cn_spent] and [cn_announced] are ghosts: the identifiers and charges of the
    requests let in, and the credits the responses have announced.  So is the
    argument [left_] of [Returned]: the requests the reader had entered in
    [pending] for the frame it refused. *)
Record connection := mkConnection {
  credits : gset Z; nextCredit : Z; pending : gmap Z pendingRequest; negotiated : bool;
  firstPacket : bool; bootstrapped : bool; cn_reader : reader; cn_work : list work;
  cn_closed : bool; cn_spent : list (Z * Z); cn_announced : Z }.

Definition newConnection : connection :=
  mkConnection {[0]} 1 ∅ false true false Reading [] false [] 0.

Definition set_reader (r : reader) (c : connection) : connection :=
  mkConnection (credits c) (nextCredit c) (pending c) (negotiated c) (firstPacket c)
    (bootstrapped c) r (cn_work c) (cn_closed c) (cn_spent c) (cn_announced c).
Definition set_work (w : list work) (c : connection) : connection :=
  mkConnection (credits c) (nextCredit c) (pending c) (negotiated c) (firstPacket c)
    (bootstrapped c) (cn_reader c) w (cn_closed c) (cn_spent c) (cn_announced c).
Definition set_pending (m : gmap Z pendingRequest) (c : connection) : connection :=
  mkConnection (credits c) (nextCredit c) m (negotiated c) (firstPacket c)
    (bootstrapped c) (cn_reader c) (cn_work c) (cn_closed c) (cn_spent c) (cn_announced c).
Definition set_flags (n f b cl : bool) (c : connection) : connection :=
  mkConnection (credits c) (nextCredit c) (pending c) n f b (cn_reader c) (cn_work c) cl
    (cn_spent c) (cn_announced c).

(** [bootstrap] answers an SMB1 negotiation, which spends the first identifier,
    with one credit. *)
Definition bootstrap (c : connection) : connection :=
  mkConnection {[1]} 2 (pending c) (negotiated c) (firstPacket c) true (cn_reader c) (cn_work c)
    (cn_closed c) ((0, 1) :: cn_spent c) (cn_announced c + 1).

(** One turn of the loop of [run] up to the credits of the first request;
    [prefix] holds the four bytes before the frame. *)
Definition frame_length (prefix : list Z) : Z := le_combine (reverse prefix).

Definition receive (limits : ServerLimits) (prefix packet : list Z) (c : connection) : connection :=
  let length := frame_length prefix in
  let stops := λ c, set_reader (Returned Malformed []) c in
  if negb (bool_decide (prefix !! 0%nat = Some 0)) || (length <? 35) || (MaxFrameBytes limits <? length)
  then stops c
  else
    let initial := firstPacket c in
    let c := set_flags (negotiated c) false (bootstrapped c) (cn_closed c) c in
    if bool_decide (take 4 packet = protocol1) then
      if initial then
        match ParseMultiProtocolNegotiate packet with
        | Some (Parsed _) => bootstrap c
        | Some ErrMalformed => stops c
        | None => set_reader Panicked c
        end
      else stops c
    else
      match ParseFrame packet {| MaxBytes := MaxFrameBytes limits; MaxCommands := MaxCompound limits;
                                 MaxContexts := sl_MaxContexts limits |} with
      | None => set_reader Panicked c
      | Some ErrMalformed => stops c
      | Some (Parsed requests) =>
          if negb (checkReceivedRequests requests (zlen packet) (negotiated c) limits)
             || frame_refused (negotiated c) (bootstrapped c) requests
          then stops c
          else
            let reject := MaxRequests limits <? Z.of_nat (size (pending c)) + zlen requests in
            set_reader (Admitting reject [] requests)
              (set_flags (negotiated c) (firstPacket c) false (cn_closed c) c)
      end.

(** The identifiers a request spends. *)
Definition charge_of (request : Request) : Z :=
  if CreditCharge (rq_Header request) =? 0 then 1 else CreditCharge (rq_Header request).
Definition id_range (first charge : Z) : list Z := seqZ first charge.
Definition message_id (request : Request) : Z := MessageID (rq_Header request).

(** The section of [run] that lets one request in. *)
Definition admit_message (reject : bool) (taken : list Request) (request : Request)
    (rest : list Request) (c : connection) : connection :=
  let charge := charge_of request in
  let first := message_id request in
  let entered := if reject then [] else taken in
  if Command (rq_Header request) =? Cancel then set_reader (Returned Malformed entered) c
  else if MaxUint64 - charge <? first then set_reader (Returned Exhausted entered) c
  else
    match requiredCredits request with
    | None => set_reader Panicked c
    | Some required =>
        if (charge <? required) || negb (forallb (λ id, bool_decide (id ∈ credits c)) (id_range first charge))
        then set_reader (Returned Malformed entered) c
        else
          let frame := default first (message_id <$> head (taken ++ [request])) in
          mkConnection (credits c ∖ list_to_set (id_range first charge)) (nextCredit c)
            (if reject then pending c
             else <[first := mkPending frame (Command (rq_Header request)) charge]> (pending c))
            (negotiated c) (firstPacket c) (bootstrapped c)
            (Admitting reject (taken ++ [request]) rest) (cn_work c) (cn_closed c)
            ((first, charge) :: cn_spent c) (cn_announced c)
    end.

(** Who answers a frame whose requests have all been let in. *)
Definition answer_frame (reject : bool) (requests : list Request) (c : connection) : connection :=
  let start := λ by_ c, set_work (mkWork by_ requests requests false :: cn_work c) c in
  if reject then start Rejection (set_reader Waiting c)
  else
    match requests with
    | [] => set_reader Panicked c
    | request :: rest =>
        if is_negotiate request
        then match rest with
             | [] => start Negotiation (set_reader Waiting c)
             | _ => set_reader (Returned Malformed requests) c
             end
        else start Goroutine (set_reader Reading c)
    end.

(** The loop of [grantCredits]: the credits added, and how many. *)
Fixpoint grant_loop (count : nat) (granted : Z) (next : Z) (window : gset Z) : Z * Z * gset Z :=
  match count with
  | O => (granted, next, window)
  | S count =>
      if next =? MaxUint64 then (granted, next, window)
      else grant_loop count (granted + 1) (next + 1) ({[next]} ∪ window)
  end.

(** [grantCredits]: the credits of the response's header, and the connection. *)
Definition grantCredits (limits : ServerLimits) (requested : Z) (c : connection) : Z * connection :=
  let count := if requested <? 1 then 1 else requested in
  let capacity := MaxRequests limits - Z.of_nat (size (credits c)) in
  let count := if capacity <? count then capacity else count in
  let '(granted, next, window) := grant_loop (Z.to_nat count) 0 (nextCredit c) (credits c) in
  (granted mod 65536,
   mkConnection window next (pending c) (negotiated c) (firstPacket c) (bootstrapped c)
     (cn_reader c) (cn_work c) (cn_closed c) (cn_spent c) (cn_announced c + granted mod 65536)).

(** [retireRequests]. *)
Definition retireRequests (requests : list Request) (c : connection) : connection :=
  set_pending (foldr (λ request m, delete (message_id request) m) (pending c) requests) c.

(** What the end of a call of the reader's own means for the reader. *)
Definition resume (by_ : answerer) (r : reader) (c : connection) : connection :=
  match by_ with Goroutine => c | _ => set_reader r c end.

(** The call returns an error: [process] retires its requests, and the
    connection is closed. *)
Definition end_failed (i : nat) (w : work) (c : connection) : connection :=
  let c := if decide (wk_by w = Rejection) then c else retireRequests (wk_requests w) c in
  resume (wk_by w) (Returned Failed [])
    (set_work (delete i (cn_work c))
       (set_flags (negotiated c) (firstPacket c) (bootstrapped c) true c)).

(** The next request of the call gets its credits. *)
Definition answer_next (limits : ServerLimits) (i : nat) (w : work) (c : connection)
    : option connection :=
  match wk_rest w with
  | [] => None
  | request :: rest =>
      let found := match wk_by w with
                   | Rejection => true
                   | _ => bool_decide (is_Some (pending c !! message_id request))
                   end in
      if found then
        let c := snd (grantCredits limits (Credits (rq_Header request)) c) in
        Some (set_work (<[i := mkWork (wk_by w) (wk_requests w) rest (wk_retired w)]> (cn_work c)) c)
      else Some (end_failed i w c)
  end.

(** [writeFinal] retires the requests before it writes; [ok] says that the
    negotiation was accepted. *)
Definition write_final (ok : bool) (i : nat) (w : work) (c : connection) : option connection :=
  if bool_decide (wk_rest w = []) && bool_decide (wk_by w ≠ Rejection) && negb (wk_retired w) then
    let c := retireRequests (wk_requests w) c in
    let n := negotiated c || (ok && bool_decide (wk_by w = Negotiation)) in
    let c := set_flags n (firstPacket c) (bootstrapped c) (cn_closed c) c in
    Some (set_work (<[i := mkWork (wk_by w) (wk_requests w) [] true]> (cn_work c)) c)
  else None.

(** The call returns: [process] retires its requests once more. *)
Definition end_call (i : nat) (w : work) (c : connection) : option connection :=
  match wk_by w with
  | Rejection =>
      if bool_decide (wk_rest w = [])
      then Some (set_reader Reading (set_work (delete i (cn_work c)) c)) else None
  | _ =>
      if wk_retired w
      then let c := retireRequests (wk_requests w) c in
           Some (resume (wk_by w) Reading (set_work (delete i (cn_work c)) c))
      else None
  end.

(** ** The transition system *)

Inductive conn_event :=
| EvFrame (prefix packet : list Z)
| EvReadFails
| EvAdmit
| EvAnswer (i : nat)
| EvWrite (ok : bool) (i : nat)
| EvEnd (i : nat)
| EvFails (i : nat).

(** [None] when the event is not possible. *)
Definition conn_step (limits : ServerLimits) (e : conn_event) (c : connection) : option connection :=
  match e with
  | EvFrame prefix packet =>
      match cn_reader c with
      | Reading => if (zlen prefix =? 4) && (zlen packet =? frame_length prefix)
                   then Some (receive limits prefix packet c) else None
      | _ => None
      end
  | EvReadFails =>
      match cn_reader c with Reading => Some (set_reader (Returned Failed []) c) | _ => None end
  | EvAdmit =>
      match cn_reader c with
      | Admitting reject taken [] => Some (answer_frame reject taken c)
      | Admitting reject taken (request :: rest) => Some (admit_message reject taken request rest c)
      | _ => None
      end
  | EvAnswer i => let% w := cn_work c !! i in answer_next limits i w c
  | EvWrite ok i => let% w := cn_work c !! i in write_final ok i w c
  | EvEnd i => let% w := cn_work c !! i in end_call i w c
  | EvFails i => let% w := cn_work c !! i in Some (end_failed i w c)
  end.

Fixpoint conn_run (limits : ServerLimits) (events : list conn_event) (c : connection)
    : option connection :=
  match events with
  | [] => Some c
  | e :: events => let% c := conn_step limits e c in conn_run limits events c
  end.
