(* ===== verification/SmbWindow.v ===== *)
(** * The request window: what holds of every run of a connection

    The invariants of [SmbConnection] and the theorems about message
    identifiers, credits and pending requests. *)

From S2P Require Import Prelude Bytes WireHeader WireRequests Errors Identity Ranges SmbConnection.

(** ** Credits *)

Definition spent_ids (spent : list (Z * Z)) : list Z := spent ≫= λ p, id_range p.1 p.2.

(** The window over the fields that make it up. *)
Record window_ok (limits : ServerLimits) (window : gset Z) (next : Z) (spent : list (Z * Z))
    (announced : Z) : Prop := {
  wo_next : 1 <= next <= MaxUint64;
  wo_credits : ∀ x, x ∈ window → 0 <= x < next;
  wo_spent : ∀ x, x ∈ spent_ids spent → 0 <= x < next ∧ x ∉ window;
  wo_once : NoDup (spent_ids spent);
  wo_size : Z.of_nat (size window) <= MaxRequests limits;
  wo_sum : announced + 1 = Z.of_nat (size window) + zlen (spent_ids spent) }.

Definition window_of (limits : ServerLimits) (c : connection) : Prop :=
  window_ok limits (credits c) (nextCredit c) (cn_spent c) (cn_announced c).

Lemma Limits_check_requests limits :
  Limits_check limits = true → 1 <= MaxRequests limits <= 65535 ∧ MaxCompound limits <= MaxRequests limits.
Proof. unfold Limits_check. destruct (_ || _) eqn:E; [done|]. bool_prop. lia. Qed.

Lemma grant_loop_spec limits count : ∀ granted next window g n w spent announced,
  grant_loop count granted next window = (g, n, w) →
  window_ok limits window next spent announced →
  Z.of_nat (size window) + Z.of_nat count <= MaxRequests limits →
  0 <= g - granted <= Z.of_nat count ∧ window ⊆ w
  ∧ (window ≠ ∅ ∨ count = 0%nat ∨ n = MaxUint64 ∨ w ≠ ∅)
  ∧ window_ok limits w n spent (announced + (g - granted)).
Proof.
  induction count as [|count IH]; intros granted next window g n w spent announced; cbn.
  { intros [= <- <- <-] H _. rewrite Z.sub_diag, Z.add_0_r. by auto with lia. }
  destruct (next =? MaxUint64) eqn:E.
  { intros [= <- <- <-] H _. apply Z.eqb_eq in E. rewrite Z.sub_diag, Z.add_0_r. by auto with lia. }
  apply Z.eqb_neq in E. intros Hl [Hn Hc Hs Ho Hz Hsum] Hcap.
  assert (Hnew : next ∉ window) by (intros ?%Hc; lia).
  assert (Hsize : size ({[next]} ∪ window) = S (size window)).
  { rewrite size_union by set_solver. by rewrite size_singleton. }
  destruct (IH _ _ _ _ _ _ spent (announced + 1) Hl) as (Hg & Hsub & _ & Hok).
  { constructor; try done.
    - lia.
    - intros x [->%elem_of_singleton| ?%Hc]%elem_of_union; lia.
    - intros x Hx. apply Hs in Hx as [? ?]. split; [lia|]. set_unfold. intros [->|?]; [lia|done].
    - rewrite Hsize. lia.
    - rewrite Hsize. lia. }
  { rewrite Hsize. lia. }
  split_and!; [lia|lia|set_solver|right; right; right; set_solver|].
  by replace (announced + (g - granted)) with (announced + 1 + (g - (granted + 1))) by lia.
Qed.

(** What [grantCredits] does: nothing but the window changes, every credit it
    announces is in the window, and none is left empty while identifiers
    remain. *)
Lemma grantCredits_spec limits requested c :
  Limits_check limits = true → window_of limits c →
  let '(g, c') := grantCredits limits requested c in
  c' = mkConnection (credits c') (nextCredit c') (pending c) (negotiated c) (firstPacket c)
         (bootstrapped c) (cn_reader c) (cn_work c) (cn_closed c) (cn_spent c) (cn_announced c + g)
  ∧ window_of limits c' ∧ (credits c' ≠ ∅ ∨ nextCredit c' = MaxUint64).
Proof.
  intros Hl%Limits_check_requests Hw. unfold grantCredits.
  set (count := if _ <? 1 then _ else _).
  assert (1 <= count) by (subst count; destruct (Z.ltb_spec requested 1); lia).
  set (capacity := _ - _).
  pose proof (wo_size _ _ _ _ _ Hw). assert (0 <= capacity) by (subst capacity; lia).
  set (n := if capacity <? count then _ else _).
  assert (Hn : n = capacity ∨ 1 <= n <= capacity).
  { subst n. destruct (Z.ltb_spec capacity count); [by left|right; lia]. }
  destruct (grant_loop _ _ _ _) as [[g next] window] eqn:E.
  destruct (grant_loop_spec limits _ _ _ _ _ _ _ _ _ E Hw) as (Hg & Hsub & Hne & Hok).
  { subst capacity. lia. }
  rewrite Z.sub_0_r in Hg, Hok. rewrite Z.mod_small by lia.
  split_and!; [done|exact Hok|]. simpl. destruct Hne as [Hne|[Hz|[Hx|Hx]]]; [|clear Hg|tauto..].
  - left. intros ->. apply Hne. set_solver.
  - left. intros Hempty. assert (credits c = ∅) as Hc by set_solver.
    assert (size (credits c) = 0%nat) by (rewrite Hc; apply size_empty). lia.
Qed.

Lemma units_or_packet_pos {A} request (payload : A → Z) parsed n :
  units_or_packet request payload parsed = Some n → 1 <= n.
Proof.
  unfold units_or_packet, credit_units. destruct parsed as [[a|]|]; [..|done]; intros [= <-]; lia.
Qed.

Lemma requiredCredits_pos request n : requiredCredits request = Some n → 1 <= n.
Proof.
  unfold requiredCredits. repeat split_match; intros Hn; simplify_eq;
    first [lia | by eapply units_or_packet_pos | unfold credit_units; lia].
Qed.

(** A request that is let in was covered by the window, and leaves it smaller by
    its charge. *)
Lemma admit_window limits window next spent announced first charge :
  window_ok limits window next spent announced → 1 <= charge →
  (∀ id, id ∈ id_range first charge → id ∈ window) →
  window_ok limits (window ∖ list_to_set (id_range first charge)) next ((first, charge) :: spent)
    announced.
Proof.
  intros [Hn Hc Hs Ho Hz Hsum] Hch Hin. set (taken := list_to_set (id_range first charge) : gset Z).
  assert (Hsub : taken ⊆ window) by (intros x Hx; apply Hin; set_solver).
  assert (Hsize : size taken = Z.to_nat charge).
  { unfold taken. rewrite size_list_to_set by apply NoDup_seqZ. apply length_seqZ. }
  pose proof (subseteq_size _ _ Hsub). pose proof (size_difference window taken Hsub) as Hd.
  assert (Hspent : spent_ids ((first, charge) :: spent) = id_range first charge ++ spent_ids spent)
    by done.
  constructor; rewrite ?Hspent; [done|..].
  - intros x Hx. apply Hc. set_solver.
  - intros x [Hx|Hx]%elem_of_app.
    + split; [by apply Hc, Hin|set_solver].
    + apply Hs in Hx. set_solver.
  - apply NoDup_app. split_and!; [apply NoDup_seqZ| |done].
    intros x Hx Hx'. apply Hs in Hx'. by apply Hx', Hin.
  - lia.
  - rewrite zlen_app. unfold zlen at 1, id_range. rewrite length_seqZ. lia.
Qed.

(** Before the first frame the window is the first identifier. *)
Record fresh_ok (c : connection) : Prop := {
  fo_credits : credits c = {[0]};
  fo_next : nextCredit c = 1;
  fo_spent : cn_spent c = [];
  fo_announced : cn_announced c = 0;
  fo_work : cn_work c = [];
  fo_reader : ∀ reject taken rest, cn_reader c ≠ Admitting reject taken rest }.

Definition Winv (limits : ServerLimits) (c : connection) : Prop :=
  window_of limits c ∧ (firstPacket c = true → fresh_ok c).

Lemma window_bootstrap limits : Limits_check limits = true → window_ok limits {[1]} 2 [(0, 1)] 1.
Proof.
  intros Hl%Limits_check_requests. change (spent_ids [(0, 1)]) with [0].
  constructor; change (spent_ids [(0, 1)]) with [0]; rewrite ?size_singleton; [lia|..].
  - set_solver by lia.
  - set_solver by lia.
  - apply NoDup_singleton.
  - lia.
  - done.
Qed.

Lemma window_new limits : Limits_check limits = true → window_ok limits {[0]} 1 [] 0.
Proof.
  intros Hl%Limits_check_requests. constructor; rewrite ?size_singleton; [lia|..].
  - set_solver by lia.
  - set_solver.
  - constructor.
  - lia.
  - done.
Qed.

Lemma Winv_receive limits prefix packet c :
  Limits_check limits = true → cn_reader c = Reading → Winv limits c →
  Winv limits (receive limits prefix packet c).
Proof.
  intros Hl Hr [Hw Hf]. unfold receive. destruct (_ || _).
  { split; [exact Hw|]. intros Hp. destruct (Hf Hp). by constructor. }
  destruct (bool_decide (take 4 packet = protocol1)).
  - destruct (firstPacket c) eqn:Ef; [|by split].
    destruct (ParseMultiProtocolNegotiate packet) as [[|]|]; [|by split..].
    split; [|done]. destruct (Hf eq_refl) as [_ _ Hs Ha _ _]. unfold window_of, bootstrap. simpl.
    rewrite Hs, Ha. by apply window_bootstrap.
  - destruct (ParseFrame _ _) as [[|]|]; [|by split..]. destruct (_ || _); by split.
Qed.

Lemma Winv_admit limits reject taken request rest c :
  cn_reader c = Admitting reject taken (request :: rest) → Winv limits c →
  Winv limits (admit_message reject taken request rest c).
Proof.
  intros Hr [Hw Hf]. assert (Hfirst : firstPacket c = false).
  { destruct (firstPacket c); [|done]. by destruct (fo_reader _ (Hf eq_refl) reject taken (request :: rest)). }
  assert (Hstop : ∀ r, Winv limits (set_reader r c)).
  { intros r. split; [exact Hw|]. simpl. congruence. }
  unfold admit_message. destruct (_ =? Cancel); [done|]. destruct (_ <? _); [done|].
  destruct (requiredCredits request) as [n|] eqn:En; [|done]. apply requiredCredits_pos in En.
  destruct (_ || _) eqn:E; [done|]. apply orb_false_iff in E as [E1%Z.ltb_ge E2%negb_false_iff].
  split; [|simpl; congruence]. apply admit_window; [done|lia|].
  intros id Hid. rewrite forallb_forall in E2. by eapply bool_decide_eq_true, E2, list_elem_of_In.
Qed.

(** Steps that leave the window alone. *)
Lemma Winv_same limits c c' :
  credits c' = credits c → nextCredit c' = nextCredit c → cn_spent c' = cn_spent c →
  cn_announced c' = cn_announced c → (firstPacket c' = true → firstPacket c = true ∧ cn_work c ≠ []) →
  Winv limits c → Winv limits c'.
Proof.
  intros H1 H2 H3 H4 H5 [Hw Hf]. split; [unfold window_of; by rewrite H1, H2, H3, H4|].
  intros [Hp Hne]%H5. by destruct Hne, (Hf Hp).
Qed.

Lemma Winv_step limits e c c' :
  Limits_check limits = true → conn_step limits e c = Some c' → Winv limits c → Winv limits c'.
Proof.
  intros Hl Hs Hw.
  assert (Hbusy : ∀ i w, cn_work c !! i = Some w → firstPacket c = true → firstPacket c = true ∧ cn_work c ≠ []).
  { intros i w Hi Hp. split; [done|]. intros E. by rewrite E in Hi. }
  destruct e as [prefix packet| | |i|ok i|i|i]; cbn in Hs.
  - destruct (cn_reader c) eqn:Er; try done. destruct (_ && _); [|done]. injection Hs as <-.
    by apply Winv_receive.
  - destruct (cn_reader c) eqn:Er; try done. injection Hs as <-. destruct Hw as [Hw Hf].
    split; [exact Hw|]. intros Hp. destruct (Hf Hp). by constructor.
  - destruct (cn_reader c) as [|reject taken [|request rest]| | |] eqn:Er; try done;
      injection Hs as <-; [|by apply Winv_admit].
    destruct Hw as [Hw Hf]. assert (Hfirst : firstPacket c = false).
    { destruct (firstPacket c); [|done]. by destruct (fo_reader _ (Hf eq_refl) reject taken []). }
    unfold answer_frame. repeat split_match; (split; [exact Hw|simpl; congruence]).
  - destruct (cn_work c !! i) as [w|] eqn:Hi; [|done]. cbn in Hs. specialize (Hbusy i w Hi).
    unfold answer_next in Hs. destruct (wk_rest w) as [|request rest]; [done|].
    destruct (match wk_by w with Rejection => true | _ => _ end).
    + injection Hs as <-. destruct (grantCredits _ _ _) as [g c1] eqn:Eg.
      destruct Hw as [Hw Hf]. pose proof (grantCredits_spec limits (WireHeader.Credits (rq_Header request)) c Hl Hw) as Hg.
      rewrite Eg in Hg. destruct Hg as (Hc1 & Hw1 & _). split; [exact Hw1|].
      simpl. rewrite Hc1. simpl. intros [Hp Hne]%Hbusy. by destruct Hne, (Hf Hp).
    + injection Hs as <-. unfold end_failed, resume.
      apply (Winv_same limits c); try done; by destruct (decide _), (wk_by w).
  - destruct (cn_work c !! i) as [w|] eqn:Hi; [|done]. cbn in Hs. specialize (Hbusy i w Hi).
    unfold write_final in Hs. destruct (_ && _); [|done]. injection Hs as <-.
    by apply (Winv_same limits c).
  - destruct (cn_work c !! i) as [w|] eqn:Hi; [|done]. cbn in Hs. specialize (Hbusy i w Hi).
    unfold end_call in Hs. repeat split_match; simplify_eq; by apply (Winv_same limits c).
  - destruct (cn_work c !! i) as [w|] eqn:Hi; [|done]. cbn in Hs. specialize (Hbusy i w Hi).
    injection Hs as <-. unfold end_failed, resume.
    apply (Winv_same limits c); try done; by destruct (decide _), (wk_by w).
Qed.

(** ** Pending requests *)

(** The identifiers a call will retire, those it has not retired yet, and those
    the reader has let in for the frame at hand, or had let in for the frame it
    refused. *)
Definition tracked_of (w : work) : list Z :=
  match wk_by w with Rejection => [] | _ => message_id <$> wk_requests w end.
Definition live_of (w : work) : list Z := if wk_retired w then [] else tracked_of w.
Definition reader_ids (r : reader) : list Z :=
  match r with
  | Admitting false taken _ => message_id <$> taken
  | Returned _ left_ => message_id <$> left_
  | _ => []
  end.
Definition reader_room (r : reader) : Z :=
  match r with Admitting false _ rest => zlen rest | _ => 0 end.

Definition tracked (works : list work) (r : reader) : list Z := (works ≫= tracked_of) ++ reader_ids r.
Definition live (works : list work) (r : reader) : list Z := (works ≫= live_of) ++ reader_ids r.

(** The calls the reader is in. *)
Definition own_call (w : work) : bool := bool_decide (wk_by w ≠ Goroutine).
Definition own_calls (works : list work) : nat := length (filter own_call works).
Definition reader_calls (r : reader) : nat := match r with Waiting => 1 | _ => 0 end.
Definition stopped (r : reader) : bool :=
  match r with Returned _ _ | Panicked => true | _ => false end.

Definition reader_taken (r : reader) : Prop :=
  match r with Admitting _ taken _ => taken ≠ [] | _ => False end.

Definition work_ok (w : work) : Prop :=
  (∀ q, q ∈ wk_rest w → q ∈ wk_requests w) ∧ (wk_retired w = true → wk_rest w = []).

(** The invariant over the calls, the reader, the pending requests and what was
    spent. *)
Record calls_ok (limits : ServerLimits) (works : list work) (r : reader)
    (m : gmap Z pendingRequest) (spent : list (Z * Z)) : Prop := {
  co_once : NoDup (tracked works r);
  co_spent : ∀ id, id ∈ tracked works r → id ∈ spent_ids spent;
  co_live : ∀ id, id ∈ live works r → is_Some (m !! id);
  co_leak : r ≠ Panicked → ∀ id, is_Some (m !! id) → id ∈ live works r;
  co_room : Z.of_nat (size m) + reader_room r <= MaxRequests limits;
  co_work : ∀ w, w ∈ works → work_ok w;
  co_calls : own_calls works = reader_calls r }.

Definition Pinv (limits : ServerLimits) (c : connection) : Prop :=
  calls_ok limits (cn_work c) (cn_reader c) (pending c) (cn_spent c).

Section Lists.
Context {A : Type}.
Implicit Types l : list A.

Lemma insert_perm l i x y : l !! i = Some x → <[i := y]> l ≡ₚ y :: delete i l.
Proof.
  intros Hi. assert (Hlt : (i < length l)%nat) by (by eapply lookup_lt_Some).
  rewrite insert_take_drop, delete_take_drop by done. by rewrite Permutation_middle.
Qed.
End Lists.

Lemma retire_lookup requests m id :
  foldr (λ request m, delete (message_id request) m) m requests !! id
  = if decide (id ∈ message_id <$> requests) then None else (m : gmap Z pendingRequest) !! id.
Proof.
  induction requests as [|q requests IH]; [done|]. cbn [foldr].
  destruct (decide (id = message_id q)) as [->|Hne].
  - rewrite lookup_delete_eq, decide_True; [done|]. by left.
  - rewrite lookup_delete_ne, IH by done.
    destruct (decide (id ∈ message_id <$> requests)) as [H|H].
    + rewrite decide_True; [done|]. by right.
    + rewrite decide_False; [done|]. cbn. rewrite elem_of_cons. tauto.
Qed.

Lemma retire_size requests (m : gmap Z pendingRequest) :
  (size (foldr (λ request m, delete (message_id request) m) m requests) <= size m)%nat.
Proof.
  induction requests as [|q requests IH]; [done|]. cbn [foldr].
  etransitivity; [|exact IH]. apply map_subseteq_size, delete_subseteq.
Qed.

Lemma tracked_cons w works r : tracked (w :: works) r = tracked_of w ++ tracked works r.
Proof. unfold tracked. cbn. by rewrite app_assoc. Qed.

Lemma live_cons w works r : live (w :: works) r = live_of w ++ live works r.
Proof. unfold live. cbn. by rewrite app_assoc. Qed.

Lemma live_tracked works r id : id ∈ live works r → id ∈ tracked works r.
Proof.
  unfold live, tracked. rewrite !elem_of_app, !list_elem_of_bind.
  intros [(w & Hin & Hw)|?]; [left|by right]. exists w. split; [|done].
  unfold live_of in Hin. by destruct (wk_retired w); [apply elem_of_nil in Hin|].
Qed.

Lemma live_owners works r id :
  id ∈ live works r ↔
  (∃ w, w ∈ works ∧ wk_by w ≠ Rejection ∧ wk_retired w = false ∧ id ∈ message_id <$> wk_requests w)
  ∨ id ∈ reader_ids r.
Proof.
  unfold live. rewrite elem_of_app, list_elem_of_bind. f_equiv. split.
  - intros (w & Hin & Hw). exists w. split; [done|]. unfold live_of, tracked_of in Hin.
    destruct (wk_retired w), (wk_by w); try (by apply elem_of_nil in Hin); done.
  - intros (w & Hw & Hb & Hr & Hin). exists w. split; [|done]. unfold live_of, tracked_of. rewrite Hr.
    by destruct (wk_by w).
Qed.

Lemma calls_ok_perm limits works works' r m spent :
  works ≡ₚ works' → calls_ok limits works r m spent → calls_ok limits works' r m spent.
Proof.
  intros Hp [H1 H2 H3 H4 H5 H6 H7].
  assert (Ht : tracked works r ≡ₚ tracked works' r) by (unfold tracked; by rewrite Hp).
  assert (Hl : live works r ≡ₚ live works' r) by (unfold live; by rewrite Hp).
  constructor.
  - by rewrite <- Ht.
  - intros id. rewrite <- Ht. apply H2.
  - intros id. rewrite <- Hl. apply H3.
  - intros Hs id. rewrite <- Hl. by apply H4.
  - done.
  - intros w. rewrite <- Hp. apply H6.
  - unfold own_calls. by rewrite <- Hp.
Qed.

Lemma own_calls_cons w w' works :
  wk_by w' = wk_by w → own_calls (w' :: works) = own_calls (w :: works).
Proof.
  intros E. unfold own_calls. rewrite !filter_cons.
  assert (own_call w' = own_call w) as -> by (unfold own_call; by rewrite E). by destruct (decide _).
Qed.

(** Credits are given to the next request of a call. *)
Lemma calls_ok_replace limits w w' works r m spent :
  wk_by w' = wk_by w → wk_requests w' = wk_requests w → wk_retired w' = wk_retired w → work_ok w' →
  calls_ok limits (w :: works) r m spent → calls_ok limits (w' :: works) r m spent.
Proof.
  intros Eb Eq Er Hok [H1 H2 H3 H4 H5 H6 H7].
  assert (Ht : tracked_of w' = tracked_of w) by (unfold tracked_of; by rewrite Eb, Eq).
  assert (Hl : live_of w' = live_of w) by (unfold live_of; by rewrite Er, Ht).
  constructor; rewrite ?tracked_cons, ?live_cons, ?Ht, ?Hl; rewrite ?tracked_cons, ?live_cons in *; try done.
  - intros x [->|?]%elem_of_cons; [done|]. apply H6. by right.
  - rewrite <- H7. by apply own_calls_cons.
Qed.

Lemma tracked_of_retired id w :
  wk_by w ≠ Rejection → (id ∈ tracked_of w ↔ id ∈ message_id <$> wk_requests w).
Proof. unfold tracked_of. by destruct (wk_by w). Qed.

Section Retire.
Context (limits : ServerLimits) (w : work) (works : list work) (r : reader)
  (m : gmap Z pendingRequest) (spent : list (Z * Z)).
Hypothesis Hok : calls_ok limits (w :: works) r m spent.

(** The identifiers of a call belong to no other call, nor to the frame the
    reader is at. *)
Lemma retire_others id : id ∈ tracked_of w → id ∈ tracked works r → False.
Proof. pose proof (co_once _ _ _ _ _ Hok) as H. rewrite tracked_cons in H. apply NoDup_app in H as (_ & H & _). apply H. Qed.

Let retired := foldr (λ request m, delete (message_id request) m) m (wk_requests w).

Lemma retired_live id : wk_by w ≠ Rejection → id ∈ live works r → is_Some (retired !! id).
Proof.
  intros Hb Hl. unfold retired. rewrite retire_lookup, decide_False.
  - apply (co_live _ _ _ _ _ Hok). rewrite live_cons. apply elem_of_app. by right.
  - rewrite <- tracked_of_retired by done. intros Ht. by eapply retire_others, live_tracked.
Qed.

Lemma retired_leak id :
  wk_by w ≠ Rejection → r ≠ Panicked → is_Some (retired !! id) → id ∈ live works r.
Proof.
  intros Hb Hs. unfold retired. rewrite retire_lookup.
  destruct (decide _) as [|Hd]; [by intros [? ?]|]. rewrite <- tracked_of_retired in Hd by done.
  intros Hm. pose proof (co_leak _ _ _ _ _ Hok Hs id Hm) as Hin. rewrite live_cons in Hin.
  apply elem_of_app in Hin as [Hin|?]; [|done].
  unfold live_of in Hin. by destruct (wk_retired w); [apply elem_of_nil in Hin|].
Qed.

Lemma retired_room : Z.of_nat (size retired) + reader_room r <= MaxRequests limits.
Proof. pose proof (retire_size (wk_requests w) m). pose proof (co_room _ _ _ _ _ Hok). unfold retired. lia. Qed.

(** [writeFinal]. *)
Lemma calls_ok_write :
  wk_by w ≠ Rejection → wk_rest w = [] →
  calls_ok limits (mkWork (wk_by w) (wk_requests w) [] true :: works) r retired spent.
Proof.
  intros Hb Hrest. pose proof Hok as [H1 H2 _ _ _ H6 H7]. rewrite tracked_cons in *.
  constructor; rewrite ?tracked_cons, ?live_cons; try done.
  - intros id [Hn|Hl]%elem_of_app; [by apply elem_of_nil in Hn|]. by apply retired_live.
  - intros Hs id Hm. apply elem_of_app. right. by apply retired_leak.
  - apply retired_room.
  - intros x [->|?]%elem_of_cons; [|apply H6; by right]. split; [|done]. by intros q ?%elem_of_nil.
  - rewrite <- H7. by apply own_calls_cons.
Qed.

Definition after_call (r' : reader) : Prop :=
  if own_call w then r' = Reading ∨ r' = Returned Failed [] else r' = r.

Lemma after_call_reader r' :
  after_call r' →
  reader_ids r' = reader_ids r ∧ reader_room r' = reader_room r
  ∧ (stopped r' = false → stopped r = false) ∧ own_calls works = reader_calls r'
  ∧ (reader_taken r → reader_taken r') ∧ (r' ≠ Panicked → r ≠ Panicked).
Proof.
  pose proof (co_calls _ _ _ _ _ Hok) as Hc. unfold after_call.
  unfold own_calls in *. rewrite filter_cons in Hc. destruct (own_call w) eqn:E.
  - rewrite decide_True in Hc by done. destruct r; simpl in Hc; try lia.
    intros [-> | ->]; simpl; split_and!; try done; lia.
  - rewrite decide_False in Hc by tauto. by intros ->.
Qed.

Lemma tracked_after r' : after_call r' → tracked works r' = tracked works r ∧ live works r' = live works r.
Proof. intros (E & _)%after_call_reader. unfold tracked, live. by rewrite E. Qed.

(** A call returns. *)
Lemma calls_ok_end r' :
  after_call r' →
  calls_ok limits works r' (if decide (wk_by w = Rejection) then m else retired) spent.
Proof.
  intros Ha. pose proof Hok as [H1 H2 H3 H4 H5 H6 _]. pose proof retired_room as Hroom.
  destruct (after_call_reader r' Ha) as (_ & Ero & _ & Hcalls & _ & Hst).
  destruct (tracked_after r' Ha) as (Et & El). rewrite tracked_cons, live_cons in *.
  constructor; rewrite ?Et, ?El; try done.
  - by apply NoDup_app in H1 as (_ & _ & ?).
  - intros id Hid. apply H2, elem_of_app. by right.
  - intros id Hid. destruct (decide _); [|by apply retired_live]. apply H3, elem_of_app. by right.
  - intros Hs%Hst id Hm. destruct (decide (wk_by w = Rejection)) as [Hb|Hb]; [|by apply retired_leak].
    apply H4 in Hm as [Hm|?]%elem_of_app; [|done|done]. unfold live_of, tracked_of in Hm. rewrite Hb in Hm.
    by destruct (wk_retired w); apply elem_of_nil in Hm.
  - rewrite Ero. destruct (decide _); [done|apply Hroom].
  - intros x Hx. apply H6. by right.
Qed.
End Retire.

(** The reader stops: what it had let in for the frame at hand stays. *)
Lemma calls_ok_stop limits works r m spent err left_ :
  reader_calls r = 0%nat → r ≠ Panicked → reader_ids r = message_id <$> left_ →
  calls_ok limits works r m spent → calls_ok limits works (Returned err left_) m spent.
Proof.
  intros Hr Hp Hids [H1 H2 H3 H4 H5 H6 H7]. assert (Hroom : 0 <= reader_room r).
  { destruct r as [|[] taken rest| | |]; simpl; try lia. apply zlen_nonneg. }
  unfold tracked, live in *. rewrite Hids in *.
  constructor; unfold tracked, live; simpl; try done; [intros _; by apply H4|lia|congruence].
Qed.

Lemma calls_ok_admit limits works reject taken request rest m spent p charge :
  message_id request ∉ spent_ids spent → 1 <= charge →
  calls_ok limits works (Admitting reject taken (request :: rest)) m spent →
  calls_ok limits works (Admitting reject (taken ++ [request]) rest)
    (if reject then m else <[message_id request := p]> m) ((message_id request, charge) :: spent).
Proof.
  intros Hnew Hch [H1 H2 H3 H4 H5 H6 H7].
  assert (Hspent : spent_ids ((message_id request, charge) :: spent)
                   = id_range (message_id request) charge ++ spent_ids spent) by done.
  destruct reject.
  { constructor; try done; [|intros _; by apply H4].
    intros id Hid%H2. rewrite Hspent. apply elem_of_app. by right. }
  assert (Ht : tracked works (Admitting false (taken ++ [request]) rest)
               = tracked works (Admitting false taken (request :: rest)) ++ [message_id request]).
  { unfold tracked. simpl. by rewrite fmap_app, app_assoc. }
  assert (Hl : live works (Admitting false (taken ++ [request]) rest)
               = live works (Admitting false taken (request :: rest)) ++ [message_id request]).
  { unfold live. simpl. by rewrite fmap_app, app_assoc. }
  constructor; rewrite ?Ht, ?Hl; try done.
  - apply NoDup_app. split_and!; [done| |apply NoDup_singleton].
    intros id Hid ->%list_elem_of_singleton. by apply Hnew, H2.
  - intros id [Hid| ->%list_elem_of_singleton]%elem_of_app; rewrite Hspent; apply elem_of_app;
      [right; by apply H2|left]. apply elem_of_seqZ. lia.
  - intros id [Hid| ->%list_elem_of_singleton]%elem_of_app; [|by rewrite lookup_insert_eq].
    apply lookup_insert_is_Some'. right. by apply H3.
  - intros _ id [->|?]%lookup_insert_is_Some'; apply elem_of_app; [right; by left|left; by apply H4].
  - simpl in *. rewrite zlen_cons in H5. pose proof (map_size_insert (message_id request) p m) as Hs.
    destruct (m !! message_id request); simpl in Hs; lia.
Qed.

(** A frame is handed to its answerer. *)
Lemma calls_ok_dispatch limits works reject taken m spent by_ r :
  r = (if decide (by_ = Goroutine) then Reading else Waiting) →
  (by_ = Rejection ↔ reject = true) →
  calls_ok limits works (Admitting reject taken []) m spent →
  calls_ok limits (mkWork by_ taken taken false :: works) r m spent.
Proof.
  intros -> Hb [H1 H2 H3 H4 H5 H6 H7].
  set (r := if decide _ then _ else _). assert (Hr : reader_ids r = [] ∧ reader_room r = 0 ∧ stopped r = false).
  { unfold r. by destruct (decide _). } destruct Hr as (Er & Em & Es).
  assert (Hids : tracked_of (mkWork by_ taken taken false) = reader_ids (Admitting reject taken [])).
  { unfold tracked_of. simpl. destruct by_, reject; naive_solver. }
  assert (Ht : tracked (mkWork by_ taken taken false :: works) r ≡ₚ tracked works (Admitting reject taken [])).
  { rewrite tracked_cons, Hids. unfold tracked. rewrite Er, app_nil_r. apply Permutation_app_comm. }
  assert (Hl : live (mkWork by_ taken taken false :: works) r ≡ₚ live works (Admitting reject taken [])).
  { rewrite live_cons. unfold live, live_of at 1. cbn [wk_retired].
    rewrite Hids, Er, app_nil_r. apply Permutation_app_comm. }
  constructor.
  - by rewrite Ht.
  - intros id. rewrite Ht. apply H2.
  - intros id. rewrite Hl. apply H3.
  - intros _ id. rewrite Hl. by apply H4.
  - rewrite Em. destruct reject; simpl in H5; [lia|]. rewrite zlen_nil in H5. lia.
  - intros w [->|?]%elem_of_cons; [by split|by apply H6].
  - unfold own_calls, own_call in *. rewrite filter_cons. unfold r. simpl in *.
    destruct by_; simpl; rewrite H7; done.
Qed.

(** ** The reader's frames *)

(** Events carry bytes. *)
Definition event_bytes (e : conn_event) : Prop :=
  match e with EvFrame prefix packet => bytes prefix ∧ bytes packet | _ => True end.

(** What the reader holds came out of one frame of no more than [MaxCompound]
    commands. *)
Definition Rinv (limits : ServerLimits) (r : reader) : Prop :=
  match r with
  | Admitting _ taken rest =>
      Forall from_frame rest ∧ 1 <= zlen (taken ++ rest) <= MaxCompound limits
  | Panicked => False
  | _ => True
  end.

Lemma units_or_packet_total {A} request (payload : A → Z) (m : W A) :
  no_panic m → ∃ n, units_or_packet request payload m = Some n.
Proof. unfold units_or_packet, no_panic. destruct m as [r|]; [by eexists|done]. Qed.

Lemma requiredCredits_total request : from_frame request → ∃ n, requiredCredits request = Some n.
Proof.
  intros (_ & Hbp & Hbb & Hl). unfold requiredCredits.
  destruct (controlCommand _); [by eexists|].
  repeat (destruct (_ =? _); [apply units_or_packet_total|]); [..|by eexists].
  - unfold Request_Read. repeat parser_step.
  - unfold Request_QueryInfo. repeat parser_step.
  - unfold Request_QueryDirectory. repeat parser_step.
  - unfold Request_Write. repeat parser_step.
Qed.

Lemma receive_reader limits prefix packet c :
  bytes packet → cn_reader c = Reading →
  let c' := receive limits prefix packet c in
  Rinv limits (cn_reader c')
  ∧ cn_work c' = cn_work c ∧ pending c' = pending c ∧ cn_closed c' = cn_closed c
  ∧ (∀ id, id ∈ spent_ids (cn_spent c) → id ∈ spent_ids (cn_spent c'))
  ∧ (credits c' = ∅ → credits c = ∅ ∧ nextCredit c' = nextCredit c)
  ∧ (cn_reader c' = Reading ∨ cn_reader c' = Returned Malformed []
     ∨ ∃ reject requests, cn_reader c' = Admitting reject [] requests
         ∧ (reject = false → Z.of_nat (size (pending c)) + zlen requests <= MaxRequests limits)).
Proof.
  intros Hb Hr. unfold receive. destruct (_ || _); [by simpl; auto 10|].
  destruct (bool_decide _).
  - destruct (firstPacket c); [|by simpl; auto 10].
    destruct (ParseMultiProtocolNegotiate_total packet) as ([|] & ->); [|by simpl; auto 10].
    simpl. rewrite Hr. split_and!; first [done|by right|by left|set_solver].
  - match goal with |- context [ParseFrame packet ?l] => set (fl := l) end.
    destruct (ParseFrame_spec packet fl) as (res & Hres & Hspec). rewrite Hres.
    destruct res as [requests|]; [|by simpl; auto 10].
    destruct (Hspec _ eq_refl) as (_ & _ & Hlen & _). destruct (_ || _); [by simpl; auto 10|].
    simpl. split_and!; try done; [by eapply ParseFrame_requests|apply Hlen|apply Hlen|].
    right. right. eexists _, _.
    split; [done|]. intros ?%Z.ltb_ge. lia.
Qed.

(** The reader's panics are out of reach. *)
Lemma admit_reader limits reject taken request rest c :
  Rinv limits (Admitting reject taken (request :: rest)) →
  let c' := admit_message reject taken request rest c in
  Rinv limits (cn_reader c')
  ∧ cn_work c' = cn_work c ∧ cn_closed c' = cn_closed c ∧ nextCredit c' = nextCredit c
  ∧ ((∃ err, c' = set_reader (Returned err (if reject then [] else taken)) c)
     ∨ cn_reader c' = Admitting reject (taken ++ [request]) rest
       ∧ message_id request ∈ credits c ∧ 1 <= charge_of request
       ∧ cn_spent c' = (message_id request, charge_of request) :: cn_spent c
       ∧ ∃ p, pending c' = if reject then pending c else <[message_id request := p]> (pending c)).
Proof.
  intros [Hall Hlen]. inversion_clear Hall as [|? ? Hq Hrest]. unfold admit_message.
  destruct (_ =? Cancel); [by simpl; eauto 10|]. destruct (_ <? _); [by simpl; eauto 10|].
  destruct (requiredCredits_total request Hq) as (n & En). rewrite En.
  apply requiredCredits_pos in En. destruct (_ || _) eqn:E; [by simpl; eauto 10|].
  apply orb_false_iff in E as [E1%Z.ltb_ge E2%negb_false_iff]. simpl.
  rewrite <- app_assoc. cbn [app]. split_and!; [done|lia|lia|done..|]. right.
  split_and!; [done| |lia|done|by eexists]. rewrite forallb_forall in E2.
  eapply bool_decide_eq_true, E2, list_elem_of_In, elem_of_seqZ. lia.
Qed.

(** ** Replenishment *)

(** While the window is empty somebody still has credits to give, unless the
    connection ends or the identifiers are used up. *)
Definition Sinv (c : connection) : Prop :=
  credits c = ∅ →
  nextCredit c = MaxUint64 ∨ cn_closed c = true ∨ stopped (cn_reader c) = true
  ∨ (∃ w, w ∈ cn_work c ∧ wk_rest w ≠ []) ∨ reader_taken (cn_reader c).

Record Cinv (limits : ServerLimits) (c : connection) : Prop := {
  ci_window : Winv limits c;
  ci_calls : Pinv limits c;
  ci_reader : Rinv limits (cn_reader c);
  ci_supply : Sinv c }.

Lemma Cinv_new limits : Limits_check limits = true → Cinv limits newConnection.
Proof.
  intros Hl. pose proof (Limits_check_requests _ Hl). split.
  - split; [by apply window_new|by constructor].
  - constructor; unfold tracked, live; simpl; try done.
    + constructor.
    + by intros id ?%elem_of_nil.
    + intros _ id [x Hx]. by rewrite lookup_empty in Hx.
    + rewrite map_size_empty. lia.
    + by intros w ?%elem_of_nil.
  - done.
  - intros Hc. simpl in Hc. set_solver.
Qed.

(** A frame is received: the reader alone has moved. *)
Lemma Cinv_frame limits prefix packet c :
  Limits_check limits = true → bytes packet → cn_reader c = Reading →
  Cinv limits c → Cinv limits (receive limits prefix packet c).
Proof.
  intros Hl Hb Hr [Hw Hp _ Hs].
  pose proof (Winv_receive limits prefix packet c Hl Hr Hw) as Hw'.
  destruct (receive_reader limits prefix packet c Hb Hr) as (Hrd & Ew & Epd & Ecl & Hsp & Hcr & Hcase).
  set (c' := receive limits prefix packet c) in *. split; [exact Hw'| |exact Hrd|].
  - unfold Pinv in *. rewrite Ew, Epd. rewrite Hr in Hp. destruct Hp as [H1 H2 H3 H4 H5 H6 H7].
    assert (Hids : reader_ids (cn_reader c') = []).
    { by destruct Hcase as [->|[->|([] & requests & -> & _)]]. }
    unfold tracked, live in *. simpl in *.
    constructor; unfold tracked, live; rewrite ?Hids; auto.
    + destruct Hcase as [->|[->|([] & requests & -> & Hroom)]]; simpl; auto.
    + by destruct Hcase as [->|[->|([] & requests & -> & _)]].
  - intros [Hc Hn]%Hcr. specialize (Hs Hc). rewrite Hr in Hs. rewrite Ew, Ecl, Hn. destruct Hs as [?|[?|[?|[?|?]]]]; [tauto|tauto|done|tauto|done].
Qed.

Lemma Cinv_admit limits reject taken request rest c :
  cn_reader c = Admitting reject taken (request :: rest) →
  Cinv limits c → Cinv limits (admit_message reject taken request rest c).
Proof.
  intros Hr [Hw Hp Hrd Hs]. pose proof (Winv_admit limits _ _ _ _ c Hr Hw) as Hw'.
  unfold Pinv in Hp. rewrite Hr in Hrd, Hp.
  destruct (admit_reader limits reject taken request rest c Hrd) as (Hrd' & Ew & Ecl & En & Hcase).
  set (c' := admit_message reject taken request rest c) in *.
  split; [exact Hw'| |exact Hrd'|].
  - destruct Hcase as [(err & ->)|(Er & Hid & Hch & Es & p & Epd)].
    + eapply calls_ok_stop; [| | |exact Hp]; by destruct reject.
    + unfold Pinv. rewrite Er, Es, Epd, Ew. apply calls_ok_admit; [|done|done].
      intros Hx. destruct Hw as [Hw _]. by apply (proj2 (wo_spent _ _ _ _ _ Hw _ Hx)).
  - destruct Hcase as [(err & ->)|(Er & _)]; intros _; [by simpl; auto|].
    rewrite Er. right. right. right. right. simpl. by destruct taken.
Qed.

Lemma Cinv_dispatch limits reject taken c :
  cn_reader c = Admitting reject taken [] → Winv limits (answer_frame reject taken c) →
  Cinv limits c → Cinv limits (answer_frame reject taken c).
Proof.
  intros Hr Hw' [Hw Hp Hrd Hs]. unfold Pinv in Hp. rewrite Hr in Hrd, Hp.
  destruct Hrd as [_ Hlen]. rewrite app_nil_r in Hlen.
  assert (Hstart : ∀ by_ r, r = (if decide (by_ = Goroutine) then Reading else Waiting) →
    (by_ = Rejection ↔ reject = true) →
    let c' := set_work (mkWork by_ taken taken false :: cn_work c) (set_reader r c) in
    Winv limits c' → Cinv limits c').
  { intros by_ r Er Hb c' Hwc. split; [exact Hwc|by eapply calls_ok_dispatch| |].
    - subst r. simpl. by destruct (decide _).
    - intros _. right. right. right. left. eexists. split; [by left|].
      simpl. intros ->. rewrite zlen_nil in Hlen; lia. }
  unfold answer_frame in *. destruct reject; [by apply (Hstart Rejection Waiting)|].
  destruct taken as [|q rest]; [rewrite zlen_nil in Hlen; lia|].
  destruct (is_negotiate q); [destruct rest|].
  - by apply (Hstart Negotiation Waiting).
  - split; [exact Hw'| |done|intros _; simpl; auto].
    by eapply calls_ok_stop; [| | |exact Hp].
  - by apply (Hstart Goroutine Reading).
Qed.

(** The request a call is at is pending: [process] finds it. *)
Lemma answer_found limits i w q rest c :
  Pinv limits c → cn_work c !! i = Some w → wk_rest w = q :: rest →
  work_ok w ∧ (wk_by w = Rejection ∨ is_Some (pending c !! message_id q)).
Proof.
  intros Hp Hi Erest. pose proof (delete_Permutation _ _ _ Hi) as Hperm.
  pose proof (calls_ok_perm _ _ _ _ _ _ Hperm Hp) as Hpw.
  assert (Hok : work_ok w) by (apply (co_work _ _ _ _ _ Hpw); by left).
  split; [done|]. destruct Hok as [Hsub Hret].
  destruct (decide (wk_by w = Rejection)) as [|Hb]; [by left|right].
  apply (co_live _ _ _ _ _ Hpw). rewrite live_cons. apply elem_of_app. left. unfold live_of.
  destruct (wk_retired w); [by rewrite Hret in Erest|]. apply tracked_of_retired; [done|].
  apply list_elem_of_fmap. exists q. split; [done|]. apply Hsub. rewrite Erest. by left.
Qed.

(** Credits are given to it. *)
Lemma Cinv_answer limits i w c c' :
  Limits_check limits = true → cn_work c !! i = Some w → answer_next limits i w c = Some c' →
  Winv limits c' → Cinv limits c → Cinv limits c'.
Proof.
  intros Hl Hi Hs Hw' [[Hw Hf] Hp Hrd Hsup]. unfold answer_next in Hs.
  destruct (wk_rest w) as [|q rest] eqn:Erest; [done|].
  destruct (answer_found limits i w q rest c Hp Hi Erest) as [[Hsub Hret] Hfound].
  assert ((match wk_by w with
           | Rejection => true
           | _ => bool_decide (is_Some (pending c !! message_id q)) end) = true) as E.
  { destruct Hfound as [-> |?]; [done|]. by destruct (wk_by w); [apply bool_decide_eq_true..|]. }
  rewrite E in Hs. pose proof (grantCredits_spec limits (WireHeader.Credits (rq_Header q)) c Hl Hw) as Hg.
  destruct (grantCredits _ _ _) as [g c1]. destruct Hg as (Ec1 & Hw1 & Hne). simpl in Hs.
  assert (Ew : cn_work c1 = cn_work c) by by rewrite Ec1.
  assert (Er : cn_reader c1 = cn_reader c) by by rewrite Ec1.
  rewrite Ew in Hs. injection Hs as <-.
  split; [exact Hw'| |by simpl; rewrite Er|].
  - unfold Pinv. simpl. rewrite Er. rewrite Ec1. simpl.
    eapply calls_ok_perm; [symmetry; by apply (insert_perm _ _ w)|].
    eapply calls_ok_replace;
      [..|exact (calls_ok_perm _ _ _ _ _ _ (delete_Permutation _ _ _ Hi) Hp)]; try done.
    split; simpl.
    + intros x Hx. apply Hsub. rewrite Erest. by right.
    + intros E'. by rewrite (Hret E') in Erest.
  - intros Hc. by destruct Hne as [Hne|Hmax]; [|left].
Qed.

(** The supply survives a step that gives nothing up. *)
Lemma Sinv_same c c' :
  credits c' = credits c → nextCredit c' = nextCredit c →
  (cn_closed c = true → cn_closed c' = true) →
  (stopped (cn_reader c) = true → stopped (cn_reader c') = true ∨ cn_closed c' = true) →
  (reader_taken (cn_reader c) → reader_taken (cn_reader c')) →
  (∀ w, w ∈ cn_work c → wk_rest w ≠ [] → w ∈ cn_work c' ∨ cn_closed c' = true) →
  Sinv c → Sinv c'.
Proof.
  intros E1 E2 H3 H4 H5 H6 Hs. unfold Sinv. rewrite E1, E2. intros Hc.
  destruct (Hs Hc) as [?|[?|[[?|?]%H4|[(w & Hw & Hne)|?]]]]; [tauto..| |tauto].
  destruct (H6 w Hw Hne); [|tauto]. right. right. right. left. by exists w.
Qed.

(** A call returns, with or without an error. *)
Lemma Cinv_end limits i w c c' :
  cn_work c !! i = Some w → cn_work c' = delete i (cn_work c) →
  pending c' = (if decide (wk_by w = Rejection) then pending c else pending (retireRequests (wk_requests w) c)) →
  credits c' = credits c → nextCredit c' = nextCredit c → cn_spent c' = cn_spent c →
  after_call w (cn_reader c) (cn_reader c') → (cn_closed c = true → cn_closed c' = true) →
  wk_rest w = [] ∨ cn_closed c' = true →
  Winv limits c' → Cinv limits c → Cinv limits c'.
Proof.
  intros Hi Ew Epd Ecr En Es Ha Hcl Hrest Hw' [Hw Hp Hrd Hs].
  pose proof (delete_Permutation _ _ _ Hi) as Hperm.
  pose proof (calls_ok_perm _ _ _ _ _ _ Hperm Hp) as Hpw.
  destruct (after_call_reader _ _ _ _ _ _ Hpw _ Ha) as (_ & _ & Hst & _ & Htk & _).
  split; [exact Hw'| | |].
  - unfold Pinv. rewrite Ew, Epd, Es. by apply (calls_ok_end limits w _ (cn_reader c)).
  - unfold after_call in Ha. destruct (own_call w); [by destruct Ha as [-> | ->]|by rewrite Ha].
  - apply (Sinv_same c); try done.
    + intros E. left. destruct (stopped (cn_reader c')); [done|]. by rewrite Hst in E.
    + intros x Hx Hne. rewrite Ew. destruct Hrest as [Hr|]; [left|by right].
      rewrite Hperm in Hx. apply elem_of_cons in Hx as [->|?]; [done|done].
Qed.

Lemma Cinv_write limits ok i w c c' :
  cn_work c !! i = Some w → write_final ok i w c = Some c' →
  Winv limits c' → Cinv limits c → Cinv limits c'.
Proof.
  intros Hi Hs Hw' [Hw Hp Hrd Hsup]. unfold write_final in Hs. destruct (_ && _) eqn:E; [|done].
  apply andb_true_iff in E as [[E1 E2]%andb_true_iff _].
  apply bool_decide_eq_true in E1, E2. injection Hs as <-.
  pose proof (delete_Permutation _ _ _ Hi) as Hperm.
  pose proof (calls_ok_perm _ _ _ _ _ _ Hperm Hp) as Hpw.
  split; [exact Hw'| |exact Hrd|].
  - unfold Pinv. simpl. eapply calls_ok_perm; [symmetry; by apply (insert_perm _ _ w)|].
    by apply calls_ok_write.
  - apply (Sinv_same c); try done; [by left|]. simpl. intros x Hx Hne. left.
    rewrite (insert_perm _ _ w) by done. rewrite Hperm in Hx.
    apply elem_of_cons in Hx as [->|?]; [done|by right].
Qed.

Lemma Cinv_failed limits i w c :
  cn_work c !! i = Some w → Winv limits (end_failed i w c) → Cinv limits c →
  Cinv limits (end_failed i w c).
Proof.
  intros Hi Hw' Hc. unfold end_failed, resume in *.
  destruct (decide (wk_by w = Rejection)) as [E|E];
    (apply (Cinv_end limits i w c); [done|..|exact Hw'|exact Hc]);
    try (by destruct (wk_by w)); try (by right; destruct (wk_by w)).
  all: unfold after_call, own_call; destruct (wk_by w); simpl; auto.
Qed.

Lemma Cinv_returned limits i w c c' :
  cn_work c !! i = Some w → end_call i w c = Some c' →
  Winv limits c' → Cinv limits c → Cinv limits c'.
Proof.
  intros Hi Hs Hw' Hc. assert (Hok : work_ok w).
  { apply (co_work _ _ _ _ _ (ci_calls _ _ Hc)). by eapply list_elem_of_lookup_2. }
  unfold end_call in Hs. destruct (wk_by w) eqn:Eb.
  1,2: destruct (wk_retired w) eqn:Er; [|done]; injection Hs as <-; destruct Hok as [_ Hret].
  3: destruct (bool_decide _) eqn:E; [|done]; apply bool_decide_eq_true in E; injection Hs as <-.
  all: apply (Cinv_end limits i w c); try done; try (left; by auto); rewrite ?Eb; try done.
  all: unfold after_call, own_call; rewrite Eb; simpl; auto.
Qed.

Lemma Cinv_step limits e c c' :
  Limits_check limits = true → event_bytes e → conn_step limits e c = Some c' →
  Cinv limits c → Cinv limits c'.
Proof.
  intros Hl He Hs Hc. pose proof (Winv_step limits e c c' Hl Hs (ci_window _ _ Hc)) as Hw'.
  destruct e as [prefix packet| | |i|ok i|i|i]; cbn in Hs, He;
    try (destruct (cn_work c !! i) as [w|] eqn:Hi; [|done]; cbn in Hs).
  - destruct (cn_reader c) eqn:Er; try done. destruct (_ && _); [|done]. injection Hs as <-.
    apply Cinv_frame; tauto.
  - destruct (cn_reader c) eqn:Er; try done. injection Hs as <-. destruct Hc as [_ Hp _ _].
    unfold Pinv in Hp. rewrite Er in Hp.
    split; [exact Hw'|by eapply calls_ok_stop; [| | |exact Hp]|done|].
    intros _. simpl. auto.
  - destruct (cn_reader c) as [|reject taken [|request rest]| | |] eqn:Er; try done;
      injection Hs as <-; [by apply Cinv_dispatch|by apply Cinv_admit].
  - by eapply Cinv_answer.
  - by eapply Cinv_write.
  - by eapply Cinv_returned.
  - injection Hs as <-. by apply Cinv_failed.
Qed.

Lemma Cinv_run limits events : ∀ c c',
  Limits_check limits = true → Forall event_bytes events → conn_run limits events c = Some c' →
  Cinv limits c → Cinv limits c'.
Proof.
  induction events as [|e events IH]; intros c c' Hl Hb Hr Hc; cbn in Hr; [by simplify_eq|].
  inversion_clear Hb as [|? ? He Hrest].
  destruct (conn_step limits e c) as [c1|] eqn:E; [|done]. cbn in Hr.
  eapply IH; [done|done|exact Hr|]. by eapply Cinv_step.
Qed.

(** ** Theorems *)

(** C10: a message identifier is accepted once, and the two ends agree on the
    window.  However the reader, the goroutines that answer frames and their
    failures interleave, the identifiers of the accepted requests (each request
    spends as many as it is charged) are pairwise distinct and none of them is
    in the window any more; every identifier was granted before it was used; the
    window never holds more than [MaxRequests] credits; and the credits announced
    in responses, with the one a connection starts with, are exactly those spent
    and those still in the window. *)
Theorem message_ids_spent_once (limits : ServerLimits) (events : list conn_event) (c : connection) :
  Limits_check limits = true → Forall event_bytes events →
  conn_run limits events newConnection = Some c →
  NoDup (spent_ids (cn_spent c))
  ∧ (∀ id, id ∈ spent_ids (cn_spent c) → 0 <= id < nextCredit c ∧ id ∉ credits c)
  ∧ nextCredit c <= MaxUint64
  ∧ Z.of_nat (size (credits c)) <= MaxRequests limits
  ∧ cn_announced c + 1 = Z.of_nat (size (credits c)) + zlen (spent_ids (cn_spent c)).
Proof.
  intros Hl Hb Hr. destruct (Cinv_run _ _ _ _ Hl Hb Hr (Cinv_new limits Hl)) as [[[] _] _ _ _].
  split_and!; try done; lia.
Qed.

(** C14: [process] finds each of its requests pending, and none is pending
    without an owner but those of a frame refused halfway.  In every reachable
    state the reader has not panicked; at most [MaxRequests] requests are
    pending; the request a call of [process] is at is pending although other
    calls retire theirs, and retire them twice.  The pending requests are exactly
    those of the calls that have not retired theirs, those the reader has let in
    for the frame it is at, and, once it has returned on refusing a request of a
    frame, the ones of that frame before it: these stay, and nobody retires
    them. *)
Theorem pending_requests_owned (limits : ServerLimits) (events : list conn_event) (c : connection) :
  Limits_check limits = true → Forall event_bytes events →
  conn_run limits events newConnection = Some c →
  cn_reader c ≠ Panicked
  ∧ Z.of_nat (size (pending c)) <= MaxRequests limits
  ∧ (∀ i w q rest, cn_work c !! i = Some w → wk_rest w = q :: rest →
       wk_by w = Rejection ∨ is_Some (pending c !! message_id q))
  ∧ ∀ id, is_Some (pending c !! id) ↔
      (∃ w, w ∈ cn_work c ∧ wk_by w ≠ Rejection ∧ wk_retired w = false
            ∧ id ∈ message_id <$> wk_requests w)
      ∨ match cn_reader c with
        | Admitting false taken _ => id ∈ message_id <$> taken
        | Returned _ left_ => id ∈ message_id <$> left_
        | _ => False
        end.
Proof.
  intros Hl Hb Hr. destruct (Cinv_run _ _ _ _ Hl Hb Hr (Cinv_new limits Hl)) as [_ Hp Hrd _].
  assert (Hnp : cn_reader c ≠ Panicked) by (intros E; by rewrite E in Hrd).
  split_and!; [done|..].
  - pose proof (co_room _ _ _ _ _ Hp).
    assert (0 <= reader_room (cn_reader c)); [|lia].
    destruct (cn_reader c) as [|[] taken rest| | |]; simpl; try lia. apply zlen_nonneg.
  - intros i w q rest Hi Hq. by eapply answer_found.
  - intros id. transitivity (id ∈ live (cn_work c) (cn_reader c)).
    { split; [by apply (co_leak _ _ _ _ _ Hp)|apply (co_live _ _ _ _ _ Hp)]. }
    rewrite live_owners. destruct (cn_reader c) as [|[] taken rest| | |]; simpl; by rewrite ?elem_of_nil.
Qed.

(** C13: a client that waits for its responses can always go on.  When every call
    has given its credits, the reader is at a frame's start and the connection
    has not failed, the window is not empty, unless all 64-bit identifiers have
    been used. *)
Theorem credits_replenished (limits : ServerLimits) (events : list conn_event) (c : connection) :
  Limits_check limits = true → Forall event_bytes events →
  conn_run limits events newConnection = Some c →
  cn_reader c = Reading → cn_closed c = false → (∀ w, w ∈ cn_work c → wk_rest w = []) →
  credits c ≠ ∅ ∨ nextCredit c = MaxUint64.
Proof.
  intros Hl Hb Hr Hrd Hcl Hw. destruct (Cinv_run _ _ _ _ Hl Hb Hr (Cinv_new limits Hl)) as [_ _ _ Hs].
  destruct (decide (credits c = ∅)) as [He|]; [|by left]. right. unfold Sinv in Hs. rewrite Hrd in Hs.
  destruct (Hs He) as [?|[?|[?|[(w & Hin & Hne)|?]]]]; try done; [congruence|].
  by destruct Hne, (Hw w Hin).
Qed.

(** An echo with the first identifier, asking for two credits. *)
Definition first_frame : list Z :=
  match Header_Encode (mkHeader 1 0 Echo 2 0 0 0 0 0 0 9 (make 16)) (make 64 ++ [4; 0; 0; 0]) with
  | Some (Parsed packet) => packet
  | _ => []
  end.

(** It is answered, and a compound of two echoes spends what it was granted. *)
Definition example_events : list conn_event :=
  [EvFrame [0; 0; 0; zlen first_frame] first_frame; EvAdmit; EvAdmit; EvAnswer 0; EvWrite true 0;
   EvFrame [0; 0; 0; zlen example_frame] example_frame; EvAdmit; EvAdmit; EvAdmit;
   EvEnd 1; EvAnswer 0; EvAnswer 0].

Definition conn_view (c : connection) : list Z * Z * list (Z * Z) * Z * nat * list nat :=
  (elements (credits c), nextCredit c, cn_spent c, cn_announced c, size (pending c),
   (λ w, length (wk_rest w)) <$> cn_work c).

Lemma example_run :
  ∃ c, conn_run DefaultLimits example_events newConnection = Some c ∧ cn_reader c = Reading
    ∧ cn_closed c = false
    ∧ conn_view c = ([3; 4], 5, [(2, 1); (1, 1); (0, 1)], 4, 2%nat, [0%nat]).
Proof.
  destruct (conn_run DefaultLimits example_events newConnection) as [c|] eqn:E;
    [|vm_compute in E; discriminate].
  exists c. split; [done|]. vm_compute in E. injection E as <-. done.
Qed.

Lemma example_bytes : Forall event_bytes example_events.
Proof.
  repeat (apply Forall_cons_2;
    [first [exact I|split; apply (bool_decide_unpack (bytes _)); vm_compute; exact I]|]).
  apply Forall_nil_2.
Qed.

Lemma message_ids_spent_once_witness :
  ∃ c, conn_run DefaultLimits example_events newConnection = Some c
    ∧ cn_spent c = [(2, 1); (1, 1); (0, 1)] ∧ NoDup (spent_ids (cn_spent c))
    ∧ cn_announced c + 1 = Z.of_nat (size (credits c)) + zlen (spent_ids (cn_spent c)).
Proof.
  destruct example_run as (c & Hr & _ & _ & Hv). exists c.
  destruct (message_ids_spent_once DefaultLimits example_events c eq_refl example_bytes Hr)
    as (H1 & _ & _ & _ & H2).
  split_and!; [exact Hr| |exact H1|exact H2]. unfold conn_view in Hv. congruence.
Defined.

Lemma pending_requests_owned_witness :
  ∃ c, conn_run DefaultLimits example_events newConnection = Some c
    ∧ size (pending c) = 2%nat ∧ cn_reader c ≠ Panicked
    ∧ ∀ id, is_Some (pending c !! id) →
        ∃ w, w ∈ cn_work c ∧ wk_retired w = false ∧ id ∈ message_id <$> wk_requests w.
Proof.
  destruct example_run as (c & Hr & Hrd & _ & Hv). exists c.
  destruct (pending_requests_owned DefaultLimits example_events c eq_refl example_bytes Hr)
    as (H1 & _ & _ & H2).
  unfold conn_view in Hv. injection Hv as _ _ _ _ Hsize _.
  split_and!; [exact Hr|exact Hsize|exact H1|].
  intros id Hid. apply H2 in Hid. rewrite Hrd in Hid.
  destruct Hid as [(w & Hw & _ & Hret & Hin)|[]]. exists w. split_and!; assumption.
Defined.

Lemma credits_replenished_witness :
  ∃ c, conn_run DefaultLimits example_events newConnection = Some c
    ∧ length (cn_work c) = 1%nat ∧ (credits c ≠ ∅ ∨ nextCredit c = MaxUint64).
Proof.
  destruct example_run as (c & Hr & Hrd & Hcl & Hv). exists c. unfold conn_view in Hv.
  injection Hv as _ _ _ _ _ Hw. destruct (cn_work c) as [|w [|]] eqn:Ew; try discriminate Hw.
  injection Hw as Hw. split_and!; [exact Hr|done|].
  apply (credits_replenished DefaultLimits example_events c eq_refl example_bytes Hr Hrd Hcl).
  rewrite Ew. intros x ->%list_elem_of_singleton. by destruct (wk_rest w).
Defined.

(** A compound whose second request has no credit is refused after the first was
    entered: the connection is over, no call is left, and the entry stays. *)
Definition short_frame : list Z :=
  match Header_Encode (mkHeader 1 0 Echo 1 0 0 0 0 0 0 9 (make 16)) (make 64 ++ [4; 0; 0; 0]) with
  | Some (Parsed packet) => packet
  | _ => []
  end.

Definition refused_events : list conn_event :=
  [EvFrame [0; 0; 0; zlen short_frame] short_frame; EvAdmit; EvAdmit; EvAnswer 0; EvWrite true 0; EvEnd 0;
   EvFrame [0; 0; 0; zlen example_frame] example_frame; EvAdmit; EvAdmit].

Lemma refused_compound_stays :
  ∃ c, conn_run DefaultLimits refused_events newConnection = Some c
    ∧ (∃ request, cn_reader c = Returned Malformed [request] ∧ message_id request = 1)
    ∧ cn_work c = [] ∧ size (pending c) = 1%nat.
Proof.
  destruct (conn_run DefaultLimits refused_events newConnection) as [c|] eqn:E;
    [|vm_compute in E; discriminate].
  exists c. split; [reflexivity|]. vm_compute in E. injection E as <-.
  split_and!; [|reflexivity|reflexivity]. eexists. split; [reflexivity|reflexivity].
Qed.
