(* ===== verification/SmbFileGate.v ===== *)
(** * The handles of an SMB tree and the turns of their I/O

    packages/smb/file_handles.go, the work count of a tree and its handle table
    ([beginFileWork], [endFileWork], [fenceFileWork], [reserveFileHandle],
    [bindReference], [releaseFileHandle], and what closing does to a handle's
    state), and packages/smb/file_io_gate.go, the turns of the requests on one
    handle.

    All of it runs under [t.fileMu], so an operation is a computation over the
    tree, and a panic (a nil or closed channel closed, a nil handle) is [None].
    Handles and tickets are shared through pointers: they live in the stores
    [tr_heap] and [tr_tickets].  A ticket owns its channel [ready], which is a
    field here; the channels that callers wait on after the tree has dropped
    them are numbered. *)

From S2P Require Import Prelude Bytes WireHeader WireRequests Errors Identity Ranges SmbConnection.

(** ** Data *)

Inductive handleState := handleReserved | handleLive | handleCleanupOnly | handleBarrierOnly.

#[export] Instance handleState_eq_dec : EqDecision handleState.
Proof. solve_decision. Defined.

Record fileIOTicket := mkTicket {
  tk_handle : nat; tk_sequence : Z; tk_ready : bool; tk_started : bool; tk_complete : bool;
  tk_err : option error }.

(** Of a handle: who it belongs to, and its gate. *)
Record fileHandle := mkHandle {
  fh_id : list Z; fh_state : handleState; fh_treeID : Z; fh_sessionID : Z; fh_ownerSession : nat;
  fh_identity : Z; fh_nodeID : Z; fh_published : bool; fh_released : bool;
  ioSequence : Z; ioQueue : list nat; ioRunning : option nat; ioIdle : option nat; ioFenced : bool }.

(** What the operations use of the session, of the authority and of the server. *)
Record smbSession := mkSession {
  ss_ptr : nat; ss_id : Z; ss_retired : bool; ss_fileIncarnation : Z; ss_nextFileID : Z }.
(** [server.handleOwners] holds the tree's own handles and [sv_others] more. *)
Record handleServer := mkServer {
  sv_limits : ServerLimits; handleOwners : gset nat; sv_others : Z; deleteRecoverySlots : Z;
  usedDiagnosticSlots : Z }.
Record authoritySession := mkAuthority {
  as_identity : Z; as_stopping : bool; as_closed : bool; as_expired : bool }.

(** [tr_other] is a ghost: the calls between [beginFileWork] and [endFileWork]. *)
Record tree := mkTree {
  tr_id : Z; tr_sessionID : Z;
  fileStopping : bool; fileActive : Z; fileIdle : option nat;
  handles : gmap (list Z) nat; tr_heap : gmap nat fileHandle; tr_tickets : list fileIOTicket;
  tr_chans : nat; tr_closed : gset nat; tr_other : Z }.

Definition set_file_work (stopping : bool) (active : Z) (idle : option nat) (t : tree) : tree :=
  mkTree (tr_id t) (tr_sessionID t) stopping active idle (handles t) (tr_heap t) (tr_tickets t)
    (tr_chans t) (tr_closed t) (tr_other t).
Definition set_handles (m : gmap (list Z) nat) (t : tree) : tree :=
  mkTree (tr_id t) (tr_sessionID t) (fileStopping t) (fileActive t) (fileIdle t) m (tr_heap t)
    (tr_tickets t) (tr_chans t) (tr_closed t) (tr_other t).
Definition set_heap (heap : gmap nat fileHandle) (t : tree) : tree :=
  mkTree (tr_id t) (tr_sessionID t) (fileStopping t) (fileActive t) (fileIdle t) (handles t) heap
    (tr_tickets t) (tr_chans t) (tr_closed t) (tr_other t).
Definition set_tickets (tickets : list fileIOTicket) (t : tree) : tree :=
  mkTree (tr_id t) (tr_sessionID t) (fileStopping t) (fileActive t) (fileIdle t) (handles t)
    (tr_heap t) tickets (tr_chans t) (tr_closed t) (tr_other t).
Definition set_chans (n : nat) (closed : gset nat) (t : tree) : tree :=
  mkTree (tr_id t) (tr_sessionID t) (fileStopping t) (fileActive t) (fileIdle t) (handles t)
    (tr_heap t) (tr_tickets t) n closed (tr_other t).
Definition set_other (n : Z) (t : tree) : tree :=
  mkTree (tr_id t) (tr_sessionID t) (fileStopping t) (fileActive t) (fileIdle t) (handles t)
    (tr_heap t) (tr_tickets t) (tr_chans t) (tr_closed t) n.

Definition set_gate (queue : list nat) (running idle : option nat) (h : fileHandle) : fileHandle :=
  mkHandle (fh_id h) (fh_state h) (fh_treeID h) (fh_sessionID h) (fh_ownerSession h) (fh_identity h)
    (fh_nodeID h) (fh_published h) (fh_released h) (ioSequence h) queue running idle (ioFenced h).
Definition set_sequence (n : Z) (h : fileHandle) : fileHandle :=
  mkHandle (fh_id h) (fh_state h) (fh_treeID h) (fh_sessionID h) (fh_ownerSession h) (fh_identity h)
    (fh_nodeID h) (fh_published h) (fh_released h) n (ioQueue h) (ioRunning h) (ioIdle h) (ioFenced h).
Definition set_fenced (h : fileHandle) : fileHandle :=
  mkHandle (fh_id h) (fh_state h) (fh_treeID h) (fh_sessionID h) (fh_ownerSession h) (fh_identity h)
    (fh_nodeID h) (fh_published h) (fh_released h) (ioSequence h) (ioQueue h) (ioRunning h) (ioIdle h) true.
Definition set_node (node : Z) (h : fileHandle) : fileHandle :=
  mkHandle (fh_id h) handleLive (fh_treeID h) (fh_sessionID h) (fh_ownerSession h) (fh_identity h)
    node true (fh_released h) (ioSequence h) (ioQueue h) (ioRunning h) (ioIdle h) (ioFenced h).
Definition set_close (state : handleState) (released : bool) (h : fileHandle) : fileHandle :=
  mkHandle (fh_id h) state (fh_treeID h) (fh_sessionID h) (fh_ownerSession h) (fh_identity h)
    (fh_nodeID h) (fh_published h) released (ioSequence h) (ioQueue h) (ioRunning h) (ioIdle h)
    (ioFenced h).

(** ** Channels, pointers *)

Definition make_chan : comp tree nat := λ t,
  Some (tr_chans t, set_chans (S (tr_chans t)) (tr_closed t) t).

(** Closing a nil or a closed channel panics. *)
Definition close_chan (c : option nat) : comp tree unit := λ t,
  match c with
  | None => None
  | Some c => if decide (c ∈ tr_closed t) then None
              else Some (tt, set_chans (tr_chans t) ({[c]} ∪ tr_closed t) t)
  end.

Definition get_handle (p : nat) : comp tree fileHandle := deref (λ t, tr_heap t !! p).
Definition get_ticket (n : nat) : comp tree fileIOTicket := deref (λ t, tr_tickets t !! n).
Definition put_handle (p : nat) (h : fileHandle) : comp tree unit :=
  modify (λ t, set_heap (<[p := h]> (tr_heap t)) t).
Definition put_ticket (n : nat) (tk : fileIOTicket) : comp tree unit :=
  modify (λ t, set_tickets (<[n := tk]> (tr_tickets t)) t).

(** Closes the ticket's [ready]; panics when it is closed. *)
Definition close_ready (n : nat) : comp tree unit :=
  let! tk := get_ticket n in
  if tk_ready tk then panic
  else put_ticket n (mkTicket (tk_handle tk) (tk_sequence tk) true (tk_started tk) (tk_complete tk) (tk_err tk)).

Definition complete_ticket (n : nat) (err : option error) : comp tree unit :=
  let! tk := get_ticket n in
  put_ticket n (mkTicket (tk_handle tk) (tk_sequence tk) (tk_ready tk) (tk_started tk) true err).

(** ** The work of a tree *)

Definition startFileWork : comp tree unit :=
  let! active := gets fileActive in
  do! (if active =? 0
       then let! c := make_chan in
            modify (λ t, set_file_work (fileStopping t) (fileActive t) (Some c) t)
       else ret tt) in
  modify (λ t, set_file_work (fileStopping t) (fileActive t + 1) (fileIdle t) t).

Definition beginFileWork (s : smbSession) : comp tree bool :=
  let! stopping := gets fileStopping in
  if stopping then ret false
  else if ss_retired s then ret false
  else do! startFileWork in ret true.

Definition endFileWorkLocked : comp tree unit :=
  do! modify (λ t, set_file_work (fileStopping t) (fileActive t - 1) (fileIdle t) t) in
  let! active := gets fileActive in
  if active =? 0 then
    let! idle := gets fileIdle in
    do! close_chan idle in
    modify (λ t, set_file_work (fileStopping t) (fileActive t) None t)
  else ret tt.

(** ** The gate of a handle *)

Definition startFileIOLocked (p n : nat) : comp tree unit :=
  let! c := make_chan in
  let! h := get_handle p in
  do! put_handle p (set_gate (ioQueue h) (Some n) (Some c) h) in
  close_ready n.

(** [admitFileIO]: [err] is the answer of [ctx.Err]. *)
Definition admitFileIO (err : option error) (s : smbSession) (a : option authoritySession)
    (id : list Z) (limit : Z) : comp tree (result nat) :=
  match err with
  | Some e => ret (Err e)
  | None =>
      if limit <? 1 then ret (Err (Errno EINVAL))
      else
        match a with
        | None => ret (Err (Errno EIO))
        | Some a =>
            let! t := gets (λ t, t) in
            if fileStopping t || ss_retired s || as_stopping a || as_closed a || as_expired a
            then ret (Err (Errno ESTALE))
            else
              match handles t !! id with
              | None => ret (Err (Errno EBADF))
              | Some p =>
                  let! h := get_handle p in
                  if negb (bool_decide (fh_ownerSession h = ss_ptr s))
                     || negb (fh_treeID h =? tr_id t) || negb (fh_sessionID h =? ss_id s)
                     || negb (tr_sessionID t =? ss_id s) || negb (fh_identity h =? as_identity a)
                     || (fh_nodeID h =? 0) || negb (bool_decide (fh_state h = handleLive))
                  then ret (Err (Errno EBADF))
                  else if ioFenced h then ret (Err (Errno EBADF))
                  else if limit <=? zlen (ioQueue h) + (if ioRunning h then 1 else 0)
                  then ret (Err (Errno EMFILE))
                  else if ioSequence h =? MaxUint64 then ret (Err (Errno EOVERFLOW))
                  else
                    let n := length (tr_tickets t) in
                    let sequence := ioSequence h + 1 in
                    do! put_handle p (set_sequence sequence h) in
                    do! modify (λ t, set_tickets (tr_tickets t ++ [mkTicket p sequence false false false None]) t) in
                    do! startFileWork in
                    do! match ioRunning h with
                        | None => startFileIOLocked p n
                        | Some _ =>
                            put_handle p (set_gate (ioQueue h ++ [n]) (ioRunning h) (ioIdle h)
                                            (set_sequence sequence h))
                        end in
                    ret (Ok n)
              end
        end
  end.

(** The section of [wait] after [ready] was closed. *)
Definition claimFileIO (n : nat) : comp tree (option error) :=
  let! tk := get_ticket n in
  match tk_err tk with
  | Some e => ret (Some e)
  | None =>
      if tk_complete tk then ret (Some (Errno EBADF))
      else do! put_ticket n (mkTicket (tk_handle tk) (tk_sequence tk) (tk_ready tk) true false None) in
           ret None
  end.

(** The turn passes to the first in the queue. *)
Definition pass_turn (p : nat) : comp tree unit :=
  let! h := get_handle p in
  do! put_handle p (set_gate (ioQueue h) None (ioIdle h) h) in
  do! close_chan (ioIdle h) in
  match ioQueue h with
  | [] => put_handle p (set_gate [] None None h)
  | next :: queue =>
      do! put_handle p (set_gate queue None None h) in
      startFileIOLocked p next
  end.

(** A waiting ticket leaves the queue. *)
Definition leave_queue (p n : nat) : comp tree unit :=
  let! h := get_handle p in
  let queue := match list_find (λ x, x = n) (ioQueue h) with
               | Some (i, _) => delete i (ioQueue h)
               | None => ioQueue h
               end in
  do! put_handle p (set_gate queue (ioRunning h) (ioIdle h) h) in
  do! complete_ticket n (Some Canceled) in
  close_ready n.

Definition finishFileIO (n : nat) : comp tree unit :=
  let! tk := get_ticket n in
  if tk_complete tk then ret tt
  else
    let p := tk_handle tk in
    do! complete_ticket n (tk_err tk) in
    let! h := get_handle p in
    do! (if decide (ioRunning h = Some n) then pass_turn p else leave_queue p n) in
    endFileWorkLocked.

(** [fenceHandleFileIOLocked]: what the caller waits on. *)
Definition drop_ticket (n : nat) : comp tree unit :=
  do! complete_ticket n (Some (Errno EBADF)) in
  do! close_ready n in
  endFileWorkLocked.

Definition drop_unstarted (p : nat) : comp tree unit :=
  let! h := get_handle p in
  match ioRunning h with
  | None => ret tt
  | Some n =>
      let! tk := get_ticket n in
      if tk_started tk then ret tt
      else
        do! complete_ticket n (Some (Errno EBADF)) in
        do! put_handle p (set_gate (ioQueue h) None (ioIdle h) h) in
        do! close_chan (ioIdle h) in
        do! put_handle p (set_gate (ioQueue h) None None h) in
        endFileWorkLocked
  end.

Definition fenceHandleFileIO (p : nat) : comp tree (option nat) :=
  let! h := get_handle p in
  do! put_handle p (set_fenced h) in
  do! drop_unstarted p in
  let! h := get_handle p in
  do! iter drop_ticket (ioQueue h) in
  do! put_handle p (set_gate [] (ioRunning h) (ioIdle h) h) in
  ret (ioIdle h).

(** [fenceFileWork]: over the handles of the table, in some order. *)
Definition fenceFileWork : comp tree (option nat) :=
  do! modify (λ t, set_file_work true (fileActive t) (fileIdle t) t) in
  let! table := gets handles in
  do! iter (λ p, do! fenceHandleFileIO p in ret tt) (snd <$> map_to_list table) in
  gets fileIdle.

(** ** The handle table *)

Definition file_id (incarnation sequence : Z) : list Z := le_split 8 incarnation ++ le_split 8 sequence.

Definition set_incarnation (n : Z) (s : smbSession) : smbSession :=
  mkSession (ss_ptr s) (ss_id s) (ss_retired s) n (ss_nextFileID s).

(** The incarnation is drawn when the session has none, and tested only then;
    [nonce] is what [rand.Read] delivers. *)
Definition draw_incarnation (nonce : result Z) (s : smbSession) : option error * smbSession :=
  if ss_fileIncarnation s =? 0 then
    match nonce with
    | Err e => (Some e, s)
    | Ok n => (if (n =? 0) || (n =? MaxUint64) then Some (Errno EIO) else None, set_incarnation n s)
    end
  else (None, s).

(** The identifier of the next handle of a session. *)
Definition next_file_id (nonce : result Z) (s : smbSession) : result (list Z) * smbSession :=
  if ss_retired s || (ss_id s =? 0) || (ss_id s =? MaxUint64) || (MaxUint64 - 1 <=? ss_nextFileID s)
  then (Err (Errno EMFILE), s)
  else
    match draw_incarnation nonce s with
    | (Some e, s) => (Err e, s)
    | (None, s) =>
        let sequence := ss_nextFileID s + 1 in
        (Ok (file_id (ss_fileIncarnation s) sequence),
         mkSession (ss_ptr s) (ss_id s) (ss_retired s) (ss_fileIncarnation s) sequence)
    end.

(** The server's own bound on handles: the handle is entered, or refused. *)
Definition enter_handle (p : nat) (server : handleServer) : option handleServer :=
  let owners := Z.of_nat (size (handleOwners server)) + sv_others server in
  let limits := sv_limits server in
  if (MaxHandles limits <=? owners)
     || (MaxUnresolvedOwners limits <=? owners + deleteRecoverySlots server)
     || (Z.quot (MaxDiagnosticBytes limits) diagnosticOwnerBytes
           <=? owners + deleteRecoverySlots server + usedDiagnosticSlots server)
  then None
  else Some (mkServer limits ({[p]} ∪ handleOwners server) (sv_others server)
               (deleteRecoverySlots server) (usedDiagnosticSlots server)).

Definition reserveFileHandle (limit : Z) (nonce : result Z) (a : option authoritySession)
    (s : smbSession) (server : option handleServer)
    : comp tree (result nat * smbSession * option handleServer) :=
  let! t := gets (λ t, t) in
  if fileStopping t || (fileActive t =? 0) || (limit <=? Z.of_nat (size (handles t)))
  then ret (Err (Errno EMFILE), s, server)
  else
    let (drawn, s) := next_file_id nonce s in
    match drawn with
    | Err e => ret (Err e, s, server)
    | Ok id =>
        let identity := match a with Some a => as_identity a | None => 0 end in
        let handle := mkHandle id handleReserved (tr_id t) (ss_id s) (ss_ptr s) identity 0 false
                        false 0 [] None None false in
        let p := size (tr_heap t) in
        let entered := match server with
                       | None => Some None
                       | Some server => Some <$> enter_handle p server
                       end in
        match entered with
        | None => ret (Err (Errno EMFILE), s, server)
        | Some server =>
            do! put_handle p handle in
            do! modify (λ t, set_handles (<[id := p]> (handles t)) t) in
            ret (Ok p, s, server)
        end
    end.

Definition findFileHandle (id : list Z) (t : tree) : option nat := handles t !! id.

(** [deleting] says that the handle has a [deleteAttempt], which keeps its place
    in the server. *)
Definition releaseFileHandle (p : nat) (deleting : bool) (server : option handleServer)
    : comp tree (option handleServer) :=
  let! h := get_handle p in
  let! table := gets handles in
  if decide (table !! fh_id h = Some p) then
    do! modify (λ t, set_handles (delete (fh_id h) (handles t)) t) in
    ret (match server with
         | Some server =>
             if deleting then Some server
             else Some (mkServer (sv_limits server) (handleOwners server ∖ {[p]})
                          (sv_others server) (deleteRecoverySlots server) (usedDiagnosticSlots server))
         | None => None
         end)
  else ret server.

(** The checks of [bindReference] under its locks; [reference] is the answer of
    [ReferenceNodeID], [None] when the reference does not offer it or fails. *)
Definition bindReference (err : option error) (p : nat) (attrID : Z) (reference : option Z)
    (a : authoritySession) (retired : bool) : comp tree (option error) :=
  let! h := get_handle p in
  let! t := gets (λ t, t) in
  match reference with
  | None => ret (Some (Errno EIO))
  | Some node =>
      if (attrID =? 0) || negb (node =? attrID) || negb (fh_treeID h =? tr_id t)
         || negb (fh_identity h =? as_identity a)
      then ret (Some (Errno EIO))
      else
        match err with
        | Some e => ret (Some e)
        | None =>
            if fileStopping t || retired || as_stopping a || as_closed a || as_expired a
               || negb (bool_decide (handles t !! fh_id h = Some p))
            then ret (Some (Errno ESTALE))
            else do! put_handle p (set_node attrID h) in ret None
        end
  end.

(** [closeFileHandlePrepared], when its cleanup runs. *)
Definition close_begins (p : nat) : comp tree unit :=
  let! h := get_handle p in
  if fh_released h then ret tt else put_handle p (set_close handleCleanupOnly false h).

(** [acceptCloseResult] of a result that says the reference is released;
    [unsettled] says that the error is a [CloseSettlementError]. *)
Definition close_released (p : nat) (unsettled deleting : bool) (server : option handleServer)
    : comp tree (option handleServer) :=
  let! h := get_handle p in
  if unsettled then do! put_handle p (set_close handleBarrierOnly true h) in ret server
  else
    do! put_handle p (set_close (fh_state h) true h) in
    releaseFileHandle p deleting server.

(** ** The transition system

    [GateOther] stands for a reservation by one of the session's other trees,
    [GateRetire] for the end of the session, [GateServer] for what other trees
    and owners do to the server. *)

Record gate := mkGate { g_tree : tree; g_session : smbSession; g_server : option handleServer }.

Inductive gate_event :=
| GateBegin | GateEnd
| GateReserve (nonce : result Z) (a : option authoritySession)
| GateOther (nonce : result Z)
| GateRetire
| GateServer (others slots diagnostics : Z)
| GateBind (err : option error) (p : nat) (attrID : Z) (reference : option Z)
    (a : authoritySession) (retired : bool)
| GateRelease (p : nat) (deleting : bool)
| GateClose (p : nat)
| GateReleased (p : nat) (unsettled deleting : bool)
| GateAdmit (err : option error) (s : smbSession) (a : option authoritySession) (id : list Z)
| GateClaim (n : nat)
| GateFinish (n : nat)
| GateFence (p : nat)
| GateStop.

Definition on_tree {A} (m : comp tree A) : comp gate A := λ g,
  match m (g_tree g) with
  | Some (a, t) => Some (a, mkGate t (g_session g) (g_server g))
  | None => None
  end.
Definition put_session (s : smbSession) (server : option handleServer) : comp gate unit :=
  modify (λ g, mkGate (g_tree g) s server).

(** An event that its caller could not cause now does nothing: a call that ends
    has begun, tickets and handles are held by those who got them, and [wait]
    goes on only when [ready] is closed. *)
Definition gate_step (handleLimit ioLimit : Z) (e : gate_event) : comp gate unit :=
  let! g := gets (λ g, g) in
  let t := g_tree g in
  match e with
  | GateBegin =>
      on_tree (let! ok := beginFileWork (g_session g) in
               if ok then modify (λ t, set_other (tr_other t + 1) t) else ret tt)
  | GateEnd =>
      if 0 <? tr_other t
      then on_tree (do! endFileWorkLocked in modify (λ t, set_other (tr_other t - 1) t))
      else ret tt
  | GateReserve nonce a =>
      let! r := on_tree (reserveFileHandle handleLimit nonce a (g_session g) (g_server g)) in
      let '(_, s, server) := r in put_session s server
  | GateOther nonce => put_session (next_file_id nonce (g_session g)).2 (g_server g)
  | GateRetire =>
      let s := g_session g in
      put_session (mkSession (ss_ptr s) (ss_id s) true (ss_fileIncarnation s) (ss_nextFileID s)) (g_server g)
  | GateServer others slots diagnostics =>
      put_session (g_session g)
        ((λ sv, mkServer (sv_limits sv) (handleOwners sv) others slots diagnostics) <$> g_server g)
  | GateBind err p attrID reference a retired =>
      if decide (is_Some (tr_heap t !! p))
      then on_tree (do! bindReference err p attrID reference a retired in ret tt) else ret tt
  | GateRelease p deleting =>
      if decide (is_Some (tr_heap t !! p))
      then let! server := on_tree (releaseFileHandle p deleting (g_server g)) in
           put_session (g_session g) server
      else ret tt
  | GateClose p =>
      if decide (is_Some (tr_heap t !! p)) then on_tree (close_begins p) else ret tt
  | GateReleased p unsettled deleting =>
      if decide (is_Some (tr_heap t !! p))
      then let! server := on_tree (close_released p unsettled deleting (g_server g)) in
           put_session (g_session g) server
      else ret tt
  | GateAdmit err s a id => on_tree (do! admitFileIO err s a id ioLimit in ret tt)
  | GateClaim n =>
      match tr_tickets t !! n with
      | Some tk => if tk_ready tk then on_tree (do! claimFileIO n in ret tt) else ret tt
      | None => ret tt
      end
  | GateFinish n =>
      if decide (is_Some (tr_tickets t !! n)) then on_tree (finishFileIO n) else ret tt
  | GateFence p =>
      if decide (is_Some (tr_heap t !! p)) then on_tree (do! fenceHandleFileIO p in ret tt) else ret tt
  | GateStop => on_tree (do! fenceFileWork in ret tt)
  end.

Fixpoint gate_run (handleLimit ioLimit : Z) (events : list gate_event) : comp gate unit :=
  match events with
  | [] => ret tt
  | e :: events => do! gate_step handleLimit ioLimit e in gate_run handleLimit ioLimit events
  end.

Definition newTree (id sessionID : Z) : tree :=
  mkTree id sessionID false 0 None ∅ ∅ [] 0 ∅ 0.
