(* ===== verification/SmbGateInv.v ===== *)
(** * The turns of a handle: the invariant

    What holds of the tree of [SmbFileGate] between two operations, and that
    every operation keeps it without panicking. *)

From S2P Require Import Prelude Bytes WireHeader WireRequests Errors Identity Ranges SmbConnection SmbFileGate.

(** The tickets a handle holds, first the one whose turn it is. *)
Definition held (h : fileHandle) : list nat := option_list (ioRunning h) ++ ioQueue h.

Definition total (heap : gmap nat fileHandle) : Z := msum (λ _ h, zlen (held h)) heap.

(** ** The invariant *)

Section Invariant.
Context (limit : Z) (tickets : list fileIOTicket) (chans : nat) (closed : gset nat).

Record handle_ok (p : nat) (h : fileHandle) : Prop := {
  ho_sorted : StronglySorted lt (held h);
  ho_held : ∀ n, n ∈ held h →
    ∃ tk, tickets !! n = Some tk ∧ tk_handle tk = p ∧ tk_complete tk = false ∧ tk_err tk = None;
  ho_running : ∀ n tk, ioRunning h = Some n → tickets !! n = Some tk → tk_ready tk = true;
  ho_queue : ∀ n tk, n ∈ ioQueue h → tickets !! n = Some tk →
    tk_ready tk = false ∧ tk_started tk = false;
  ho_idle : match ioRunning h with
            | None => ioIdle h = None ∧ ioQueue h = []
            | Some _ => ∃ c, ioIdle h = Some c ∧ (c < chans)%nat ∧ c ∉ closed
            end;
  ho_fenced : ioFenced h = true →
    ioQueue h = []
    ∧ ∀ n tk, ioRunning h = Some n → tickets !! n = Some tk → tk_started tk = true;
  ho_limit : zlen (held h) <= limit;
  ho_sequence : 0 <= ioSequence h <= MaxUint64 }.

(** A ticket and the handle it was made for. *)
Record ticket_ok (n : nat) (tk : fileIOTicket) (h : fileHandle) : Prop := {
  to_waits : tk_complete tk = false → n ∈ held h;
  to_done : tk_complete tk = true → tk_ready tk = true;
  to_sequence : 1 <= tk_sequence tk <= ioSequence h }.
End Invariant.

Record Hinv (limit : Z) (t : tree) : Prop := {
  hv_handle : ∀ p h, tr_heap t !! p = Some h →
    handle_ok limit (tr_tickets t) (tr_chans t) (tr_closed t) p h;
  hv_ticket : ∀ n tk, tr_tickets t !! n = Some tk →
    ∃ h, tr_heap t !! tk_handle tk = Some h ∧ ticket_ok n tk h;
  hv_order : ∀ n n' tk tk', tr_tickets t !! n = Some tk → tr_tickets t !! n' = Some tk' →
    tk_handle tk = tk_handle tk' → (n < n')%nat → tk_sequence tk < tk_sequence tk';
  hv_idle : ∀ p p' h h' c, tr_heap t !! p = Some h → tr_heap t !! p' = Some h' →
    ioIdle h = Some c → ioIdle h' = Some c → p = p';
  hv_closed : ∀ c, c ∈ tr_closed t → (c < tr_chans t)%nat;
  hv_table : ∀ id p, handles t !! id = Some p → ∃ h, tr_heap t !! p = Some h ∧ fh_id h = id;
  hv_heap : ∀ p, is_Some (tr_heap t !! p) ↔ (p < size (tr_heap t))%nat }.

(** The channel of the work count: there is one while there is work, open, and
    it is no handle's. *)
Record Aok (t : tree) : Prop := {
  ao_none : fileActive t = 0 → fileIdle t = None;
  ao_idle : fileActive t ≠ 0 → ∃ c, fileIdle t = Some c ∧ (c < tr_chans t)%nat ∧ c ∉ tr_closed t
    ∧ ∀ p h, tr_heap t !! p = Some h → ioIdle h ≠ Some c }.

Record Tinv (limit : Z) (t : tree) : Prop := {
  ti_handles : Hinv limit t;
  ti_idle : Aok t;
  ti_other : 0 <= tr_other t;
  ti_count : fileActive t = tr_other t + total (tr_heap t) }.

Lemma total_nonneg heap : 0 <= total heap.
Proof. apply msum_nonneg. intros. apply zlen_nonneg. Qed.

(** ** The work count *)

(** What [startFileWork] leaves. *)
Definition begun (t : tree) : tree :=
  let first := fileActive t =? 0 in
  mkTree (tr_id t) (tr_sessionID t) (fileStopping t) (fileActive t + 1)
    (if first then Some (tr_chans t) else fileIdle t) (handles t) (tr_heap t) (tr_tickets t)
    (if first then S (tr_chans t) else tr_chans t) (tr_closed t) (tr_other t).

Lemma startFileWork_eq t : startFileWork t = Some (tt, begun t).
Proof. unfold startFileWork, begun, bind, gets. simpl. by destruct (fileActive t =? 0). Qed.

(** [k] calls of [endFileWorkLocked]: at most the channel of the count has been
    closed. *)
Record ended (k : Z) (t t' : tree) : Prop := {
  en_id : tr_id t' = tr_id t ∧ tr_sessionID t' = tr_sessionID t;
  en_stopping : fileStopping t' = fileStopping t;
  en_active : fileActive t' = fileActive t - k;
  en_handles : handles t' = handles t;
  en_heap : tr_heap t' = tr_heap t;
  en_tickets : tr_tickets t' = tr_tickets t;
  en_chans : tr_chans t' = tr_chans t;
  en_other : tr_other t' = tr_other t;
  en_kept : tr_closed t ⊆ tr_closed t';
  en_closed : ∀ c, c ∈ tr_closed t' → c ∈ tr_closed t ∨ fileIdle t = Some c;
  en_idle : fileIdle t' = fileIdle t ∨ fileIdle t' = None }.

Lemma endFileWorkLocked_spec t :
  Aok t → 1 <= fileActive t → ∃ t', endFileWorkLocked t = Some (tt, t') ∧ ended 1 t t' ∧ Aok t'.
Proof.
  intros [_ Hi] Hp. destruct Hi as (c & Ei & Hc & Ho & Hh); [lia|].
  unfold endFileWorkLocked, bind, modify, gets. cbn [fileActive set_file_work].
  destruct (fileActive t - 1 =? 0) eqn:E; simpl.
  - rewrite Ei. simpl. rewrite decide_False by done. eexists. split; [reflexivity|].
    apply Z.eqb_eq in E. split; [|by constructor; simpl; [|lia]].
    constructor; simpl; try done; [apply union_subseteq_r| |by right].
    intros x [->%elem_of_singleton|?]%elem_of_union; auto.
  - apply Z.eqb_neq in E. eexists. split; [reflexivity|].
    split; [|constructor; simpl; [lia|]; intros _; by exists c].
    constructor; simpl; try done; [by left|by left].
Qed.

Lemma ended_refl t : ended 0 t t.
Proof. constructor; try done; [lia|by left|by left]. Qed.

Lemma ended_trans k k' t1 t2 t3 : ended k t1 t2 → ended k' t2 t3 → ended (k + k') t1 t3.
Proof.
  intros [[H1 H1'] H2 H3 H4 H5 H6 H7 H8 H9 H10 H11] [[G1 G1'] G2 G3 G4 G5 G6 G7 G8 G9 G10 G11].
  constructor; try congruence.
  - split; congruence.
  - lia.
  - by etrans.
  - intros c [Hc|Hc]%G10; [by apply H10|]. destruct H11 as [<-|E]; [by right|congruence].
  - destruct G11 as [->|?]; [done|by right].
Qed.

(** Closing the channel of the count is nothing to the handles. *)
Lemma ended_Hinv limit k t t' : Aok t → ended k t t' → Hinv limit t → Hinv limit t'.
Proof.
  intros Ha [_ _ _ Eh Ep Et Ec _ Hk Hcl _] [H1 H2 H3 H4 H5 H6 H7].
  assert (Hopen : ∀ p h c, tr_heap t !! p = Some h → ioIdle h = Some c → c ∈ tr_closed t' → c ∈ tr_closed t).
  { intros p h c Hp Hc [?|Hf]%Hcl; [done|]. destruct (decide (fileActive t = 0)) as [E|E].
    - by rewrite (ao_none _ Ha E) in Hf.
    - destruct (ao_idle _ Ha E) as (c' & E' & _ & _ & Hn). exfalso. eapply Hn; [done|]. congruence. }
  constructor; rewrite ?Eh, ?Ep, ?Et, ?Ec; try done.
  - intros p h Hp. destruct (H1 p h Hp) as [G1 G2 G3 G4 G5 G6 G7 G8]. constructor; try done.
    destruct (ioRunning h); [|done]. destruct G5 as (c & Hi & Hlt & Ho). exists c.
    split_and!; [done|done|]. intros Hin. by eapply Ho, Hopen.
  - intros c [?|Hf]%Hcl; [by apply H5|]. destruct (decide (fileActive t = 0)) as [E|E].
    + by rewrite (ao_none _ Ha E) in Hf.
    + destruct (ao_idle _ Ha E) as (c' & E' & Hlt & _). congruence.
Qed.

(** A channel is made for the count. *)
Lemma begun_Hinv limit t : Hinv limit t → Hinv limit (begun t).
Proof.
  intros [H1 H2 H3 H4 H5 H6 H7]. assert (tr_chans t <= tr_chans (begun t))%nat.
  { unfold begun. simpl. destruct (_ =? _); lia. }
  constructor; simpl; try done.
  - intros p h Hp. destruct (H1 p h Hp) as [G1 G2 G3 G4 G5 G6 G7 G8]. constructor; try done.
    destruct (ioRunning h); [|done]. destruct G5 as (c & Hi & Hlt & Ho). exists c.
    split_and!; [done| |done]. simpl in *. lia.
  - intros c Hc%H5. simpl in *. lia.
Qed.

Lemma idle_bound limit t p h c :
  Hinv limit t → tr_heap t !! p = Some h → ioIdle h = Some c → (c < tr_chans t)%nat ∧ c ∉ tr_closed t.
Proof.
  intros H Hp Hi. pose proof (ho_idle _ _ _ _ _ _ (hv_handle _ _ H p h Hp)) as Hid.
  destruct (ioRunning h).
  - destruct Hid as (c' & E & ? & ?). by simplify_eq.
  - destruct Hid. congruence.
Qed.

Lemma begun_Aok limit t : Hinv limit t → Aok t → 0 <= fileActive t → Aok (begun t).
Proof.
  intros H [H1 H2] Hp. unfold begun. destruct (fileActive t =? 0) eqn:E.
  - constructor; simpl; [lia|]. intros _. eexists. split_and!; [done|lia| |].
    + intros Hc%(hv_closed _ _ H). lia.
    + intros p h Hh Hi. destruct (idle_bound _ _ _ _ _ H Hh Hi). lia.
  - apply Z.eqb_neq in E. constructor; simpl; [lia|]. intros _. by apply H2.
Qed.

(** ** A change to one handle *)

(** The handle [p] and its tickets change; a channel may be made for it and its
    own closed. *)
Definition local_update (p : nat) (h' : fileHandle) (tickets' : list fileIOTicket) (chans' : nat)
    (closed' : gset nat) (t : tree) : tree :=
  mkTree (tr_id t) (tr_sessionID t) (fileStopping t) (fileActive t) (fileIdle t) (handles t)
    (<[p := h']> (tr_heap t)) tickets' chans' closed' (tr_other t).

Record local_ok (limit : Z) (t : tree) (p : nat) (h h' : fileHandle) (tickets' : list fileIOTicket)
    (chans' : nat) (closed' : gset nat) : Prop := {
  lo_found : tr_heap t !! p = Some h;
  lo_id : fh_id h' = fh_id h;
  lo_handle : handle_ok limit tickets' chans' closed' p h';
  lo_before : ∀ n tk, tr_tickets t !! n = Some tk → tk_handle tk ≠ p → tickets' !! n = Some tk;
  lo_after : ∀ n tk, tickets' !! n = Some tk → tk_handle tk ≠ p → tr_tickets t !! n = Some tk;
  lo_tickets : ∀ n tk, tickets' !! n = Some tk → tk_handle tk = p → ticket_ok n tk h';
  lo_order : ∀ n n' tk tk', tickets' !! n = Some tk → tickets' !! n' = Some tk' →
    tk_handle tk = p → tk_handle tk' = p → (n < n')%nat → tk_sequence tk < tk_sequence tk';
  lo_chans : (tr_chans t <= chans')%nat;
  lo_closed : ∀ c, c ∈ closed' → c ∈ tr_closed t ∨ ioIdle h = Some c;
  lo_idle : ioIdle h' = ioIdle h ∨ ioIdle h' = None
            ∨ ioIdle h' = Some (tr_chans t) ∧ (tr_chans t < chans')%nat }.

Section Local.
Context (limit : Z) (t : tree) (p : nat) (h h' : fileHandle) (tickets' : list fileIOTicket)
  (chans' : nat) (closed' : gset nat).
Hypothesis Hinv_t : Hinv limit t.
Hypothesis Hlocal : local_ok limit t p h h' tickets' chans' closed'.

Lemma local_other_idle q g c :
  q ≠ p → tr_heap t !! q = Some g → ioIdle g = Some c → c ∉ closed' ∧ ioIdle h' ≠ Some c.
Proof.
  intros Hq Hg Hc. destruct (idle_bound _ _ _ _ _ Hinv_t Hg Hc) as [Hlt Ho].
  assert (Hne : ioIdle h ≠ Some c).
  { intros E. apply Hq. exact (hv_idle _ _ Hinv_t _ _ _ _ _ Hg (lo_found _ _ _ _ _ _ _ _ Hlocal) Hc E). }
  split.
  - by intros [?|?]%(lo_closed _ _ _ _ _ _ _ _ Hlocal).
  - destruct (lo_idle _ _ _ _ _ _ _ _ Hlocal) as [->|[->|[-> _]]]; [done|done|].
    intros [= <-]. lia.
Qed.

Lemma local_handle q g :
  q ≠ p → tr_heap t !! q = Some g → handle_ok limit tickets' chans' closed' q g.
Proof.
  intros Hq Hg. destruct (hv_handle _ _ Hinv_t q g Hg) as [G1 G2 G3 G4 G5 G6 G7 G8].
  pose proof (lo_before _ _ _ _ _ _ _ _ Hlocal) as Hb.
  pose proof (lo_after _ _ _ _ _ _ _ _ Hlocal) as Ha.
  pose proof (lo_chans _ _ _ _ _ _ _ _ Hlocal).
  assert (Hback : ∀ n tk, n ∈ held g → tickets' !! n = Some tk → tr_tickets t !! n = Some tk).
  { intros n tk Hn Hn'. destruct (G2 n Hn) as (tk0 & E0 & E1 & _). rewrite <- Hn'. symmetry.
    rewrite E0. apply Hb; [done|congruence]. }
  constructor; try done.
  - intros n Hn. destruct (G2 n Hn) as (tk & E & Eh & ? & ?). exists tk.
    split_and!; [apply Hb; [done|congruence]|done..].
  - intros n tk Hr Hn. apply (G3 n); [done|]. apply Hback; [|done].
    unfold held. rewrite Hr. by left.
  - intros n tk Hr Hn. apply (G4 n); [done|]. apply Hback; [|done]. apply elem_of_app. by right.
  - destruct (ioRunning g); [|done]. destruct G5 as (c & Hi & Hlt & Ho). exists c.
    split_and!; [done|lia|]. by eapply local_other_idle.
  - intros Hf. destruct (G6 Hf) as [Hq' Hst]. split; [done|]. intros n tk Hr Hn. apply (Hst n); [done|].
    apply Hback; [|done]. unfold held. rewrite Hr. by left.
Qed.

Lemma local_Hinv : Hinv limit (local_update p h' tickets' chans' closed' t).
Proof.
  pose proof Hinv_t as [H1 H2 H3 H4 H5 H6 H7].
  pose proof Hlocal as [L1 L2 L3 L4 L5 L6 L7 L8 L9 L10].
  constructor; simpl.
  - intros q g. destruct (decide (q = p)) as [->|Hq].
    + rewrite lookup_insert_eq. by intros [= <-].
    + rewrite lookup_insert_ne by done. by apply local_handle.
  - intros n tk Hn. destruct (decide (tk_handle tk = p)) as [E|E].
    + exists h'. rewrite E, lookup_insert_eq. eauto.
    + rewrite lookup_insert_ne by done. eauto.
  - intros n n' tk tk' Hn Hn' Eh. destruct (decide (tk_handle tk = p)) as [E|E].
    + apply (L7 n n'); [done|done|done|congruence].
    + apply (H3 n n'); eauto. apply L5; [done|congruence].
  - intros q q' g g' c. destruct (decide (q = p)) as [->|Hq], (decide (q' = p)) as [->|Hq'];
      rewrite ?lookup_insert_eq, ?lookup_insert_ne by done; [done| | |by apply H4].
    + intros [= <-] Hg Hc Hc'. exfalso. by eapply (local_other_idle q' g' c).
    + intros Hg [= <-] Hc Hc'. exfalso. by eapply (local_other_idle q g c).
  - intros c [Hc|Hc]%L9; [apply H5 in Hc; lia|]. destruct (idle_bound _ _ _ _ _ Hinv_t L1 Hc). lia.
  - intros id q Hid. destruct (H6 id q Hid) as (g & Hg & Eid).
    destruct (decide (q = p)) as [->|Hq].
    + rewrite lookup_insert_eq. exists h'. split; [done|]. congruence.
    + rewrite lookup_insert_ne by done. by exists g.
  - intros q. rewrite map_size_insert_Some by (by eexists). rewrite <- H7.
    rewrite lookup_insert_is_Some'. split; [|by right]. intros [<-|?]; [by eexists|done].
Qed.

Lemma local_Aok : Aok t → Aok (local_update p h' tickets' chans' closed' t).
Proof.
  pose proof Hlocal as [L1 L2 L3 L4 L5 L6 L7 L8 L9 L10].
  intros [A1 A2]. constructor; simpl; [done|]. intros Hn. destruct (A2 Hn) as (c & Ec & Hlt & Ho & Hh).
  exists c. split_and!; [done|lia| |].
  - intros [?|E]%L9; [done|]. by eapply Hh.
  - intros q g. destruct (decide (q = p)) as [->|Hq].
    + rewrite lookup_insert_eq. intros [= <-]. destruct L10 as [->|[->|[-> _]]]; [by eapply Hh|done|].
      intros [= <-]. lia.
    + rewrite lookup_insert_ne by done. by apply Hh.
Qed.

Lemma local_total :
  total (tr_heap (local_update p h' tickets' chans' closed' t))
  = total (tr_heap t) - zlen (held h) + zlen (held h').
Proof. simpl. unfold total. by rewrite (msum_insert_Some _ _ _ h) by apply Hlocal. Qed.
End Local.

(** ** Changes to the tickets of a handle *)

(** Only tickets of [p] change, and none changes hands or number. *)
Definition retagged (p : nat) (l l' : list fileIOTicket) : Prop :=
  ∀ n, match l !! n, l' !! n with
       | Some a, Some b => tk_handle b = tk_handle a ∧ tk_sequence b = tk_sequence a
                           ∧ (tk_handle a ≠ p → b = a)
       | None, None => True
       | _, _ => False
       end.

Lemma retagged_refl p l : retagged p l l.
Proof. intros n. by destruct (l !! n). Qed.

Lemma retagged_trans p l1 l2 l3 : retagged p l1 l2 → retagged p l2 l3 → retagged p l1 l3.
Proof.
  intros H1 H2 n. specialize (H1 n). specialize (H2 n).
  destruct (l1 !! n), (l2 !! n), (l3 !! n); try done.
  destruct H1 as (? & ? & H1), H2 as (? & ? & H2). split_and!; [congruence..|].
  intros Hp. rewrite H2, H1; [done|done|congruence].
Qed.

Lemma retagged_insert p l n a b :
  l !! n = Some a → tk_handle a = p → tk_handle b = p → tk_sequence b = tk_sequence a →
  retagged p l (<[n := b]> l).
Proof.
  intros Hn Ha Hb Hs m. destruct (decide (m = n)) as [->|Hm].
  - rewrite list_lookup_insert_eq by (by eapply lookup_lt_Some). rewrite Hn.
    split_and!; [congruence|done|done].
  - rewrite list_lookup_insert_ne by done. by destruct (l !! m).
Qed.

Lemma retagged_back p l l' n b :
  retagged p l l' → l' !! n = Some b →
  ∃ a, l !! n = Some a ∧ tk_handle b = tk_handle a ∧ tk_sequence b = tk_sequence a
    ∧ (tk_handle a ≠ p → b = a).
Proof. intros H Hn. specialize (H n). rewrite Hn in H. destruct (l !! n); [by eauto|done]. Qed.

Lemma retagged_forth p l l' n a :
  retagged p l l' → l !! n = Some a →
  ∃ b, l' !! n = Some b ∧ tk_handle b = tk_handle a ∧ tk_sequence b = tk_sequence a
    ∧ (tk_handle a ≠ p → b = a).
Proof. intros H Hn. specialize (H n). rewrite Hn in H. destruct (l' !! n); [by eauto|done]. Qed.

Lemma local_retag limit t p h h' tickets' chans' closed' :
  Hinv limit t → tr_heap t !! p = Some h → retagged p (tr_tickets t) tickets' →
  fh_id h' = fh_id h → ioSequence h' = ioSequence h →
  handle_ok limit tickets' chans' closed' p h' →
  (∀ n tk, tickets' !! n = Some tk → tk_handle tk = p →
     (tk_complete tk = false → n ∈ held h') ∧ (tk_complete tk = true → tk_ready tk = true)) →
  (tr_chans t <= chans')%nat →
  (∀ c, c ∈ closed' → c ∈ tr_closed t ∨ ioIdle h = Some c) →
  (ioIdle h' = ioIdle h ∨ ioIdle h' = None ∨ ioIdle h' = Some (tr_chans t) ∧ (tr_chans t < chans')%nat) →
  local_ok limit t p h h' tickets' chans' closed'.
Proof.
  intros H Hp Hr Hid Hseq Hok Htk Hch Hcl Hi. constructor; try done.
  - intros n tk Hn Hne. destruct (retagged_forth _ _ _ _ _ Hr Hn) as (b & Hb & _ & _ & E).
    by rewrite Hb, E.
  - intros n tk Hn Hne. destruct (retagged_back _ _ _ _ _ Hr Hn) as (a & Ha & Eh & _ & E).
    rewrite Ha, E; [done|congruence].
  - intros n tk Hn Ep. destruct (Htk n tk Hn Ep) as [? ?]. constructor; [done|done|].
    destruct (retagged_back _ _ _ _ _ Hr Hn) as (a & Ha & Eh & Es & _).
    destruct (hv_ticket _ _ H n a Ha) as (g & Hg & [_ _ Hs]).
    rewrite <- Eh, Ep in Hg. simplify_eq. by rewrite Hseq, Es.
  - intros n n' tk tk' Hn Hn' E E' Hlt.
    destruct (retagged_back _ _ _ _ _ Hr Hn) as (a & Ha & Eh & -> & _).
    destruct (retagged_back _ _ _ _ _ Hr Hn') as (a' & Ha' & Eh' & -> & _).
    apply (hv_order _ _ H n n'); [done|done|congruence|done].
Qed.

Lemma elem_held n h : n ∈ held h ↔ ioRunning h = Some n ∨ n ∈ ioQueue h.
Proof.
  unfold held. rewrite elem_of_app. destruct (ioRunning h) as [m|]; simpl.
  - rewrite list_elem_of_singleton. split; (intros [?|?]; [left|by right]); congruence.
  - rewrite elem_of_nil. split; (intros [?|?]; [done|by right]).
Qed.

(** A ticket that is not complete is in turn or waits. *)
Lemma ticket_held limit t n tk :
  Hinv limit t → tr_tickets t !! n = Some tk → tk_complete tk = false →
  ∃ h, tr_heap t !! tk_handle tk = Some h ∧ n ∈ held h ∧ tk_err tk = None
    ∧ (tk_ready tk = true → ioRunning h = Some n)
    ∧ (ioRunning h ≠ Some n → n ∈ ioQueue h ∧ tk_ready tk = false ∧ tk_started tk = false).
Proof.
  intros H Hn Hc. destruct (hv_ticket _ _ H n tk Hn) as (h & Hp & [Hw _ _]). exists h.
  specialize (Hw Hc). destruct (hv_handle _ _ H _ _ Hp) as [_ G2 _ G4 _ _ _ _].
  destruct (G2 n Hw) as (tk' & Hn' & _ & _ & He). assert (tk' = tk) as -> by congruence.
  pose proof (proj1 (elem_held n h) Hw) as Hcase.
  split_and!; try done.
  - intros Hr. destruct Hcase as [?|Hq]; [done|]. destruct (G4 n tk Hq Hn). congruence.
  - intros Hne. destruct Hcase as [?|Hq]; [done|]. split; [done|by apply (G4 n)].
Qed.

(** ** What only ever grows *)

Record handle_evolves (h h' : fileHandle) : Prop := {
  he_id : fh_id h' = fh_id h;
  he_fenced : ioFenced h = true →
    ioFenced h' = true ∧ (∀ n, n ∈ held h' → n ∈ held h) ∧ (held h' = [] ∨ ioIdle h' = ioIdle h) }.

Record ticket_evolves (a b : fileIOTicket) : Prop := {
  te_handle : tk_handle b = tk_handle a;
  te_sequence : tk_sequence b = tk_sequence a;
  te_complete : tk_complete a = true → b = a;
  te_started : tk_started a = true → tk_started b = true }.

(** [fixed] says that no handle is made. *)
Record evolution (fixed : bool) (t t' : tree) : Prop := {
  ev_handle : ∀ p h, tr_heap t !! p = Some h → ∃ h', tr_heap t' !! p = Some h' ∧ handle_evolves h h';
  ev_ticket : ∀ n a, tr_tickets t !! n = Some a → ∃ b, tr_tickets t' !! n = Some b ∧ ticket_evolves a b;
  ev_closed : tr_closed t ⊆ tr_closed t';
  ev_stop : fileStopping t = true →
    fileStopping t' = true ∧ fileActive t' <= fileActive t ∧ (0 <= fileActive t → 0 <= fileActive t')
    ∧ (fileActive t' = 0 ∨ fileIdle t' = fileIdle t);
  ev_fixed : fixed = true → ∀ p, is_Some (tr_heap t' !! p) → is_Some (tr_heap t !! p) }.

Abbreviation evolves := (evolution true).
Abbreviation grows := (evolution false).

Lemma evolves_grows t t' : evolves t t' → grows t t'.
Proof. intros [H1 H2 H3 H4 _]. by constructor. Qed.

#[export] Instance handle_evolves_refl : Reflexive handle_evolves.
Proof. intros h. constructor; [done|]. intros ?. split_and!; auto. Qed.

#[export] Instance handle_evolves_trans : Transitive handle_evolves.
Proof.
  intros h1 h2 h3 [E1 F1] [E2 F2]. constructor; [congruence|]. intros Hf.
  destruct (F1 Hf) as (Hf2 & Hs1 & Hd1), (F2 Hf2) as (Hf3 & Hs2 & Hd2).
  split_and!; [done|by auto|]. destruct Hd2 as [?|E]; [by left|].
  destruct Hd1 as [Hn|E']; [left|right; congruence].
  destruct (held h3) as [|n l]; [done|]. assert (Hin : n ∈ held h2) by (apply Hs2; by left).
  rewrite Hn in Hin. by apply elem_of_nil in Hin.
Qed.

#[export] Instance ticket_evolves_refl : Reflexive ticket_evolves.
Proof. by intros a. Qed.

#[export] Instance ticket_evolves_trans : Transitive ticket_evolves.
Proof.
  intros a b c [] [H1 H2 H3 H4]. constructor; [congruence|congruence| |by auto].
  intros Hc. assert (b = a) as -> by auto. by apply H3.
Qed.

#[export] Instance evolves_trans fixed : Transitive (evolution fixed).
Proof.
  intros t1 t2 t3 [A1 A2 A3 A4 A5] [B1 B2 B3 B4 B5]. constructor.
  - intros p h Hp. destruct (A1 p h Hp) as (h2 & Hp2 & E2), (B1 p h2 Hp2) as (h3 & Hp3 & E3).
    exists h3. split; [done|by etrans].
  - intros n a Ha. destruct (A2 n a Ha) as (b & Hb & E2), (B2 n b Hb) as (c & Hc & E3).
    exists c. split; [done|by etrans].
  - by etrans.
  - intros Hs. destruct (A4 Hs) as (Hs2 & Ha2 & Hp2 & Hi2), (B4 Hs2) as (Hs3 & Ha3 & Hp3 & Hi3).
    split_and!; [done|lia|by auto|]. destruct Hi3 as [?|E]; [by left|].
    destruct Hi2 as [?|E']; [left; lia|right; congruence].
  - by auto.
Qed.

#[export] Instance evolves_refl fixed : Reflexive (evolution fixed).
Proof.
  intros t. constructor; try done.
  - intros p h Hp. by exists h.
  - intros n a Ha. by exists a.
  - intros Hs. split_and!; [done|lia|done|by right].
Qed.

Lemma ended_evolves k t t' :
  0 <= k → 0 <= fileActive t' → Aok t' → ended k t t' → evolves t t'.
Proof.
  intros Hk Hp [_ A2] [_ Es Ea _ Eh Et _ _ Hc _ Hi]. constructor; rewrite ?Eh, ?Et; try done.
  - intros p h Hh. by exists h.
  - intros n a Ha. by exists a.
  - intros Hs. split_and!; [congruence|lia|done|]. destruct Hi as [?|E]; [by right|left].
    destruct (decide (fileActive t' = 0)) as [|Hne]; [done|]. destruct (A2 Hne) as (c & ? & _). congruence.
Qed.

Lemma local_evolves limit t p h h' tickets' chans' closed' :
  local_ok limit t p h h' tickets' chans' closed' →
  handle_evolves h h' → tr_closed t ⊆ closed' →
  (∀ n a b, tr_tickets t !! n = Some a → tickets' !! n = Some b → tk_handle a = p → ticket_evolves a b) →
  (∀ n, is_Some (tr_tickets t !! n) → is_Some (tickets' !! n)) →
  evolves t (local_update p h' tickets' chans' closed' t).
Proof.
  intros [L1 _ _ L4 _ _ _ _ _ _] Hh Hc Ht Hd. constructor; simpl; try done.
  - intros q g Hg. destruct (decide (q = p)) as [->|Hq].
    + rewrite lookup_insert_eq. exists h'. split; [done|]. congruence.
    + rewrite lookup_insert_ne by done. by exists g.
  - intros n a Ha. destruct (Hd n) as [b Hb]; [by eexists|]. exists b. split; [done|].
    destruct (decide (tk_handle a = p)) as [E|E]; [by eapply Ht|].
    rewrite (L4 n a Ha E) in Hb. by simplify_eq.
  - intros Hs. split_and!; [done|lia|done|by right].
  - intros _ q. rewrite lookup_insert_is_Some'. intros [<-|?]; [by eexists|done].
Qed.
