(* ===== verification/SmbGateOps.v ===== *)
(** * The turns of a handle: every operation keeps the invariant

    Each operation of [SmbFileGate] on a tree in which [Tinv] holds ends without
    a panic in one in which it holds, along [evolves]. *)

From S2P Require Import Prelude Bytes WireHeader WireRequests Errors Identity Ranges SmbConnection SmbFileGate SmbGateInv.

(** An operation that does not panic, keeps the invariant, and moves on. *)
Definition keeps {A} (limit : Z) (m : comp tree A) (t : tree) : Prop :=
  ∃ a t', m t = Some (a, t') ∧ Tinv limit t' ∧ evolves t t'.

Lemma Tinv_active limit t : Tinv limit t → 0 <= fileActive t.
Proof. intros [_ _ H1 H2]. pose proof (total_nonneg (tr_heap t)). lia. Qed.

Lemma tree_keeps_ret {A} limit (a : A) t : Tinv limit t → keeps limit (ret a) t.
Proof. intros H. exists a, t. done. Qed.

Lemma Tinv_local limit t p h h' tickets' chans' closed' k t' :
  Tinv limit t → local_ok limit t p h h' tickets' chans' closed' →
  zlen (held h') = zlen (held h) - k →
  ended k (local_update p h' tickets' chans' closed' t) t' → Aok t' → Tinv limit t'.
Proof.
  intros [H1 H2 H3 H4] Hl Hk He Ha. constructor; [|done|..].
  - eapply ended_Hinv; [|exact He|]; [by eapply local_Aok|by eapply local_Hinv].
  - by rewrite (en_other _ _ _ He).
  - rewrite (en_active _ _ _ He), (en_other _ _ _ He), (en_heap _ _ _ He).
    rewrite (local_total limit t p h h' tickets' chans' closed' Hl). simpl. lia.
Qed.

(** The tree after a change to the tickets alone. *)
Lemma set_tickets_local p h tickets' t :
  tr_heap t !! p = Some h →
  set_tickets tickets' t = local_update p h tickets' (tr_chans t) (tr_closed t) t.
Proof. intros Hp. unfold set_tickets, local_update. by rewrite insert_id. Qed.

Lemma insert_same_Some {A} (l : list A) n a b m :
  l !! n = Some a → is_Some (l !! m) → is_Some (<[n := b]> l !! m).
Proof. intros Hn. rewrite !lookup_lt_is_Some. by rewrite length_insert. Qed.

Lemma sorted_running h n : StronglySorted lt (held h) → ioRunning h = Some n → n ∉ ioQueue h.
Proof.
  unfold held. intros Hs Hr Hq. rewrite Hr in Hs. apply StronglySorted_inv in Hs as [_ Hf].
  eapply Forall_forall in Hf; [|exact Hq]. lia.
Qed.

(** A lookup in a changed list of tickets. *)
Lemma insert_cases {A} (l : list A) n b m x :
  <[n := b]> l !! m = Some x → (m = n ∧ x = b ∧ (n < length l)%nat) ∨ (m ≠ n ∧ l !! m = Some x).
Proof.
  intros H. destruct (decide (m = n)) as [->|Hne]; [left|right].
  - apply list_lookup_insert_Some in H as [(_ & -> & ?)|[? _]]; done.
  - by rewrite list_lookup_insert_ne in H.
Qed.

Lemma claim_local limit t n tk h :
  Hinv limit t → tr_tickets t !! n = Some tk → tr_heap t !! tk_handle tk = Some h →
  ioRunning h = Some n → tk_complete tk = false → tk_ready tk = true →
  local_ok limit t (tk_handle tk) h h
    (<[n := mkTicket (tk_handle tk) (tk_sequence tk) (tk_ready tk) true false None]> (tr_tickets t))
    (tr_chans t) (tr_closed t).
Proof.
  intros H Hn Hp Hrun Ec Hr. pose proof (hv_handle _ _ H _ _ Hp) as [G1 G2 G3 G4 G5 G6 G7 G8].
  pose proof (sorted_running h n G1 Hrun) as Hnq.
  assert (Hlt : (n < length (tr_tickets t))%nat) by (by eapply lookup_lt_Some).
  apply local_retag; try done; [by eapply retagged_insert| | |by left|by left].
  - constructor; try done.
    + intros m Hm. destruct (decide (m = n)) as [->|Hne].
      * rewrite list_lookup_insert_eq by done. by eexists.
      * rewrite list_lookup_insert_ne by done. by apply G2.
    + intros m x Hm [(-> & -> & _)|(_ & Hx)]%insert_cases; [done|by eapply G3].
    + intros m x Hm [(-> & _)|(_ & Hx)]%insert_cases; [done|by eapply G4].
    + intros Hf. destruct (G6 Hf) as [Hq Hs]. split; [done|].
      intros m x Hm [(-> & -> & _)|(_ & Hx)]%insert_cases; [done|by eapply Hs].
  - intros m x [(-> & -> & _)|(_ & Hx)]%insert_cases Hm; simpl.
    + split; [|done]. intros _. apply elem_held. by left.
    + destruct (hv_ticket _ _ H m x Hx) as (g & Hg & [? ? _]). rewrite Hm in Hg. by simplify_eq.
Qed.

Lemma claimFileIO_keeps limit n tk t :
  Tinv limit t → tr_tickets t !! n = Some tk → tk_ready tk = true → keeps limit (claimFileIO n) t.
Proof.
  intros HT Hn Hr. unfold claimFileIO, bind, get_ticket, deref. unfold keeps. rewrite Hn.
  destruct (tk_err tk) as [e|] eqn:Ee; [by apply tree_keeps_ret|].
  destruct (tk_complete tk) eqn:Ec; [by apply tree_keeps_ret|].
  destruct (ticket_held _ _ _ _ (ti_handles _ _ HT) Hn Ec) as (h & Hp & Hh & _ & Hrun & _).
  pose proof (claim_local limit t n tk h (ti_handles _ _ HT) Hn Hp (Hrun Hr) Ec Hr) as Hl.
  eexists _, _. split; [reflexivity|]. rewrite (set_tickets_local (tk_handle tk) h) by done. split.
  - eapply Tinv_local; [done|exact Hl| |apply ended_refl|by eapply local_Aok, HT]. lia.
  - eapply local_evolves; [exact Hl|done|done|..].
    + intros m a b Ha [(-> & -> & _)|(_ & Hx)]%insert_cases Hm.
      * rewrite Hn in Ha. simplify_eq. constructor; simpl; congruence.
      * by simplify_eq.
    + intros m. by eapply insert_same_Some.
Qed.

Lemma sorted_sublist (l l' : list nat) : sublist l l' → StronglySorted lt l' → StronglySorted lt l.
Proof.
  induction 1 as [|x l l' H IH|x l l' H IH]; [done|..]; intros [Hs Hf]%StronglySorted_inv.
  - constructor; [by apply IH|]. apply Forall_forall. intros y Hy.
    eapply Forall_forall in Hf; [exact Hf|]. by eapply elem_of_sublist.
  - by apply IH.
Qed.

Lemma StronglySorted_NoDup_lt (l : list nat) : StronglySorted lt l → NoDup l.
Proof.
  induction 1 as [|x l Hs IH Hf]; constructor; [|done].
  intros Hx. eapply Forall_forall in Hf; [|exact Hx]. lia.
Qed.

(** ** A ticket ends *)

Definition completed (e : option error) (tk : fileIOTicket) : fileIOTicket :=
  mkTicket (tk_handle tk) (tk_sequence tk) (tk_ready tk) (tk_started tk) true e.
Definition readied (tk : fileIOTicket) : fileIOTicket :=
  mkTicket (tk_handle tk) (tk_sequence tk) true (tk_started tk) (tk_complete tk) (tk_err tk).

(** What is known of the tickets of [p] that a change leaves alone. *)
Lemma other_ticket limit t p h m x :
  Hinv limit t → tr_heap t !! p = Some h → tr_tickets t !! m = Some x → tk_handle x = p →
  (tk_complete x = false → m ∈ held h) ∧ (tk_complete x = true → tk_ready x = true).
Proof.
  intros H Hp Hx Ex. destruct (hv_ticket _ _ H m x Hx) as (g & Hg & [? ? _]).
  rewrite Ex in Hg. by simplify_eq.
Qed.

Section Finish.
Context (limit : Z) (t : tree) (n : nat) (tk : fileIOTicket) (h : fileHandle).
Hypothesis HH : Hinv limit t.
Hypothesis Hn : tr_tickets t !! n = Some tk.
Hypothesis Hp : tr_heap t !! tk_handle tk = Some h.
Let p := tk_handle tk.

Lemma finish_last e c :
  ioRunning h = Some n → ioQueue h = [] → ioIdle h = Some c →
  local_ok limit t p h (set_gate [] None None h) (<[n := completed e tk]> (tr_tickets t))
    (tr_chans t) ({[c]} ∪ tr_closed t).
Proof using HH Hn Hp.
  intros Hr Hq Hc. pose proof (hv_handle _ _ HH _ _ Hp) as [G1 G2 G3 G4 G5 G6 G7 G8].
  apply local_retag; try done; [by eapply retagged_insert|..|by right; left].
  - constructor; simpl; try done.
    + constructor.
    + by intros m ?%elem_of_nil.
    + by intros m x ?%elem_of_nil.
    + pose proof (zlen_nonneg (held h)). change (zlen (held _)) with 0. lia.
  - intros m x [(-> & -> & _)|(Hne & Hx)]%insert_cases Hm; simpl.
    + split; [done|]. intros _. by eapply G3.
    + destruct (other_ticket _ _ _ _ _ _ HH Hp Hx Hm) as [Hw Hd]. split; [|done].
      intros Hc'. apply Hw, elem_held in Hc'. rewrite Hq in Hc'.
      destruct Hc' as [?|Hin]; [congruence|]. by apply elem_of_nil in Hin.
  - intros x [->%elem_of_singleton|?]%elem_of_union; auto.
Qed.

Lemma finish_next e c next queue ntk :
  ioRunning h = Some n → ioQueue h = next :: queue → ioIdle h = Some c →
  tr_tickets t !! next = Some ntk →
  local_ok limit t p h (set_gate queue (Some next) (Some (tr_chans t)) h)
    (<[next := readied ntk]> (<[n := completed e tk]> (tr_tickets t)))
    (S (tr_chans t)) ({[c]} ∪ tr_closed t).
Proof using HH Hn Hp.
  intros Hr Hq Hc Hnext. pose proof (hv_handle _ _ HH _ _ Hp) as [G1 G2 G3 G4 G5 G6 G7 G8].
  pose proof (sorted_running h n G1 Hr) as Hnq. rewrite Hq in Hnq.
  assert (Hne : next ≠ n) by (intros ->; apply Hnq; by left).
  assert (Hin : next ∈ held h) by (apply elem_held; right; rewrite Hq; by left).
  destruct (G2 next Hin) as (x & Hx & Ehx & Ecx & Eex). assert (x = ntk) as -> by congruence.
  assert (Hheld : held h = n :: next :: queue) by (unfold held; by rewrite Hr, Hq).
  rewrite Hheld in *. apply StronglySorted_inv in G1 as [G1 _].
  pose proof (proj2 (StronglySorted_inv G1)) as Hgt.
  assert (Hnext' : <[n := completed e tk]> (tr_tickets t) !! next = Some ntk)
    by (by rewrite list_lookup_insert_ne).
  assert (Hnq' : ∀ m, m ∈ queue → m ≠ next ∧ m ≠ n).
  { intros m Hm. split; [|intros ->; apply Hnq; by right].
    intros ->. eapply Forall_forall in Hgt; [|exact Hm]. lia. }
  apply local_retag; try done.
  - eapply retagged_trans; by eapply retagged_insert.
  - constructor; simpl; try done.
    + intros m [->|Hm]%elem_of_cons.
      * rewrite list_lookup_insert_eq by (by eapply lookup_lt_Some). by eexists.
      * destruct (Hnq' m Hm). rewrite !list_lookup_insert_ne by done. apply G2. by do 2 right.
    + by intros m x [= <-] [(_ & -> & _)|(? & _)]%insert_cases.
    + intros m x Hm. destruct (Hnq' m Hm). rewrite !list_lookup_insert_ne by done.
      apply G4. rewrite Hq. by right.
    + exists (tr_chans t). destruct (idle_bound _ _ _ _ _ HH Hp Hc). split_and!; [done|lia|].
      intros [E%elem_of_singleton|Hcl%(hv_closed _ _ HH)]%elem_of_union; lia.
    + intros Hf. destruct (G6 Hf) as [E _]. congruence.
    + unfold held. simpl. rewrite !zlen_cons in *. lia.
  - intros m x [(-> & -> & _)|(Hmn & [(-> & -> & _)|(Hm & Hx')]%insert_cases)]%insert_cases Hmp; simpl.
    + rewrite Ecx. split; [by left|done].
    + split; [done|]. intros _. by eapply G3.
    + destruct (other_ticket _ _ _ _ _ _ HH Hp Hx' Hmp) as [Hw Hd]. split; [|done].
      intros Hcm%Hw. rewrite Hheld in Hcm.
      apply elem_of_cons in Hcm as [?|[?|?]%elem_of_cons]; [done|done|by right].
  - lia.
  - intros x [->%elem_of_singleton|?]%elem_of_union; auto.
  - right. right. simpl. split; [done|lia].
Qed.

Lemma finish_waiting e i :
  tk_complete tk = false → ioRunning h ≠ Some n → ioQueue h !! i = Some n →
  local_ok limit t p h (set_gate (delete i (ioQueue h)) (ioRunning h) (ioIdle h) h)
    (<[n := readied (completed e tk)]> (tr_tickets t)) (tr_chans t) (tr_closed t).
Proof using HH Hn Hp.
  intros Hcomp Hr Hi. pose proof (hv_handle _ _ HH _ _ Hp) as [G1 G2 G3 G4 G5 G6 G7 G8].
  pose proof (delete_Permutation _ _ _ Hi) as Hperm.
  assert (Hsub : sublist (delete i (ioQueue h)) (ioQueue h)) by apply sublist_delete.
  assert (Hin : n ∈ ioQueue h) by (by eapply list_elem_of_lookup_2).
  assert (Hnq : n ∉ delete i (ioQueue h)).
  { unfold held in G1. apply StronglySorted_app_1_r in G1. apply StronglySorted_NoDup_lt in G1.
    rewrite Hperm in G1. by apply NoDup_cons in G1 as [? _]. }
  assert (Hrun : ∀ m, ioRunning h = Some m → m ≠ n) by congruence.
  assert (Hkeep : ∀ m, m ∈ held h → m ≠ n → m ∈ held (set_gate (delete i (ioQueue h)) (ioRunning h) (ioIdle h) h)).
  { intros m Hm Hne. apply elem_held in Hm as [?|Hm]; apply elem_held; [by left|right]. simpl.
    rewrite Hperm in Hm. by apply elem_of_cons in Hm as [?|?]. }
  assert (Hback : ∀ m, m ∈ held (set_gate (delete i (ioQueue h)) (ioRunning h) (ioIdle h) h) → m ∈ held h ∧ m ≠ n).
  { intros m [Hm|Hm]%elem_held; simpl in Hm.
    - split; [apply elem_held; by left|by apply Hrun].
    - split; [apply elem_held; right; rewrite Hperm; by right|congruence]. }
  apply local_retag; try done; [by eapply retagged_insert|..|by left|by left].
  - constructor; simpl; try done.
    + eapply sorted_sublist; [|exact G1]. by apply sublist_app.
    + intros m [Hm Hne]%Hback. rewrite list_lookup_insert_ne by done. by apply G2.
    + intros m x Hm [(-> & _)|(_ & Hx)]%insert_cases; [done|by eapply G3].
    + intros m x Hm [(-> & _)|(_ & Hx)]%insert_cases; [done|]. apply (G4 m); [|done].
      rewrite Hperm. by right.
    + destruct (ioRunning h); [done|]. destruct G5 as [_ E]. by rewrite E in Hi.
    + intros Hf. destruct (G6 Hf) as [E _]. by rewrite E in Hi.
    + unfold held in *. simpl. rewrite zlen_app in *. unfold zlen in *. rewrite length_delete by (by eexists). lia.
  - intros m x [(-> & -> & _)|(Hne & Hx)]%insert_cases Hm; simpl; [done|].
    destruct (other_ticket _ _ _ _ _ _ HH Hp Hx Hm) as [Hw Hd]. auto.
Qed.
End Finish.

(** A change to one handle that gives up one ticket, and the count with it. *)
Lemma local_end limit (m : comp tree unit) t p h h' tickets' chans' closed' :
  m t = endFileWorkLocked (local_update p h' tickets' chans' closed' t) →
  Tinv limit t → local_ok limit t p h h' tickets' chans' closed' →
  zlen (held h') = zlen (held h) - 1 → handle_evolves h h' → tr_closed t ⊆ closed' →
  (∀ n a b, tr_tickets t !! n = Some a → tickets' !! n = Some b → tk_handle a = p → ticket_evolves a b) →
  (∀ n, is_Some (tr_tickets t !! n) → is_Some (tickets' !! n)) →
  keeps limit m t.
Proof.
  intros Em HT Hl Hk Hh Hc Ht Hd. pose proof HT as [H1 H2 H3 H4].
  set (t1 := local_update p h' tickets' chans' closed' t) in *.
  assert (Ha1 : Aok t1) by (by eapply local_Aok).
  assert (Hpos : 1 <= fileActive t1).
  { simpl. pose proof (total_nonneg (tr_heap t1)) as Hn.
    unfold t1 in Hn. rewrite (local_total limit t p h h' tickets' chans' closed' Hl) in Hn. lia. }
  destruct (endFileWorkLocked_spec t1 Ha1 Hpos) as (t' & E & He & Ha').
  assert (HT' : Tinv limit t') by (by eapply Tinv_local).
  exists tt, t'. rewrite Em. split_and!; [done|done|].
  transitivity t1; [eapply local_evolves; done|].
  eapply ended_evolves; [|by eapply Tinv_active|done|exact He]. lia.
Qed.

(** The ticket at [n] changes and the others do not, or are readied. *)
Lemma tickets_evolve_insert (l : list fileIOTicket) n a b :
  l !! n = Some a → ticket_evolves a b →
  ∀ m x y, l !! m = Some x → <[n := b]> l !! m = Some y → ticket_evolves x y.
Proof.
  intros Hn Hv m x y Hx [(-> & -> & _)|(_ & Hy)]%insert_cases; [congruence|by simplify_eq].
Qed.

Lemma completed_evolves e tk : tk_complete tk = false → ticket_evolves tk (completed e tk).
Proof. intros E. constructor; simpl; congruence. Qed.

Lemma readied_evolves tk : tk_complete tk = false → ticket_evolves tk (readied tk).
Proof. intros E. constructor; simpl; congruence. Qed.

(** The steps of [finish] before the count is given back. *)
Lemma pass_turn_eq t p n h c tk e :
  tr_tickets t !! n = Some tk → tr_heap t !! p = Some h → ioRunning h = Some n →
  ioIdle h = Some c → c ∉ tr_closed t →
  pass_turn p (set_tickets (<[n := completed e tk]> (tr_tickets t)) t) =
  match ioQueue h with
  | [] => Some (tt, local_update p (set_gate [] None None h) (<[n := completed e tk]> (tr_tickets t))
                      (tr_chans t) ({[c]} ∪ tr_closed t) t)
  | next :: queue =>
      match <[n := completed e tk]> (tr_tickets t) !! next with
      | Some ntk =>
          if tk_ready ntk then None
          else Some (tt, local_update p (set_gate queue (Some next) (Some (tr_chans t)) h)
                           (<[next := readied ntk]> (<[n := completed e tk]> (tr_tickets t)))
                           (S (tr_chans t)) ({[c]} ∪ tr_closed t) t)
      | None => None
      end
  end.
Proof.
  intros Hn Hp Hr Hc Ho. unfold pass_turn, bind, get_handle, deref. simpl. rewrite Hp, Hc. simpl.
  rewrite decide_False by done. simpl. destruct (ioQueue h) as [|next queue] eqn:Eq.
  - unfold put_handle, modify, local_update, set_heap. simpl. by rewrite insert_insert_eq.
  - unfold startFileIOLocked, bind, get_handle, deref. simpl. rewrite lookup_insert_eq. simpl.
    unfold close_ready, bind, get_ticket, deref. simpl.
    destruct (<[n := completed e tk]> (tr_tickets t) !! next) as [ntk|]; [|done].
    destruct (tk_ready ntk); [done|]. unfold local_update, set_gate. simpl. by rewrite !insert_insert_eq.
Qed.

Lemma leave_queue_eq t p n h tk e i :
  tr_tickets t !! n = Some tk → tr_heap t !! p = Some h → tk_ready tk = false →
  list_find (λ x, x = n) (ioQueue h) = Some (i, n) →
  leave_queue p n (set_tickets (<[n := completed e tk]> (tr_tickets t)) t) =
  Some (tt, local_update p (set_gate (delete i (ioQueue h)) (ioRunning h) (ioIdle h) h)
              (<[n := readied (completed (Some Canceled) tk)]> (tr_tickets t))
              (tr_chans t) (tr_closed t) t).
Proof.
  intros Hn Hp Hr Hf. assert (Hlt : (n < length (tr_tickets t))%nat) by (by eapply lookup_lt_Some).
  unfold leave_queue, complete_ticket, close_ready, bind, get_handle, get_ticket, deref. simpl.
  rewrite Hp, Hf. simpl. rewrite list_lookup_insert_eq by done. simpl.
  rewrite list_lookup_insert_eq by (by rewrite length_insert). simpl. rewrite Hr.
  unfold put_ticket, modify, local_update, set_tickets. simpl. by rewrite !list_insert_insert_eq.
Qed.

Lemma finish_pass_keeps limit n tk h t :
  Tinv limit t → tr_tickets t !! n = Some tk → tk_complete tk = false →
  tr_heap t !! tk_handle tk = Some h → ioRunning h = Some n →
  keeps limit (λ t, bind (pass_turn (tk_handle tk)) (λ _, endFileWorkLocked)
                 (set_tickets (<[n := completed (tk_err tk) tk]> (tr_tickets t)) t)) t.
Proof.
  intros HT Hn Ec Hp Hr. pose proof (ti_handles _ _ HT) as HH.
  pose proof (hv_handle _ _ HH _ _ Hp) as [G1 G2 G3 G4 G5 G6 G7 G8]. rewrite Hr in G5.
  destruct G5 as (c & Hc & Hlt & Ho).
  pose proof (pass_turn_eq t _ n h c tk (tk_err tk) Hn Hp Hr Hc Ho) as Epass.
  assert (Hheld : held h = n :: ioQueue h) by (unfold held; by rewrite Hr).
  destruct (ioQueue h) as [|next queue] eqn:Eq.
  - eapply local_end; [|exact HT|exact (finish_last _ _ _ _ _ HH Hn Hp (tk_err tk) c Hr Eq Hc)|..].
    + unfold bind. by rewrite Epass.
    + rewrite Hheld. done.
    + constructor; [done|]. intros Hf. split_and!; [done|by intros ? ?%elem_of_nil|by left].
    + apply union_subseteq_r.
    + intros m a b Ha Hb _. eapply tickets_evolve_insert; [exact Hn|by apply completed_evolves|done..].
    + intros m. by eapply insert_same_Some.
  - destruct (G2 next) as (ntk & Hnext & _ & Ecn & _); [apply elem_held; right; rewrite Eq; by left|].
    assert (Hrn : tk_ready ntk = false) by (eapply (G4 next); [rewrite ?Eq; by left|done]).
    assert (Hne : next ≠ n).
    { intros ->. apply (sorted_running h n G1 Hr). rewrite Eq. by left. }
    rewrite list_lookup_insert_ne, Hnext, Hrn in Epass by done.
    eapply local_end;
      [|exact HT|exact (finish_next _ _ _ _ _ HH Hn Hp (tk_err tk) c _ _ _ Hr Eq Hc Hnext)|..].
    + unfold bind. by rewrite Epass.
    + rewrite Hheld. unfold held. simpl. rewrite !zlen_cons. lia.
    + constructor; [done|]. intros Hf. destruct (G6 Hf) as [E _]. congruence.
    + apply union_subseteq_r.
    + intros m a b Ha Hb _. apply insert_cases in Hb as [(-> & -> & _)|(_ & Hb)].
      * rewrite Hnext in Ha. simplify_eq. by apply readied_evolves.
      * eapply tickets_evolve_insert; [exact Hn|by apply completed_evolves|done..].
    + intros m Hm. eapply insert_same_Some; [by rewrite list_lookup_insert_ne|].
      by eapply insert_same_Some.
Qed.

Lemma finish_leave_keeps limit n tk h t :
  Tinv limit t → tr_tickets t !! n = Some tk → tk_complete tk = false →
  tr_heap t !! tk_handle tk = Some h → ioRunning h ≠ Some n →
  keeps limit (λ t, bind (leave_queue (tk_handle tk) n) (λ _, endFileWorkLocked)
                 (set_tickets (<[n := completed (tk_err tk) tk]> (tr_tickets t)) t)) t.
Proof.
  intros HT Hn Ec Hp Hr. pose proof (ti_handles _ _ HT) as HH.
  destruct (ticket_held _ _ _ _ HH Hn Ec) as (h' & Hp' & _ & _ & _ & Hwait).
  assert (h' = h) as -> by congruence. destruct (Hwait Hr) as (Hq & Hrd & _).
  destruct (list_find_elem_of (λ x, x = n) (ioQueue h) n Hq eq_refl) as ((i & x) & Ei).
  pose proof (list_find_Some (λ x, x = n) (ioQueue h) i x) as Hfind.
  apply Hfind in Ei as Hi. destruct Hi as (Hi & -> & _).
  pose proof (leave_queue_eq t _ n h tk (tk_err tk) i Hn Hp Hrd Ei) as Eleave.
  eapply local_end;
    [|exact HT|exact (finish_waiting _ _ _ _ _ HH Hn Hp (Some Canceled) i Ec Hr Hi)|..].
  - unfold bind. by rewrite Eleave.
  - unfold held. simpl. rewrite !zlen_app. unfold zlen. rewrite length_delete by (by eexists).
    apply lookup_lt_Some in Hi. lia.
  - constructor; [done|]. intros Hf. split_and!; [done| |by right].
    intros m [?|Hm]%elem_held; apply elem_held; [by left|right]. simpl in Hm.
    rewrite (delete_Permutation _ _ _ Hi). by right.
  - done.
  - intros m a b Ha Hb _. eapply tickets_evolve_insert; [exact Hn| |done..].
    constructor; simpl; congruence.
  - intros m. by eapply insert_same_Some.
Qed.

Lemma finishFileIO_keeps limit n tk t :
  Tinv limit t → tr_tickets t !! n = Some tk → keeps limit (finishFileIO n) t.
Proof.
  intros HT Hn. pose proof (ti_handles _ _ HT) as HH.
  assert (Hstep : ∀ h, tk_complete tk = false → tr_heap t !! tk_handle tk = Some h → finishFileIO n t =
    bind (if decide (ioRunning h = Some n) then pass_turn (tk_handle tk) else leave_queue (tk_handle tk) n)
      (λ _, endFileWorkLocked) (set_tickets (<[n := completed (tk_err tk) tk]> (tr_tickets t)) t)).
  { intros h Ec Hp. unfold finishFileIO, complete_ticket, bind, get_ticket, get_handle, deref.
    rewrite Hn, Ec. simpl. rewrite Hn. simpl. by rewrite Hp. }
  destruct (tk_complete tk) eqn:Ec.
  { destruct (tree_keeps_ret limit tt t HT) as ([] & t' & E' & ?). exists tt, t'. split; [|done].
    rewrite <- E'. unfold finishFileIO, bind, get_ticket, deref. by rewrite Hn, Ec. }
  destruct (ticket_held _ _ _ _ HH Hn Ec) as (h & Hp & _). specialize (Hstep h eq_refl Hp).
  destruct (decide (ioRunning h = Some n)) as [Hr|Hr].
  - destruct (finish_pass_keeps limit n tk h t HT Hn Ec Hp Hr) as (a & t' & E & ?).
    exists a, t'. by rewrite Hstep.
  - destruct (finish_leave_keeps limit n tk h t HT Hn Ec Hp Hr) as (a & t' & E & ?).
    exists a, t'. by rewrite Hstep.
Qed.

(** ** A ticket is made *)

Lemma snoc_cases {A} (l : list A) b m x :
  (l ++ [b]) !! m = Some x → (m = length l ∧ x = b) ∨ (m < length l)%nat ∧ l !! m = Some x.
Proof.
  intros H. apply lookup_app_Some in H as [H|[Hle H]].
  - right. split; [by eapply lookup_lt_Some|done].
  - left. apply list_lookup_singleton_Some in H as [? <-]. split; [lia|done].
Qed.

Section Admit.
Context (limit : Z) (t : tree) (p : nat) (h : fileHandle) (ready : bool) (chans' : nat).
Hypothesis HH : Hinv limit t.
Hypothesis Hp : tr_heap t !! p = Some h.
Hypothesis Hseq : ioSequence h < MaxUint64.
Hypothesis Hfence : ioFenced h = false.
Hypothesis Hroom : zlen (held h) < limit.
Let n := length (tr_tickets t).
Let tickets' := tr_tickets t ++ [mkTicket p (ioSequence h + 1) ready false false None].

Lemma admit_old m x : tr_tickets t !! m = Some x → tickets' !! m = Some x.
Proof. apply lookup_app_l_Some. Qed.

Lemma admit_held_old m : m ∈ held h → (m < n)%nat.
Proof using HH Hp.
  intros Hm. destruct (ho_held _ _ _ _ _ _ (hv_handle _ _ HH _ _ Hp) m Hm) as (x & Hx & _).
  by eapply lookup_lt_Some.
Qed.

Lemma admit_local h' :
  fh_id h' = fh_id h → ioSequence h' = ioSequence h + 1 → held h' = held h ++ [n] →
  handle_ok limit tickets' chans' (tr_closed t) p h' →
  (tr_chans t <= chans')%nat →
  (ioIdle h' = ioIdle h ∨ ioIdle h' = None ∨ ioIdle h' = Some (tr_chans t) ∧ (tr_chans t < chans')%nat) →
  local_ok limit t p h h' tickets' chans' (tr_closed t).
Proof using HH Hp.
  intros Hid Hs Hh Hok Hch Hi. constructor; try done.
  - intros m x Hx _. by apply admit_old.
  - intros m x [(_ & ->)|(_ & Hx)]%snoc_cases Hne; [by simpl in Hne|done].
  - pose proof (ho_sequence _ _ _ _ _ _ (hv_handle _ _ HH _ _ Hp)).
    intros m x [(-> & ->)|(_ & Hx)]%snoc_cases Hm.
    + constructor; simpl; [|done|lia]. intros _. rewrite Hh. apply elem_of_app. right. by left.
    + destruct (hv_ticket _ _ HH m x Hx) as (g & Hg & [Hw Hd Hsq]). rewrite Hm in Hg. simplify_eq.
      constructor; [|done|lia]. intros Hc. rewrite Hh. apply elem_of_app. left. by apply Hw.
  - intros m m' x x' [(-> & ->)|(Hlt & Hx)]%snoc_cases [(-> & ->)|(Hlt' & Hx')]%snoc_cases E E' Hmm;
      simpl; try lia.
    + destruct (hv_ticket _ _ HH m x Hx) as (g & Hg & [_ _ Hsq]). rewrite E in Hg. simplify_eq. lia.
    + apply (hv_order _ _ HH m m'); [done|done|congruence|done].
  - by left.
Qed.

(** The handle was idle: the turn is the new ticket's. *)
Lemma admit_first :
  ready = true → ioRunning h = None → (tr_chans t < chans')%nat →
  local_ok limit t p h (set_gate (ioQueue h) (Some n) (Some (tr_chans t)) (set_sequence (ioSequence h + 1) h))
    tickets' chans' (tr_closed t).
Proof.
  intros Hrd Hr Hch. pose proof (hv_handle _ _ HH _ _ Hp) as [G1 G2 G3 G4 G5 G6 G7 G8].
  rewrite Hr in G5. destruct G5 as [Hi Hq].
  assert (Hh : held h = []) by (unfold held; by rewrite Hr, Hq).
  apply admit_local; [done|done| | |lia|by right; right].
  - unfold held. simpl. by rewrite Hq, Hr.
  - constructor; unfold held; simpl; rewrite ?Hq; simpl; try done.
    + by repeat constructor.
    + intros m ->%list_elem_of_singleton. unfold tickets'. rewrite lookup_app_r by done.
      rewrite Nat.sub_diag. by eexists.
    + intros m x [= <-] [(_ & ->)|(Hlt & _)]%snoc_cases; [done|]. unfold n in Hlt. lia.
    + by intros m x ?%elem_of_nil.
    + exists (tr_chans t). split_and!; [done|done|]. intros Hc%(hv_closed _ _ HH). lia.
    + congruence.
    + rewrite Hh in Hroom. unfold zlen in *. simpl in *. lia.
    + lia.
Qed.

(** Another ticket has the turn: the new one waits. *)
Lemma admit_waiting r :
  ready = false → ioRunning h = Some r → (tr_chans t <= chans')%nat →
  local_ok limit t p h (set_gate (ioQueue h ++ [n]) (ioRunning h) (ioIdle h) (set_sequence (ioSequence h + 1) h))
    tickets' chans' (tr_closed t).
Proof.
  intros Hrd Hr Hch. pose proof (hv_handle _ _ HH _ _ Hp) as [G1 G2 G3 G4 G5 G6 G7 G8].
  set (h2 := set_gate _ _ _ _).
  assert (Hh2 : held h2 = held h ++ [n]) by (unfold held; simpl; by rewrite app_assoc).
  assert (Hback : ∀ m x, m ∈ held h → tickets' !! m = Some x → tr_tickets t !! m = Some x).
  { intros m x Hm%admit_held_old [(-> & _)|(_ & Hx)]%snoc_cases; [unfold n in Hm; lia|done]. }
  apply admit_local; [done|done|done| |done|by left].
  constructor; rewrite ?Hh2; simpl; try done.
  - apply StronglySorted_app_2; [|done|by repeat constructor].
    intros a b Ha%admit_held_old ->%list_elem_of_singleton. done.
  - intros m [Hm| ->%list_elem_of_singleton]%elem_of_app.
    + destruct (G2 m Hm) as (x & Hx & ?). exists x. split; [by apply admit_old|done].
    + unfold tickets'. rewrite lookup_app_r by done. rewrite Nat.sub_diag. by eexists.
  - intros m x Hm Hx. apply (G3 m); [done|]. apply Hback; [apply elem_held; by left|done].
  - intros m x [Hm| ->%list_elem_of_singleton]%elem_of_app Hx.
    + apply (G4 m); [done|]. apply Hback; [apply elem_held; by right|done].
    + apply snoc_cases in Hx as [(_ & ->)|(Hlt & _)]; [done|]. unfold n in Hlt. lia.
  - rewrite Hr in G5 |- *. destruct G5 as (c & ? & ? & ?). exists c. split_and!; [done|lia|done].
  - congruence.
  - rewrite zlen_app. unfold zlen at 2. simpl. lia.
  - lia.
Qed.
End Admit.

Lemma begun_evolves t : fileStopping t = false → evolves t (begun t).
Proof.
  intros Hs. constructor; simpl; try done.
  - intros p h Hh. by exists h.
  - intros n a Ha. by exists a.
  - congruence.
Qed.

(** A change to one handle that takes one ticket on, counted before. *)
Lemma local_begin {A} limit (m : comp tree A) a t p h h' tickets' chans' :
  m t = Some (a, local_update p h' tickets' chans' (tr_closed t) (begun t)) →
  Tinv limit t → fileStopping t = false → ioFenced h = false →
  local_ok limit (begun t) p h h' tickets' chans' (tr_closed t) →
  zlen (held h') = zlen (held h) + 1 →
  (∀ n a, tr_tickets t !! n = Some a → tickets' !! n = Some a) →
  keeps limit m t.
Proof.
  intros Em HT Hs Hf Hl Hk Ht. pose proof HT as [H1 H2 H3 H4]. pose proof (Tinv_active _ _ HT) as Hpos.
  set (t1 := local_update p h' tickets' chans' (tr_closed t) (begun t)) in *.
  exists a, t1. split_and!; [done|constructor|].
  - eapply local_Hinv; [by apply begun_Hinv|exact Hl].
  - eapply local_Aok; [exact Hl|by eapply begun_Aok].
  - done.
  - unfold t1. rewrite (local_total limit (begun t) p h h' _ _ _ Hl). simpl. lia.
  - transitivity (begun t); [by apply begun_evolves|]. eapply local_evolves; [exact Hl|..].
    + constructor; [apply Hl|congruence].
    + done.
    + intros n x y Hx Hy _. simpl in Hx. rewrite (Ht n x Hx) in Hy. by simplify_eq.
    + intros n [x Hx]. eexists. by apply Ht.
Qed.

Lemma insert_last {A} (l : list A) x y : <[length l := y]> (l ++ [x]) = l ++ [y].
Proof. rewrite <- (Nat.add_0_r (length l)). by rewrite insert_app_r. Qed.

(** What the branch of [admitFileIO] that makes a ticket leaves. *)
Lemma admit_first_eq p n t h :
  tr_heap t !! p = Some h → n = length (tr_tickets t) →
  startFileIOLocked p n
    (begun (set_tickets (tr_tickets t ++ [mkTicket p (ioSequence h + 1) false false false None])
              (set_heap (<[p := set_sequence (ioSequence h + 1) h]> (tr_heap t)) t)))
  = Some (tt, local_update p
                (set_gate (ioQueue h) (Some n) (Some (tr_chans (begun t))) (set_sequence (ioSequence h + 1) h))
                (tr_tickets t ++ [mkTicket p (ioSequence h + 1) true false false None])
                (S (tr_chans (begun t))) (tr_closed t) (begun t)).
Proof.
  intros Hp ->. unfold startFileIOLocked, close_ready, bind, get_handle, get_ticket, deref. simpl.
  rewrite lookup_insert_eq. simpl. rewrite lookup_app_r, Nat.sub_diag by done. simpl.
  unfold put_ticket, modify, set_tickets, local_update. simpl.
  by rewrite insert_last, insert_insert_eq.
Qed.

Lemma admitFileIO_keeps limit err s a id t :
  Tinv limit t → keeps limit (admitFileIO err s a id limit) t.
Proof.
  intros HT. unfold admitFileIO. destruct err as [e|]; [by apply tree_keeps_ret|].
  destruct (Z.ltb_spec limit 1); [by apply tree_keeps_ret|].
  destruct a as [a|]; [|by apply tree_keeps_ret]. unfold keeps, bind at 1, gets.
  destruct (_ || _) eqn:Es; [by apply tree_keeps_ret|]. bool_prop.
  destruct (handles t !! id) as [p|] eqn:Eid; [|by apply tree_keeps_ret].
  destruct (hv_table _ _ (ti_handles _ _ HT) _ _ Eid) as (h & Hp & _).
  pose proof (hv_handle _ _ (ti_handles _ _ HT) _ _ Hp) as Hok.
  unfold bind at 1, get_handle, deref. rewrite Hp.
  destruct (_ || _) eqn:Eh; [by apply tree_keeps_ret|].
  destruct (ioFenced h) eqn:Ef; [by apply tree_keeps_ret|].
  destruct (_ <=? _) eqn:El; [by apply tree_keeps_ret|].
  destruct (ioSequence h =? MaxUint64) eqn:Eq; [by apply tree_keeps_ret|].
  apply Z.leb_gt in El. apply Z.eqb_neq in Eq. destruct (ho_sequence _ _ _ _ _ _ Hok) as [Hs0 Hs1].
  assert (Hroom : zlen (held h) < limit).
  { unfold held. rewrite zlen_app. destruct (ioRunning h); unfold zlen at 1; simpl; lia. }
  pose proof (begun_Hinv limit t (ti_handles _ _ HT)) as HB.
  assert (Hq : ioSequence h < MaxUint64) by lia.
  match goal with |- ∃ a t', ?m t = _ ∧ _ => change (keeps limit m t) end.
  destruct (ioRunning h) as [r|] eqn:Er.
  - eapply (local_begin limit _ (Ok (length (tr_tickets t))));
      [|done|done|exact Ef|exact (admit_waiting limit (begun t) p h false _ HB Hp Hq Ef Hroom r eq_refl Er (le_n _))|..].
    + unfold bind, put_handle, modify. rewrite startFileWork_eq. rewrite Er. unfold local_update. simpl.
      by rewrite insert_insert_eq.
    + unfold held. simpl. rewrite !zlen_app. unfold zlen. simpl. lia.
    + intros m x. apply lookup_app_l_Some.
  - eapply (local_begin limit _ (Ok (length (tr_tickets t))));
      [|done|done|exact Ef|exact (admit_first limit (begun t) p h true _ HB Hp Hq Ef Hroom eq_refl Er (le_n _))|..].
    + unfold bind, put_handle, modify. rewrite startFileWork_eq.
      pose proof (admit_first_eq p _ t h Hp eq_refl) as E. simpl in E |- *. by rewrite E.
    + unfold held. simpl. rewrite Er, zlen_cons. simpl. lia.
    + intros m x. apply lookup_app_l_Some.
Qed.
