(* ===== verification/SmbGateFence.v ===== *)
(** * The fence of a handle

    [fenceHandleFileIO] drops the tickets that have not started: it keeps the
    invariant, and from then on the handle holds at most the one that has. *)

From S2P Require Import Prelude Bytes WireHeader WireRequests Errors Identity Ranges SmbConnection SmbFileGate SmbGateInv SmbGateOps.

(** ** Dropped tickets *)

Definition dropped (tk : fileIOTicket) : fileIOTicket := readied (completed (Some (Errno EBADF)) tk).

Definition drops (l : list nat) (tickets : list fileIOTicket) : list fileIOTicket :=
  imap (λ n tk, if decide (n ∈ l) then dropped tk else tk) tickets.

Lemma drops_lookup l tickets n :
  drops l tickets !! n = (λ tk, if decide (n ∈ l) then dropped tk else tk) <$> tickets !! n.
Proof. apply list_lookup_imap. Qed.

Lemma drops_in l tickets n tk : tickets !! n = Some tk → n ∈ l → drops l tickets !! n = Some (dropped tk).
Proof. intros Hn Hl. rewrite drops_lookup, Hn. simpl. by rewrite decide_True. Qed.

Lemma drops_out l tickets n : n ∉ l → drops l tickets !! n = tickets !! n.
Proof. intros Hl. rewrite drops_lookup. destruct (tickets !! n); simpl; [by rewrite decide_False|done]. Qed.

Lemma drops_nil tickets : drops [] tickets = tickets.
Proof. apply list_eq. intros n. apply drops_out. by intros ?%elem_of_nil. Qed.

Lemma drops_cons n l tickets tk :
  tickets !! n = Some tk → n ∉ l → drops l (<[n := dropped tk]> tickets) = drops (n :: l) tickets.
Proof.
  intros Hn Hl. apply list_eq. intros m. assert (n < length tickets)%nat by (by eapply lookup_lt_Some).
  rewrite !drops_lookup. destruct (decide (m = n)) as [->|Hne].
  - rewrite list_lookup_insert_eq, Hn by done. simpl. by rewrite decide_False, decide_True by (done || by left).
  - rewrite list_lookup_insert_ne by done. destruct (tickets !! m); simpl; [|done]. f_equal.
    destruct (decide (m ∈ l)); [by rewrite decide_True by (by right)|].
    rewrite decide_False; [done|]. by intros [?|?]%elem_of_cons.
Qed.

(** ** The count over changes of the heap and of the tickets *)

Lemma ended_tickets k t t' X : ended k t t' → ended k (set_tickets X t) (set_tickets X t').
Proof. intros []. by constructor. Qed.

Lemma Aok_tickets t X : Aok t → Aok (set_tickets X t).
Proof. intros []. by constructor. Qed.

(** One handle keeps or loses its channel. *)
Lemma update_Aok t p h h' tickets' closed' :
  Aok t → tr_heap t !! p = Some h →
  (∀ c, c ∈ closed' → c ∈ tr_closed t ∨ ioIdle h = Some c) →
  (ioIdle h' = ioIdle h ∨ ioIdle h' = None) →
  Aok (local_update p h' tickets' (tr_chans t) closed' t).
Proof.
  intros [A1 A2] Hp Hc Hi. constructor; simpl; [done|]. intros Hn.
  destruct (A2 Hn) as (c & Ec & Hlt & Ho & Hh). exists c. split_and!; [done|done| |].
  - intros [?|E]%Hc; [done|]. by eapply Hh.
  - intros q g. destruct (decide (q = p)) as [->|Hq].
    + rewrite lookup_insert_eq. intros [= <-]. destruct Hi as [-> | ->]; [by eapply Hh|done].
    + rewrite lookup_insert_ne by done. by apply Hh.
Qed.

Lemma drop_ticket_eq n tk t :
  tr_tickets t !! n = Some tk → tk_ready tk = false →
  drop_ticket n t = endFileWorkLocked (set_tickets (<[n := dropped tk]> (tr_tickets t)) t).
Proof.
  intros Hn Hr. assert (n < length (tr_tickets t))%nat by (by eapply lookup_lt_Some).
  unfold drop_ticket, complete_ticket, close_ready, bind, get_ticket, deref. rewrite Hn. simpl.
  rewrite list_lookup_insert_eq by done. simpl. rewrite Hr.
  unfold put_ticket, modify, set_tickets. simpl. by rewrite list_insert_insert_eq.
Qed.

Lemma drop_loop l : ∀ t,
  Aok t → NoDup l → (∀ n, n ∈ l → ∃ tk, tr_tickets t !! n = Some tk ∧ tk_ready tk = false) →
  zlen l <= fileActive t →
  ∃ t', iter drop_ticket l t = Some (tt, t') ∧ Aok t'
    ∧ ended (zlen l) (set_tickets (drops l (tr_tickets t)) t) t'.
Proof.
  induction l as [|n l IH]; intros t Ha Hd Hl Hz.
  { exists t. split_and!; [done|done|]. rewrite drops_nil. by destruct t; apply ended_refl. }
  apply NoDup_cons in Hd as [Hn Hd]. rewrite zlen_cons in Hz. pose proof (zlen_nonneg l).
  destruct (Hl n) as (tk & Htk & Hr); [by left|].
  destruct (endFileWorkLocked_spec (set_tickets (<[n := dropped tk]> (tr_tickets t)) t))
    as (t1 & E1 & He1 & Ha1); [by apply Aok_tickets|simpl; lia|].
  pose proof (en_tickets _ _ _ He1) as Et1. simpl in Et1.
  destruct (IH t1 Ha1 Hd) as (t' & E' & Ha' & He').
  { intros m Hm. destruct (Hl m) as (x & Hx & Hrx); [by right|]. exists x. split; [|done].
    rewrite Et1, list_lookup_insert_ne; [done|congruence]. }
  { rewrite (en_active _ _ _ He1). simpl. lia. }
  exists t'. split_and!; [|done|].
  - simpl. unfold bind. by rewrite (drop_ticket_eq n tk t Htk Hr), E1.
  - rewrite zlen_cons. rewrite Et1, drops_cons in He' by done.
    eapply ended_trans; [|exact He']. exact (ended_tickets _ _ _ (drops (n :: l) (tr_tickets t)) He1).
Qed.

(** ** The fence *)

Section Fence.
Context (limit : Z) (t : tree) (p : nat) (h : fileHandle).
Hypothesis HH : Hinv limit t.
Hypothesis Hp : tr_heap t !! p = Some h.

(** The tickets that have started stay. *)
Lemma fence_started :
  (∀ n tk, ioRunning h = Some n → tr_tickets t !! n = Some tk → tk_started tk = true) →
  local_ok limit t p h (set_gate [] (ioRunning h) (ioIdle h) (set_fenced h))
    (drops (ioQueue h) (tr_tickets t)) (tr_chans t) (tr_closed t).
Proof.
  intros Hst. pose proof (hv_handle _ _ HH _ _ Hp) as [G1 G2 G3 G4 G5 G6 G7 G8].
  set (h' := set_gate _ _ _ _).
  assert (Hh : ∀ m, m ∈ held h' → ioRunning h = Some m ∧ m ∉ ioQueue h).
  { intros m [Hm|Hm]%elem_held; [|by apply elem_of_nil in Hm]. split; [done|by apply sorted_running]. }
  apply local_retag; try done; [|..|by left|by left].
  - intros m. rewrite drops_lookup. destruct (tr_tickets t !! m) as [x|] eqn:Ex; simpl; [|done].
    destruct (decide (m ∈ ioQueue h)) as [Hm|]; [|done]. split_and!; try done. intros Hx.
    destruct (G2 m) as (y & Hy & Ey & _); [apply elem_held; by right|]. congruence.
  - constructor; simpl; try done.
    + unfold held. simpl. rewrite app_nil_r. destruct (ioRunning h); by repeat constructor.
    + intros m [Hm Hq]%Hh. rewrite drops_out by done. apply G2, elem_held. by left.
    + intros m x Hm. rewrite drops_out by (by apply sorted_running). by apply G3.
    + by intros m x ?%elem_of_nil.
    + destruct (ioRunning h); [done|by destruct G5].
    + intros _. split; [done|]. intros m x Hm. rewrite drops_out by (by apply sorted_running). by apply Hst.
    + unfold held in *. simpl. rewrite zlen_app in *. rewrite zlen_nil. pose proof (zlen_nonneg (ioQueue h)). lia.
  - intros m x Hx Em. destruct (decide (m ∈ ioQueue h)) as [Hm|Hm].
    + destruct (G2 m) as (y & Hy & _); [apply elem_held; by right|].
      rewrite (drops_in _ _ _ y) in Hx by done. by simplify_eq.
    + rewrite drops_out in Hx by done. destruct (other_ticket _ _ _ _ _ _ HH Hp Hx Em) as [Hw Hd].
      split; [|done]. intros Hc%Hw%elem_held. destruct Hc; [|done]. apply elem_held. by left.
Qed.

(** One that has the turn but has not started goes with the rest. *)
Lemma fence_unstarted n tk c :
  ioRunning h = Some n → tr_tickets t !! n = Some tk → ioIdle h = Some c →
  local_ok limit t p h (set_gate [] None None (set_fenced h))
    (drops (ioQueue h) (<[n := completed (Some (Errno EBADF)) tk]> (tr_tickets t)))
    (tr_chans t) ({[c]} ∪ tr_closed t).
Proof.
  intros Hr Hn Hc. pose proof (hv_handle _ _ HH _ _ Hp) as [G1 G2 G3 G4 G5 G6 G7 G8].
  pose proof (sorted_running h n G1 Hr) as Hnq.
  destruct (G2 n) as (y & Hy & Ey & _); [apply elem_held; by left|].
  assert (y = tk) as -> by congruence. clear Hy.
  apply local_retag; try done; [|..|by right; left].
  - eapply (retagged_trans _ _ (<[n := completed (Some (Errno EBADF)) tk]> (tr_tickets t)));
      [by eapply retagged_insert|].
    intros m. rewrite drops_lookup. set (l1 := <[n := completed (Some (Errno EBADF)) tk]> (tr_tickets t)).
    destruct (l1 !! m) as [x|] eqn:Ex; simpl; [|done].
    destruct (decide (m ∈ ioQueue h)) as [Hm|]; [|done]. split_and!; try done. intros Hx.
    apply insert_cases in Ex as [(-> & _)|(_ & Ex)]; [done|].
    destruct (G2 m) as (z & Hz & Ez & _); [apply elem_held; by right|]. congruence.
  - constructor; simpl; try done.
    + constructor.
    + by intros m ?%elem_of_nil.
    + by intros m x ?%elem_of_nil.
    + change (zlen (held _)) with 0. pose proof (zlen_nonneg (held h)). lia.
  - intros m x Hx Em. destruct (decide (m ∈ ioQueue h)) as [Hm|Hm].
    + destruct (G2 m) as (z & Hz & _); [apply elem_held; by right|].
      rewrite (drops_in _ _ _ z) in Hx; [by simplify_eq| |done].
      rewrite list_lookup_insert_ne; [done|congruence].
    + rewrite drops_out in Hx by done. apply insert_cases in Hx as [(-> & -> & _)|(Hne & Hx)]; simpl.
      * split; [done|]. intros _. by eapply G3.
      * destruct (other_ticket _ _ _ _ _ _ HH Hp Hx Em) as [Hw Hd].
        split; [|done]. intros Hcm%Hw%elem_held. destruct Hcm; [congruence|done].
  - intros x [->%elem_of_singleton|?]%elem_of_union; auto.
Qed.
End Fence.

(** The rest of the fence after the ticket in turn has been looked at. *)
Definition fence_tail (p : nat) : comp tree (option nat) :=
  let! h := get_handle p in
  do! iter drop_ticket (ioQueue h) in
  do! put_handle p (set_gate [] (ioRunning h) (ioIdle h) h) in
  ret (ioIdle h).

Lemma fence_tail_spec t t2 p h2 k tickets2 closed2 :
  ended k (local_update p h2 tickets2 (tr_chans t) closed2 t) t2 → Aok t2 →
  NoDup (ioQueue h2) →
  (∀ n, n ∈ ioQueue h2 → ∃ tk, tickets2 !! n = Some tk ∧ tk_ready tk = false) →
  zlen (ioQueue h2) <= fileActive t2 →
  ∃ t4, fence_tail p t2 = Some (ioIdle h2, t4)
    ∧ ended (k + zlen (ioQueue h2))
        (local_update p (set_gate [] (ioRunning h2) (ioIdle h2) h2) (drops (ioQueue h2) tickets2)
           (tr_chans t) closed2 t) t4
    ∧ Aok t4.
Proof.
  intros He Ha Hd Hq Hz. pose proof (en_heap _ _ _ He) as Eh. pose proof (en_tickets _ _ _ He) as Et.
  simpl in Eh, Et. assert (Hp2 : tr_heap t2 !! p = Some h2) by (rewrite Eh; apply lookup_insert_eq).
  rewrite <- Et in Hq. destruct (drop_loop _ t2 Ha Hd Hq Hz) as (t3 & E3 & Ha3 & He3).
  pose proof (en_heap _ _ _ He3) as Eh3. simpl in Eh3.
  set (h' := set_gate [] (ioRunning h2) (ioIdle h2) h2).
  exists (set_heap (<[p := h']> (tr_heap t3)) t3). split_and!.
  - unfold fence_tail, bind, get_handle, deref. by rewrite Hp2, E3.
  - rewrite Et in He3.
    pose proof (ended_trans _ _ _ _ _ (ended_tickets _ _ _ (drops (ioQueue h2) tickets2) He) He3) as []. constructor; simpl in *; try done.
    rewrite Eh3, Eh. by rewrite insert_insert_eq.
  - apply (update_Aok t3 p h2 h' (tr_tickets t3) (tr_closed t3)); [done|by rewrite Eh3|by left|by left].
Qed.

Lemma fence_started_eq t p h :
  tr_heap t !! p = Some h →
  (∀ n tk, ioRunning h = Some n → tr_tickets t !! n = Some tk → tk_started tk = true) →
  (∀ n, ioRunning h = Some n → is_Some (tr_tickets t !! n)) →
  fenceHandleFileIO p t
  = fence_tail p (local_update p (set_fenced h) (tr_tickets t) (tr_chans t) (tr_closed t) t).
Proof.
  intros Hp Hst Hin. unfold fenceHandleFileIO. unfold bind at 1, get_handle, deref. rewrite Hp.
  unfold bind at 1, put_handle, modify. unfold bind at 1, drop_unstarted. unfold bind at 1, get_handle, deref.
  simpl. rewrite lookup_insert_eq. simpl. destruct (ioRunning h) as [n|]; [|done].
  destruct (Hin n eq_refl) as [tk Hn]. unfold bind at 1, get_ticket, deref. simpl. rewrite Hn.
  by rewrite (Hst n tk).
Qed.

Lemma fence_unstarted_eq t p h n tk c :
  tr_heap t !! p = Some h → ioRunning h = Some n → tr_tickets t !! n = Some tk →
  tk_started tk = false → ioIdle h = Some c → c ∉ tr_closed t →
  fenceHandleFileIO p t
  = bind endFileWorkLocked (λ _, fence_tail p)
      (local_update p (set_gate (ioQueue h) None None (set_fenced h))
         (<[n := completed (Some (Errno EBADF)) tk]> (tr_tickets t)) (tr_chans t) ({[c]} ∪ tr_closed t) t).
Proof.
  intros Hp Hr Hn Hs Hc Ho. unfold fenceHandleFileIO. unfold bind at 1, get_handle, deref. rewrite Hp.
  unfold bind at 1, put_handle, modify. unfold bind at 1, drop_unstarted. unfold bind at 1, get_handle, deref.
  simpl. rewrite lookup_insert_eq. simpl. rewrite Hr. unfold bind at 1, get_ticket, deref. simpl.
  rewrite Hn, Hs. unfold complete_ticket, bind, get_ticket, deref. simpl. rewrite Hn. simpl.
  rewrite Hc. simpl. rewrite decide_False by done. unfold put_handle, modify, set_heap. simpl.
  rewrite !insert_insert_eq. done.
Qed.

(** What a caller of the fence is told to wait for. *)
Definition fenced_at (p : nat) (o : option nat) (t : tree) : Prop :=
  ∃ h, tr_heap t !! p = Some h ∧ ioFenced h = true ∧ (held h = [] ∨ ioIdle h = o).

Lemma drops_evolve (q : list nat) (l : list fileIOTicket) :
  (∀ n tk, n ∈ q → l !! n = Some tk → tk_complete tk = false) →
  ∀ n a b, l !! n = Some a → drops q l !! n = Some b → ticket_evolves a b.
Proof.
  intros Hc n a b Ha Hb. rewrite drops_lookup, Ha in Hb. simpl in Hb. injection Hb as <-.
  destruct (decide (n ∈ q)) as [Hq|]; [|done]. pose proof (Hc n a Hq Ha). constructor; simpl; congruence.
Qed.

Lemma drops_is_Some q l n : is_Some (l !! n) → is_Some (drops q l !! n).
Proof. rewrite drops_lookup. intros [x ->]. by eexists. Qed.

(** The change to the handle, and the calls of [endFileWorkLocked] in it. *)
Lemma fence_finish limit t p h h' tickets' closed' k t4 o :
  Tinv limit t → local_ok limit t p h h' tickets' (tr_chans t) closed' →
  zlen (held h') = zlen (held h) - k → 0 <= k →
  ended k (local_update p h' tickets' (tr_chans t) closed' t) t4 → Aok t4 →
  handle_evolves h h' → tr_closed t ⊆ closed' → ioFenced h' = true → ioIdle h' = o →
  (∀ n a b, tr_tickets t !! n = Some a → tickets' !! n = Some b → ticket_evolves a b) →
  (∀ n, is_Some (tr_tickets t !! n) → is_Some (tickets' !! n)) →
  Tinv limit t4 ∧ evolves t t4 ∧ fenced_at p o t4.
Proof.
  intros HT Hl Hz Hk He Ha Hh Hc Hf Ho Ht Hd.
  assert (HT4 : Tinv limit t4) by (by eapply Tinv_local). split_and!; [done|..].
  - etransitivity; [eapply local_evolves; [exact Hl|done|done| |done]|].
    + intros n a b Hna Hnb _. by eapply Ht.
    + eapply ended_evolves; [done|by eapply Tinv_active|done|exact He].
  - exists h'. rewrite (en_heap _ _ _ He). simpl. rewrite lookup_insert_eq. auto.
Qed.

Definition fences_well (limit : Z) (p : nat) (t : tree) : Prop :=
  ∃ o t', fenceHandleFileIO p t = Some (o, t') ∧ Tinv limit t' ∧ evolves t t' ∧ fenced_at p o t'.

Section FenceSpec.
Context (limit : Z) (p : nat) (h : fileHandle) (t : tree).
Hypothesis HT : Tinv limit t.
Hypothesis Hp : tr_heap t !! p = Some h.

Let G := hv_handle _ _ (ti_handles _ _ HT) _ _ Hp.

Lemma fence_nodup : NoDup (ioQueue h).
Proof.
  apply StronglySorted_NoDup_lt. pose proof (ho_sorted _ _ _ _ _ _ G) as Hs. unfold held in Hs.
  by eapply StronglySorted_app_1_r.
Qed.

Lemma fence_active : zlen (held h) <= fileActive t.
Proof.
  rewrite (ti_count _ _ HT). pose proof (ti_other _ _ HT).
  assert (zlen (held h) <= total (tr_heap t)); [|lia].
  apply (msum_lookup_le (λ _ h, zlen (held h)) _ p); [|done]. intros. apply zlen_nonneg.
Qed.

Lemma fence_queued n :
  n ∈ ioQueue h → ∃ tk, tr_tickets t !! n = Some tk ∧ tk_ready tk = false ∧ tk_complete tk = false.
Proof.
  intros Hq. destruct (ho_held _ _ _ _ _ _ G n) as (tk & Hn & _ & Hc & _); [apply elem_held; by right|].
  destruct (ho_queue _ _ _ _ _ _ G n tk Hq Hn). by exists tk.
Qed.

Lemma fence_spec_started :
  (∀ n tk, ioRunning h = Some n → tr_tickets t !! n = Some tk → tk_started tk = true) →
  fences_well limit p t.
Proof.
  intros Hst. pose proof fence_active as Hle. pose proof (zlen_app (option_list (ioRunning h)) (ioQueue h)) as Hlen.
  fold (held h) in Hlen. pose proof (zlen_nonneg (option_list (ioRunning h))).
  destruct (fence_tail_spec t (local_update p (set_fenced h) (tr_tickets t) (tr_chans t) (tr_closed t) t)
    p (set_fenced h) 0 (tr_tickets t) (tr_closed t)) as (t4 & E & He & Ha).
  - apply ended_refl.
  - apply (update_Aok t p h); [apply HT|done|by left|by left].
  - exact fence_nodup.
  - intros n Hq. destruct (fence_queued n Hq) as (tk & ? & ? & _). by exists tk.
  - simpl. lia.
  - exists (ioIdle h), t4. split.
    { rewrite (fence_started_eq t p h); [exact E|done|done|].
      intros n Hr. destruct (ho_held _ _ _ _ _ _ G n) as (tk & ? & _); [apply elem_held; by left|by eexists]. }
    eapply fence_finish;
      [exact HT|exact (fence_started limit t p h (ti_handles _ _ HT) Hp Hst)| | |exact He|exact Ha|..]; try done.
    + simpl in *. rewrite Hlen. unfold held. simpl. rewrite app_nil_r. lia.
    + simpl. pose proof (zlen_nonneg (ioQueue h)). lia.
    + constructor; [done|]. intros Hf. split_and!; [done| |by right].
      intros n [?|Hn]%elem_held; [apply elem_held; by left|by apply elem_of_nil in Hn].
    + apply drops_evolve. intros n tk Hq Hn. destruct (fence_queued n Hq) as (x & ? & _ & ?). congruence.
    + intros n. apply drops_is_Some.
Qed.

Lemma fence_spec_unstarted n tk :
  ioRunning h = Some n → tr_tickets t !! n = Some tk → tk_started tk = false → fences_well limit p t.
Proof.
  intros Hr Hn Hs. pose proof fence_active as Hle. pose proof (ti_handles _ _ HT) as HH.
  pose proof (ho_idle _ _ _ _ _ _ G) as Hidle. rewrite Hr in Hidle. destruct Hidle as (c & Hc & _ & Ho).
  assert (Hheld : held h = n :: ioQueue h) by (unfold held; by rewrite Hr). rewrite Hheld, zlen_cons in Hle.
  pose proof (sorted_running h n (ho_sorted _ _ _ _ _ _ G) Hr) as Hnq. pose proof (zlen_nonneg (ioQueue h)).
  assert (Hcomp : tk_complete tk = false).
  { destruct (ho_held _ _ _ _ _ _ G n) as (x & Hx & _ & ? & _); [apply elem_held; by left|congruence]. }
  set (h2 := set_gate (ioQueue h) None None (set_fenced h)).
  set (tickets2 := <[n := completed (Some (Errno EBADF)) tk]> (tr_tickets t)).
  destruct (endFileWorkLocked_spec (local_update p h2 tickets2 (tr_chans t) ({[c]} ∪ tr_closed t) t))
    as (t2 & E2 & He2 & Ha2).
  { apply (update_Aok t p h); [apply HT|done| |by right].
    intros x [->%elem_of_singleton|?]%elem_of_union; auto. }
  { simpl. lia. }
  destruct (fence_tail_spec t t2 p h2 1 tickets2 ({[c]} ∪ tr_closed t)) as (t4 & E & He & Ha);
    [done|done|exact fence_nodup| |rewrite (en_active _ _ _ He2); simpl; lia|].
  { intros m Hq. destruct (fence_queued m Hq) as (x & ? & ? & _). exists x. split; [|done].
    unfold tickets2. rewrite list_lookup_insert_ne; [done|]. intros ->. by apply Hnq. }
  exists None, t4. split.
  { rewrite (fence_unstarted_eq t p h n tk c) by done. unfold bind. fold h2 tickets2. rewrite E2. exact E. }
  eapply fence_finish;
    [exact HT|exact (fence_unstarted limit t p h HH Hp n tk c Hr Hn Hc)| | |exact He|exact Ha|..]; try done.
  - rewrite Hheld, zlen_cons. simpl. change (zlen (held _)) with 0. lia.
  - simpl. lia.
  - constructor; [done|]. intros Hf. split_and!; [done|by intros ? ?%elem_of_nil|by left].
  - apply union_subseteq_r.
  - intros m a b Hma Hmb. destruct (insert_same_Some (tr_tickets t) n tk (completed (Some (Errno EBADF)) tk) m)
      as [x Hx]; [done|by eexists|].
    transitivity x; [by eapply tickets_evolve_insert; [exact Hn|apply completed_evolves|..]|].
    revert Hx Hmb. apply drops_evolve. intros j y Hq [(-> & _)|(_ & Hy)]%insert_cases; [done|].
    destruct (fence_queued j Hq) as (z & ? & _ & ?). congruence.
  - intros m Hm. apply drops_is_Some. by eapply insert_same_Some.
Qed.

Lemma fenceHandleFileIO_spec : fences_well limit p t.
Proof.
  destruct (ioRunning h) as [n|] eqn:Hr; [|apply fence_spec_started; congruence].
  destruct (ho_held _ _ _ _ _ _ G n) as (tk & Hn & _); [apply elem_held; by left|].
  destruct (tk_started tk) eqn:Hs; [|by eapply fence_spec_unstarted].
  apply fence_spec_started. intros m x Hm Hx. congruence.
Qed.
End FenceSpec.
