(* ===== verification/SmbGateTheorems.v ===== *)
(** * The handles of a tree: what holds of every run

    The remaining operations of [SmbFileGate] keep the invariant, and the
    theorems about turns, fences and file identifiers. *)

From S2P Require Import Prelude Bytes WireHeader WireRequests Errors Identity Ranges SmbConnection SmbFileGate SmbGateInv SmbGateOps SmbGateFence.

(** ** The work of a tree *)

Lemma keeps_seq {A B} limit (m : comp tree A) (f : A → comp tree B) t :
  keeps limit m t → (∀ a t', Tinv limit t' → evolves t t' → keeps limit (f a) t') →
  keeps limit (bind m f) t.
Proof.
  intros (a & t1 & E & HT & Hv) Hf. destruct (Hf a t1 HT Hv) as (b & t2 & E2 & HT2 & Hv2).
  exists b, t2. unfold bind. rewrite E. split_and!; [done|done|by etrans].
Qed.

Lemma set_other_Hinv limit n t : Hinv limit t → Hinv limit (set_other n t).
Proof. intros []. by constructor. Qed.

Lemma set_other_Aok n t : Aok t → Aok (set_other n t).
Proof. intros [A1 A2]. constructor; [exact A1|exact A2]. Qed.

Lemma set_other_evolves n t t' : evolves t t' → evolves t (set_other n t').
Proof. intros [H1 H2 H3 H4 H5]. constructor; [exact H1|exact H2|exact H3|exact H4|exact H5]. Qed.

Lemma begin_keeps limit s t :
  Tinv limit t →
  keeps limit (let! ok := beginFileWork s in
               if ok then modify (λ t, set_other (tr_other t + 1) t) else ret tt) t.
Proof.
  intros HT. unfold beginFileWork, keeps, bind, gets.
  destruct (fileStopping t) eqn:Es; [by apply tree_keeps_ret|].
  destruct (ss_retired s); [by apply tree_keeps_ret|]. rewrite startFileWork_eq. simpl.
  pose proof HT as [H1 H2 H3 H4]. pose proof (Tinv_active _ _ HT).
  eexists _, _. split; [reflexivity|]. split.
  - constructor; simpl; [by apply set_other_Hinv, begun_Hinv| |lia|lia].
    by apply set_other_Aok, (begun_Aok limit).
  - by apply set_other_evolves, begun_evolves.
Qed.

Lemma end_keeps limit t :
  Tinv limit t → 0 < tr_other t →
  keeps limit (do! endFileWorkLocked in modify (λ t, set_other (tr_other t - 1) t)) t.
Proof.
  intros HT Ho. pose proof HT as [H1 H2 H3 H4]. pose proof (total_nonneg (tr_heap t)).
  destruct (endFileWorkLocked_spec t H2) as (t' & E & He & Ha); [lia|].
  unfold keeps, bind. rewrite E. eexists _, _. split; [reflexivity|].
  pose proof (en_other _ _ _ He) as Eo. pose proof (en_heap _ _ _ He) as Eh.
  pose proof (en_active _ _ _ He) as Ea. split.
  - constructor; simpl; [|by apply set_other_Aok|lia|rewrite Eh; lia].
    apply set_other_Hinv. exact (ended_Hinv limit 1 t t' H2 He H1).
  - apply set_other_evolves. eapply ended_evolves; [|lia|done|exact He]. lia.
Qed.

(** ** The handle table *)

Lemma release_keeps limit p h deleting server t :
  Tinv limit t → tr_heap t !! p = Some h → keeps limit (releaseFileHandle p deleting server) t.
Proof.
  intros HT Hp. unfold releaseFileHandle, keeps, bind, get_handle, deref, gets. rewrite Hp.
  destruct (decide _) as [Ht|]; [|by apply tree_keeps_ret]. simpl. eexists _, _. split; [reflexivity|].
  destruct HT as [[G1 G2 G3 G4 G5 G6 G7] [] H3 H4]. split; [|by destruct (evolves_refl true t)].
  constructor; [constructor|constructor|..]; simpl; try done.
  intros id q [_ Hq]%lookup_delete_Some. by apply G6.
Qed.

(** A branch that makes no handle. *)
Ltac refused := eexists _, _, _, _; split; [reflexivity|]; split; [done|]; split; [done|]; left; eauto.

Lemma reserve_handle_spec limit hlimit nonce a s server t :
  Tinv limit t → 0 <= limit →
  ∃ r s' server' t', reserveFileHandle hlimit nonce a s server t = Some (r, s', server', t')
    ∧ Tinv limit t' ∧ grows t t'
    ∧ (t' = t ∧ (s' = s ∨ ∃ e, next_file_id nonce s = (e, s'))
       ∨ ∃ id h, next_file_id nonce s = (Ok id, s') ∧ tr_heap t !! size (tr_heap t) = None
           ∧ tr_heap t' = <[size (tr_heap t) := h]> (tr_heap t) ∧ fh_id h = id).
Proof.
  intros HT Hl. unfold reserveFileHandle, bind at 1, gets.
  destruct (_ || _) eqn:E; [refused|].
  destruct (next_file_id nonce s) as [[id|e] s'] eqn:En; [|refused].
  set (h := mkHandle _ _ _ _ _ _ _ _ _ _ _ _ _ _). set (p := size (tr_heap t)).
  destruct (match server with None => _ | Some _ => _ end) as [sv|]; [|refused].
  unfold put_handle, modify, bind, ret. eexists _, _, _, _. split; [reflexivity|].
  pose proof HT as [[G1 G2 G3 G4 G5 G6 G7] [A1 A2] H3 H4].
  assert (Hfresh : tr_heap t !! p = None).
  { apply eq_None_not_Some. rewrite G7. unfold p. lia. }
  assert (Hold : ∀ q g, tr_heap t !! q = Some g → <[p := h]> (tr_heap t) !! q = Some g).
  { intros q g Hq. rewrite lookup_insert_ne; [done|congruence]. }
  split_and!.
  - constructor; [constructor|constructor|..]; simpl; try done.
    + intros q g [[<- <-]|[_ Hq]]%lookup_insert_Some; [|by apply G1].
      constructor; simpl; try done; [constructor|by intros ? ?%elem_of_nil|by intros ? ? ?%elem_of_nil].
    + intros n tk Hn. destruct (G2 n tk Hn) as (g & Hg & ?). exists g. split; [by apply Hold|done].
    + intros q q' g g' c [[<- <-]|[_ Hq]]%lookup_insert_Some [[<- <-]|[_ Hq']]%lookup_insert_Some; try done.
      by eapply G4.
    + intros id' q [[<- <-]|[_ Hq]]%lookup_insert_Some.
      * exists h. by rewrite lookup_insert_eq.
      * destruct (G6 id' q Hq) as (g & Hg & ?). exists g. split; [by apply Hold|done].
    + intros q. rewrite map_size_insert_None by done. rewrite lookup_insert_is_Some', G7. fold p. lia.
    + intros Hn. destruct (A2 Hn) as (c & ? & ? & ? & Hc). exists c. split_and!; try done.
      intros q g [[<- <-]|[_ Hq]]%lookup_insert_Some; [done|by eapply Hc].
    + unfold total. rewrite msum_insert by done. unfold total in H4. change (zlen (held h)) with 0. lia.
  - constructor; simpl; try done.
    + intros q g Hq. exists g. split; [by apply Hold|done].
    + intros n x Hn. by exists x.
    + intros Hs. split_and!; [done|lia|done|by right].
  - right. by exists id, h.
Qed.

(** A change to a handle that leaves its gate alone. *)
Definition same_gate (h h' : fileHandle) : Prop :=
  fh_id h' = fh_id h ∧ ioSequence h' = ioSequence h ∧ ioQueue h' = ioQueue h
  ∧ ioRunning h' = ioRunning h ∧ ioIdle h' = ioIdle h ∧ ioFenced h' = ioFenced h.

Lemma retag_keeps limit p h h' t :
  Tinv limit t → tr_heap t !! p = Some h → same_gate h h' → keeps limit (put_handle p h') t.
Proof.
  intros HT Hp (Ei & Es & Eq & Er & Ed & Ef).
  assert (Eh : held h' = held h) by (unfold held; by rewrite Er, Eq).
  assert (Hl : local_ok limit t p h h' (tr_tickets t) (tr_chans t) (tr_closed t)).
  { apply local_retag; try done; [apply HT|apply retagged_refl|..|by left|by left].
    - destruct (hv_handle _ _ (ti_handles _ _ HT) _ _ Hp).
      constructor; rewrite ?Eh, ?Es, ?Eq, ?Er, ?Ed, ?Ef; done.
    - intros n tk Hn E. rewrite Eh. exact (other_ticket limit t p h n tk (ti_handles _ _ HT) Hp Hn E). }
  eexists _, _. split; [reflexivity|]. split.
  - eapply Tinv_local; [exact HT|exact Hl| |apply ended_refl|by eapply local_Aok, HT].
    by rewrite Eh, Z.sub_0_r.
  - eapply local_evolves; [exact Hl| |done| |done].
    + constructor; [done|]. rewrite Ef, Eh, Ed. intros Hf. split_and!; [done|done|by right].
    + intros n x y Hx Hy _. by simplify_eq.
Qed.

Lemma bind_keeps limit err p h attrID reference a retired t :
  Tinv limit t → tr_heap t !! p = Some h → keeps limit (bindReference err p attrID reference a retired) t.
Proof.
  intros HT Hp. unfold bindReference, keeps, bind at 1, get_handle, deref. rewrite Hp.
  unfold bind at 1, gets. destruct reference as [node|]; [|by apply tree_keeps_ret].
  destruct (_ || _); [by apply tree_keeps_ret|]. destruct err; [by apply tree_keeps_ret|].
  destruct (_ || _); [by apply tree_keeps_ret|].
  apply (keeps_seq limit (put_handle p (set_node attrID h)) (λ _, ret None)); [by eapply retag_keeps|].
  intros _ t' HT' _. by apply tree_keeps_ret.
Qed.

Lemma close_begins_keeps limit p h t :
  Tinv limit t → tr_heap t !! p = Some h → keeps limit (close_begins p) t.
Proof.
  intros HT Hp. unfold close_begins, keeps, bind, get_handle, deref. rewrite Hp.
  destruct (fh_released h); [by apply tree_keeps_ret|by eapply retag_keeps].
Qed.

Lemma close_released_keeps limit p h unsettled deleting server t :
  Tinv limit t → tr_heap t !! p = Some h → keeps limit (close_released p unsettled deleting server) t.
Proof.
  intros HT Hp. unfold close_released, keeps, bind at 1, get_handle, deref. rewrite Hp.
  destruct unsettled.
  - apply (keeps_seq limit (put_handle p _) (λ _, ret server)); [by eapply retag_keeps|].
    intros _ t' HT' _. by apply tree_keeps_ret.
  - apply (keeps_seq limit (put_handle p _) (λ _, releaseFileHandle p deleting server)); [by eapply retag_keeps|].
    intros _ t' HT' Hv. destruct (ev_handle _ _ _ Hv p h Hp) as (h' & Hp' & _). by eapply release_keeps.
Qed.

Lemma fenceFileWork_spec limit t :
  Tinv limit t →
  ∃ t', fenceFileWork t = Some (fileIdle t', t') ∧ Tinv limit t' ∧ evolves t t' ∧ fileStopping t' = true.
Proof.
  intros HT. set (t1 := set_file_work true (fileActive t) (fileIdle t) t).
  assert (HT1 : Tinv limit t1) by (by destruct HT as [[] []]).
  assert (Hv1 : evolves t t1).
  { constructor; simpl; try done.
    - intros p h Hp. by exists h.
    - intros n a Ha. by exists a.
    - intros _. split_and!; [done|lia|done|by right]. }
  destruct (iter_rel (λ p, do! fenceHandleFileIO p in ret tt)
    (λ t', Tinv limit t' ∧ evolves t1 t') evolves (snd <$> map_to_list (handles t))) with (s := t1)
    as (t' & E & [HT' Hv'] & _); [|done|].
  { intros p t' Hp [HT' Hv']. apply list_elem_of_fmap in Hp as ((id & p') & -> & Hp).
    apply elem_of_map_to_list in Hp. destruct (hv_table _ _ (ti_handles _ _ HT) id p' Hp) as (h & Hh & _).
    destruct (ev_handle _ _ _ Hv' p' h Hh) as (h' & Hh' & _).
    destruct (fenceHandleFileIO_spec limit p' h' t' HT' Hh') as (o & t2 & E & HT2 & Hv2 & _).
    exists t2. unfold bind. simpl. rewrite E. split_and!; [done|done|by etrans|done]. }
  exists t'. split_and!; [|done|by etrans|by apply (ev_stop _ _ _ Hv')].
  transitivity (match iter (λ p, do! fenceHandleFileIO p in ret tt) (snd <$> map_to_list (handles t)) t1 with
                | Some (_, t') => Some (fileIdle t', t')
                | None => None
                end); [reflexivity|by rewrite E].
Qed.

(** ** File identifiers *)

(** The incarnation and the number make the identifier. *)
Lemma file_id_inj i i' k k' :
  is_u64 i → is_u64 i' → is_u64 k → is_u64 k' → file_id i k = file_id i' k' → i = i' ∧ k = k'.
Proof.
  unfold is_u64, file_id. intros Hi Hi' Hk Hk' E.
  apply app_inj_1 in E as [E1 E2]; [|by rewrite !length_le_split].
  apply (f_equal le_combine) in E1, E2. rewrite !le_combine_split in E1, E2.
  rewrite !Z.mod_small in E1, E2 by (change (256 ^ Z.of_nat 8) with 18446744073709551616; lia). done.
Qed.

Record Uinv (heap : gmap nat fileHandle) (s : smbSession) : Prop := {
  ui_next : 0 <= ss_nextFileID s < MaxUint64;
  ui_incarnation : is_u64 (ss_fileIncarnation s);
  ui_id : ∀ p h, heap !! p = Some h →
    ss_fileIncarnation s ≠ 0
    ∧ ∃ k, 1 <= k <= ss_nextFileID s ∧ fh_id h = file_id (ss_fileIncarnation s) k;
  ui_once : ∀ p p' h h', heap !! p = Some h → heap !! p' = Some h' → fh_id h = fh_id h' → p = p' }.

(** The handles and their identifiers are what they were. *)
Definition same_ids (heap heap' : gmap nat fileHandle) : Prop :=
  ∀ p, fh_id <$> heap' !! p = fh_id <$> heap !! p.

Lemma Uinv_same heap heap' s : same_ids heap heap' → Uinv heap s → Uinv heap' s.
Proof.
  intros He [U1 U2 U3 U4].
  assert (Hback : ∀ p h', heap' !! p = Some h' → ∃ h, heap !! p = Some h ∧ fh_id h = fh_id h').
  { intros p h' Hp. specialize (He p). rewrite Hp in He. destruct (heap !! p) as [h|]; [|done].
    exists h. split; [done|]. by injection He. }
  constructor; try done.
  - intros p h' Hp. destruct (Hback p h' Hp) as (h & Hh & <-). eauto.
  - intros p p' h h' Hp Hp' E. destruct (Hback p h Hp) as (g & Hg & Eg), (Hback p' h' Hp') as (g' & Hg' & Eg').
    eapply U4; [done..|congruence].
Qed.

Lemma evolves_ids limit t t' :
  Tinv limit t → Tinv limit t' → evolves t t' → same_ids (tr_heap t) (tr_heap t').
Proof.
  intros HT HT' Hv p. destruct (tr_heap t !! p) as [h|] eqn:Hp.
  - destruct (ev_handle _ _ _ Hv p h Hp) as (h' & -> & Hh). simpl. f_equal. apply Hh.
  - destruct (tr_heap t' !! p) as [h'|] eqn:Hp'; [|done].
    destruct (ev_fixed _ _ _ Hv eq_refl p) as [h Hh]; [by eexists|congruence].
Qed.

Lemma draw_incarnation_spec nonce s err s' heap :
  draw_incarnation nonce s = (err, s') → (∀ n, nonce = Ok n → is_u64 n) → Uinv heap s →
  Uinv heap s' ∧ ss_nextFileID s' = ss_nextFileID s ∧ (err = None → ss_fileIncarnation s' ≠ 0).
Proof.
  intros E Hn [U1 U2 U3 U4]. unfold draw_incarnation in E.
  destruct (Z.eqb_spec (ss_fileIncarnation s) 0) as [Ez|Ez]; [|by simplify_eq].
  destruct nonce as [n|e]; [|by simplify_eq]. injection E as <- <-. split_and!; [|done|].
  - constructor; simpl; [done|by apply Hn| |done]. intros p h Hh. by destruct (U3 p h Hh).
  - simpl. destruct (_ || _) eqn:Eo; [done|]. bool_prop. done.
Qed.

(** The session after an identifier was drawn, or refused. *)
Lemma next_file_id_spec nonce s r s' heap :
  next_file_id nonce s = (r, s') → (∀ n, nonce = Ok n → is_u64 n) → Uinv heap s →
  Uinv heap s' ∧ ∀ id, r = Ok id →
    ss_fileIncarnation s' ≠ 0 ∧ ss_nextFileID s' = ss_nextFileID s + 1
    ∧ id = file_id (ss_fileIncarnation s') (ss_nextFileID s').
Proof.
  intros E Hn HU. unfold next_file_id in E. destruct (_ || _) eqn:E0; [by simplify_eq|]. bool_prop.
  destruct (draw_incarnation nonce s) as [err s1] eqn:Ed.
  destruct (draw_incarnation_spec _ _ _ _ _ Ed Hn HU) as ([U1 U2 U3 U4] & En & Hne).
  destruct err as [e|]; injection E as <- <-; [done|]. simpl. split.
  - constructor; simpl; try done; [lia|]. intros p h Hh. destruct (U3 p h Hh) as (? & k & ? & ?).
    split; [done|]. exists k. split; [lia|done].
  - intros id [= <-]. split_and!; [by apply Hne|lia|done].
Qed.

Lemma Uinv_reserved heap s s' p h :
  Uinv heap s' → ss_nextFileID s' = ss_nextFileID s + 1 → ss_fileIncarnation s' ≠ 0 →
  fh_id h = file_id (ss_fileIncarnation s') (ss_nextFileID s') → heap !! p = None →
  0 <= ss_nextFileID s → Uinv heap s → Uinv (<[p := h]> heap) s'.
Proof.
  intros [U1 U2 U3 U4] En Hne Eid Hp H0 [_ V2 V3 _].
  assert (Hnew : ∀ q g, heap !! q = Some g → fh_id g ≠ fh_id h).
  { intros q g Hq E. destruct (V3 q g Hq) as (_ & k & Hk & Ek). rewrite Ek, Eid in E.
    apply file_id_inj in E as [_ E]; unfold is_u64 in *; lia. }
  constructor; try done.
  - intros q g [[<- <-]|[_ Hq]]%lookup_insert_Some; [|by eapply U3]. split; [done|].
    exists (ss_nextFileID s'). split; [lia|done].
  - intros q q' g g' [[<- <-]|[_ Hq]]%lookup_insert_Some [[<- <-]|[_ Hq']]%lookup_insert_Some E; [done| | |].
    + by destruct (Hnew q' g' Hq').
    + by destruct (Hnew q g Hq).
    + by eapply U4.
Qed.

(** ** Runs *)

Record Ginv (limit : Z) (g : gate) : Prop := {
  gi_tree : Tinv limit (g_tree g);
  gi_ids : Uinv (tr_heap (g_tree g)) (g_session g) }.

(** [rand.Read] fills eight bytes. *)
Definition gate_event_ok (e : gate_event) : Prop :=
  match e with GateReserve (Ok n) _ | GateOther (Ok n) => is_u64 n | _ => True end.

Definition gate_keeps (limit : Z) (m : comp gate unit) (g : gate) : Prop :=
  ∃ g', m g = Some (tt, g') ∧ Ginv limit g' ∧ grows (g_tree g) (g_tree g').

Lemma gate_keeps_ret limit g : Ginv limit g → gate_keeps limit (ret tt) g.
Proof. intros H. by exists g. Qed.

Lemma gate_keeps_tree limit m g :
  Ginv limit g → keeps limit m (g_tree g) → gate_keeps limit (on_tree m) g.
Proof.
  intros [HT HU] ([] & t' & E & HT' & Hv). eexists. unfold on_tree. rewrite E. split; [reflexivity|].
  split; [|by apply evolves_grows]. constructor; [done|]. simpl.
  exact (Uinv_same _ _ _ (evolves_ids _ _ _ HT HT' Hv) HU).
Qed.

Lemma keeps_drop {A} limit (m : comp tree A) t : keeps limit m t → keeps limit (do! m in ret tt) t.
Proof. intros H. apply keeps_seq; [done|]. intros a t' HT _. by apply tree_keeps_ret. Qed.

Lemma gate_reserve_keeps hlimit limit nonce a g :
  0 <= limit → (∀ n, nonce = Ok n → is_u64 n) → Ginv limit g →
  gate_keeps limit (gate_step hlimit limit (GateReserve nonce a)) g.
Proof.
  intros Hl Hn [HT HU].
  destruct (reserve_handle_spec limit hlimit nonce a (g_session g) (g_server g) (g_tree g) HT Hl)
    as (r & s' & server' & t' & E & HT' & Hv & Hcase).
  eexists. split; [unfold gate_step, on_tree, bind, gets; rewrite E; reflexivity|].
  split; [|done]. constructor; [done|]. simpl.
  destruct Hcase as [[-> [->|(e & Ee)]]|(id & h & Ee & Hf & -> & Eid)]; [done|..].
  - by destruct (next_file_id_spec _ _ _ _ _ Ee Hn HU).
  - destruct (next_file_id_spec _ _ _ _ _ Ee Hn HU) as [HU' Hid].
    destruct (Hid id eq_refl) as (Hne & En & Ei).
    eapply Uinv_reserved; [done|done|done|congruence|done|apply HU|done].
Qed.

Lemma gate_session_keeps limit s server g :
  Tinv limit (g_tree g) → Uinv (tr_heap (g_tree g)) s → gate_keeps limit (put_session s server) g.
Proof. intros HT HU. by eexists. Qed.

Lemma gate_keeps_server limit (m : comp tree (option handleServer)) g :
  Ginv limit g → keeps limit m (g_tree g) →
  gate_keeps limit (let! server := on_tree m in put_session (g_session g) server) g.
Proof.
  intros [HT HU] (sv & t' & E & HT' & Hv). eexists. unfold bind, on_tree. rewrite E.
  split; [reflexivity|]. split; [|by apply evolves_grows].
  constructor; [done|]. exact (Uinv_same _ _ _ (evolves_ids _ _ _ HT HT' Hv) HU).
Qed.

Lemma gate_step_keeps hlimit limit e g :
  0 <= limit → gate_event_ok e → Ginv limit g → gate_keeps limit (gate_step hlimit limit e) g.
Proof.
  intros Hl He Hg. pose proof Hg as [HT HU]. destruct e; unfold gate_step, gate_keeps, bind at 1, gets.
  - apply gate_keeps_tree; [done|]. by apply begin_keeps.
  - destruct (Z.ltb_spec 0 (tr_other (g_tree g))); [|by apply gate_keeps_ret].
    apply gate_keeps_tree; [done|]. by apply end_keeps.
  - refine (gate_reserve_keeps hlimit limit nonce a g Hl _ Hg). by intros n ->.
  - apply gate_session_keeps; [done|]. destruct (next_file_id nonce (g_session g)) as [r s'] eqn:E.
    refine (proj1 (next_file_id_spec _ _ _ _ _ E _ HU)). by intros n ->.
  - apply gate_session_keeps; [done|]. by destruct HU.
  - by apply gate_session_keeps.
  - destruct (decide _) as [[h Hp]|]; [|by apply gate_keeps_ret].
    apply gate_keeps_tree; [done|]. by eapply keeps_drop, bind_keeps.
  - destruct (decide _) as [[h Hp]|]; [|by apply gate_keeps_ret].
    apply gate_keeps_server; [done|]. by eapply release_keeps.
  - destruct (decide _) as [[h Hp]|]; [|by apply gate_keeps_ret].
    apply gate_keeps_tree; [done|]. by eapply close_begins_keeps.
  - destruct (decide _) as [[h Hp]|]; [|by apply gate_keeps_ret].
    apply gate_keeps_server; [done|]. by eapply close_released_keeps.
  - apply gate_keeps_tree; [done|]. by apply keeps_drop, admitFileIO_keeps.
  - destruct (tr_tickets (g_tree g) !! n) as [tk|] eqn:Hn; [|by apply gate_keeps_ret].
    destruct (tk_ready tk) eqn:Hr; [|by apply gate_keeps_ret].
    apply gate_keeps_tree; [done|]. by eapply keeps_drop, claimFileIO_keeps.
  - destruct (decide _) as [[tk Hn]|]; [|by apply gate_keeps_ret].
    apply gate_keeps_tree; [done|]. by eapply finishFileIO_keeps.
  - destruct (decide _) as [[h Hp]|]; [|by apply gate_keeps_ret].
    apply gate_keeps_tree; [done|]. apply keeps_drop.
    destruct (fenceHandleFileIO_spec limit p h _ HT Hp) as (o & t' & ? & ? & ? & _). by exists o, t'.
  - apply gate_keeps_tree; [done|]. apply keeps_drop.
    destruct (fenceFileWork_spec limit _ HT) as (t' & ? & ? & ? & _). by eexists _, t'.
Qed.

Lemma gate_run_keeps hlimit limit events : ∀ g,
  0 <= limit → Forall gate_event_ok events → Ginv limit g → gate_keeps limit (gate_run hlimit limit events) g.
Proof.
  induction events as [|e events IH]; intros g Hl He Hg; [by apply gate_keeps_ret|].
  inversion_clear He as [|? ? He1 He2].
  destruct (gate_step_keeps hlimit limit e g Hl He1 Hg) as (g1 & E1 & Hg1 & Hv1).
  destruct (IH g1 Hl He2 Hg1) as (g2 & E2 & Hg2 & Hv2).
  exists g2. cbn. unfold bind. rewrite E1. split_and!; [done|done|by etrans].
Qed.

(** A tree that has just been connected. *)
Definition gate_start (g : gate) : Prop :=
  (∃ id session, g_tree g = newTree id session)
  ∧ 0 <= ss_nextFileID (g_session g) < MaxUint64 ∧ is_u64 (ss_fileIncarnation (g_session g)).

Lemma Ginv_start limit g : gate_start g → Ginv limit g.
Proof.
  intros ((id & ss & E) & Hn & Hi). constructor; rewrite E.
  - constructor; [constructor|constructor|..]; simpl; try done.
    intros p. rewrite map_size_empty, lookup_empty. split; [by intros [? ?]|lia].
  - by constructor.
Qed.

(** The states of a tree. *)
Definition gate_reachable (hlimit limit : Z) (g : gate) : Prop :=
  ∃ g0 events, gate_start g0 ∧ 0 <= limit ∧ Forall gate_event_ok events
    ∧ gate_run hlimit limit events g0 = Some (tt, g).

Lemma gate_reachable_inv hlimit limit g : gate_reachable hlimit limit g → 0 <= limit ∧ Ginv limit g.
Proof.
  intros (g0 & events & Hs & Hl & He & E).
  destruct (gate_run_keeps hlimit limit events g0 Hl He (Ginv_start limit g0 Hs)) as (g' & E' & Hg & _).
  rewrite E in E'. by simplify_eq.
Qed.

(** ** Theorems *)

(** Whose turn it is on a handle: the request may be at the authority. *)
Definition in_turn (t : tree) (n p : nat) : Prop :=
  ∃ tk, tr_tickets t !! n = Some tk ∧ tk_handle tk = p ∧ tk_started tk = true ∧ tk_complete tk = false.

(** C11: requests on one handle take turns.  From a connected tree no sequence of
    operations panics (no channel is closed twice, and none that is nil); in the
    state it ends in at most one request has the turn of a handle; every request
    admitted before it is over, so turns are given in the order of admission;
    whoever waits, waits behind a request whose turn has been announced; a handle
    has at most [limit] of them; and the tree counts exactly these and the calls
    in between. *)
Theorem file_io_turns (hlimit limit : Z) (events : list gate_event) (g0 : gate) :
  0 <= limit → gate_start g0 → Forall gate_event_ok events →
  ∃ g, gate_run hlimit limit events g0 = Some (tt, g)
    ∧ (∀ p n m, in_turn (g_tree g) n p → in_turn (g_tree g) m p → n = m)
    ∧ (∀ p n m tk, in_turn (g_tree g) n p → (m < n)%nat →
         tr_tickets (g_tree g) !! m = Some tk → tk_handle tk = p → tk_complete tk = true)
    ∧ (∀ p h n, tr_heap (g_tree g) !! p = Some h → n ∈ ioQueue h →
         ∃ r tk, ioRunning h = Some r ∧ tr_tickets (g_tree g) !! r = Some tk
           ∧ tk_ready tk = true ∧ tk_complete tk = false)
    ∧ (∀ p h, tr_heap (g_tree g) !! p = Some h → zlen (held h) <= limit)
    ∧ fileActive (g_tree g) = tr_other (g_tree g) + total (tr_heap (g_tree g)).
Proof.
  intros Hl Hs He.
  destruct (gate_run_keeps hlimit limit events g0 Hl He (Ginv_start limit g0 Hs)) as (g & E & [HT _] & _).
  exists g. split; [done|]. pose proof HT as [HH _ _ Hc].
  assert (Hturn : ∀ n p, in_turn (g_tree g) n p → ∃ h, tr_heap (g_tree g) !! p = Some h ∧ ioRunning h = Some n).
  { intros n p (tk & Hn & <- & Hst & Hco). destruct (ticket_held _ _ _ _ HH Hn Hco) as (h & Hp & _ & _ & _ & Hw).
    exists h. split; [done|]. destruct (decide (ioRunning h = Some n)) as [|Hr]; [done|].
    destruct (Hw Hr) as (_ & _ & ?). congruence. }
  split_and!; [..|done].
  - intros p n m (h & Hp & Hr)%Hturn (h' & Hp' & Hr')%Hturn. congruence.
  - intros p n m tk (h & Hp & Hr)%Hturn Hlt Hm <-. destruct (tk_complete tk) eqn:Hco; [done|exfalso].
    destruct (ticket_held _ _ _ _ HH Hm Hco) as (h' & Hp' & Hin & _). simplify_eq.
    pose proof (ho_sorted _ _ _ _ _ _ (hv_handle _ _ HH _ _ Hp)) as Hso. unfold held in Hso, Hin.
    rewrite Hr in Hso, Hin. apply StronglySorted_inv in Hso as [_ Hall].
    apply elem_of_cons in Hin as [->|Hin]; [lia|]. eapply Forall_forall in Hall; [|exact Hin]. lia.
  - intros p h n Hp Hq. destruct (hv_handle _ _ HH _ _ Hp) as [G1 G2 G3 G4 G5 G6 G7 G8].
    destruct (ioRunning h) as [r|] eqn:Hr; [|destruct G5 as [_ G5]; rewrite G5 in Hq; by apply elem_of_nil in Hq].
    destruct (G2 r) as (tk & Htk & _ & ? & _); [apply elem_held; by left|]. exists r, tk.
    split_and!; [done|done|by eapply G3|done].
  - intros p h Hp. apply (ho_limit _ _ _ _ _ _ (hv_handle _ _ HH _ _ Hp)).
Qed.

(** C12: a fenced handle drains.  [fenceHandleFileIO] returns on every handle of a
    reachable tree, and once the channel it hands out is closed, or at once when
    it hands out none, every request ever admitted on the handle is over, and
    stays so: whatever happens in the meantime, closing the handle meets no I/O. *)
Theorem fence_drains (hlimit limit : Z) (g : gate) (p : nat) (h : fileHandle) :
  gate_reachable hlimit limit g → tr_heap (g_tree g) !! p = Some h →
  ∃ o t1, fenceHandleFileIO p (g_tree g) = Some (o, t1)
    ∧ ∀ events g2, Forall gate_event_ok events →
        gate_run hlimit limit events (mkGate t1 (g_session g) (g_server g)) = Some (tt, g2) →
        (∀ c, o = Some c → c ∈ tr_closed (g_tree g2)) →
        ∀ n tk, tr_tickets (g_tree g2) !! n = Some tk → tk_handle tk = p → tk_complete tk = true.
Proof.
  intros [Hl [HT HU]]%gate_reachable_inv Hp.
  destruct (fenceHandleFileIO_spec limit p h _ HT Hp) as (o & t1 & E & HT1 & Hv1 & h1 & Hp1 & Hf1 & Hd1).
  exists o, t1. split; [done|]. intros events g2 He Hr Hclosed n tk Hn Eh.
  set (g1 := mkGate t1 (g_session g) (g_server g)) in *.
  assert (Hg1 : Ginv limit g1).
  { constructor; [done|]. exact (Uinv_same _ _ _ (evolves_ids _ _ _ HT HT1 Hv1) HU). }
  destruct (gate_run_keeps hlimit limit events g1 Hl He Hg1) as (g' & E' & [HT2 _] & Hv2).
  rewrite Hr in E'. simplify_eq. pose proof (ti_handles _ _ HT2) as HH2.
  destruct (tk_complete tk) eqn:Hco; [done|exfalso].
  destruct (ticket_held _ _ _ _ HH2 Hn Hco) as (h2 & Hp2 & Hin & _).
  destruct (ev_handle _ _ _ Hv2 _ _ Hp1) as (h2' & Hp2' & [_ Hfence]). simplify_eq.
  destruct (Hfence Hf1) as (Hf2 & Hsub & Hd2). pose proof (hv_handle _ _ HH2 _ _ Hp2) as G.
  assert (Hi : ioIdle h2 = o).
  { destruct Hd2 as [Hz|Hi]; [rewrite Hz in Hin; by apply elem_of_nil in Hin|].
    destruct Hd1 as [Hz|<-]; [|done]. apply Hsub in Hin. rewrite Hz in Hin. by apply elem_of_nil in Hin. }
  pose proof (ho_idle _ _ _ _ _ _ G) as Hid. destruct (ho_fenced _ _ _ _ _ _ G Hf2) as [Hq _].
  apply elem_held in Hin as [Hrun|Hin]; [|rewrite Hq in Hin; by apply elem_of_nil in Hin].
  rewrite Hrun in Hid. destruct Hid as (c & Ec & _ & Ho). apply Ho, Hclosed. congruence.
Qed.

(** C16: a stopped tree drains.  Once the channel [fenceFileWork] hands out is
    closed, or at once when it hands out none, the tree has no work left and
    never has any again. *)
Theorem stop_drains (hlimit limit : Z) (g : gate) :
  gate_reachable hlimit limit g →
  ∃ o t1, fenceFileWork (g_tree g) = Some (o, t1)
    ∧ ∀ events g2, Forall gate_event_ok events →
        gate_run hlimit limit events (mkGate t1 (g_session g) (g_server g)) = Some (tt, g2) →
        (∀ c, o = Some c → c ∈ tr_closed (g_tree g2)) →
        fileActive (g_tree g2) = 0.
Proof.
  intros [Hl [HT HU]]%gate_reachable_inv.
  destruct (fenceFileWork_spec limit _ HT) as (t1 & E & HT1 & Hv1 & Hs1).
  exists (fileIdle t1), t1. split; [done|]. intros events g2 He Hr Hclosed.
  set (g1 := mkGate t1 (g_session g) (g_server g)) in *.
  assert (Hg1 : Ginv limit g1).
  { constructor; [done|]. exact (Uinv_same _ _ _ (evolves_ids _ _ _ HT HT1 Hv1) HU). }
  destruct (gate_run_keeps hlimit limit events g1 Hl He Hg1) as (g' & E' & [HT2 _] & Hv2).
  rewrite Hr in E'. simplify_eq.
  destruct (ev_stop _ _ _ Hv2 Hs1) as (_ & _ & _ & [?|Hi]); [done|]. simpl in Hi.
  destruct (decide (fileActive (g_tree g') = 0)) as [|Hne]; [done|exfalso].
  destruct (ao_idle _ (ti_idle _ _ HT2) Hne) as (c & Ec & _ & Ho & _).
  apply Ho, Hclosed. congruence.
Qed.

(** C15: a file identifier never passes to another open.  Distinct handles have
    distinct identifiers, the table maps an identifier to the handle it was
    issued for, and an identifier that still resolves later resolves to the same
    handle.  An identifier is the incarnation of its session, which is not zero,
    and a number that is neither zero nor all ones. *)
Theorem file_ids_never_transfer (hlimit limit : Z) (g : gate) :
  gate_reachable hlimit limit g →
  (∀ id p, handles (g_tree g) !! id = Some p → ∃ h, tr_heap (g_tree g) !! p = Some h ∧ fh_id h = id)
  ∧ (∀ p p' h h', tr_heap (g_tree g) !! p = Some h → tr_heap (g_tree g) !! p' = Some h' →
       fh_id h = fh_id h' → p = p')
  ∧ (∀ p h, tr_heap (g_tree g) !! p = Some h →
       ss_fileIncarnation (g_session g) ≠ 0
       ∧ ∃ k, 0 < k < MaxUint64 ∧ fh_id h = file_id (ss_fileIncarnation (g_session g)) k)
  ∧ ∀ events g', Forall gate_event_ok events → gate_run hlimit limit events g = Some (tt, g') →
      ∀ id p p', handles (g_tree g) !! id = Some p → handles (g_tree g') !! id = Some p' → p' = p.
Proof.
  intros [Hl Hg]%gate_reachable_inv. pose proof Hg as [HT HU]. split_and!.
  - apply (hv_table _ _ (ti_handles _ _ HT)).
  - apply (ui_once _ _ HU).
  - intros p h Hp. destruct (ui_id _ _ HU p h Hp) as (? & k & ? & ?). pose proof (ui_next _ _ HU).
    split; [done|]. exists k. split; [lia|done].
  - intros events g' He Hr id p p' Hp Hp'.
    destruct (gate_run_keeps hlimit limit events g Hl He Hg) as (g1 & E1 & [HT1 HU1] & Hv).
    rewrite Hr in E1. simplify_eq.
    destruct (hv_table _ _ (ti_handles _ _ HT) _ _ Hp) as (h & Hh & Eh).
    destruct (hv_table _ _ (ti_handles _ _ HT1) _ _ Hp') as (h' & Hh' & Eh').
    destruct (ev_handle _ _ _ Hv _ _ Hh) as (h2 & Hh2 & [Eid _]).
    eapply (ui_once _ _ HU1); [done..|congruence].
Qed.

(** ** An example

    One handle; three requests are admitted on it, the first has the turn. *)

Definition example_session : smbSession := mkSession 0 9 false 0 0.
Definition example_authority : authoritySession := mkAuthority 3 false false false.
Definition example_gate : gate := mkGate (newTree 5 9) example_session None.

Definition gate_events : list gate_event :=
  let enter := GateAdmit None example_session (Some example_authority) (file_id 7 1) in
  [GateBegin; GateReserve (Ok 7) (Some example_authority);
   GateBind None 0 42 (Some 42) example_authority false; enter; enter; enter; GateClaim 0].

Definition gate_view (g : gate) : Z * list (option nat * list nat) * list (bool * bool * bool) :=
  (fileActive (g_tree g), (λ p, (ioRunning p.2, ioQueue p.2)) <$> map_to_list (tr_heap (g_tree g)),
   (λ tk, (tk_ready tk, tk_started tk, tk_complete tk)) <$> tr_tickets (g_tree g)).

Definition example_state : gate :=
  match gate_run 8 4 gate_events example_gate with Some (_, g) => g | None => example_gate end.

Lemma gate_example :
  gate_run 8 4 gate_events example_gate = Some (tt, example_state)
  ∧ gate_view example_state
    = (4, [(Some 0%nat, [1%nat; 2%nat])],
       [(true, true, false); (false, false, false); (false, false, false)]).
Proof. vm_compute. done. Qed.

Lemma same_answer {A B} (o : option (A * B)) (a a' : A) (b b' : B) :
  o = Some (a, b) → o = Some (a', b') → a' = a ∧ b' = b.
Proof. intros -> [= <- <-]. done. Qed.

Lemma gate_events_fine : Forall gate_event_ok gate_events.
Proof. by repeat constructor. Qed.

Lemma gate_example_start : gate_start example_gate.
Proof. split; [by eexists _, _|]. by split. Qed.

Lemma gate_example_reachable : gate_reachable 8 4 example_state.
Proof.
  exists example_gate, gate_events. split_and!;
    [apply gate_example_start|done|apply gate_events_fine|apply gate_example].
Qed.

Lemma gate_example_turn : in_turn (g_tree example_state) 0 0.
Proof. eexists. split; [vm_compute; reflexivity|done]. Qed.

Lemma file_io_turns_witness :
  ∃ g, gate_run 8 4 gate_events example_gate = Some (tt, g)
    ∧ in_turn (g_tree g) 0 0 ∧ ∀ m, in_turn (g_tree g) m 0 → m = 0%nat.
Proof.
  destruct (file_io_turns 8 4 gate_events example_gate ltac:(lia) gate_example_start gate_events_fine)
    as (g & E & Hone & _).
  destruct (same_answer _ _ _ _ _ (proj1 gate_example) E) as [_ ->]. exists example_state.
  split_and!; [exact (proj1 gate_example)|exact gate_example_turn|].
  intros m Hm. exact (Hone 0%nat m 0%nat Hm gate_example_turn).
Defined.

(** The handle is fenced while its first request runs, which then ends. *)
Definition example_fenced : option nat * tree :=
  match fenceHandleFileIO 0 (g_tree example_state) with
  | Some r => r | None => (None, g_tree example_state) end.
Definition example_drained : gate :=
  match gate_run 8 4 [GateFinish 0] (mkGate example_fenced.2 (g_session example_state) None) with
  | Some (_, g) => g | None => example_gate end.

Lemma fence_drains_witness :
  fenceHandleFileIO 0 (g_tree example_state) = Some (example_fenced.1, example_fenced.2)
  ∧ example_fenced.1 = Some 1%nat
  ∧ ∀ n tk, tr_tickets (g_tree example_drained) !! n = Some tk → tk_handle tk = 0%nat → tk_complete tk = true.
Proof.
  assert (E : fenceHandleFileIO 0 (g_tree example_state) = Some (example_fenced.1, example_fenced.2))
    by (vm_compute; reflexivity).
  destruct (tr_heap (g_tree example_state) !! 0%nat) as [h|] eqn:Hp; [|vm_compute in Hp; discriminate].
  destruct (fence_drains 8 4 example_state 0 h gate_example_reachable Hp) as (o & t1 & E1 & Hd).
  destruct (same_answer _ _ _ _ _ E E1) as [-> ->]. split_and!; [exact E|vm_compute; reflexivity|].
  apply (Hd [GateFinish 0]); [by repeat constructor|vm_compute; reflexivity|].
  intros c Hc. vm_compute in Hc. injection Hc as <-.
  apply (bool_decide_unpack (1%nat ∈ tr_closed (g_tree example_drained))). vm_compute. exact I.
Defined.

Definition example_stopped : option nat * tree :=
  match fenceFileWork (g_tree example_state) with
  | Some r => r | None => (None, g_tree example_state) end.
Definition example_idle : gate :=
  match gate_run 8 4 [GateFinish 0; GateEnd] (mkGate example_stopped.2 (g_session example_state) None) with
  | Some (_, g) => g | None => example_gate end.

Lemma stop_drains_witness :
  fenceFileWork (g_tree example_state) = Some (example_stopped.1, example_stopped.2)
  ∧ example_stopped.1 = Some 0%nat ∧ fileActive example_stopped.2 = 2
  ∧ fileActive (g_tree example_idle) = 0.
Proof.
  assert (E : fenceFileWork (g_tree example_state) = Some (example_stopped.1, example_stopped.2))
    by (vm_compute; reflexivity).
  destruct (stop_drains 8 4 example_state gate_example_reachable) as (o & t1 & E1 & Hd).
  destruct (same_answer _ _ _ _ _ E E1) as [-> ->]. split_and!; [exact E|vm_compute; reflexivity|vm_compute; reflexivity|].
  apply (Hd [GateFinish 0; GateEnd]); [by repeat constructor|vm_compute; reflexivity|].
  intros c Hc. vm_compute in Hc. injection Hc as <-.
  apply (bool_decide_unpack (0%nat ∈ tr_closed (g_tree example_idle))). vm_compute. exact I.
Defined.

Lemma file_ids_never_transfer_witness :
  handles (g_tree example_state) !! file_id 7 1 = Some 0%nat
  ∧ ∃ h, tr_heap (g_tree example_state) !! 0%nat = Some h ∧ fh_id h = file_id 7 1.
Proof.
  assert (E : handles (g_tree example_state) !! file_id 7 1 = Some 0%nat) by (vm_compute; reflexivity).
  split; [exact E|]. exact (proj1 (file_ids_never_transfer 8 4 example_state gate_example_reachable) _ _ E).
Defined.

(** The test of a drawn incarnation is not repeated: after an all-ones draw was
    refused, the next reservation gives out identifiers with an all-ones half. *)
Definition all_ones_events : list gate_event :=
  [GateBegin; GateReserve (Ok MaxUint64) (Some example_authority);
   GateReserve (Ok MaxUint64) (Some example_authority)].

Lemma all_ones_identifier :
  HasPartialRelatedPlaceholder (file_id MaxUint64 1) = true
  ∧ ∃ g, gate_reachable 8 4 g ∧ handles (g_tree g) !! file_id MaxUint64 1 = Some 0%nat.
Proof.
  split; [reflexivity|].
  destruct (gate_run 8 4 all_ones_events example_gate) as [[[] g]|] eqn:E; [|vm_compute in E; discriminate].
  exists g. split.
  - exists example_gate, all_ones_events. split_and!; [apply gate_example_start|done| |done].
    by repeat constructor.
  - vm_compute in E. injection E as <-. vm_compute. reflexivity.
Qed.
