(* ===== verification/Capabilities.v ===== *)
(** * The commands of the storage contract and their checks

    packages/storage/capabilities.go (the command types) and
    capability_validation.go (what makes each of them well formed), with the
    observations of name_observation.go, metadata_observation.go and
    directory_metadata.go.

    A check answers [None] for a nil error.  An enumeration is its number; a
    pointer or a slice that may be nil where the code asks is an [option].  The
    loops over guards follow parent links that the caller chose, so they run on
    fuel, and a check that contains one answers in [option]: [None] is the end
    of the fuel.  Loops over a Go map run in the order of [map_to_list], which
    decides only which of several errors is reported. *)

From S2P Require Import Prelude Bytes Errors Metadata Attributes Paths Identity Ranges SmbMetadata.

(** ** Data *)

Definition MaxNamespaceGuards : Z := 256.
Definition MaxNamespaceGuardBytes : Z := 65536.
Definition MaxTargetUses : Z := 16.
(** [MaxDirectoryEntries], [MaxDirectoryBytes] *)
Definition MaxObservedEntries : Z := 65536.
Definition MaxObservedBytes : Z := 8388608.
Definition MaxLinkTargetBytes : Z := MaxMetadataValueBytes.

(** [ExpectedChild] *)
Definition Any : Z := 1.
Definition Absent : Z := 2.
Definition SameNode : Z := 3.

Record ChildCondition := {
  cc_State : Z; cc_NodeID : Z; cc_ExpectedMetadata : gmap (list Z) (list Z) }.
Record DirectoryTarget := { dt_NodeID : Z; dt_Scope : option UseScope }.
Record ChildName := { cn_Parent : DirectoryTarget; cn_RawLeaf : list Z }.
Record DirectoryObservation := { do_ParentID : Z; do_Revision : list Z }.
Record ObservedEdge := { oe_ParentID : Z; oe_RawLeaf : list Z; oe_ChildID : Z }.
Record NamespaceGuards := {
  ng_Directories : list DirectoryObservation; ng_Edges : list ObservedEdge; ng_RootID : Z }.
Record ChildSelection := { sel_Name : ChildName; sel_Guards : option NamespaceGuards }.
Record ObservedEntry := { ob_RawLeaf : list Z; ob_Attr : Attr }.
Record ObservedDirectory := { od_Observation : DirectoryObservation; od_Entries : list ObservedEntry }.
Record RenameTarget := {
  rt_Parent : DirectoryTarget; rt_ObservedLeaf : list Z; rt_Expected : ChildCondition;
  rt_OutputLeaf : list Z }.
Record TargetUse := { tu_NodeID : Z; tu_Scope : UseScope }.

(** [ExistingEffect] *)
Definition Keep : Z := 1.
Definition ResetContent : Z := 2.
Definition ReplaceNode : Z := 3.

Record AttrChange := {
  ac_BirthTime : option Time; ac_AccessTime : option Time; ac_ModTime : option Time }.
Record InitialFields := {
  if_LinkTarget : list Z; if_Attr : AttrChange; if_Metadata : gmap (list Z) (list Z) }.
Record InitialState := {
  is_OnCreate : InitialFields; is_OnReset : InitialFields; is_OnReplace : InitialFields }.

(** [CloseTrigger], [UnlinkCondition] *)
Definition OnReferenceClose : Z := 1.
Definition UnlinkFile : Z := 1.
Definition UnlinkIfEmpty : Z := 2.

Record CloseIntent := {
  ci_ID : string; ci_Owner : string; ci_Trigger : Z; ci_Condition : Z;
  ci_ExpectedMetadata : gmap (list Z) (list Z); ci_Uses : list TargetUse }.

(** [MetadataPermissions] *)
Definition ReadMetadata : Z := 1.
Definition WriteMetadata : Z := 2.

Record OpenAtOptions := {
  oa_ContentMetadataEffects : list ContentMetadataEffect; oa_Read : bool; oa_Write : bool;
  oa_MetadataAccess : Z; oa_Create : bool; oa_Exclusive : bool; oa_Target : ChildCondition;
  oa_Action : string; oa_Use : UseClaim; oa_Existing : Z; oa_ResetUse : Z;
  oa_Initial : InitialState; oa_CloseIntent : option CloseIntent }.
Record NodeRefOptions := {
  nr_Kind : NodeKind; nr_Target : ChildCondition; nr_Action : string; nr_Use : UseClaim;
  nr_MetadataAccess : Z; nr_Create : bool; nr_Exclusive : bool; nr_InitialState : InitialState;
  nr_CloseIntent : option CloseIntent }.

(** [NameOperation] *)
Definition NameCreate : Z := 1.
Definition NameMkdir : Z := 2.
Definition NameRemove : Z := 3.
Definition NameRemoveDir : Z := 4.
Definition NameRename : Z := 5.
Definition NameSymlink : Z := 6.

Record NameCommand := {
  nc_Kind : Z; nc_Action : string; nc_Name : ChildName; nc_Target : ChildCondition;
  nc_Destination : option RenameTarget; nc_Initial : InitialFields; nc_Uses : list TargetUse;
  nc_Guards : option NamespaceGuards; nc_RequireNoOpenDescendants : bool }.

Record PendingUnlinkCommand := {
  pu_Action : string; pu_Condition : Z; pu_ExpectedMetadata : gmap (list Z) (list Z);
  pu_Uses : list TargetUse }.
Record ClearPendingUnlinkCommand := {
  cp_Action : string; cp_Generation : list Z; cp_Uses : list TargetUse }.

(** [FileMutationKind] *)
Definition MutateTruncate : Z := 1.
Definition MutateAttributes : Z := 2.
Definition MutateWriteAt : Z := 3.
Definition MutateAppend : Z := 4.

Record FileMutation := {
  fm_ContentEffects : list Z; fm_Action : string; fm_Offset : Z; fm_Data : list Z;
  fm_ExpectedSize : option Z; fm_ExpectedMetadata : gmap (list Z) (list Z); fm_Kind : Z;
  fm_Size : Z; fm_Attr : AttrChange; fm_Metadata : metadata; fm_Uses : list TargetUse }.

(** [FileActionOutcome]; an [Operation] is its text, empty when absent. *)
Definition FileActionPending : Z := 1.
Definition FileActionNotExecuted : Z := 3.
Definition FileActionUnknown : Z := 4.
Definition FileActionRetired : Z := 5.
Record FileActionReceipt := { fr_Action : string; fr_Operation : string; fr_Outcome : Z }.

(** [DeleteIntentOutcome]; a zero [Failure] is [None]. *)
Definition DeleteIntentArmed : Z := 1.
Definition DeleteIntentCleanupFailed : Z := 5.
Definition DeleteIntentUnknown : Z := 6.
Definition DeleteIntentRetired : Z := 7.
Definition MaxDeleteIntentPageEntries : Z := 256.
Record DeleteIntentStatus := {
  ds_ID : string; ds_NodeID : Z; ds_Outcome : Z; ds_Failure : option errno }.
Record DeleteIntentPage := { dp_Intents : list DeleteIntentStatus; dp_Next : Z }.
Record AcknowledgeDeleteIntentCommand := { ak_Action : string; ak_Owner : string; ak_Intent : string }.

(** ** Checks of the parts *)

Definition EINVAL_ : option error := Some (Errno EINVAL).
Definition EFBIG_ : option error := Some (Errno EFBIG).
Definition EIO_ : option error := Some (Errno EIO).

(** The first error of a list. *)
Fixpoint first_error {A} (check : A → option error) (l : list A) : option error :=
  match l with [] => None | x :: l => check x ;? first_error check l end.

(** [FileActionID.Check] *)
Definition FileActionID_Check (id : string) : option error :=
  match Epoch id with Ok _ => None | Err e => Some e end.

Definition CheckMetadataUpdate (namespace expectedVersion payload : list Z) : option error :=
  CheckMetadataNamespace namespace ;?
  if MaxObservationTokenBytes <? zlen expectedVersion then EINVAL_
  else if MaxMetadataValueBytes <? zlen payload then EFBIG_ else None.

Definition checkMetadataConditions (expected : gmap (list Z) (list Z)) : option error :=
  if MaxMetadataNamespaces <? Z.of_nat (size expected) then EFBIG_
  else first_error (λ p, CheckMetadataUpdate p.1 p.2 []) (map_to_list expected).

Definition ChildCondition_Check (c : ChildCondition) : option error :=
  if (cc_State c <? Any) || (SameNode <? cc_State c)
     || negb (eqb (cc_State c =? SameNode) (negb (cc_NodeID c =? 0)))
  then EINVAL_
  else if negb (Z.of_nat (size (cc_ExpectedMetadata c)) =? 0) && negb (cc_State c =? SameNode)
  then EINVAL_
  else checkMetadataConditions (cc_ExpectedMetadata c).

Definition DirectoryTarget_Check (d : DirectoryTarget) : option error :=
  if dt_NodeID d =? 0 then EINVAL_
  else match dt_Scope d with Some scope => UseScope_Check scope | None => None end.

Definition ChildName_Check (n : ChildName) : option error :=
  DirectoryTarget_Check (cn_Parent n) ;? CheckLeaf (cn_RawLeaf n).

Definition DirectoryObservation_Check (d : DirectoryObservation) : option error :=
  if (do_ParentID d =? 0) || (zlen (do_Revision d) =? 0)
     || (MaxObservationTokenBytes <? zlen (do_Revision d))
  then EINVAL_ else None.

Definition ObservedEdge_Check (e : ObservedEdge) : option error :=
  if (oe_ParentID e =? 0) || (oe_ChildID e =? 0) || (oe_ParentID e =? oe_ChildID e) then EINVAL_
  else CheckLeaf (oe_RawLeaf e).

Definition AttrChange_Empty (c : AttrChange) : bool :=
  match ac_BirthTime c, ac_AccessTime c, ac_ModTime c with None, None, None => true | _, _, _ => false end.
Definition AttrChange_Check (c : AttrChange) : option error := None.

Definition InitialFields_Check (f : InitialFields) : option error :=
  if MaxLinkTargetBytes <? zlen (if_LinkTarget f) then EFBIG_
  else AttrChange_Check (if_Attr f) ;? CheckInitialMetadata (if_Metadata f).

Definition InitialFields_Empty (f : InitialFields) : bool :=
  AttrChange_Empty (if_Attr f) && (Z.of_nat (size (if_Metadata f)) =? 0) && (zlen (if_LinkTarget f) =? 0).

Definition InitialState_Check (s : InitialState) : option error :=
  first_error InitialFields_Check [is_OnCreate s; is_OnReset s; is_OnReplace s].

(** The loop of [CheckTargetUses]. *)
Fixpoint target_uses_loop (seen : gset Z) (uses : list TargetUse) : option error :=
  match uses with
  | [] => None
  | use :: uses =>
      if tu_NodeID use =? 0 then EINVAL_
      else if bool_decide (tu_NodeID use ∈ seen) then EINVAL_
      else UseScope_Check (tu_Scope use) ;? target_uses_loop ({[tu_NodeID use]} ∪ seen) uses
  end.

Definition CheckTargetUses (uses : list TargetUse) : option error :=
  if MaxTargetUses <? zlen uses then EFBIG_ else target_uses_loop ∅ uses.

Definition CloseIntent_Check (i : CloseIntent) : option error :=
  if negb (ci_Trigger i =? OnReferenceClose) || (ci_Condition i <? UnlinkFile)
     || (UnlinkIfEmpty <? ci_Condition i)
  then EINVAL_
  else DeleteIntentID_Check (ci_ID i) ;? DeleteIntentOwner_Check (ci_Owner i) ;?
       checkMetadataConditions (ci_ExpectedMetadata i) ;? CheckTargetUses (ci_Uses i).

Definition PendingUnlinkCommand_Check (c : PendingUnlinkCommand) : option error :=
  if (pu_Condition c <? UnlinkFile) || (UnlinkIfEmpty <? pu_Condition c) then EINVAL_
  else FileActionID_Check (pu_Action c) ;? checkMetadataConditions (pu_ExpectedMetadata c) ;?
       CheckTargetUses (pu_Uses c).

Definition ClearPendingUnlinkCommand_Check (c : ClearPendingUnlinkCommand) : option error :=
  if MaxObservationTokenBytes <? zlen (cp_Generation c) then EINVAL_
  else FileActionID_Check (cp_Action c) ;? CheckTargetUses (cp_Uses c).

Definition RenameTarget_Check (r : RenameTarget) : option error :=
  DirectoryTarget_Check (rt_Parent r) ;? CheckLeaf (rt_ObservedLeaf r) ;?
  CheckLeaf (rt_OutputLeaf r) ;? ChildCondition_Check (rt_Expected r).

(** ** Guards *)

(** What the first loop of [NamespaceGuards.Check] has collected. *)
Fixpoint guard_directories (directories : gset Z) (total : Z) (l : list DirectoryObservation)
    : result (gset Z * Z) :=
  match l with
  | [] => Ok (directories, total)
  | d :: l =>
      match DirectoryObservation_Check d with
      | Some err => Err err
      | None =>
          if bool_decide (do_ParentID d ∈ directories) then Err (Errno EINVAL)
          else guard_directories ({[do_ParentID d]} ∪ directories) (total + (zlen (do_Revision d) + 8)) l
      end
  end.

(** The second loop: the parent of each child, and the slots that are taken. *)
Fixpoint guard_edges (children : gmap Z Z) (slots : gset (Z * list Z)) (total : Z)
    (l : list ObservedEdge) : result (gmap Z Z * Z) :=
  match l with
  | [] => Ok (children, total)
  | e :: l =>
      match ObservedEdge_Check e with
      | Some err => Err err
      | None =>
          if bool_decide (is_Some (children !! oe_ChildID e)) then Err (Errno EINVAL)
          else if bool_decide ((oe_ParentID e, oe_RawLeaf e) ∈ slots) then Err (Errno EINVAL)
          else guard_edges (<[oe_ChildID e := oe_ParentID e]> children)
                 ({[(oe_ParentID e, oe_RawLeaf e)]} ∪ slots) (total + (zlen (oe_RawLeaf e) + 16)) l
      end
  end.

(** From a child up to a node without a guarded parent. *)
Fixpoint climb (fuel : nat) (children : gmap Z Z) (root : Z) (seen : gset Z) (id : Z)
    : option (option error) :=
  match fuel with
  | O => None
  | S fuel =>
      if bool_decide (id ∈ seen) then Some EINVAL_
      else
        match children !! id with
        | None => if negb (root =? 0) && negb (id =? root) then Some EINVAL_ else Some None
        | Some parent => climb fuel children root ({[id]} ∪ seen) parent
        end
  end.

(** From a directory up to the root. *)
Fixpoint climb_to_root (fuel : nat) (children : gmap Z Z) (root : Z) (seen : gset Z) (directory : Z)
    : option (option error) :=
  match fuel with
  | O => None
  | S fuel =>
      if directory =? root then Some None
      else if bool_decide (directory ∈ seen) then Some EINVAL_
      else
        match children !! directory with
        | None => Some EINVAL_
        | Some parent => climb_to_root fuel children root ({[directory]} ∪ seen) parent
        end
  end.

(** The first error of a loop whose turns run on fuel. *)
Fixpoint first_failure {A} (check : A → option (option error)) (l : list A) : option (option error) :=
  match l with
  | [] => Some None
  | x :: l =>
      match check x with
      | None => None
      | Some (Some err) => Some (Some err)
      | Some None => first_failure check l
      end
  end.

(** One turn per guarded child, and the turn that finds the end or the repetition. *)
Definition climb_fuel (children : gmap Z Z) : nat := S (S (size children)).

Definition guards_check (g : NamespaceGuards) : option (option error) :=
  if (MaxNamespaceGuards <? zlen (ng_Directories g)) || (MaxNamespaceGuards <? zlen (ng_Edges g))
  then Some EFBIG_
  else
    match guard_directories ∅ 0 (ng_Directories g) with
    | Err err => Some (Some err)
    | Ok (directories, total) =>
        match guard_edges ∅ ∅ total (ng_Edges g) with
        | Err err => Some (Some err)
        | Ok (children, total) =>
            if MaxNamespaceGuardBytes <? total then Some EFBIG_
            else
              let fuel := climb_fuel children in
              let climbed := first_failure (climb fuel children (ng_RootID g) ∅)
                               (map_to_list children).*1 in
              match climbed with
              | Some None =>
                  if negb (ng_RootID g =? 0)
                  then first_failure (climb_to_root fuel children (ng_RootID g) ∅) (elements directories)
                  else Some None
              | _ => climbed
              end
        end
    end.

(** [NamespaceGuards.Check] on a pointer. *)
Definition NamespaceGuards_Check (g : option NamespaceGuards) : option (option error) :=
  match g with None => Some None | Some g => guards_check g end.

(** A check that needs no fuel, and then one that does. *)
Definition then_check (err : option error) (rest : option (option error)) : option (option error) :=
  match err with Some e => Some (Some e) | None => rest end.
Definition check_then (first : option (option error)) (rest : option error) : option (option error) :=
  match first with Some None => Some rest | _ => first end.

Definition ChildSelection_Check (s : ChildSelection) : option (option error) :=
  then_check (ChildName_Check (sel_Name s)) (NamespaceGuards_Check (sel_Guards s)).

(** ** Name commands *)

(** The maps of [checkNameCommandGuards]: the later of equal keys wins. *)
Definition directory_set (l : list DirectoryObservation) : gset Z :=
  list_to_set (do_ParentID <$> l).
Definition edge_map (l : list ObservedEdge) : gmap Z ObservedEdge :=
  foldl (λ m e, <[oe_ChildID e := e]> m) ∅ l.

(** The loop of [cover] from a parent to the root: the directories and the edges
    it uses. *)
Fixpoint cover_path (fuel : nat) (directories : gset Z) (edges : gmap Z ObservedEdge) (root : Z)
    (used : gset Z * gset Z) (directory : Z) : option (result (gset Z * gset Z)) :=
  match fuel with
  | O => None
  | S fuel =>
      if bool_decide (directory ∈ directories) then
        let used := ({[directory]} ∪ used.1, used.2) in
        if directory =? root then Some (Ok used)
        else
          match edges !! directory with
          | None => Some (Err (Errno EINVAL))
          | Some edge => cover_path fuel directories edges root (used.1, {[directory]} ∪ used.2) (oe_ParentID edge)
          end
      else Some (Err (Errno EINVAL))
  end.

(** The slot of a name in a guarded edge. *)
Definition in_slot (name : ChildName) (edge : ObservedEdge) : bool :=
  (oe_ParentID edge =? dt_NodeID (cn_Parent name)) && bool_decide (oe_RawLeaf edge = cn_RawLeaf name).

Definition cover (fuel : nat) (directories : gset Z) (edges : gmap Z ObservedEdge) (root : Z)
    (used : gset Z * gset Z) (name : ChildName) (expected : ChildCondition)
    : option (result (gset Z * gset Z)) :=
  match cover_path fuel directories edges root used (dt_NodeID (cn_Parent name)) with
  | Some (Ok used) =>
      if cc_State expected =? SameNode then
        match edges !! cc_NodeID expected with
        | Some edge => if in_slot name edge then Some (Ok (used.1, {[cc_NodeID expected]} ∪ used.2))
                       else Some (Err (Errno EINVAL))
        | None => Some (Err (Errno EINVAL))
        end
      else if (cc_State expected =? Absent) && existsb (in_slot name) (map_to_list edges).*2
      then Some (Err (Errno EINVAL))
      else Some (Ok used)
  | r => r
  end.

(** The name of a rename's destination slot. *)
Definition destination_name (d : RenameTarget) : ChildName :=
  {| cn_Parent := rt_Parent d; cn_RawLeaf := rt_ObservedLeaf d |}.

Definition checkNameCommandGuards (c : NameCommand) : option (option error) :=
  match nc_Guards c with
  | None => Some None
  | Some g =>
      if ng_RootID g =? 0 then Some EINVAL_
      else
        let directories := directory_set (ng_Directories g) in
        let edges := edge_map (ng_Edges g) in
        let fuel := S (S (size edges)) in
        let cover := cover fuel directories edges (ng_RootID g) in
        let covered :=
          match cover (∅, ∅) (nc_Name c) (nc_Target c) with
          | Some (Ok used) =>
              match nc_Destination c with
              | Some d => cover used (destination_name d) (rt_Expected d)
              | None => Some (Ok used)
              end
          | r => r
          end in
        match covered with
        | None => None
        | Some (Err err) => Some (Some err)
        | Some (Ok used) =>
            if negb (Nat.eqb (size used.1) (size directories)) || negb (Nat.eqb (size used.2) (size edges))
            then Some EINVAL_ else Some None
        end
  end.

(** The fields of the effect, after the guards. *)
Definition name_command_initial (c : NameCommand) : option error :=
  if nc_Kind c =? NameSymlink then
    if zlen (if_LinkTarget (nc_Initial c)) =? 0 then EINVAL_ else InitialFields_Check (nc_Initial c)
  else if negb (zlen (if_LinkTarget (nc_Initial c)) =? 0) then EINVAL_
  else if (nc_Kind c =? NameCreate) || (nc_Kind c =? NameMkdir) then InitialFields_Check (nc_Initial c)
  else if negb (InitialFields_Empty (nc_Initial c)) then EINVAL_ else None.

Definition name_command_fields (c : NameCommand) : option error :=
  if (nc_Kind c <? NameCreate) || (NameSymlink <? nc_Kind c) then EINVAL_
  else
    ChildName_Check (nc_Name c) ;? ChildCondition_Check (nc_Target c) ;?
    FileActionID_Check (nc_Action c) ;? CheckTargetUses (nc_Uses c) ;?
    if nc_Kind c =? NameRename then
      match nc_Destination c with None => EINVAL_ | Some d => RenameTarget_Check d end
    else if (if nc_Destination c then true else false) || nc_RequireNoOpenDescendants c then EINVAL_
    else None.

Definition NameCommand_Check (c : NameCommand) : option (option error) :=
  then_check (name_command_fields c)
    (match NamespaceGuards_Check (nc_Guards c) with
     | Some None => check_then (checkNameCommandGuards c) (name_command_initial c)
     | r => r
     end).

(** ** Opening *)

Definition has_use (uses use : Z) : bool := negb (Z.land uses use =? 0).

(** The loop of [CheckContentMetadataEffects]. *)
Fixpoint effects_loop (names : gset (list Z)) (size : Z) (effects : list ContentMetadataEffect)
    : option error :=
  match effects with
  | [] => None
  | e :: effects =>
      Effect_Check e ;?
      if bool_decide (ce_Namespace e ∈ names) then EINVAL_
      else
        let size := size + (zlen (ce_Namespace e) + zlen (ce_PresentPrefix e) + zlen (ce_AbsentPayload e)
                            + zlen (ce_ClearMask e) + zlen (ce_SetMask e)) in
        if MaxContentMetadataEffectBytes <? size then EFBIG_
        else effects_loop ({[ce_Namespace e]} ∪ names) size effects
  end.

Definition CheckContentMetadataEffects (effects : list ContentMetadataEffect) : option error :=
  if MaxContentMetadataEffects <? zlen effects then EFBIG_ else effects_loop ∅ 0 effects.

(** The last lines of both option checks. *)
Definition close_intent_check (use : UseClaim) (intent : option CloseIntent) : option error :=
  match intent with
  | None => None
  | Some intent => if has_use (uc_Uses use) DeleteName then CloseIntent_Check intent
                   else Some (Errno EACCES)
  end.

Definition OpenAtOptions_Check (o : OpenAtOptions) : option error :=
  (if negb (oa_ResetUse o =? 0) then
     if negb (oa_ResetUse o =? DeleteName) || negb (oa_Existing o =? ResetContent)
        || negb (cc_State (oa_Target o) =? SameNode) || oa_Create o
     then EINVAL_
     else if has_use (uc_Uses (oa_Use o)) DeleteName then None else Some (Errno EACCES)
   else None) ;?
  CheckContentMetadataEffects (oa_ContentMetadataEffects o) ;?
  if negb (zlen (oa_ContentMetadataEffects o) =? 0) && negb (oa_Write o) then EINVAL_
  else if negb (oa_Read o) && negb (oa_Write o) && negb (oa_ResetUse o =? DeleteName)
          || oa_Exclusive o && negb (oa_Create o)
          || (oa_Existing o <? Keep) || (ReplaceNode <? oa_Existing o)
  then EINVAL_
  else if oa_Read o && negb (has_use (uc_Uses (oa_Use o)) ReadData)
          || oa_Write o && negb (has_use (uc_Uses (oa_Use o)) WriteData)
          || has_use (uc_Uses (oa_Use o)) ReadEntries
          || negb (Z.ldiff (oa_MetadataAccess o) (Z.lor ReadMetadata WriteMetadata) =? 0)
  then EINVAL_
  else if (cc_State (oa_Target o) =? Absent) && negb (oa_Create o)
          || oa_Exclusive o && (cc_State (oa_Target o) =? SameNode)
  then EINVAL_
  else if (oa_Existing o =? ReplaceNode)
          && (negb (oa_Create o) || negb (has_use (uc_Uses (oa_Use o)) DeleteName))
  then EINVAL_
  else if (oa_Existing o =? ResetContent) && (oa_ResetUse o =? 0) && negb (oa_Write o) then EINVAL_
  else
    ChildCondition_Check (oa_Target o) ;? FileActionID_Check (oa_Action o) ;? UseClaim_Check (oa_Use o) ;?
    if negb (zlen (if_LinkTarget (is_OnCreate (oa_Initial o))) =? 0)
       || negb (zlen (if_LinkTarget (is_OnReset (oa_Initial o))) =? 0)
       || negb (zlen (if_LinkTarget (is_OnReplace (oa_Initial o))) =? 0)
    then EINVAL_
    else
      InitialState_Check (oa_Initial o) ;?
      if negb (oa_Create o) && negb (InitialFields_Empty (is_OnCreate (oa_Initial o)))
         || negb (oa_Existing o =? ResetContent) && negb (InitialFields_Empty (is_OnReset (oa_Initial o)))
         || negb (oa_Existing o =? ReplaceNode) && negb (InitialFields_Empty (is_OnReplace (oa_Initial o)))
      then EINVAL_
      else close_intent_check (oa_Use o) (oa_CloseIntent o).

Definition NodeRefOptions_Check (o : NodeRefOptions) : option error :=
  let initial := nr_InitialState o in
  let link := zlen (if_LinkTarget (is_OnCreate initial)) in
  let symlink := bool_decide (nr_Kind o = NodeSymlink) in
  NodeKind_Check (nr_Kind o) ;? ChildCondition_Check (nr_Target o) ;? FileActionID_Check (nr_Action o) ;?
  UseClaim_Check (nr_Use o) ;?
  if (cc_State (nr_Target o) =? Absent) && negb (nr_Create o)
     || nr_Exclusive o && (cc_State (nr_Target o) =? SameNode)
     || negb (bool_decide (nr_Kind o = NodeDirectory)) && has_use (uc_Uses (nr_Use o)) ReadEntries
  then EINVAL_
  else if negb (Z.ldiff (nr_MetadataAccess o) (Z.lor ReadMetadata WriteMetadata) =? 0)
          || nr_Exclusive o && negb (nr_Create o)
  then EINVAL_
  else if negb symlink && negb (link =? 0) || symlink && nr_Create o && (link =? 0) then EINVAL_
  else
    InitialState_Check initial ;?
    if negb (InitialFields_Empty (is_OnReset initial)) || negb (InitialFields_Empty (is_OnReplace initial))
       || negb (nr_Create o) && negb (InitialFields_Empty (is_OnCreate initial))
    then EINVAL_
    else close_intent_check (nr_Use o) (nr_CloseIntent o).

(** ** Mutations *)

(** The loop over the indexes of the enrolled effects. *)
Fixpoint effect_indexes (seen : gset Z) (l : list Z) : option error :=
  match l with
  | [] => None
  | i :: l => if bool_decide (i ∈ seen) then EINVAL_ else effect_indexes ({[i]} ∪ seen) l
  end.

Definition is_mutation (kind : Z) (c : FileMutation) : bool := fm_Kind c =? kind.

(** The fields that belong to the kind of the mutation. *)
Definition mutation_shape (c : FileMutation) : option error :=
  let data := zlen (fm_Data c) in
  if is_mutation MutateAttributes c then
    if negb (fm_Size c =? 0) || negb (fm_Offset c =? 0) || negb (data =? 0) then EINVAL_ else None
  else if is_mutation MutateTruncate c then
    if negb (fm_Offset c =? 0) || negb (data =? 0) || negb (AttrChange_Empty (fm_Attr c)) then EINVAL_
    else None
  else
    if negb (fm_Size c =? 0) || negb (AttrChange_Empty (fm_Attr c)) || (MaxInt64 - fm_Offset c <? data)
    then EINVAL_
    else if is_mutation MutateAppend c && negb (fm_Offset c =? 0) then EINVAL_ else None.

(** The effects of a mutation of the content. *)
Definition mutation_effects (c : FileMutation) : option error :=
  if MaxContentMetadataEffects <? zlen (fm_ContentEffects c) then EFBIG_
  else if zlen (fm_ContentEffects c) =? 0 then None
  else if negb (is_mutation MutateWriteAt c) && negb (is_mutation MutateAppend c)
            && negb (is_mutation MutateTruncate c)
          || negb (is_mutation MutateTruncate c) && (zlen (fm_Data c) =? 0)
          || negb (AttrChange_Empty (fm_Attr c))
          || negb (Z.of_nat (size (fm_Metadata c)) =? 0)
  then EINVAL_
  else effect_indexes ∅ (fm_ContentEffects c).

Definition FileMutation_Check (c : FileMutation) : option error :=
  mutation_effects c ;?
  if (fm_Kind c <? MutateTruncate) || (MutateAppend <? fm_Kind c) || (fm_Size c <? 0) || (fm_Offset c <? 0)
  then EINVAL_
  else if match fm_ExpectedSize c with Some size => size <? 0 | None => false end then EINVAL_
  else
    FileActionID_Check (fm_Action c) ;? checkMetadataConditions (fm_ExpectedMetadata c) ;?
    if MaxMetadataNamespaces <? Z.of_nat (size (fm_Metadata c)) then EFBIG_
    else
      first_error (λ p, CheckMetadataUpdate p.1 (Version p.2) (Data p.2)) (map_to_list (fm_Metadata c)) ;?
      CheckInitialMetadata (Data <$> fm_Metadata c) ;?
      mutation_shape c ;? AttrChange_Check (fm_Attr c) ;? CheckTargetUses (fm_Uses c).

Definition CheckDataLimit (c : FileMutation) (maxBytes : Z) : option error :=
  if maxBytes <=? 0 then EINVAL_
  else if maxBytes <? zlen (fm_Data c) then EFBIG_ else FileMutation_Check c.

(** ** Observed directories *)

Definition ObservedEntryBytes (nameBytes metadataBytes : Z) : result Z :=
  if (nameBytes <=? 0) || (MaxLeafBytes <? nameBytes) then Err (Errno EFBIG)
  else match MetadataRetentionBytes metadataBytes with
       | Err err => Err err
       | Ok retained => Ok (256 + 4 * nameBytes + retained)
       end.

(** What an entry is charged. *)
Definition entry_charge (e : ObservedEntry) : result Z :=
  match metadataSize (at_Metadata (ob_Attr e)) with
  | Err err => Err err
  | Ok metadataBytes => ObservedEntryBytes (zlen (ob_RawLeaf e)) metadataBytes
  end.

(** The loop of [ObservedDirectory.Check]. *)
Fixpoint observed_entries (parent : Z) (names : gset (list Z)) (ids : gset Z) (used : Z)
    (l : list ObservedEntry) : option error :=
  match l with
  | [] => None
  | e :: l =>
      CheckLeaf (ob_RawLeaf e) ;?
      if (at_ID (ob_Attr e) =? 0) || (at_ID (ob_Attr e) =? parent)
         || (if NodeKind_Check (at_Kind (ob_Attr e)) then true else false) || (at_Size (ob_Attr e) <? 0)
      then EIO_
      else if bool_decide (ob_RawLeaf e ∈ names) then EIO_
      else if bool_decide (at_ID (ob_Attr e) ∈ ids) then EIO_
      else
        match entry_charge e with
        | Err err => Some err
        | Ok charge =>
            if MaxObservedBytes - used <? charge then EFBIG_
            else observed_entries parent ({[ob_RawLeaf e]} ∪ names) ({[at_ID (ob_Attr e)]} ∪ ids)
                   (used + charge) l
        end
  end.

Definition ObservedDirectory_Check (d : ObservedDirectory) : option error :=
  DirectoryObservation_Check (od_Observation d) ;?
  if MaxObservedEntries <? zlen (od_Entries d) then EFBIG_
  else observed_entries (do_ParentID (od_Observation d)) ∅ ∅ 0 (od_Entries d).

(** [NameBindingState] *)
Definition NameRoot : Z := 1.
Definition NameLinked : Z := 2.
Definition NameDetached : Z := 3.

(** A nil [RawLeaf] is [None]. *)
Record NameObservation := {
  no_NodeID : Z; no_State : Z; no_ParentID : Z; no_RawLeaf : option (list Z) }.

Definition leaf_bytes (leaf : option (list Z)) : Z := match leaf with Some l => zlen l | None => 0 end.

Definition checkNameObservationHeader (scalar : NameObservation) (leafBytes : Z) : option error :=
  if (no_NodeID scalar =? 0) || (if no_RawLeaf scalar then true else false) then EIO_
  else if (no_State scalar =? NameRoot) || (no_State scalar =? NameDetached) then
    if negb (no_ParentID scalar =? 0) || negb (leafBytes =? 0) then EIO_ else None
  else if no_State scalar =? NameLinked then
    if (no_ParentID scalar =? 0) || (no_ParentID scalar =? no_NodeID scalar) || (leafBytes <=? 0) then EIO_
    else if MaxLeafBytes <? leafBytes then Some (Errno ENAMETOOLONG) else None
  else EIO_.

Definition NameObservation_Check (o : NameObservation) : option error :=
  let scalar := {| no_NodeID := no_NodeID o; no_State := no_State o; no_ParentID := no_ParentID o;
                   no_RawLeaf := None |} in
  checkNameObservationHeader scalar (leaf_bytes (no_RawLeaf o)) ;?
  if negb (no_State o =? NameLinked) then
    if no_RawLeaf o then EIO_ else None
  else CheckLeaf (default [] (no_RawLeaf o)).

Definition NameObservationRetentionBytes (leafBytes : Z) : result Z :=
  if leafBytes <? 0 then Err (Errno EINVAL)
  else if MaxLeafBytes <? leafBytes then Err (Errno ENAMETOOLONG)
  else Ok (512 + 4 * leafBytes).

(** [CheckNameObservationBudget]: the error of the context, and the budget the
    context carries. *)
Definition CheckNameObservationBudget (ctx_Err : option error)
    (budget : option (NameObservation → Z → result Z)) (scalar : NameObservation) (leafBytes : Z)
    : result Z :=
  match ctx_Err ;? checkNameObservationHeader scalar leafBytes with
  | Some err => Err err
  | None =>
      match NameObservationRetentionBytes leafBytes, budget with
      | Err err, _ => Err err
      | Ok minimum, None => Ok minimum
      | Ok minimum, Some budget =>
          match budget scalar leafBytes with
          | Err err => Err err
          | Ok charge => if charge <? minimum then Err (Errno EINVAL) else Ok charge
          end
      end
  end.

(** [DirectoryMetadataOptions], [DirectoryMetadataObservation] *)
Record DirectoryMetadataOptions := { dm_Guards : option NamespaceGuards; dm_IncludeName : bool }.
Record DirectoryMetadataObservation := {
  dmo_Observation : DirectoryObservation; dmo_Name : option NameObservation }.

(** [DirectoryMetadataObservation.Check] *)
Definition DirectoryMetadata_Check (o : DirectoryMetadataObservation) (target : DirectoryTarget)
    (options : DirectoryMetadataOptions) : option (option error) :=
  then_check (DirectoryTarget_Check target)
    (check_then (NamespaceGuards_Check (dm_Guards options))
      (DirectoryObservation_Check (dmo_Observation o) ;?
       if negb (do_ParentID (dmo_Observation o) =? dt_NodeID target) then EIO_
       else if negb (eqb (dm_IncludeName options) (if dmo_Name o then true else false)) then EIO_
       else
         match dmo_Name o with
         | None => None
         | Some name =>
             NameObservation_Check name ;?
             if negb (no_NodeID name =? do_ParentID (dmo_Observation o)) || (no_State name =? NameDetached)
             then EIO_ else None
         end)).

(** ** Receipts and delete intents *)

Definition receipt_operations : list string :=
  ["file.open-at"; "file.mutate-name"; "file.open-node-ref"; "file.open-child-ref";
   "file.set-pending-unlink"; "file.clear-pending-unlink"; "file.mutate";
   "file.acknowledge-delete-intent"; "file.close"; "file.session-close"]%string.

Definition FileActionReceipt_Check (r : FileActionReceipt) : option error :=
  FileActionID_Check (fr_Action r) ;?
  if bool_decide (fr_Operation r = EmptyString) then
    if negb (fr_Outcome r =? FileActionNotExecuted) && negb (fr_Outcome r =? FileActionUnknown)
       && negb (fr_Outcome r =? FileActionRetired)
    then EINVAL_ else None
  else if negb (bool_decide (fr_Operation r ∈ receipt_operations)) then EINVAL_
  else if (fr_Outcome r <? FileActionPending) || (FileActionRetired <? fr_Outcome r) then EINVAL_
  else None.

Definition DeleteIntentStatus_Check (s : DeleteIntentStatus) : option error :=
  DeleteIntentID_Check (ds_ID s) ;?
  if (ds_Outcome s <? DeleteIntentArmed) || (DeleteIntentRetired <? ds_Outcome s) then EINVAL_
  else
    let missing := (ds_Outcome s =? DeleteIntentUnknown) || (ds_Outcome s =? DeleteIntentRetired) in
    if negb (eqb missing (ds_NodeID s =? 0)) then EINVAL_
    else if ds_Outcome s =? DeleteIntentCleanupFailed then
      match ds_Failure s with
      | None => EINVAL_
      | Some failure => if ErrnoName failure then None else EINVAL_
      end
    else if ds_Failure s then EINVAL_ else None.

(** The loop of [DeleteIntentPage.Check]. *)
Fixpoint page_intents (seen : gset string) (l : list DeleteIntentStatus) : option error :=
  match l with
  | [] => None
  | s :: l =>
      DeleteIntentStatus_Check s ;?
      if bool_decide (ds_ID s ∈ seen) then EINVAL_ else page_intents ({[ds_ID s]} ∪ seen) l
  end.

Definition DeleteIntentPage_Check (p : DeleteIntentPage) (owner : string) (after limit : Z)
    : option error :=
  let n := zlen (dp_Intents p) in
  DeleteIntentOwner_Check owner ;?
  if (MaxInt64 <? after) || (MaxInt64 <? dp_Next p) || (limit <? 1) || (MaxDeleteIntentPageEntries <? limit)
     || (limit <? n) || (dp_Next p <? after)
  then EINVAL_
  else if (n =? 0) && negb (dp_Next p =? after) || negb (n =? 0) && (dp_Next p =? after) then EINVAL_
  else page_intents ∅ (dp_Intents p).

Definition AcknowledgeDeleteIntentCommand_Check (c : AcknowledgeDeleteIntentCommand) : option error :=
  FileActionID_Check (ak_Action c) ;? DeleteIntentOwner_Check (ak_Owner c) ;?
  DeleteIntentID_Check (ak_Intent c).
