(* ===== verification/Guards.v ===== *)
(** * The guards of a name command

    What [NamespaceGuards.Check], [checkNameCommandGuards] and
    [NameCommand.Check] of packages/storage/capability_validation.go accept.
    The loops of the code climb parent links that a client chose; the relation
    [edge_step] is those links, and the theorems say that every climb ends and
    that the answers are the ones a reader of the links would give. *)

From S2P Require Import Prelude Bytes Errors Metadata Attributes Paths Identity Ranges SmbMetadata Capabilities.

(** ** What the checks are to accept *)

(** A guarded edge leads from its child to its parent. *)
Definition edge_step (l : list ObservedEdge) (x y : Z) : Prop :=
  ∃ e, e ∈ l ∧ oe_ChildID e = x ∧ oe_ParentID e = y.

Definition edge_slot (e : ObservedEdge) : Z * list Z := (oe_ParentID e, oe_RawLeaf e).

(** The bytes that count against the bound. *)
Definition directory_bytes (l : list DirectoryObservation) : Z :=
  foldr (λ d n, zlen (do_Revision d) + 8 + n) 0 l.
Definition edge_bytes (l : list ObservedEdge) : Z := foldr (λ e n, zlen (oe_RawLeaf e) + 16 + n) 0 l.
Definition guard_bytes (g : NamespaceGuards) : Z :=
  directory_bytes (ng_Directories g) + edge_bytes (ng_Edges g).

Record guards_ok (g : NamespaceGuards) : Prop := {
  go_directories : zlen (ng_Directories g) <= MaxNamespaceGuards;
  go_edges : zlen (ng_Edges g) <= MaxNamespaceGuards;
  go_directory : Forall (λ d, DirectoryObservation_Check d = None) (ng_Directories g);
  go_edge : Forall (λ e, ObservedEdge_Check e = None) (ng_Edges g);
  go_once : NoDup (do_ParentID <$> ng_Directories g);
  go_child : NoDup (oe_ChildID <$> ng_Edges g);
  go_slot : NoDup (edge_slot <$> ng_Edges g);
  go_bytes : guard_bytes g <= MaxNamespaceGuardBytes;
  go_tops : ∀ e, e ∈ ng_Edges g → ∃ top, rtc (edge_step (ng_Edges g)) (oe_ChildID e) top
              ∧ (∀ y, ¬ edge_step (ng_Edges g) top y) ∧ (ng_RootID g ≠ 0 → top = ng_RootID g);
  go_rooted : ng_RootID g ≠ 0 → ∀ d, d ∈ ng_Directories g →
                rtc (edge_step (ng_Edges g)) (do_ParentID d) (ng_RootID g) }.

(** The slots a command names, with what it expects in them. *)
Definition command_slots (c : NameCommand) : list (ChildName * ChildCondition) :=
  (nc_Name c, nc_Target c) ::
  match nc_Destination c with Some d => [(destination_name d, rt_Expected d)] | None => [] end.

(** [x] lies on the way from the parent of a named slot to the root. *)
Definition on_path (g : NamespaceGuards) (s : ChildName * ChildCondition) (x : Z) : Prop :=
  rtc (edge_step (ng_Edges g)) (dt_NodeID (cn_Parent s.1)) x.

Definition slot_edge (s : ChildName * ChildCondition) (e : ObservedEdge) : Prop :=
  edge_slot e = (dt_NodeID (cn_Parent s.1), cn_RawLeaf s.1).

(** One named slot is guarded. *)
Record slot_guarded (g : NamespaceGuards) (s : ChildName * ChildCondition) : Prop := {
  sg_path : ∀ x, on_path g s x → x ∈ do_ParentID <$> ng_Directories g;
  sg_same : cc_State s.2 = SameNode →
            ∃ e, e ∈ ng_Edges g ∧ oe_ChildID e = cc_NodeID s.2 ∧ slot_edge s e;
  sg_absent : cc_State s.2 = Absent → ∀ e, e ∈ ng_Edges g → ¬ slot_edge s e }.

(** The guards cover the command and nothing else. *)
Record command_guarded (c : NameCommand) (g : NamespaceGuards) : Prop := {
  cg_root : ng_RootID g ≠ 0;
  cg_slots : ∀ s, s ∈ command_slots c → slot_guarded g s;
  cg_directories : ∀ d, d ∈ ng_Directories g →
                     ∃ s, s ∈ command_slots c ∧ on_path g s (do_ParentID d);
  cg_edges : ∀ e, e ∈ ng_Edges g →
               ∃ s, s ∈ command_slots c ∧
                 (on_path g s (oe_ChildID e) ∨ cc_State s.2 = SameNode ∧ cc_NodeID s.2 = oe_ChildID e) }.

(** ** Climbing *)

Section climbing.
Context (children : gmap Z Z).

Definition link (x y : Z) : Prop := children !! x = Some y.

Lemma link_unique x y z : link x y → link x z → y = z.
Proof. unfold link. congruence. Qed.

Lemma cycle_goes_on x top : tc link x x → rtc link x top → ∃ y, link top y.
Proof.
  intros Hc Hr. induction Hr as [x | x y top Hs Hr IH].
  - inversion Hc; subst; eauto.
  - apply IH. assert (rtc link y x) as Hyx.
    { inversion Hc as [? ? Hs' | ? y' ? Hs' Ht]; subst;
        rewrite (link_unique _ _ _ Hs Hs'); [done | by apply tc_rtc]. }
    eapply tc_rtc_l; [exact Hyx | by apply tc_once].
Qed.

(** What a climb has seen leads to where it is. *)
Definition behind (seen : gset Z) (id : Z) : Prop := ∀ s, s ∈ seen → tc link s id.

Lemma behind_next seen id parent : behind seen id → link id parent → behind ({[id]} ∪ seen) parent.
Proof.
  intros Hb Hl s [->%elem_of_singleton | Hs]%elem_of_union; [by apply tc_once|].
  eapply tc_r; eauto.
Qed.

(** The children a climb has not seen. *)
Definition ahead (seen : gset Z) : nat := size (dom children ∖ seen).

Lemma ahead_next seen id parent : id ∉ seen → link id parent → (ahead ({[id]} ∪ seen) < ahead seen)%nat.
Proof.
  intros Hn Hl. unfold ahead. apply subset_size. apply elem_of_dom_2 in Hl. set_solver.
Qed.

Lemma ahead_start : (ahead ∅ < climb_fuel children)%nat.
Proof.
  unfold ahead, climb_fuel. rewrite <- size_dom, difference_empty_L. lia.
Qed.

Definition tops_at (root id : Z) : Prop :=
  ∃ top, rtc link id top ∧ children !! top = None ∧ (root ≠ 0 → top = root).

Lemma tops_at_next root id parent : link id parent → tops_at root id ↔ tops_at root parent.
Proof.
  intros Hl. split; intros (top & Hr & Hn & Hroot); exists top; split_and!; try done.
  - inversion Hr as [| ? y ? Hs Ht]; subst; [unfold link in *; congruence|].
    by rewrite (link_unique _ _ _ Hl Hs).
  - by eapply rtc_l.
Qed.

Lemma climb_exact fuel root seen id : (ahead seen < fuel)%nat → behind seen id →
  ∃ r, climb fuel children root seen id = Some r ∧ (r = None ↔ tops_at root id).
Proof.
  revert seen id. induction fuel as [|fuel IH]; intros seen id Hf Hb; [lia|]. simpl.
  case_bool_decide as Hs.
  { eexists; split; [done|]. split; [done|]. intros (top & Hr & Hn & _).
    destruct (cycle_goes_on id top (Hb _ Hs) Hr) as [y Hy]. unfold link in Hy. congruence. }
  destruct (children !! id) as [parent|] eqn:El.
  - destruct (IH ({[id]} ∪ seen) parent) as (r & -> & Hr).
    { pose proof (ahead_next seen id parent Hs El). lia. }
    { by apply behind_next. }
    exists r. split; [done|]. by rewrite (tops_at_next root id parent El).
  - destruct (root =? 0) eqn:E0; simpl.
    + eexists; split; [done|]. split; [|done]. intros _. exists id. split_and!; [done..|lia].
    + destruct (id =? root) eqn:E1; simpl; eexists; (split; [done|]); split; try done.
      * intros _. exists id. split_and!; [done..|lia].
      * intros (top & Hr & Hn & Hroot). inversion Hr; subst; [lia|]. unfold link in *. congruence.
Qed.

Hypothesis acyclic : ∀ x, ¬ tc link x x.

Lemma climb_to_root_exact fuel root seen id : (ahead seen < fuel)%nat → behind seen id →
  ∃ r, climb_to_root fuel children root seen id = Some r ∧ (r = None ↔ rtc link id root).
Proof.
  revert seen id. induction fuel as [|fuel IH]; intros seen id Hf Hb; [lia|]. simpl.
  destruct (id =? root) eqn:E.
  { eexists; split; [done|]. split; [|done]. intros _. by replace root with id by lia. }
  case_bool_decide as Hs; [destruct (acyclic id); by apply Hb|].
  destruct (children !! id) as [parent|] eqn:El.
  - destruct (IH ({[id]} ∪ seen) parent) as (r & -> & Hr).
    { pose proof (ahead_next seen id parent Hs El). lia. }
    { by apply behind_next. }
    exists r. split; [done|]. rewrite Hr. split; [by eapply rtc_l|].
    intros Ht. inversion Ht as [| ? y ? Hy Ht']; subst; [lia|]. by rewrite (link_unique _ _ _ El Hy).
  - eexists; split; [done|]. split; [done|].
    intros Ht. inversion Ht; subst; [lia|]. unfold link in *. congruence.
Qed.
End climbing.

(** ** The loops that collect *)

Definition directories_ok (seen : gset Z) (l : list DirectoryObservation) : Prop :=
  Forall (λ d, DirectoryObservation_Check d = None ∧ do_ParentID d ∉ seen) l ∧ NoDup (do_ParentID <$> l).

Lemma directories_ok_cons seen d l :
  directories_ok seen (d :: l) ↔
  DirectoryObservation_Check d = None ∧ do_ParentID d ∉ seen ∧ directories_ok ({[do_ParentID d]} ∪ seen) l.
Proof.
  unfold directories_ok. rewrite Forall_cons, fmap_cons, NoDup_cons, !Forall_forall.
  setoid_rewrite list_elem_of_fmap. set_solver.
Qed.

Lemma guard_directories_exact seen total l :
  match guard_directories seen total l with
  | Ok (seen', total') => directories_ok seen l ∧ seen' = seen ∪ directory_set l
                          ∧ total' = total + directory_bytes l
  | Err _ => ¬ directories_ok seen l
  end.
Proof.
  revert seen total. induction l as [|d l IH]; intros seen total; simpl.
  { split_and!; [by repeat constructor | unfold directory_set; set_solver | lia]. }
  destruct (DirectoryObservation_Check d) eqn:Ec; [rewrite directories_ok_cons; naive_solver|].
  case_bool_decide; [rewrite directories_ok_cons; naive_solver|].
  specialize (IH ({[do_ParentID d]} ∪ seen) (total + (zlen (do_Revision d) + 8))).
  destruct (guard_directories _ _ _) as [[seen' total']|]; rewrite directories_ok_cons; [|naive_solver].
  destruct IH as (Ho & -> & ->). split_and!; [done..| |lia]. unfold directory_set. set_solver.
Qed.

(** The parents that the edges give. *)
Definition add_edge (m : gmap Z ObservedEdge) (e : ObservedEdge) : gmap Z ObservedEdge :=
  <[oe_ChildID e := e]> m.
Definition parents (m : gmap Z ObservedEdge) : gmap Z Z := oe_ParentID <$> m.

Definition edges_ok (m : gmap Z ObservedEdge) (slots : gset (Z * list Z)) (l : list ObservedEdge) : Prop :=
  Forall (λ e, ObservedEdge_Check e = None ∧ m !! oe_ChildID e = None ∧ edge_slot e ∉ slots) l
  ∧ NoDup (oe_ChildID <$> l) ∧ NoDup (edge_slot <$> l).

Lemma edges_ok_cons m slots e l :
  edges_ok m slots (e :: l) ↔
  ObservedEdge_Check e = None ∧ m !! oe_ChildID e = None ∧ edge_slot e ∉ slots
  ∧ edges_ok (add_edge m e) ({[edge_slot e]} ∪ slots) l.
Proof.
  unfold edges_ok, add_edge. rewrite Forall_cons, !fmap_cons, !NoDup_cons, !Forall_forall.
  setoid_rewrite list_elem_of_fmap. setoid_rewrite lookup_insert_None.
  setoid_rewrite not_elem_of_union. setoid_rewrite not_elem_of_singleton. split.
  - intros (((? & ? & ?) & Hl) & (Hc & ?) & Hs & ?). split_and!; try done.
    intros x Hx. destruct (Hl x Hx) as (? & ? & ?). split_and!; try done; intros ?; eauto.
  - intros (? & ? & ? & Hl & ? & ?). split_and!; try done.
    + intros x Hx. by destruct (Hl x Hx) as (? & [? ?] & ? & ?).
    + intros (x & Heq & Hx). by destruct (Hl x Hx) as (? & [? ?] & ? & ?).
    + intros (x & Heq & Hx). by destruct (Hl x Hx) as (? & [? ?] & ? & ?).
Qed.

Lemma parents_known m x : is_Some (parents m !! x) ↔ is_Some (m !! x).
Proof. unfold parents. by rewrite lookup_fmap, fmap_is_Some. Qed.

Lemma guard_edges_exact m slots total l :
  match guard_edges (parents m) slots total l with
  | Ok (children, total') => edges_ok m slots l ∧ children = parents (foldl add_edge m l)
                             ∧ total' = total + edge_bytes l
  | Err _ => ¬ edges_ok m slots l
  end.
Proof.
  revert m slots total. induction l as [|e l IH]; intros m slots total; simpl.
  { split_and!; [by repeat constructor | done | lia]. }
  destruct (ObservedEdge_Check e) eqn:Ec; [rewrite edges_ok_cons; naive_solver|].
  rewrite (bool_decide_ext _ _ (parents_known m (oe_ChildID e))).
  destruct (m !! oe_ChildID e) eqn:Em; simpl; [rewrite edges_ok_cons; naive_solver|].
  fold (edge_slot e).
  case_bool_decide; [rewrite edges_ok_cons; naive_solver|].
  specialize (IH (add_edge m e) ({[edge_slot e]} ∪ slots) (total + (zlen (oe_RawLeaf e) + 16))).
  unfold parents at 1, add_edge at 1 in IH. rewrite fmap_insert in IH. fold (parents m) in IH.
  destruct (guard_edges _ _ _ _) as [[children total']|]; rewrite edges_ok_cons; [|naive_solver].
  destruct IH as (Ho & -> & ->). split_and!; [done..|lia].
Qed.

Lemma edge_map_lookup l x e : NoDup (oe_ChildID <$> l) →
  edge_map l !! x = Some e ↔ e ∈ l ∧ oe_ChildID e = x.
Proof.
  unfold edge_map. induction l as [|e' l IH] using rev_ind; intros Hn.
  { simpl. rewrite lookup_empty. set_solver. }
  rewrite fmap_app in Hn. apply NoDup_app in Hn as (Hn & Hd & _).
  rewrite foldl_app. simpl. rewrite lookup_insert_Some, IH by done.
  setoid_rewrite list_elem_of_fmap in Hd. rewrite elem_of_app, list_elem_of_singleton.
  split; [naive_solver|]. intros [[He | ->] <-]; [|by left].
  right. split; [|done]. intros Heq. eapply (Hd (oe_ChildID e)); set_solver.
Qed.

Lemma link_edge_step l x y : NoDup (oe_ChildID <$> l) → link (parents (edge_map l)) x y ↔ edge_step l x y.
Proof.
  intros Hn. unfold link, parents, edge_step. rewrite lookup_fmap, fmap_Some.
  setoid_rewrite (edge_map_lookup l x); [|done]. naive_solver.
Qed.

Lemma first_failure_exact {A} (check : A → option (option error)) (P : A → Prop) l :
  (∀ x, x ∈ l → ∃ r, check x = Some r ∧ (r = None ↔ P x)) →
  ∃ r, first_failure check l = Some r ∧ (r = None ↔ ∀ x, x ∈ l → P x).
Proof.
  induction l as [|x l IH]; intros H; simpl; [eexists; split; [done|]; set_solver|].
  destruct (H x) as (r & -> & Hr); [set_solver|].
  destruct r as [err|]; [eexists; split; [done|]; split; [done|]; intros HP|].
  { discriminate (proj2 Hr (HP x (list_elem_of_here _ _))). }
  destruct IH as (r & -> & Hr'); [set_solver|]. eexists; split; [done|]. rewrite Hr'. set_solver.
Qed.

(** ** [NamespaceGuards.Check] *)

Lemma rtc_link l x y : NoDup (oe_ChildID <$> l) →
  rtc (link (parents (edge_map l))) x y ↔ rtc (edge_step l) x y.
Proof.
  intros Hn. split; induction 1 as [|x y' z Hs Hr IH]; try done; (eapply rtc_l; [|exact IH]);
    by apply link_edge_step.
Qed.

Definition all_top (children : gmap Z Z) (root : Z) : Prop :=
  ∀ x, is_Some (children !! x) → tops_at children root x.

Lemma climbs_exact children root :
  ∃ r, first_failure (climb (climb_fuel children) children root ∅) (map_to_list children).*1 = Some r
       ∧ (r = None ↔ all_top children root).
Proof.
  destruct (first_failure_exact (climb (climb_fuel children) children root ∅)
              (tops_at children root) (map_to_list children).*1) as (r & -> & Hr).
  { intros x _. apply climb_exact; [apply ahead_start | set_solver]. }
  exists r. split; [done|]. rewrite Hr. unfold all_top, is_Some.
  setoid_rewrite list_elem_of_fmap. setoid_rewrite elem_of_map_to_list'.
  split; intros H x; [intros [y Hy]; apply H; by exists (x, y) | intros ((k & y) & -> & Hy); eauto].
Qed.

Lemma all_top_acyclic children root x : all_top children root → ¬ tc (link children) x x.
Proof.
  intros Ht Hc. assert (is_Some (children !! x)) as Hx by (inversion Hc; subst; by eexists).
  destruct (Ht x Hx) as (top & Hr & Hn & _).
  destruct (cycle_goes_on children x top Hc Hr) as [y Hy]. unfold link in Hy. congruence.
Qed.

Lemma all_top_edges l root : NoDup (oe_ChildID <$> l) →
  all_top (parents (edge_map l)) root ↔
  ∀ e, e ∈ l → ∃ top, rtc (edge_step l) (oe_ChildID e) top
                      ∧ (∀ y, ¬ edge_step l top y) ∧ (root ≠ 0 → top = root).
Proof.
  intros Hn. unfold all_top, tops_at. setoid_rewrite rtc_link; [|done].
  assert (∀ top, parents (edge_map l) !! top = None ↔ ∀ y, ¬ edge_step l top y) as Hend.
  { intros top. setoid_rewrite <- link_edge_step; [|done]. unfold link.
    destruct (_ !! _); naive_solver. }
  setoid_rewrite Hend. split.
  - intros H e He. apply H. exists (oe_ParentID e). apply link_edge_step; [done|]. by exists e.
  - intros H x [y Hy]. apply link_edge_step in Hy as (e & He & <- & _); [|done]. by apply H.
Qed.

Lemma climbs_to_root_exact children root (directories : gset Z) : all_top children root →
  ∃ r, first_failure (climb_to_root (climb_fuel children) children root ∅) (elements directories) = Some r
       ∧ (r = None ↔ ∀ x, x ∈ directories → rtc (link children) x root).
Proof.
  intros Ht.
  destruct (first_failure_exact (climb_to_root (climb_fuel children) children root ∅)
              (λ x, rtc (link children) x root) (elements directories)) as (r & -> & Hr).
  { intros x _. apply climb_to_root_exact; [|apply ahead_start | set_solver].
    intros y. by apply (all_top_acyclic children root). }
  exists r. split; [done|]. rewrite Hr. by setoid_rewrite elem_of_elements.
Qed.

(** The conditions in the order in which the code meets them. *)
Lemma guards_ok_staged g :
  guards_ok g ↔
  zlen (ng_Directories g) <= MaxNamespaceGuards ∧ zlen (ng_Edges g) <= MaxNamespaceGuards
  ∧ directories_ok ∅ (ng_Directories g) ∧ edges_ok ∅ ∅ (ng_Edges g)
  ∧ guard_bytes g <= MaxNamespaceGuardBytes
  ∧ all_top (parents (edge_map (ng_Edges g))) (ng_RootID g)
  ∧ (ng_RootID g ≠ 0 → ∀ x, x ∈ directory_set (ng_Directories g) →
       rtc (link (parents (edge_map (ng_Edges g)))) x (ng_RootID g)).
Proof.
  unfold directories_ok, edges_ok, directory_set. setoid_rewrite elem_of_list_to_set.
  setoid_rewrite list_elem_of_fmap. rewrite !Forall_forall. split.
  - intros [? ? Hd He]. rewrite Forall_forall in Hd. rewrite Forall_forall in He. split_and!; try done.
    + intros d Hi. split; [auto | set_solver].
    + intros e Hi. split_and!; [auto | apply lookup_empty | set_solver].
    + by apply all_top_edges.
    + intros Hz x (d & -> & Hi). apply rtc_link; auto.
  - intros (? & ? & [Hd ?] & (He & Hn & ?) & ? & Ht & Hr). split; try done.
    + apply Forall_forall. intros d Hi. by apply Hd.
    + apply Forall_forall. intros e Hi. by apply He.
    + by apply all_top_edges.
    + intros Hz d Hi. apply rtc_link; [done|]. apply Hr; eauto.
Qed.

Lemma guards_check_exact g : ∃ r, guards_check g = Some r ∧ (r = None ↔ guards_ok g).
Proof.
  setoid_rewrite guards_ok_staged. unfold guards_check.
  destruct (_ || _) eqn:E0.
  { eexists; split; [done|]. split; [done|]. intros (? & ? & _). lia. }
  apply orb_false_iff in E0 as [E0 E1].
  pose proof (guard_directories_exact ∅ 0 (ng_Directories g)) as Hd.
  destruct (guard_directories _ _ _) as [[directories total]|]; [|eexists; split; [done|]; naive_solver].
  destruct Hd as (Hd & -> & ->). rewrite (left_id_L ∅ (∪)).
  pose proof (guard_edges_exact ∅ ∅ (0 + directory_bytes (ng_Directories g)) (ng_Edges g)) as He.
  unfold parents at 1 in He. rewrite fmap_empty in He.
  destruct (guard_edges _ _ _ _) as [[children total]|]; [|eexists; split; [done|]; naive_solver].
  destruct He as (He & -> & ->). fold (edge_map (ng_Edges g)).
  unfold guard_bytes. destruct (MaxNamespaceGuardBytes <? _) eqn:E2.
  { eexists; split; [done|]. split; [done|]. intros (? & ? & ? & ? & ? & _). lia. }
  destruct (climbs_exact (parents (edge_map (ng_Edges g))) (ng_RootID g)) as (r & Ec & Hr).
  change (foldl add_edge ∅ (ng_Edges g)) with (edge_map (ng_Edges g)). rewrite Ec.
  destruct r as [err|].
  { eexists; split; [done|]. split; [done|]. naive_solver. }
  assert (all_top (parents (edge_map (ng_Edges g))) (ng_RootID g)) as Ht by by apply Hr.
  destruct (ng_RootID g =? 0) eqn:E3; cbn [negb].
  { eexists; split; [done|]. split; [|done]. intros _. split_and!; try done; try lia. }
  destruct (climbs_to_root_exact _ _ (directory_set (ng_Directories g)) Ht) as (r & -> & Hr').
  eexists; split; [done|]. rewrite Hr'. split; [|naive_solver lia].
  intros H. split_and!; try done; lia.
Qed.

(** ** [checkNameCommandGuards] *)

Lemma exists_snoc {A} (P : A → Prop) l a :
  (∃ x, x ∈ l ++ [a] ∧ P x) ↔ (∃ x, x ∈ l ∧ P x) ∨ P a.
Proof.
  setoid_rewrite elem_of_app. setoid_rewrite list_elem_of_singleton. split.
  - intros (x & [Hx | ->] & HP); eauto.
  - intros [(x & Hx & HP) | HP]; eauto.
Qed.

Section covering.
Context (g : NamespaceGuards) (Hok : guards_ok g) (Hroot : ng_RootID g ≠ 0).
Let edges := edge_map (ng_Edges g).
Let children := parents edges.
Let directories := directory_set (ng_Directories g).

Lemma directories_in x : x ∈ directories ↔ x ∈ do_ParentID <$> ng_Directories g.
Proof. unfold directories, directory_set. by rewrite elem_of_list_to_set. Qed.

Lemma links x y : rtc (link children) x y ↔ rtc (edge_step (ng_Edges g)) x y.
Proof. apply rtc_link, Hok. Qed.

Lemma edges_acyclic x : ¬ tc (link children) x x.
Proof.
  apply (all_top_acyclic children (ng_RootID g)). by apply guards_ok_staged in Hok as (?&?&?&?&?&?&?).
Qed.

Lemma root_is_top : children !! ng_RootID g = None.
Proof.
  destruct (children !! ng_RootID g) as [y|] eqn:E; [|done]. exfalso.
  apply (link_edge_step _ _ _ (go_child _ Hok)) in E as (e & He & Hc & Hp).
  destruct (go_tops _ Hok e He) as (top & _ & Hend & Htop). rewrite (Htop Hroot) in Hend.
  apply (Hend y). by exists e.
Qed.

Lemma directory_rooted x : x ∈ directories → rtc (link children) x (ng_RootID g).
Proof. apply guards_ok_staged in Hok as (?&?&?&?&?&?&H). by apply H. Qed.

Lemma path_from_top x y : children !! x = None → rtc (link children) x y ↔ y = x.
Proof.
  intros E. split; [|intros ->; done]. intros Hr. inversion Hr; subst; [done|]. unfold link in *. congruence.
Qed.

Lemma path_from x parent y : children !! x = Some parent →
  rtc (link children) x y ↔ y = x ∨ rtc (link children) parent y.
Proof.
  intros E. split; [|intros [-> | ?]; [done | by eapply rtc_l]]. intros Hr.
  inversion Hr as [| ? z ? Hs Ht]; subst; [by left|]. right.
  by rewrite (link_unique children _ _ _ E Hs).
Qed.

(** What the climb from a parent marks as used. *)
Definition path_used (id : Z) (used used' : gset Z * gset Z) : Prop :=
  (∀ x, x ∈ used'.1 ↔ x ∈ used.1 ∨ rtc (link children) id x)
  ∧ ∀ x, x ∈ used'.2 ↔ x ∈ used.2 ∨ rtc (link children) id x ∧ is_Some (children !! x).

Definition path_observed (id : Z) : Prop := ∀ x, rtc (link children) id x → x ∈ directories.

Lemma path_used_next id parent used used' : children !! id = Some parent →
  path_used parent ({[id]} ∪ used.1, {[id]} ∪ used.2) used' → path_used id used used'.
Proof.
  intros E [H1 H2]. unfold path_used. setoid_rewrite H1. setoid_rewrite H2.
  setoid_rewrite (λ y, path_from id parent y E). simpl. setoid_rewrite elem_of_union.
  setoid_rewrite elem_of_singleton. split; [tauto|]. intros x. split; [|tauto].
  intros [[-> | ?] | ?]; [|tauto..]. right. split; [by left | by eexists].
Qed.

Lemma cover_path_exact fuel used seen id : (ahead children seen < fuel)%nat → behind children seen id →
  ∃ r, cover_path fuel directories edges (ng_RootID g) used id = Some r ∧
    match r with Ok used' => path_observed id ∧ path_used id used used' | Err _ => ¬ path_observed id end.
Proof.
  revert used seen id. induction fuel as [|fuel IH]; intros used seen id Hf Hb; [lia|]. simpl.
  case_bool_decide as Hd; [|eexists; split; [done|]; intros Ho; by apply Hd, Ho].
  destruct (id =? ng_RootID g) eqn:E.
  { apply Z.eqb_eq in E as ->. pose proof root_is_top as Ht. eexists; split; [done|].
    split; [|split; intros x; simpl]; [intros x|..]; rewrite (path_from_top _ x Ht); [by intros -> | set_solver|].
    split; [tauto|]. intros [? | [-> []]]; [done | congruence]. }
  assert (children !! id = oe_ParentID <$> edges !! id) as El by apply lookup_fmap.
  destruct (edges !! id) as [edge|]; simpl in El.
  - destruct (IH ({[id]} ∪ used.1, {[id]} ∪ used.2) ({[id]} ∪ seen) (oe_ParentID edge)) as (r & -> & Hr).
    { assert (id ∉ seen) as Hn by (intros Hs; by apply (edges_acyclic id), Hb).
      pose proof (ahead_next children seen id _ Hn El). lia. }
    { by apply behind_next. }
    assert (path_observed id ↔ path_observed (oe_ParentID edge)) as Ho.
    { unfold path_observed. setoid_rewrite (λ y, path_from id (oe_ParentID edge) y El). naive_solver. }
    exists r. split; [done|]. destruct r as [used'|]; [|by rewrite Ho].
    rewrite Ho. split; [apply Hr|]. eapply path_used_next; [done|]. apply Hr.
  - exfalso. apply directory_rooted in Hd. apply path_from_top in Hd; [|done]. lia.
Qed.

Lemma in_slot_edge (s : ChildName * ChildCondition) e : in_slot s.1 e = true ↔ slot_edge s e.
Proof.
  unfold in_slot, slot_edge, edge_slot. rewrite andb_true_iff, bool_decide_eq_true, Z.eqb_eq.
  split; [by intros [-> ->] | by intros [= -> ->]].
Qed.

Lemma edge_in e : e ∈ ng_Edges g ↔ edges !! oe_ChildID e = Some e.
Proof. unfold edges. rewrite edge_map_lookup by apply Hok. naive_solver. Qed.

Lemma edge_known x : is_Some (children !! x) ↔ is_Some (edges !! x).
Proof. apply parents_known. Qed.

Lemma edge_listed x e : edges !! x = Some e ↔ e ∈ ng_Edges g ∧ oe_ChildID e = x.
Proof. apply edge_map_lookup, Hok. Qed.

Lemma slot_taken (s : ChildName * ChildCondition) :
  existsb (in_slot s.1) (map_to_list edges).*2 = true ↔ ∃ e, e ∈ ng_Edges g ∧ slot_edge s e.
Proof.
  rewrite existsb_exists. setoid_rewrite in_slot_edge. setoid_rewrite <- list_elem_of_In.
  setoid_rewrite list_elem_of_fmap. setoid_rewrite elem_of_map_to_list'. split.
  - intros (e & ((x & e') & -> & He) & Hs). exists e'. by apply edge_listed in He as [? _].
  - intros (e & He & Hs). exists e. split; [|done]. exists (oe_ChildID e, e). split; [done|]. by apply edge_in.
Qed.

(** What a named slot marks as used. *)
Definition slot_used (s : ChildName * ChildCondition) (used used' : gset Z * gset Z) : Prop :=
  (∀ x, x ∈ used'.1 ↔ x ∈ used.1 ∨ on_path g s x)
  ∧ ∀ x, x ∈ used'.2 ↔
      x ∈ used.2 ∨ on_path g s x ∧ is_Some (edges !! x) ∨ cc_State s.2 = SameNode ∧ cc_NodeID s.2 = x.

Lemma path_observed_slot s : path_observed (dt_NodeID (cn_Parent s.1)) ↔
  ∀ x, on_path g s x → x ∈ do_ParentID <$> ng_Directories g.
Proof. unfold path_observed, on_path. setoid_rewrite links. by setoid_rewrite directories_in. Qed.

Lemma cover_fuel : (ahead children ∅ < S (S (size edges)))%nat.
Proof.
  pose proof (ahead_start children) as H. unfold climb_fuel, children, parents in H.
  by rewrite map_size_fmap in H.
Qed.

Lemma cover_exact used s :
  ∃ r, cover (S (S (size edges))) directories edges (ng_RootID g) used s.1 s.2 = Some r ∧
    match r with Ok used' => slot_guarded g s ∧ slot_used s used used' | Err _ => ¬ slot_guarded g s end.
Proof.
  unfold cover.
  destruct (cover_path_exact (S (S (size edges))) used ∅ (dt_NodeID (cn_Parent s.1))) as (r & -> & Hr);
    [apply cover_fuel | set_solver|].
  destruct r as [u|]; [|eexists; split; [done|]; intros [? _ _]; by apply Hr, (path_observed_slot s)].
  destruct Hr as [Ho [H1 H2]]. rewrite (path_observed_slot s) in Ho.
  setoid_rewrite links in H1. setoid_rewrite links in H2. setoid_rewrite edge_known in H2.
  destruct (cc_State s.2 =? SameNode) eqn:E.
  - apply Z.eqb_eq in E. destruct (edges !! cc_NodeID s.2) as [e|] eqn:Ee.
    + apply edge_listed in Ee as [He Hc]. destruct (in_slot s.1 e) eqn:Es; (eexists; split; [done|]).
      * apply in_slot_edge in Es. split.
        -- split; [done | intros _; by exists e | unfold Absent, SameNode in *; lia].
        -- split; intros x; simpl; [by rewrite H1|]. rewrite elem_of_union, elem_of_singleton, H2.
           unfold on_path. naive_solver.
      * intros [_ Hs _]. destruct (Hs E) as (e' & He' & Hc' & Hs').
        assert (e' = e) as -> by (apply edge_in in He', He; congruence).
        apply in_slot_edge in Hs'. congruence.
    + eexists; split; [done|]. intros [_ Hs _]. destruct (Hs E) as (e & He%edge_in & Hc & _). congruence.
  - apply Z.eqb_neq in E. pose proof (slot_taken s) as Ht.
    destruct (cc_State s.2 =? Absent) eqn:Ea; [destruct (existsb _ _)|]; simpl; (eexists; split; [done|]).
    + intros [_ _ Ha]. destruct (proj1 Ht eq_refl) as (e & He & Hs). by apply (Ha ltac:(lia) e).
    + split; [split; [done..|]|split; intros x; [by rewrite H1|rewrite H2; unfold on_path; naive_solver]].
      intros _ e He Hs. by discriminate (proj2 Ht (ex_intro _ e (conj He Hs))).
    + split; [split; [done..|lia]|split; intros x; [by rewrite H1|rewrite H2; unfold on_path; naive_solver]].
Qed.

(** What a list of slots marks as used. *)
Definition slots_used (l : list (ChildName * ChildCondition)) (used : gset Z * gset Z) : Prop :=
  (∀ x, x ∈ used.1 ↔ ∃ s, s ∈ l ∧ on_path g s x)
  ∧ ∀ x, x ∈ used.2 ↔ ∃ s, s ∈ l ∧
      (on_path g s x ∧ is_Some (edges !! x) ∨ cc_State s.2 = SameNode ∧ cc_NodeID s.2 = x).

Lemma slots_used_snoc l s used used' :
  slots_used l used → slot_used s used used' → slots_used (l ++ [s]) used'.
Proof.
  intros [H1 H2] [H1' H2']. split; intros x; [rewrite H1', H1 | rewrite H2', H2];
    symmetry; apply (exists_snoc (A := ChildName * ChildCondition)).
Qed.

Definition cover_slots (c : NameCommand) : option (result (gset Z * gset Z)) :=
  let cover := cover (S (S (size edges))) directories edges (ng_RootID g) in
  match cover (∅, ∅) (nc_Name c) (nc_Target c) with
  | Some (Ok used) =>
      match nc_Destination c with
      | Some d => cover used (destination_name d) (rt_Expected d)
      | None => Some (Ok used)
      end
  | r => r
  end.

Lemma cover_slots_exact c :
  ∃ r, cover_slots c = Some r ∧
    match r with
    | Ok used => (∀ s, s ∈ command_slots c → slot_guarded g s) ∧ slots_used (command_slots c) used
    | Err _ => ¬ ∀ s, s ∈ command_slots c → slot_guarded g s
    end.
Proof.
  unfold cover_slots, command_slots. cbv zeta.
  assert (slots_used [] (∅, ∅)) as H0 by (split; set_solver).
  destruct (cover_exact (∅, ∅) (nc_Name c, nc_Target c)) as (r & E & Hr). cbn [fst snd] in E. rewrite E.
  destruct r as [used|]; [|eexists; split; [done|]; intros H; apply Hr, H; set_solver].
  destruct Hr as [Hg Hu]. pose proof (slots_used_snoc [] _ _ _ H0 Hu) as H1.
  destruct (nc_Destination c) as [d|].
  - destruct (cover_exact used (destination_name d, rt_Expected d)) as (r & E' & Hr).
    cbn [fst snd] in E'. rewrite E'. exists r. split; [done|].
    destruct r as [used'|]; [|intros H; apply Hr, H; set_solver].
    destruct Hr as [Hg' Hu']. split; [|apply (slots_used_snoc _ _ _ _ H1 Hu')].
    intros s [-> | [-> | []%not_elem_of_nil]%elem_of_cons]%elem_of_cons; done.
  - exists (Ok used). split; [done|]. split; [|done].
    intros s [-> | []%not_elem_of_nil]%elem_of_cons; done.
Qed.

Lemma all_used (X Y : gset Z) : X ⊆ Y → Nat.eqb (size X) (size Y) = true ↔ Y ⊆ X.
Proof.
  intros Hs. rewrite Nat.eqb_eq. split; [|intros ?; f_equal; set_solver].
  intros E. destruct (decide (Y ⊆ X)) as [|Hn]; [done|].
  assert (X ⊂ Y) as H by done. apply subset_size in H. lia.
Qed.

Lemma directories_used c used : (∀ s, s ∈ command_slots c → slot_guarded g s) →
  slots_used (command_slots c) used →
  Nat.eqb (size used.1) (size directories) = true ↔
  ∀ d, d ∈ ng_Directories g → ∃ s, s ∈ command_slots c ∧ on_path g s (do_ParentID d).
Proof.
  intros Hg [H1 _]. rewrite all_used.
  - unfold subseteq, set_subseteq_instance. setoid_rewrite H1. setoid_rewrite directories_in.
    setoid_rewrite list_elem_of_fmap. naive_solver.
  - intros x (s & Hs & Hx)%H1. apply directories_in. by apply (sg_path g s (Hg s Hs)).
Qed.

Lemma edges_used c used : (∀ s, s ∈ command_slots c → slot_guarded g s) →
  slots_used (command_slots c) used →
  Nat.eqb (size used.2) (size edges) = true ↔
  ∀ e, e ∈ ng_Edges g → ∃ s, s ∈ command_slots c ∧
    (on_path g s (oe_ChildID e) ∨ cc_State s.2 = SameNode ∧ cc_NodeID s.2 = oe_ChildID e).
Proof.
  intros Hg [_ H2]. rewrite <- size_dom, all_used.
  - unfold subseteq, set_subseteq_instance. setoid_rewrite H2. setoid_rewrite elem_of_dom. split.
    + intros H e He. destruct (H (oe_ChildID e)) as (s & ? & ?); [eexists; by apply edge_in|]. naive_solver.
    + intros H x [e [He <-]%edge_listed]. destruct (H e He) as (s & Hs & Hu). exists s. split; [done|].
      destruct Hu; [left; split; [done | eexists; by apply edge_in] | by right].
  - intros x (s & Hs & [[_ ?] | [E <-]])%H2; apply elem_of_dom; [done|].
    destruct (sg_same g s (Hg s Hs) E) as (e & He%edge_in & <- & _). by eexists.
Qed.
End covering.

Lemma name_guards_exact c g : nc_Guards c = Some g → guards_ok g →
  ∃ r, checkNameCommandGuards c = Some r ∧ (r = None ↔ command_guarded c g).
Proof.
  intros Eg Hok. unfold checkNameCommandGuards. rewrite Eg.
  destruct (ng_RootID g =? 0) eqn:E0; [eexists; split; [done|]; split; [done|]; intros []; lia|].
  assert (ng_RootID g ≠ 0) as Hroot by lia. fold (cover_slots g c).
  destruct (cover_slots_exact g Hok Hroot c) as (r & -> & Hr).
  destruct r as [used|]; [|eexists; split; [done|]; split; [done|]; intros []; by destruct Hr].
  destruct Hr as [Hg Hu].
  pose proof (directories_used g Hok Hroot c used Hg Hu) as Hd. pose proof (edges_used g Hok Hroot c used Hg Hu) as He.
  destruct (Nat.eqb _ _); [destruct (Nat.eqb _ _)|]; simpl; (eexists; split; [done|]); split; try done.
  - intros _. split; [done..| by apply Hd | by apply He].
  - intros []. by discriminate (proj2 He).
  - intros []. by discriminate (proj2 Hd).
Qed.

(** ** The claims *)

(** C18: the check of namespace guards always answers, whatever parent links the
    client sent, and it accepts exactly the guards that are within the bounds,
    observe no directory, child or slot twice, contain no cycle (each edge
    leads up to a node without a guarded parent, which is the root when one is
    named) and whose directories all lie below the named root. *)
Theorem guards_exact (g : NamespaceGuards) :
  ∃ r, NamespaceGuards_Check (Some g) = Some r ∧ (r = None ↔ guards_ok g).
Proof. apply guards_check_exact. Qed.

(** C17: the check of a name command always answers, and it accepts exactly the
    commands whose fields are well formed and whose guards, when there are any,
    are sound and cover the command precisely: every directory from a named
    parent up to the root is observed, an expected node is guarded in its slot,
    a slot expected empty is not, and no guard is left over. *)
Theorem name_command_exact (c : NameCommand) :
  ∃ r, NameCommand_Check c = Some r ∧
    (r = None ↔ name_command_fields c = None ∧ name_command_initial c = None
                ∧ ∀ g, nc_Guards c = Some g → guards_ok g ∧ command_guarded c g).
Proof.
  unfold NameCommand_Check, then_check, check_then, NamespaceGuards_Check.
  destruct (name_command_fields c); [eexists; split; [done|]; naive_solver|].
  destruct (nc_Guards c) as [g|] eqn:Eg.
  - destruct (guards_check_exact g) as (r & -> & Hr).
    destruct r as [err|]; [eexists; split; [done|]; naive_solver|].
    destruct (name_guards_exact c g Eg) as (r & -> & Hr'); [by apply Hr|].
    destruct r as [err|]; (eexists; split; [done|]); naive_solver.
  - unfold checkNameCommandGuards. rewrite Eg. eexists; split; [done|]. naive_solver.
Qed.
