(* ===== verification/Extents.v ===== *)
(** * Extents: overlap and range replacement

    [packages/advisory/extents.go] and the range algebra of
    [packages/advisory/ranges.go].  [replaceRanges] edits one owner's list of
    byte ranges: it cuts the commanded range out of the held ones, adds it for
    an acquisition, sorts and merges neighbours.  The theorem at the end says
    what that means byte by byte. *)

From S2P Require Import Prelude Errors Identity Ranges.

(** ** Overlap *)

(** [byteLast]: the last byte and whether the extent is valid. *)
Definition byteLast (start length : Z) : Z * bool :=
  if (length =? 0) || (MaxUint64 - start <? length - 1) then (0, false)
  else (u64 (start + length - 1), true).

Definition bytesOverlap (aStart aLength bStart bLength : Z) : bool :=
  let '(aLast, aValid) := byteLast aStart aLength in
  let '(bLast, bValid) := byteLast bStart bLength in
  aValid && bValid && (aStart <=? bLast) && (bStart <=? aLast).

Definition boundaryOverlaps (start length cut : Z) : bool :=
  let '(_, valid) := byteLast start length in
  valid && (start <? cut) && (cut - start <? length).

Definition overlaps (a b : Range) : bool :=
  if Kind a =? Boundary then
    (Kind b =? Bytes) && boundaryOverlaps (Start b) (Length b) (CutAt a)
  else if Kind b =? Boundary then boundaryOverlaps (Start a) (Length a) (CutAt b)
  else bytesOverlap (Start a) (Length a) (Start b) (Length b).

Definition rangeStart (r : Range) : Z :=
  if Kind r =? Boundary then CutAt r else Start r.

(** ** Held claims *)

Record rangeClaim := mkClaim { cl_id : ClaimID; cl_command : RangeCommand }.

#[global] Instance rangeClaim_eq_dec : EqDecision rangeClaim.
Proof. solve_decision. Defined.

Abbreviation cl_range c := (rc_Range (cl_command c)).

Definition with_extent (start length : Z) (r : Range) : Range :=
  {| Kind := Kind r; Start := start; Length := length; CutAt := CutAt r |}.

Definition with_range (r : Range) (c : RangeCommand) : RangeCommand :=
  {| rc_Domain := rc_Domain c; rc_Mode := rc_Mode c; rc_Range := r; rc_Edit := rc_Edit c;
     rc_Claim := rc_Claim c; rc_Wait := rc_Wait c; rc_Conversion := rc_Conversion c;
     rc_Policy := rc_Policy c |}.

(** [command.Wait = false; command.Conversion = PreserveBeforeAcquire] *)
Definition as_held (c : RangeCommand) : RangeCommand :=
  {| rc_Domain := rc_Domain c; rc_Mode := rc_Mode c; rc_Range := rc_Range c;
     rc_Edit := rc_Edit c; rc_Claim := rc_Claim c; rc_Wait := false;
     rc_Conversion := PreserveBeforeAcquire; rc_Policy := rc_Policy c |}.

Definition resize (start length : Z) (c : rangeClaim) : rangeClaim :=
  {| cl_id := cl_id c;
     cl_command := with_range (with_extent start length (cl_range c)) (cl_command c) |}.

(** One turn of the first loop of [replaceRanges]: what remains of a held claim. *)
Definition cut_claim (command : RangeCommand) (existing : rangeClaim) : list rangeClaim :=
  let start := Start (rc_Range command) in
  let last := fst (byteLast start (Length (rc_Range command))) in
  if negb (overlaps (cl_range existing) (rc_Range command)) then [existing]
  else
    let oldRange := cl_range existing in
    let oldLast := fst (byteLast (Start oldRange) (Length oldRange)) in
    (if Start oldRange <? start
     then [resize (Start oldRange) (u64 (start - Start oldRange)) existing] else [])
    ++ (if last <? oldLast
        then [resize (u64 (last + 1)) (u64 (oldLast - last)) existing] else []).

(** [sort.Slice] by start. *)
Fixpoint insert_claim (c : rangeClaim) (l : list rangeClaim) : list rangeClaim :=
  match l with
  | [] => [c]
  | d :: l' => if Start (cl_range c) <=? Start (cl_range d) then c :: l
               else d :: insert_claim c l'
  end.
Fixpoint sort_claims (l : list rangeClaim) : list rangeClaim :=
  match l with
  | [] => []
  | c :: l => insert_claim c (sort_claims l)
  end.

(** The test of the second loop of [replaceRanges]. *)
Definition mergeable (previous current : rangeClaim) : bool :=
  let previousLast :=
    fst (byteLast (Start (cl_range previous)) (Length (cl_range previous))) in
  negb (previousLast =? MaxUint64)
  && (u64 (previousLast + 1) =? Start (cl_range current))
  && (rc_Mode (cl_command previous) =? rc_Mode (cl_command current))
  && bool_decide (rc_Policy (cl_command previous) = rc_Policy (cl_command current))
  && (Length (cl_range current) <=? MaxUint64 - Length (cl_range previous)).

Definition absorb (previous current : rangeClaim) : rangeClaim :=
  resize (Start (cl_range previous))
         (u64 (Length (cl_range previous) + Length (cl_range current))) previous.

(** The second loop, [previous] being the last element of [result]. *)
Fixpoint merge_from (previous : rangeClaim) (next : list rangeClaim) : list rangeClaim :=
  match next with
  | [] => [previous]
  | current :: next =>
      if mergeable previous current then merge_from (absorb previous current) next
      else previous :: merge_from current next
  end.
Definition merge_claims (next : list rangeClaim) : list rangeClaim :=
  match next with
  | [] => []
  | current :: next => merge_from current next
  end.

Definition replaceRanges (old : list rangeClaim) (command : RangeCommand) : list rangeClaim :=
  let next := flat_map (cut_claim command) old in
  let next :=
    if negb (rc_Edit command =? Subtract)
    then next ++ [{| cl_id := EmptyString; cl_command := as_held command |}] else next in
  merge_claims (sort_claims next).

(** ** What a list of claims protects *)

(** A checked byte extent. *)
Definition byte_extent (r : Range) : Prop :=
  Kind r = Bytes ∧ 0 <= Start r ∧ 1 <= Length r ∧ Start r + Length r - 1 <= MaxUint64.

Definition covers (r : Range) (x : Z) : Prop := Start r <= x < Start r + Length r.

#[global] Instance covers_dec r x : Decision (covers r x).
Proof. unfold covers. apply _. Defined.

Definition protection (c : rangeClaim) : Z * RangePolicy :=
  (rc_Mode (cl_command c), rc_Policy (cl_command c)).

(** The protection of byte [x]: that of the first claim over it. *)
Definition held_at (l : list rangeClaim) (x : Z) : option (Z * RangePolicy) :=
  protection <$> List.find (λ c, bool_decide (covers (cl_range c) x)) l.

Definition before (a b : rangeClaim) : Prop :=
  Start (cl_range a) + Length (cl_range a) <= Start (cl_range b).

(** Byte extents in order, none touching another's bytes. *)
Definition wf_claims (l : list rangeClaim) : Prop :=
  Forall (λ c, byte_extent (cl_range c)) l ∧ StronglySorted before l.

(** No two neighbours could be one claim. *)
Definition merged (l : list rangeClaim) : Prop :=
  ∀ i a b, l !! i = Some a → l !! S i = Some b → mergeable a b = false.

(** ** Lemmas *)

Lemma byteLast_valid s n : 0 <= s → 1 <= n → s + n - 1 <= MaxUint64 → byteLast s n = (s + n - 1, true).
Proof.
  intros. unfold byteLast.
  rewrite (proj2 (Z.eqb_neq n 0)), (proj2 (Z.ltb_ge (MaxUint64 - s) (n - 1))) by lia. simpl.
  by rewrite u64_small by (unfold is_u64; lia).
Qed.

Lemma byte_extent_last r :
  byte_extent r → byteLast (Start r) (Length r) = (Start r + Length r - 1, true).
Proof. intros (_ & ? & ? & ?). by apply byteLast_valid. Qed.

Lemma Range_Check_bytes r :
  is_u64 (Start r) → is_u64 (Length r) → Kind r = Bytes → Range_Check r = None → byte_extent r.
Proof.
  unfold is_u64, Range_Check, byte_extent. intros HS HL HK. rewrite HK. simpl.
  destruct (_ || _) eqn:E; [done|]. intros _. bool_prop. unfold Bytes in *. lia.
Qed.

Lemma overlaps_bytes a b :
  byte_extent a → byte_extent b →
  overlaps a b = true ↔ Start a < Start b + Length b ∧ Start b < Start a + Length a.
Proof.
  intros Ha Hb. pose proof Ha as (Ka & ? & ? & ?). pose proof Hb as (Kb & ? & ? & ?).
  unfold overlaps, bytesOverlap. rewrite Ka, Kb. simpl.
  rewrite (byte_extent_last a Ha), (byte_extent_last b Hb). simpl.
  rewrite andb_true_iff, !Z.leb_le. lia.
Qed.

Lemma overlaps_bytes_covers a b :
  byte_extent a → byte_extent b →
  overlaps a b = true ↔ ∃ x, covers a x ∧ covers b x.
Proof.
  intros Ha Hb. rewrite overlaps_bytes by done.
  destruct Ha as (_ & ? & ? & ?), Hb as (_ & ? & ? & ?). unfold covers. split.
  - intros [? ?]. exists (Z.max (Start a) (Start b)). lia.
  - intros (x & ? & ?). lia.
Qed.

Definition checked_kind (r : Range) : Prop := Kind r = Bytes ∨ Kind r = Boundary.

Lemma overlaps_sym a b : checked_kind a → checked_kind b → overlaps a b = overlaps b a.
Proof.
  intros [Ea|Ea] [Eb|Eb]; unfold overlaps; rewrite ?Ea, ?Eb; simpl; try done.
  unfold bytesOverlap. destruct (byteLast (Start a) _), (byteLast (Start b) _).
  apply eq_true_iff_eq. rewrite !andb_true_iff. tauto.
Qed.

(** *** Holding a byte *)

(** Some claim of [l] protects byte [x] with [v]. *)
Definition holds (l : list rangeClaim) (x : Z) (v : Z * RangePolicy) : Prop :=
  ∃ c, c ∈ l ∧ covers (cl_range c) x ∧ protection c = v.

Lemma holds_nil x v : ¬ holds [] x v.
Proof. intros (c & H & _). set_solver. Qed.

Lemma holds_cons c l x v :
  holds (c :: l) x v ↔ (covers (cl_range c) x ∧ protection c = v) ∨ holds l x v.
Proof. unfold holds. set_solver. Qed.

Lemma holds_app l1 l2 x v : holds (l1 ++ l2) x v ↔ holds l1 x v ∨ holds l2 x v.
Proof. unfold holds. set_solver. Qed.

Lemma holds_perm l1 l2 x v : l1 ≡ₚ l2 → holds l1 x v ↔ holds l2 x v.
Proof. intros H. unfold holds. by setoid_rewrite H. Qed.

Lemma held_at_holds l x v : held_at l x = Some v → holds l x v.
Proof.
  unfold held_at. destruct (List.find _ l) as [c|] eqn:E; [|done]. intros [= <-].
  apply List.find_some in E as [Hin Hc]. apply list_elem_of_In in Hin. bool_prop.
  by exists c.
Qed.

Lemma held_at_None l x : held_at l x = None ↔ ∀ v, ¬ holds l x v.
Proof.
  unfold held_at. destruct (List.find _ l) as [c|] eqn:E; simpl.
  - split; [done|]. intros H. exfalso. apply (H (protection c)).
    apply (held_at_holds l x). unfold held_at. by rewrite E.
  - split; [|done]. intros _ v (c & Hin & Hc & _).
    apply list_elem_of_In in Hin. pose proof (List.find_none _ _ E c Hin) as Hf.
    simpl in Hf. bool_prop. done.
Qed.

Lemma before_not_covers a b x :
  before a b → covers (cl_range a) x → covers (cl_range b) x → False.
Proof. unfold before, covers. lia. Qed.

Lemma wf_claims_cons c l :
  wf_claims (c :: l) ↔
  byte_extent (cl_range c) ∧ Forall (before c) l ∧ wf_claims l.
Proof.
  unfold wf_claims. rewrite Forall_cons. split.
  - intros [[Hc Hl] Hs]. inversion Hs; subst. tauto.
  - intros (? & ? & ? & ?). split; [tauto|]. by constructor.
Qed.

Lemma wf_holds_unique l x v w : wf_claims l → holds l x v → holds l x w → v = w.
Proof.
  induction l as [|c l IH]; intros Hwf Hv Hw; [by apply holds_nil in Hv|].
  apply wf_claims_cons in Hwf as (_ & Hb & Hwf). rewrite Forall_forall in Hb.
  apply holds_cons in Hv as [[Hc <-]|Hv]; apply holds_cons in Hw as [[Hc' <-]|Hw]; auto.
  - destruct Hw as (d & Hd & Hd' & _). exfalso. eauto using before_not_covers.
  - destruct Hv as (d & Hd & Hd' & _). exfalso. eauto using before_not_covers.
Qed.

Lemma wf_held_at l x v : wf_claims l → held_at l x = Some v ↔ holds l x v.
Proof.
  intros Hwf. split; [apply held_at_holds|]. intros Hv.
  destruct (held_at l x) as [w|] eqn:E.
  - f_equal. apply held_at_holds in E. by eapply wf_holds_unique.
  - exfalso. rewrite held_at_None in E. by eapply E.
Qed.

(** *** Cutting *)

Lemma protection_resize s n c : protection (resize s n c) = protection c.
Proof. done. Qed.

Lemma wf_claims_nil : wf_claims [].
Proof. split; constructor. Qed.

Lemma not_overlaps_bytes a b :
  byte_extent a → byte_extent b →
  Start a + Length a <= Start b ∨ Start b + Length b <= Start a → overlaps a b = false.
Proof.
  intros Ha Hb H. apply not_true_is_false. rewrite overlaps_bytes by done. lia.
Qed.

(** Solves the side conditions on the at most two pieces of a cut. *)
Ltac pieces :=
  repeat match goal with
  | |- wf_claims [] => apply wf_claims_nil
  | |- wf_claims (_ :: _) => apply wf_claims_cons; split_and!
  | |- Forall _ [] => constructor
  | |- Forall _ (_ :: _) => apply Forall_cons; split_and!
  | |- overlaps _ _ = false => apply not_overlaps_bytes; [|assumption|]
  | |- byte_extent _ => split_and!; [assumption|..]
  | |- before _ _ => unfold before
  | |- protection _ = protection _ => reflexivity
  | |- rc_Domain _ = rc_Domain _ => reflexivity
  end; simpl; try lia.

(** The pieces of a cut claim are extents inside it, in order, off the
    commanded range, and together they are all of it that lies off that range. *)
Lemma cut_claim_spec command c :
  byte_extent (rc_Range command) → byte_extent (cl_range c) →
  wf_claims (cut_claim command c) ∧
  Forall (λ p, Start (cl_range c) <= Start (cl_range p) ∧
               Start (cl_range p) + Length (cl_range p) <= Start (cl_range c) + Length (cl_range c) ∧
               overlaps (cl_range p) (rc_Range command) = false ∧
               protection p = protection c ∧
               rc_Domain (cl_command p) = rc_Domain (cl_command c)) (cut_claim command c) ∧
  (∀ x v, holds (cut_claim command c) x v ↔
          covers (cl_range c) x ∧ protection c = v ∧ ¬ covers (rc_Range command) x).
Proof.
  intros Hm Hc. unfold cut_claim.
  destruct (overlaps _ _) eqn:Eo; simpl.
  - rewrite (byte_extent_last _ Hm), (byte_extent_last _ Hc). simpl.
    pose proof Hm as (_ & ? & ? & ?). pose proof Hc as (Kc & ? & ? & ?).
    apply overlaps_bytes in Eo as [? ?]; [|done..].
    destruct (Z.ltb_spec (Start (cl_range c)) (Start (rc_Range command)));
    destruct (Z.ltb_spec (Start (rc_Range command) + Length (rc_Range command) - 1)
                         (Start (cl_range c) + Length (cl_range c) - 1)); simpl.
    all: rewrite ?u64_small by (unfold is_u64; lia).
    all: split_and!; [pieces|pieces|].
    all: intros x v; rewrite ?holds_cons; simpl; unfold covers; simpl.
    all: pose proof (holds_nil x v); rewrite ?protection_resize.
    all: destruct (Z.lt_ge_cases x (Start (rc_Range command))); intuition (try lia).
  - split_and!; [apply wf_claims_cons; split_and!; [done|constructor|apply wf_claims_nil]|..].
    + repeat constructor; try done; lia.
    + intros x v. rewrite holds_cons. pose proof (holds_nil x v).
      assert (covers (cl_range c) x → ¬ covers (rc_Range command) x); [|tauto].
      intros ? ?. assert (overlaps (cl_range c) (rc_Range command) = true); [|congruence].
      apply overlaps_bytes_covers; eauto.
Qed.

Lemma wf_claims_app l1 l2 :
  wf_claims l1 → wf_claims l2 → (∀ a b, a ∈ l1 → b ∈ l2 → before a b) → wf_claims (l1 ++ l2).
Proof.
  induction l1 as [|c l1 IH]; intros H1 H2 Hb; [done|]. simpl.
  apply wf_claims_cons in H1 as (Hc & Hf & H1). apply wf_claims_cons. split_and!; [done| |].
  - apply Forall_app. split; [done|]. apply Forall_forall. set_solver.
  - apply IH; set_solver.
Qed.

(** The first loop of [replaceRanges]. *)
Lemma cut_claims_spec command old :
  byte_extent (rc_Range command) → wf_claims old →
  let next := flat_map (cut_claim command) old in
  wf_claims next ∧
  Forall (λ p, overlaps (cl_range p) (rc_Range command) = false) next ∧
  (∀ x v, holds next x v ↔ holds old x v ∧ ¬ covers (rc_Range command) x).
Proof.
  intros Hm. induction old as [|c old IH]; intros Hwf.
  { split_and!; [apply wf_claims_nil|constructor|]. intros x v. pose proof (holds_nil x v). tauto. }
  apply wf_claims_cons in Hwf as (Hc & Hb & Hwf). cbn [flat_map].
  destruct (IH Hwf) as (IH1 & IH2 & IH3).
  destruct (cut_claim_spec command c Hm Hc) as (C1 & C2 & C3). rewrite Forall_forall in C2.
  split_and!.
  - apply wf_claims_app; [done..|]. intros a b Ha Hin.
    destruct (C2 a Ha) as (_ & Hend & _).
    apply list_elem_of_In, in_flat_map in Hin as (d & Hd & Hbd).
    rewrite <- list_elem_of_In in Hd, Hbd. rewrite Forall_forall in Hb.
    specialize (Hb d Hd). destruct Hwf as [Hv _]. rewrite Forall_forall in Hv.
    destruct (cut_claim_spec command d Hm (Hv d Hd)) as (_ & D2 & _).
    rewrite Forall_forall in D2. destruct (D2 b Hbd) as (Hst & _).
    unfold before in *. lia.
  - apply Forall_app. split; [|done]. apply Forall_forall. intros p Hp. by apply C2.
  - intros x v. rewrite holds_app, holds_cons, C3, IH3. tauto.
Qed.

(** *** Sorting *)

Lemma insert_claim_perm c l : insert_claim c l ≡ₚ c :: l.
Proof.
  induction l as [|d l IH]; simpl; [done|]. destruct (_ <=? _); [done|].
  rewrite IH. apply Permutation_swap.
Qed.

Lemma sort_claims_perm l : sort_claims l ≡ₚ l.
Proof. induction l as [|c l IH]; simpl; [done|]. by rewrite insert_claim_perm, IH. Qed.

Definition start_le (a b : rangeClaim) : Prop := Start (cl_range a) <= Start (cl_range b).

Lemma sort_claims_sorted l : StronglySorted start_le (sort_claims l).
Proof.
  induction l as [|c l IH]; simpl; [constructor|].
  induction IH as [|d l' Hs IH Hd]; simpl; [repeat constructor|].
  destruct (Z.leb_spec (Start (cl_range c)) (Start (cl_range d))) as [E|E].
  - constructor; [by constructor|]. constructor; [done|].
    eapply Forall_impl; [done|]. unfold start_le. simpl. lia.
  - constructor; [done|]. rewrite insert_claim_perm. constructor; [unfold start_le; lia|done].
Qed.

(** Two claims share no byte, in either order. *)
Definition apart (a b : rangeClaim) : Prop := before a b ∨ before b a.

Lemma apart_perm l1 l2 : l1 ≡ₚ l2 → ForallOrdPairs apart l1 → ForallOrdPairs apart l2.
Proof.
  induction 1 as [|x l1 l2 Hp IH|x y l|l1 l2 l3 _ IH1 _ IH2]; intros HF; auto.
  - inversion HF as [|? ? Hx HF']; subst. constructor; [|auto]. by rewrite <- Hp.
  - inversion HF as [|? ? Hy HF']; subst. inversion HF' as [|? ? Hx HF'']; subst.
    apply Forall_cons in Hy as [Hyx Hy].
    constructor; [constructor; [unfold apart in *; tauto|done]|by constructor].
Qed.

Lemma wf_apart l : wf_claims l → ForallOrdPairs apart l.
Proof.
  induction l as [|c l IH]; [constructor|]. rewrite wf_claims_cons. intros (_ & Hb & Hwf).
  constructor; [|auto]. eapply Forall_impl; [done|]. unfold apart. auto.
Qed.

Lemma sorted_apart_wf l :
  Forall (λ c, byte_extent (cl_range c)) l → StronglySorted start_le l →
  ForallOrdPairs apart l → wf_claims l.
Proof.
  induction l as [|c l IH]; intros Hv Hs Ha; [apply wf_claims_nil|].
  apply Forall_cons in Hv as [Hc Hv]. inversion Hs as [|? ? Hs' Hsc]; subst.
  inversion Ha as [|? ? Hac Ha']; subst. apply wf_claims_cons. split_and!; [done| |auto].
  rewrite Forall_forall in *. intros d Hd.
  destruct (Hac d Hd) as [|Hdc]; [done|]. specialize (Hsc d Hd).
  specialize (Hv d Hd) as (_ & _ & ? & _). unfold before, start_le in *. lia.
Qed.

(** *** Merging *)

Lemma mergeable_true a b :
  byte_extent (cl_range a) → byte_extent (cl_range b) → mergeable a b = true →
  Start (cl_range b) = Start (cl_range a) + Length (cl_range a) ∧
  protection a = protection b ∧
  Length (cl_range a) + Length (cl_range b) <= MaxUint64.
Proof.
  intros Ha Hb H. unfold mergeable in H. rewrite (byte_extent_last _ Ha) in H. simpl in H.
  destruct Ha as (_ & ? & ? & ?). bool_prop. rewrite u64_small in * by (unfold is_u64; lia).
  unfold protection. split_and!; [lia|congruence|lia].
Qed.

Lemma absorb_extent a b :
  byte_extent (cl_range a) → byte_extent (cl_range b) → mergeable a b = true →
  byte_extent (cl_range (absorb a b)) ∧
  (∀ x, covers (cl_range (absorb a b)) x ↔ covers (cl_range a) x ∨ covers (cl_range b) x) ∧
  Start (cl_range (absorb a b)) + Length (cl_range (absorb a b)) =
    Start (cl_range b) + Length (cl_range b).
Proof.
  intros Ha Hb H. destruct (mergeable_true a b Ha Hb H) as (? & ? & ?).
  destruct Ha as (Ka & ? & ? & ?), Hb as (_ & ? & ? & ?).
  unfold absorb, byte_extent, covers. simpl. rewrite u64_small by (unfold is_u64; lia).
  split_and!; try done; lia.
Qed.

Lemma mergeable_head previous current head :
  Start (cl_range head) = Start (cl_range current) → protection head = protection current →
  Length (cl_range current) <= Length (cl_range head) →
  mergeable previous current = false → mergeable previous head = false.
Proof.
  intros Hs Hp Hl H. apply not_true_is_false. intros Hm. apply (not_true_iff_false _) in H.
  apply H. unfold mergeable, protection in *. injection Hp as Hp1 Hp2.
  rewrite <- Hs, <- Hp1, <- Hp2. rewrite !andb_true_iff, Z.leb_le in *. intuition lia.
Qed.

Lemma merge_from_spec next : ∀ previous,
  wf_claims (previous :: next) →
  (∃ head tail, merge_from previous next = head :: tail ∧
     Start (cl_range head) = Start (cl_range previous) ∧ protection head = protection previous ∧
     Length (cl_range previous) <= Length (cl_range head)) ∧
  wf_claims (merge_from previous next) ∧ merged (merge_from previous next) ∧
  (∀ d, d ∈ merge_from previous next → Start (cl_range previous) <= Start (cl_range d)) ∧
  (∀ x v, holds (merge_from previous next) x v ↔ holds (previous :: next) x v).
Proof.
  induction next as [|current next IH]; intros previous Hwf; simpl.
  { split_and!; [by eauto 10 with lia|done| | |done].
    - intros i a b Ha Hb. destruct i; done.
    - intros d Hd. assert (d = previous) as -> by set_solver. lia. }
  apply wf_claims_cons in Hwf as (Hp & Hb & Hwf).
  pose proof Hwf as (Hc & Hb' & Hwf')%wf_claims_cons.
  apply Forall_cons in Hb as [Hpc Hb].
  destruct (mergeable previous current) eqn:Em.
  - destruct (absorb_extent _ _ Hp Hc Em) as (He & Hcov & Hend).
    destruct (mergeable_true _ _ Hp Hc Em) as (Hadj & Hprot & Hlen).
    destruct (IH (absorb previous current)) as ((h & t & E & Eh & Ph & Lh) & I1 & I2 & I3 & I4).
    { apply wf_claims_cons. split_and!; [done| |done].
      eapply Forall_impl; [exact Hb'|]. unfold before. intros. lia. }
    change (Start (cl_range (absorb previous current))) with (Start (cl_range previous)) in *.
    split_and!; [|done..|].
    + exists h, t. split_and!; [done..|]. destruct Hc as (_ & _ & ? & _). lia.
    + intros x v. rewrite I4, !holds_cons, Hcov.
      change (protection (absorb previous current)) with (protection previous).
      rewrite Hprot. tauto.
  - destruct (IH current Hwf) as ((h & t & E & Eh & Ph & Lh) & I1 & I2 & I3 & I4).
    split_and!.
    + eauto 10 with lia.
    + apply wf_claims_cons. split_and!; [done| |done]. apply Forall_forall. intros d Hd.
      specialize (I3 d Hd). unfold before in *. lia.
    + intros [|i] a b Ha Hb1; [|by eapply I2]. simpl in Ha. injection Ha as <-.
      rewrite E in Hb1. injection Hb1 as <-. by eapply mergeable_head.
    + intros d [->|Hd]%elem_of_cons; [lia|]. specialize (I3 d Hd).
      destruct Hp as (_ & _ & ? & _). unfold before in *. lia.
    + intros x v. rewrite !holds_cons, I4, holds_cons. tauto.
Qed.

Lemma merge_claims_spec l :
  wf_claims l → wf_claims (merge_claims l) ∧ merged (merge_claims l) ∧
  (∀ x v, holds (merge_claims l) x v ↔ holds l x v).
Proof.
  destruct l as [|c l]; intros Hwf; simpl; [split_and!; done|].
  by destruct (merge_from_spec l c Hwf) as (_ & ? & ? & _ & ?).
Qed.

(** *** The whole replacement *)

Lemma replaceRanges_spec old command :
  byte_extent (rc_Range command) → wf_claims old →
  wf_claims (replaceRanges old command) ∧ merged (replaceRanges old command) ∧
  (∀ x v, holds (replaceRanges old command) x v ↔
     (holds old x v ∧ ¬ covers (rc_Range command) x) ∨
     (rc_Edit command ≠ Subtract ∧ covers (rc_Range command) x ∧
      v = (rc_Mode command, rc_Policy command))).
Proof.
  intros Hm Hwf. unfold replaceRanges.
  destruct (cut_claims_spec command old Hm Hwf) as (C1 & C2 & C3).
  set (next := flat_map (cut_claim command) old) in *.
  set (added := {| cl_id := EmptyString; cl_command := as_held command |}).
  set (next' := if negb (rc_Edit command =? Subtract) then next ++ [added] else next).
  assert (Forall (λ c, byte_extent (cl_range c)) next' ∧ ForallOrdPairs apart next') as [Hv Ha].
  { unfold next'. destruct (negb _).
    - split; [apply Forall_app; split; [apply C1|constructor; [exact Hm|constructor]]|].
      apply (apart_perm (added :: next)); [by rewrite Permutation_app_comm|].
      constructor; [|by apply wf_apart]. rewrite Forall_forall in *. intros c Hc.
      specialize (C2 c Hc). destruct C1 as [C1 _]. rewrite Forall_forall in C1.
      apply not_true_iff_false in C2. rewrite overlaps_bytes in C2 by auto.
      unfold apart, before. simpl. lia.
    - split; [apply C1|by apply wf_apart]. }
  destruct (merge_claims_spec (sort_claims next')) as (M1 & M2 & M3).
  { apply sorted_apart_wf; [by rewrite sort_claims_perm|apply sort_claims_sorted|].
    by apply (apart_perm next'); [symmetry; apply sort_claims_perm|]. }
  split_and!; [done..|]. intros x v.
  rewrite M3, (holds_perm _ next') by apply sort_claims_perm.
  unfold next'. destruct (Z.eqb_spec (rc_Edit command) Subtract); simpl.
  - rewrite C3. tauto.
  - rewrite holds_app, holds_cons, C3. pose proof (holds_nil x v).
    change (protection added) with (rc_Mode command, rc_Policy command). naive_solver.
Qed.

(** A claim of the result that overlaps [r] comes from an old claim over [r] or
    from the command itself. *)
Lemma replaceRanges_overlap old command d r :
  byte_extent (rc_Range command) → wf_claims old → byte_extent r →
  d ∈ replaceRanges old command → overlaps (cl_range d) r = true →
  (∃ c, c ∈ old ∧ overlaps (cl_range c) r = true ∧ protection c = protection d) ∨
  (rc_Edit command ≠ Subtract ∧ overlaps (rc_Range command) r = true ∧
   protection d = (rc_Mode command, rc_Policy command)).
Proof.
  intros Hm Hwf Hr Hd Ho. destruct (replaceRanges_spec old command Hm Hwf) as ([R1 _] & _ & R3).
  rewrite Forall_forall in R1. apply overlaps_bytes_covers in Ho as (x & Hx & Hxr); [|by auto..].
  assert (holds (replaceRanges old command) x (protection d)) as Hh by (exists d; auto).
  apply R3 in Hh as [[(c & Hc & Hcx & Hp) _]|(He & Hcx & Hp)].
  - left. exists c. destruct Hwf as [Hv _]. rewrite Forall_forall in Hv.
    split_and!; [done| |done]. apply overlaps_bytes_covers; eauto.
  - right. split_and!; [done| |done]. apply overlaps_bytes_covers; eauto.
Qed.

(** ** Theorems *)

(** Two checked ranges overlap exactly when they share a byte, or when the
    one that is a boundary cuts strictly inside the other's bytes; two
    boundaries never overlap. *)
Theorem overlaps_exact (a b : Range) :
  is_u64 (Start a) → is_u64 (Length a) → is_u64 (Start b) → is_u64 (Length b) →
  Range_Check a = None → Range_Check b = None →
  overlaps a b = true ↔
    if Kind a =? Boundary then
      Kind b = Bytes ∧ Start b < CutAt a < Start b + Length b
    else if Kind b =? Boundary then Start a < CutAt b < Start a + Length a
    else ∃ x, covers a x ∧ covers b x.
Proof.
  intros Sa La Sb Lb Ca Cb. unfold overlaps.
  destruct (Z.eqb_spec (Kind a) Boundary) as [Ka|Ka].
  - destruct (Z.eqb_spec (Kind b) Bytes) as [Kb|Kb]; simpl; [|naive_solver].
    pose proof (Range_Check_bytes b Sb Lb Kb Cb) as Hb.
    unfold boundaryOverlaps. rewrite (byte_extent_last b Hb).
    rewrite !andb_true_iff, !Z.ltb_lt. split; [intros; split; [done|lia]|lia].
  - assert (Kind a = Bytes) as Ka'.
    { unfold Range_Check in Ca. destruct (Z.eqb_spec (Kind a) Bytes); [done|].
      destruct (Z.eqb_spec (Kind a) Boundary); done. }
    pose proof (Range_Check_bytes a Sa La Ka' Ca) as Ha.
    destruct (Z.eqb_spec (Kind b) Boundary) as [Kb|Kb].
    + unfold boundaryOverlaps. rewrite (byte_extent_last a Ha).
      rewrite !andb_true_iff, !Z.ltb_lt. split; [intros; lia|lia].
    + assert (Kind b = Bytes) as Kb'.
      { unfold Range_Check in Cb. destruct (Z.eqb_spec (Kind b) Bytes); [done|].
        destruct (Z.eqb_spec (Kind b) Boundary); done. }
      pose proof (Range_Check_bytes b Sb Lb Kb' Cb) as Hb.
      rewrite <- (overlaps_bytes_covers a b Ha Hb). unfold overlaps.
      by rewrite Ka', Kb'.
Qed.

(** Ten bytes at the start of the space and the range from byte nine to its end. *)
Lemma overlaps_exact_witness :
  ∃ x, covers (mkRange Bytes 0 10 0) x ∧ covers (mkRange Bytes 9 18446744073709551607 0) x.
Proof.
  apply (overlaps_exact (mkRange Bytes 0 10 0) (mkRange Bytes 9 18446744073709551607 0));
    [vm_compute; split; discriminate..|reflexivity|reflexivity|reflexivity].
Defined.

(** C30: replacing or subtracting a range changes exactly the bytes of the
    command: a subtracted byte is released, a replaced one takes the command's
    mode and policy, and every other byte keeps the protection it had.  The new
    list is again ordered, disjoint and fully merged, so no byte is ever held
    twice and no byte is lost at the ends of the 64-bit space. *)
Theorem replaceRanges_bytewise (old : list rangeClaim) (command : RangeCommand) (x : Z) :
  wf_claims old → byte_extent (rc_Range command) →
  held_at (replaceRanges old command) x =
    (if decide (covers (rc_Range command) x)
     then if rc_Edit command =? Subtract then None
          else Some (rc_Mode command, rc_Policy command)
     else held_at old x) ∧
  wf_claims (replaceRanges old command) ∧ merged (replaceRanges old command).
Proof.
  intros Hwf Hm. destruct (replaceRanges_spec old command Hm Hwf) as (R1 & R2 & R3).
  split; [|done]. apply option_eq. intros v. rewrite wf_held_at, R3 by done.
  destruct (decide (covers (rc_Range command) x)) as [Hc|Hc].
  - destruct (Z.eqb_spec (rc_Edit command) Subtract); naive_solver.
  - rewrite wf_held_at by done. tauto.
Qed.

Definition example_command (mode start length edit : Z) : RangeCommand :=
  {| rc_Domain := DomainRecord; rc_Mode := mode; rc_Range := mkRange Bytes start length 0;
     rc_Edit := edit; rc_Claim := EmptyString; rc_Wait := false;
     rc_Conversion := PreserveBeforeAcquire; rc_Policy := NoPolicy |}.

(** Unlocking the middle of an exclusive range leaves its two ends. *)
Lemma replaceRanges_bytewise_witness :
  let old := [{| cl_id := EmptyString; cl_command := example_command RangeExclusive 0 100 Replace |}] in
  held_at (replaceRanges old (example_command RangeExclusive 10 20 Subtract)) 15 = None ∧
  held_at (replaceRanges old (example_command RangeExclusive 10 20 Subtract)) 30 =
    Some (RangeExclusive, NoPolicy).
Proof.
  intros old.
  assert (wf_claims old) as Hwf.
  { apply wf_claims_cons. split_and!; [|constructor|apply wf_claims_nil].
    vm_compute. split_and!; (reflexivity || discriminate). }
  assert (byte_extent (rc_Range (example_command RangeExclusive 10 20 Subtract))) as Hm.
  { vm_compute. split_and!; (reflexivity || discriminate). }
  split.
  - exact (proj1 (replaceRanges_bytewise old _ 15 Hwf Hm)).
  - exact (proj1 (replaceRanges_bytewise old _ 30 Hwf Hm)).
Defined.
