(* ===== verification/AdvisoryState.v ===== *)
(** * The advisory coordinator: state

    The data of [packages/advisory]: one [Coordinator] per native volume with
    its sessions, owners, use claims and range requests.  Go objects that are
    shared through pointers live in stores of the model: [c_heap] holds every
    [*Session] ever made (the live ones, the Go map [c.sessions], are the ids in
    [c_sessions]) and [c_actions] every [*request], which [Session.actions],
    [Coordinator.waiting] and running calls point to.  The clock [c.now] is
    [c_now], read in order; [c_reads] counts the readings. *)

From S2P Require Import Prelude Errors Identity Ranges Extents.

(** ** Configuration *)

Record Config := {
  cfg_MaxSessions : Z; cfg_MaxOwners : Z; cfg_MaxRanges : Z; cfg_MaxRequests : Z;
  cfg_MaxWaiters : Z; cfg_MaxDeadlockEdges : Z; cfg_MaxCommands : Z;
  cfg_MaxMaterializedBytes : Z; cfg_MaxMaterializations : Z; cfg_MaxFileBytes : Z;
  cfg_MaxFileAttempts : Z; cfg_FileOperationTimeout : Z }.

Definition DefaultConfig : Config :=
  {| cfg_MaxSessions := 1024; cfg_MaxOwners := 32768; cfg_MaxRanges := 262144;
     cfg_MaxRequests := 262144; cfg_MaxWaiters := 8192; cfg_MaxDeadlockEdges := 65536;
     cfg_MaxCommands := 64; cfg_MaxMaterializedBytes := 2147483648;
     cfg_MaxMaterializations := 32; cfg_MaxFileBytes := 1073741824;
     cfg_MaxFileAttempts := 8; cfg_FileOperationTimeout := 30 * second |}.

(** [Config.Check]; the platform's largest slice is [int64(^uint(0)>>1)]. *)
Definition Config_Check (c : Config) : option error :=
  if (cfg_MaxSessions c <=? 0) || (cfg_MaxOwners c <=? 0) || (cfg_MaxRanges c <=? 0)
     || (cfg_MaxRequests c <=? 0) || (cfg_MaxWaiters c <? 0) || (cfg_MaxDeadlockEdges c <=? 0)
     || (cfg_MaxCommands c <=? 0) || (cfg_MaxMaterializedBytes c <=? 0)
     || (cfg_MaxMaterializations c <=? 0) || (cfg_MaxFileBytes c <=? 0)
     || (cfg_MaxFileAttempts c <=? 0) || (cfg_FileOperationTimeout c <=? 0)
  then Some (Wrapped (Errno EINVAL))
  else if MaxInt64 <? cfg_MaxFileBytes c then Some (Wrapped (Errno EINVAL))
  else if Z.quot (cfg_MaxMaterializedBytes c) 2 <? cfg_MaxFileBytes c
  then Some (Wrapped (Errno EINVAL))
  else None.

(** ** Owners, uses and requests *)

(** The embedded [actor] is its two fields. *)
Record ownerKey := mkKey { ok_session : Z; ok_owner : Z; ok_node : Z; ok_domain : Z }.

#[global] Instance ownerKey_eq_dec : EqDecision ownerKey.
Proof. solve_decision. Defined.
#[global] Instance ownerKey_countable : Countable ownerKey.
Proof.
  refine (inj_countable' (λ k, (ok_session k, ok_owner k, ok_node k, ok_domain k))
            (λ '(s, o, n, d), mkKey s o n d) _).
  by intros [].
Defined.

Record ownerBinding := { ob_node : Z; ob_scope : UseScope; ob_options : OwnerOptions }.

Record ownerState := mkOwner { os_ranges : list rangeClaim; os_pending : Z }.

Record useClaim := { us_node : Z; us_claim : UseClaim }.

#[global] Instance useClaim_eq_dec : EqDecision useClaim.
Proof. solve_decision. Defined.

(** The identity of a [*request] and of an [Order] closure. *)
Definition reqid := nat.
Definition Order := nat.

Record request := mkRequest {
  q_key : ownerKey;
  q_id : LockRequestID;
  q_epoch : Z;
  q_commands : list RangeCommand;
  q_result : RangeAttempt;
  q_expires : Z;
  q_order : option Order;
  q_pending : bool;
  q_prepared : bool;
  q_converting : bool;
  q_released : list bool }.

Record session := mkSession {
  s_id : Z;
  s_options : FileSessionOptions;
  s_epoch : Z;
  s_epochUntil : Z;
  s_actions : gmap LockRequestID reqid;
  s_bindings : gmap Z ownerBinding;
  s_nextOwner : Z;
  s_owners : Z;
  s_ranges : Z;
  s_pending : Z;
  s_retiring : bool;
  s_retired : bool;
  s_retireDone : bool;
  s_retireErr : option error }.

Record coordinator := mkCoordinator {
  c_config : Config;
  c_now : nat → Z;
  c_reads : nat;
  c_nextSession : Z;
  c_sessions : gset Z;
  c_heap : gmap Z session;
  c_owners : gmap ownerKey ownerState;
  c_waiting : list reqid;
  c_ranges : Z;
  c_requests : Z;
  c_registeredOwners : Z;
  c_uses : gmap UseScope useClaim;
  c_materializedBytes : Z;
  c_materializations : Z;
  c_actions : gmap reqid request;
  c_nextRequest : reqid;
  c_reservations : gmap nat Z;
  c_nextReservation : nat }.

(** ** Field updates *)

Definition set_ra_Request (v : LockRequestID) (x : RangeAttempt) : RangeAttempt :=
  mkAttempt v (ra_State x) (ra_Commands x) (ra_Claims x) (ra_Conflict x) (ra_Rejection x)
    (ra_FailedAt x) (ra_Effects x) (ra_EverGranted x) (ra_HistoryRemaining x).
Definition set_ra_State (v : AttemptState) (x : RangeAttempt) : RangeAttempt :=
  mkAttempt (ra_Request x) v (ra_Commands x) (ra_Claims x) (ra_Conflict x) (ra_Rejection
    x) (ra_FailedAt x) (ra_Effects x) (ra_EverGranted x) (ra_HistoryRemaining x).
Definition set_ra_Commands (v : list RangeCommand) (x : RangeAttempt) : RangeAttempt :=
  mkAttempt (ra_Request x) (ra_State x) v (ra_Claims x) (ra_Conflict x) (ra_Rejection x)
    (ra_FailedAt x) (ra_Effects x) (ra_EverGranted x) (ra_HistoryRemaining x).
Definition set_ra_Claims (v : list ClaimID) (x : RangeAttempt) : RangeAttempt :=
  mkAttempt (ra_Request x) (ra_State x) (ra_Commands x) v (ra_Conflict x) (ra_Rejection x)
    (ra_FailedAt x) (ra_Effects x) (ra_EverGranted x) (ra_HistoryRemaining x).
Definition set_ra_Conflict (v : RangeConflict) (x : RangeAttempt) : RangeAttempt :=
  mkAttempt (ra_Request x) (ra_State x) (ra_Commands x) (ra_Claims x) v (ra_Rejection x)
    (ra_FailedAt x) (ra_Effects x) (ra_EverGranted x) (ra_HistoryRemaining x).
Definition set_ra_Rejection (v : RejectionCode) (x : RangeAttempt) : RangeAttempt :=
  mkAttempt (ra_Request x) (ra_State x) (ra_Commands x) (ra_Claims x) (ra_Conflict x) v
    (ra_FailedAt x) (ra_Effects x) (ra_EverGranted x) (ra_HistoryRemaining x).
Definition set_ra_FailedAt (v : option nat) (x : RangeAttempt) : RangeAttempt :=
  mkAttempt (ra_Request x) (ra_State x) (ra_Commands x) (ra_Claims x) (ra_Conflict x)
    (ra_Rejection x) v (ra_Effects x) (ra_EverGranted x) (ra_HistoryRemaining x).
Definition set_ra_Effects (v : list RangeEffect) (x : RangeAttempt) : RangeAttempt :=
  mkAttempt (ra_Request x) (ra_State x) (ra_Commands x) (ra_Claims x) (ra_Conflict x)
    (ra_Rejection x) (ra_FailedAt x) v (ra_EverGranted x) (ra_HistoryRemaining x).
Definition set_ra_EverGranted (v : bool) (x : RangeAttempt) : RangeAttempt :=
  mkAttempt (ra_Request x) (ra_State x) (ra_Commands x) (ra_Claims x) (ra_Conflict x)
    (ra_Rejection x) (ra_FailedAt x) (ra_Effects x) v (ra_HistoryRemaining x).
Definition set_ra_HistoryRemaining (v : Z) (x : RangeAttempt) : RangeAttempt :=
  mkAttempt (ra_Request x) (ra_State x) (ra_Commands x) (ra_Claims x) (ra_Conflict x)
    (ra_Rejection x) (ra_FailedAt x) (ra_Effects x) (ra_EverGranted x) v.

Definition set_q_key (v : ownerKey) (x : request) : request :=
  mkRequest v (q_id x) (q_epoch x) (q_commands x) (q_result x) (q_expires x) (q_order x)
    (q_pending x) (q_prepared x) (q_converting x) (q_released x).
Definition set_q_id (v : LockRequestID) (x : request) : request :=
  mkRequest (q_key x) v (q_epoch x) (q_commands x) (q_result x) (q_expires x) (q_order x)
    (q_pending x) (q_prepared x) (q_converting x) (q_released x).
Definition set_q_epoch (v : Z) (x : request) : request :=
  mkRequest (q_key x) (q_id x) v (q_commands x) (q_result x) (q_expires x) (q_order x)
    (q_pending x) (q_prepared x) (q_converting x) (q_released x).
Definition set_q_commands (v : list RangeCommand) (x : request) : request :=
  mkRequest (q_key x) (q_id x) (q_epoch x) v (q_result x) (q_expires x) (q_order x)
    (q_pending x) (q_prepared x) (q_converting x) (q_released x).
Definition set_q_result (v : RangeAttempt) (x : request) : request :=
  mkRequest (q_key x) (q_id x) (q_epoch x) (q_commands x) v (q_expires x) (q_order x)
    (q_pending x) (q_prepared x) (q_converting x) (q_released x).
Definition set_q_expires (v : Z) (x : request) : request :=
  mkRequest (q_key x) (q_id x) (q_epoch x) (q_commands x) (q_result x) v (q_order x)
    (q_pending x) (q_prepared x) (q_converting x) (q_released x).
Definition set_q_order (v : option Order) (x : request) : request :=
  mkRequest (q_key x) (q_id x) (q_epoch x) (q_commands x) (q_result x) (q_expires x) v
    (q_pending x) (q_prepared x) (q_converting x) (q_released x).
Definition set_q_pending (v : bool) (x : request) : request :=
  mkRequest (q_key x) (q_id x) (q_epoch x) (q_commands x) (q_result x) (q_expires x)
    (q_order x) v (q_prepared x) (q_converting x) (q_released x).
Definition set_q_prepared (v : bool) (x : request) : request :=
  mkRequest (q_key x) (q_id x) (q_epoch x) (q_commands x) (q_result x) (q_expires x)
    (q_order x) (q_pending x) v (q_converting x) (q_released x).
Definition set_q_converting (v : bool) (x : request) : request :=
  mkRequest (q_key x) (q_id x) (q_epoch x) (q_commands x) (q_result x) (q_expires x)
    (q_order x) (q_pending x) (q_prepared x) v (q_released x).
Definition set_q_released (v : list bool) (x : request) : request :=
  mkRequest (q_key x) (q_id x) (q_epoch x) (q_commands x) (q_result x) (q_expires x)
    (q_order x) (q_pending x) (q_prepared x) (q_converting x) v.

Definition set_s_id (v : Z) (x : session) : session :=
  mkSession v (s_options x) (s_epoch x) (s_epochUntil x) (s_actions x) (s_bindings x)
    (s_nextOwner x) (s_owners x) (s_ranges x) (s_pending x) (s_retiring x) (s_retired x)
    (s_retireDone x) (s_retireErr x).
Definition set_s_options (v : FileSessionOptions) (x : session) : session :=
  mkSession (s_id x) v (s_epoch x) (s_epochUntil x) (s_actions x) (s_bindings x)
    (s_nextOwner x) (s_owners x) (s_ranges x) (s_pending x) (s_retiring x) (s_retired x)
    (s_retireDone x) (s_retireErr x).
Definition set_s_epoch (v : Z) (x : session) : session :=
  mkSession (s_id x) (s_options x) v (s_epochUntil x) (s_actions x) (s_bindings x)
    (s_nextOwner x) (s_owners x) (s_ranges x) (s_pending x) (s_retiring x) (s_retired x)
    (s_retireDone x) (s_retireErr x).
Definition set_s_epochUntil (v : Z) (x : session) : session :=
  mkSession (s_id x) (s_options x) (s_epoch x) v (s_actions x) (s_bindings x) (s_nextOwner
    x) (s_owners x) (s_ranges x) (s_pending x) (s_retiring x) (s_retired x) (s_retireDone
    x) (s_retireErr x).
Definition set_s_actions (v : gmap LockRequestID reqid) (x : session) : session :=
  mkSession (s_id x) (s_options x) (s_epoch x) (s_epochUntil x) v (s_bindings x)
    (s_nextOwner x) (s_owners x) (s_ranges x) (s_pending x) (s_retiring x) (s_retired x)
    (s_retireDone x) (s_retireErr x).
Definition set_s_bindings (v : gmap Z ownerBinding) (x : session) : session :=
  mkSession (s_id x) (s_options x) (s_epoch x) (s_epochUntil x) (s_actions x) v
    (s_nextOwner x) (s_owners x) (s_ranges x) (s_pending x) (s_retiring x) (s_retired x)
    (s_retireDone x) (s_retireErr x).
Definition set_s_nextOwner (v : Z) (x : session) : session :=
  mkSession (s_id x) (s_options x) (s_epoch x) (s_epochUntil x) (s_actions x) (s_bindings
    x) v (s_owners x) (s_ranges x) (s_pending x) (s_retiring x) (s_retired x)
    (s_retireDone x) (s_retireErr x).
Definition set_s_owners (v : Z) (x : session) : session :=
  mkSession (s_id x) (s_options x) (s_epoch x) (s_epochUntil x) (s_actions x) (s_bindings
    x) (s_nextOwner x) v (s_ranges x) (s_pending x) (s_retiring x) (s_retired x)
    (s_retireDone x) (s_retireErr x).
Definition set_s_ranges (v : Z) (x : session) : session :=
  mkSession (s_id x) (s_options x) (s_epoch x) (s_epochUntil x) (s_actions x) (s_bindings
    x) (s_nextOwner x) (s_owners x) v (s_pending x) (s_retiring x) (s_retired x)
    (s_retireDone x) (s_retireErr x).
Definition set_s_pending (v : Z) (x : session) : session :=
  mkSession (s_id x) (s_options x) (s_epoch x) (s_epochUntil x) (s_actions x) (s_bindings
    x) (s_nextOwner x) (s_owners x) (s_ranges x) v (s_retiring x) (s_retired x)
    (s_retireDone x) (s_retireErr x).
Definition set_s_retiring (v : bool) (x : session) : session :=
  mkSession (s_id x) (s_options x) (s_epoch x) (s_epochUntil x) (s_actions x) (s_bindings
    x) (s_nextOwner x) (s_owners x) (s_ranges x) (s_pending x) v (s_retired x)
    (s_retireDone x) (s_retireErr x).
Definition set_s_retired (v : bool) (x : session) : session :=
  mkSession (s_id x) (s_options x) (s_epoch x) (s_epochUntil x) (s_actions x) (s_bindings
    x) (s_nextOwner x) (s_owners x) (s_ranges x) (s_pending x) (s_retiring x) v
    (s_retireDone x) (s_retireErr x).
Definition set_s_retireDone (v : bool) (x : session) : session :=
  mkSession (s_id x) (s_options x) (s_epoch x) (s_epochUntil x) (s_actions x) (s_bindings
    x) (s_nextOwner x) (s_owners x) (s_ranges x) (s_pending x) (s_retiring x) (s_retired
    x) v (s_retireErr x).
Definition set_s_retireErr (v : option error) (x : session) : session :=
  mkSession (s_id x) (s_options x) (s_epoch x) (s_epochUntil x) (s_actions x) (s_bindings
    x) (s_nextOwner x) (s_owners x) (s_ranges x) (s_pending x) (s_retiring x) (s_retired
    x) (s_retireDone x) v.

Definition set_c_config (v : Config) (x : coordinator) : coordinator :=
  mkCoordinator v (c_now x) (c_reads x) (c_nextSession x) (c_sessions x) (c_heap x)
    (c_owners x) (c_waiting x) (c_ranges x) (c_requests x) (c_registeredOwners x) (c_uses
    x) (c_materializedBytes x) (c_materializations x) (c_actions x) (c_nextRequest x)
    (c_reservations x) (c_nextReservation x).
Definition set_c_now (v : nat → Z) (x : coordinator) : coordinator :=
  mkCoordinator (c_config x) v (c_reads x) (c_nextSession x) (c_sessions x) (c_heap x)
    (c_owners x) (c_waiting x) (c_ranges x) (c_requests x) (c_registeredOwners x) (c_uses
    x) (c_materializedBytes x) (c_materializations x) (c_actions x) (c_nextRequest x)
    (c_reservations x) (c_nextReservation x).
Definition set_c_reads (v : nat) (x : coordinator) : coordinator :=
  mkCoordinator (c_config x) (c_now x) v (c_nextSession x) (c_sessions x) (c_heap x)
    (c_owners x) (c_waiting x) (c_ranges x) (c_requests x) (c_registeredOwners x) (c_uses
    x) (c_materializedBytes x) (c_materializations x) (c_actions x) (c_nextRequest x)
    (c_reservations x) (c_nextReservation x).
Definition set_c_nextSession (v : Z) (x : coordinator) : coordinator :=
  mkCoordinator (c_config x) (c_now x) (c_reads x) v (c_sessions x) (c_heap x) (c_owners
    x) (c_waiting x) (c_ranges x) (c_requests x) (c_registeredOwners x) (c_uses x)
    (c_materializedBytes x) (c_materializations x) (c_actions x) (c_nextRequest x)
    (c_reservations x) (c_nextReservation x).
Definition set_c_sessions (v : gset Z) (x : coordinator) : coordinator :=
  mkCoordinator (c_config x) (c_now x) (c_reads x) (c_nextSession x) v (c_heap x)
    (c_owners x) (c_waiting x) (c_ranges x) (c_requests x) (c_registeredOwners x) (c_uses
    x) (c_materializedBytes x) (c_materializations x) (c_actions x) (c_nextRequest x)
    (c_reservations x) (c_nextReservation x).
Definition set_c_heap (v : gmap Z session) (x : coordinator) : coordinator :=
  mkCoordinator (c_config x) (c_now x) (c_reads x) (c_nextSession x) (c_sessions x) v
    (c_owners x) (c_waiting x) (c_ranges x) (c_requests x) (c_registeredOwners x) (c_uses
    x) (c_materializedBytes x) (c_materializations x) (c_actions x) (c_nextRequest x)
    (c_reservations x) (c_nextReservation x).
Definition set_c_owners (v : gmap ownerKey ownerState) (x : coordinator) : coordinator :=
  mkCoordinator (c_config x) (c_now x) (c_reads x) (c_nextSession x) (c_sessions x)
    (c_heap x) v (c_waiting x) (c_ranges x) (c_requests x) (c_registeredOwners x) (c_uses
    x) (c_materializedBytes x) (c_materializations x) (c_actions x) (c_nextRequest x)
    (c_reservations x) (c_nextReservation x).
Definition set_c_waiting (v : list reqid) (x : coordinator) : coordinator :=
  mkCoordinator (c_config x) (c_now x) (c_reads x) (c_nextSession x) (c_sessions x)
    (c_heap x) (c_owners x) v (c_ranges x) (c_requests x) (c_registeredOwners x) (c_uses
    x) (c_materializedBytes x) (c_materializations x) (c_actions x) (c_nextRequest x)
    (c_reservations x) (c_nextReservation x).
Definition set_c_ranges (v : Z) (x : coordinator) : coordinator :=
  mkCoordinator (c_config x) (c_now x) (c_reads x) (c_nextSession x) (c_sessions x)
    (c_heap x) (c_owners x) (c_waiting x) v (c_requests x) (c_registeredOwners x) (c_uses
    x) (c_materializedBytes x) (c_materializations x) (c_actions x) (c_nextRequest x)
    (c_reservations x) (c_nextReservation x).
Definition set_c_requests (v : Z) (x : coordinator) : coordinator :=
  mkCoordinator (c_config x) (c_now x) (c_reads x) (c_nextSession x) (c_sessions x)
    (c_heap x) (c_owners x) (c_waiting x) (c_ranges x) v (c_registeredOwners x) (c_uses x)
    (c_materializedBytes x) (c_materializations x) (c_actions x) (c_nextRequest x)
    (c_reservations x) (c_nextReservation x).
Definition set_c_registeredOwners (v : Z) (x : coordinator) : coordinator :=
  mkCoordinator (c_config x) (c_now x) (c_reads x) (c_nextSession x) (c_sessions x)
    (c_heap x) (c_owners x) (c_waiting x) (c_ranges x) (c_requests x) v (c_uses x)
    (c_materializedBytes x) (c_materializations x) (c_actions x) (c_nextRequest x)
    (c_reservations x) (c_nextReservation x).
Definition set_c_uses (v : gmap UseScope useClaim) (x : coordinator) : coordinator :=
  mkCoordinator (c_config x) (c_now x) (c_reads x) (c_nextSession x) (c_sessions x)
    (c_heap x) (c_owners x) (c_waiting x) (c_ranges x) (c_requests x) (c_registeredOwners
    x) v (c_materializedBytes x) (c_materializations x) (c_actions x) (c_nextRequest x)
    (c_reservations x) (c_nextReservation x).
Definition set_c_materializedBytes (v : Z) (x : coordinator) : coordinator :=
  mkCoordinator (c_config x) (c_now x) (c_reads x) (c_nextSession x) (c_sessions x)
    (c_heap x) (c_owners x) (c_waiting x) (c_ranges x) (c_requests x) (c_registeredOwners
    x) (c_uses x) v (c_materializations x) (c_actions x) (c_nextRequest x) (c_reservations
    x) (c_nextReservation x).
Definition set_c_materializations (v : Z) (x : coordinator) : coordinator :=
  mkCoordinator (c_config x) (c_now x) (c_reads x) (c_nextSession x) (c_sessions x)
    (c_heap x) (c_owners x) (c_waiting x) (c_ranges x) (c_requests x) (c_registeredOwners
    x) (c_uses x) (c_materializedBytes x) v (c_actions x) (c_nextRequest x)
    (c_reservations x) (c_nextReservation x).
Definition set_c_actions (v : gmap reqid request) (x : coordinator) : coordinator :=
  mkCoordinator (c_config x) (c_now x) (c_reads x) (c_nextSession x) (c_sessions x)
    (c_heap x) (c_owners x) (c_waiting x) (c_ranges x) (c_requests x) (c_registeredOwners
    x) (c_uses x) (c_materializedBytes x) (c_materializations x) v (c_nextRequest x)
    (c_reservations x) (c_nextReservation x).
Definition set_c_nextRequest (v : reqid) (x : coordinator) : coordinator :=
  mkCoordinator (c_config x) (c_now x) (c_reads x) (c_nextSession x) (c_sessions x)
    (c_heap x) (c_owners x) (c_waiting x) (c_ranges x) (c_requests x) (c_registeredOwners
    x) (c_uses x) (c_materializedBytes x) (c_materializations x) (c_actions x) v
    (c_reservations x) (c_nextReservation x).
Definition set_c_reservations (v : gmap nat Z) (x : coordinator) : coordinator :=
  mkCoordinator (c_config x) (c_now x) (c_reads x) (c_nextSession x) (c_sessions x)
    (c_heap x) (c_owners x) (c_waiting x) (c_ranges x) (c_requests x) (c_registeredOwners
    x) (c_uses x) (c_materializedBytes x) (c_materializations x) (c_actions x)
    (c_nextRequest x) v (c_nextReservation x).
Definition set_c_nextReservation (v : nat) (x : coordinator) : coordinator :=
  mkCoordinator (c_config x) (c_now x) (c_reads x) (c_nextSession x) (c_sessions x)
    (c_heap x) (c_owners x) (c_waiting x) (c_ranges x) (c_requests x) (c_registeredOwners
    x) (c_uses x) (c_materializedBytes x) (c_materializations x) (c_actions x)
    (c_nextRequest x) (c_reservations x) v.

(** ** Reading and writing the stores *)

Definition C (A : Type) : Type := comp coordinator A.

(** [c.sessions[id]]: nil unless the id is live. *)
Definition live_session (c : coordinator) (id : Z) : option session :=
  if decide (id ∈ c_sessions c) then c_heap c !! id else None.

(** Uses of the pointers [s], [c.sessions[id]], [action] and [c.owners[key]]. *)
Definition get_session (s : Z) : C session := deref (λ c, c_heap c !! s).
Definition get_live (id : Z) : C session := deref (λ c, live_session c id).
Definition get_request (action : reqid) : C request := deref (λ c, c_actions c !! action).
Definition get_owner (key : ownerKey) : C ownerState := deref (λ c, c_owners c !! key).

Definition upd_session (s : Z) (f : session → session) : C unit :=
  modify (λ c, set_c_heap (alter f s (c_heap c)) c).
Definition upd_request (action : reqid) (f : request → request) : C unit :=
  modify (λ c, set_c_actions (alter f action (c_actions c)) c).
Definition upd_owner (key : ownerKey) (f : ownerState → ownerState) : C unit :=
  modify (λ c, set_c_owners (alter f key (c_owners c)) c).

(** [c.now()]. *)
Definition read_clock : C Z :=
  let! t := gets (λ c, c_now c (c_reads c)) in
  do! modify (λ c, set_c_reads (S (c_reads c)) c) in
  ret t.

(** [New]. *)
Definition New (config : Config) (now : nat → Z) : result coordinator :=
  match Config_Check config with
  | Some e => Err e
  | None =>
      Ok {| c_config := config; c_now := now; c_reads := 0; c_nextSession := 0;
            c_sessions := ∅; c_heap := ∅; c_owners := ∅; c_waiting := [];
            c_ranges := 0; c_requests := 0; c_registeredOwners := 0; c_uses := ∅;
            c_materializedBytes := 0; c_materializations := 0; c_actions := ∅;
            c_nextRequest := 0%nat; c_reservations := ∅; c_nextReservation := 0%nat |}
  end.

Definition checkCall (ctx_err : option error) (node : Z) : option error :=
  ctx_err ;? (if node =? 0 then Some (Errno EINVAL) else None).

(** What a native ordering callback does with the transition it is given: it
    refuses before entering it, runs it, or runs it and then fails. *)
Inductive verdict := Runs | Refuses (e : error) | RunsThenFails (e : error).

(** The transition's value where it ran to its end, and the callback's error. *)
Definition run_order {A} (v : verdict) (transition : C (result A))
  : C (option A * option error) :=
  match v with
  | Refuses e => ret (None, Some e)
  | Runs =>
      let! r := transition in
      ret (match r with Ok a => (Some a, None) | Err e => (None, Some e) end)
  | RunsThenFails e =>
      let! r := transition in
      ret (match r with Ok a => (Some a, Some e) | Err _ => (None, Some e) end)
  end.

(** The native callbacks of one operation: what the k-th of them does. *)
Definition gates := nat → Order → verdict.
