(* ===== verification/Conflicts.v ===== *)
(** * Conflicts

    [conflictLocked] of [packages/advisory/ranges.go]: the conflict a command
    meets among a coordinator's owners.  [None] is the panic of a nil
    [c.sessions] entry.  A Go map is visited in
    the order of [map_to_list]; the theorems show that the order is immaterial. *)

From S2P Require Import Prelude Errors Identity Ranges Extents AdvisoryState.

(** ** The conflict of a command *)

Definition ownerBefore (a b : ownerKey) : bool :=
  (ok_session a <? ok_session b)
  || ((ok_session a =? ok_session b) && (ok_owner a <? ok_owner b)).

(** The binding read as a Go map value: absent is the zero binding. *)
Definition diagnostic (s : session) (owner : Z) : Z :=
  match s_bindings s !! owner with
  | Some b => oo_Diagnostic (ob_options b)
  | None => 0
  end.

(** Whether a held claim stands against a command. *)
Definition blocks (command : RangeCommand) (held : rangeClaim) : bool :=
  overlaps (cl_range held) (rc_Range command)
  && negb ((rc_Mode (cl_command held) =? RangeShared) && (rc_Mode command =? RangeShared)).

(** The owners a command is tested against. *)
Definition rival (key other : ownerKey) : bool :=
  negb (bool_decide (other = key)) && (ok_node other =? ok_node key)
  && (ok_domain other =? ok_domain key).

(** The best conflict so far and the owner it belongs to. *)
Definition candidate := (RangeConflict * ownerKey)%type.

(** The body of the inner loop of [conflictLocked]. *)
Definition conflict_range (c : coordinator) (command : RangeCommand) (other : ownerKey)
    (best : candidate) (held : rangeClaim) : option candidate :=
  let '(conflict, selected) := best in
  if negb (blocks command held) then Some best
  else if cf_Found conflict
          && ((rangeStart (cf_Range conflict) <? rangeStart (cl_range held))
              || ((rangeStart (cl_range held) =? rangeStart (cf_Range conflict))
                  && negb (ownerBefore other selected)))
  then Some best
  else match live_session c (ok_session other) with
  | None => None
  | Some s =>
      Some ({| cf_Found := true; cf_Owner := diagnostic s (ok_owner other);
               cf_Range := cl_range held; cf_Mode := rc_Mode (cl_command held) |}, other)
  end.

Fixpoint conflict_ranges (c : coordinator) (command : RangeCommand) (other : ownerKey)
    (best : candidate) (ranges : list rangeClaim) : option candidate :=
  match ranges with
  | [] => Some best
  | held :: ranges =>
      match conflict_range c command other best held with
      | Some best => conflict_ranges c command other best ranges
      | None => None
      end
  end.

Fixpoint conflict_owners (c : coordinator) (key : ownerKey) (command : RangeCommand)
    (best : candidate) (owners : list (ownerKey * ownerState)) : option candidate :=
  match owners with
  | [] => Some best
  | (other, state) :: owners =>
      if negb (rival key other) then conflict_owners c key command best owners
      else match conflict_ranges c command other best (os_ranges state) with
      | Some best => conflict_owners c key command best owners
      | None => None
      end
  end.

Definition no_candidate : candidate := (NoConflict, mkKey 0 0 0 0).

Definition conflictLocked (c : coordinator) (key : ownerKey) (command : RangeCommand)
  : option RangeConflict :=
  fst <$> conflict_owners c key command no_candidate (map_to_list (c_owners c)).

(** ** The conflict reported is the least one *)

(** The claims of a key's rivals among some owners, in the order visited. *)
Definition rival_claims (key : ownerKey) (owners : list (ownerKey * ownerState))
  : list (ownerKey * rangeClaim) :=
  p ← owners; if rival key p.1 then (p.1,.) <$> os_ranges p.2 else [].

(** The order of [conflictLocked]: by start, then by owner. *)
Definition precedes (a b : ownerKey * rangeClaim) : Prop :=
  rangeStart (cl_range a.2) < rangeStart (cl_range b.2)
  ∨ rangeStart (cl_range a.2) = rangeStart (cl_range b.2) ∧ ownerBefore b.1 a.1 = false.

(** What is reported of a claim. *)
Definition reports (c : coordinator) (conflict : RangeConflict) (other : ownerKey)
    (held : rangeClaim) : Prop :=
  ∃ s, live_session c (ok_session other) = Some s
       ∧ conflict = {| cf_Found := true; cf_Owner := diagnostic s (ok_owner other);
                       cf_Range := cl_range held; cf_Mode := rc_Mode (cl_command held) |}.

Definition best_of (c : coordinator) (command : RangeCommand)
    (seen : list (ownerKey * rangeClaim)) (best : candidate) : Prop :=
  if cf_Found best.1 then
    ∃ held, (best.2, held) ∈ seen ∧ blocks command held = true
            ∧ reports c best.1 best.2 held
            ∧ ∀ p, p ∈ seen → blocks command p.2 = true → precedes (best.2, held) p
  else best.1 = NoConflict ∧ ∀ p, p ∈ seen → blocks command p.2 = false.

Lemma ownerBefore_trans_false a b d :
  ownerBefore b a = false → ownerBefore d b = false → ownerBefore d a = false.
Proof.
  unfold ownerBefore. intros. bool_prop.
  apply orb_false_iff. rewrite andb_false_iff, !Z.ltb_ge, Z.eqb_neq. naive_solver lia.
Qed.

Lemma ownerBefore_asym a b : ownerBefore a b = true → ownerBefore b a = false.
Proof.
  unfold ownerBefore. rewrite orb_true_iff, andb_true_iff, orb_false_iff, andb_false_iff,
    !Z.ltb_lt, !Z.ltb_ge, !Z.eqb_eq, Z.eqb_neq. lia.
Qed.

Lemma precedes_refl a : precedes a a.
Proof.
  right. split; [done|]. unfold ownerBefore. rewrite Z.ltb_irrefl, Z.eqb_refl. simpl.
  apply Z.ltb_irrefl.
Qed.

Lemma precedes_trans a b d : precedes a b → precedes b d → precedes a d.
Proof.
  unfold precedes. intros [?|[? ?]] [?|[? ?]]; [left; lia|left; lia|left; lia|].
  right. split; [lia|]. by eapply ownerBefore_trans_false.
Qed.

Section conflict_correct.
Context (c : coordinator) (command : RangeCommand).

Lemma best_of_skip seen best p :
  best_of c command seen best → blocks command p.2 = false →
  best_of c command (seen ++ [p]) best.
Proof.
  unfold best_of. destruct (cf_Found best.1).
  - intros (held & Hin & Hb & Hr & Hl) Hp. exists held. split_and!; auto; [set_solver|].
    intros p' [?| ->%list_elem_of_singleton]%elem_of_app Hp'; [auto|congruence].
  - intros [? H] Hp. split; [done|]. intros p' [?| ->%list_elem_of_singleton]%elem_of_app; auto.
Qed.

Lemma conflict_range_best seen best other held :
  is_Some (live_session c (ok_session other)) →
  best_of c command seen best →
  ∃ best', conflict_range c command other best held = Some best'
           ∧ best_of c command (seen ++ [(other, held)]) best'.
Proof.
  intros [s Hs] Hbest. destruct best as [conflict selected]. unfold conflict_range.
  destruct (blocks command held) eqn:Hb; simpl; [|eauto using best_of_skip].
  destruct (cf_Found conflict && _) eqn:Ht.
  - eexists; split; [done|]. bool_prop. revert Hbest. unfold best_of; simpl.
    rewrite H. intros (best & Hin & Hbb & (s' & Hs' & ->) & Hl). exists best.
    split_and!; [set_solver|done|by eexists|].
    intros p [?| ->%list_elem_of_singleton]%elem_of_app Hp; [auto|].
    simpl in H0. destruct H0 as [?|?]; bool_prop; [by left|right]; split; simpl; auto.
  - rewrite Hs. eexists; split; [done|]. unfold best_of; simpl. exists held.
    split_and!; [set_solver|done|by eexists|].
    intros p [Hp| ->%list_elem_of_singleton]%elem_of_app Hpb; [|apply precedes_refl].
    revert Hbest Ht. unfold best_of; simpl. destruct (cf_Found conflict); simpl.
    + intros (best & Hin & Hbb & (s' & Hs' & ->) & Hl) Ht. simpl in Ht.
      eapply precedes_trans; [|by apply Hl]. bool_prop. unfold precedes; simpl.
      destruct H0 as [?|?]; bool_prop; [left; lia|].
      destruct (decide (rangeStart (cl_range held) = rangeStart (cl_range best))); [|left; lia].
      right; auto using ownerBefore_asym.
    + intros [_ Hn]. rewrite Hn in Hpb; done.
Qed.

Lemma conflict_ranges_best ranges seen best other :
  is_Some (live_session c (ok_session other)) →
  best_of c command seen best →
  ∃ best', conflict_ranges c command other best ranges = Some best'
           ∧ best_of c command (seen ++ ((other,.) <$> ranges)) best'.
Proof.
  intros Hs. revert seen best. induction ranges as [|held ranges IH]; intros seen best Hbest; simpl.
  - rewrite app_nil_r. eauto.
  - destruct (conflict_range_best seen best other held Hs Hbest) as (best' & -> & H).
    destruct (IH _ _ H) as (b & -> & Hb). exists b. split; [done|].
    by rewrite <- app_assoc in Hb.
Qed.

Lemma conflict_owners_best key owners seen best :
  (∀ other o, (other, o) ∈ owners → rival key other = true →
              is_Some (live_session c (ok_session other))) →
  best_of c command seen best →
  ∃ best', conflict_owners c key command best owners = Some best'
           ∧ best_of c command (seen ++ rival_claims key owners) best'.
Proof.
  revert seen best. induction owners as [|[other o] owners IH]; intros seen best Hlive Hbest.
  - simpl. rewrite app_nil_r. eauto.
  - assert (Htl : ∀ other' o', (other', o') ∈ owners → rival key other' = true →
              is_Some (live_session c (ok_session other'))).
    { intros other' o' Hin. apply (Hlive other' o'). set_solver. }
    unfold rival_claims; simpl. destruct (rival key other) eqn:Hr; simpl; [|by apply IH].
    destruct (conflict_ranges_best (os_ranges o) seen best other) as (b & -> & Hb);
      [apply (Hlive other o); set_solver|done|].
    rewrite (assoc_L (++)). by apply IH.
Qed.
End conflict_correct.

(** The rivals' claims that stand against a command. *)
Definition stands_against (c : coordinator) (key : ownerKey) (command : RangeCommand)
    (other : ownerKey) (held : rangeClaim) : Prop :=
  ∃ o, c_owners c !! other = Some o ∧ rival key other = true ∧ held ∈ os_ranges o
       ∧ blocks command held = true.

(** Every owner belongs to a live session. *)
Definition owners_live (c : coordinator) : Prop :=
  ∀ key o, c_owners c !! key = Some o → is_Some (live_session c (ok_session key)).

Lemma elem_of_rival_claims c key other held :
  (other, held) ∈ rival_claims key (map_to_list (c_owners c)) ↔
  ∃ o, c_owners c !! other = Some o ∧ rival key other = true ∧ held ∈ os_ranges o.
Proof.
  unfold rival_claims. rewrite list_elem_of_bind. split.
  - intros ([other' o] & H & Hin%elem_of_map_to_list). simpl in H.
    destruct (rival key other') eqn:Hr; [|set_solver].
    apply list_elem_of_fmap in H as (h & [= -> ->] & Hh). eauto.
  - intros (o & Ho & Hr & Hh). exists (other, o). rewrite elem_of_map_to_list. simpl.
    rewrite Hr. split; [|done]. apply list_elem_of_fmap. eauto.
Qed.

Lemma conflictLocked_spec c key command :
  owners_live c →
  ∃ conflict, conflictLocked c key command = Some conflict ∧
    if cf_Found conflict then
      ∃ other held, stands_against c key command other held ∧ reports c conflict other held
        ∧ ∀ other' held', stands_against c key command other' held' →
            precedes (other, held) (other', held')
    else conflict = NoConflict ∧ ∀ other held, ¬ stands_against c key command other held.
Proof.
  intros Hlive. unfold conflictLocked.
  destruct (conflict_owners_best c command key (map_to_list (c_owners c)) [] no_candidate)
    as ([conflict selected] & -> & Hbest).
  { intros other o Hin%elem_of_map_to_list _. eauto. }
  { unfold best_of; simpl. split; [done|]. set_solver. }
  exists conflict. split; [done|]. revert Hbest. unfold best_of; simpl.
  destruct (cf_Found conflict).
  - intros (held & Hin & Hb & Hr & Hl). exists selected, held.
    apply elem_of_rival_claims in Hin as (o & Ho & Hrv & Hh).
    split_and!; [by exists o|done|]. intros other' held' (o' & Ho' & Hr' & Hh' & Hb').
    apply Hl; [|done]. apply elem_of_rival_claims; eauto.
  - intros [-> Hn]. split; [done|]. intros other held (o & Ho & Hr & Hh & Hb).
    specialize (Hn (other, held)). simpl in Hn. rewrite Hn in Hb; [done|].
    apply elem_of_rival_claims; eauto.
Qed.
