(* ===== verification/Deadlock.v ===== *)
(** * Deadlock detection

    [deadlockLocked] of [packages/advisory/ranges.go]: the wait graph of the
    record domain, its bound, and the search for a cycle through the candidate.
    The search carries fuel for its pops; [search_total] shows that the fuel of
    [search_fuel] is never used up. *)

From stdpp Require Import relations.
From S2P Require Import Prelude Errors Identity Ranges Extents AdvisoryState Conflicts.

(** ** The code *)

Record deadlockParticipant := mkParticipant {
  dp_session : Z; dp_identity : Z; dp_grouped : bool }.

#[global] Instance deadlockParticipant_eq_dec : EqDecision deadlockParticipant.
Proof. solve_decision. Defined.

(** [participant]: the owner's group where it has one, else the owner. *)
Definition participant (c : coordinator) (key : ownerKey) : option deadlockParticipant :=
  match live_session c (ok_session key) with
  | None => None
  | Some s =>
      let group := match s_bindings s !! ok_owner key with
                   | Some b => oo_Group (ob_options b)
                   | None => 0
                   end in
      Some (if negb (group =? 0) then mkParticipant (ok_session key) group true
            else mkParticipant (ok_session key) (ok_owner key) false)
  end.

Definition edge := (deadlockParticipant * deadlockParticipant)%type.

(** Whether any command of the request is held up by any of the ranges. *)
Definition held_up (commands : list RangeCommand) (ranges : list rangeClaim) : bool :=
  existsb (λ command, existsb (λ lock,
    overlaps (cl_range lock) (rc_Range command)
    && ((rc_Mode (cl_command lock) =? RangeExclusive) || (rc_Mode command =? RangeExclusive)))
    ranges) commands.

(** The closure [add] on one owner: [inr] is its [return false]. *)
Definition add_edge (c : coordinator) (key : ownerKey) (commands : list RangeCommand)
    (edges : list edge) (owner : ownerKey * ownerState) : option (list edge + unit) :=
  let '(other, held) := owner in
  if bool_decide (other = key) || negb (ok_node other =? ok_node key)
     || negb (ok_domain other =? DomainRecord)
  then Some (inl edges)
  else if negb (held_up commands (os_ranges held)) then Some (inl edges)
  else if Z.of_nat (length edges) =? cfg_MaxDeadlockEdges (c_config c) then Some (inr tt)
  else match participant c key, participant c other with
  | Some from, Some to => Some (inl (edges ++ [(from, to)]))
  | _, _ => None
  end.

Fixpoint add_edges (c : coordinator) (key : ownerKey) (commands : list RangeCommand)
    (edges : list edge) (owners : list (ownerKey * ownerState)) : option (list edge + unit) :=
  match owners with
  | [] => Some (inl edges)
  | owner :: owners =>
      match add_edge c key commands edges owner with
      | Some (inl edges) => add_edges c key commands edges owners
      | r => r
      end
  end.

Definition add_request (c : coordinator) (key : ownerKey) (commands : list RangeCommand)
    (edges : list edge) : option (list edge + unit) :=
  if negb (ok_domain key =? DomainRecord) then Some (inl edges)
  else add_edges c key commands edges (map_to_list (c_owners c)).

Fixpoint add_waiting (c : coordinator) (edges : list edge) (waiting : list reqid)
  : option (list edge + unit) :=
  match waiting with
  | [] => Some (inl edges)
  | action :: waiting =>
      match c_actions c !! action with
      | None => None
      | Some q =>
          match add_request c (q_key q) (q_commands q) edges with
          | Some (inl edges) => add_waiting c edges waiting
          | r => r
          end
      end
  end.

(** [edges[from]] *)
Definition successors (edges : list edge) (from : deadlockParticipant)
  : list deadlockParticipant :=
  snd <$> filter (λ e, e.1 = from) edges.

(** The search from the candidate's successors; the top of the stack is the
    head of the list.  [None] is running out of fuel. *)
Fixpoint search (fuel : nat) (edges : list edge) (target : deadlockParticipant)
    (seen stack : list deadlockParticipant) : option bool :=
  match stack with
  | [] => Some false
  | current :: stack =>
      match fuel with
      | O => None
      | S fuel =>
          if bool_decide (current = target) then Some true
          else if bool_decide (current ∈ seen) then search fuel edges target seen stack
          else search fuel edges target (current :: seen)
                      (rev (successors edges current) ++ stack)
      end
  end.

(** Every edge is pushed at most once besides the initial ones. *)
Definition search_fuel (edges : list edge) : nat := S (2 * length edges).

(** [deadlockLocked]: whether there is a deadlock, and whether the graph was
    within its bound. *)
Definition deadlockLocked (c : coordinator) (key : ownerKey) (commands : list RangeCommand)
  : option (bool * bool) :=
  match add_waiting c [] (c_waiting c) with
  | None => None
  | Some (inr _) => Some (false, false)
  | Some (inl edges) =>
      match add_request c key commands edges with
      | None => None
      | Some (inr _) => Some (false, false)
      | Some (inl edges) =>
          match participant c key with
          | None => None
          | Some target =>
              match search (search_fuel edges) edges target [] (rev (successors edges target)) with
              | Some found => Some (found, true)
              | None => None
              end
          end
      end
  end.

(** ** The search *)

Section search.
Context (edges : list edge) (target : deadlockParticipant).

(** One edge of the graph. *)
Definition waits_on (x y : deadlockParticipant) : Prop := (x, y) ∈ edges.

Lemma elem_of_successors x y : y ∈ successors edges x ↔ waits_on x y.
Proof.
  unfold successors, waits_on. rewrite list_elem_of_fmap. split.
  - intros ([x' y'] & -> & [Hx Hin]%list_elem_of_filter). simpl in *. by subst.
  - intros Hin. exists (x, y). by rewrite list_elem_of_filter.
Qed.

(** The edges whose source has not been expanded. *)
Definition unseen (seen : list deadlockParticipant) : list edge :=
  filter (λ e, e.1 ∉ seen) edges.

Lemma filter_split_length {A} (P Q : A → Prop) `{∀ x, Decision (P x), ∀ x, Decision (Q x)} l :
  (length (filter (λ x, ¬ Q x ∧ P x) l) + length (filter Q l)
   = length (filter (λ x, Q x ∨ P x) l))%nat.
Proof.
  induction l as [|x l IH]; [done|]. rewrite !filter_cons.
  destruct (decide (Q x)), (decide (P x));
    repeat case_decide; simpl; try tauto; lia.
Qed.

Lemma unseen_length seen : (length (unseen seen) ≤ length edges)%nat.
Proof. apply length_filter. Qed.

Lemma successors_length x : (length (successors edges x) ≤ length edges)%nat.
Proof. unfold successors. rewrite length_fmap. apply length_filter. Qed.

Lemma unseen_cons seen x :
  x ∉ seen →
  (length (unseen (x :: seen)) + length (successors edges x) = length (unseen seen))%nat.
Proof.
  intros Hx. unfold unseen, successors. rewrite length_fmap.
  pose proof (filter_split_length (λ e : edge, e.1 ∉ seen) (λ e : edge, e.1 = x) edges) as H.
  etrans; [etrans; [|exact H]|]; clear H.
  - f_equal. f_equal. apply list_filter_iff. intros e. rewrite not_elem_of_cons. tauto.
  - f_equal. apply list_filter_iff. intros e. split; [|tauto]. intros [->|]; done.
Qed.

Lemma search_total fuel seen stack :
  (length stack + length (unseen seen) < fuel)%nat →
  is_Some (search fuel edges target seen stack).
Proof.
  revert seen stack. induction fuel as [|fuel IH]; intros seen stack Hf; [lia|].
  destruct stack as [|x stack]; simpl in *; [eauto|].
  case_bool_decide; [eauto|]. case_bool_decide as Hx; [apply IH; lia|].
  apply IH. pose proof (unseen_cons seen x Hx).
  rewrite length_app, length_rev. lia.
Qed.

(** A cycle is found only where there is one. *)
Lemma search_sound fuel seen stack :
  (∀ x, x ∈ stack → tc waits_on target x) →
  search fuel edges target seen stack = Some true → tc waits_on target target.
Proof.
  revert seen stack. induction fuel as [|fuel IH]; intros seen [|x stack] Hs; simpl; try done.
  case_bool_decide as Ht; [subst; intros _; apply Hs; set_solver|].
  case_bool_decide; [apply IH; set_solver|]. apply IH. intros y.
  rewrite elem_of_app, list_elem_of_In, <- in_rev, <- list_elem_of_In, elem_of_successors.
  intros [Hy|Hy]; [|apply Hs; set_solver].
  eapply tc_transitive; [apply Hs; left|]. by apply tc_once.
Qed.

(** A search that ends without finding the target has expanded a set closed
    under the edges. *)
Lemma search_closed fuel seen stack :
  target ∉ seen →
  (∀ x y, x ∈ seen → waits_on x y → y ∈ seen ∨ y ∈ stack) →
  search fuel edges target seen stack = Some false →
  ∃ all : list deadlockParticipant, target ∉ all ∧ (∀ x, x ∈ seen ∨ x ∈ stack → x ∈ all)
         ∧ ∀ x y, x ∈ all → waits_on x y → y ∈ all.
Proof.
  revert seen stack. induction fuel as [|fuel IH]; intros seen [|x stack] Ht Hc; simpl; try done.
  - exists seen. set_solver.
  - exists seen. set_solver.
  - case_bool_decide as Hxt; [done|]. case_bool_decide as Hx; intros H.
    + apply IH in H as (all & ? & Hin & ?); [|done|].
      * exists all. split_and!; [done| |done]. intros y [Hy|Hy]; apply Hin; set_solver.
      * intros y z Hy Hz. destruct (Hc _ _ Hy Hz) as [?|[->|?]%elem_of_cons]; auto.
    + apply IH in H as (all & ? & Hin & Hcl); [|set_solver|].
      * exists all. split_and!; [done| |done]. intros y [Hy|Hy]; apply Hin; set_solver.
      * intros y z [->|Hy]%elem_of_cons Hz.
        { right. apply elem_of_app. left. apply list_elem_of_In, in_rev.
          rewrite rev_involutive. by apply list_elem_of_In, elem_of_successors. }
        { destruct (Hc _ _ Hy Hz) as [?|[->|?]%elem_of_cons]; set_solver. }
Qed.

Lemma search_exact :
  ∃ found, search (search_fuel edges) edges target [] (rev (successors edges target)) = Some found
           ∧ (found = true ↔ tc waits_on target target).
Proof.
  assert (Hin : ∀ x, x ∈ rev (successors edges target) ↔ waits_on target x).
  { intros x. by rewrite list_elem_of_In, <- in_rev, <- list_elem_of_In, elem_of_successors. }
  destruct (search_total (search_fuel edges) [] (rev (successors edges target))) as [found Hs].
  { rewrite length_rev. unfold search_fuel.
    pose proof (successors_length target). pose proof (unseen_length []). lia. }
  exists found. split; [done|]. destruct found; split; try done; intros Hr.
  - eapply search_sound; [|done]. intros x Hx%Hin. by apply tc_once.
  - exfalso. apply search_closed in Hs as (all & Ht & Hall & Hcl); [|set_solver|set_solver].
    apply Ht.
    assert (∀ x y, tc waits_on x y → (∀ z, waits_on x z → z ∈ all) → y ∈ all) as H.
    { intros x y Hx. induction Hx; eauto. }
    apply (H target target Hr). intros y Hy. apply Hall. right. by apply Hin.
Qed.
End search.

(** ** The graph *)

Section graph.
Context (c : coordinator).

(** The owners a request waits for. *)
Definition held_up_by (key : ownerKey) (commands : list RangeCommand)
    (p : ownerKey * ownerState) : bool :=
  negb (bool_decide (p.1 = key) || negb (ok_node p.1 =? ok_node key)
        || negb (ok_domain p.1 =? DomainRecord))
  && held_up commands (os_ranges p.2).

Definition part (key : ownerKey) : deadlockParticipant :=
  default (mkParticipant 0 0 false) (participant c key).

Definition edges_to (key : ownerKey) (commands : list RangeCommand)
    (owners : list (ownerKey * ownerState)) : list edge :=
  (λ p, (part key, part p.1)) <$> filter (λ p, held_up_by key commands p = true) owners.

Definition request_edges (r : ownerKey * list RangeCommand) : list edge :=
  if ok_domain r.1 =? DomainRecord then edges_to r.1 r.2 (map_to_list (c_owners c)) else [].

(** Every edge of the wait graph of some requests. *)
Definition wait_graph (requests : list (ownerKey * list RangeCommand)) : list edge :=
  r ← requests; request_edges r.

Definition queued_requests (waiting : list reqid) : list (ownerKey * list RangeCommand) :=
  omap (λ a, (λ q, (q_key q, q_commands q)) <$> c_actions c !! a) waiting.

(** The edges so far, or the refusal when the bound is passed. *)
Definition within (edges : list edge) : option (list edge + unit) :=
  Some (if decide (Z.of_nat (length edges) <= cfg_MaxDeadlockEdges (c_config c))
        then inl edges else inr tt).

Lemma participant_live key :
  is_Some (live_session c (ok_session key)) → participant c key = Some (part key).
Proof.
  intros [s Hs]. assert (is_Some (participant c key)) as [p Hp].
  { unfold participant. rewrite Hs. eauto. }
  unfold part. by rewrite Hp.
Qed.

Lemma add_edge_spec key commands edges other o :
  is_Some (live_session c (ok_session key)) →
  is_Some (live_session c (ok_session other)) →
  Z.of_nat (length edges) <= cfg_MaxDeadlockEdges (c_config c) →
  add_edge c key commands edges (other, o)
  = within (if held_up_by key commands (other, o) then edges ++ [(part key, part other)]
            else edges).
Proof.
  intros Hk Ho Hle. unfold add_edge, held_up_by, within. simpl.
  destruct (bool_decide (other = key) || _ || _); simpl; [by rewrite decide_True|].
  destruct (held_up commands (os_ranges o)); simpl; [|by rewrite decide_True].
  rewrite length_app. simpl. destruct (Z.eqb_spec (Z.of_nat (length edges))
    (cfg_MaxDeadlockEdges (c_config c))) as [He|He].
  - rewrite decide_False by lia. done.
  - rewrite decide_True by lia. rewrite !participant_live by done. done.
Qed.

Lemma add_edges_spec key commands owners edges :
  is_Some (live_session c (ok_session key)) →
  (∀ p, p ∈ owners → is_Some (live_session c (ok_session p.1))) →
  Z.of_nat (length edges) <= cfg_MaxDeadlockEdges (c_config c) →
  add_edges c key commands edges owners = within (edges ++ edges_to key commands owners).
Proof.
  intros Hk. revert edges. induction owners as [|[other o] owners IH]; intros edges Ho Hle.
  - simpl. rewrite app_nil_r. unfold within. by rewrite decide_True.
  - cbn [add_edges]. rewrite add_edge_spec; [|done|apply (Ho (other, o)); set_solver|done].
    assert (Htl : ∀ p, p ∈ owners → is_Some (live_session c (ok_session p.1))).
    { intros p Hp. apply Ho. set_solver. }
    unfold edges_to. rewrite filter_cons. unfold within at 1.
    destruct (held_up_by key commands (other, o)) eqn:Hh.
    + rewrite (decide_True (P := true = true)) by done. cbn [fmap list_fmap fst].
      case_decide as Hd.
      * rewrite IH by done. by rewrite <- app_assoc.
      * unfold within. rewrite decide_False; [done|].
        rewrite length_app in *. simpl in *. lia.
    + rewrite (decide_False (P := false = true)) by done. rewrite decide_True by done.
      by apply IH.
Qed.

Lemma add_request_spec key commands edges :
  owners_live c →
  is_Some (live_session c (ok_session key)) →
  Z.of_nat (length edges) <= cfg_MaxDeadlockEdges (c_config c) →
  add_request c key commands edges = within (edges ++ request_edges (key, commands)).
Proof.
  intros Hlive Hk Hle. unfold add_request, request_edges. simpl.
  destruct (ok_domain key =? DomainRecord); simpl.
  - apply add_edges_spec; [done| |done].
    intros [k o] Hin%elem_of_map_to_list. by apply (Hlive k o).
  - rewrite app_nil_r. unfold within. by rewrite decide_True.
Qed.

Lemma add_waiting_spec waiting edges :
  owners_live c →
  (∀ a, a ∈ waiting →
     ∃ q, c_actions c !! a = Some q ∧ is_Some (live_session c (ok_session (q_key q)))) →
  Z.of_nat (length edges) <= cfg_MaxDeadlockEdges (c_config c) →
  add_waiting c edges waiting = within (edges ++ wait_graph (queued_requests waiting)).
Proof.
  intros Hlive. revert edges. induction waiting as [|a waiting IH]; intros edges Hw Hle.
  - simpl. rewrite app_nil_r. unfold within. by rewrite decide_True.
  - destruct (Hw a) as (q & Hq & Hs); [set_solver|]. simpl. rewrite Hq. simpl.
    rewrite add_request_spec by done. unfold within at 1. case_decide as Hd.
    + rewrite IH; [|set_solver|done]. unfold wait_graph. simpl. by rewrite <- app_assoc.
    + unfold within. rewrite decide_False; [done|].
      unfold wait_graph. simpl. rewrite !length_app in *. lia.
Qed.
End graph.

(** One participant waits for another: a queued or candidate request of the
    first is held up by an owner of the second. *)
Definition waits_for (c : coordinator) (requests : list (ownerKey * list RangeCommand))
    (x y : deadlockParticipant) : Prop :=
  ∃ key commands other o,
    (key, commands) ∈ requests ∧ ok_domain key = DomainRecord
    ∧ c_owners c !! other = Some o ∧ held_up_by key commands (other, o) = true
    ∧ participant c key = Some x ∧ participant c other = Some y.

Lemma waits_for_graph c requests x y :
  owners_live c →
  (∀ r, r ∈ requests → is_Some (live_session c (ok_session r.1))) →
  waits_on (wait_graph c requests) x y ↔ waits_for c requests x y.
Proof.
  intros Hlive Hr. unfold waits_on, wait_graph, waits_for. rewrite list_elem_of_bind. split.
  - intros ([key commands] & Hin & Hreq). unfold request_edges in Hin. simpl in Hin.
    destruct (Z.eqb_spec (ok_domain key) DomainRecord); [|set_solver].
    apply list_elem_of_fmap in Hin as ([other o] & [= -> ->] & [Hh Ho]%list_elem_of_filter).
    apply elem_of_map_to_list in Ho. exists key, commands, other, o.
    rewrite !participant_live by (eauto || by apply (Hr (key, commands))). done.
  - intros (key & commands & other & o & Hreq & Hd & Ho & Hh & Hx & Hy).
    exists (key, commands). split; [|done]. unfold request_edges. simpl.
    rewrite Hd. simpl. apply list_elem_of_fmap. exists (other, o).
    unfold part. simpl. rewrite Hx, Hy. split; [done|].
    apply list_elem_of_filter. split; [done|]. by apply elem_of_map_to_list.
Qed.

(** What [deadlockLocked] answers: whether the graph is within its bound, and
    whether the candidate waits for itself through it. *)
Lemma deadlockLocked_spec c key commands :
  owners_live c →
  (∀ a, a ∈ c_waiting c →
     ∃ q, c_actions c !! a = Some q ∧ is_Some (live_session c (ok_session (q_key q)))) →
  is_Some (live_session c (ok_session key)) →
  0 <= cfg_MaxDeadlockEdges (c_config c) →
  let requests := queued_requests c (c_waiting c) ++ [(key, commands)] in
  let bounded := Z.of_nat (length (wait_graph c requests)) <= cfg_MaxDeadlockEdges (c_config c) in
  ∃ deadlock within,
    deadlockLocked c key commands = Some (deadlock, within)
    ∧ (within = true ↔ bounded)
    ∧ (deadlock = true ↔
       bounded ∧ ∃ p, participant c key = Some p ∧ tc (waits_for c requests) p p).
Proof.
  intros Hlive Hw Hk Hmax requests bounded. unfold deadlockLocked.
  assert (Hg : wait_graph c requests
               = wait_graph c (queued_requests c (c_waiting c)) ++ request_edges c (key, commands)).
  { unfold wait_graph, requests. rewrite bind_app. simpl. by rewrite app_nil_r. }
  assert (Hreq : ∀ r, r ∈ requests → is_Some (live_session c (ok_session r.1))).
  { intros r [Hin| ->%list_elem_of_singleton]%elem_of_app; [|done].
    apply list_elem_of_omap in Hin as (a & Ha & E). destruct (Hw a Ha) as (q & Hq & Hs).
    rewrite Hq in E. by injection E as <-. }
  rewrite add_waiting_spec by (simpl; done || lia). unfold within at 1. rewrite app_nil_l.
  case_decide as Hd1.
  - rewrite add_request_spec by done. rewrite <- Hg. unfold within. case_decide as Hd2.
    + rewrite participant_live by done.
      destruct (search_exact (wait_graph c requests) (part c key)) as (found & -> & Hf).
      exists found, true. split_and!; [done|tauto|]. rewrite Hf. split.
      * intros Ht. split; [done|]. exists (part c key). split; [done|].
        eapply tc_congruence with (f := id); [|exact Ht]. intros x y. by rewrite waits_for_graph.
      * intros (_ & p & [= ->] & Ht).
        eapply tc_congruence with (f := id); [|exact Ht]. intros x y. by rewrite waits_for_graph.
    + exists false, false. unfold bounded. naive_solver.
  - exists false, false. split; [done|]. assert (¬ bounded); [|naive_solver].
    unfold bounded. rewrite Hg, length_app. lia.
Qed.
