(* ===== verification/Coordinator.v ===== *)
(** * The advisory coordinator: operations

    Every operation of [packages/advisory].  The body of each critical section
    (the code between [c.mu.Lock()] and [c.mu.Unlock()], or run by a native
    ordering callback with the mutex held) is one [C] computation, named after
    its function; the exported operations compose them the way the code does.
    Other calls may run between two sections of one operation; [AdvisorySteps]
    takes the sections as the steps of a transition system. *)

From S2P Require Import Prelude Errors Identity Ranges Extents AdvisoryState Conflicts Deadlock.

(** ** coordinator.go *)

Definition ownerLocked (key : ownerKey) : C ownerState :=
  let! found := gets (λ c, c_owners c !! key) in
  match found with
  | Some o => ret o
  | None =>
      do! modify (λ c, set_c_owners (<[key := mkOwner [] 0]> (c_owners c)) c) in
      ret (mkOwner [] 0)
  end.

Definition pruneOwnerLocked (key : ownerKey) : C unit :=
  let! found := gets (λ c, c_owners c !! key) in
  match found with
  | Some (mkOwner [] 0) => modify (λ c, set_c_owners (delete key (c_owners c)) c)
  | _ => ret tt
  end.

Definition replacementFitsLocked (c : coordinator) (key : ownerKey) (count : Z) : option bool :=
  match c_owners c !! key, live_session c (ok_session key) with
  | Some o, Some s =>
      let delta := count - zlen (os_ranges o) in
      Some ((delta <=? cfg_MaxRanges (c_config c) - c_ranges c)
            && (delta <=? fso_MaxLockRanges (s_options s) - s_ranges s))
  | _, _ => None
  end.

Definition installRangesLocked (key : ownerKey) (ranges : list rangeClaim) : C unit :=
  let! o := get_owner key in
  let! s := get_live (ok_session key) in
  let delta := zlen ranges - zlen (os_ranges o) in
  do! upd_owner key (λ o, mkOwner ranges (os_pending o)) in
  do! modify (λ c, set_c_ranges (c_ranges c + delta) c) in
  upd_session (ok_session key) (λ s, set_s_ranges (s_ranges s + delta) s).

Definition replaceLocked (key : ownerKey) (ranges : list rangeClaim) : C (option error) :=
  let! fits := deref (λ c, replacementFitsLocked c key (zlen ranges)) in
  if fits then do! installRangesLocked key ranges in ret None
  else ret (Some (Errno ENOLCK)).

(** [NewSession]; [fence] says whether a publication fence was given. *)
Definition NewSession (options : FileSessionOptions) (fence : bool) : C (result Z) :=
  match FileSessionOptions_Check options with
  | Some e => ret (Err e)
  | None =>
      if negb fence then ret (Err (Wrapped (Errno EINVAL)))
      else
        let! c := gets id in
        if (cfg_MaxSessions (c_config c) <=? Z.of_nat (size (c_sessions c)))
           || (c_nextSession c =? MaxUint64)
        then ret (Err (Errno ENOLCK))
        else
          do! modify (λ c, set_c_nextSession (c_nextSession c + 1) c) in
          let! t := read_clock in
          let! sid := gets c_nextSession in
          let s := {| s_id := sid; s_options := options; s_epoch := 1;
                      s_epochUntil := t + fso_History options; s_actions := ∅;
                      s_bindings := ∅; s_nextOwner := 0; s_owners := 0; s_ranges := 0;
                      s_pending := 0; s_retiring := false; s_retired := false;
                      s_retireDone := false; s_retireErr := None |} in
          do! modify (λ c, set_c_heap (<[sid := s]> (c_heap c)) c) in
          do! modify (λ c, set_c_sessions ({[sid]} ∪ c_sessions c) c) in
          ret (Ok sid)
  end.

(** ** session.go *)

Definition activeLocked (s : session) : option error :=
  if s_retired s then Some (Errno ESTALE)
  else if s_retiring s then Some (Wrapped (Errno EIO))
  else None.

(** Whether [pruneHistoryLocked] deletes a receipt. *)
Definition expired_receipt (s : session) (now : Z) (q : request) : bool :=
  ((q_epoch q <? s_epoch s) || negb (now <? s_epochUntil s))
  && negb (bool_decide (ra_State (q_result q) = Pending))
  && negb (now <? q_expires q).

Definition keeps_receipt (c : coordinator) (s : session) (now : Z) (action : reqid) : bool :=
  match c_actions c !! action with
  | Some q => negb (expired_receipt s now q)
  | None => true
  end.

Definition kept_actions (c : coordinator) (s : session) (now : Z)
  : gmap LockRequestID reqid :=
  filter (λ p, keeps_receipt c s now p.2 = true) (s_actions s).

Definition pruneHistoryLocked (sid : Z) (now : Z) : C unit :=
  let! s := get_session sid in
  let! kept := gets (λ c, kept_actions c s now) in
  do! upd_session sid (set_s_actions kept) in
  modify (λ c, set_c_requests
                 (c_requests c - (Z.of_nat (size (s_actions s)) - Z.of_nat (size kept))) c).

Definition advanceLocked (sid : Z) (now : Z) : C (option error) :=
  let! s := get_session sid in
  if negb (now <? s_epochUntil s) then
    if s_epoch s =? MaxUint64 then ret (Some (Errno EOVERFLOW))
    else
      do! upd_session sid (λ s, set_s_epochUntil (now + fso_History (s_options s))
                                  (set_s_epoch (s_epoch s + 1) s)) in
      do! pruneHistoryLocked sid now in
      ret None
  else
    do! pruneHistoryLocked sid now in
    ret None.

(** [History]: the epoch and its remaining lifetime. *)
Definition History (ctx : context) (sid : Z) : C (result (Z * Z)) :=
  match ctx 0%nat with
  | Some e => ret (Err e)
  | None =>
      let! s := get_session sid in
      match activeLocked s with
      | Some e => ret (Err e)
      | None =>
          let! now := read_clock in
          let! err := advanceLocked sid now in
          match err with
          | Some e => ret (Err e)
          | None =>
              let! s := get_session sid in
              ret (Ok (s_epoch s, s_epochUntil s - now))
          end
      end
  end.

Definition Session_Epoch (ctx : context) (sid : Z) : C (result Z) :=
  let! r := History ctx sid in
  ret (match r with Ok (epoch, _) => Ok epoch | Err e => Err e end).

(** [WithCloseAdmission] up to its callback: the close-action epoch. *)
Definition close_admission (ctx : context) (sid : Z) : C (result Z) :=
  match ctx 0%nat with
  | Some e => ret (Err e)
  | None =>
      let! now := read_clock in
      let! err := advanceLocked sid now in
      match err with
      | Some e => ret (Err e)
      | None => let! s := get_session sid in ret (Ok (s_epoch s))
      end
  end.

(** [WithCloseAdmission]; [admission] is the caller's callback, which may be nil. *)
Definition WithCloseAdmission (ctx : context) (sid : Z) (admission : option (Z → option error))
  : C (option error) :=
  match admission with
  | None => ret (Some (Errno EINVAL))
  | Some callback =>
      let! epoch := close_admission ctx sid in
      ret (match epoch with Ok epoch => callback epoch | Err e => Some e end)
  end.

(** [CloseEpoch]: the callback stores the epoch it is given and returns nil. *)
Definition CloseEpoch (ctx : context) (sid : Z) : C (result Z) := close_admission ctx sid.

Definition IOHealth (ctx : context) (sid node : Z) : C (option error) :=
  match checkCall (ctx 0%nat) node with
  | Some e => ret (Some e)
  | None => let! s := get_session sid in ret (activeLocked s)
  end.

(** ** reconciliation.go *)

(** [action.result.State = state] and the fields set with it. *)
Definition settle_result (state : AttemptState) (rejection : RejectionCode) (r : RangeAttempt)
  : RangeAttempt :=
  let r := set_ra_Rejection rejection (set_ra_State state r) in
  if bool_decide (state = Granted)
  then set_ra_Conflict NoConflict (set_ra_EverGranted true r) else r.

(** The first occurrence of [action] leaves the queue. *)
Fixpoint dequeue (action : reqid) (waiting : list reqid) : list reqid :=
  match waiting with
  | [] => []
  | queued :: waiting => if Nat.eqb queued action then waiting else queued :: dequeue action waiting
  end.

Definition completeLocked (action : reqid) (state : AttemptState) (rejection : RejectionCode)
  : C unit :=
  do! upd_request action (λ q, set_q_result (settle_result state rejection (q_result q)) q) in
  let! q := get_request action in
  let! now := read_clock in
  let! s := get_live (ok_session (q_key q)) in
  do! upd_request action
        (λ q, set_q_order None (set_q_expires (now + fso_History (s_options s)) q)) in
  if q_pending q then
    do! upd_request action (set_q_pending false) in
    do! get_owner (q_key q) in
    do! upd_owner (q_key q) (λ o, mkOwner (os_ranges o) (os_pending o - 1)) in
    do! upd_session (ok_session (q_key q)) (λ s, set_s_pending (s_pending s - 1) s) in
    do! modify (λ c, set_c_waiting (dequeue action (c_waiting c)) c) in
    pruneOwnerLocked (q_key q)
  else ret tt.

Definition receiptLocked (s : session) (q : request) (now : Z) : RangeAttempt :=
  set_ra_HistoryRemaining
    (if bool_decide (ra_State (q_result q) = Pending) then fso_History (s_options s)
     else Z.max 0 (q_expires q - now))
    (q_result q).

(** ** owners.go *)

Definition checkOwnerLocked (s : session) (node owner : Z) : option error :=
  match s_bindings s !! owner with
  | None => Some (Errno ESTALE)
  | Some binding => if negb (ob_node binding =? node) then Some (Errno EINVAL) else None
  end.

Definition NewOwner (ctx : context) (sid node : Z) (scope : UseScope) (options : OwnerOptions)
  : C (result Z) :=
  match checkCall (ctx 0%nat) node ;? UseScope_Check scope ;? OwnerOptions_Check options with
  | Some e => ret (Err e)
  | None =>
      let! s := get_session sid in
      match activeLocked s with
      | Some e => ret (Err e)
      | None =>
          let! c := gets id in
          if (cfg_MaxOwners (c_config c) <=? c_registeredOwners c + Z.of_nat (size (c_uses c)))
             || (fso_MaxLockOwners (s_options s) <=? Z.of_nat (size (s_bindings s)))
             || (s_nextOwner s =? MaxUint64)
          then ret (Err (Errno ENOLCK))
          else
            let owner := s_nextOwner s + 1 in
            let binding := {| ob_node := node; ob_scope := scope; ob_options := options |} in
            do! upd_session sid (λ s, set_s_owners (s_owners s + 1)
                                   (set_s_bindings (<[owner := binding]> (s_bindings s))
                                      (set_s_nextOwner owner s))) in
            do! modify (λ c, set_c_registeredOwners (c_registeredOwners c + 1) c) in
            ret (Ok owner)
      end
  end.

Definition owner_binding (ctx : context) (sid owner : Z) : C (result ownerBinding) :=
  match ctx 0%nat with
  | Some e => ret (Err e)
  | None =>
      let! s := get_session sid in
      match activeLocked s with
      | Some e => ret (Err e)
      | None =>
          match s_bindings s !! owner with
          | None => ret (Err (Errno ESTALE))
          | Some binding => ret (Ok binding)
          end
      end
  end.

Definition OwnerNode (ctx : context) (sid owner : Z) : C (result Z) :=
  let! r := owner_binding ctx sid owner in
  ret (match r with Ok b => Ok (ob_node b) | Err e => Err e end).

Definition OwnerScope (ctx : context) (sid owner : Z) : C (result UseScope) :=
  let! r := owner_binding ctx sid owner in
  ret (match r with Ok b => Ok (ob_scope b) | Err e => Err e end).

(** ** edits.go *)

Record editResult := mkEdit {
  e_ranges : list rangeClaim;
  e_effects : list RangeEffect;
  e_claims : list ClaimID;
  e_releaseRanges : list rangeClaim;
  e_releaseEffects : list RangeEffect;
  e_releaseIndexes : list nat;
  e_acquired : bool;
  e_conflict : RangeConflict;
  e_rejected : RejectionCode;
  e_failedAt : option nat }.

Definition set_e_ranges (v : list rangeClaim) (x : editResult) : editResult :=
  mkEdit v (e_effects x) (e_claims x) (e_releaseRanges x) (e_releaseEffects x)
    (e_releaseIndexes x) (e_acquired x) (e_conflict x) (e_rejected x) (e_failedAt x).
Definition set_e_effects (v : list RangeEffect) (x : editResult) : editResult :=
  mkEdit (e_ranges x) v (e_claims x) (e_releaseRanges x) (e_releaseEffects x)
    (e_releaseIndexes x) (e_acquired x) (e_conflict x) (e_rejected x) (e_failedAt x).
Definition set_e_claims (v : list ClaimID) (x : editResult) : editResult :=
  mkEdit (e_ranges x) (e_effects x) v (e_releaseRanges x) (e_releaseEffects x)
    (e_releaseIndexes x) (e_acquired x) (e_conflict x) (e_rejected x) (e_failedAt x).
Definition set_e_releaseRanges (v : list rangeClaim) (x : editResult) : editResult :=
  mkEdit (e_ranges x) (e_effects x) (e_claims x) v (e_releaseEffects x) (e_releaseIndexes
    x) (e_acquired x) (e_conflict x) (e_rejected x) (e_failedAt x).
Definition set_e_releaseEffects (v : list RangeEffect) (x : editResult) : editResult :=
  mkEdit (e_ranges x) (e_effects x) (e_claims x) (e_releaseRanges x) v (e_releaseIndexes
    x) (e_acquired x) (e_conflict x) (e_rejected x) (e_failedAt x).
Definition set_e_releaseIndexes (v : list nat) (x : editResult) : editResult :=
  mkEdit (e_ranges x) (e_effects x) (e_claims x) (e_releaseRanges x) (e_releaseEffects x)
    v (e_acquired x) (e_conflict x) (e_rejected x) (e_failedAt x).
Definition set_e_acquired (v : bool) (x : editResult) : editResult :=
  mkEdit (e_ranges x) (e_effects x) (e_claims x) (e_releaseRanges x) (e_releaseEffects x)
    (e_releaseIndexes x) v (e_conflict x) (e_rejected x) (e_failedAt x).
Definition set_e_conflict (v : RangeConflict) (x : editResult) : editResult :=
  mkEdit (e_ranges x) (e_effects x) (e_claims x) (e_releaseRanges x) (e_releaseEffects x)
    (e_releaseIndexes x) (e_acquired x) v (e_rejected x) (e_failedAt x).
Definition set_e_rejected (v : RejectionCode) (x : editResult) : editResult :=
  mkEdit (e_ranges x) (e_effects x) (e_claims x) (e_releaseRanges x) (e_releaseEffects x)
    (e_releaseIndexes x) (e_acquired x) (e_conflict x) v (e_failedAt x).
Definition set_e_failedAt (v : option nat) (x : editResult) : editResult :=
  mkEdit (e_ranges x) (e_effects x) (e_claims x) (e_releaseRanges x) (e_releaseEffects x)
    (e_releaseIndexes x) (e_acquired x) (e_conflict x) (e_rejected x) v.

(** [result.rejected, result.failedAt = code, commandIndex(index)] *)
Definition reject_edit (code : RejectionCode) (index : nat) (e : editResult) : editResult :=
  set_e_failedAt (Some index) (set_e_rejected code e).

(** [slices.IndexFunc(ranges, held.id == claim)], with the claim found. *)
Fixpoint find_claim (claim : ClaimID) (ranges : list rangeClaim) : option (nat * rangeClaim) :=
  match ranges with
  | [] => None
  | held :: ranges =>
      if String.eqb (cl_id held) claim then Some (0%nat, held)
      else match find_claim claim ranges with
           | Some (i, held) => Some (S i, held)
           | None => None
           end
  end.

(** What one command adds to the draft: a rejected draft, or the draft and the
    command's effect. *)
Definition apply_command (c : coordinator) (key : ownerKey) (id : LockRequestID)
    (index : nat) (command : RangeCommand) (e : editResult)
  : option (editResult + editResult * RangeEffect) :=
  let effect claim released :=
    {| re_Claim := claim; re_Command := command; re_Released := released |} in
  if (rc_Edit command =? Replace) || (rc_Edit command =? Subtract) then
    let subtract := rc_Edit command =? Subtract in
    let e := set_e_ranges (replaceRanges (e_ranges e) command) e in
    let e := set_e_acquired (e_acquired e || (rc_Edit command =? Replace)) e in
    if subtract then
      let next := replaceRanges (e_releaseRanges e) command in
      match replacementFitsLocked c key (zlen next) with
      | None => None
      | Some false => Some (inl (reject_edit RangeExhausted index e))
      | Some true =>
          let e := set_e_releaseRanges next e in
          let e := set_e_releaseEffects (e_releaseEffects e ++ [effect EmptyString true]) e in
          let e := set_e_releaseIndexes (e_releaseIndexes e ++ [index]) e in
          Some (inr (e, effect EmptyString true))
      end
    else Some (inr (e, effect EmptyString false))
  else if rc_Edit command =? AddExact then
    let claim := match NewClaimID id (Z.of_nat index) with Ok claim => claim | Err _ => EmptyString end in
    let e := set_e_ranges (e_ranges e ++ [{| cl_id := claim; cl_command := as_held command |}]) e in
    let e := set_e_acquired true (set_e_claims (e_claims e ++ [claim]) e) in
    Some (inr (e, effect claim false))
  else if rc_Edit command =? RemoveExact then
    match find_claim (rc_Claim command) (e_ranges e) with
    | None => Some (inl (reject_edit RangeNotHeld index e))
    | Some (found, held) =>
        if negb (bool_decide (cl_range held = rc_Range command))
           || negb (rc_Mode (cl_command held) =? rc_Mode command)
           || negb (bool_decide (rc_Policy (cl_command held) = rc_Policy command))
        then Some (inl (reject_edit RangeInvalid index e))
        else
          let e := set_e_ranges (delete found (e_ranges e)) e in
          let e := match find_claim (rc_Claim command) (e_releaseRanges e) with
                   | Some (release, _) =>
                       set_e_releaseRanges (delete release (e_releaseRanges e)) e
                   | None => e
                   end in
          let eff := effect (rc_Claim command) true in
          let e := set_e_releaseEffects (e_releaseEffects e ++ [eff]) e in
          let e := set_e_releaseIndexes (e_releaseIndexes e ++ [index]) e in
          Some (inr (e, eff))
    end
  else Some (inr (e, effect EmptyString false)).

(** The body of the loop of [draftLocked]. *)
Definition draft_command (c : coordinator) (key : ownerKey) (id : LockRequestID)
    (index : nat) (command : RangeCommand) (e : editResult) : option editResult :=
  let conflict :=
    if (rc_Edit command =? Replace) || (rc_Edit command =? AddExact)
    then conflictLocked c key command else Some NoConflict in
  match conflict with
  | None => None
  | Some conflict =>
      if cf_Found conflict
      then Some (reject_edit RangeBlocked index (set_e_conflict conflict e))
      else match apply_command c key id index command e with
      | None => None
      | Some (inl e) => Some e
      | Some (inr (e, effect)) =>
          let e := set_e_effects (e_effects e ++ [effect]) e in
          match replacementFitsLocked c key (zlen (e_ranges e)) with
          | None => None
          | Some true => Some e
          | Some false => Some (reject_edit RangeExhausted index e)
          end
      end
  end.

(** The loop; a rejection is its early return. *)
Fixpoint draft_from (c : coordinator) (key : ownerKey) (id : LockRequestID)
    (released : list bool) (index : nat) (commands : list RangeCommand) (e : editResult)
  : option editResult :=
  match commands with
  | [] => Some e
  | command :: commands =>
      match released !! index with
      | None => None
      | Some true => draft_from c key id released (S index) commands e
      | Some false =>
          match draft_command c key id index command e with
          | None => None
          | Some e =>
              if bool_decide (e_rejected e = NoRejection)
              then draft_from c key id released (S index) commands e
              else Some e
          end
      end
  end.

Definition new_edit (live : list rangeClaim) : editResult :=
  {| e_ranges := live; e_effects := []; e_claims := []; e_releaseRanges := live;
     e_releaseEffects := []; e_releaseIndexes := []; e_acquired := false;
     e_conflict := NoConflict; e_rejected := NoRejection; e_failedAt := None |}.

Definition draftLocked (c : coordinator) (q : request) : option editResult :=
  match c_owners c !! q_key q with
  | None => None
  | Some o => draft_from c (q_key q) (q_id q) (q_released q) 0 (q_commands q) (new_edit (os_ranges o))
  end.

(** [action.released[index] = true], which panics out of range. *)
Definition mark_released (action : reqid) (index : nat) : C unit :=
  do! deref (λ c, q ← c_actions c !! action; q_released q !! index) in
  upd_request action (λ q, set_q_released (<[index := true]> (q_released q)) q).

(** The requests whose claims the effects released. *)
Definition removed_requests (effects : list RangeEffect) : option (gset LockRequestID) :=
  foldr (λ effect acc,
           match acc with
           | None => None
           | Some ids =>
               if negb (re_Released effect) || String.eqb (re_Claim effect) EmptyString
               then Some ids
               else match claim_request (re_Claim effect) with
                    | Some id => Some ({[id]} ∪ ids)
                    | None => None
                    end
           end) (Some ∅) effects.

(** One turn of the last loop of [reconcileRemovedClaimsLocked]. *)
Definition reconcile_request (key : ownerKey) (live : list ClaimID) (actions : gmap LockRequestID reqid)
    (id : LockRequestID) : C unit :=
  match actions !! id with
  | None => ret tt
  | Some action =>
      let! q := get_request action in
      if negb (bool_decide (q_key q = key))
         || negb (bool_decide (ra_State (q_result q) = Granted))
         || existsb (λ claim, bool_decide (claim ∈ live)) (ra_Claims (q_result q))
      then ret tt
      else completeLocked action Released NoRejection
  end.

Definition reconcileRemovedClaimsLocked (key : ownerKey) (effects : list RangeEffect) : C unit :=
  let! removed := deref (λ _, removed_requests effects) in
  if bool_decide (removed = ∅) then ret tt
  else
    let! owner := gets (λ c, c_owners c !! key) in
    let live := match owner with Some o => cl_id <$> os_ranges o | None => [] end in
    let! s := get_live (ok_session key) in
    iter (reconcile_request key live (s_actions s)) (elements removed).

Definition commitReleasePrefixLocked (action : reqid) (key : ownerKey) (e : editResult) : C unit :=
  match e_releaseEffects e with
  | [] => ret tt
  | _ =>
      do! installRangesLocked key (e_releaseRanges e) in
      do! upd_request action (λ q, set_q_result
            (set_ra_Effects (ra_Effects (q_result q) ++ e_releaseEffects e) (q_result q)) q) in
      do! iter (mark_released action) (e_releaseIndexes e) in
      reconcileRemovedClaimsLocked key (e_releaseEffects e)
  end.

Definition commitEditLocked (action : reqid) (key : ownerKey) (e : editResult) : C unit :=
  let! err := replaceLocked key (e_ranges e) in
  match err with
  | Some _ =>
      do! commitReleasePrefixLocked action key e in
      completeLocked action Rejected RangeExhausted
  | None =>
      do! upd_request action (λ q, set_q_result
            (set_ra_Claims (e_claims e)
               (set_ra_Effects (ra_Effects (q_result q) ++ e_effects e) (q_result q))) q) in
      do! completeLocked action (if e_acquired e then Granted else Released) NoRejection in
      reconcileRemovedClaimsLocked key (e_effects e)
  end.

Definition add_exacts (commands : list RangeCommand) : list RangeCommand :=
  List.filter (λ command, rc_Edit command =? AddExact) commands.

(** The conversion test at the head of [startLocked]. *)
Definition drops_first (q : request) (first : RangeCommand) (ranges : list rangeClaim) : bool :=
  negb (q_prepared q) && (rc_Conversion first =? DropBeforeAcquire)
  && match ranges with
     | [] => false
     | held :: _ => negb (rc_Mode (cl_command held) =? rc_Mode first)
     end.

Definition projected_effects (q : request) (dropping : bool) (ranges : list rangeClaim) : Z :=
  zlen (ra_Effects (q_result q)) + zlen (List.filter negb (q_released q))
  + (if dropping then zlen ranges else 0).

(** The tail of [startLocked]: the blocked request joins the queue. *)
Definition enqueueLocked (action : reqid) (key : ownerKey) : C unit :=
  do! upd_request action (set_q_pending true) in
  do! get_owner key in
  do! upd_owner key (λ o, mkOwner (os_ranges o) (os_pending o + 1)) in
  do! upd_session (ok_session key) (λ s, set_s_pending (s_pending s + 1) s) in
  modify (λ c, set_c_waiting (c_waiting c ++ [action]) c).

Definition fail_at (action : reqid) (at_index : option nat) (code : RejectionCode) : C unit :=
  do! upd_request action (λ q, set_q_result (set_ra_FailedAt at_index (q_result q)) q) in
  completeLocked action Rejected code.

(** [startLocked] after the draft was rejected and its releases were kept. *)
Definition wait_or_reject (action : reqid) (key : ownerKey) (commands : list RangeCommand)
    (first : RangeCommand) (e : editResult) : C unit :=
  do! upd_request action
        (λ q, set_q_result (set_ra_Conflict (e_conflict e) (q_result q)) q) in
  if negb (bool_decide (e_rejected e = RangeBlocked)) || negb (rc_Wait first)
  then fail_at action (e_failedAt e) (e_rejected e)
  else
    let! s := get_live (ok_session key) in
    let! c := gets id in
    if (cfg_MaxWaiters (c_config c) <=? zlen (c_waiting c))
       || (fso_MaxPendingLocks (s_options s) <=? s_pending s)
       || (fso_MaxWaiters (s_options s) <=? s_pending s)
    then fail_at action (e_failedAt e) RangeExhausted
    else if ok_domain key =? DomainRecord then
      let! verdict := deref (λ c, deadlockLocked c key commands) in
      match verdict with
      | (true, _) => fail_at action (e_failedAt e) RangeDeadlock
      | (false, false) => fail_at action (e_failedAt e) RangeExhausted
      | (false, true) => enqueueLocked action key
      end
    else enqueueLocked action key.

Definition drop_for_conversion (action : reqid) (key : ownerKey) (ranges : list rangeClaim)
  : C unit :=
  let effects := (λ held, {| re_Claim := cl_id held; re_Command := cl_command held;
                             re_Released := true |}) <$> ranges in
  do! upd_request action (λ q, set_q_result
        (set_ra_Effects (ra_Effects (q_result q) ++ effects) (q_result q)) q) in
  do! replaceLocked key [] in
  upd_request action (λ q, set_q_converting true (set_q_prepared true q)).

(** [startLocked] without its deferred prune. *)
Definition start_body (action : reqid) : C unit :=
  let! q := get_request action in
  let key := q_key q in
  let! state := ownerLocked key in
  let! first := deref (λ _, head (q_commands q)) in
  let dropping := drops_first q first (os_ranges state) in
  if (MaxRangeEffects <? projected_effects q dropping (os_ranges state))
     || (MaxRangeClaims <? zlen (add_exacts (q_commands q)))
  then completeLocked action Rejected RangeTooLarge
  else if dropping then drop_for_conversion action key (os_ranges state)
  else
    let! e := deref (λ c, draftLocked c q) in
    if bool_decide (e_rejected e = NoRejection) then commitEditLocked action key e
    else
      do! commitReleasePrefixLocked action key e in
      wait_or_reject action key (q_commands q) first e.

Definition startLocked (action : reqid) : C unit :=
  let! q := get_request action in
  do! start_body action in
  pruneOwnerLocked (q_key q).

(** ** waiting.go *)

(** The transition [advance] gives to the request's ordering callback. *)
Definition advance_ordered (sid : Z) (action : reqid) : C (result unit) :=
  let! q := get_request action in
  let! live := gets (λ c, bool_decide (sid ∈ c_sessions c)) in
  if negb (bool_decide (ra_State (q_result q) = Pending)) || negb live then ret (Ok tt)
  else
    let! s := get_session sid in
    match activeLocked s ;? checkOwnerLocked s (ok_node (q_key q)) (ok_owner (q_key q)) with
    | Some e => ret (Err e)
    | None =>
        if q_converting q then
          do! upd_request action (set_q_converting false) in
          do! startLocked action in
          ret (Ok tt)
        else
          let! e := deref (λ c, draftLocked c q) in
          do! (match e_rejected e with
               | RangeBlocked =>
                   upd_request action
                     (λ q, set_q_result (set_ra_Conflict (e_conflict e) (q_result q)) q)
               | NoRejection => commitEditLocked action (q_key q) e
               | code => completeLocked action Rejected code
               end) in
          ret (Ok tt)
    end.

(** [gate] is what the callback retained with the request does this time. *)
Definition advance (gate : Order → verdict) (action : reqid) : C (option error) :=
  let! q := get_request action in
  let! s := gets (λ c, live_session c (ok_session (q_key q))) in
  match s, q_order q with
  | Some s, Some order =>
      if s_retiring s || negb (bool_decide (ra_State (q_result q) = Pending)) then ret None
      else
        let! r := run_order (gate order) (advance_ordered (ok_session (q_key q)) action) in
        ret (snd r)
  | _, _ => ret None
  end.

(** The loop of [readyLocked]. *)
Fixpoint unblocked (c : coordinator) (key : ownerKey) (commands : list RangeCommand)
  : option bool :=
  match commands with
  | [] => Some true
  | command :: commands =>
      if negb (rc_Edit command =? Replace) && negb (rc_Edit command =? AddExact)
      then unblocked c key commands
      else match conflictLocked c key command with
      | None => None
      | Some conflict =>
          if cf_Found conflict then Some false else unblocked c key commands
      end
  end.

Definition readyLocked (c : coordinator) (q : request) : option bool :=
  match live_session c (ok_session (q_key q)) with
  | None => Some false
  | Some s => if s_retiring s then Some false else unblocked c (q_key q) (q_commands q)
  end.

(** The candidates of one pass of [pump]. *)
Fixpoint ready_requests (c : coordinator) (waiting : list reqid) : option (list reqid) :=
  match waiting with
  | [] => Some []
  | action :: waiting =>
      q ← c_actions c !! action;
      ready ← readyLocked c q;
      candidates ← ready_requests c waiting;
      Some (if ready : bool then action :: candidates else candidates)
  end.

(** One [ctx.Err()] and one [advance] per candidate, the k-th ones of the
    operation; [None] is the return when the context has ended. *)
Fixpoint pump_candidates (ctx : context) (gate : gates) (k : nat) (candidates : list reqid)
  : C (option nat) :=
  match candidates with
  | [] => ret (Some k)
  | action :: candidates =>
      match ctx k with
      | Some _ => ret None
      | None =>
          do! advance (gate k) action in
          pump_candidates ctx gate (S k) candidates
      end
  end.

Fixpoint pump_passes (passes : nat) (ctx : context) (gate : gates) (k : nat) : C unit :=
  match passes with
  | O => ret tt
  | S passes =>
      let! before := gets (λ c, length (c_waiting c)) in
      let! candidates := deref (λ c, ready_requests c (c_waiting c)) in
      match candidates with
      | [] => ret tt
      | _ =>
          let! next := pump_candidates ctx gate k candidates in
          match next with
          | None => ret tt
          | Some k =>
              let! remaining := gets (λ c, length (c_waiting c)) in
              if (before <=? remaining)%nat then ret tt else pump_passes passes ctx gate k
          end
      end
  end.

(** [pass <= limit] admits one pass more than the length of the queue. *)
Definition pump (ctx : context) (gate : gates) (k : nat) : C unit :=
  let! limit := gets (λ c, length (c_waiting c)) in
  pump_passes (S limit) ctx gate k.

(** One turn of the loop of [dropLocked]. *)
Definition drop_action (key : ownerKey) (action : reqid) : C unit :=
  let! q := get_request action in
  if negb (bool_decide (q_key q = key)) then ret tt
  else match ra_State (q_result q) with
  | Pending => completeLocked action Cancelled NoRejection
  | Granted => completeLocked action Released NoRejection
  | _ => ret tt
  end.

Definition dropLocked (key : ownerKey) : C unit :=
  let! owner := gets (λ c, c_owners c !! key) in
  do! (match owner with
       | Some _ => do! replaceLocked key [] in ret tt
       | None => ret tt
       end) in
  let! s := get_live (ok_session key) in
  do! iter (drop_action key) (snd <$> map_to_list (s_actions s)) in
  pruneOwnerLocked key.

(** [Session.key] *)
Definition session_key (sid node owner domain : Z) : ownerKey := mkKey sid owner node domain.

Definition drop_section (sid node owner domain : Z) : C (option error) :=
  let! s := get_session sid in
  match activeLocked s ;? checkOwnerLocked s node owner with
  | Some e => ret (Some e)
  | None => do! dropLocked (session_key sid node owner domain) in ret None
  end.

Definition Drop (ctx : context) (gate : gates) (sid node owner domain : Z) : C (option error) :=
  match checkCall (ctx 0%nat) node ;?
        (if (domain <? DomainRecord) || (DomainEnforced <? domain)
         then Some (Errno EINVAL) else None) with
  | Some e => ret (Some e)
  | None =>
      let! err := drop_section sid node owner domain in
      match err with
      | Some e => ret (Some e)
      | None => do! pump ctx gate 1 in ret None
      end
  end.

(** ** actions.go *)

Definition conflict_section (sid node owner : Z) (command : RangeCommand)
  : C (result RangeConflict) :=
  let! s := get_session sid in
  match activeLocked s ;? checkOwnerLocked s node owner with
  | Some e => ret (Err e)
  | None =>
      let! conflict :=
        deref (λ c, conflictLocked c (session_key sid node owner (rc_Domain command)) command) in
      ret (Ok conflict)
  end.

Definition GetConflict (ctx : context) (gate : gates) (sid node owner : Z)
    (command : RangeCommand) (order : option Order) : C (RangeConflict * option error) :=
  match checkCall (ctx 0%nat) node ;? RangeCommand_Check command with
  | Some e => ret (NoConflict, Some e)
  | None =>
      match order with
      | None => ret (NoConflict, Some (Errno EINVAL))
      | Some order =>
          if (rc_Edit command =? Subtract) || (rc_Edit command =? RemoveExact)
          then ret (NoConflict, Some (Errno EINVAL))
          else
            let! r := run_order (gate 0%nat order) (conflict_section sid node owner command) in
            ret (default NoConflict r.1, r.2)
      end
  end.

(** The loop of [checkCommands]; [first] and [count] are of the whole batch. *)
Fixpoint check_each (first : RangeCommand) (count : Z) (commands : list RangeCommand)
  : option error :=
  match commands with
  | [] => None
  | command :: commands =>
      RangeCommand_Check command ;?
      (if negb (rc_Domain command =? rc_Domain first)
          || negb (Bool.eqb (rc_Wait command) (rc_Wait first))
       then Some (Errno EINVAL) else None) ;?
      (if (rc_Conversion command =? DropBeforeAcquire) && negb (count =? 1)
       then Some (Errno EINVAL) else None) ;?
      (if negb (rc_Domain command =? DomainEnforced) && negb (Kind (rc_Range command) =? Bytes)
       then Some (Errno EINVAL) else None) ;?
      check_each first count commands
  end.

Definition checkCommands (config : Config) (commands : list RangeCommand) : option error :=
  match commands with
  | [] => Some (Errno EINVAL)
  | first :: _ =>
      if (cfg_MaxCommands config <? zlen commands) || (MaxRangeCommands <? zlen commands)
      then Some (Errno EINVAL)
      else check_each first (zlen commands) commands
  end.

(** The new [request] of [Apply]. *)
Definition new_request (key : ownerKey) (id : LockRequestID) (epoch : Z)
    (commands : list RangeCommand) (order : Order) : request :=
  {| q_key := key; q_id := id; q_epoch := epoch; q_commands := commands;
     q_result := {| ra_Request := id; ra_State := Pending; ra_Commands := commands;
                    ra_Claims := []; ra_Conflict := NoConflict; ra_Rejection := NoRejection;
                    ra_FailedAt := None; ra_Effects := []; ra_EverGranted := false;
                    ra_HistoryRemaining := 0 |};
     q_expires := 0; q_order := Some order; q_pending := false; q_prepared := false;
     q_converting := false; q_released := replicate (length commands) false |}.

(** [&request{...}] and its entry in the session's history. *)
Definition admit_request (sid : Z) (q : request) : C reqid :=
  let! action := gets c_nextRequest in
  do! modify (λ c, set_c_nextRequest (S action) (set_c_actions (<[action := q]> (c_actions c)) c)) in
  do! upd_session sid (λ s, set_s_actions (<[q_id q := action]> (s_actions s)) s) in
  do! modify (λ c, set_c_requests (c_requests c + 1) c) in
  ret action.

(** The transition [Apply] gives to the caller's ordering callback, after the
    checks of the session, the owner and the epoch. *)
Definition apply_transition (sid : Z) (now epoch : Z) (key : ownerKey)
    (commands : list RangeCommand) (id : LockRequestID) (order : Order)
  : C (result (RangeAttempt * reqid)) :=
  let! s := get_session sid in
  match s_actions s !! id with
  | Some old =>
      let! q := get_request old in
      if negb (bool_decide (q_key q = key)) || negb (bool_decide (q_commands q = commands))
      then ret (Err (Errno EINVAL))
      else ret (Ok (receiptLocked s q now, old))
  | None =>
      if negb (epoch =? s_epoch s) then ret (Err (Errno ESTALE))
      else
        let! full := gets (λ c, cfg_MaxRequests (c_config c) <=? c_requests c) in
        let! sessions := gets (λ c, elements (c_sessions c)) in
        do! (if full : bool then iter (λ sid, pruneHistoryLocked sid now) sessions else ret tt) in
        let! c := gets (λ c, c) in
        let! s := get_session sid in
        if (fso_MaxLockActions (s_options s) <=? Z.of_nat (size (s_actions s)))
           || (cfg_MaxRequests (c_config c) <=? c_requests c)
        then ret (Err (Errno ENOLCK))
        else
          let! action := admit_request sid (new_request key id epoch commands order) in
          do! startLocked action in
          let! now := read_clock in
          let! q := get_request action in
          let! s := get_session sid in
          ret (Ok (receiptLocked s q now, action))
  end.

Definition apply_section (sid node owner epoch : Z) (commands : list RangeCommand)
    (id : LockRequestID) (order : Order) : C (result (RangeAttempt * reqid)) :=
  let! s := get_session sid in
  match activeLocked s ;? checkOwnerLocked s node owner with
  | Some e => ret (Err e)
  | None =>
      let! now := read_clock in
      let! err := advanceLocked sid now in
      match err with
      | Some e => ret (Err e)
      | None =>
          let! first := deref (λ _, head commands) in
          apply_transition sid now epoch (session_key sid node owner (rc_Domain first))
            commands id order
      end
  end.

(** The last section of [Apply]. *)
Definition apply_receipt (sid : Z) (id : LockRequestID) (current : reqid)
  : C (result RangeAttempt) :=
  let! s := get_session sid in
  match activeLocked s with
  | Some e => ret (Err e)
  | None =>
      if negb (bool_decide (s_actions s !! id = Some current)) then ret (Err (Errno ESTALE))
      else
        let! now := read_clock in
        let! q := get_request current in
        ret (Ok (receiptLocked s q now))
  end.

(** [Apply]; a [None] attempt is the zero [RangeAttempt]. *)
Definition Apply (ctx : context) (gate : gates) (sid node owner : Z)
    (commands : list RangeCommand) (id : LockRequestID) (order : option Order)
  : C (option RangeAttempt * option error) :=
  let! config := gets c_config in
  match checkCall (ctx 0%nat) node ;? checkCommands config commands with
  | Some e => ret (None, Some e)
  | None =>
      match Epoch id, order with
      | Err e, _ => ret (None, Some e)
      | Ok _, None => ret (None, Some (Errno EINVAL))
      | Ok epoch, Some order =>
          let! r := run_order (gate 0%nat order)
                      (apply_section sid node owner epoch commands id order) in
          match r with
          | (Some (result, current), None) =>
              do! pump ctx (λ k, gate (S k)) 1 in
              let! err := advance (gate 1%nat) current in
              match err with
              | Some e => ret (Some result, Some e)
              | None =>
                  let! final := apply_receipt sid id current in
                  match final with
                  | Ok result => ret (Some result, None)
                  | Err e => ret (None, Some e)
                  end
              end
          | (Some (result, _), Some e) => ret (Some result, Some e)
          | (None, err) => ret (None, err)
          end
      end
  end.

(** ** reconciliation.go: queries and cancellation *)

Definition requestLocked (sid owner : Z) (id : LockRequestID) : C (result reqid) :=
  match Epoch id with
  | Err e => ret (Err e)
  | Ok _ =>
      let! s := get_session sid in
      match activeLocked s with
      | Some e => ret (Err e)
      | None =>
          let! now := read_clock in
          let! err := advanceLocked sid now in
          match err with
          | Some e => ret (Err e)
          | None =>
              let! s := get_session sid in
              match s_actions s !! id with
              | None => ret (Err (Errno ESTALE))
              | Some action =>
                  let! q := get_request action in
                  if negb (ok_owner (q_key q) =? owner) then ret (Err (Errno EINVAL))
                  else ret (Ok action)
              end
          end
      end
  end.

Definition findLocked (sid node owner : Z) (id : LockRequestID) : C (result reqid) :=
  let! r := requestLocked sid owner id in
  match r with
  | Err e => ret (Err e)
  | Ok action =>
      let! q := get_request action in
      if negb (ok_node (q_key q) =? node) then ret (Err (Errno EINVAL)) else ret (Ok action)
  end.

Definition RequestNode (ctx : context) (sid owner : Z) (id : LockRequestID) : C (result Z) :=
  match ctx 0%nat with
  | Some e => ret (Err e)
  | None =>
      let! r := requestLocked sid owner id in
      match r with
      | Err e => ret (Err e)
      | Ok action => let! q := get_request action in ret (Ok (ok_node (q_key q)))
      end
  end.

(** The last section of [Query]. *)
Definition query_receipt (sid : Z) (action : reqid) : C (result RangeAttempt) :=
  let! s := get_session sid in
  match activeLocked s with
  | Some e => ret (Err e)
  | None =>
      let! now := read_clock in
      let! q := get_request action in
      ret (Ok (receiptLocked s q now))
  end.

Definition Query (ctx : context) (gate : gates) (sid node owner : Z) (id : LockRequestID)
  : C (result RangeAttempt) :=
  match checkCall (ctx 0%nat) node with
  | Some e => ret (Err e)
  | None =>
      let! r := findLocked sid node owner id in
      match r with
      | Err e => ret (Err e)
      | Ok action =>
          let! err := advance (gate 0%nat) action in
          match err with
          | Some e => ret (Err e)
          | None => query_receipt sid action
          end
      end
  end.

Definition cancel_section (sid node owner : Z) (id : LockRequestID) : C (result RangeAttempt) :=
  let! r := findLocked sid node owner id in
  match r with
  | Err e => ret (Err e)
  | Ok action =>
      let! q := get_request action in
      do! (if bool_decide (ra_State (q_result q) = Pending)
           then completeLocked action Cancelled NoRejection else ret tt) in
      let! now := read_clock in
      let! q := get_request action in
      let! s := get_session sid in
      ret (Ok (receiptLocked s q now))
  end.

Definition Cancel (ctx : context) (gate : gates) (sid node owner : Z) (id : LockRequestID)
  : C (result RangeAttempt) :=
  match checkCall (ctx 0%nat) node with
  | Some e => ret (Err e)
  | None =>
      let! r := cancel_section sid node owner id in
      match r with
      | Err e => ret (Err e)
      | Ok result => do! pump ctx gate 1 in ret (Ok result)
      end
  end.

(** ** owners.go: retirement *)

Definition domains : list Z := [DomainRecord; DomainWholeFile; DomainEnforced].

Definition retire_owner_section (sid owner : Z) : C (option error) :=
  let! s := get_session sid in
  if (owner =? 0) || (s_nextOwner s <? owner) then ret (Some (Errno EINVAL))
  else match s_bindings s !! owner with
  | None => ret None
  | Some binding =>
      do! iter (λ domain, dropLocked (session_key sid (ob_node binding) owner domain)) domains in
      do! upd_session sid (λ s, set_s_owners (s_owners s - 1)
                             (set_s_bindings (delete owner (s_bindings s)) s)) in
      do! modify (λ c, set_c_registeredOwners (c_registeredOwners c - 1) c) in
      ret None
  end.

Definition RetireOwner (ctx : context) (gate : gates) (sid owner : Z) : C (option error) :=
  match ctx 0%nat with
  | Some e => ret (Some e)
  | None =>
      let! err := retire_owner_section sid owner in
      match err with
      | Some e => ret (Some e)
      | None => do! pump ctx gate 1 in ret None
      end
  end.

(** ** session.go: retirement *)

(** How the first section of [Retire] goes on. *)
Inductive retire_step :=
| RetireReturns (err : option error)
| RetireWaits
| RetireFences.

Definition retire_begin (ctx_err : option error) (sid : Z) : C retire_step :=
  let! s := get_session sid in
  if s_retired s then ret (RetireReturns None)
  else if s_retireDone s then ret RetireWaits
  else match ctx_err with
  | Some e => ret (RetireReturns (Some e))
  | None =>
      do! upd_session sid (λ s, set_s_retireDone true (set_s_retiring true s)) in
      ret RetireFences
  end.

(** [len(state.ranges)] summed over the owners of a session. *)
Definition held_ranges (owners : list (ownerKey * ownerState)) : Z :=
  foldr (λ p n, zlen (os_ranges p.2) + n) 0 owners.

Definition of_session (sid : Z) (p : ownerKey * ownerState) : Prop := ok_session p.1 = sid.

#[global] Instance of_session_dec sid p : Decision (of_session sid p).
Proof. unfold of_session. apply _. Defined.

(** The queue without the requests of a session. *)
Fixpoint without_session (c : coordinator) (sid : Z) (waiting : list reqid)
  : option (list reqid) :=
  match waiting with
  | [] => Some []
  | action :: waiting =>
      q ← c_actions c !! action;
      remaining ← without_session c sid waiting;
      Some (if ok_session (q_key q) =? sid then remaining else action :: remaining)
  end.

(** The part of [Retire] that frees a session whose fence succeeded. *)
Definition retire_free (sid : Z) : C unit :=
  let! owners := gets c_owners in
  do! modify (λ c, set_c_ranges
        (c_ranges c - held_ranges (map_to_list (filter (of_session sid) owners))) c) in
  do! modify (λ c, set_c_owners (filter (λ p, ¬ of_session sid p) owners) c) in
  let! remaining := deref (λ c, without_session c sid (c_waiting c)) in
  do! modify (set_c_waiting remaining) in
  let! s := get_session sid in
  do! modify (λ c, set_c_requests (c_requests c - Z.of_nat (size (s_actions s))) c) in
  do! modify (λ c, set_c_registeredOwners
        (c_registeredOwners c - Z.of_nat (size (s_bindings s))) c) in
  do! upd_session sid (λ s,
        set_s_retired true (set_s_pending 0 (set_s_ranges 0 (set_s_owners 0
          (set_s_bindings ∅ (set_s_actions ∅ s)))))) in
  modify (λ c, set_c_sessions (c_sessions c ∖ {[sid]}) c).

Definition retire_finish (sid : Z) (fence_err : option error) : C unit :=
  do! upd_session sid (set_s_retireErr fence_err) in
  do! (match fence_err with None => retire_free sid | Some _ => ret tt end) in
  upd_session sid (set_s_retireDone false).

(** [Retire].  [fence] is the answer of the session's publication fence;
    [select] is the branch a call takes that finds another retirement running:
    [None] when that one ends, [Some e] when its own context does. *)
Definition Retire (ctx : context) (gate : gates) (select fence : option error) (sid : Z)
  : C (option error) :=
  let! step := retire_begin (ctx 0%nat) sid in
  match step with
  | RetireReturns err => ret err
  | RetireWaits =>
      match select with
      | None => let! s := get_session sid in ret (s_retireErr s)
      | Some e => ret (Some e)
      end
  | RetireFences =>
      do! retire_finish sid fence in
      do! (match fence with None => pump ctx gate 1 | Some _ => ret tt end) in
      ret fence
  end.
