(* ===== verification/Uses.v ===== *)
(** * Use claims and materialization

    [packages/advisory/uses.go]: the share modes of open references, and the
    test an I/O operation passes; [materialization.go]: the reservation of
    buffer space.  A materialization's [release] closure is a handle of
    [c_reservations], present until its [sync.Once] has fired. *)

From S2P Require Import Prelude Errors Identity Ranges Extents AdvisoryState Conflicts Deadlock Coordinator.

(** ** Use claims *)

(** [a&b != 0] *)
Definition meets (a b : Uses) : bool := negb (Z.land a b =? 0).

(** Two claims on one node that deny each other's uses. *)
Definition clash (a b : UseClaim) : bool :=
  meets (uc_Uses a) (uc_Deny b) || meets (uc_Uses b) (uc_Deny a).

Definition AddUse (ctx : context) (node : Z) (scope : UseScope) (claim : UseClaim)
  : C (option error) :=
  match checkCall (ctx 0%nat) node ;? UseScope_Check scope ;? UseClaim_Check claim with
  | Some e => ret (Some e)
  | None =>
      let! c := gets (λ c, c) in
      match c_uses c !! scope with
      | Some old =>
          if negb (us_node old =? node) || negb (bool_decide (us_claim old = claim))
          then ret (Some (Errno EINVAL)) else ret None
      | None =>
          if existsb (λ p : UseScope * useClaim,
                        (us_node p.2 =? node) && clash claim (us_claim p.2))
                     (map_to_list (c_uses c))
          then ret (Some (Capability ErrUseConflict))
          else if cfg_MaxOwners (c_config c) <=? Z.of_nat (size (c_uses c)) + c_registeredOwners c
          then ret (Some (Errno ENOLCK))
          else
            do! modify (λ c, set_c_uses
                  (<[scope := {| us_node := node; us_claim := claim |}]> (c_uses c)) c) in
            ret None
      end
  end.

Definition DropUse (ctx : context) (node : Z) (scope : UseScope) : C (option error) :=
  match checkCall (ctx 0%nat) node ;? UseScope_Check scope with
  | Some e => ret (Some e)
  | None =>
      let! c := gets (λ c, c) in
      match c_uses c !! scope with
      | Some old =>
          if negb (us_node old =? node) then ret (Some (Errno EINVAL))
          else do! modify (λ c, set_c_uses (delete scope (c_uses c)) c) in ret None
      | None => ret None
      end
  end.

Definition exactUseLocked (c : coordinator) (node : Z) (scope : UseScope) (claim : UseClaim)
  : bool :=
  match c_uses c !! scope with
  | Some old => (us_node old =? node) && bool_decide (us_claim old = claim)
  | None => false
  end.

Definition DropUseExact (ctx : context) (node : Z) (scope : UseScope) (claim : UseClaim)
  : C (option error) :=
  match checkCall (ctx 0%nat) node ;? UseScope_Check scope ;? UseClaim_Check claim with
  | Some e => ret (Some e)
  | None =>
      let! exact := gets (λ c, exactUseLocked c node scope claim) in
      if negb exact then ret (Some (Capability ErrInvalidScope))
      else do! modify (λ c, set_c_uses (delete scope (c_uses c)) c) in ret None
  end.

Definition checkOtherUsesLocked (c : coordinator) (node : Z) (scope : UseScope) (uses : Uses)
  : option error :=
  if existsb (λ p : UseScope * useClaim,
                (us_node p.2 =? node) && negb (bool_decide (p.1 = scope))
                && meets uses (uc_Deny (us_claim p.2)))
             (map_to_list (c_uses c))
  then Some (Capability ErrUseConflict) else None.

Definition CheckCloseUnlink (ctx : context) (c : coordinator) (node : Z) (scope : UseScope)
    (claim : UseClaim) : option error :=
  checkCall (ctx 0%nat) node ;? UseScope_Check scope ;? UseClaim_Check claim ;?
  (if negb (exactUseLocked c node scope claim) then Some (Capability ErrInvalidScope)
   else checkOtherUsesLocked c node scope DeleteName).

Definition checkUseLocked (c : coordinator) (node : Z) (scope : UseScope) (uses : Uses)
  : option error :=
  (if negb (String.eqb (Token scope) EmptyString) then
     match c_uses c !! scope with
     | None => Some (Capability ErrInvalidScope)
     | Some own =>
         if negb (us_node own =? node) then Some (Capability ErrInvalidScope)
         else if negb (Z.ldiff uses (uc_Uses (us_claim own)) =? 0) then Some (Errno EBADF)
         else None
     end
   else None) ;?
  checkOtherUsesLocked c node scope uses.

Definition CheckUse (ctx : context) (c : coordinator) (node : Z) (scope : UseScope) (uses : Uses)
  : option error :=
  checkCall (ctx 0%nat) node ;?
  (if negb (Z.ldiff uses AllUses =? 0) then Some (Errno EINVAL) else None) ;?
  checkUseLocked c node scope uses.

(** The claims of one owner that refuse the operation. *)
Definition refuses (scope : UseScope) (binding : UseScope) (extent : Range) (uses : Uses)
    (held : rangeClaim) : bool :=
  overlaps (cl_range held) extent
  && meets uses (if negb (String.eqb (Token scope) EmptyString) && bool_decide (binding = scope)
                 then DenySelf (rc_Policy (cl_command held))
                 else DenyOthers (rc_Policy (cl_command held))).

(** The loop of [CheckIO] over the owners; [None] is the panic of a nil session. *)
Fixpoint check_enforced (c : coordinator) (node : Z) (scope : UseScope) (extent : Range)
    (uses : Uses) (owners : list (ownerKey * ownerState)) : option (option error) :=
  match owners with
  | [] => Some None
  | (key, owner) :: owners =>
      if negb (ok_node key =? node) || negb (ok_domain key =? DomainEnforced)
      then check_enforced c node scope extent uses owners
      else match live_session c (ok_session key) with
      | None => None
      | Some s =>
          let binding := match s_bindings s !! ok_owner key with
                         | Some b => ob_scope b
                         | None => {| Token := EmptyString |}
                         end in
          if existsb (refuses scope binding extent uses) (os_ranges owner)
          then Some (Some (Capability ErrRangeConflict))
          else check_enforced c node scope extent uses owners
      end
  end.

Definition CheckIO (ctx : context) (c : coordinator) (node : Z) (scope : UseScope)
    (extent : Range) (uses : Uses) : option (option error) :=
  match checkCall (ctx 0%nat) node ;? Range_Check extent ;?
        (if negb (Kind extent =? Bytes) || (uses =? 0)
            || negb (Z.ldiff uses (Z.lor ReadData WriteData) =? 0)
         then Some (Errno EINVAL) else None) ;?
        checkUseLocked c node scope uses with
  | Some e => Some (Some e)
  | None => check_enforced c node scope extent uses (map_to_list (c_owners c))
  end.

(** ** Materialization *)

Definition AcquireMaterialization (ctx : context) (bytes : Z) : C (result nat) :=
  match ctx 0%nat with
  | Some e => ret (Err e)
  | None =>
      if bytes <? 0 then ret (Err (Errno EINVAL))
      else
        let! c := gets (λ c, c) in
        if cfg_MaxMaterializedBytes (c_config c) <? bytes then ret (Err (Wrapped (Errno EFBIG)))
        else if (cfg_MaxMaterializations (c_config c) <=? c_materializations c)
                || (cfg_MaxMaterializedBytes (c_config c) - c_materializedBytes c <? bytes)
        then ret (Err (Wrapped (Errno EAGAIN)))
        else
          do! modify (λ c, set_c_materializations (c_materializations c + 1) c) in
          do! modify (λ c, set_c_materializedBytes (c_materializedBytes c + bytes) c) in
          do! modify (λ c, set_c_nextReservation (S (c_nextReservation c))
                (set_c_reservations (<[c_nextReservation c := bytes]> (c_reservations c)) c)) in
          ret (Ok (c_nextReservation c))
  end.

(** The closure returned by [AcquireMaterialization]. *)
Definition release_materialization (handle : nat) : C unit :=
  let! reservation := gets (λ c, c_reservations c !! handle) in
  match reservation with
  | None => ret tt
  | Some bytes =>
      do! modify (λ c, set_c_reservations (delete handle (c_reservations c)) c) in
      do! modify (λ c, set_c_materializations (c_materializations c - 1) c) in
      modify (λ c, set_c_materializedBytes (c_materializedBytes c - bytes) c)
  end.

Definition FileOperationLimits (c : coordinator) : Z * Z * Z :=
  (cfg_MaxFileBytes (c_config c), cfg_MaxFileAttempts (c_config c),
   cfg_FileOperationTimeout (c_config c)).
