(* ===== verification/AdvisoryInv.v ===== *)
(** * The advisory coordinator: invariant

    What holds of a coordinator between critical sections, and that the
    building blocks of the sections keep it.  Inside a section the invariant is
    relaxed at a focus: [fa] is a request that has been admitted but is neither
    queued nor settled yet, [fk] an owner record that may be empty. *)

From S2P Require Import Prelude Errors Identity Ranges Extents AdvisoryState Conflicts Deadlock Coordinator Uses.

(** ** Vocabulary *)

(** A checked range: bytes inside the 64-bit space, or a boundary. *)
Definition range_ok (r : Range) : Prop := byte_extent r ∨ Kind r = Boundary.

(** The claims an owner may hold: an advisory domain keeps disjoint ordered
    byte ranges, the enforced domain any list of checked ranges. *)
Definition held_ok (domain : Z) (ranges : list rangeClaim) : Prop :=
  if domain =? DomainEnforced then Forall (λ d, range_ok (cl_range d)) ranges
  else wf_claims ranges.

(** The owner is registered with a live session, for the node of the key. *)
Definition bound (c : coordinator) (key : ownerKey) : Prop :=
  ∃ s b, live_session c (ok_session key) = Some s
         ∧ s_bindings s !! ok_owner key = Some b ∧ ob_node b = ok_node key.

(** How many queued requests have a key with a property. *)
Definition queue_count (c : coordinator) (p : ownerKey → bool) : Z :=
  zlen (List.filter (λ a, match c_actions c !! a with Some q => p (q_key q) | None => false end)
                    (c_waiting c)).

Definition key_is (key k : ownerKey) : bool := bool_decide (k = key).
Definition session_is (sid : Z) (k : ownerKey) : bool := ok_session k =? sid.

(** Ranges held by the owners that satisfy a property. *)
Definition range_count (p : ownerKey → bool) (owners : gmap ownerKey ownerState) : Z :=
  msum (λ k o, if p k then zlen (os_ranges o) else 0) owners.

Definition any_key (_ : ownerKey) : bool := true.

(** Values Go's uint64 fields can have. *)
Definition command_typed (command : RangeCommand) : Prop :=
  is_u64 (Start (rc_Range command)) ∧ is_u64 (Length (rc_Range command)).

Definition batch_ok (config : Config) (domain : Z) (commands : list RangeCommand) : Prop :=
  checkCommands config commands = None ∧ Forall command_typed commands
  ∧ (rc_Domain <$> head commands) = Some domain.

(** ** The invariant *)

Definition session_ok (c : coordinator) (sid : Z) (s : session) : Prop :=
  1 <= sid <= c_nextSession c
  ∧ (s_retired s = true ↔ sid ∉ c_sessions c)
  ∧ (s_retired s = true → s_bindings s = ∅ ∧ s_actions s = ∅)
  ∧ (∀ o b, s_bindings s !! o = Some b → 1 <= o <= s_nextOwner s)
  ∧ s_owners s = Z.of_nat (size (s_bindings s))
  ∧ Z.of_nat (size (s_bindings s)) <= fso_MaxLockOwners (s_options s)
  ∧ Z.of_nat (size (s_actions s)) <= fso_MaxLockActions (s_options s)
  ∧ FileSessionOptions_Check (s_options s) = None
  ∧ is_u64 (s_nextOwner s).

Definition sessions_ok (c : coordinator) : Prop :=
  (∀ sid, sid ∈ c_sessions c → is_Some (c_heap c !! sid))
  ∧ (∀ sid s, c_heap c !! sid = Some s → session_ok c sid s)
  ∧ (∀ sid s id a, c_heap c !! sid = Some s → s_actions s !! id = Some a →
       ∃ q, c_actions c !! a = Some q ∧ q_id q = id ∧ ok_session (q_key q) = sid).

Definition owner_ok (fk : option ownerKey) (c : coordinator) (key : ownerKey) (o : ownerState)
  : Prop :=
  bound c key ∧ DomainRecord <= ok_domain key <= DomainEnforced
  ∧ held_ok (ok_domain key) (os_ranges o)
  ∧ os_pending o = queue_count c (key_is key)
  ∧ (fk = Some key ∨ os_ranges o ≠ [] ∨ os_pending o ≠ 0).

Definition owners_ok (fk : option ownerKey) (c : coordinator) : Prop :=
  ∀ key o, c_owners c !! key = Some o → owner_ok fk c key o.

Definition waiting_ok (c : coordinator) : Prop :=
  NoDup (c_waiting c)
  ∧ ∀ a, a ∈ c_waiting c →
      ∃ q, c_actions c !! a = Some q ∧ ok_session (q_key q) ∈ c_sessions c
           ∧ ra_State (q_result q) = Pending ∧ q_converting q = false
           ∧ is_Some (c_owners c !! q_key q).

(** A request that is not settled is in its session's history, its owner is
    registered, its callback is kept, and it is queued or being converted. *)
Definition request_ok (fa : option reqid) (c : coordinator) (a : reqid) (q : request) : Prop :=
  (a < c_nextRequest c)%nat
  ∧ batch_ok (c_config c) (ok_domain (q_key q)) (q_commands q)
  ∧ length (q_released q) = length (q_commands q)
  ∧ is_Some (c_heap c !! ok_session (q_key q))
  ∧ (ok_session (q_key q) ∈ c_sessions c → q_pending q = true ↔ a ∈ c_waiting c)
  ∧ (ok_session (q_key q) ∈ c_sessions c → ra_State (q_result q) = Pending →
       bound c (q_key q) ∧ is_Some (q_order q)
       ∧ (∃ s, c_heap c !! ok_session (q_key q) = Some s ∧ s_actions s !! q_id q = Some a)
       ∧ (fa = Some a ∨ a ∈ c_waiting c ∨ q_converting q = true)).

Definition requests_ok (fa : option reqid) (c : coordinator) : Prop :=
  ∀ a q, c_actions c !! a = Some q → request_ok fa c a q.

Definition counts_ok (c : coordinator) : Prop :=
  c_ranges c = range_count any_key (c_owners c)
  ∧ c_requests c = msum (λ _ s, Z.of_nat (size (s_actions s))) (c_heap c)
  ∧ c_registeredOwners c = msum (λ _ s, Z.of_nat (size (s_bindings s))) (c_heap c)
  ∧ ∀ sid s, c_heap c !! sid = Some s →
      s_ranges s = range_count (session_is sid) (c_owners c)
      ∧ s_pending s = queue_count c (session_is sid).

Definition bounds_ok (c : coordinator) : Prop :=
  Config_Check (c_config c) = None
  ∧ Z.of_nat (size (c_sessions c)) <= cfg_MaxSessions (c_config c)
  ∧ c_ranges c <= cfg_MaxRanges (c_config c)
  ∧ c_requests c <= cfg_MaxRequests (c_config c)
  ∧ zlen (c_waiting c) <= cfg_MaxWaiters (c_config c)
  ∧ c_registeredOwners c + Z.of_nat (size (c_uses c)) <= cfg_MaxOwners (c_config c)
  ∧ ∀ sid s, c_heap c !! sid = Some s →
      s_ranges s <= fso_MaxLockRanges (s_options s)
      ∧ s_pending s <= fso_MaxPendingLocks (s_options s)
      ∧ s_pending s <= fso_MaxWaiters (s_options s).

(** No claim stands against one that another owner holds. *)
Definition exclusion_ok (c : coordinator) : Prop :=
  ∀ k1 o1 d1 k2 o2 d2,
    c_owners c !! k1 = Some o1 → c_owners c !! k2 = Some o2 → rival k1 k2 = true →
    d1 ∈ os_ranges o1 → d2 ∈ os_ranges o2 → blocks (cl_command d1) d2 = false.

Definition uses_ok (c : coordinator) : Prop :=
  ∀ a ua b ub, c_uses c !! a = Some ua → c_uses c !! b = Some ub → a ≠ b →
    us_node ua = us_node ub → clash (us_claim ua) (us_claim ub) = false.

Definition materializations_ok (c : coordinator) : Prop :=
  c_materializations c = Z.of_nat (size (c_reservations c))
  ∧ c_materializedBytes c = msum (λ _ bytes, bytes) (c_reservations c)
  ∧ (∀ h bytes, c_reservations c !! h = Some bytes → 0 <= bytes ∧ (h < c_nextReservation c)%nat)
  ∧ c_materializations c <= cfg_MaxMaterializations (c_config c)
  ∧ c_materializedBytes c <= cfg_MaxMaterializedBytes (c_config c).

Record Inv (fa : option reqid) (fk : option ownerKey) (c : coordinator) : Prop := {
  inv_sessions : sessions_ok c;
  inv_owners : owners_ok fk c;
  inv_waiting : waiting_ok c;
  inv_requests : requests_ok fa c;
  inv_counts : counts_ok c;
  inv_bounds : bounds_ok c;
  inv_exclusion : exclusion_ok c;
  inv_uses : uses_ok c;
  inv_materializations : materializations_ok c;
  inv_next : is_u64 (c_nextSession c) }.

(** ** Reading the invariant *)

Lemma live_session_Some c sid s :
  live_session c sid = Some s ↔ sid ∈ c_sessions c ∧ c_heap c !! sid = Some s.
Proof. unfold live_session. case_decide; naive_solver. Qed.

Lemma live_session_lookup c sid :
  sessions_ok c → sid ∈ c_sessions c → ∃ s, live_session c sid = Some s.
Proof.
  intros (H & _) Hs. destruct (H sid Hs) as [s ?]. exists s. by apply live_session_Some.
Qed.

Lemma Inv_owners_live fa fk c : Inv fa fk c → owners_live c.
Proof.
  intros H key o Ho. destruct (inv_owners _ _ _ H key o Ho) as ((s & b & Hs & _) & _). eauto.
Qed.

Lemma Inv_weaken fa fa' fk fk' c :
  Inv fa fk c → (fa = None ∨ fa = fa') → (fk = None ∨ fk = fk') → Inv fa' fk' c.
Proof.
  intros H Ha Hk. destruct H as [Isess Iown Iwait Ireq Icnt Ibnd Iexc Iuse Imat Inext]. split; try done.
  - intros key o Ho. destruct (Iown key o Ho) as (? & ? & ? & ? & Hf).
    split_and!; try done; try apply H0. destruct Hk as [->| ->]; naive_solver.
  - intros a q Hq. destruct (Ireq a q Hq) as (? & ? & ? & ? & ? & Hp).
    split_and!; try done; try apply H0. intros Hs HP. destruct (Hp Hs HP) as (? & ? & ? & ?).
    split_and!; try done. destruct Ha as [->| ->]; naive_solver.
Qed.

Lemma Inv_clock fa fk c n : Inv fa fk c → Inv fa fk (set_c_reads n c).
Proof. intros []. split; assumption. Qed.

(** The focus on a settled request can be dropped. *)
Lemma Inv_settled a fk c q :
  Inv (Some a) fk c → c_actions c !! a = Some q →
  ra_State (q_result q) ≠ Pending ∨ a ∈ c_waiting c ∨ q_converting q = true →
  Inv None fk c.
Proof.
  intros H Hq Hs. destruct H as [Isess Iown Iwait Ireq Icnt Ibnd Iexc Iuse Imat Inext]. split; try done. intros a' q' Hq'.
  destruct (Ireq a' q' Hq') as (? & ? & ? & ? & ? & Hp).
  split_and!; try done; try apply H0. intros Hl HP. destruct (Hp Hl HP) as (? & ? & ? & Hf).
  split_and!; try done. right. destruct Hf as [[= ->]|Hf]; [|done]. naive_solver.
Qed.

(** The focus on an owner record that is absent or in use can be dropped. *)
Lemma Inv_unfocus fa key c :
  Inv fa (Some key) c →
  (∀ o, c_owners c !! key = Some o → os_ranges o ≠ [] ∨ os_pending o ≠ 0) →
  Inv fa None c.
Proof.
  intros H Ho. destruct H as [Isess Iown Iwait Ireq Icnt Ibnd Iexc Iuse Imat Inext]. split; try done. intros k o Hk.
  destruct (Iown k o Hk) as (? & ? & ? & ? & Hf). split_and!; try done; try apply H0.
  right. destruct Hf as [[= ->]|Hf]; auto.
Qed.

(** ** Updates of one request *)

Lemma queue_count_request c a q q' p :
  c_actions c !! a = Some q → q_key q' = q_key q →
  queue_count (set_c_actions (<[a := q']> (c_actions c)) c) p = queue_count c p.
Proof.
  intros Hq Hk. unfold queue_count, zlen. simpl. do 2 f_equal.
  apply List.filter_ext. intros b. destruct (decide (b = a)) as [->|Hne].
  - by rewrite lookup_insert_eq, Hq, Hk.
  - by rewrite lookup_insert_ne.
Qed.

(** The fields of a request that are fixed when it is admitted. *)
Definition same_request (q q' : request) : Prop :=
  q_key q' = q_key q ∧ q_id q' = q_id q ∧ q_commands q' = q_commands q
  ∧ length (q_released q') = length (q_released q) ∧ q_epoch q' = q_epoch q.

Lemma Inv_set_request fa fk c a q q' :
  Inv fa fk c → c_actions c !! a = Some q → same_request q q' →
  q_pending q' = q_pending q →
  (ra_State (q_result q') = Pending →
     ra_State (q_result q) = Pending ∧ (is_Some (q_order q) → is_Some (q_order q'))
     ∧ (q_converting q = true → q_converting q' = true ∨ fa = Some a)) →
  (a ∈ c_waiting c → ra_State (q_result q') = Pending ∧ q_converting q' = false) →
  Inv fa fk (set_c_actions (<[a := q']> (c_actions c)) c).
Proof.
  intros H Hq (Hk & Hid & Hc & Hr & _) Hp HP Hw. destruct H as [Isess Iown Iwait Ireq Icnt Ibnd Iexc Iuse Imat Inext]. split; try done.
  - destruct Isess as (? & ? & H3). split_and!; try done.
    intros sid s id b Hs Hb. destruct (H3 sid s id b Hs Hb) as (qb & Hqb & <- & <-).
    simpl. destruct (decide (b = a)) as [->|Hne].
    + rewrite lookup_insert_eq. simplify_eq. exists q'. by rewrite Hid, Hk.
    + rewrite lookup_insert_ne by done. eauto.
  - intros key o Ho. destruct (Iown key o Ho) as (? & ? & ? & Hc' & ?).
    split_and!; try done; try apply H0. by rewrite (queue_count_request c a q).
  - destruct Iwait as (? & Hall). split; [done|]. intros b Hb. simpl in *.
    destruct (Hall b Hb) as (qb & Hqb & ? & ? & ? & ?).
    destruct (decide (b = a)) as [->|Hne].
    + rewrite lookup_insert_eq. exists q'. simplify_eq. rewrite Hk. naive_solver.
    + rewrite lookup_insert_ne by done. eauto 10.
  - intros b qb. simpl. intros [[<- <-]|[Hne Hb]]%lookup_insert_Some.
    + destruct (Ireq a q Hq) as (? & ? & ? & ? & ? & Hpend).
      split_and!; simpl; try done; rewrite ?Hk, ?Hc, ?Hr, ?Hp, ?Hid; try done.
      intros Hs [HP1 [HP2 HP3]]%HP. destruct (Hpend Hs HP1) as (? & ? & ? & ?).
      split_and!; auto. naive_solver.
    + by apply Ireq.
  - destruct Icnt as (? & ? & ? & Hall). split_and!; try done.
    intros sid s Hs. destruct (Hall sid s Hs). by rewrite (queue_count_request c a q).
Qed.

(** ** Owner records *)

Lemma key_is_true key k : key_is key k = true ↔ k = key.
Proof. unfold key_is. by rewrite bool_decide_eq_true. Qed.

Lemma queue_count_nonneg c p : 0 <= queue_count c p.
Proof. unfold queue_count, zlen. lia. Qed.

(** An owner without a record has no queued request. *)
Lemma Inv_no_owner fa fk c key :
  Inv fa fk c → c_owners c !! key = None → queue_count c (key_is key) = 0.
Proof.
  intros H Hk. unfold queue_count, zlen.
  destruct (List.filter _ (c_waiting c)) as [|a l] eqn:E; [done|].
  assert (In a (a :: l)) as Hin by (left; done). rewrite <- E in Hin.
  apply filter_In in Hin as [Hin Ha]. apply list_elem_of_In in Hin.
  destruct (inv_waiting _ _ _ H) as [_ Hw]. destruct (Hw a Hin) as (q & Hq & _ & _ & _ & Ho).
  rewrite Hq in Ha. apply key_is_true in Ha. rewrite Ha, Hk in Ho. by destruct Ho.
Qed.

Lemma range_count_insert p owners key o :
  owners !! key = None →
  range_count p (<[key := o]> owners)
  = (if p key then zlen (os_ranges o) else 0) + range_count p owners.
Proof. intros. unfold range_count. by rewrite msum_insert. Qed.

Lemma range_count_replace p owners key o o' :
  owners !! key = Some o →
  range_count p (<[key := o']> owners)
  = range_count p owners + (if p key then zlen (os_ranges o') - zlen (os_ranges o) else 0).
Proof.
  intros. unfold range_count. rewrite (msum_insert_Some _ _ _ o) by done.
  destruct (p key); lia.
Qed.

Lemma range_count_delete p owners key o :
  owners !! key = Some o → os_ranges o = [] →
  range_count p (delete key owners) = range_count p owners.
Proof.
  intros Hk Ho. unfold range_count. rewrite (msum_delete _ owners key o) by done.
  rewrite Ho. destruct (p key); unfold zlen; simpl; lia.
Qed.

(** Adding the empty record of [ownerLocked]. *)
Lemma Inv_new_owner fa c key :
  Inv fa None c → c_owners c !! key = None → bound c key →
  DomainRecord <= ok_domain key <= DomainEnforced →
  Inv fa (Some key) (set_c_owners (<[key := mkOwner [] 0]> (c_owners c)) c).
Proof.
  intros H Hk Hb Hd. pose proof (Inv_no_owner _ _ _ _ H Hk) as H0. destruct H as [Isess Iown Iwait Ireq Icnt Ibnd Iexc Iuse Imat Inext]. split; try done.
  - intros k o. simpl. intros [[<- <-]|[Hne Ho]]%lookup_insert_Some.
    + split_and!; simpl; try done; try lia; [|auto].
      unfold held_ok. destruct (_ =? _); [constructor|apply wf_claims_nil].
    + destruct (Iown k o Ho) as (? & ? & ? & ? & ?).
      split_and!; try done; try lia. naive_solver.
  - destruct Iwait as (? & Hall). split; [done|]. intros a Ha.
    destruct (Hall a Ha) as (q & ? & ? & ? & ? & ?). exists q. split_and!; try done. simpl.
    apply lookup_insert_is_Some. destruct (decide (key = q_key q)); auto.
  - destruct Icnt as (? & ? & ? & Hall). split_and!; simpl; try done.
    + by rewrite range_count_insert.
    + intros sid s Hs. destruct (Hall sid s Hs). split; [|done].
      rewrite range_count_insert by done. destruct (session_is sid key); simpl; done.
  - intros k1 o1 d1 k2 o2 d2. simpl.
    intros [[<- <-]|[Hne Ho]]%lookup_insert_Some [[<- <-]|[Hne' Ho']]%lookup_insert_Some;
      simpl; [set_solver..|by apply Iexc].
Qed.

(** Deleting an empty record, as [pruneOwnerLocked] does. *)
Lemma Inv_del_owner fa fk c key :
  Inv fa fk c → fk = None ∨ fk = Some key → c_owners c !! key = Some (mkOwner [] 0) →
  Inv fa None (set_c_owners (delete key (c_owners c)) c).
Proof.
  intros H Hf Hk. destruct (inv_owners _ _ _ H key _ Hk) as (_ & _ & _ & Hz & _).
  simpl in Hz. destruct H as [Isess Iown Iwait Ireq Icnt Ibnd Iexc Iuse Imat Inext]. split; try done.
  - intros k o. simpl. intros [Hne Ho]%lookup_delete_Some.
    destruct (Iown k o Ho) as (? & ? & ? & ? & ?).
    split_and!; try done; try lia. destruct Hf as [->| ->]; naive_solver.
  - destruct Iwait as (? & Hall). split; [done|]. intros a Ha.
    destruct (Hall a Ha) as (q & Hq & ? & ? & ? & ?). exists q. split_and!; try done. simpl.
    rewrite lookup_delete_ne; [done|]. intros ->.
    assert (a ∈ List.filter (λ a, match c_actions c !! a with
                                  | Some q' => key_is (q_key q) (q_key q')
                                  | None => false end) (c_waiting c)) as Hin.
    { apply list_elem_of_In, filter_In. split; [by apply list_elem_of_In|].
      rewrite Hq. by apply key_is_true. }
    unfold queue_count, zlen in Hz. destruct (List.filter _ _); [set_solver|done].
  - destruct Icnt as (? & ? & ? & Hall). split_and!; simpl; try done.
    + by erewrite range_count_delete.
    + intros sid s Hs. destruct (Hall sid s Hs). split; [|done].
      by erewrite range_count_delete.
  - intros k1 o1 d1 k2 o2 d2. simpl.
    intros [_ ?]%lookup_delete_Some [_ ?]%lookup_delete_Some. eauto.
Qed.

(** [pruneOwnerLocked] ends the focus on an owner record. *)
Lemma prune_inv fa fk key c :
  Inv fa fk c → fk = None ∨ fk = Some key →
  ∃ c', pruneOwnerLocked key c = Some (tt, c') ∧ Inv fa None c'
        ∧ (c' = c ∨ c_owners c !! key = Some (mkOwner [] 0)
                    ∧ c' = set_c_owners (delete key (c_owners c)) c).
Proof.
  intros H Hf. unfold pruneOwnerLocked, bind, gets.
  assert (Hkeep : (∀ o, c_owners c !! key = Some o → os_ranges o ≠ [] ∨ os_pending o ≠ 0) →
                  Inv fa None c).
  { intros Ho. destruct Hf as [->| ->]; [done|]. by eapply Inv_unfocus. }
  destruct (c_owners c !! key) as [[[|d ranges] [|p|p]]|] eqn:E;
    (eexists; split; [reflexivity|]; split; [|naive_solver]).
  all: try (apply Hkeep; intros o Ho; simplify_eq; simpl; auto; right; lia).
  by eapply Inv_del_owner.
Qed.

(** ** Installing ranges *)

Definition st_install (key : ownerKey) (o : ownerState) (s : session)
    (ranges : list rangeClaim) (c : coordinator) : coordinator :=
  let delta := zlen ranges - zlen (os_ranges o) in
  set_c_heap (<[ok_session key := set_s_ranges (s_ranges s + delta) s]> (c_heap c))
    (set_c_ranges (c_ranges c + delta)
       (set_c_owners (<[key := mkOwner ranges (os_pending o)]> (c_owners c)) c)).

Lemma install_run key ranges c o s :
  c_owners c !! key = Some o → live_session c (ok_session key) = Some s →
  installRangesLocked key ranges c = Some (tt, st_install key o s ranges c).
Proof.
  intros Ho Hs. unfold installRangesLocked, get_owner, get_live, upd_owner, upd_session,
    bind, deref, modify. rewrite Ho, Hs. simpl.
  apply live_session_Some in Hs as [_ Hs].
  by rewrite (alter_Some _ _ _ _ Ho), (alter_Some _ _ _ _ Hs).
Qed.

(** A change of sessions that keeps what the invariant reads of them besides
    the counters. *)
Definition same_session (s s' : session) : Prop :=
  s_options s' = s_options s ∧ s_actions s' = s_actions s ∧ s_bindings s' = s_bindings s
  ∧ s_nextOwner s' = s_nextOwner s ∧ s_owners s' = s_owners s ∧ s_retired s' = s_retired s.

Lemma sessions_ok_update c sid s s' :
  sessions_ok c → c_heap c !! sid = Some s → same_session s s' →
  sessions_ok (set_c_heap (<[sid := s']> (c_heap c)) c).
Proof.
  intros (H1 & H2 & H3) Hs (E1 & E2 & E3 & E4 & E5 & E6). split_and!.
  - intros sid' Hl. simpl in *. apply lookup_insert_is_Some.
    destruct (decide (sid = sid')); auto.
  - intros sid' s''. simpl. intros [[<- <-]|[Hne Hs']]%lookup_insert_Some; [|by apply H2].
    destruct (H2 sid s Hs) as (? & ? & ? & ? & ? & ? & ? & ?).
    unfold session_ok. by rewrite E1, E2, E3, E4, E5, E6.
  - intros sid' s'' id a. simpl. intros [[<- <-]|[Hne Hs']]%lookup_insert_Some; [|by apply H3].
    rewrite E2. by apply H3.
Qed.

Lemma bound_update c sid s s' key :
  c_heap c !! sid = Some s → s_bindings s' = s_bindings s →
  bound c key → bound (set_c_heap (<[sid := s']> (c_heap c)) c) key.
Proof.
  intros Hs Eb (t & b & [Hl Ht]%live_session_Some & Hb & Hn).
  destruct (decide (sid = ok_session key)) as [->|Hne].
  - exists s', b. split; [|simplify_eq; by rewrite Eb].
    apply live_session_Some. simpl. split; [done|]. by rewrite lookup_insert_eq.
  - exists t, b. split; [|done]. apply live_session_Some. simpl.
    by rewrite lookup_insert_ne.
Qed.

Lemma requests_ok_update fa c sid s s' :
  requests_ok fa c → c_heap c !! sid = Some s → s_bindings s' = s_bindings s →
  s_actions s' = s_actions s →
  requests_ok fa (set_c_heap (<[sid := s']> (c_heap c)) c).
Proof.
  intros H Hs Eb Ea a q Hq. destruct (H a q Hq) as (? & ? & ? & Hh & ? & HP).
  split_and!; try done; simpl.
  - apply lookup_insert_is_Some. destruct (decide (sid = ok_session (q_key q))); auto.
  - intros Hl Hp. destruct (HP Hl Hp) as (Hb & ? & (t & Ht & Ha) & ?). split_and!; try done.
    + by eapply bound_update.
    + destruct (decide (sid = ok_session (q_key q))) as [->|Hne].
      * exists s'. rewrite lookup_insert_eq. split; [done|]. simplify_eq. by rewrite Ea.
      * exists t. by rewrite lookup_insert_ne.
Qed.

(** Sums over the sessions see only what changed. *)
Lemma msum_session (f : session → Z) (heap : gmap Z session) sid s s' :
  heap !! sid = Some s → f s' = f s →
  msum (λ _ s, f s) (<[sid := s']> heap) = msum (λ _ s, f s) heap.
Proof. intros Hs Hf. rewrite (msum_insert_Some _ _ _ s) by done. lia. Qed.

(** What an owner's new claims must satisfy. *)
Definition fits (c : coordinator) (key : ownerKey) (count : Z) : Prop :=
  ∃ o s, c_owners c !! key = Some o ∧ live_session c (ok_session key) = Some s
         ∧ count - zlen (os_ranges o) <= cfg_MaxRanges (c_config c) - c_ranges c
         ∧ count - zlen (os_ranges o) <= fso_MaxLockRanges (s_options s) - s_ranges s.

Lemma replacementFits_run c key count o s :
  c_owners c !! key = Some o → live_session c (ok_session key) = Some s →
  ∃ b, replacementFitsLocked c key count = Some b ∧ (b = true ↔ fits c key count).
Proof.
  intros Ho Hs. unfold replacementFitsLocked. rewrite Ho, Hs. eexists. split; [reflexivity|].
  rewrite andb_true_iff, !Z.leb_le. unfold fits. split; [eauto 10|].
  intros (o' & s' & Ho' & Hs' & ?). simplify_eq. done.
Qed.

(** No rival's claim stands against any of the claims. *)
Definition unopposed (c : coordinator) (key : ownerKey) (ranges : list rangeClaim) : Prop :=
  ∀ d other held, d ∈ ranges → ¬ stands_against c key (cl_command d) other held.

Lemma rival_sym a b : rival a b = rival b a.
Proof.
  unfold rival. rewrite (Z.eqb_sym (ok_node a)), (Z.eqb_sym (ok_domain a)).
  do 3 f_equal. apply bool_decide_ext. split; congruence.
Qed.

Lemma rival_domain a b : rival a b = true → ok_domain b = ok_domain a.
Proof. unfold rival. intros. bool_prop. done. Qed.

Lemma held_ok_range domain ranges d :
  held_ok domain ranges → d ∈ ranges → range_ok (cl_range d).
Proof.
  unfold held_ok. destruct (_ =? _).
  - rewrite Forall_forall. auto.
  - intros [H _]. rewrite Forall_forall in H. left. auto.
Qed.

Lemma range_ok_kind r : range_ok r → checked_kind r.
Proof. intros [[? _]|?]; [by left|by right]. Qed.

Lemma blocks_sym d1 d2 :
  range_ok (cl_range d1) → range_ok (cl_range d2) →
  blocks (cl_command d1) d2 = blocks (cl_command d2) d1.
Proof.
  intros H1 H2. unfold blocks. rewrite (overlaps_sym (cl_range d1)) by auto using range_ok_kind.
  by rewrite (andb_comm (rc_Mode (cl_command d2) =? RangeShared)).
Qed.

Lemma Inv_install fa fk c key o s ranges :
  Inv fa fk c → fk = None ∨ fk = Some key →
  c_owners c !! key = Some o → live_session c (ok_session key) = Some s →
  held_ok (ok_domain key) ranges → fits c key (zlen ranges) → unopposed c key ranges →
  Inv fa (Some key) (st_install key o s ranges c).
Proof.
  intros H Hf Ho Hs Hr (o' & s' & Ho' & Hs' & F1 & F2) Hu. simplify_eq.
  pose proof Hs as [Hl Hh]%live_session_Some. destruct H as [Isess Iown Iwait Ireq Icnt Ibnd Iexc Iuse Imat Inext]. unfold st_install. split; try done.
  - by refine (sessions_ok_update c _ s _ Isess Hh _).
  - intros k o'. simpl. intros Hk. apply lookup_insert_Some in Hk as [[<- <-]|[Hne Hk]].
    + destruct (Iown key o Ho) as (? & ? & ? & ? & ?).
      split_and!; simpl; try done; try lia; [|by left].
      by refine (bound_update c _ s _ key Hh _ _).
    + destruct (Iown k o' Hk) as (? & ? & ? & ? & ?).
      split_and!; try done; try lia; [by refine (bound_update c _ s _ k Hh _ _)|].
      destruct Hf as [->| ->]; naive_solver.
  - destruct Iwait as (? & Hall). split; [done|]. intros a Ha.
    destruct (Hall a Ha) as (q & ? & ? & ? & ? & ?). exists q. split_and!; try done. simpl.
    apply lookup_insert_is_Some. destruct (decide (key = q_key q)); auto.
  - by refine (requests_ok_update fa c _ s _ Ireq Hh _ _).
  - destruct Icnt as (C1 & C2 & C3 & Hall). split_and!; simpl.
    + rewrite (range_count_replace _ _ _ o) by done. simpl. lia.
    + rewrite (msum_session (λ s, Z.of_nat (size (s_actions s))) _ _ s) by done. done.
    + rewrite (msum_session (λ s, Z.of_nat (size (s_bindings s))) _ _ s) by done. done.
    + intros sid t Ht. rewrite (range_count_replace _ _ _ o) by done.
      apply lookup_insert_Some in Ht as [[<- <-]|[Hne Ht]]; simpl.
      * destruct (Hall _ _ Hh) as [-> ?]. split; [|done].
        unfold session_is. by rewrite Z.eqb_refl.
      * destruct (Hall _ _ Ht) as [-> ?]. split; [|done].
        unfold session_is. rewrite (proj2 (Z.eqb_neq _ _)) by done. lia.
  - destruct Ibnd as (? & ? & ? & ? & ? & ? & Hall). split_and!; simpl; try done; [lia|].
    intros sid t [[<- <-]|[Hne Ht]]%lookup_insert_Some; simpl; [|by apply (Hall sid)].
    destruct (Hall _ _ Hh) as (? & ? & ?). split_and!; try done. lia.
  - intros k1 o1 d1 k2 o2 d2. simpl. intros Hk1 Hk2 Hrv Hd1 Hd2.
    destruct (decide (k1 = k2)) as [->|Hne12].
    { unfold rival in Hrv. rewrite bool_decide_true in Hrv by done. done. }
    apply lookup_insert_Some in Hk1 as [[<- <-]|[Hne1 Hk1]];
      apply lookup_insert_Some in Hk2 as [[<- <-]|[Hne2 Hk2]]; simpl in *; try done.
    + apply not_true_iff_false. intros Hb. eapply Hu; [done|]. exists o2. eauto.
    + rewrite blocks_sym; [|by eapply held_ok_range; [apply (Iown k1 o1 Hk1)|]
                            |by eapply held_ok_range].
      apply not_true_iff_false. intros Hb. eapply Hu; [done|]. exists o1.
      rewrite rival_sym. eauto.
    + eauto.
Qed.

(** ** The queue *)

Lemma elem_of_dequeue a w x : NoDup w → x ∈ dequeue a w ↔ x ∈ w ∧ x ≠ a.
Proof.
  induction w as [|b w IH]; simpl; [set_solver|]. intros [Hb Hw]%NoDup_cons.
  destruct (Nat.eqb_spec b a) as [->|Hne]; [set_solver|].
  rewrite !elem_of_cons, (IH Hw). naive_solver.
Qed.

Lemma NoDup_dequeue a w : NoDup w → NoDup (dequeue a w).
Proof.
  induction w as [|b w IH]; simpl; [done|]. intros [Hb Hw]%NoDup_cons.
  destruct (Nat.eqb_spec b a); [done|]. apply NoDup_cons. split; [|auto].
  rewrite elem_of_dequeue by done. naive_solver.
Qed.

Lemma filter_dequeue (p : reqid → bool) a w :
  a ∈ w → zlen (List.filter p (dequeue a w)) = zlen (List.filter p w) - (if p a then 1 else 0).
Proof.
  induction w as [|b w IH]; [set_solver|]. intros Ha. simpl.
  destruct (Nat.eqb_spec b a) as [->|Hne].
  - destruct (p a); unfold zlen; simpl; lia.
  - assert (a ∈ w) as Ha' by set_solver. simpl. specialize (IH Ha').
    destruct (p b); unfold zlen in *; simpl; lia.
Qed.

Lemma dequeue_length a w : a ∈ w → zlen (dequeue a w) = zlen w - 1.
Proof.
  intros Ha. pose proof (filter_dequeue (λ _, true) a w Ha) as H.
  assert (Hid : ∀ l : list reqid, List.filter (λ _, true) l = l).
  { induction l; simpl; congruence. }
  by rewrite !Hid in H.
Qed.

(** The counters of a request's owner and session move by [n]. *)
Definition st_count (a : reqid) (q' : request) (o : ownerState) (s : session) (n : Z)
    (waiting : list reqid) (c : coordinator) : coordinator :=
  let key := q_key q' in
  set_c_waiting waiting
    (set_c_heap (<[ok_session key := set_s_pending (s_pending s + n) s]> (c_heap c))
       (set_c_owners (<[key := mkOwner (os_ranges o) (os_pending o + n)]> (c_owners c))
          (set_c_actions (<[a := q']> (c_actions c)) c))).

Section queue_change.
Context (fa : option reqid) (fk : option ownerKey) (c : coordinator).
Context (a : reqid) (q q' : request) (o : ownerState) (s : session).
Context (n : Z) (waiting : list reqid).
Hypothesis (H : Inv fa fk c) (Hfk : fk = None ∨ fk = Some (q_key q)).
Hypothesis (Hq : c_actions c !! a = Some q) (Hsame : same_request q q').
Hypothesis (Ho : c_owners c !! q_key q = Some o).
Hypothesis (Hs : live_session c (ok_session (q_key q)) = Some s).
Hypothesis (Hcount : ∀ p, zlen (List.filter p waiting)
                          = zlen (List.filter p (c_waiting c)) + (if p a then n else 0)).
Let c' := st_count a q' o s n waiting c.

Lemma queue_change_count p :
  queue_count c' p = queue_count c p + (if p (q_key q) then n else 0).
Proof.
  unfold queue_count, c', st_count. simpl. destruct Hsame as (Hk & _).
  rewrite (List.filter_ext _ (λ b, match c_actions c !! b with
                                   | Some q => p (q_key q) | None => false end)).
  - rewrite Hcount. by rewrite Hq.
  - intros b. destruct (decide (b = a)) as [->|Hne].
    + by rewrite lookup_insert_eq, Hq, Hk.
    + by rewrite lookup_insert_ne.
Qed.

Lemma queue_change_owners_is_Some k :
  is_Some (c_owners c !! k) → is_Some (c_owners c' !! k).
Proof.
  intros Hk. unfold c', st_count. simpl. apply lookup_insert_is_Some.
  destruct (decide (q_key q' = k)); auto.
Qed.

Lemma queue_change_bound k : bound c k → bound c' k.
Proof.
  intros Hb. destruct (proj1 (live_session_Some _ _ _) Hs) as [_ Hh].
  destruct Hsame as (Hk & _). unfold c', st_count. rewrite Hk.
  by refine (bound_update c _ s _ k Hh _ _).
Qed.

(** Everything but the requests and the queue itself. *)
Lemma queue_change_inv fk' :
  (fk' = Some (q_key q) ∨ os_pending o + n ≠ 0) →
  waiting_ok c' → requests_ok fa c' →
  zlen waiting <= cfg_MaxWaiters (c_config c) →
  s_pending s + n <= fso_MaxPendingLocks (s_options s) →
  s_pending s + n <= fso_MaxWaiters (s_options s) →
  Inv fa fk' c'.
Proof.
  intros Hfk' Hw Hr B1 B2 B3. destruct (proj1 (live_session_Some _ _ _) Hs) as [Hl Hh].
  pose proof queue_change_count as Hcnt. pose proof queue_change_bound as Hbnd.
  destruct Hsame as (Hk & Hid & Hc & _). destruct H as [Isess Iown Iwait Ireq Icnt Ibnd Iexc Iuse Imat Inext].
  unfold c', st_count in *. rewrite Hk in *. split; try done.
  - destruct (sessions_ok_update c _ s (set_s_pending (s_pending s + n) s) Isess Hh)
      as (H1 & H2 & H3); [done|]. split_and!; [done..|]. intros sid t id b Ht Hb. simpl in *.
    destruct (H3 sid t id b Ht Hb) as (qb & Hqb & <- & <-).
    destruct (decide (b = a)) as [->|Hne].
    + rewrite lookup_insert_eq. simplify_eq. exists q'. by rewrite Hid, Hk.
    + rewrite lookup_insert_ne by done. eauto.
  - intros k o'. simpl. intros [[<- <-]|[Hne Hk']]%lookup_insert_Some.
    + destruct (Iown _ _ Ho) as (? & ? & ? & Hp & ?).
      split_and!; simpl; try done; try lia; [auto| |naive_solver].
      rewrite Hcnt, Hp. rewrite (proj2 (key_is_true _ _)) by done. done.
    + destruct (Iown k o' Hk') as (? & ? & ? & Hp & ?).
      split_and!; simpl; try done; try lia; [auto| |].
      * rewrite Hcnt, Hp. destruct (key_is k (q_key q)) eqn:E; [|lia].
        by apply key_is_true in E.
      * destruct Hfk as [->| ->]; naive_solver.
  - destruct Icnt as (C1 & C2 & C3 & Hall). split_and!; simpl.
    + rewrite (range_count_replace _ _ _ o) by done. simpl. lia.
    + rewrite (msum_session (λ s, Z.of_nat (size (s_actions s))) _ _ s) by done. done.
    + rewrite (msum_session (λ s, Z.of_nat (size (s_bindings s))) _ _ s) by done. done.
    + intros sid t Ht. rewrite Hcnt, (range_count_replace _ _ _ o) by done. simpl.
      rewrite Z.sub_diag. apply lookup_insert_Some in Ht as [[<- <-]|[Hne Ht]]; simpl.
      * destruct (Hall _ _ Hh) as [-> ->]. unfold session_is. rewrite Z.eqb_refl. lia.
      * destruct (Hall _ _ Ht) as [-> ->].
        unfold session_is. rewrite (proj2 (Z.eqb_neq _ _)) by done. lia.
  - destruct Ibnd as (? & ? & ? & ? & ? & ? & Hall). split_and!; simpl; try done.
    intros sid t [[<- <-]|[Hne Ht]]%lookup_insert_Some; simpl; [|by apply (Hall sid)].
    destruct (Hall _ _ Hh) as (? & ? & ?). done.
  - intros k1 o1 d1 k2 o2 d2. simpl. intros Hk1 Hk2 Hrv Hd1 Hd2.
    apply lookup_insert_Some in Hk1 as [[<- <-]|[_ Hk1]];
      apply lookup_insert_Some in Hk2 as [[<- <-]|[_ Hk2]]; simpl in *; eauto.
Qed.
Lemma queue_change_requests :
  (∀ b, b ≠ a → b ∈ waiting ↔ b ∈ c_waiting c) →
  (ok_session (q_key q) ∈ c_sessions c → q_pending q' = true ↔ a ∈ waiting) →
  (ra_State (q_result q') = Pending →
     ra_State (q_result q) = Pending ∧ is_Some (q_order q') ∧ (a ∈ waiting ∨ fa = Some a)) →
  requests_ok fa c'.
Proof.
  intros Hothers Hpend HP. destruct (proj1 (live_session_Some _ _ _) Hs) as [Hl Hh].
  pose proof queue_change_bound as Hbnd. pose proof (inv_requests _ _ _ H) as Hr.
  destruct Hsame as (Hk & Hid & Hc & Hlen & _).
  assert (Hheap : ∀ sid, is_Some (c_heap c !! sid) → is_Some (c_heap c' !! sid)).
  { intros sid ?. unfold c', st_count. simpl. apply lookup_insert_is_Some.
    destruct (decide (ok_session (q_key q') = sid)); auto. }
  assert (Hacts : ∀ sid id b, (∃ s, c_heap c !! sid = Some s ∧ s_actions s !! id = Some b) →
                              ∃ s, c_heap c' !! sid = Some s ∧ s_actions s !! id = Some b).
  { intros sid id b (t & Ht & Hb). unfold c', st_count. simpl. rewrite Hk.
    destruct (decide (ok_session (q_key q) = sid)) as [<-|Hne].
    - rewrite lookup_insert_eq. simplify_eq. eauto.
    - rewrite lookup_insert_ne by done. eauto. }
  intros b qb Hb. unfold c', st_count in Hb. simpl in Hb.
  apply lookup_insert_Some in Hb as [[<- <-]|[Hne Hb]].
  - destruct (Hr a q Hq) as (? & ? & Hrl & ? & ? & Hpd).
    split_and!; rewrite ?Hk, ?Hid, ?Hc, ?Hlen; auto.
    intros Hl' (HP1 & HP2 & HP3)%HP. destruct (Hpd Hl' HP1) as (? & ? & ? & ?).
    split_and!; auto. naive_solver.
  - destruct (Hr b qb Hb) as (? & ? & ? & ? & Hp1 & Hp2). split_and!; auto.
    + intros Hl'. rewrite (Hp1 Hl'). by rewrite <- Hothers.
    + intros Hl' HP'. destruct (Hp2 Hl' HP') as (? & ? & ? & Hf). split_and!; auto.
      change (c_waiting c') with waiting. rewrite Hothers by done. naive_solver.
Qed.

Lemma queue_change_waiting :
  NoDup waiting → (∀ b, b ≠ a → b ∈ waiting → b ∈ c_waiting c) →
  (a ∈ waiting → ra_State (q_result q') = Pending ∧ q_converting q' = false) →
  waiting_ok c'.
Proof.
  intros Hnd Hothers Ha. destruct (proj1 (live_session_Some _ _ _) Hs) as [Hl Hh].
  pose proof queue_change_owners_is_Some as How. destruct Hsame as (Hk & _).
  destruct (inv_waiting _ _ _ H) as [_ Hw].
  split; [done|]. intros b Hb. change (c_waiting c') with waiting in Hb.
  destruct (decide (b = a)) as [->|Hne].
  - exists q'. destruct (Ha Hb). split_and!; try done.
    + unfold c', st_count. simpl. by rewrite lookup_insert_eq.
    + by rewrite Hk.
    + rewrite Hk. apply How. eauto.
  - destruct (Hw b) as (qb & ? & ? & ? & ? & ?); [auto|]. exists qb. split_and!; auto.
    unfold c', st_count. simpl. by rewrite lookup_insert_ne.
Qed.
End queue_change.

(** [enqueueLocked] on an admitted request. *)
Lemma enqueue_inv fk c a q o s :
  Inv (Some a) fk c → fk = None ∨ fk = Some (q_key q) →
  c_actions c !! a = Some q → ra_State (q_result q) = Pending →
  q_pending q = false → q_converting q = false →
  c_owners c !! q_key q = Some o → live_session c (ok_session (q_key q)) = Some s →
  zlen (c_waiting c) < cfg_MaxWaiters (c_config c) →
  s_pending s < fso_MaxPendingLocks (s_options s) → s_pending s < fso_MaxWaiters (s_options s) →
  ∃ c', enqueueLocked a (q_key q) c = Some (tt, c') ∧ Inv None None c'.
Proof.
  intros H Hfk Hq HP Hpend Hconv Ho Hs B1 B2 B3.
  pose proof Hs as [Hl Hh]%live_session_Some.
  set (c' := st_count a (set_q_pending true q) o s 1 (c_waiting c ++ [a]) c).
  exists c'. split.
  { unfold enqueueLocked, upd_request, upd_owner, upd_session, get_owner, bind, modify, deref.
    simpl. rewrite Ho, (alter_Some _ _ _ _ Hq). simpl.
    by rewrite (alter_Some _ _ _ _ Ho), (alter_Some _ _ _ _ Hh). }
  assert (Hnot : a ∉ c_waiting c).
  { destruct (inv_requests _ _ _ H a q Hq) as (_ & _ & _ & _ & Hiff & _).
    rewrite <- Hiff by done. by rewrite Hpend. }
  assert (Hcount : ∀ p, zlen (List.filter p (c_waiting c ++ [a]))
                        = zlen (List.filter p (c_waiting c)) + (if p a then 1 else 0)).
  { intros p. rewrite List.filter_app. unfold zlen. rewrite length_app. simpl.
    destruct (p a); simpl; lia. }
  assert (Inv (Some a) None c') as H'.
  { eapply (queue_change_inv (Some a) fk c a q); eauto; try (by split_and!).
    - right. destruct (inv_owners _ _ _ H _ _ Ho) as (_ & _ & _ & -> & _).
      pose proof (queue_count_nonneg c (key_is (q_key q))). lia.
    - eapply (queue_change_waiting (Some a) fk c a q); eauto; try (by split_and!).
      + apply NoDup_app. split_and!; [apply (inv_waiting _ _ _ H)|set_solver|].
        apply NoDup_singleton.
      + set_solver.
    - eapply (queue_change_requests (Some a) fk c a q); eauto; try (by split_and!).
      + set_solver.
      + set_solver.
      + intros _. simpl. destruct (inv_requests _ _ _ H a q Hq) as (_ & _ & _ & _ & _ & Hpd).
        destruct (Hpd Hl HP) as (_ & ? & _). auto.
    - unfold zlen in *. rewrite length_app. simpl. lia.
    - lia.
    - lia. }
  eapply Inv_settled; [exact H'|simpl; apply lookup_insert_eq|]. right. left. simpl. set_solver.
Qed.

(** ** What a section leaves alone *)

(** The clock moves on and no request is made. *)
Definition ticks (c c' : coordinator) : Prop :=
  c_now c' = c_now c ∧ (c_reads c ≤ c_reads c')%nat
  ∧ ∀ a, is_Some (c_actions c' !! a) → is_Some (c_actions c !! a).

(** Sessions keep their history and registrations, requests their identity;
    a settled request stays settled. *)
Definition steady (c c' : coordinator) : Prop :=
  c_config c' = c_config c ∧ c_sessions c' = c_sessions c
  ∧ (∀ sid s, c_heap c !! sid = Some s →
       ∃ s', c_heap c' !! sid = Some s' ∧ same_session s s' ∧ s_retiring s' = s_retiring s
             ∧ s_epoch s' = s_epoch s ∧ s_epochUntil s' = s_epochUntil s)
  ∧ (∀ a q, c_actions c !! a = Some q →
       ∃ q', c_actions c' !! a = Some q' ∧ same_request q q'
             ∧ (ra_State (q_result q) ≠ Pending → ra_State (q_result q') ≠ Pending))
  ∧ ticks c c'.

Lemma ticks_refl c : ticks c c.
Proof. by split_and!. Qed.

Lemma ticks_trans c1 c2 c3 : ticks c1 c2 → ticks c2 c3 → ticks c1 c3.
Proof. intros (? & ? & ?) (? & ? & ?). split_and!; [congruence|lia|auto]. Qed.

Lemma steady_refl c : steady c c.
Proof.
  split; [done|]. split; [done|]. split; [intros sid s Hs; exists s; by split_and!|].
  split; [intros a q Hq; exists q; by split_and!|apply ticks_refl].
Qed.

Lemma steady_trans c1 c2 c3 : steady c1 c2 → steady c2 c3 → steady c1 c3.
Proof.
  intros (A1 & A2 & A3 & A4 & A5) (B1 & B2 & B3 & B4 & B5).
  split; [congruence|]. split; [congruence|]. split; [|split; [|by eapply ticks_trans]].
  - intros sid s Hs. destruct (A3 sid s Hs) as (s' & Hs' & (? & ? & ? & ? & ? & ?) & ? & ? & ?).
    destruct (B3 sid s' Hs') as (s'' & Hs'' & (? & ? & ? & ? & ? & ?) & ? & ? & ?). exists s''.
    split; [done|]. unfold same_session. split_and!; congruence.
  - intros a q Hq. destruct (A4 a q Hq) as (q' & Hq' & (? & ? & ? & ? & ?) & ?).
    destruct (B4 a q' Hq') as (q'' & Hq'' & (? & ? & ? & ? & ?) & ?). exists q''.
    split; [done|]. unfold same_request. split_and!; try congruence. auto.
Qed.

Lemma steady_live c c' sid s :
  steady c c' → live_session c sid = Some s →
  ∃ s', live_session c' sid = Some s' ∧ same_session s s' ∧ s_retiring s' = s_retiring s.
Proof.
  intros (_ & E & H & _) [Hl Hs]%live_session_Some. destruct (H sid s Hs) as (s' & ? & ? & ? & ? & ?).
  exists s'. split; [|done]. apply live_session_Some. by rewrite E.
Qed.

Lemma steady_bound c c' key : steady c c' → bound c key → bound c' key.
Proof.
  intros H (s & b & Hs & Hb & Hn).
  destruct (steady_live _ _ _ _ H Hs) as (s' & Hs' & (_ & _ & E & _) & _).
  exists s', b. by rewrite E.
Qed.

(** The parts of [steady], for a state made by updates. *)
Lemma steady_updates c c' :
  c_config c' = c_config c → c_sessions c' = c_sessions c →
  c_now c' = c_now c → (c_reads c ≤ c_reads c')%nat →
  (c_heap c' = c_heap c ∨
   ∃ sid s s', c_heap c !! sid = Some s ∧ c_heap c' = <[sid := s']> (c_heap c)
               ∧ same_session s s' ∧ s_retiring s' = s_retiring s ∧ s_epoch s' = s_epoch s
               ∧ s_epochUntil s' = s_epochUntil s) →
  (c_actions c' = c_actions c ∨
   ∃ a q q', c_actions c !! a = Some q ∧ c_actions c' = <[a := q']> (c_actions c)
             ∧ same_request q q'
             ∧ (ra_State (q_result q) ≠ Pending → ra_State (q_result q') ≠ Pending)) →
  steady c c'.
Proof.
  intros E1 E2 E3 E4 Hh Ha. split; [done|]. split; [done|]. split; [|split; [|split_and!; try done]].
  - intros sid s Hs. destruct Hh as [->|(sid' & s1 & s2 & Hs1 & -> & ? & ? & ? & ?)];
      [exists s; by split_and!|].
    destruct (decide (sid' = sid)) as [->|Hne].
    + exists s2. rewrite lookup_insert_eq. by simplify_eq.
    + exists s. rewrite lookup_insert_ne by done. by split_and!.
  - intros a q Hq. destruct Ha as [->|(a' & q1 & q2 & Hq1 & -> & ? & ?)];
      [exists q; by split_and!|].
    destruct (decide (a' = a)) as [->|Hne].
    + exists q2. rewrite lookup_insert_eq. by simplify_eq.
    + exists q. rewrite lookup_insert_ne by done. by split_and!.
  - intros b. destruct Ha as [->|(a' & q1 & q2 & Hq1 & -> & ? & ?)]; [done|].
    intros [<-|[_ ?]]%lookup_insert_is_Some; [by exists q1|done].
Qed.

(** ** Completion *)

(** The request as [completeLocked] leaves it. *)
Definition completed (state : AttemptState) (rejection : RejectionCode) (expires : Z)
    (q : request) : request :=
  set_q_pending false
    (set_q_order None (set_q_expires expires
       (set_q_result (settle_result state rejection (q_result q)) q))).

Lemma completed_state state rejection expires q :
  ra_State (q_result (completed state rejection expires q)) = state.
Proof. unfold completed, settle_result. simpl. by case_bool_decide. Qed.

Lemma completed_same state rejection expires q :
  same_request q (completed state rejection expires q).
Proof. done. Qed.

(** What an owner holds. *)
Definition held_by (c : coordinator) (k : ownerKey) : list rangeClaim :=
  match c_owners c !! k with Some o => os_ranges o | None => [] end.

(** What [completeLocked] changes. *)
Definition completes (c : coordinator) (a : reqid) (q : request) (state : AttemptState)
    (rejection : RejectionCode) (c' : coordinator) : Prop :=
  (∃ expires, c_actions c' = <[a := completed state rejection expires q]> (c_actions c))
  ∧ c_waiting c' = (if q_pending q then dequeue a (c_waiting c) else c_waiting c)
  ∧ (∀ k, k ≠ q_key q → c_owners c' !! k = c_owners c !! k)
  ∧ (q_pending q = false → c_owners c' = c_owners c)
  ∧ (∀ o, c_owners c' !! q_key q = Some o →
       ∃ o', c_owners c !! q_key q = Some o' ∧ os_ranges o = os_ranges o')
  ∧ (∀ k, held_by c' k = held_by c k).

Lemma complete_queued fa fk c a q o s state rejection :
  Inv fa fk c → fk = None ∨ fk = Some (q_key q) →
  c_actions c !! a = Some q → live_session c (ok_session (q_key q)) = Some s →
  c_owners c !! q_key q = Some o → a ∈ c_waiting c → state ≠ Pending →
  let now := c_now c (c_reads c) in
  Inv fa (Some (q_key q))
    (st_count a (completed state rejection (now + fso_History (s_options s)) q) o s (-1)
       (dequeue a (c_waiting c)) (set_c_reads (S (c_reads c)) c)).
Proof.
  intros H Hfk Hq Hs Ho Ha Hst now.
  apply (Inv_clock _ _ _ (S (c_reads c))) in H. set (c1 := set_c_reads _ c) in *.
  pose proof (inv_waiting _ _ _ H) as [Hnd _].
  assert (Hcount : ∀ p, zlen (List.filter p (dequeue a (c_waiting c1)))
                        = zlen (List.filter p (c_waiting c1)) + (if p a then -1 else 0)).
  { intros p. rewrite filter_dequeue by done. destruct (p a); lia. }
  pose proof (inv_bounds _ _ _ H) as (_ & _ & _ & _ & HBw & _ & HB).
  destruct (HB _ _ (proj2 (proj1 (live_session_Some _ _ _) Hs))) as (_ & HB1 & HB2).
  assert (Hel : ∀ b, b ∈ dequeue a (c_waiting c) ↔ b ∈ c_waiting c ∧ b ≠ a).
  { intros b. by apply elem_of_dequeue. }
  pose proof (completed_state state rejection (now + fso_History (s_options s)) q) as Hcs.
  eapply (queue_change_inv fa fk c1 a q); eauto; try done.
  - eapply (queue_change_waiting fa fk c1 a q); eauto; try done.
    + by apply NoDup_dequeue.
    + intros b Hne [? _]%Hel; done.
    + intros [_ ?]%Hel; done.
  - eapply (queue_change_requests fa fk c1 a q); eauto; try done.
    + intros b Hne. rewrite Hel. naive_solver.
    + intros _. rewrite Hel. simpl. naive_solver.
    + rewrite Hcs. done.
  - rewrite dequeue_length by done. change (c_waiting c1) with (c_waiting c) in *.
    change (c_config c1) with (c_config c) in *. lia.
  - lia.
  - lia.
Qed.

Lemma complete_inv fa fk c a q s state rejection :
  Inv fa fk c → fk = None ∨ fk = Some (q_key q) →
  c_actions c !! a = Some q → live_session c (ok_session (q_key q)) = Some s →
  state ≠ Pending →
  ∃ c', completeLocked a state rejection c = Some (tt, c')
        ∧ Inv fa (if q_pending q then None else fk) c'
        ∧ steady c c' ∧ completes c a q state rejection c'.
Proof.
  intros H Hfk Hq Hs Hst. pose proof Hs as [Hl Hh]%live_session_Some.
  pose proof (inv_requests _ _ _ H a q Hq) as (_ & _ & _ & _ & Hiff & _). specialize (Hiff Hl).
  unfold completeLocked, upd_request, upd_owner, upd_session, get_request, get_owner, get_live,
    read_clock, bind, modify, deref, gets, ret. simpl.
  rewrite (alter_Some _ _ _ _ Hq). rewrite lookup_insert_eq. simpl.
  unfold live_session. simpl. rewrite decide_True by done. rewrite Hh. simpl.
  rewrite (alter_Some _ _ a (set_q_result (settle_result state rejection (q_result q)) q))
    by apply lookup_insert_eq.
  rewrite insert_insert_eq. destruct (q_pending q) eqn:Hp.
  - destruct (inv_waiting _ _ _ H) as [_ Hw]. destruct (Hw a (proj1 Hiff eq_refl))
      as (q' & Hq' & _ & _ & _ & [o Ho]). simplify_eq. simpl. rewrite Ho. simpl.
    rewrite (alter_Some _ _ _ _ Ho), (alter_Some _ _ _ _ Hh).
    erewrite (alter_Some (set_q_pending false)) by apply lookup_insert_eq.
    rewrite insert_insert_eq.
    pose proof (complete_queued fa fk c a q o s state rejection H Hfk Hq Hs Ho
                  (proj1 Hiff eq_refl) Hst) as Hinv. simpl in Hinv.
    destruct (prune_inv fa _ (q_key q) _ Hinv (or_intror eq_refl)) as (c' & Hrun & Hc' & Hcase).
    exists c'. split; [exact Hrun|]. split; [done|].
    assert (Hsteady : steady c (st_count a
       (completed state rejection (c_now c (c_reads c) + fso_History (s_options s)) q) o s (-1)
       (dequeue a (c_waiting c)) (set_c_reads (S (c_reads c)) c))).
    { apply steady_updates; simpl; try done; try lia; right.
      - by exists (ok_session (q_key q)), s, (set_s_pending (s_pending s + -1) s).
      - eexists a, q, _. split_and!; try done. by rewrite completed_state. }
    assert (Hrest : c_actions c' = <[a:=completed state rejection
                       (c_now c (c_reads c) + fso_History (s_options s)) q]> (c_actions c)
                    ∧ c_waiting c' = dequeue a (c_waiting c)).
    { destruct Hcase as [->|[_ ->]]; done. }
    destruct Hrest as [Ea Ew]. split; [destruct Hcase as [->|[_ ->]]; exact Hsteady|].
    unfold completes. rewrite Hp. split_and!; eauto; try done.
    + intros k Hk. destruct Hcase as [->|[_ ->]]; simpl;
        rewrite ?lookup_delete_ne, lookup_insert_ne by done; done.
    + intros o' Ho'. exists o. split; [done|]. destruct Hcase as [->|[_ ->]]; simpl in Ho'.
      * rewrite lookup_insert_eq in Ho'. by simplify_eq.
      * by rewrite lookup_delete_eq in Ho'.
    + intros k. unfold held_by. destruct (decide (k = q_key q)) as [->|Hk].
      * rewrite Ho. destruct Hcase as [->|[Hdel ->]]; simpl in *.
        { by rewrite lookup_insert_eq. }
        rewrite lookup_insert_eq in Hdel. rewrite lookup_delete_eq. by simplify_eq.
      * destruct Hcase as [->|[_ ->]]; simpl; rewrite ?lookup_delete_ne, lookup_insert_ne by done; done.
  - eexists. split; [reflexivity|]. split; [|split].
    + apply (Inv_clock _ _ _ (S (c_reads c))) in H.
      eapply (Inv_set_request _ _ (set_c_reads (S (c_reads c)) c) a q); try done.
      * simpl. intros HP. exfalso. apply Hst. revert HP. unfold settle_result.
        by case_bool_decide.
      * simpl. intros Ha%Hiff. done.
    + apply steady_updates; simpl; try done; try lia; [by left|right].
      eexists a, q, _. split_and!; try done. intros _. simpl. unfold settle_result.
      by case_bool_decide.
    + unfold completes. rewrite Hp. split_and!; try done; [|eauto].
      eexists. simpl. f_equal. unfold completed. simpl. by destruct q; simpl in *; subst.
Qed.
