(* ===== verification/AdvisoryEdits.v ===== *)
(** * The advisory coordinator: drafts and commits

    [draftLocked] computes an edit against the unchanged owners; its result is
    well formed, free of conflicts with every rival, and within the limits it
    was checked against.  [commitEditLocked], [commitReleasePrefixLocked] and
    [reconcileRemovedClaimsLocked] install it and keep the invariant. *)

From S2P Require Import Prelude Errors Identity Ranges Extents AdvisoryState Conflicts Deadlock Coordinator Uses AdvisoryInv.

(** ** Checked commands *)

(** The shape of an admitted command: the advisory domains replace and subtract
    byte ranges, the enforced domain adds and removes exact claims. *)
Definition command_ok (domain : Z) (command : RangeCommand) : Prop :=
  rc_Domain command = domain ∧ RangeCommand_Check command = None
  ∧ if domain =? DomainEnforced then
      range_ok (rc_Range command)
      ∧ (rc_Edit command = AddExact
         ∨ rc_Edit command = RemoveExact ∧ is_Some (claim_request (rc_Claim command)))
    else
      byte_extent (rc_Range command) ∧ (rc_Edit command = Replace ∨ rc_Edit command = Subtract).

Lemma ClaimID_Check_request claim : ClaimID_Check claim = None → is_Some (claim_request claim).
Proof.
  unfold ClaimID_Check, claim_request. destruct (56 <? len claim); [done|].
  destruct (CutLast claim) as [[request suffix]|]; [eauto|done].
Qed.

Lemma Range_Check_ok r : is_u64 (Start r) → is_u64 (Length r) → Range_Check r = None → range_ok r.
Proof.
  intros Hs Hl Hc. destruct (Z.eqb_spec (Kind r) Bytes) as [Hk|Hk].
  - left. by apply Range_Check_bytes.
  - right. unfold Range_Check in Hc. rewrite (proj2 (Z.eqb_neq _ _) Hk) in Hc.
    destruct (Z.eqb_spec (Kind r) Boundary); done.
Qed.

Lemma RangeCommand_Check_ok command :
  command_typed command → RangeCommand_Check command = None →
  (rc_Domain command ≠ DomainEnforced → Kind (rc_Range command) = Bytes) →
  DomainRecord <= rc_Domain command <= DomainEnforced ∧ command_ok (rc_Domain command) command.
Proof.
  intros [Hs Hl] Hc Hk. unfold command_ok. rewrite Hc. revert Hc.
  unfold RangeCommand_Check. rewrite !orelse_None. intros (C1 & C2 & C3 & C4 & C5 & C6 & C7 & C8).
  pose proof (Range_Check_ok _ Hs Hl C1) as Hr.
  destruct (_ || _) eqn:E in C3; [done|clear C3]. bool_prop.
  unfold DomainRecord, DomainEnforced, Replace, Subtract, AddExact, RemoveExact in *.
  split; [lia|]. split_and!; [done..|].
  destruct (Z.eqb_spec (rc_Domain command) 3) as [Hd|Hd].
  - split; [done|]. destruct (negb (rc_Edit command =? 3) && _) eqn:E1 in C7; [done|].
    destruct (Z.eqb_spec (rc_Edit command) 3); [by left|right].
    destruct (Z.eqb_spec (rc_Edit command) 4) as [He|He]; [|done]. split; [done|].
    rewrite orelse_None in C4. apply ClaimID_Check_request, C4.
  - split; [destruct Hr as [?|Hb]; [done|]; rewrite (Hk Hd) in Hb; done|].
    destruct (_ || _) eqn:E1 in C7; [done|]. bool_prop. lia.
Qed.

Lemma check_each_Forall first count commands :
  check_each first count commands = None →
  Forall (λ command, RangeCommand_Check command = None
                     ∧ rc_Domain command = rc_Domain first ∧ rc_Wait command = rc_Wait first
                     ∧ (rc_Conversion command = DropBeforeAcquire → count = 1)
                     ∧ (rc_Domain command ≠ DomainEnforced → Kind (rc_Range command) = Bytes))
         commands.
Proof.
  induction commands as [|command commands IH]; [constructor|]. simpl.
  rewrite !orelse_None. intros (C1 & C2 & C3 & C4 & C5). constructor; [|auto].
  destruct (_ || _) eqn:E2 in C2; [done|]. bool_prop. apply eqb_prop in H0.
  destruct (_ && _) eqn:E3 in C3; [done|]. destruct (_ && _) eqn:E4 in C4; [done|].
  split_and!; try done.
  - intros Hc. apply andb_false_iff in E3 as [E3|E3]; bool_prop; congruence.
  - intros Hd. apply andb_false_iff in E4 as [E4|E4]; bool_prop; congruence.
Qed.

Lemma batch_commands config domain commands :
  batch_ok config domain commands →
  DomainRecord <= domain <= DomainEnforced ∧ Forall (command_ok domain) commands.
Proof.
  intros (Hc & Ht & Hd). destruct commands as [|first rest]; [done|]. simpl in Hd.
  injection Hd as <-. unfold checkCommands in Hc. destruct (_ || _); [done|].
  apply check_each_Forall in Hc. rewrite Forall_forall in *.
  assert (Hall : ∀ x, x ∈ first :: rest → DomainRecord <= rc_Domain first <= DomainEnforced
                                          ∧ command_ok (rc_Domain first) x).
  { intros x Hx. destruct (Hc x Hx) as (H1 & H2 & _ & _ & H3).
    destruct (RangeCommand_Check_ok x (Ht x Hx) H1 H3) as [? ?]. rewrite <- H2. done. }
  split; [apply (Hall first); set_solver|]. intros x Hx. by apply Hall.
Qed.

(** ** Claims without opposition *)

Lemma unopposed_sub c key l1 l2 : (∀ d, d ∈ l1 → d ∈ l2) → unopposed c key l2 → unopposed c key l1.
Proof. intros Hsub Hu d other held Hd. apply Hu. auto. Qed.

(** What an owner holds is unopposed. *)
Lemma Inv_unopposed fa fk c key o :
  Inv fa fk c → c_owners c !! key = Some o → unopposed c key (os_ranges o).
Proof.
  intros H Ho d other held Hd (o' & Ho' & Hr & Hh & Hb).
  rewrite (inv_exclusion _ _ _ H key o d other o' held) in Hb; done.
Qed.

(** The claims of a rival in an advisory domain are byte ranges. *)
Lemma rival_bytes fa fk c key other o held :
  Inv fa fk c → c_owners c !! other = Some o → rival key other = true →
  ok_domain key ≠ DomainEnforced → held ∈ os_ranges o → byte_extent (cl_range held).
Proof.
  intros H Ho Hr Hd Hh. destruct (inv_owners _ _ _ H _ _ Ho) as (_ & _ & Hok & _).
  unfold held_ok in Hok. rewrite (rival_domain _ _ Hr) in Hok.
  rewrite (proj2 (Z.eqb_neq _ _) Hd) in Hok. destruct Hok as [Hf _].
  rewrite Forall_forall in Hf. auto.
Qed.

Lemma blocks_shared command held :
  overlaps (cl_range held) (rc_Range command) = true → blocks command held = false →
  rc_Mode (cl_command held) = RangeShared ∧ rc_Mode command = RangeShared.
Proof. unfold blocks. intros ->. simpl. intros. bool_prop. done. Qed.

Lemma unopposed_replace fa fk c key old command :
  Inv fa fk c → ok_domain key ≠ DomainEnforced → wf_claims old →
  byte_extent (rc_Range command) → unopposed c key old →
  (rc_Edit command = Subtract ∨ ∀ other held, ¬ stands_against c key command other held) →
  unopposed c key (replaceRanges old command).
Proof.
  intros H Hd Hwf Hb Hu Hc d other held Hin (o & Ho & Hr & Hh & Hbl).
  pose proof (rival_bytes _ _ _ _ _ _ _ H Ho Hr Hd Hh) as Hbh.
  destruct (replaceRanges_spec old command Hb Hwf) as ([Hv _] & _ & _).
  rewrite Forall_forall in Hv. pose proof (Hv d Hin) as Hbd.
  unfold blocks in Hbl. apply andb_true_iff in Hbl as [Hov Hm].
  assert (Hsym : ∀ a b, byte_extent a → byte_extent b → overlaps a b = overlaps b a).
  { intros a b [] []. apply overlaps_sym; by left. }
  rewrite Hsym in Hov by done.
  destruct (replaceRanges_overlap old command d (cl_range held)) as [(e & He & Hoe & Hp)|(He & Hoc & Hp)];
    try done.
  - apply (Hu e other held He). exists o. split_and!; try done. unfold blocks.
    destruct Hwf as [Hall _]. rewrite Forall_forall in Hall.
    rewrite Hsym, Hoe by auto. simpl. injection Hp as -> _. done.
  - destruct Hc as [Hc|Hc]; [done|]. apply (Hc other held). exists o. split_and!; try done.
    unfold blocks. rewrite Hsym, Hoc by done. simpl. injection Hp as <- _. done.
Qed.

(** ** Drafts *)

(** The released claims of a draft can be traced to their requests. *)
Definition traceable (effects : list RangeEffect) : Prop :=
  ∀ e, e ∈ effects → re_Released e = true → re_Claim e ≠ EmptyString →
       is_Some (claim_request (re_Claim e)).

(** Claims that may become an owner's. *)
Definition installable (c : coordinator) (key : ownerKey) (ranges : list rangeClaim) : Prop :=
  held_ok (ok_domain key) ranges ∧ unopposed c key ranges.

Record draft_ok (c : coordinator) (key : ownerKey) (count : nat) (e : editResult) : Prop := {
  dr_ranges : installable c key (e_ranges e);
  dr_release : installable c key (e_releaseRanges e);
  dr_fits : fits c key (zlen (e_releaseRanges e));
  dr_effects : traceable (e_effects e);
  dr_releases : traceable (e_releaseEffects e);
  dr_indexes : ∀ i, i ∈ e_releaseIndexes e → (i < count)%nat }.

Lemma traceable_app effects e :
  traceable effects →
  (re_Released e = true → re_Claim e ≠ EmptyString → is_Some (claim_request (re_Claim e))) →
  traceable (effects ++ [e]).
Proof.
  intros H He x [Hx| ->%list_elem_of_singleton]%elem_of_app; [by apply H|done].
Qed.

Lemma find_claim_lookup claim ranges i held :
  find_claim claim ranges = Some (i, held) → ranges !! i = Some held.
Proof.
  revert i. induction ranges as [|d ranges IH]; intros i; simpl; [done|].
  destruct (String.eqb (cl_id d) claim); [by intros [= <- <-]|].
  destruct (find_claim claim ranges) as [[j h]|]; [|done]. intros [= <- <-]. simpl. auto.
Qed.

Lemma fits_le c key n m : fits c key n → m <= n → fits c key m.
Proof. intros (o & s & Ho & Hs & ? & ?) Hm. exists o, s. split_and!; try done; lia. Qed.

Lemma delete_zlen {A} (l : list A) i : zlen (delete i l) <= zlen l.
Proof.
  unfold zlen. pose proof (submseteq_length _ _ (sublist_submseteq _ _ (sublist_delete l i))). lia.
Qed.

Lemma elem_of_delete {A} (l : list A) i d : d ∈ delete i l → d ∈ l.
Proof.
  intros H. eapply elem_of_submseteq; [done|]. apply sublist_submseteq, sublist_delete.
Qed.

Section draft.
Context (fa : option reqid) (fk : option ownerKey) (c : coordinator) (key : ownerKey).
Context (o : ownerState) (s : session) (count : nat).
Hypothesis (H : Inv fa fk c).
Hypothesis (Ho : c_owners c !! key = Some o).
Hypothesis (Hs : live_session c (ok_session key) = Some s).

Lemma new_edit_ok : draft_ok c key count (new_edit (os_ranges o)).
Proof.
  destruct (inv_owners _ _ _ H _ _ Ho) as (_ & _ & Hok & _).
  pose proof (Inv_unopposed _ _ _ _ _ H Ho) as Hu.
  pose proof (inv_bounds _ _ _ H) as (_ & _ & B1 & _ & _ & _ & B2).
  destruct (B2 _ _ (proj2 (proj1 (live_session_Some _ _ _) Hs))) as (B3 & _).
  split; simpl; try done; [|intros ? ?; set_solver..]. exists o, s. split_and!; try done; lia.
Qed.

Lemma installable_replace old command :
  command_ok (ok_domain key) command → ok_domain key ≠ DomainEnforced →
  (rc_Edit command = Subtract ∨ ∀ other held, ¬ stands_against c key command other held) →
  installable c key old → installable c key (replaceRanges old command).
Proof.
  intros (_ & _ & Hc) Hd Hopp [Hok Hu]. unfold installable, held_ok in *.
  rewrite (proj2 (Z.eqb_neq _ _) Hd) in *. destruct Hc as [Hb _].
  split; [by apply replaceRanges_spec|]. by eapply unopposed_replace.
Qed.

Lemma installable_add old command id :
  command_ok (ok_domain key) command → ok_domain key = DomainEnforced →
  (∀ other held, ¬ stands_against c key command other held) →
  installable c key old →
  installable c key (old ++ [{| cl_id := id; cl_command := as_held command |}]).
Proof.
  intros (_ & _ & Hc) Hd Hopp [Hok Hu]. unfold installable, held_ok in *. rewrite Hd in *.
  simpl in *. destruct Hc as [Hr _]. split.
  - apply Forall_app. split; [done|]. by constructor.
  - intros d other held [Hin| ->%list_elem_of_singleton]%elem_of_app; [by apply Hu|].
    apply Hopp.
Qed.

Lemma installable_delete old i :
  ok_domain key = DomainEnforced → installable c key old → installable c key (delete i old).
Proof.
  intros Hd [Hok Hu]. unfold installable, held_ok in *. rewrite Hd in *. simpl in *. split.
  - rewrite Forall_forall in *. eauto using elem_of_delete.
  - by eapply unopposed_sub; [apply elem_of_delete|].
Qed.

Lemma reject_edit_ok code i e :
  draft_ok c key count e → draft_ok c key count (reject_edit code i e).
Proof. intros []. by split. Qed.

(** An applied command that is not refused has passed the conflict test. *)
Definition passed (command : RangeCommand) : Prop :=
  rc_Edit command = Replace ∨ rc_Edit command = AddExact →
  ∀ other held, ¬ stands_against c key command other held.

Lemma apply_replace_ok id i command e :
  command_ok (ok_domain key) command → ok_domain key ≠ DomainEnforced → passed command →
  draft_ok c key count e → (i < count)%nat →
  ∃ r, apply_command c key id i command e = Some r
       ∧ match r with
         | inl e => draft_ok c key count e
         | inr (e, eff) => draft_ok c key count e ∧ (re_Claim eff ≠ EmptyString → False)
         end.
Proof.
  intros Hc Hd Hp [D1 D2 D3 D4 D5 D6] Hi. unfold apply_command.
  assert (He : rc_Edit command = Replace ∨ rc_Edit command = Subtract).
  { destruct Hc as (_ & _ & Hc). rewrite (proj2 (Z.eqb_neq _ _) Hd) in Hc. apply Hc. }
  assert (Hopp : rc_Edit command = Subtract ∨ ∀ x h, ¬ stands_against c key command x h).
  { destruct He as [He|He]; [right; apply Hp; auto|by left]. }
  pose proof (installable_replace (e_ranges e) command Hc Hd Hopp D1) as R1.
  replace ((rc_Edit command =? Replace) || (rc_Edit command =? Subtract)) with true
    by (destruct He as [-> | ->]; done). simpl.
  destruct (Z.eqb_spec (rc_Edit command) Subtract) as [Hsub|Hsub].
  - destruct (replacementFits_run c key (zlen (replaceRanges (e_releaseRanges e) command)) o s Ho Hs)
      as (b & Hb & Hfit). rewrite Hb. destruct b; (eexists; split; [reflexivity|]).
    + split; [|done]. split; simpl; try done.
      * apply installable_replace; auto.
      * by apply Hfit.
      * apply traceable_app; [done|]. simpl. done.
      * intros j [Hj| ->%list_elem_of_singleton]%elem_of_app; auto.
    + apply reject_edit_ok. by split.
  - eexists; split; [reflexivity|]. split; [|done]. by split.
Qed.

Lemma apply_exact_ok id i command e :
  command_ok (ok_domain key) command → ok_domain key = DomainEnforced → passed command →
  draft_ok c key count e → (i < count)%nat →
  ∃ r, apply_command c key id i command e = Some r
       ∧ match r with
         | inl e => draft_ok c key count e
         | inr (e, eff) => draft_ok c key count e
                           ∧ (re_Released eff = true → is_Some (claim_request (re_Claim eff)))
         end.
Proof.
  intros Hc Hd Hp [D1 D2 D3 D4 D5 D6] Hi. unfold apply_command.
  pose proof Hc as (_ & _ & Hc'). rewrite Hd in Hc'. simpl in Hc'.
  destruct Hc' as [_ [He|[He Hclaim]]]; rewrite He; simpl.
  - eexists; split; [reflexivity|]. split; [|done]. split; simpl; try done.
    apply installable_add; auto.
  - destruct (find_claim (rc_Claim command) (e_ranges e)) as [[j held]|] eqn:Ef;
      [|eexists; split; [reflexivity|]; apply reject_edit_ok; by split].
    destruct (_ || _); [eexists; split; [reflexivity|]; apply reject_edit_ok; by split|].
    eexists; split; [reflexivity|]. split; [|done].
    destruct (find_claim (rc_Claim command) (e_releaseRanges e)) as [[j' held']|]; split; simpl;
      try done; try (by apply installable_delete).
    + eapply fits_le; [done|apply delete_zlen].
    + apply traceable_app; [done|]. simpl. done.
    + intros k [Hk| ->%list_elem_of_singleton]%elem_of_app; auto.
    + apply traceable_app; [done|]. simpl. done.
    + intros k [Hk| ->%list_elem_of_singleton]%elem_of_app; auto.
Qed.

Lemma draft_command_ok id i command e :
  command_ok (ok_domain key) command → draft_ok c key count e → (i < count)%nat →
  ∃ e', draft_command c key id i command e = Some e' ∧ draft_ok c key count e'.
Proof.
  intros Hc He Hi. unfold draft_command.
  destruct (conflictLocked_spec c key command (Inv_owners_live _ _ _ H)) as (conflict & Hcf & Hspec).
  assert (∃ x, (if (rc_Edit command =? Replace) || (rc_Edit command =? AddExact)
                then conflictLocked c key command else Some NoConflict) = Some x
               ∧ (cf_Found x = false → passed command)) as (x & -> & Hx).
  { unfold passed. destruct (_ || _) eqn:E; [rewrite Hcf; exists conflict|exists NoConflict];
      (split; [done|]); intros Hf.
    - rewrite Hf in Hspec. intros _. apply Hspec.
    - bool_prop. naive_solver. }
  destruct (cf_Found x).
  { eexists; split; [reflexivity|]. apply reject_edit_ok. destruct He. by split. }
  specialize (Hx eq_refl).
  assert (∃ r, apply_command c key id i command e = Some r
       ∧ match r with
         | inl e => draft_ok c key count e
         | inr (e, eff) => draft_ok c key count e ∧ traceable [eff]
         end) as (r & -> & Hr).
  { destruct (decide (ok_domain key = DomainEnforced)) as [Hd|Hd].
    - destruct (apply_exact_ok id i command e Hc Hd Hx He Hi) as ([?|[? ?]] & -> & Hr); eauto.
      eexists; split; [reflexivity|]. split; [apply Hr|].
      intros ? ->%list_elem_of_singleton ? _. by apply Hr.
    - destruct (apply_replace_ok id i command e Hc Hd Hx He Hi) as ([?|[? ?]] & -> & Hr); eauto.
      eexists; split; [reflexivity|]. split; [apply Hr|].
      intros ? ->%list_elem_of_singleton _ ?. by apply Hr in H0. }
  destruct r as [e'|[e' eff]]; [eauto|]. destruct Hr as [[D1 D2 D3 D4 D5 D6] Ht].
  assert (draft_ok c key count (set_e_effects (e_effects e' ++ [eff]) e')) as He'.
  { split; simpl; try done. apply traceable_app; [done|]. intros ? ?.
    apply Ht; [set_solver|done..]. }
  destruct (replacementFits_run c key (zlen (e_ranges (set_e_effects (e_effects e' ++ [eff]) e')))
    o s Ho Hs) as (b & -> & _). destruct b; eauto using reject_edit_ok.
Qed.

Lemma draft_from_ok id released commands : ∀ i e,
  Forall (command_ok (ok_domain key)) commands → draft_ok c key count e →
  (i + length commands ≤ count)%nat → (count ≤ length released)%nat →
  ∃ e', draft_from c key id released i commands e = Some e' ∧ draft_ok c key count e'.
Proof.
  induction commands as [|command commands IH]; intros i e Hc He Hi Hl; simpl in *; [eauto|].
  apply Forall_cons in Hc as [Hc Hcs].
  destruct (lookup_lt_is_Some_2 released i) as [b ->]; [lia|].
  destruct b; [apply IH; auto with lia|].
  destruct (draft_command_ok id i command e Hc He) as (e' & -> & He'); [lia|].
  case_bool_decide; [apply IH; auto with lia|eauto].
Qed.
End draft.

(** A draft for a live, registered owner is always made, and is sound. *)
Lemma draftLocked_ok fa fk c q o s :
  Inv fa fk c → batch_ok (c_config c) (ok_domain (q_key q)) (q_commands q) →
  length (q_released q) = length (q_commands q) →
  c_owners c !! q_key q = Some o → live_session c (ok_session (q_key q)) = Some s →
  ∃ e, draftLocked c q = Some e ∧ draft_ok c (q_key q) (length (q_commands q)) e.
Proof.
  intros H Hb Hl Ho Hs. unfold draftLocked. rewrite Ho.
  apply batch_commands in Hb as [_ Hb].
  eapply draft_from_ok; eauto; [by eapply new_edit_ok|lia].
Qed.

(** ** Reconciliation *)

#[global] Instance steady_reflexive : Reflexive steady := steady_refl.
#[global] Instance steady_transitive : Transitive steady := steady_trans.

(** Only requests that were granted change; no owner and no queue does. *)
Definition settles (c c' : coordinator) : Prop :=
  steady c c' ∧ c_owners c' = c_owners c ∧ c_waiting c' = c_waiting c
  ∧ ∀ a q, c_actions c !! a = Some q → ra_State (q_result q) ≠ Granted →
           c_actions c' !! a = Some q.

#[global] Instance settles_reflexive : Reflexive settles.
Proof. intros c. split_and!; try done. Qed.
#[global] Instance settles_transitive : Transitive settles.
Proof.
  intros c1 c2 c3 (A1 & A2 & A3 & A4) (B1 & B2 & B3 & B4).
  split_and!; [by etrans|congruence..|]. intros a q Hq Hg. apply B4; auto.
Qed.

Lemma removed_requests_Some effects : traceable effects → is_Some (removed_requests effects).
Proof.
  induction effects as [|e effects IH]; intros Ht; simpl; [eauto|].
  destruct IH as [ids ->]; [intros x Hx; apply Ht; set_solver|].
  destruct (re_Released e) eqn:Hr; simpl; [|eauto].
  destruct (String.eqb_spec (re_Claim e) EmptyString); [eauto|].
  destruct (Ht e) as [id ->]; [set_solver|done..|]. eauto.
Qed.

(** A live request that has been granted is not queued. *)
Lemma Inv_not_queued fa fk c a q :
  Inv fa fk c → c_actions c !! a = Some q → ok_session (q_key q) ∈ c_sessions c →
  ra_State (q_result q) ≠ Pending → q_pending q = false.
Proof.
  intros H Hq Hl Hst. destruct (q_pending q) eqn:Hp; [|done].
  destruct (inv_requests _ _ _ H a q Hq) as (_ & _ & _ & _ & Hiff & _).
  destruct (inv_waiting _ _ _ H) as [_ Hw].
  destruct (Hw a (proj1 (Hiff Hl) Hp)) as (q' & ? & _ & ? & _). by simplify_eq.
Qed.

Lemma completes_settles c a q state rejection c' :
  steady c c' → c_actions c !! a = Some q → q_pending q = false →
  ra_State (q_result q) = Granted → completes c a q state rejection c' → settles c c'.
Proof.
  intros Hst Hq Hp Hg ((x & Ea) & Ew & _ & Eo & _). rewrite Hp in Ew.
  split_and!; auto. intros b qb Hb Hng. rewrite Ea.
  rewrite lookup_insert_ne; [done|]. intros ->. by simplify_eq.
Qed.

Lemma reconcile_request_inv fa fk key live actions id c s :
  Inv fa fk c → fk = None ∨ fk = Some key →
  live_session c (ok_session key) = Some s → s_actions s = actions →
  ∃ c', reconcile_request key live actions id c = Some (tt, c') ∧ Inv fa fk c' ∧ settles c c'.
Proof.
  intros H Hfk Hs <-. unfold reconcile_request.
  destruct (s_actions s !! id) as [a|] eqn:Ha; [|by exists c].
  pose proof Hs as [Hl Hh]%live_session_Some.
  destruct (inv_sessions _ _ _ H) as (_ & _ & Hact).
  destruct (Hact _ _ _ _ Hh Ha) as (q & Hq & _ & _).
  unfold bind, get_request, deref. rewrite Hq. destruct (_ || _) eqn:E; [by exists c|].
  bool_prop. subst key.
  assert (Hp : q_pending q = false).
  { eapply Inv_not_queued; eauto. congruence. }
  destruct (complete_inv fa fk c a q s Released NoRejection) as (c' & Hrun & Hi & Hst & Hc);
    try done. rewrite Hp in Hi. exists c'. eauto using completes_settles.
Qed.

Lemma reconcile_inv fa fk key effects c s :
  Inv fa fk c → fk = None ∨ fk = Some key →
  live_session c (ok_session key) = Some s → traceable effects →
  ∃ c', reconcileRemovedClaimsLocked key effects c = Some (tt, c') ∧ Inv fa fk c' ∧ settles c c'.
Proof.
  intros H Hfk Hs Ht. unfold reconcileRemovedClaimsLocked, bind at 1, deref.
  destruct (removed_requests_Some effects Ht) as [removed ->].
  case_bool_decide; [by exists c|]. unfold bind, gets, get_live, deref. rewrite Hs.
  destruct (iter_rel
    (reconcile_request key (match c_owners c !! key with
                            | Some o => cl_id <$> os_ranges o | None => [] end) (s_actions s))
    (λ c1, Inv fa fk c1 ∧ settles c c1) settles (elements removed)) with (s := c)
    as (c' & Hrun & [Hi _] & Hst); [|by split|by exists c'].
  intros id c1 _ [Hi Hst].
  destruct (steady_live c c1 _ _ (proj1 Hst) Hs) as (s1 & Hs1 & (_ & Ea & _) & _).
  destruct (reconcile_request_inv fa fk key
    (match c_owners c !! key with Some o => cl_id <$> os_ranges o | None => [] end)
    (s_actions s) id c1 s1) as (c2 & Hrun & Hi2 & Hst2); try done.
  exists c2. split_and!; try done. by etrans.
Qed.

(** ** Commits *)

(** The request as a commit leaves it, apart from its receipt. *)
Definition same_progress (q q' : request) : Prop :=
  same_request q q' ∧ ra_State (q_result q') = ra_State (q_result q)
  ∧ q_pending q' = q_pending q ∧ q_converting q' = q_converting q ∧ q_order q' = q_order q
  ∧ q_prepared q' = q_prepared q.

Lemma same_progress_trans q1 q2 q3 :
  same_progress q1 q2 → same_progress q2 q3 → same_progress q1 q3.
Proof.
  intros ((? & ? & ? & ? & ?) & ? & ? & ? & ? & ?) ((? & ? & ? & ? & ?) & ? & ? & ? & ? & ?).
  unfold same_progress, same_request. split_and!; congruence.
Qed.

Lemma Inv_progress fa fk c a q q' :
  Inv fa fk c → c_actions c !! a = Some q → same_progress q q' →
  Inv fa fk (set_c_actions (<[a := q']> (c_actions c)) c)
  ∧ steady c (set_c_actions (<[a := q']> (c_actions c)) c).
Proof.
  intros H Hq (Hsame & E1 & E2 & E3 & E4 & E5). split.
  - eapply Inv_set_request; eauto; rewrite ?E1, ?E3, ?E4; [auto|].
    intros Ha. destruct (inv_waiting _ _ _ H) as [_ Hw]. destruct (Hw a Ha) as (? & ? & _ & ? & ? & _).
    by simplify_eq.
  - apply steady_updates; simpl; try done; try lia; [by left|right]. exists a, q, q'. split_and!; try done; [apply Hsame..|].
    by rewrite E1.
Qed.

(** The releases of a prefix are marked one by one. *)
Lemma mark_released_inv fa fk a indexes : ∀ c q,
  Inv fa fk c → c_actions c !! a = Some q →
  (∀ i, i ∈ indexes → (i < length (q_released q))%nat) →
  ∃ c' q', iter (mark_released a) indexes c = Some (tt, c') ∧ Inv fa fk c' ∧ steady c c'
           ∧ c_owners c' = c_owners c ∧ c_waiting c' = c_waiting c
           ∧ c_actions c' = <[a := q']> (c_actions c) ∧ same_progress q q'.
Proof.
  induction indexes as [|i indexes IH]; intros c q H Hq Hi; simpl.
  { exists c, q. rewrite insert_id by done. by split_and!. }
  destruct (lookup_lt_is_Some_2 (q_released q) i) as [b Hb]; [apply Hi; set_solver|].
  set (q1 := set_q_released (<[i:=true]> (q_released q)) q).
  assert (same_progress q q1) as Hsp.
  { split; [|done]. split_and!; try done. simpl. apply length_insert. }
  destruct (Inv_progress _ _ _ _ _ q1 H Hq Hsp) as [H1 S1].
  unfold bind at 1, mark_released, bind at 1, deref. rewrite Hq. simpl. rewrite Hb.
  unfold upd_request, modify. rewrite (alter_Some _ _ _ _ Hq).
  destruct (IH _ q1 H1) as (c' & q' & Hrun & H' & S' & Eo & Ew & Ea & Hsp');
    [simpl; apply lookup_insert_eq|simpl; rewrite length_insert; set_solver|].
  exists c', q'. split; [exact Hrun|].
  split_and!; try done; [by etrans| |by eapply same_progress_trans].
  rewrite Ea. simpl. by rewrite insert_insert_eq.
Qed.

(** [commitReleasePrefixLocked]: the acquisitions of the draft are forgotten,
    its releases stay. *)
Lemma commitReleasePrefix_inv fa fk c a q o s e :
  Inv fa fk c → fk = None ∨ fk = Some (q_key q) →
  c_actions c !! a = Some q → ra_State (q_result q) ≠ Granted →
  length (q_released q) = length (q_commands q) →
  c_owners c !! q_key q = Some o → live_session c (ok_session (q_key q)) = Some s →
  draft_ok c (q_key q) (length (q_commands q)) e →
  ∃ c' q', commitReleasePrefixLocked a (q_key q) e c = Some (tt, c')
           ∧ Inv fa (Some (q_key q)) c' ∧ steady c c'
           ∧ c_actions c' !! a = Some q' ∧ same_progress q q' ∧ c_waiting c' = c_waiting c
           ∧ ∃ o', c_owners c' !! q_key q = Some o' ∧ os_pending o' = os_pending o.
Proof.
  intros H Hfk Hq Hng Hlen Ho Hs [D1 [D2 D2'] D3 D4 D5 D6]. unfold commitReleasePrefixLocked.
  destruct (e_releaseEffects e) as [|eff effs] eqn:Heff.
  { exists c, q. split_and!; try done; [|eauto]. eapply Inv_weaken; eauto. }
  rewrite <- Heff in *. clear eff effs Heff.
  pose proof (Inv_install fa fk c (q_key q) o s (e_releaseRanges e) H Hfk Ho Hs D2 D3 D2') as H1.
  pose proof (install_run (q_key q) (e_releaseRanges e) c o s Ho Hs) as Hrun1.
  set (c1 := st_install (q_key q) o s (e_releaseRanges e) c) in *.
  pose proof Hs as [Hl Hh]%live_session_Some.
  assert (S1 : steady c c1).
  { apply steady_updates; simpl; try done; try lia; [right|by left]. by eexists _, s, _. }
  set (q1 := set_q_result
    (set_ra_Effects (ra_Effects (q_result q) ++ e_releaseEffects e) (q_result q)) q).
  destruct (Inv_progress _ _ c1 a q q1 H1 Hq) as [H2 S2]; [done|].
  set (c2 := set_c_actions _ c1) in *.
  destruct (mark_released_inv fa (Some (q_key q)) a (e_releaseIndexes e) c2 q1 H2)
    as (c3 & q3 & Hrun3 & H3 & S3 & Eo & Ew & Ea & Hsp).
  { apply lookup_insert_eq. }
  { intros i Hi. simpl. rewrite Hlen. auto. }
  assert (S13 : steady c c3) by (etrans; [done|]; by etrans).
  destruct (steady_live _ _ _ _ S13 Hs) as (s3 & Hs3 & _).
  destruct (reconcile_inv fa (Some (q_key q)) (q_key q) (e_releaseEffects e) c3 s3)
    as (c4 & Hrun4 & H4 & (S4 & Eo4 & Ew4 & Hkeep)); try done; [by right|].
  assert (Ha3 : c_actions c3 !! a = Some q3) by (rewrite Ea; apply lookup_insert_eq).
  exists c4, q3. split_and!; try done.
  - unfold bind. rewrite Hrun1. unfold upd_request, modify.
    rewrite (alter_Some _ _ a q) by done. fold q1 c2. by rewrite Hrun3.
  - by etrans.
  - apply Hkeep; [done|]. destruct Hsp as (_ & -> & _). done.
  - by rewrite Ew4, Ew.
  - rewrite Eo4, Eo. simpl. rewrite lookup_insert_eq. by eexists.
Qed.

(** A request has been settled: it has left the queue, if it was in it. *)
Definition concluded (fa : option reqid) (a : reqid) (q : request) (c c' : coordinator) : Prop :=
  Inv fa (if q_pending q then None else Some (q_key q)) c' ∧ steady c c'
  ∧ (∃ q', c_actions c' !! a = Some q' ∧ ra_State (q_result q') ≠ Pending)
  ∧ c_waiting c' = (if q_pending q then dequeue a (c_waiting c) else c_waiting c).

Lemma complete_concludes fa fk c a q s state rejection :
  Inv fa fk c → fk = None ∨ fk = Some (q_key q) →
  c_actions c !! a = Some q → live_session c (ok_session (q_key q)) = Some s →
  state ≠ Pending →
  ∃ c', completeLocked a state rejection c = Some (tt, c') ∧ concluded fa a q c c'.
Proof.
  intros H Hfk Hq Hs Hst.
  destruct (complete_inv fa fk c a q s state rejection) as (c' & Hrun & Hi & S & (x & Ea) & Ew & _);
    try done.
  exists c'. split; [done|]. split_and!; try done.
  - destruct (q_pending q); [done|]. eapply Inv_weaken; [exact Hi|by right|done].
  - eexists. rewrite Ea, lookup_insert_eq. split; [done|]. by rewrite completed_state.
Qed.

(** Conclusions compose with steps that keep the request's progress. *)
Lemma concluded_before fa a q q1 c c1 c' :
  steady c c1 → c_waiting c1 = c_waiting c → same_progress q q1 →
  concluded fa a q1 c1 c' → concluded fa a q c c'.
Proof.
  intros S Ew ((Ek & _) & _ & Ep & _) (Hi & S' & Hq & Ew'). unfold concluded.
  rewrite Ek, Ep, Ew in *. split; [done|]. split; [by etrans|]. done.
Qed.

Lemma concluded_after fa a q c c1 c' :
  concluded fa a q c c1 → settles c1 c' →
  Inv fa (if q_pending q then None else Some (q_key q)) c' → concluded fa a q c c'.
Proof.
  intros (_ & S & (q1 & Hq1 & Hst) & Ew) (S' & _ & Ew' & _) Hi.
  split; [done|]. split; [by etrans|]. split; [|congruence].
  destruct S' as (_ & _ & _ & Hr & _). destruct (Hr a q1 Hq1) as (q' & ? & _ & ?). eauto.
Qed.

Lemma commitEdit_concludes fa fk c a q o s e :
  Inv fa fk c → fk = None ∨ fk = Some (q_key q) →
  c_actions c !! a = Some q → ra_State (q_result q) = Pending →
  length (q_released q) = length (q_commands q) →
  c_owners c !! q_key q = Some o → live_session c (ok_session (q_key q)) = Some s →
  draft_ok c (q_key q) (length (q_commands q)) e →
  ∃ c', commitEditLocked a (q_key q) e c = Some (tt, c') ∧ concluded fa a q c c'.
Proof.
  intros H Hfk Hq HP Hlen Ho Hs D. pose proof D as [[D1 D1'] _ _ D4 _ _].
  unfold commitEditLocked, replaceLocked, bind at 1 2, deref.
  destruct (replacementFits_run c (q_key q) (zlen (e_ranges e)) o s Ho Hs) as (b & -> & Hfit).
  destruct b.
  - unfold bind at 1. rewrite (install_run _ _ c o s Ho Hs). unfold ret.
    pose proof (Inv_install fa fk c _ o s (e_ranges e) H Hfk Ho Hs D1 (proj1 Hfit eq_refl) D1') as H1.
    set (c1 := st_install (q_key q) o s (e_ranges e) c) in *.
    pose proof Hs as [Hl Hh]%live_session_Some.
    assert (S1 : steady c c1).
    { apply steady_updates; simpl; try done; try lia; [right|by left]. by eexists _, s, _. }
    unfold bind at 1, upd_request, modify. rewrite (alter_Some _ _ a q) by done.
    match goal with |- context [<[a:=?f q]> _] => set (q1 := f q) end.
    destruct (Inv_progress _ _ c1 a q q1 H1 Hq) as [H2 S2]; [done|].
    set (c2 := set_c_actions _ c1) in *.
    assert (S12 : steady c c2) by (by etrans).
    destruct (steady_live _ _ _ _ S12 Hs) as (s2 & Hs2 & _).
    destruct (complete_concludes fa (Some (q_key q)) c2 a q1 s2
      (if e_acquired e then Granted else Released) NoRejection)
      as (c3 & Hrun3 & C3); try done; [by right|apply lookup_insert_eq|by destruct (e_acquired e)|].
    apply (concluded_before fa a q q1 c c2 c3 S12 eq_refl) in C3; [|done].
    unfold bind. rewrite Hrun3. pose proof C3 as (H3 & S3 & _).
    destruct (steady_live _ _ _ _ S3 Hs) as (s3 & Hs3 & _).
    destruct (reconcile_inv fa (if q_pending q then None else Some (q_key q)) (q_key q)
      (e_effects e) c3 s3) as (c4 & -> & H4 & S4); try done; [destruct (q_pending q); auto|].
    exists c4. split; [done|]. by eapply concluded_after.
  - unfold ret. destruct (commitReleasePrefix_inv fa fk c a q o s e)
      as (c1 & q1 & Hrun1 & H1 & S1 & Hq1 & Hsp & Ew1 & _); try done; [congruence|].
    unfold bind. rewrite Hrun1. pose proof Hsp as ((Ek & _) & _).
    destruct (steady_live _ _ _ _ S1 Hs) as (s1 & Hs1 & _).
    destruct (complete_concludes fa (Some (q_key q)) c1 a q1 s1 Rejected RangeExhausted)
      as (c2 & -> & C2); try done; [right; by rewrite Ek|by rewrite Ek|].
    exists c2. split; [done|]. by eapply concluded_before.
Qed.

Lemma fail_at_concludes fa fk c a q s index code :
  Inv fa fk c → fk = None ∨ fk = Some (q_key q) →
  c_actions c !! a = Some q → live_session c (ok_session (q_key q)) = Some s →
  ∃ c', fail_at a index code c = Some (tt, c') ∧ concluded fa a q c c'.
Proof.
  intros H Hfk Hq Hs. unfold fail_at, bind, upd_request, modify.
  rewrite (alter_Some _ _ a q) by done.
  match goal with |- context [<[a:=?f q]> _] => set (q1 := f q) end.
  destruct (Inv_progress _ _ c a q q1 H Hq) as [H1 S1]; [done|].
  set (c1 := set_c_actions _ c) in *.
  destruct (complete_concludes fa fk c1 a q1 s Rejected code) as (c2 & -> & C2); try done;
    [apply lookup_insert_eq|].
  exists c2. split; [done|]. by apply (concluded_before fa a q q1 c c1 c2).
Qed.

(** ** Starting a request *)

(** Where [startLocked] may leave a request, before its deferred prune. *)
Definition started (a : reqid) (q : request) (c c' : coordinator) : Prop :=
  Inv None (Some (q_key q)) c' ∧ steady c c'.

Lemma concluded_started fk a q c c' :
  q_pending q = false → concluded (Some a) a q c c' → fk = Some (q_key q) →
  Inv None fk c' ∧ steady c c'.
Proof.
  intros Hp (Hi & S & (q' & Hq' & Hst) & _) ->. rewrite Hp in Hi. split; [|done].
  eapply Inv_settled; eauto.
Qed.

Lemma wait_or_reject_started c a q o s first e :
  Inv (Some a) (Some (q_key q)) c →
  c_actions c !! a = Some q → ra_State (q_result q) = Pending →
  q_pending q = false → q_converting q = false →
  c_owners c !! q_key q = Some o → live_session c (ok_session (q_key q)) = Some s →
  ∃ c', wait_or_reject a (q_key q) (q_commands q) first e c = Some (tt, c')
        ∧ Inv None (Some (q_key q)) c' ∧ steady c c'.
Proof.
  intros H Hq HP Hp Hcv Ho Hs. unfold wait_or_reject, bind at 1, upd_request, modify.
  rewrite (alter_Some _ _ a q) by done.
  match goal with |- context [<[a:=?f q]> _] => set (q1 := f q) end.
  destruct (Inv_progress _ _ c a q q1 H Hq) as [H1 S1]; [done|].
  set (c1 := set_c_actions _ c) in *.
  assert (Hq1 : c_actions c1 !! a = Some q1) by apply lookup_insert_eq.
  assert (Hfail : ∀ index code, ∃ c', fail_at a index code c1 = Some (tt, c')
                    ∧ Inv None (Some (q_key q)) c' ∧ steady c c').
  { intros index code.
    destruct (fail_at_concludes (Some a) (Some (q_key q)) c1 a q1 s index code)
      as (c' & -> & C'); try done; [by right|].
    exists c'. split; [done|].
    destruct (concluded_started (Some (q_key q)) a q1 c1 c') as [? ?]; try done.
    split; [done|by etrans]. }
  destruct (_ || _); [apply Hfail|]. unfold bind at 1 2, get_live, deref, gets.
  change (live_session c1 (ok_session (q_key q))) with (live_session c (ok_session (q_key q))).
  rewrite Hs. destruct (_ || _) eqn:Hlim; [apply Hfail|]. bool_prop.
  assert (Henq : ∃ c', enqueueLocked a (q_key q) c1 = Some (tt, c')
                    ∧ Inv None (Some (q_key q)) c' ∧ steady c c').
  { destruct (enqueue_inv (Some (q_key q)) c1 a q1 o s) as (c' & Hrun & Hi); try done; [by right|].
    exists c'. split; [done|]. split; [eapply Inv_weaken; eauto|].
    etrans; [exact S1|]. revert Hrun.
    unfold enqueueLocked, upd_request, upd_owner, upd_session, get_owner, bind, modify, deref.
    simpl. rewrite Ho. intros [= <-]. pose proof Hs as [_ Hh]%live_session_Some.
    apply steady_updates; simpl; try done; try lia; right.
    - eexists _, s, _. split; [exact Hh|]. simpl. by rewrite (alter_Some _ _ _ _ Hh).
    - eexists a, q1, _. split; [done|]. simpl.
      rewrite (alter_Some _ _ a q1) by apply lookup_insert_eq. by split_and!. }
  destruct (ok_domain (q_key q) =? DomainRecord); [|done].
  destruct (deadlockLocked_spec c1 (q_key q) (q_commands q)) as (d & w & Hd & _).
  - exact (Inv_owners_live _ _ _ H1).
  - intros b Hb. destruct (inv_waiting _ _ _ H1) as [_ Hw].
    destruct (Hw b Hb) as (qb & ? & Hl & _). exists qb. split; [done|].
    destruct (live_session_lookup c1 _ (inv_sessions _ _ _ H1) Hl) as [? ?]. eauto.
  - by exists s.
  - pose proof (inv_bounds _ _ _ H1) as (Hcfg & _). unfold Config_Check in Hcfg.
    destruct (_ || _) eqn:E in Hcfg; [done|]. bool_prop. lia.
  - unfold bind, deref. rewrite Hd. destruct d; [apply Hfail|]. destruct w; [done|apply Hfail].
Qed.

Lemma held_ok_nil domain : held_ok domain [].
Proof. unfold held_ok. destruct (_ =? _); [constructor|apply wf_claims_nil]. Qed.

(** Releasing everything always fits. *)
Lemma fits_nil fa fk c key o s :
  Inv fa fk c → c_owners c !! key = Some o → live_session c (ok_session key) = Some s →
  fits c key (zlen (A := rangeClaim) []).
Proof.
  intros H Ho Hs. pose proof (inv_bounds _ _ _ H) as (_ & _ & B1 & _ & _ & _ & B2).
  destruct (B2 _ _ (proj2 (proj1 (live_session_Some _ _ _) Hs))) as (B3 & _).
  exists o, s. unfold zlen. simpl. split_and!; try done; lia.
Qed.

Lemma release_all_inv fa fk c key o s :
  Inv fa fk c → fk = None ∨ fk = Some key →
  c_owners c !! key = Some o → live_session c (ok_session key) = Some s →
  replaceLocked key [] c = Some (None, st_install key o s [] c)
  ∧ Inv fa (Some key) (st_install key o s [] c) ∧ steady c (st_install key o s [] c).
Proof.
  intros H Hfk Ho Hs. pose proof (fits_nil _ _ _ _ _ _ H Ho Hs) as Hfit. split_and!.
  - unfold replaceLocked, bind, deref.
    destruct (replacementFits_run c key (zlen (A := rangeClaim) []) o s Ho Hs) as (b & -> & Hb).
    rewrite (proj2 Hb Hfit). by rewrite (install_run _ _ c o s Ho Hs).
  - eapply Inv_install; eauto using held_ok_nil. intros d ? ? Hd. set_solver.
  - pose proof Hs as [Hl Hh]%live_session_Some.
    apply steady_updates; simpl; try done; try lia; [right|by left]. by eexists _, s, _.
Qed.

Lemma drop_for_conversion_inv c a q o s :
  Inv (Some a) (Some (q_key q)) c → c_actions c !! a = Some q → q_pending q = false →
  c_owners c !! q_key q = Some o → live_session c (ok_session (q_key q)) = Some s →
  ∃ c', drop_for_conversion a (q_key q) (os_ranges o) c = Some (tt, c')
        ∧ Inv None (Some (q_key q)) c' ∧ steady c c'.
Proof.
  intros H Hq Hp Ho Hs. pose proof Hs as [Hl Hh]%live_session_Some.
  unfold drop_for_conversion, bind, upd_request, modify.
  rewrite (alter_Some _ _ a q) by done.
  match goal with |- context [<[a:=?f q]> _] => set (q1 := f q) end.
  destruct (Inv_progress _ _ c a q q1 H Hq) as [H1 S1]; [done|].
  set (c1 := set_c_actions _ c) in *.
  destruct (release_all_inv (Some a) (Some (q_key q)) c1 (q_key q) o s) as (-> & H2 & S2);
    try done; [by right|].
  set (c2 := st_install _ _ _ _ c1) in *.
  assert (Hq1 : c_actions c2 !! a = Some q1) by apply lookup_insert_eq.
  rewrite (alter_Some _ _ a q1) by done. eexists. split; [reflexivity|].
  assert (Hnot : a ∉ c_waiting c2).
  { destruct (inv_requests _ _ _ H a q Hq) as (_ & _ & _ & _ & Hiff & _).
    change (c_waiting c2) with (c_waiting c). rewrite <- (Hiff Hl). congruence. }
  split.
  - eapply (Inv_settled a); [|apply lookup_insert_eq|auto].
    eapply (Inv_set_request _ _ c2 a q1); try done.
    intros HP. simpl in HP. simpl. auto.
  - etrans; [exact S1|]. etrans; [exact S2|].
    apply steady_updates; simpl; try done; try lia; [by left|right]. eexists a, q1, _. by split_and!.
Qed.

Lemma ownerLocked_inv fa c key :
  Inv fa None c → bound c key → DomainRecord <= ok_domain key <= DomainEnforced →
  ∃ o c', ownerLocked key c = Some (o, c') ∧ Inv fa (Some key) c' ∧ steady c c'
          ∧ c_owners c' !! key = Some o ∧ c_actions c' = c_actions c ∧ c_waiting c' = c_waiting c.
Proof.
  intros H Hb Hd. unfold ownerLocked, bind, gets, modify, ret.
  destruct (c_owners c !! key) as [o|] eqn:Ho.
  - exists o, c. split_and!; try done. eapply Inv_weaken; eauto.
  - eexists _, _. split; [reflexivity|]. split; [by apply Inv_new_owner|]. split.
    + apply steady_updates; simpl; try done; try lia; by left.
    + simpl. by rewrite lookup_insert_eq.
Qed.

Lemma start_body_inv c a q s :
  Inv (Some a) None c → c_actions c !! a = Some q → ra_State (q_result q) = Pending →
  q_pending q = false → q_converting q = false →
  live_session c (ok_session (q_key q)) = Some s →
  ∃ c', start_body a c = Some (tt, c') ∧ Inv None (Some (q_key q)) c' ∧ steady c c'.
Proof.
  intros H Hq HP Hp Hcv Hs. pose proof Hs as [Hl _]%live_session_Some.
  destruct (inv_requests _ _ _ H a q Hq) as (_ & Hb & Hlen & _ & _ & Hpd).
  destruct (Hpd Hl HP) as (Hbound & _). pose proof (batch_commands _ _ _ Hb) as [Hd _].
  unfold start_body, bind at 1, get_request, deref at 1. rewrite Hq.
  destruct (ownerLocked_inv (Some a) c (q_key q) H Hbound Hd)
    as (o & c1 & Hrun & H1 & S1 & Ho1 & Ea & Ew).
  unfold bind at 1. rewrite Hrun. unfold bind at 1, deref at 1.
  assert (∃ first, head (q_commands q) = Some first) as [first ->].
  { destruct Hb as (_ & _ & Hb). destruct (q_commands q); [done|]. simpl. eauto. }
  destruct (steady_live _ _ _ _ S1 Hs) as (s1 & Hs1 & _).
  assert (Hq1 : c_actions c1 !! a = Some q) by (by rewrite Ea).
  destruct (_ || _).
  { destruct (complete_concludes (Some a) (Some (q_key q)) c1 a q s1 Rejected RangeTooLarge)
      as (c' & -> & C'); try done; [by right|].
    exists c'. split; [done|].
    destruct (concluded_started (Some (q_key q)) a q c1 c') as [? ?]; try done.
    split; [done|by etrans]. }
  destruct (drops_first q first (os_ranges o)).
  { destruct (drop_for_conversion_inv c1 a q o s1) as (c' & -> & Hi & S'); try done.
    exists c'. split; [done|]. split; [done|by etrans]. }
  assert (Hb1 : batch_ok (c_config c1) (ok_domain (q_key q)) (q_commands q)).
  { destruct S1 as (-> & _). done. }
  destruct (draftLocked_ok (Some a) (Some (q_key q)) c1 q o s1 H1 Hb1 Hlen Ho1 Hs1) as (e & He & D).
  unfold bind at 1, deref at 1. rewrite He. case_bool_decide.
  - destruct (commitEdit_concludes (Some a) (Some (q_key q)) c1 a q o s1 e) as (c' & -> & C');
      try done; [by right|].
    exists c'. split; [done|].
    destruct (concluded_started (Some (q_key q)) a q c1 c') as [? ?]; try done.
    split; [done|by etrans].
  - destruct (commitReleasePrefix_inv (Some a) (Some (q_key q)) c1 a q o s1 e)
      as (c2 & q2 & Hrun2 & H2 & S2 & Hq2 & Hsp & _ & o2 & Ho2 & _); try done;
      [by right|congruence|].
    unfold bind at 1. rewrite Hrun2. destruct Hsp as ((Ek & _ & Ec & _) & E1 & E2 & E3 & _).
    destruct (steady_live _ _ _ _ S2 Hs1) as (s2 & Hs2 & _). rewrite <- Ek, <- Ec in *.
    destruct (wait_or_reject_started c2 a q2 o2 s2 first e) as (c' & -> & Hi & S');
      try done; try congruence.
    exists c'. split; [done|]. split; [done|]. etrans; [done|]. by etrans.
Qed.

Lemma start_inv c a q s :
  Inv (Some a) None c → c_actions c !! a = Some q → ra_State (q_result q) = Pending →
  q_pending q = false → q_converting q = false →
  live_session c (ok_session (q_key q)) = Some s →
  ∃ c', startLocked a c = Some (tt, c') ∧ Inv None None c' ∧ steady c c'.
Proof.
  intros H Hq HP Hp Hcv Hs. unfold startLocked, bind at 1, get_request, deref. rewrite Hq.
  destruct (start_body_inv c a q s) as (c1 & Hrun & H1 & S1); try done.
  unfold bind. rewrite Hrun.
  destruct (prune_inv None (Some (q_key q)) (q_key q) c1 H1) as (c2 & -> & H2 & Hcase); [by right|].
  exists c2. split; [done|]. split; [done|]. etrans; [done|].
  destruct Hcase as [->|[_ ->]]; [done|]. apply steady_updates; simpl; try done; try lia; by left.
Qed.
