(* ===== verification/AdvisoryOps.v ===== *)
(** * The advisory coordinator: sections keep the invariant

    Each critical section, started in a state that satisfies the invariant, does
    not panic and ends in one that does.  [pump] leaves no queued request that
    could be granted. *)

From S2P Require Import Prelude Errors Identity Ranges Extents AdvisoryState Conflicts Deadlock Coordinator Uses AdvisoryInv AdvisoryEdits.

(** ** A request that is ready is not blocked *)

Lemma apply_command_rejected c key id i command e r :
  apply_command c key id i command e = Some r → e_rejected e = NoRejection →
  match r with
  | inl e' => e_rejected e' ≠ RangeBlocked
  | inr (e', _) => e_rejected e' = NoRejection
  end.
Proof.
  unfold apply_command. intros Hr He. repeat case_match; simplify_eq; simpl; try done.
Qed.

Lemma draft_command_unblocked c key id i command e e' :
  draft_command c key id i command e = Some e' → e_rejected e = NoRejection →
  (rc_Edit command = Replace ∨ rc_Edit command = AddExact →
     ∃ conflict, conflictLocked c key command = Some conflict ∧ cf_Found conflict = false) →
  e_rejected e' ≠ RangeBlocked.
Proof.
  unfold draft_command. intros Hr He Hc.
  destruct ((rc_Edit command =? Replace) || (rc_Edit command =? AddExact)) eqn:E.
  - destruct Hc as (conflict & Hcf & Hf); [bool_prop; destruct E as [E|E]; bool_prop; auto|].
    rewrite Hcf, Hf in Hr.
    destruct (apply_command c key id i command e) as [[e1|[e1 eff]]|] eqn:Ha; [| |done].
    + injection Hr as <-. by apply (apply_command_rejected _ _ _ _ _ _ _ Ha).
    + pose proof (apply_command_rejected _ _ _ _ _ _ _ Ha He) as H1. simpl in H1.
      destruct (replacementFitsLocked _ _ _) as [[]|]; simplify_eq; simpl; congruence.
  - simpl in Hr. destruct (apply_command c key id i command e) as [[e1|[e1 eff]]|] eqn:Ha; [| |done].
    + injection Hr as <-. by apply (apply_command_rejected _ _ _ _ _ _ _ Ha).
    + pose proof (apply_command_rejected _ _ _ _ _ _ _ Ha He) as H1. simpl in H1.
      destruct (replacementFitsLocked _ _ _) as [[]|]; simplify_eq; simpl; congruence.
Qed.

Lemma draft_from_unblocked c key id released commands : ∀ i e e',
  unblocked c key commands = Some true → e_rejected e = NoRejection →
  draft_from c key id released i commands e = Some e' → e_rejected e' ≠ RangeBlocked.
Proof.
  induction commands as [|command commands IH]; intros i e e' Hu He; simpl; [by intros [= <-]; rewrite He|].
  simpl in Hu. destruct (released !! i) as [[]|]; [| |done].
  - apply IH; [|done]. destruct (_ && _); [done|].
    destruct (conflictLocked c key command) as [x|]; [|done]. by destruct (cf_Found x).
  - destruct (draft_command c key id i command e) as [e1|] eqn:Hd; [|done].
    assert (Hrest : unblocked c key commands = Some true
                    ∧ (rc_Edit command = Replace ∨ rc_Edit command = AddExact →
                       ∃ x, conflictLocked c key command = Some x ∧ cf_Found x = false)).
    { destruct (_ && _) eqn:E.
      - split; [done|]. bool_prop. naive_solver.
      - destruct (conflictLocked c key command) as [x|]; [|done].
        destruct (cf_Found x) eqn:Hf; [done|]. eauto. }
    destruct Hrest as [Hu' Hcf]. pose proof (draft_command_unblocked _ _ _ _ _ _ _ Hd He Hcf).
    case_bool_decide; [by apply IH|]. by intros [= <-].
Qed.

Lemma ready_draft c q e :
  readyLocked c q = Some true → draftLocked c q = Some e → e_rejected e ≠ RangeBlocked.
Proof.
  unfold readyLocked, draftLocked. destruct (live_session c _) as [s|]; [|done].
  destruct (s_retiring s); [done|]. intros Hu. destruct (c_owners c !! q_key q); [|done].
  by apply draft_from_unblocked.
Qed.

(** ** advance *)

Lemma active_live c sid s :
  sessions_ok c → c_heap c !! sid = Some s → activeLocked s = None →
  live_session c sid = Some s.
Proof.
  intros (_ & Hok & _) Hs Ha. apply live_session_Some. split; [|done].
  destruct (Hok sid s Hs) as (_ & Hr & _). unfold activeLocked in Ha.
  destruct (s_retired s); [done|]. destruct (decide (sid ∈ c_sessions c)); [done|].
  by apply Hr in n.
Qed.

(** What a queued request's turn does: it stays, or it leaves the queue. *)
Definition turn (a : reqid) (c c' : coordinator) : Prop :=
  Inv None None c' ∧ steady c c'
  ∧ (c_waiting c' = c_waiting c ∨ c_waiting c' = dequeue a (c_waiting c)).

Lemma turn_refl a c : Inv None None c → turn a c c.
Proof. intros H. split; [done|]. split; [done|by left]. Qed.

(** The turn of a queued request. *)
Lemma advance_queued c a q s :
  Inv None None c → c_actions c !! a = Some q → a ∈ c_waiting c →
  live_session c (ok_session (q_key q)) = Some s →
  ∃ r c', advance_ordered (ok_session (q_key q)) a c = Some (r, c') ∧ turn a c c'
          ∧ (readyLocked c q = Some true → c_waiting c' = dequeue a (c_waiting c)).
Proof.
  intros H Hq Ha Hs. pose proof Hs as [Hl Hh]%live_session_Some.
  destruct (inv_waiting _ _ _ H) as [_ Hw].
  destruct (Hw a Ha) as (q' & Hq' & _ & HP & Hcv & [o Ho]). simplify_eq.
  destruct (inv_requests _ _ _ H a q Hq) as (_ & Hb & Hlen & _ & Hiff & Hpd).
  destruct (Hpd Hl HP) as ((s' & b & Hs' & Hbd & Hn) & _). simplify_eq.
  unfold advance_ordered, bind at 1, get_request, deref at 1. rewrite Hq.
  unfold bind at 1, gets. rewrite (bool_decide_true _ HP), (bool_decide_true _ Hl). simpl.
  unfold bind at 1, get_session, deref at 1. rewrite Hh.
  destruct (activeLocked s ;? _) as [err|] eqn:Hact.
  { eexists _, c. split; [reflexivity|]. split; [by apply turn_refl|].
    intros Hready. exfalso. revert Hact. unfold readyLocked in Hready. rewrite Hs in Hready.
    unfold activeLocked, checkOwnerLocked. rewrite Hbd, Hn, Z.eqb_refl.
    destruct (inv_sessions _ _ _ H) as (_ & Hok & _). destruct (Hok _ _ Hh) as (_ & Hr & _).
    destruct (s_retired s); [by apply Hr in Hl|]. by destruct (s_retiring s). }
  rewrite Hcv.
  destruct (draftLocked_ok None None c q o s H Hb Hlen Ho Hs) as (e & He & D).
  unfold bind at 1, deref at 1. rewrite He.
  assert (Hconc : ∀ c', concluded None a q c c' →
            turn a c c' ∧ (readyLocked c q = Some true → c_waiting c' = dequeue a (c_waiting c))).
  { intros c' (Hi & S & _ & Ew). rewrite (proj2 (Hiff Hl) Ha) in Hi, Ew.
    split; [|done]. split; [done|]. split; [done|by right]. }
  assert (Hcomp : ∀ code, ∃ r c', (do! completeLocked a Rejected code in ret (Ok tt)) c
            = Some (r, c') ∧ turn a c c'
            ∧ (readyLocked c q = Some true → c_waiting c' = dequeue a (c_waiting c))).
  { intros code. destruct (complete_concludes None None c a q s Rejected code) as (c' & Hrun & C);
      try done; [by left|].
    eexists _, c'. split; [unfold bind; by rewrite Hrun|]. by apply Hconc. }
  destruct (e_rejected e) eqn:Hr; try apply Hcomp.
  - destruct (commitEdit_concludes None None c a q o s e) as (c' & Hrun & C); try done; [by left|].
    eexists _, c'. split; [unfold bind; by rewrite Hrun|]. by apply Hconc.
  - unfold bind, upd_request, modify. rewrite (alter_Some _ _ a q) by done.
    match goal with |- context [<[a:=?f q]> _] => set (q1 := f q) end.
    destruct (Inv_progress _ _ c a q q1 H Hq) as [H1 S1]; [done|].
    eexists _, _. split; [reflexivity|]. split; [split; [done|]; split; [done|by left]|].
    intros Hready. by destruct (ready_draft _ _ _ Hready He).
Qed.

Lemma advance_ordered_inv c a q :
  Inv None None c → c_actions c !! a = Some q →
  ∃ r c', advance_ordered (ok_session (q_key q)) a c = Some (r, c')
          ∧ Inv None None c' ∧ steady c c'.
Proof.
  intros H Hq. destruct (decide (ra_State (q_result q) = Pending)) as [HP|HP].
  2: { unfold advance_ordered, bind, get_request, deref, gets. rewrite Hq.
       rewrite (bool_decide_false _ HP). simpl. by eexists _, c. }
  destruct (decide (ok_session (q_key q) ∈ c_sessions c)) as [Hl|Hl].
  2: { unfold advance_ordered, bind, get_request, deref, gets. rewrite Hq.
       rewrite (bool_decide_false _ Hl), orb_true_r. by eexists _, c. }
  destruct (live_session_lookup c _ (inv_sessions _ _ _ H) Hl) as [s Hs].
  destruct (inv_requests _ _ _ H a q Hq) as (_ & _ & _ & _ & Hiff & Hpd).
  destruct (decide (a ∈ c_waiting c)) as [Ha|Ha].
  { destruct (advance_queued c a q s H Hq Ha Hs) as (r & c' & Hrun & (Hi & S & _) & _). eauto. }
  destruct (Hpd Hl HP) as (Hbd & _ & _ & Hcv). assert (q_converting q = true) as Hconv by naive_solver.
  assert (Hp : q_pending q = false).
  { apply not_true_iff_false. by rewrite (Hiff Hl). }
  unfold advance_ordered, bind at 1, get_request, deref at 1. rewrite Hq.
  unfold bind at 1, gets. rewrite (bool_decide_true _ HP), (bool_decide_true _ Hl). simpl.
  pose proof Hs as [_ Hh]%live_session_Some.
  unfold bind at 1, get_session, deref at 1. rewrite Hh.
  destruct (activeLocked s ;? _) as [err|]; [by eexists _, c|]. rewrite Hconv.
  unfold bind at 1, upd_request, modify. rewrite (alter_Some _ _ a q) by done.
  assert (Inv (Some a) None c) as H0 by (eapply Inv_weaken; eauto).
  set (c1 := set_c_actions _ c).
  assert (Inv (Some a) None c1) as H1.
  { eapply (Inv_set_request _ _ c a q); try done. intros _. simpl. auto. }
  assert (S1 : steady c c1).
  { apply steady_updates; simpl; try done; try lia; [by left|right]. by eexists a, q, _. }
  destruct (start_inv c1 a (set_q_converting false q) s) as (c' & Hrun & Hi & S'); try done.
  { apply lookup_insert_eq. }
  eexists _, c'. unfold bind. rewrite Hrun. split; [reflexivity|]. split; [done|by etrans].
Qed.

(** A callback lets the transition run or not; the invariant does not care. *)
Lemma run_order_inv {A} (v : verdict) (m : C (result A)) (c : coordinator) (P : coordinator → Prop) :
  P c → (∃ r c', m c = Some (r, c') ∧ P c') →
  ∃ r c', run_order v m c = Some (r, c') ∧ P c'.
Proof.
  intros Hc (r & c' & Hrun & HP). destruct v; simpl; unfold bind, ret; rewrite ?Hrun; eauto.
Qed.

Lemma advance_inv gate c a q :
  Inv None None c → c_actions c !! a = Some q →
  ∃ r c', advance gate a c = Some (r, c') ∧ Inv None None c' ∧ steady c c'.
Proof.
  intros H Hq. unfold advance, bind at 1, get_request, deref. rewrite Hq. unfold bind at 1, gets.
  destruct (live_session c _) as [s|]; [|by eexists _, c].
  destruct (q_order q) as [order|]; [|by eexists _, c].
  destruct (_ || _); [by eexists _, c|].
  destruct (run_order_inv (gate order) (advance_ordered (ok_session (q_key q)) a) c
    (λ c', Inv None None c' ∧ steady c c')) as (r & c' & Hrun & Hi & S); [done| |].
  { by apply advance_ordered_inv. }
  eexists _, c'. unfold bind. rewrite Hrun. by split.
Qed.

(** ** pump *)

Lemma dequeue_sublist a w : sublist (dequeue a w) w.
Proof.
  induction w as [|b w IH]; simpl; [done|]. destruct (Nat.eqb b a).
  - by apply sublist_cons.
  - by apply sublist_skip.
Qed.

(** The invariant is kept and requests only leave the queue. *)
Definition shrinks (c c' : coordinator) : Prop :=
  Inv None None c' ∧ steady c c' ∧ sublist (c_waiting c') (c_waiting c).

Lemma shrinks_refl c : Inv None None c → shrinks c c.
Proof. by split. Qed.

Lemma shrinks_trans c1 c2 c3 : shrinks c1 c2 → shrinks c2 c3 → shrinks c1 c3.
Proof.
  intros (_ & S & W) (Hi & S' & W'). split; [done|]. split; [by etrans|]. by etrans.
Qed.

Lemma turn_shrinks a c c' : turn a c c' → shrinks c c'.
Proof.
  intros (Hi & S & E). split; [done|]. split; [done|].
  destruct E as [->| ->]; [done|apply dequeue_sublist].
Qed.

Lemma unblocked_total c key commands : owners_live c → is_Some (unblocked c key commands).
Proof.
  intros Hl. induction commands as [|command commands IH]; simpl; [eauto|].
  destruct (_ && _); [done|]. destruct (conflictLocked_spec c key command Hl) as (x & -> & _).
  destruct (cf_Found x); eauto.
Qed.

Lemma readyLocked_total c q : owners_live c → is_Some (readyLocked c q).
Proof.
  intros Hl. unfold readyLocked. destruct (live_session c _) as [s|]; [|eauto].
  destruct (s_retiring s); [eauto|]. by apply unblocked_total.
Qed.

(** The queued requests that are ready, in queue order. *)
Lemma ready_requests_spec c waiting :
  owners_live c → (∀ a, a ∈ waiting → is_Some (c_actions c !! a)) →
  ∃ candidates, ready_requests c waiting = Some candidates ∧ sublist candidates waiting
    ∧ ∀ a q, a ∈ waiting → c_actions c !! a = Some q →
        a ∈ candidates ↔ readyLocked c q = Some true.
Proof.
  intros Hl. induction waiting as [|a waiting IH]; intros Hw; simpl.
  { exists []. split_and!; try done. set_solver. }
  destruct (Hw a) as [q Hq]; [set_solver|]. rewrite Hq. simpl.
  destruct (readyLocked_total c q Hl) as [b Hb]. rewrite Hb. simpl.
  destruct IH as (cands & -> & Hsub & Hiff); [set_solver|]. simpl.
  eexists; split; [reflexivity|]. split.
  { destruct b; [by apply sublist_skip|by apply sublist_cons]. }
  intros x qx [->|Hx]%elem_of_cons Hqx.
  - assert (qx = q) as -> by congruence. rewrite Hb. destruct b; [set_solver|]. split; [|done].
    intros Hin. apply (Hiff a q) in Hin; [congruence| |done].
    by eapply elem_of_submseteq, sublist_submseteq.
  - destruct b; [|by apply Hiff]. rewrite elem_of_cons, (Hiff x qx Hx Hqx).
    split; [intros [->|?]; [congruence|done]|auto].
Qed.

Lemma Inv_queue_requests fa fk c a :
  Inv fa fk c → a ∈ c_waiting c → is_Some (c_actions c !! a).
Proof.
  intros H Ha. destruct (inv_waiting _ _ _ H) as [_ Hw]. destruct (Hw a Ha) as (q & ? & _). eauto.
Qed.

(** The native ordering of a request refused one of the calls from the k-th on. *)
Definition refused (gate : gates) (k : nat) (q : request) : Prop :=
  ∃ j order e, (k ≤ j)%nat ∧ q_order q = Some order ∧ gate j order = Refuses e.

Lemma refused_mono gate k k' q : (k ≤ k')%nat → refused gate k' q → refused gate k q.
Proof. intros Hk (j & order & e & Hj & H). exists j, order, e. split; [lia|done]. Qed.

(** One candidate's turn in [pump]. *)
Lemma advance_turn gate k c a q :
  Inv None None c → a ∈ c_waiting c → c_actions c !! a = Some q →
  ∃ r c', advance (gate k) a c = Some (r, c') ∧ turn a c c'
          ∧ (readyLocked c q = Some true →
             (c' = c ∧ refused gate k q) ∨ c_waiting c' = dequeue a (c_waiting c)).
Proof.
  intros H Ha Hq. destruct (inv_waiting _ _ _ H) as [_ Hw].
  destruct (Hw a Ha) as (q' & Hq' & Hl & HP & _). simplify_eq. unfold advance, bind at 1, get_request, deref.
  rewrite Hq. unfold bind at 1, gets.
  destruct (live_session_lookup c _ (inv_sessions _ _ _ H) Hl) as [s Hs]. rewrite Hs.
  destruct (inv_requests _ _ _ H a q Hq) as (_ & _ & _ & _ & _ & Hpd).
  destruct (Hpd Hl HP) as (_ & [order Hord] & _). rewrite Hord.
  rewrite (bool_decide_true _ HP). simpl. rewrite orb_false_r.
  destruct (s_retiring s) eqn:Hret.
  { eexists _, c. split; [reflexivity|]. split; [by apply turn_refl|]. intros Hr.
    unfold readyLocked in Hr. rewrite Hs, Hret in Hr. done. }
  destruct (advance_queued c a q s H Hq Ha Hs) as (r & c' & Hrun & Ht & Hd).
  destruct (gate k order) eqn:Hg; unfold run_order, bind, ret; rewrite ?Hrun.
  - eexists _, c'. split; [reflexivity|]. eauto.
  - eexists _, c. split; [reflexivity|]. split; [by apply turn_refl|]. left. split; [done|].
    exists k, order, e. done.
  - eexists _, c'. split; [reflexivity|]. eauto.
Qed.

(** What a pass over ready candidates comes to: the context ended, the queue
    became shorter, or every candidate was refused and nothing changed. *)
Inductive passed (ctx : context) (gate : gates) (k : nat) (candidates : list reqid) (c : coordinator)
  : option nat → coordinator → Prop :=
| pass_ended j e c' : (k ≤ j)%nat → ctx j = Some e → passed ctx gate k candidates c None c'
| pass_shorter k' c' : (k ≤ k')%nat → (length (c_waiting c') < length (c_waiting c))%nat →
    passed ctx gate k candidates c (Some k') c'
| pass_refused k' : (k ≤ k')%nat →
    (∀ a q, a ∈ candidates → c_actions c !! a = Some q → refused gate k q) →
    passed ctx gate k candidates c (Some k') c.

Definition all_ready (c : coordinator) (candidates : list reqid) : Prop :=
  ∀ a q, a ∈ candidates → c_actions c !! a = Some q → readyLocked c q = Some true.

Lemma pump_next ctx gate candidates : ∀ k c next c',
  pump_candidates ctx gate k candidates c = Some (next, c') →
  match next with Some k' => (k ≤ k')%nat | None => ∃ j e, (k ≤ j)%nat ∧ ctx j = Some e end.
Proof.
  induction candidates as [|a candidates IH]; intros k c next c'; simpl; [by intros [= <- <-]|].
  destruct (ctx k) eqn:Hk; [intros [= <- <-]; eauto|]. unfold bind.
  destruct (advance (gate k) a c) as [[r c1]|]; [|done]. intros H%IH. destruct next as [k'|]; [lia|].
  destruct H as (j & e & Hj & He). exists j, e. split; [lia|done].
Qed.

Lemma pump_candidates_inv ctx gate candidates : ∀ k c,
  Inv None None c → NoDup candidates → (∀ a, a ∈ candidates → a ∈ c_waiting c) →
  ∃ next c', pump_candidates ctx gate k candidates c = Some (next, c') ∧ shrinks c c'
    ∧ (all_ready c candidates → passed ctx gate k candidates c next c').
Proof.
  induction candidates as [|a candidates IH]; intros k c H Hnd Hin; simpl.
  { eexists _, c. split; [reflexivity|]. split; [by apply shrinks_refl|]. intros _. apply pass_refused; [done|].
    intros a q Ha. by apply not_elem_of_nil in Ha. }
  apply NoDup_cons in Hnd as [Hna Hnd]. assert (Ha : a ∈ c_waiting c) by (apply Hin; set_solver).
  destruct (ctx k) eqn:Hctx.
  { eexists _, c. split; [reflexivity|]. split; [by apply shrinks_refl|]. intros _. by eapply pass_ended. }
  destruct (Inv_queue_requests _ _ _ _ H Ha) as [q Hq].
  destruct (advance_turn gate k c a q H Ha Hq) as (r & c1 & Hrun & Ht & Hd).
  pose proof Ht as (H1 & S1 & W1). destruct (inv_waiting _ _ _ H) as [Hndw _].
  destruct (IH (S k) c1 H1 Hnd) as (next & c' & Hrun' & Hs & Hlive).
  { intros b Hb. destruct W1 as [->| ->]; [|rewrite elem_of_dequeue by done];
      set_solver. }
  eexists next, c'. unfold bind. rewrite Hrun. split; [done|].
  split; [eapply shrinks_trans; [by eapply turn_shrinks|done]|].
  intros Hready. pose proof (pump_next _ _ _ _ _ _ _ Hrun') as Hnext.
  destruct (Hd (Hready a q (list_elem_of_here _ _) Hq)) as [[-> Href]|Hdeq].
  - destruct Hlive as [j e c' Hj He|k' c' Hk' Hlt|k' Hk' Hrest]; [intros ? ? ?; apply Hready; by right|..].
    + apply (pass_ended _ _ _ _ _ j e); [lia|done].
    + apply pass_shorter; [lia|done].
    + apply pass_refused; [lia|]. intros b qb [->|Hb]%elem_of_cons Hqb; [by simplify_eq|].
      eapply refused_mono; [|by eapply Hrest]. lia.
  - destruct Hs as (_ & _ & Hsub). apply sublist_length in Hsub. pose proof (dequeue_length a _ Ha).
    unfold zlen in *. rewrite Hdeq in Hsub. destruct next as [k'|]; [apply pass_shorter; lia|].
    destruct Hnext as (j & e & Hj & He). apply (pass_ended _ _ _ _ _ j e); [lia|done].
Qed.

(** The queued requests that [pump] left ready were not let through. *)
Definition left_ready (ctx : context) (gate : gates) (k : nat) (c : coordinator) : Prop :=
  (∃ j e, (k ≤ j)%nat ∧ ctx j = Some e)
  ∨ ∀ a q, a ∈ c_waiting c → c_actions c !! a = Some q → readyLocked c q = Some true → refused gate k q.

Lemma left_ready_mono ctx gate k k' c : (k ≤ k')%nat → left_ready ctx gate k' c → left_ready ctx gate k c.
Proof.
  intros Hk [(j & e & Hj & He)|H]; [left; exists j, e; split; [lia|done]|right].
  intros a q Ha Hq Hr. eapply refused_mono; [done|by eapply H].
Qed.

Lemma pump_passes_inv ctx gate passes : ∀ k c,
  Inv None None c →
  ∃ c', pump_passes passes ctx gate k c = Some (tt, c') ∧ shrinks c c'
    ∧ ((length (c_waiting c) < passes)%nat → left_ready ctx gate k c').
Proof.
  induction passes as [|passes IH]; intros k c H; simpl.
  { exists c. split; [done|]. split; [by apply shrinks_refl|]. lia. }
  unfold bind at 1 2, gets, deref.
  destruct (ready_requests_spec c (c_waiting c) (Inv_owners_live _ _ _ H)) as (cands & Hr & Hsub & Hiff).
  { intros a. by eapply Inv_queue_requests. }
  assert (Hleft : (∀ a q, a ∈ cands → c_actions c !! a = Some q → refused gate k q) → left_ready ctx gate k c).
  { intros Hall. right. intros a q Ha Hq Hq'. apply (Hall a q); [|done]. by apply (Hiff a q Ha Hq). }
  rewrite Hr. destruct cands as [|a cands].
  { exists c. split; [done|]. split; [by apply shrinks_refl|]. intros _. apply Hleft. intros b qb Hb.
    by apply not_elem_of_nil in Hb. }
  destruct (inv_waiting _ _ _ H) as [Hndw _].
  assert (Hin : ∀ b, b ∈ a :: cands → b ∈ c_waiting c).
  { intros b Hb. by eapply elem_of_submseteq, sublist_submseteq. }
  destruct (pump_candidates_inv ctx gate (a :: cands) k c H) as (next & c1 & Hrun & Hs1 & Hpass);
    [by eapply sublist_NoDup|done|].
  unfold bind at 1. rewrite Hrun.
  destruct Hpass as [j e c1 Hj He|k' c1 Hk' Hlt|k' Hk' Hall].
  { intros b qb Hb Hqb. by apply (Hiff b qb (Hin b Hb) Hqb). }
  - exists c1. split; [done|]. split; [done|]. intros _. left. eauto.
  - unfold bind, gets. rewrite (proj2 (Nat.leb_gt _ _)) by done.
    destruct (IH k' c1 (proj1 Hs1)) as (c' & Hrun' & Hs' & Hl'). exists c'. split; [done|].
    split; [by eapply shrinks_trans|]. intros Hp. eapply left_ready_mono; [done|]. apply Hl'. lia.
  - unfold bind, gets. rewrite Nat.leb_refl. exists c. split; [done|]. split; [done|]. intros _. by apply Hleft.
Qed.

Lemma pump_inv ctx gate k c :
  Inv None None c →
  ∃ c', pump ctx gate k c = Some (tt, c') ∧ shrinks c c' ∧ left_ready ctx gate k c'.
Proof.
  intros H. unfold pump, bind, gets.
  destruct (pump_passes_inv ctx gate (S (length (c_waiting c))) k c H) as (c' & Hrun & Hs & Hl).
  exists c'. split; [done|]. split; [done|]. apply Hl. lia.
Qed.

(** ** Sessions: epochs and history *)

Lemma Inv_session fa fk c sid s s' :
  Inv fa fk c → c_heap c !! sid = Some s → same_session s s' →
  s_ranges s' = s_ranges s → s_pending s' = s_pending s →
  Inv fa fk (set_c_heap (<[sid := s']> (c_heap c)) c).
Proof.
  intros H Hs Hsame Hr Hp. pose proof Hsame as (E1 & E2 & E3 & _). destruct H as [Isess Iown Iwait Ireq Icnt Ibnd Iexc Iuse Imat Inext]. split; try done.
  - by eapply sessions_ok_update.
  - intros key o Ho. destruct (Iown key o Ho) as (? & ? & ? & ? & ?).
    split; [by eapply bound_update|done].
  - by eapply requests_ok_update.
  - destruct Icnt as (C1 & C2 & C3 & Hall). split_and!; simpl; try done.
    + by rewrite (msum_session (λ s, Z.of_nat (size (s_actions s))) _ _ s) by (done || by rewrite E2).
    + by rewrite (msum_session (λ s, Z.of_nat (size (s_bindings s))) _ _ s) by (done || by rewrite E3).
    + intros sid' t [[<- <-]|[Hne Ht]]%lookup_insert_Some; [|by apply Hall].
      rewrite Hr, Hp. by apply Hall.
  - destruct Ibnd as (? & ? & ? & ? & ? & ? & Hall). split_and!; simpl; try done.
    intros sid' t [[<- <-]|[Hne Ht]]%lookup_insert_Some; [|by apply (Hall sid')].
    rewrite Hr, Hp, E1. by apply (Hall sid).
Qed.

(** A change of a session's history: the requests that leave it are settled. *)
Lemma Inv_history c sid s kept :
  Inv None None c → c_heap c !! sid = Some s →
  (∀ id a, kept !! id = Some a → s_actions s !! id = Some a) →
  (∀ id a q, s_actions s !! id = Some a → c_actions c !! a = Some q →
             ra_State (q_result q) = Pending → kept !! id = Some a) →
  Inv None None
    (set_c_requests (c_requests c - (Z.of_nat (size (s_actions s)) - Z.of_nat (size kept)))
       (set_c_heap (<[sid := set_s_actions kept s]> (c_heap c)) c)).
Proof.
  intros H Hs Hsub Hkeep. assert (Hsize : (size kept ≤ size (s_actions s))%nat).
  { apply map_subseteq_size, map_subseteq_spec. exact Hsub. }
  assert (Hbd : ∀ k, bound c k → bound (set_c_heap (<[sid := set_s_actions kept s]> (c_heap c)) c) k).
  { intros k. by apply bound_update with s. }
  destruct H as [Isess Iown Iwait Ireq Icnt Ibnd Iexc Iuse Imat Inext]. split; try done.
  - destruct Isess as (H1 & H2 & H3). split_and!.
    + intros sid' Hl. simpl in *. apply lookup_insert_is_Some. destruct (decide (sid = sid')); auto.
    + intros sid' t. simpl. intros [[<- <-]|[Hne Ht]]%lookup_insert_Some; [|by apply H2].
      destruct (H2 sid s Hs) as (? & ? & He & ? & ? & ? & ? & ? & ?).
      assert (He' : s_retired s = true → s_bindings s = ∅ ∧ kept = ∅).
      { intros Hr. destruct (He Hr) as [? E]. split; [done|]. apply map_empty. intros id.
        destruct (kept !! id) as [a|] eqn:Hk; [|done]. apply Hsub in Hk. by rewrite E in Hk. }
      unfold session_ok. simpl. do 6 (split; [done|]). split; [lia|done].
    + intros sid' t id a. simpl. intros [[<- <-]|[Hne Ht]]%lookup_insert_Some; [|by apply H3].
      simpl. intros Hk%Hsub. by apply (H3 sid s).
  - intros key o Ho. destruct (Iown key o Ho) as (? & ? & ? & ? & ?).
    split; [by apply Hbd|done].
  - intros a q Hq. destruct (Ireq a q Hq) as (? & ? & ? & ? & ? & HP).
    split_and!; try done; simpl.
    + apply lookup_insert_is_Some. destruct (decide (sid = ok_session (q_key q))); auto.
    + intros Hl Hp. destruct (HP Hl Hp) as (? & ? & (t & Ht & Ha) & ?). split_and!; auto.
      { by apply Hbd. }
      destruct (decide (sid = ok_session (q_key q))) as [->|Hne].
      * rewrite lookup_insert_eq. simplify_eq. eexists. split; [done|]. simpl. eauto.
      * rewrite lookup_insert_ne by done. eauto.
  - destruct Icnt as (C1 & C2 & C3 & Hall). split_and!; simpl; try done.
    + rewrite (msum_insert_Some _ _ _ s) by done. simpl. lia.
    + rewrite (msum_session (λ s, Z.of_nat (size (s_bindings s))) _ _ s) by done. done.
    + intros sid' t [[<- <-]|[Hne Ht]]%lookup_insert_Some; [|by apply Hall]. by apply (Hall sid s).
  - destruct Ibnd as (? & ? & ? & ? & ? & ? & Hall). split_and!; simpl; try done; [lia|].
    intros sid' t [[<- <-]|[Hne Ht]]%lookup_insert_Some; [|by apply (Hall sid')].
    by apply (Hall sid s).
Qed.

Lemma kept_actions_Some c s now id a :
  kept_actions c s now !! id = Some a ↔
  s_actions s !! id = Some a ∧ keeps_receipt c s now a = true.
Proof. unfold kept_actions. by rewrite map_lookup_filter_Some. Qed.

(** History sections change only sessions' epochs and receipts, and the clock. *)
Definition aged (c c' : coordinator) : Prop :=
  c_config c' = c_config c ∧ c_sessions c' = c_sessions c ∧ c_owners c' = c_owners c
  ∧ c_actions c' = c_actions c ∧ c_waiting c' = c_waiting c ∧ c_nextRequest c' = c_nextRequest c
  ∧ ∀ sid s, c_heap c !! sid = Some s →
      ∃ s', c_heap c' !! sid = Some s' ∧ s_options s' = s_options s
            ∧ s_bindings s' = s_bindings s ∧ s_retired s' = s_retired s
            ∧ s_retiring s' = s_retiring s
            ∧ ∀ id a, s_actions s' !! id = Some a → s_actions s !! id = Some a.

#[global] Instance aged_reflexive : Reflexive aged.
Proof. intros c. split_and!; try done. intros sid s Hs. exists s. by split_and!. Qed.
#[global] Instance aged_transitive : Transitive aged.
Proof.
  intros c1 c2 c3 (? & ? & ? & ? & ? & ? & A) (? & ? & ? & ? & ? & ? & B).
  split_and!; [congruence..|]. intros sid s Hs. destruct (A sid s Hs) as (s' & Hs' & ? & ? & ? & ? & ?).
  destruct (B sid s' Hs') as (s'' & ? & ? & ? & ? & ? & ?). exists s''. split_and!; try congruence. auto.
Qed.

Lemma pruneHistory_inv sid now c :
  Inv None None c → is_Some (c_heap c !! sid) →
  ∃ c', pruneHistoryLocked sid now c = Some (tt, c') ∧ Inv None None c' ∧ aged c c'.
Proof.
  intros H [s Hs]. unfold pruneHistoryLocked, bind, get_session, deref, gets, upd_session, modify.
  rewrite Hs, (alter_Some _ _ _ _ Hs). eexists. split; [reflexivity|]. split.
  - refine (Inv_history c sid s (kept_actions c s now) H Hs _ _).
    + intros id a [? _]%kept_actions_Some. done.
    + intros id a q Ha Hq HP. apply kept_actions_Some. split; [done|].
      unfold keeps_receipt, expired_receipt. rewrite Hq, (bool_decide_true _ HP). simpl.
      by rewrite andb_false_r.
  - split_and!; try done. intros sid' s' Hs'. simpl. destruct (decide (sid = sid')) as [->|Hne].
    + rewrite lookup_insert_eq. simplify_eq. eexists. split_and!; try done.
      intros id a [? _]%kept_actions_Some. done.
    + rewrite lookup_insert_ne by done. exists s'. by split_and!.
Qed.

Lemma advanceLocked_inv sid now c :
  Inv None None c → is_Some (c_heap c !! sid) →
  ∃ r c', advanceLocked sid now c = Some (r, c') ∧ Inv None None c' ∧ aged c c'.
Proof.
  intros H Hs. unfold advanceLocked, bind at 1, get_session, deref.
  destruct Hs as [s Hs]. rewrite Hs. destruct (negb _).
  - destruct (_ =? _); [by eexists _, c|].
    unfold bind at 1, upd_session, modify. rewrite (alter_Some _ _ _ _ Hs).
    set (s1 := set_s_epochUntil _ _). set (c1 := set_c_heap _ c).
    assert (Inv None None c1) as H1 by (by eapply Inv_session).
    assert (aged c c1) as A1.
    { split_and!; try done. intros sid' s' Hs'. simpl. destruct (decide (sid = sid')) as [->|Hne].
      - rewrite lookup_insert_eq. simplify_eq. by exists s1.
      - rewrite lookup_insert_ne by done. exists s'. by split_and!. }
    destruct (pruneHistory_inv sid now c1 H1) as (c' & Hrun & Hi & A).
    { exists s1. apply lookup_insert_eq. }
    unfold bind. rewrite Hrun. eexists _, c'. split; [reflexivity|]. split; [done|by etrans].
  - destruct (pruneHistory_inv sid now c H) as (c' & Hrun & Hi & A); [by exists s|].
    unfold bind. rewrite Hrun. by eexists _, c'.
Qed.

Lemma read_clock_inv fa fk c :
  Inv fa fk c → ∃ t c', read_clock c = Some (t, c') ∧ Inv fa fk c' ∧ aged c c' ∧ steady c c'.
Proof.
  intros H. eexists _, _. split; [reflexivity|]. split; [by apply Inv_clock|]. split.
  - split_and!; try done. intros sid s Hs. exists s. by split_and!.
  - apply steady_updates; simpl; try done; try lia; by left.
Qed.

(** ** Dropping an owner's domain *)

(** Nothing of the key is held and nothing is waiting for it. *)
Definition cleared (c : coordinator) (key : ownerKey) : Prop :=
  c_owners c !! key = None
  ∧ ∀ a q, c_actions c !! a = Some q → q_key q = key → ra_State (q_result q) ≠ Pending.

(** The state of the loop of [dropLocked]; [left] are the requests to visit. *)
Definition dropping (key : ownerKey) (c0 : coordinator) (left : list reqid) (c : coordinator)
  : Prop :=
  Inv None (Some key) c ∧ steady c0 c
  ∧ (∀ o, c_owners c !! key = Some o → os_ranges o = [])
  ∧ (∀ k, k ≠ key → c_owners c !! k = c_owners c0 !! k)
  ∧ (∀ a q, c_actions c !! a = Some q → q_key q ≠ key → c_actions c0 !! a = Some q)
  ∧ (∀ a q, c_actions c !! a = Some q → q_key q = key → ra_State (q_result q) = Pending → a ∈ left)
  ∧ (∀ a, a ∈ left → is_Some (c_actions c !! a)).

Lemma drop_action_inv key c0 s a left c :
  live_session c0 (ok_session key) = Some s → dropping key c0 (a :: left) c →
  ∃ c', drop_action key a c = Some (tt, c') ∧ dropping key c0 left c'.
Proof.
  intros Hs (H & S & Hr & Hk & Ho & HP & Hin). unfold drop_action, bind, get_request, deref.
  destruct (Hin a) as [q Hq]; [set_solver|]. rewrite Hq.
  assert (Hskip : q_key q = key → ra_State (q_result q) ≠ Pending → dropping key c0 left c).
  { intros Hqk Hst. split; [done|]. split; [done|]. split_and!; try done; [|set_solver].
    intros b qb Hb Hbk HbP. destruct (decide (b = a)) as [->|]; [by simplify_eq|].
    specialize (HP b qb Hb Hbk HbP). set_solver. }
  case_bool_decide as Hkey; simpl.
  2: { exists c. split; [done|]. split; [done|]. split; [done|]. split_and!; try done; [|set_solver].
       intros b qb Hb Hbk HbP. destruct (decide (b = a)) as [->|]; [by simplify_eq|].
       specialize (HP b qb Hb Hbk HbP). set_solver. }
  destruct (steady_live _ _ _ _ S Hs) as (s' & Hs' & _).
  assert (Hcomp : ∀ st, st ≠ Pending →
            ∃ c', completeLocked a st NoRejection c = Some (tt, c') ∧ dropping key c0 left c').
  { intros st Hst. destruct (complete_inv None (Some key) c a q s' st NoRejection)
      as (c' & Hrun & Hi & S' & (x & Ea) & _ & Hother & _ & Hown); try done;
      [right; congruence|congruence|]. subst key.
    exists c'. split; [done|]. split; [|split; [by etrans|]; split_and!].
    - eapply Inv_weaken; [exact Hi|by left|]. destruct (q_pending q); auto.
    - intros o' (o & Ho' & ->)%Hown. auto.
    - intros k Hne. rewrite Hother by done. auto.
    - intros b qb. rewrite Ea. intros [[<- <-]|[Hne Hb]]%lookup_insert_Some; [done|auto].
    - intros b qb. rewrite Ea. intros [[<- <-]|[Hne Hb]]%lookup_insert_Some.
      + by rewrite completed_state.
      + intros Hbk HbP. specialize (HP b qb Hb Hbk HbP). set_solver.
    - intros b Hb. rewrite Ea. apply lookup_insert_is_Some. destruct (decide (a = b)); [auto|].
      right. split; [done|]. apply Hin. set_solver. }
  destruct (ra_State (q_result q)) eqn:Hst; try (apply Hcomp; done);
    (exists c; split; [done|]; by apply Hskip).
Qed.

Lemma drop_actions_inv key c0 s left : ∀ c,
  live_session c0 (ok_session key) = Some s → dropping key c0 left c →
  ∃ c', iter (drop_action key) left c = Some (tt, c') ∧ dropping key c0 [] c'.
Proof.
  induction left as [|a left IH]; intros c Hs Hd; simpl; [eauto|].
  destruct (drop_action_inv key c0 s a left c Hs Hd) as (c1 & Hrun & Hd1).
  unfold bind. rewrite Hrun. by apply IH.
Qed.

(** With no pending request of its own, a released owner's record goes. *)
Lemma prune_cleared key c :
  Inv None (Some key) c → (∀ o, c_owners c !! key = Some o → os_ranges o = []) →
  (∀ a q, c_actions c !! a = Some q → q_key q = key → ra_State (q_result q) ≠ Pending) →
  ∃ c', pruneOwnerLocked key c = Some (tt, c') ∧ Inv None None c' ∧ steady c c' ∧ cleared c' key
        ∧ c_actions c' = c_actions c ∧ ∀ k, k ≠ key → c_owners c' !! k = c_owners c !! k.
Proof.
  intros H Hr HP. destruct (prune_inv None (Some key) key c H) as (c' & Hrun & Hi & Hcase); [by right|].
  exists c'. split; [done|]. split; [done|].
  destruct (c_owners c !! key) as [o|] eqn:Ho.
  - assert (o = mkOwner [] 0) as ->.
    { destruct (inv_owners _ _ _ H key o Ho) as (_ & _ & _ & Hz & _). specialize (Hr o eq_refl).
      assert (queue_count c (key_is key) = 0) as Hq0.
      { unfold queue_count, zlen. destruct (List.filter _ _) as [|a l] eqn:E; [done|].
        assert (In a (a :: l)) as Hin by (by left). rewrite <- E in Hin.
        apply filter_In in Hin as [Hin Ha]. apply list_elem_of_In in Hin.
        destruct (inv_waiting _ _ _ H) as [_ Hw]. destruct (Hw a Hin) as (q & Hq & _ & HPq & _).
        rewrite Hq in Ha. apply key_is_true in Ha. by destruct (HP a q Hq Ha). }
      destruct o as [r p]. simpl in *. subst. f_equal. lia. }
    assert (c' = set_c_owners (delete key (c_owners c)) c) as ->.
    { destruct Hcase as [->|[_ ->]]; [|done].
      unfold pruneOwnerLocked, bind, gets in Hrun. rewrite Ho in Hrun. unfold modify in Hrun.
      by injection Hrun. }
    split; [apply steady_updates; simpl; try done; try lia; by left|]. split; [|split; [done|]].
    + split; [apply lookup_delete_eq|done].
    + intros k Hne. simpl. by rewrite lookup_delete_ne.
  - destruct Hcase as [->|[? _]]; [|congruence]. split; [done|]. by split_and!.
Qed.

Lemma dropLocked_inv key c s :
  Inv None None c → live_session c (ok_session key) = Some s →
  ∃ c', dropLocked key c = Some (tt, c') ∧ Inv None None c' ∧ steady c c'
        ∧ cleared c' key ∧ (∀ k, cleared c k → cleared c' k).
Proof.
  intros H Hs. unfold dropLocked. unfold bind at 1, gets at 1.
  set (release := match c_owners c !! key with
                  | Some _ => do! replaceLocked key [] in ret tt | None => ret tt end).
  assert (∃ c1, release c = Some (tt, c1) ∧ Inv None (Some key) c1 ∧ steady c c1
                ∧ (∀ o, c_owners c1 !! key = Some o → os_ranges o = [])
                ∧ (∀ k, k ≠ key → c_owners c1 !! k = c_owners c !! k)
                ∧ c_actions c1 = c_actions c) as (c1 & Hrun & H1 & S1 & Hr & Hk & Ea).
  { unfold release. destruct (c_owners c !! key) as [o|] eqn:Ho.
    - destruct (release_all_inv None None c key o s H (or_introl eq_refl) Ho Hs) as (Hrun & Hi & S).
      eexists. split; [unfold bind; by rewrite Hrun|]. split; [done|]. split; [done|]. simpl.
      split_and!; [|intros k Hne; by rewrite lookup_insert_ne|done].
      rewrite lookup_insert_eq. by intros ? [= <-].
    - exists c. split; [done|]. split; [eapply Inv_weaken; eauto|]. split; [done|]. by rewrite Ho. }
  unfold bind at 1. rewrite Hrun.
  destruct (steady_live _ _ _ _ S1 Hs) as (s1 & Hs1 & (_ & Es & _) & _).
  unfold bind at 1, get_live, deref. rewrite Hs1. pose proof Hs1 as [Hl1 Hh1]%live_session_Some.
  destruct (drop_actions_inv key c1 s1 (snd <$> map_to_list (s_actions s1)) c1 Hs1)
    as (c2 & Hrun2 & (H2 & S2 & Hr2 & Hk2 & Ho2 & HP2 & _)).
  { split; [done|]. split; [done|]. split_and!; try done.
    - intros a q Hq Hqk HP. destruct (inv_requests _ _ _ H1 a q Hq) as (_ & _ & _ & _ & _ & Hpd).
      subst key. destruct (Hpd Hl1 HP) as (_ & _ & (t & Ht & Ha) & _). simplify_eq.
      apply list_elem_of_fmap. exists (q_id q, a). split; [done|]. by apply elem_of_map_to_list.
    - intros a ([id a'] & -> & Hin%elem_of_map_to_list)%list_elem_of_fmap.
      destruct (inv_sessions _ _ _ H1) as (_ & _ & Hact).
      destruct (Hact _ _ _ _ Hh1 Hin) as (q & Hq & _). by exists q. }
  unfold bind. rewrite Hrun2.
  destruct (prune_cleared key c2) as (c3 & Hrun3 & H3 & S3 & Hcl & Ea3 & Hk3); try done.
  { intros a q Hq Hqk HP. specialize (HP2 a q Hq Hqk HP). set_solver. }
  exists c3. split; [done|]. split; [done|]. split; [etrans; [done|]; by etrans|].
  split; [done|]. intros k [Hn HP]. destruct (decide (k = key)) as [->|Hne]; [done|]. split.
  - by rewrite Hk3, Hk2, Hk by done.
  - intros a q. rewrite Ea3. intros Hq Hqk. apply (HP a q); [|done]. rewrite <- Ea.
    apply Ho2; congruence.
Qed.
