(* ===== verification/AdvisorySections.v ===== *)
(** * The advisory coordinator: admission and retirement keep the invariant

    New sessions, owners and requests, retirement of owners and sessions, use
    claims and materializations. *)

From S2P Require Import Prelude Errors Identity Ranges Extents AdvisoryState Conflicts Deadlock Coordinator Uses AdvisoryInv AdvisoryEdits AdvisoryOps.

(** ** Counting what a session has *)

(** Nothing is held or queued under a session id that is not live. *)
Lemma range_count_zero fa fk c sid :
  Inv fa fk c → sid ∉ c_sessions c → range_count (session_is sid) (c_owners c) = 0.
Proof.
  intros H Hn. apply msum_zero. intros k o Ho.
  destruct (inv_owners _ _ _ H k o Ho) as ((s & b & [Hl _]%live_session_Some & _) & _).
  unfold session_is. destruct (Z.eqb_spec (ok_session k) sid); [congruence|done].
Qed.

Lemma queue_count_zero fa fk c sid :
  Inv fa fk c → sid ∉ c_sessions c → queue_count c (session_is sid) = 0.
Proof.
  intros H Hn. unfold queue_count, zlen. destruct (List.filter _ _) as [|a l] eqn:E; [done|].
  assert (In a (a :: l)) as Hin by (by left). rewrite <- E in Hin.
  apply filter_In in Hin as [Hin Ha]. apply list_elem_of_In in Hin.
  destruct (inv_waiting _ _ _ H) as [_ Hw]. destruct (Hw a Hin) as (q & Hq & Hl & _).
  rewrite Hq in Ha. unfold session_is in Ha. bool_prop. congruence.
Qed.

(** ** New sessions and owners *)

Lemma Inv_new_session c s :
  Inv None None c → FileSessionOptions_Check (s_options s) = None →
  s_actions s = ∅ → s_bindings s = ∅ → s_owners s = 0 → s_ranges s = 0 → s_pending s = 0 →
  s_retired s = false → s_nextOwner s = 0 → c_nextSession c ≠ MaxUint64 →
  Z.of_nat (size (c_sessions c)) < cfg_MaxSessions (c_config c) →
  let sid := c_nextSession c + 1 in
  Inv None None (set_c_sessions ({[sid]} ∪ c_sessions c)
                   (set_c_heap (<[sid := s]> (c_heap c)) (set_c_nextSession sid c))).
Proof.
  intros H Hopt E1 E2 E3 E4 E5 E6 E7 Hnext Hroom sid.
  pose proof H as [Isess Iown Iwait Ireq Icnt Ibnd Iexc Iuse Imat Inext].
  destruct Isess as (S1 & S2 & S3).
  assert (Hnew : c_heap c !! sid = None).
  { destruct (c_heap c !! sid) as [t|] eqn:E; [|done]. destruct (S2 _ _ E) as (? & _). lia. }
  assert (Hnot : sid ∉ c_sessions c).
  { intros Hl. destruct (S1 _ Hl) as [t Ht]. congruence. }
  set (c' := set_c_sessions _ _).
  assert (Hlive : ∀ x t, live_session c x = Some t → live_session c' x = Some t).
  { intros x t [Hl Ht]%live_session_Some. apply live_session_Some. simpl. split; [set_solver|].
    rewrite lookup_insert_ne; [done|]. congruence. }
  assert (Hbound : ∀ k, bound c k → bound c' k).
  { intros k (t & b & Ht & ?). exists t, b. eauto. }
  assert (Hopts : 0 < fso_MaxLockOwners (s_options s) ∧ 0 < fso_MaxLockActions (s_options s)
                  ∧ 0 < fso_MaxLockRanges (s_options s) ∧ 0 < fso_MaxPendingLocks (s_options s)
                  ∧ 0 <= fso_MaxWaiters (s_options s)).
  { unfold FileSessionOptions_Check in Hopt. destruct (_ || _) in Hopt; [done|].
    destruct (_ || _) eqn:E in Hopt; [done|]. bool_prop. lia. }
  unfold is_u64 in Inext. split; try done; [..|simpl; unfold is_u64, sid; lia].
  - split_and!.
    + intros x Hx. simpl in *. apply lookup_insert_is_Some.
      destruct (decide (sid = x)); [auto|]. right. split; [done|]. apply S1. set_solver.
    + intros x t. simpl. intros [[<- <-]|[Hne Ht]]%lookup_insert_Some.
      * unfold session_ok. simpl. rewrite E1, E2, E3, E6, E7, !map_size_empty.
        split; [lia|]. split; [set_solver|]. split_and!; try done; simpl; lia.
      * destruct (S2 _ _ Ht) as (? & ? & ?). unfold session_ok. simpl.
        split; [lia|]. split; [set_solver|done].
    + intros x t id a. simpl. intros [[<- <-]|[Hne Ht]]%lookup_insert_Some; [by rewrite E1|eauto].
  - intros k o Ho. destruct (Iown k o Ho) as (? & ?). split; [auto|done].
  - destruct Iwait as [? Hw]. split; [done|]. intros a Ha.
    destruct (Hw a Ha) as (q & ? & ? & ? & ? & ?). exists q. split_and!; try done. simpl. set_solver.
  - intros a q Hq. destruct (Ireq a q Hq) as (? & ? & ? & Hh & Hp & HP).
    assert (ok_session (q_key q) ≠ sid) as Hne.
    { intros E. rewrite E, Hnew in Hh. by destruct Hh. }
    assert (Hback : ok_session (q_key q) ∈ c_sessions c' → ok_session (q_key q) ∈ c_sessions c)
      by (simpl; set_solver).
    split_and!; try done; simpl; [|auto|].
    { apply lookup_insert_is_Some. auto. }
    intros Hl Hst. destruct (HP (Hback Hl) Hst) as (? & ? & (t & Ht & ?) & ?).
    split_and!; auto. exists t. by rewrite lookup_insert_ne.
  - destruct Icnt as (? & C2 & C3 & Hall). split_and!; simpl; try done.
    + rewrite msum_insert by done. rewrite E1, map_size_empty. done.
    + rewrite msum_insert by done. rewrite E2, map_size_empty. done.
    + intros x t. intros [[<- <-]|[Hne Ht]]%lookup_insert_Some; [|by apply Hall].
      rewrite E4, E5. split; symmetry; [exact (range_count_zero _ _ c sid H Hnot)|exact (queue_count_zero _ _ c sid H Hnot)].
  - destruct Ibnd as (? & ? & ? & ? & ? & ? & Hall). split_and!; simpl; try done.
    + rewrite size_union by set_solver. rewrite size_singleton. lia.
    + intros x t. intros [[<- <-]|[Hne Ht]]%lookup_insert_Some; [|by apply (Hall x)].
      rewrite E4, E5. lia.
Qed.


(** A session's registrations change; the keys still in use stay bound. *)
Lemma Inv_bindings c sid s s' n :
  Inv None None c → c_heap c !! sid = Some s →
  s_options s' = s_options s → s_actions s' = s_actions s → s_retired s' = s_retired s →
  s_ranges s' = s_ranges s → s_pending s' = s_pending s → sid ∈ c_sessions c →
  is_u64 (s_nextOwner s') → (∀ o b, s_bindings s' !! o = Some b → 1 <= o <= s_nextOwner s') →
  s_owners s' = Z.of_nat (size (s_bindings s')) →
  Z.of_nat (size (s_bindings s')) <= fso_MaxLockOwners (s_options s) →
  n = c_registeredOwners c + Z.of_nat (size (s_bindings s')) - Z.of_nat (size (s_bindings s)) →
  n + Z.of_nat (size (c_uses c)) <= cfg_MaxOwners (c_config c) →
  (∀ k o, c_owners c !! k = Some o → ok_session k = sid →
     s_bindings s' !! ok_owner k = s_bindings s !! ok_owner k) →
  (∀ a q, c_actions c !! a = Some q → ok_session (q_key q) = sid →
     ra_State (q_result q) = Pending →
     s_bindings s' !! ok_owner (q_key q) = s_bindings s !! ok_owner (q_key q)) →
  Inv None None (set_c_registeredOwners n (set_c_heap (<[sid := s']> (c_heap c)) c)).
Proof.
  intros H Hs E1 E2 E3 E4 E5 Hl B0 B1 B2 B3 -> Bmax Hown Hreq.
  destruct H as [Isess Iown Iwait Ireq Icnt Ibnd Iexc Iuse Imat Inext].
  destruct Isess as (S1 & S2 & S3). set (c' := set_c_registeredOwners _ _).
  assert (Hbound : ∀ k, bound c k →
            (ok_session k = sid → s_bindings s' !! ok_owner k = s_bindings s !! ok_owner k) →
            bound c' k).
  { intros k (t & b & [Hlk Ht]%live_session_Some & Hb & Hn) Hsame.
    destruct (decide (sid = ok_session k)) as [E|Hne].
    - subst sid. exists s', b. split; [|simplify_eq; by rewrite Hsame].
      apply live_session_Some. simpl. by rewrite lookup_insert_eq.
    - exists t, b. split; [|done]. apply live_session_Some. simpl. by rewrite lookup_insert_ne. }
  split; try done.
  - split_and!.
    + intros x Hx. simpl in *. apply lookup_insert_is_Some. destruct (decide (sid = x)); auto.
    + intros x t. simpl. intros [[<- <-]|[Hne Ht]]%lookup_insert_Some; [|by apply S2].
      destruct (S2 _ _ Hs) as (? & Hr & He & ? & ? & ? & ? & ? & ?). unfold session_ok.
      rewrite E1, E2, E3. do 2 (split; [done|]). split; [|done].
      intros Hret. by apply Hr in Hret.
    + intros x t id a. simpl. intros [[<- <-]|[Hne Ht]]%lookup_insert_Some; [|by apply S3].
      rewrite E2. by apply S3.
  - intros k o Ho. destruct (Iown k o Ho) as (? & ?). split; [|done]. apply Hbound; eauto.
  - intros a q Hq. destruct (Ireq a q Hq) as (? & ? & ? & Hh & Hp & HP).
    split_and!; try done; simpl.
    { apply lookup_insert_is_Some. destruct (decide (sid = ok_session (q_key q))); auto. }
    intros Hlq Hst. destruct (HP Hlq Hst) as (? & ? & (t & Ht & Ha) & ?).
    split_and!; auto; [apply Hbound; eauto|].
    destruct (decide (sid = ok_session (q_key q))) as [E|Hne].
    + subst sid. rewrite lookup_insert_eq. exists s'. simplify_eq. by rewrite E2.
    + rewrite lookup_insert_ne by done. eauto.
  - destruct Icnt as (? & C2 & C3 & Hall). split_and!; simpl; try done.
    + by rewrite (msum_session (λ s, Z.of_nat (size (s_actions s))) _ _ s) by (done || by rewrite E2).
    + rewrite (msum_insert_Some _ _ _ s) by done. lia.
    + intros x t. intros [[<- <-]|[Hne Ht]]%lookup_insert_Some; [|by apply Hall].
      rewrite E4, E5. by apply Hall.
  - destruct Ibnd as (? & ? & ? & ? & ? & ? & Hall). split_and!; simpl; try done.
    intros x t. intros [[<- <-]|[Hne Ht]]%lookup_insert_Some; [|by apply (Hall x)].
    rewrite E1, E4, E5. by apply (Hall sid).
Qed.

Lemma Inv_heap_bindings fa fk c sid s o :
  Inv fa fk c → c_heap c !! sid = Some s → s_nextOwner s < o → s_bindings s !! o = None.
Proof.
  intros H Hs Ho. destruct (inv_sessions _ _ _ H) as (_ & S2 & _).
  destruct (S2 _ _ Hs) as (_ & _ & _ & Hb & _).
  destruct (s_bindings s !! o) as [b|] eqn:E; [|done]. specialize (Hb _ _ E). lia.
Qed.

Lemma NewSession_inv options fence c :
  Inv None None c → ∃ r c', NewSession options fence c = Some (r, c') ∧ Inv None None c'.
Proof.
  intros H. unfold NewSession. destruct (FileSessionOptions_Check options) eqn:Hopt; [by eexists _, c|].
  destruct fence; simpl; [|by eexists _, c]. unfold bind at 1, gets at 1.
  destruct (_ || _) eqn:E; [by eexists _, c|]. bool_prop.
  unfold bind, modify, read_clock, bind, gets, modify, ret. simpl.
  eexists _, _. split; [reflexivity|].
  apply (Inv_clock _ _ _ (S (c_reads c))) in H.
  refine (Inv_new_session (set_c_reads (S (c_reads c)) c) _ H _ _ _ _ _ _ _ _ _ _); done.
Qed.

Lemma NewOwner_inv ctx sid node scope options c :
  Inv None None c → is_Some (c_heap c !! sid) →
  ∃ r c', NewOwner ctx sid node scope options c = Some (r, c') ∧ Inv None None c'.
Proof.
  intros H [s Hs]. unfold NewOwner. destruct (_ ;? _); [by eexists _, c|].
  unfold bind at 1, get_session, deref. rewrite Hs.
  destruct (activeLocked s) eqn:Hact; [by eexists _, c|]. unfold bind at 1, gets at 1.
  destruct (_ || _) eqn:E; [by eexists _, c|]. bool_prop.
  unfold bind, upd_session, modify, ret. rewrite (alter_Some _ _ _ _ Hs).
  eexists _, _. split; [reflexivity|].
  pose proof (active_live c sid s (inv_sessions _ _ _ H) Hs Hact) as [Hl _]%live_session_Some.
  pose proof (Inv_heap_bindings _ _ c sid s (s_nextOwner s + 1) H Hs) as Hnew.
  destruct (inv_sessions _ _ _ H) as (_ & S2 & _).
  destruct (S2 _ _ Hs) as (_ & _ & _ & Hb & Hown & Hmax & _ & _ & Hu). unfold is_u64 in Hu.
  assert (Hsize : ∀ b, size (<[s_nextOwner s + 1 := b]> (s_bindings s)) = S (size (s_bindings s))).
  { intros b. apply map_size_insert_None. apply Hnew. lia. }
  refine (Inv_bindings c sid s _ _ H Hs _ _ _ _ _ Hl _ _ _ _ _ _ _ _); try done; simpl.
  - unfold is_u64. lia.
  - intros o b. intros [[<- <-]|[Hne Ho]]%lookup_insert_Some; [lia|specialize (Hb _ _ Ho); lia].
  - rewrite Hsize. lia.
  - rewrite Hsize. lia.
  - rewrite Hsize. lia.
  - unfold id in *. lia.
  - intros k o Hk Hsid. apply lookup_insert_ne. intros E'.
    destruct (inv_owners _ _ _ H k o Hk) as ((t & b & [_ Ht]%live_session_Some & Hbt & _) & _).
    simplify_eq. rewrite <- E', Hnew in Hbt; [done|lia].
  - intros a q Hq Hsid HP. apply lookup_insert_ne. intros E'. subst sid.
    destruct (inv_requests _ _ _ H a q Hq) as (_ & _ & _ & _ & _ & Hpd).
    destruct (Hpd Hl HP) as ((t & b & [_ Ht]%live_session_Some & Hbt & _) & _).
    simplify_eq. rewrite <- E', Hnew in Hbt; [done|lia].
Qed.

(** ** Admission of a request *)

Lemma admit_inv c sid s q :
  Inv None None c → live_session c sid = Some s →
  ok_session (q_key q) = sid → bound c (q_key q) →
  batch_ok (c_config c) (ok_domain (q_key q)) (q_commands q) →
  length (q_released q) = length (q_commands q) →
  q_pending q = false → ra_State (q_result q) = Pending → is_Some (q_order q) →
  s_actions s !! q_id q = None →
  Z.of_nat (size (s_actions s)) < fso_MaxLockActions (s_options s) →
  c_requests c < cfg_MaxRequests (c_config c) →
  ∃ c', admit_request sid q c = Some (c_nextRequest c, c') ∧ Inv (Some (c_nextRequest c)) None c'
        ∧ c_actions c' = <[c_nextRequest c := q]> (c_actions c)
        ∧ (∃ s', live_session c' sid = Some s' ∧ s_options s' = s_options s)
        ∧ c_config c' = c_config c ∧ c_sessions c' = c_sessions c.
Proof.
  intros H Hs Hsid Hbd Hb Hlen Hp HP Hord Hnew Hsize Hmax. pose proof Hs as [Hl Hh]%live_session_Some.
  set (a := c_nextRequest c) in *.
  unfold admit_request, bind, gets, modify, upd_session, ret. simpl.
  rewrite (alter_Some _ _ _ _ Hh). fold a. eexists. split; [reflexivity|].
  set (s' := set_s_actions (<[q_id q := a]> (s_actions s)) s). set (c' := set_c_requests _ _).
  destruct H as [Isess Iown Iwait Ireq Icnt Ibnd Iexc Iuse Imat Inext].
  destruct Isess as (S1 & S2 & S3).
  assert (Hfresh : c_actions c !! a = None).
  { destruct (c_actions c !! a) as [qa|] eqn:E; [|done].
    destruct (Ireq _ _ E) as (Hlt & _). unfold a in Hlt. lia. }
  assert (Hnotw : a ∉ c_waiting c).
  { intros Ha. destruct Iwait as [_ Hw]. destruct (Hw a Ha) as (qa & ? & _). congruence. }
  assert (Hbound : ∀ k, bound c k → bound c' k).
  { intros k Hk. exact (bound_update c sid s s' k Hh eq_refl Hk). }
  assert (Hlook : ∀ b qb, c_actions c !! b = Some qb → c_actions c' !! b = Some qb).
  { intros b qb Hqb. simpl. rewrite lookup_insert_ne; [done|]. congruence. }
  assert (Hcnt : ∀ p, queue_count c' p = queue_count c p).
  { intros p. unfold queue_count, zlen. do 2 f_equal. simpl. apply List.filter_ext_in.
    intros b Hin%list_elem_of_In. rewrite lookup_insert_ne; [done|]. congruence. }
  split; [|split_and!; try done].
  2: { exists s'. split; [|done]. apply live_session_Some. simpl. by rewrite lookup_insert_eq. }
  split; try done.
  - split_and!.
    + intros x Hx. simpl in *. apply lookup_insert_is_Some. destruct (decide (sid = x)); auto.
    + intros x t. simpl. intros [[<- <-]|[Hne Ht]]%lookup_insert_Some; [|by apply S2].
      destruct (S2 _ _ Hh) as (? & Hr & He & ? & ? & ? & ? & ? & ?).
      unfold session_ok, s'. simpl. do 2 (split; [done|]).
      split; [intros Hret; by apply Hr in Hret|]. do 3 (split; [done|]). split; [|done].
      rewrite map_size_insert_None by done. lia.
    + intros x t id b. simpl. intros [[<- <-]|[Hne Ht]]%lookup_insert_Some.
      * simpl. intros [[<- <-]|[Hne Hb']]%lookup_insert_Some.
        { exists q. by rewrite lookup_insert_eq. }
        { destruct (S3 _ _ _ _ Hh Hb') as (qb & Hqb & ?). exists qb. split; [|done].
          by apply Hlook. }
      * intros Hb'. destruct (S3 _ _ _ _ Ht Hb') as (qb & Hqb & ?). exists qb. split; [|done].
        by apply Hlook.
  - intros k o Ho. destruct (Iown k o Ho) as (? & ? & ? & Hpend & ?).
    split; [auto|]. by rewrite Hcnt.
  - destruct Iwait as [? Hw]. split; [done|]. intros b Hb'.
    destruct (Hw b Hb') as (qb & ? & ?). exists qb. split; [|done]. by apply Hlook.
  - intros b qb. simpl. intros [[<- <-]|[Hne Hqb]]%lookup_insert_Some.
    + split_and!; try done; simpl.
      * unfold a. lia.
      * rewrite Hsid, lookup_insert_eq. eauto.
      * intros _. rewrite Hp. split; [done|]. done.
      * intros _ _. split_and!; auto. rewrite Hsid, lookup_insert_eq. eexists. split; [done|].
        simpl. apply lookup_insert_eq.
    + destruct (Ireq _ _ Hqb) as (Hlt & ? & ? & Hhq & Hpq & HPq). split_and!; try done; simpl.
      * lia.
      * apply lookup_insert_is_Some. destruct (decide (sid = ok_session (q_key qb))); auto.
      * intros Hlq Hst. destruct (HPq Hlq Hst) as (? & ? & (t & Ht & Hact) & ?).
        split_and!; auto; [|naive_solver].
        destruct (decide (sid = ok_session (q_key qb))) as [->|Hne'].
        { rewrite lookup_insert_eq. eexists. split; [done|]. simplify_eq. simpl.
          rewrite lookup_insert_ne; [done|]. intros E. rewrite <- E in Hact. congruence. }
        { rewrite lookup_insert_ne by done. eauto. }
  - destruct Icnt as (? & C2 & C3 & Hall). split_and!; try done.
    + simpl. rewrite (msum_insert_Some _ _ _ s) by done. unfold s'. simpl.
      rewrite map_size_insert_None by done. lia.
    + simpl. by rewrite (msum_session (λ s, Z.of_nat (size (s_bindings s))) _ _ s) by done.
    + intros x t Ht. rewrite Hcnt. simpl in Ht.
      apply lookup_insert_Some in Ht as [[<- <-]|[Hne Ht]]; [|by apply Hall]. by apply (Hall sid s).
  - destruct Ibnd as (? & ? & ? & ? & ? & ? & Hall). split_and!; simpl; try done; [lia|].
    intros x t. intros [[<- <-]|[Hne Ht]]%lookup_insert_Some; [|by apply (Hall x)].
    by apply (Hall sid s).
Qed.

Lemma aged_heap c c' sid s :
  aged c c' → c_heap c !! sid = Some s → is_Some (c_heap c' !! sid).
Proof. intros (_ & _ & _ & _ & _ & _ & A) Hs. destruct (A _ _ Hs) as (s' & -> & _). eauto. Qed.

Lemma prune_all_inv now c sids :
  Inv None None c → (∀ sid, sid ∈ sids → is_Some (c_heap c !! sid)) →
  ∃ c', iter (λ sid, pruneHistoryLocked sid now) sids c = Some (tt, c')
        ∧ Inv None None c' ∧ aged c c'.
Proof.
  intros H Hin. destruct (iter_rel (λ sid, pruneHistoryLocked sid now)
    (λ c1, Inv None None c1 ∧ aged c c1) aged sids) with (s := c) as (c' & ? & [? _] & ?);
    [|done|eauto].
  intros sid c1 Hsid [H1 A1]. destruct (Hin sid Hsid) as [s Hs].
  destruct (pruneHistory_inv sid now c1 H1) as (c2 & ? & ? & ?); [by eapply aged_heap|].
  exists c2. split; [done|]. split; [split; [done|by etrans]|done].
Qed.

Lemma aged_live c c' sid s :
  aged c c' → live_session c sid = Some s →
  ∃ s', live_session c' sid = Some s' ∧ s_bindings s' = s_bindings s
        ∧ ∀ id a, s_actions s' !! id = Some a → s_actions s !! id = Some a.
Proof.
  intros (_ & E & _ & _ & _ & _ & A) [Hl Hs]%live_session_Some.
  destruct (A _ _ Hs) as (s' & ? & ? & ? & ? & ? & ?). exists s'. split; [|done].
  apply live_session_Some. by rewrite E.
Qed.

Lemma aged_bound c c' k : aged c c' → bound c k → bound c' k.
Proof.
  intros A (s & b & Hs & Hb & Hn). destruct (aged_live _ _ _ _ A Hs) as (s' & Hs' & E & _).
  exists s', b. by rewrite E.
Qed.

Lemma apply_transition_inv sid now epoch key commands id order c s :
  Inv None None c → live_session c sid = Some s → ok_session key = sid → bound c key →
  batch_ok (c_config c) (ok_domain key) commands →
  ∃ r c', apply_transition sid now epoch key commands id order c = Some (r, c')
          ∧ Inv None None c' ∧ is_Some (c_heap c' !! sid)
          ∧ ∀ receipt a, r = Ok (receipt, a) → is_Some (c_actions c' !! a).
Proof.
  intros H Hs Hsid Hbd Hb. pose proof Hs as [Hl Hh]%live_session_Some.
  unfold apply_transition, bind at 1, get_session, deref at 1. rewrite Hh.
  destruct (s_actions s !! id) as [old|] eqn:Hold.
  { destruct (inv_sessions _ _ _ H) as (_ & _ & S3). destruct (S3 _ _ _ _ Hh Hold) as (q & Hq & _).
    unfold bind, get_request, deref. rewrite Hq.
    destruct (_ || _); eexists _, c; (split; [reflexivity|]); (split; [done|]); (split; [by exists s|]);
      intros ? ? [= _ <-]; by exists q. }
  destruct (negb _); [eexists _, c; split; [reflexivity|]; split; [done|]; split; [by exists s|done]|]. unfold bind at 1 2, gets at 1 2.
  set (prune := if cfg_MaxRequests (c_config c) <=? c_requests c then _ else _).
  assert (∃ c1, prune c = Some (tt, c1) ∧ Inv None None c1 ∧ aged c c1) as (c1 & Hrun & H1 & A1).
  { unfold prune. destruct (_ <=? _); [|by exists c]. apply prune_all_inv; [done|].
    intros x Hx. apply (inv_sessions _ _ _ H). by apply elem_of_elements. }
  unfold bind at 1. rewrite Hrun. unfold bind at 1 2, gets, get_session, deref at 1.
  destruct (aged_live _ _ _ _ A1 Hs) as (s1 & Hs1 & _ & Hact).
  pose proof Hs1 as [Hl1 Hh1]%live_session_Some. rewrite Hh1.
  destruct (_ || _) eqn:E;
    [eexists _, c1; split; [reflexivity|]; split; [done|]; split; [by exists s1|done]|].
  apply orb_false_iff in E as [Hroom Hroom']. bool_prop.
  assert (Hb1 : batch_ok (c_config c1) (ok_domain key) commands).
  { destruct A1 as (-> & _). done. }
  set (q := new_request key id epoch commands order).
  destruct (admit_inv c1 sid s1 q) as (c2 & Hrun2 & H2 & Ea & (s2 & Hs2 & _) & _);
    try done; [by eapply aged_bound|simpl; apply length_replicate| |].
  { destruct (s_actions s1 !! q_id q) eqn:E; [|done]. apply Hact in E. simpl in E. congruence. }
  unfold bind at 1. rewrite Hrun2.
  destruct (start_inv c2 (c_nextRequest c1) q s2) as (c3 & Hrun3 & H3 & S3); try done.
  { rewrite Ea. apply lookup_insert_eq. }
  { simpl. by rewrite Hsid. }
  unfold bind at 1. rewrite Hrun3.
  destruct (read_clock_inv None None c3 H3) as (t & c4 & Hrun4 & H4 & _ & S4).
  unfold bind at 1. rewrite Hrun4. destruct S3 as (_ & _ & Sh & Sa & _), S4 as (_ & _ & Sh' & Sa' & _).
  destruct (Sa (c_nextRequest c1) q) as (q3 & Hq3 & _); [rewrite Ea; apply lookup_insert_eq|].
  destruct (Sa' _ _ Hq3) as (q4 & Hq4 & _).
  pose proof Hs2 as [_ Hh2]%live_session_Some. destruct (Sh _ _ Hh2) as (s3 & Hh3 & _).
  destruct (Sh' _ _ Hh3) as (s4 & Hh4 & _).
  unfold bind, get_request, get_session, deref. rewrite Hq4, Hh4. eexists _, c4.
  split; [reflexivity|]. split; [done|]. split; [by exists s4|]. intros ? ? [= _ <-]. by exists q4.
Qed.

(** The arguments of an admitted call of [Apply]. *)
Definition apply_args (config : Config) (commands : list RangeCommand) : Prop :=
  checkCommands config commands = None ∧ Forall command_typed commands.

Lemma checkOwner_bound c sid s node owner domain :
  live_session c sid = Some s → checkOwnerLocked s node owner = None →
  bound c (session_key sid node owner domain).
Proof.
  intros Hs Hc. unfold checkOwnerLocked in Hc. destruct (s_bindings s !! owner) as [b|] eqn:Hb; [|done].
  destruct (Z.eqb_spec (ob_node b) node); [|done]. exists s, b. by split_and!.
Qed.

Lemma apply_section_inv sid node owner epoch commands id order c :
  Inv None None c → is_Some (c_heap c !! sid) → apply_args (c_config c) commands →
  ∃ r c', apply_section sid node owner epoch commands id order c = Some (r, c')
          ∧ Inv None None c' ∧ is_Some (c_heap c' !! sid)
          ∧ ∀ receipt a, r = Ok (receipt, a) → is_Some (c_actions c' !! a).
Proof.
  intros H [s Hh] [Hc Ht]. unfold apply_section, bind at 1, get_session, deref at 1. rewrite Hh.
  destruct (activeLocked s ;? _) eqn:E;
    [eexists _, c; split; [reflexivity|]; split; [done|]; split; [by exists s|done]|].
  apply orelse_None in E as [Hact Hown].
  pose proof (active_live c sid s (inv_sessions _ _ _ H) Hh Hact) as Hs.
  destruct (read_clock_inv None None c H) as (t & c1 & Hrun1 & H1 & A1 & _).
  unfold bind at 1. rewrite Hrun1. destruct (aged_live _ _ _ _ A1 Hs) as (s1 & Hs1 & _).
  pose proof Hs1 as [_ Hh1]%live_session_Some.
  destruct (advanceLocked_inv sid t c1 H1) as (r & c2 & Hrun2 & H2 & A2); [by exists s1|].
  unfold bind at 1. rewrite Hrun2.
  assert (A : aged c c2) by (by etrans). destruct (aged_live _ _ _ _ A Hs) as (s2 & Hs2 & _).
  destruct r; [eexists _, c2; split; [reflexivity|]; split; [done|];
               split; [by eapply aged_heap|done]|].
  destruct commands as [|first rest]; [done|]. unfold bind, deref. simpl head. cbn iota beta.
  apply (apply_transition_inv sid t epoch (session_key sid node owner (rc_Domain first))
           (first :: rest) id order c2 s2 H2 Hs2 eq_refl).
  - eapply aged_bound; [done|]. by eapply checkOwner_bound.
  - destruct A as (-> & _). by split_and!.
Qed.

(** ** Owners leave *)

Lemma drop_section_inv sid node owner domain c :
  Inv None None c → is_Some (c_heap c !! sid) →
  ∃ r c', drop_section sid node owner domain c = Some (r, c') ∧ Inv None None c' ∧ steady c c'.
Proof.
  intros H [s Hh]. unfold drop_section, bind at 1, get_session, deref. rewrite Hh.
  destruct (activeLocked s ;? _) eqn:E; [by eexists _, c|]. apply orelse_None in E as [Hact Hown].
  pose proof (active_live c sid s (inv_sessions _ _ _ H) Hh Hact) as Hs.
  destruct (dropLocked_inv (session_key sid node owner domain) c s H Hs) as (c' & Hrun & Hi & S & _).
  unfold bind. rewrite Hrun. by eexists _, c'.
Qed.

(** The domains of [RetireOwner], one after the other. *)
Lemma drop_domains_inv sid node owner ds : ∀ c s,
  Inv None None c → live_session c sid = Some s →
  ∃ c', iter (λ domain, dropLocked (session_key sid node owner domain)) ds c = Some (tt, c')
        ∧ Inv None None c' ∧ steady c c'
        ∧ (∀ k, cleared c k → cleared c' k)
        ∧ ∀ d, d ∈ ds → cleared c' (session_key sid node owner d).
Proof.
  induction ds as [|d ds IH]; intros c s H Hs; simpl.
  { exists c. split; [done|]. split; [done|]. split; [done|]. split; [done|]. set_solver. }
  destruct (dropLocked_inv (session_key sid node owner d) c s H Hs)
    as (c1 & Hrun & H1 & S1 & Hd & Hk).
  destruct (steady_live _ _ _ _ S1 Hs) as (s1 & Hs1 & _).
  destruct (IH c1 s1 H1 Hs1) as (c2 & Hrun2 & H2 & S2 & Hk2 & Hd2).
  exists c2. unfold bind. rewrite Hrun. split; [done|]. split; [done|]. split; [by etrans|].
  split; [auto|]. intros d' [->|Hd']%elem_of_cons; auto.
Qed.

Lemma bound_key c sid s owner b k :
  live_session c sid = Some s → s_bindings s !! owner = Some b →
  bound c k → ok_session k = sid → ok_owner k = owner → ok_node k = ob_node b.
Proof. intros Hs Hb (s' & b' & Hs' & Hb' & Hn) <- <-. by simplify_eq. Qed.

Lemma retire_owner_inv sid owner c :
  Inv None None c → is_Some (c_heap c !! sid) →
  ∃ r c', retire_owner_section sid owner c = Some (r, c') ∧ Inv None None c'.
Proof.
  intros H [s Hh]. unfold retire_owner_section, bind at 1, get_session, deref. rewrite Hh.
  destruct (_ || _); [by eexists _, c|].
  destruct (s_bindings s !! owner) as [b|] eqn:Hb; [|by eexists _, c].
  destruct (inv_sessions _ _ _ H) as (_ & S2 & _). destruct (S2 _ _ Hh) as (_ & Hr & He & _).
  assert (Hl : sid ∈ c_sessions c).
  { destruct (decide (sid ∈ c_sessions c)) as [|n]; [done|]. apply Hr in n.
    destruct (He n) as [E _]. by rewrite E in Hb. }
  assert (Hs : live_session c sid = Some s) by (by apply live_session_Some).
  destruct (drop_domains_inv sid (ob_node b) owner domains c s H Hs)
    as (c1 & Hrun & H1 & S1 & _ & Hcl).
  destruct (steady_live _ _ _ _ S1 Hs) as (s1 & Hs1 & (E1 & E2 & E3 & E4 & E5 & E6) & _).
  pose proof Hs1 as [Hl1 Hh1]%live_session_Some.
  unfold bind at 1. rewrite Hrun. unfold bind, upd_session, modify, ret.
  rewrite (alter_Some _ _ _ _ Hh1). eexists _, _. split; [reflexivity|].
  destruct (inv_sessions _ _ _ H1) as (_ & T2 & _).
  destruct (T2 _ _ Hh1) as (_ & _ & _ & Hbs & Hown & Hmax & _ & _ & Hu).
  assert (Hb1 : s_bindings s1 !! owner = Some b) by (by rewrite E3).
  pose proof (map_size_delete_Some owner (s_bindings s1) (mk_is_Some _ _ Hb1)) as Hdel.
  assert (Hpos : (0 < size (s_bindings s1))%nat).
  { destruct (size (s_bindings s1)) eqn:Ez; [|lia]. apply map_size_empty_inv in Ez.
    by rewrite Ez in Hb1. }
  pose proof (inv_bounds _ _ _ H1) as (_ & _ & _ & _ & _ & Howners & _).
  assert (Hdom : ∀ k, DomainRecord <= ok_domain k <= DomainEnforced → bound c1 k →
            ok_session k = sid → ok_owner k = owner → cleared c1 k).
  { intros k Hd Hbk Hsk Hok. pose proof (bound_key _ _ _ _ _ _ Hs1 Hb1 Hbk Hsk Hok) as Hn.
    replace k with (session_key sid (ob_node b) owner (ok_domain k)).
    - apply Hcl. unfold domains, DomainRecord, DomainWholeFile, DomainEnforced in *.
      rewrite !elem_of_cons. lia.
    - destruct k; simpl in *. by subst. }
  refine (Inv_bindings c1 sid s1 _ _ H1 Hh1 _ _ _ _ _ Hl1 _ _ _ _ _ _ _ _); try done; simpl.
  - intros o b' [_ Ho]%lookup_delete_Some. by apply (Hbs _ _ Ho).
  - lia.
  - lia.
  - lia.
  - lia.
  - intros k o Hk Hsk. apply lookup_delete_ne. intros Eo.
    destruct (inv_owners _ _ _ H1 k o Hk) as (Hbk & Hd & _).
    destruct (Hdom k Hd Hbk Hsk) as [Hn _]; [done|]. congruence.
  - intros a q Hq Hsk HP. apply lookup_delete_ne. intros Eo.
    destruct (inv_requests _ _ _ H1 a q Hq) as (_ & Hbat & _ & _ & _ & Hpd).
    rewrite Hsk in Hpd. destruct (Hpd Hl1 HP) as (Hbk & _).
    destruct (batch_commands _ _ _ Hbat) as [Hd _].
    destruct (Hdom (q_key q) Hd Hbk Hsk) as [_ Hn]; [done|]. by destruct (Hn a q Hq eq_refl).
Qed.

(** ** Queries and cancellation *)

Lemma requestLocked_inv sid owner id c :
  Inv None None c → is_Some (c_heap c !! sid) →
  ∃ r c', requestLocked sid owner id c = Some (r, c') ∧ Inv None None c' ∧ aged c c'
          ∧ ∀ a, r = Ok a → ∃ q s, c_actions c' !! a = Some q ∧ live_session c' sid = Some s
                                   ∧ ok_session (q_key q) = sid ∧ s_actions s !! id = Some a.
Proof.
  intros H [s Hh]. unfold requestLocked. destruct (Epoch id) as [epoch|e]; [|by eexists _, c].
  unfold bind at 1, get_session, deref at 1. rewrite Hh.
  destruct (activeLocked s) eqn:Hact; [by eexists _, c|].
  pose proof (active_live c sid s (inv_sessions _ _ _ H) Hh Hact) as Hs.
  destruct (read_clock_inv None None c H) as (t & c1 & Hrun1 & H1 & A1 & _).
  unfold bind at 1. rewrite Hrun1. destruct (aged_live _ _ _ _ A1 Hs) as (s1 & Hs1 & _).
  pose proof Hs1 as [_ Hh1]%live_session_Some.
  destruct (advanceLocked_inv sid t c1 H1) as (r & c2 & Hrun2 & H2 & A2); [by exists s1|].
  unfold bind at 1. rewrite Hrun2. assert (A : aged c c2) by (by etrans).
  destruct r; [by eexists _, c2|]. destruct (aged_live _ _ _ _ A Hs) as (s2 & Hs2 & _).
  pose proof Hs2 as [_ Hh2]%live_session_Some.
  unfold bind at 1, deref at 1. rewrite Hh2.
  destruct (s_actions s2 !! id) as [a|] eqn:Ha; [|by eexists _, c2].
  destruct (inv_sessions _ _ _ H2) as (_ & _ & S3).
  destruct (S3 _ _ _ _ Hh2 Ha) as (q & Hq & Hid & Hsid).
  unfold bind, get_request, deref. rewrite Hq. destruct (negb _); [by eexists _, c2|].
  eexists _, c2. split; [reflexivity|]. split; [done|]. split; [done|].
  intros a' [= <-]. exists q, s2. by split_and!.
Qed.

Lemma findLocked_inv sid node owner id c :
  Inv None None c → is_Some (c_heap c !! sid) →
  ∃ r c', findLocked sid node owner id c = Some (r, c') ∧ Inv None None c' ∧ aged c c'
          ∧ ∀ a, r = Ok a → ∃ q s, c_actions c' !! a = Some q ∧ live_session c' sid = Some s
                                   ∧ ok_session (q_key q) = sid ∧ s_actions s !! id = Some a.
Proof.
  intros H Hs. destruct (requestLocked_inv sid owner id c H Hs) as (r & c' & Hrun & Hi & A & Hr).
  unfold findLocked, bind at 1. rewrite Hrun. destruct r as [a|e]; [|by eexists _, c'].
  destruct (Hr a eq_refl) as (q & s & Hq & Hs' & ?). unfold bind, get_request, deref. rewrite Hq.
  destruct (negb _); [by eexists _, c'|]. eexists _, c'. split; [reflexivity|].
  split; [done|]. split; [done|]. intros a' [= <-]. exists q, s. done.
Qed.

Lemma cancel_section_inv sid node owner id c :
  Inv None None c → is_Some (c_heap c !! sid) →
  ∃ r c', cancel_section sid node owner id c = Some (r, c') ∧ Inv None None c'.
Proof.
  intros H Hs. destruct (findLocked_inv sid node owner id c H Hs) as (r & c1 & Hrun & H1 & A & Hr).
  unfold cancel_section, bind at 1. rewrite Hrun. destruct r as [a|e]; [|by eexists _, c1].
  destruct (Hr a eq_refl) as (q & s & Hq & Hs1 & Hsid & _).
  unfold bind at 1, get_request, deref at 1. rewrite Hq.
  set (settle := if bool_decide _ then _ else _).
  assert (∃ c2, settle c1 = Some (tt, c2) ∧ Inv None None c2 ∧ steady c1 c2)
    as (c2 & Hrun2 & H2 & S2).
  { unfold settle. case_bool_decide; [|by exists c1].
    destruct (complete_inv None None c1 a q s Cancelled NoRejection) as (c2 & ? & Hi & ? & _);
      try done; [by left|by rewrite Hsid|]. exists c2. by destruct (q_pending q). }
  unfold bind at 1. rewrite Hrun2. destruct (read_clock_inv None None c2 H2) as (t & c3 & Hrun3 & H3 & _ & S3).
  unfold bind at 1. rewrite Hrun3.
  assert (S : steady c1 c3) by (by etrans). destruct (steady_live _ _ _ _ S Hs1) as (s3 & Hs3 & _).
  destruct S as (_ & _ & _ & Sa & _). destruct (Sa _ _ Hq) as (q3 & Hq3 & _).
  pose proof Hs3 as [_ Hh3]%live_session_Some.
  unfold bind, get_session, deref. rewrite Hq3, Hh3. by eexists _, c3.
Qed.

(** ** Sessions leave *)

Lemma held_ranges_msum (m : gmap ownerKey ownerState) :
  held_ranges (map_to_list m) = msum (λ _ o, zlen (os_ranges o)) m.
Proof.
  unfold held_ranges, msum. rewrite map_fold_foldr. 
  induction (map_to_list m) as [|[k o] l IH]; simpl; [done|]. by rewrite IH.
Qed.

Lemma range_count_all owners :
  range_count any_key owners = msum (λ _ o, zlen (os_ranges o)) owners.
Proof. done. Qed.

(** The ranges a session holds, counted over its owners only. *)
Lemma range_count_filter p owners sid :
  range_count p owners
  = range_count p (filter (of_session sid) owners)
    + range_count p (filter (λ x, ¬ of_session sid x) owners).
Proof. apply msum_filter. Qed.

Lemma range_count_other sid sid' owners :
  sid' ≠ sid →
  range_count (session_is sid') (filter (λ x, ¬ of_session sid x) owners)
  = range_count (session_is sid') owners.
Proof.
  intros Hne. rewrite (range_count_filter _ owners sid).
  assert (range_count (session_is sid') (filter (of_session sid) owners) = 0) as ->; [|lia].
  apply msum_zero. intros k o [_ Hs]%map_lookup_filter_Some. unfold of_session in Hs. simpl in Hs.
  unfold session_is. destruct (Z.eqb_spec (ok_session k) sid'); [congruence|done].
Qed.

(** The queue without a session's requests. *)
Lemma without_session_spec c sid waiting :
  (∀ a, a ∈ waiting → is_Some (c_actions c !! a)) →
  ∃ rest, without_session c sid waiting = Some rest ∧ sublist rest waiting
    ∧ (∀ a, a ∈ rest ↔ a ∈ waiting ∧
         ∃ q, c_actions c !! a = Some q ∧ ok_session (q_key q) ≠ sid)
    ∧ ∀ p, (∀ k, ok_session k = sid → p k = false) →
        List.filter (λ a, match c_actions c !! a with Some q => p (q_key q) | None => false end) rest
        = List.filter (λ a, match c_actions c !! a with Some q => p (q_key q) | None => false end)
                      waiting.
Proof.
  induction waiting as [|a waiting IH]; intros Hw; simpl.
  { exists []. split_and!; try done. set_solver. }
  destruct (Hw a) as [q Hq]; [set_solver|]. rewrite Hq. simpl.
  destruct IH as (rest & -> & Hsub & Hiff & Hf); [set_solver|]. simpl.
  eexists; split; [reflexivity|].
  destruct (Z.eqb_spec (ok_session (q_key q)) sid) as [Hs|Hs]; split_and!.
  - by apply sublist_cons.
  - intros x. rewrite Hiff, elem_of_cons. split; [naive_solver|].
    intros [[->|Hx] (q' & Hq' & Hne)]; [by simplify_eq|eauto].
  - intros p Hp. rewrite Hf by done. by rewrite (Hp _ Hs).
  - by apply sublist_skip.
  - intros x. rewrite !elem_of_cons, Hiff. naive_solver.
  - intros p Hp. simpl. rewrite Hq, Hf by done. done.
Qed.

Lemma without_session_actions c c2 sid waiting :
  c_actions c2 = c_actions c → without_session c2 sid waiting = without_session c sid waiting.
Proof. intros E. induction waiting as [|a waiting IH]; simpl; [done|]. by rewrite E, IH. Qed.

(** A session and what it owned are gone; the other owners and the other
    requests of the queue, in their order, stay. *)
Definition freed (sid : Z) (c c' : coordinator) : Prop :=
  c_sessions c' = c_sessions c ∖ {[sid]} ∧ c_actions c' = c_actions c
  ∧ (∀ k o, c_owners c' !! k = Some o ↔ c_owners c !! k = Some o ∧ ok_session k ≠ sid)
  ∧ sublist (c_waiting c') (c_waiting c)
  ∧ (∀ a, a ∈ c_waiting c' ↔ a ∈ c_waiting c ∧
       ∃ q, c_actions c !! a = Some q ∧ ok_session (q_key q) ≠ sid).

(** Nothing but the session's own state changed. *)
Definition retained (sid : Z) (c c' : coordinator) : Prop :=
  c_sessions c' = c_sessions c ∧ c_actions c' = c_actions c ∧ c_owners c' = c_owners c
  ∧ c_waiting c' = c_waiting c
  ∧ ∀ s, c_heap c !! sid = Some s →
      ∃ s', c_heap c' !! sid = Some s' ∧ s_retired s' = s_retired s
            ∧ s_retiring s' = s_retiring s ∧ s_bindings s' = s_bindings s
            ∧ s_actions s' = s_actions s ∧ s_retireDone s' = false.

Lemma retire_free_inv sid s c :
  Inv None None c → c_heap c !! sid = Some s →
  ∃ c', retire_free sid c = Some (tt, c') ∧ Inv None None c' ∧ freed sid c c'
        ∧ (∃ s', c_heap c' !! sid = Some s').
Proof.
  intros H Hs. unfold retire_free, bind, gets, modify, deref, get_session, upd_session. simpl.
  destruct (without_session_spec c sid (c_waiting c)) as (rest & Hrest & Hsub & Hin & Hf).
  { intros a. by eapply Inv_queue_requests. }
  rewrite (without_session_actions c) by done. rewrite Hrest. unfold deref. simpl. rewrite Hs. simpl.
  rewrite (alter_Some _ _ _ _ Hs). eexists. split; [reflexivity|].
  pose proof H as [Isess Iown Iwait Ireq Icnt Ibnd Iexc Iuse Imat Inext].
  destruct Isess as (S1 & S2 & S3).
  set (owners' := filter (λ p, ¬ of_session sid p) (c_owners c)).
  set (s' := set_s_retired _ _). set (c' := set_c_sessions _ _).
  assert (Howners : ∀ k o, owners' !! k = Some o ↔ c_owners c !! k = Some o ∧ ok_session k ≠ sid).
  { intros k o. unfold owners'. rewrite map_lookup_filter_Some. done. }
  assert (Hlive : ∀ x t, live_session c x = Some t → x ≠ sid → live_session c' x = Some t).
  { intros x t [Hl Ht]%live_session_Some Hne. apply live_session_Some. simpl.
    split; [set_solver|]. by rewrite lookup_insert_ne. }
  assert (Hbound : ∀ k, bound c k → ok_session k ≠ sid → bound c' k).
  { intros k (t & b & Ht & ?) Hne. exists t, b. eauto. }
  assert (Hcount : ∀ p, (∀ k, ok_session k = sid → p k = false) → queue_count c' p = queue_count c p).
  { intros p Hp. unfold queue_count. simpl. by rewrite Hf. }
  split; [|split; [done|simpl; rewrite lookup_insert_eq; eauto]].
  split; try done.
  - split_and!.
    + intros x. simpl. intros [Hx Hne]%elem_of_difference. apply lookup_insert_is_Some.
      destruct (decide (sid = x)); auto.
    + intros x t. simpl. intros [[<- <-]|[Hne Ht]]%lookup_insert_Some.
      * destruct (S2 _ _ Hs) as (? & ? & _ & _ & _ & ? & ? & ? & ?).
        unfold session_ok, s'. simpl. rewrite !map_size_empty.
        split; [done|]. split; [set_solver|]. split_and!; try done; lia.
      * destruct (S2 _ _ Ht) as (? & Hr & ?). unfold session_ok. simpl.
        split; [done|]. split; [|done]. rewrite Hr. set_solver.
    + intros x t id a. simpl. intros [[<- <-]|[Hne Ht]]%lookup_insert_Some; [done|by apply S3].
  - intros k o. intros [Ho Hne]%Howners. destruct (Iown k o Ho) as (? & ? & ? & Hp & ?).
    split; [auto|]. rewrite Hcount; [done|].
    intros k' Hk'. unfold key_is. apply bool_decide_eq_false. congruence.
  - destruct Iwait as [Hnd Hw]. split; [by eapply sublist_NoDup|]. intros a. simpl.
    intros [Ha (q & Hq & Hne)]%Hin. destruct (Hw a Ha) as (q' & Hq' & ? & ? & ? & [o Ho]).
    simplify_eq. exists q. split_and!; try done; [set_solver|].
    exists o. by apply Howners.
  - intros a q Hq. destruct (Ireq a q Hq) as (? & ? & ? & Hh & Hp & HP).
    split_and!; try done; simpl.
    + apply lookup_insert_is_Some. destruct (decide (sid = ok_session (q_key q))); auto.
    + intros [Hl Hne%not_elem_of_singleton]%elem_of_difference. rewrite (Hp Hl), Hin. naive_solver.
    + intros [Hl Hne%not_elem_of_singleton]%elem_of_difference Hst.
      destruct (HP Hl Hst) as (? & ? & (t & Ht & ?) & Hor). split_and!; auto.
      * exists t. by rewrite lookup_insert_ne.
      * rewrite Hin. naive_solver.
  - destruct Icnt as (C1 & C2 & C3 & Hall). split_and!; simpl.
    + rewrite C1, held_ranges_msum, (range_count_filter any_key _ sid), <- range_count_all.
      unfold owners'. lia.
    + rewrite (msum_insert_Some _ _ _ s) by done. unfold s'. simpl. rewrite map_size_empty. lia.
    + rewrite (msum_insert_Some _ _ _ s) by done. unfold s'. simpl. rewrite map_size_empty. lia.
    + intros x t. intros [[<- <-]|[Hne Ht]]%lookup_insert_Some; simpl.
      * split; symmetry.
        { apply msum_zero. intros k o [_ Hk]%Howners. unfold session_is.
          by rewrite (proj2 (Z.eqb_neq _ _)). }
        { unfold queue_count, zlen. simpl. destruct (List.filter _ rest) as [|a l] eqn:E; [done|].
          assert (In a (a :: l)) as Ha by (by left). rewrite <- E in Ha.
          apply filter_In in Ha as [Ha Hk]. apply list_elem_of_In, Hin in Ha as (_ & q & Hq & Hne).
          rewrite Hq in Hk. unfold session_is in Hk. by bool_prop. }
      * destruct (Hall _ _ Ht) as [-> ->]. unfold owners'. rewrite range_count_other by done.
        rewrite Hcount; [done|]. intros k Hk. unfold session_is. apply Z.eqb_neq. congruence.
  - destruct Ibnd as (? & ? & ? & ? & ? & ? & Hall). split_and!; simpl; try done.
    + assert (size (c_sessions c ∖ {[sid]}) ≤ size (c_sessions c))%nat; [|lia].
      apply subseteq_size. set_solver.
    + rewrite held_ranges_msum. assert (0 <= msum (λ _ o, zlen (os_ranges o))
        (filter (of_session sid) (c_owners c))); [|lia].
      apply msum_nonneg. intros. apply zlen_nonneg.
    + lia.
    + apply sublist_length in Hsub. unfold zlen in *. lia.
    + lia.
    + intros x t. intros [[<- <-]|[Hne Ht]]%lookup_insert_Some; [|by apply (Hall x)].
      destruct (S2 _ _ Hs) as (_ & _ & _ & _ & _ & _ & _ & Hopt & _). unfold s'. simpl.
      unfold FileSessionOptions_Check in Hopt. destruct (_ || _) in Hopt; [done|].
      destruct (_ || _) eqn:E in Hopt; [done|]. bool_prop. lia.
  - intros k1 o1 d1 k2 o2 d2. simpl. intros [? _]%Howners [? _]%Howners. by apply Iexc.
Qed.

Lemma retire_begin_inv ctx_err sid c :
  Inv None None c → is_Some (c_heap c !! sid) →
  ∃ r c', retire_begin ctx_err sid c = Some (r, c') ∧ Inv None None c'.
Proof.
  intros H [s Hs]. unfold retire_begin, bind at 1, get_session, deref. rewrite Hs.
  destruct (s_retired s); [by eexists _, c|]. destruct (s_retireDone s); [by eexists _, c|].
  destruct ctx_err; [by eexists _, c|]. unfold bind, upd_session, modify, ret.
  rewrite (alter_Some _ _ _ _ Hs). eexists _, _. split; [reflexivity|]. by eapply Inv_session.
Qed.

Lemma retire_finish_inv sid err c :
  Inv None None c → is_Some (c_heap c !! sid) →
  ∃ c', retire_finish sid err c = Some (tt, c') ∧ Inv None None c' ∧ is_Some (c_heap c' !! sid)
        ∧ match err with
          | None => freed sid c c'
          | Some _ => retained sid c c'
          end.
Proof.
  intros H [s Hs]. unfold retire_finish, bind at 1, upd_session at 1, modify at 1.
  rewrite (alter_Some _ _ _ _ Hs). set (c1 := set_c_heap _ c).
  assert (Inv None None c1) as H1 by (by eapply Inv_session).
  assert (Hs1 : ∃ s1, c_heap c1 !! sid = Some s1 ∧ s_retiring s1 = s_retiring s)
    by (simpl; rewrite lookup_insert_eq; eauto).
  destruct Hs1 as (s1 & Hs1 & Er). destruct err.
  - unfold bind, ret, upd_session, modify. rewrite (alter_Some _ _ _ _ Hs1).
    eexists. split; [reflexivity|]. split; [by eapply Inv_session|].
    split; [simpl; rewrite lookup_insert_eq; eauto|]. simpl in Hs1. rewrite lookup_insert_eq in Hs1.
    simplify_eq. split_and!; try done. simpl. rewrite lookup_insert_eq. intros t Ht. simplify_eq.
    eexists. split; [done|]. done.
  - destruct (retire_free_inv sid s1 c1 H1 Hs1) as (c2 & Hrun & H2 & F & (s2 & Hs2)).
    unfold bind. rewrite Hrun. unfold upd_session, modify. rewrite (alter_Some _ _ _ _ Hs2).
    eexists. split; [reflexivity|]. split; [by eapply Inv_session|].
    split; [simpl; rewrite lookup_insert_eq; eauto|exact F].
Qed.

(** ** Use claims *)

Lemma Inv_set_uses c uses :
  Inv None None c → uses_ok (set_c_uses uses c) →
  c_registeredOwners c + Z.of_nat (size uses) <= cfg_MaxOwners (c_config c) →
  Inv None None (set_c_uses uses c).
Proof.
  intros [] Hu Hb. split; try done. destruct inv_bounds as (? & ? & ? & ? & ? & _ & ?). by split_and!.
Qed.

Lemma Inv_drop_use c scope : Inv None None c → Inv None None (set_c_uses (delete scope (c_uses c)) c).
Proof.
  intros H. apply Inv_set_uses; [done| |].
  - intros a ua b ub. simpl. intros [_ Ha]%lookup_delete_Some [_ Hb]%lookup_delete_Some.
    by apply (inv_uses _ _ _ H a ua b ub).
  - pose proof (inv_bounds _ _ _ H) as (_ & _ & _ & _ & _ & Hb & _).
    assert (size (delete scope (c_uses c)) ≤ size (c_uses c))%nat; [|lia].
    apply map_subseteq_size, delete_subseteq.
Qed.

Lemma meets_comm a b : meets a b = meets b a.
Proof. unfold meets. by rewrite Z.land_comm. Qed.

Lemma clash_sym a b : clash a b = clash b a.
Proof. unfold clash. apply orb_comm. Qed.

Lemma AddUse_inv ctx node scope claim c :
  Inv None None c → ∃ r c', AddUse ctx node scope claim c = Some (r, c') ∧ Inv None None c'.
Proof.
  intros H. unfold AddUse. destruct (_ ;? _); [by eexists _, c|]. unfold bind at 1, gets.
  destruct (c_uses c !! scope) as [old|] eqn:Hold; [destruct (_ || _); by eexists _, c|].
  destruct (existsb _ _) eqn:Hex; [by eexists _, c|].
  destruct (_ <=? _) eqn:Hmax; [by eexists _, c|]. bool_prop.
  unfold bind, modify, ret. eexists _, _. split; [reflexivity|].
  assert (Hfree : ∀ b ub, c_uses c !! b = Some ub → us_node ub = node →
                          clash claim (us_claim ub) = false).
  { intros b ub Hb Hn. apply not_true_iff_false. intros Hc.
    assert (existsb (λ p : UseScope * useClaim, (us_node p.2 =? node) && clash claim (us_claim p.2))
              (map_to_list (c_uses c)) = true); [|congruence].
    apply existsb_exists. exists (b, ub). rewrite <- list_elem_of_In, elem_of_map_to_list.
    split; [done|]. simpl. by rewrite Hn, Z.eqb_refl. }
  apply Inv_set_uses; [done| |].
  - intros a ua b ub. simpl.
    intros [[<- <-]|[Hna Ha]]%lookup_insert_Some [[<- <-]|[Hnb Hb]]%lookup_insert_Some Hne Hn;
      simpl in *; [done|by eapply Hfree| |by eapply (inv_uses _ _ _ H a ua b ub)].
    rewrite clash_sym. by eapply Hfree.
  - rewrite map_size_insert_None by done. lia.
Qed.

Lemma DropUse_inv ctx node scope c :
  Inv None None c → ∃ r c', DropUse ctx node scope c = Some (r, c') ∧ Inv None None c'.
Proof.
  intros H. unfold DropUse. destruct (_ ;? _); [by eexists _, c|]. unfold bind at 1, gets.
  destruct (c_uses c !! scope) as [old|]; [|by eexists _, c].
  destruct (negb _); [by eexists _, c|]. eexists _, _. split; [reflexivity|]. by apply Inv_drop_use.
Qed.

Lemma DropUseExact_inv ctx node scope claim c :
  Inv None None c → ∃ r c', DropUseExact ctx node scope claim c = Some (r, c') ∧ Inv None None c'.
Proof.
  intros H. unfold DropUseExact. destruct (_ ;? _); [by eexists _, c|]. unfold bind at 1, gets.
  destruct (negb _); [by eexists _, c|]. eexists _, _. split; [reflexivity|]. by apply Inv_drop_use.
Qed.

(** ** Materializations *)

Lemma Inv_set_materializations fa fk c n b m h :
  Inv fa fk c →
  materializations_ok (set_c_nextReservation h (set_c_reservations m
     (set_c_materializedBytes b (set_c_materializations n c)))) →
  Inv fa fk (set_c_nextReservation h (set_c_reservations m
     (set_c_materializedBytes b (set_c_materializations n c)))).
Proof. intros [] Hm. by split. Qed.

Lemma AcquireMaterialization_inv ctx bytes c :
  Inv None None c →
  ∃ r c', AcquireMaterialization ctx bytes c = Some (r, c') ∧ Inv None None c'.
Proof.
  intros H. unfold AcquireMaterialization. destruct (ctx 0%nat); [by eexists _, c|].
  destruct (bytes <? 0) eqn:Hneg; [by eexists _, c|]. unfold bind at 1, gets.
  destruct (cfg_MaxMaterializedBytes (c_config c) <? bytes); [by eexists _, c|]. destruct (_ || _) eqn:E; [by eexists _, c|]. bool_prop.
  unfold bind, modify, ret. eexists _, _. split; [reflexivity|].
  destruct (inv_materializations _ _ _ H) as (M1 & M2 & M3 & M4 & M5).
  assert (Hnew : c_reservations c !! c_nextReservation c = None).
  { destruct (c_reservations c !! c_nextReservation c) eqn:E; [|done]. apply M3 in E. lia. }
  refine (Inv_set_materializations _ _ c _ _ _ _ H _). split_and!; simpl.
  - rewrite map_size_insert_None by done. lia.
  - rewrite msum_insert by done. lia.
  - intros h b [[<- <-]|[Hne Hh]]%lookup_insert_Some; [lia|]. apply M3 in Hh. lia.
  - lia.
  - lia.
Qed.

Lemma release_materialization_inv handle c :
  Inv None None c →
  ∃ c', release_materialization handle c = Some (tt, c') ∧ Inv None None c'.
Proof.
  intros H. unfold release_materialization, bind at 1, gets.
  destruct (c_reservations c !! handle) as [bytes|] eqn:Hh; [|by exists c].
  eexists. split; [reflexivity|].
  destruct (inv_materializations _ _ _ H) as (M1 & M2 & M3 & M4 & M5).
  destruct (M3 _ _ Hh) as [Hb _].
  refine (Inv_set_materializations _ _ c (c_materializations c - 1) (c_materializedBytes c - bytes)
            (delete handle (c_reservations c)) (c_nextReservation c) H _). split_and!; simpl.
  - assert (size (c_reservations c) ≠ 0)%nat.
    { intros E. apply map_size_empty_inv in E. by rewrite E in Hh. }
    transitivity (Z.of_nat (Nat.pred (size (c_reservations c)))); [lia|]. f_equal.
    symmetry. exact (map_size_delete_Some handle (c_reservations c) (mk_is_Some _ _ Hh)).
  - rewrite M2, (msum_delete _ _ _ _ Hh). rewrite Z.add_simpl_l. done.
  - intros h b [_ ?]%lookup_delete_Some. eauto.
  - lia.
  - lia.
Qed.
