(* ===== verification/AdvisorySteps.v ===== *)
(** * The advisory coordinator as a transition system

    The steps are the critical sections of [packages/advisory], in any order and
    interleaved between any number of callers: a call in progress is the
    sequence of its sections, and whatever other callers do may come between
    them.  A section takes the pointers its caller holds: sessions made by
    [NewSession], requests a session's history had.  The exported operations,
    run without interference, are the sequences [Coordinator] composes. *)

From stdpp Require Import relations.
From S2P Require Import Prelude Errors Identity Ranges Extents AdvisoryState Conflicts Deadlock Coordinator Uses AdvisoryInv AdvisoryEdits AdvisoryOps AdvisorySections.

(** ** Sections *)

Inductive section :=
| DoNewSession (options : FileSessionOptions) (fence : bool)
| DoNewOwner (ctx : context) (sid node : Z) (scope : UseScope) (options : OwnerOptions)
| DoOwnerBinding (ctx : context) (sid owner : Z)
| DoHistory (ctx : context) (sid : Z)
| DoCloseAdmission (ctx : context) (sid : Z) (admission : option (Z → option error))
| DoConflict (sid node owner : Z) (command : RangeCommand)
| DoApply (sid node owner epoch : Z) (commands : list RangeCommand) (id : LockRequestID)
    (order : Order)
| DoApplyReceipt (sid : Z) (id : LockRequestID) (action : reqid)
| DoAdvance (action : reqid)
| DoFind (sid node owner : Z) (id : LockRequestID)
| DoRequestNode (ctx : context) (sid owner : Z) (id : LockRequestID)
| DoQueryReceipt (sid : Z) (action : reqid)
| DoCancel (sid node owner : Z) (id : LockRequestID)
| DoDrop (sid node owner domain : Z)
| DoRetireOwner (sid owner : Z)
| DoRetireBegin (ctx_err : option error) (sid : Z)
| DoRetireFinish (sid : Z) (fence_err : option error)
| DoAddUse (ctx : context) (node : Z) (scope : UseScope) (claim : UseClaim)
| DoDropUse (ctx : context) (node : Z) (scope : UseScope)
| DoDropUseExact (ctx : context) (node : Z) (scope : UseScope) (claim : UseClaim)
| DoAcquire (ctx : context) (bytes : Z)
| DoRelease (handle : nat).

Definition void {A} (m : C A) : C unit := do! m in ret tt.

Definition run (l : section) : C unit :=
  match l with
  | DoNewSession options fence => void (NewSession options fence)
  | DoNewOwner ctx sid node scope options => void (NewOwner ctx sid node scope options)
  | DoOwnerBinding ctx sid owner => void (owner_binding ctx sid owner)
  | DoHistory ctx sid => void (History ctx sid)
  | DoCloseAdmission ctx sid admission => void (WithCloseAdmission ctx sid admission)
  | DoConflict sid node owner command => void (conflict_section sid node owner command)
  | DoApply sid node owner epoch commands id order =>
      void (apply_section sid node owner epoch commands id order)
  | DoApplyReceipt sid id action => void (apply_receipt sid id action)
  | DoAdvance action =>
      let! q := get_request action in void (advance_ordered (ok_session (q_key q)) action)
  | DoFind sid node owner id => void (findLocked sid node owner id)
  | DoRequestNode ctx sid owner id => void (RequestNode ctx sid owner id)
  | DoQueryReceipt sid action => void (query_receipt sid action)
  | DoCancel sid node owner id => void (cancel_section sid node owner id)
  | DoDrop sid node owner domain => void (drop_section sid node owner domain)
  | DoRetireOwner sid owner => void (retire_owner_section sid owner)
  | DoRetireBegin ctx_err sid => void (retire_begin ctx_err sid)
  | DoRetireFinish sid fence_err => retire_finish sid fence_err
  | DoAddUse ctx node scope claim => void (AddUse ctx node scope claim)
  | DoDropUse ctx node scope => void (DropUse ctx node scope)
  | DoDropUseExact ctx node scope claim => void (DropUseExact ctx node scope claim)
  | DoAcquire ctx bytes => void (AcquireMaterialization ctx bytes)
  | DoRelease handle => release_materialization handle
  end.

(** The pointers and the checked arguments a section is given. *)
Definition valid (c : coordinator) (l : section) : Prop :=
  let session sid := is_Some (c_heap c !! sid) in
  let request action := is_Some (c_actions c !! action) in
  match l with
  | DoNewOwner _ sid _ _ _ | DoOwnerBinding _ sid _ | DoHistory _ sid | DoCloseAdmission _ sid _
  | DoConflict sid _ _ _ | DoFind sid _ _ _ | DoRequestNode _ sid _ _ | DoCancel sid _ _ _
  | DoDrop sid _ _ _ | DoRetireOwner sid _ | DoRetireBegin _ sid => session sid
  | DoApply sid _ _ epoch commands id _ =>
      session sid ∧ apply_args (c_config c) commands ∧ Epoch id = Ok epoch
  | DoApplyReceipt sid _ action | DoQueryReceipt sid action => session sid ∧ request action
  | DoAdvance action => request action
  | DoRetireFinish sid _ => ∃ s, c_heap c !! sid = Some s ∧ s_retireDone s = true
  | _ => True
  end.

Inductive step (c : coordinator) (l : section) (c' : coordinator) : Prop :=
| Step : valid c l → run l c = Some (tt, c') → step c l c'.

(** The states a coordinator with a given clock can be in between sections. *)
Inductive reaches (now : nat → Z) : coordinator → Prop :=
| Initial config c : New config now = Ok c → reaches now c
| Next c l c' : reaches now c → step c l c' → reaches now c'.

Definition reachable (c : coordinator) : Prop := ∃ now, reaches now c.

(** ** The invariant holds *)

Lemma New_inv config now c : New config now = Ok c → Inv None None c.
Proof.
  unfold New. destruct (Config_Check config) eqn:Hc; [done|]. intros [= <-].
  assert (Hpos : 0 < cfg_MaxSessions config ∧ 0 < cfg_MaxOwners config ∧ 0 < cfg_MaxRanges config
                 ∧ 0 < cfg_MaxRequests config ∧ 0 <= cfg_MaxWaiters config
                 ∧ 0 < cfg_MaxMaterializations config ∧ 0 < cfg_MaxMaterializedBytes config).
  { unfold Config_Check in Hc. destruct (_ || _) eqn:E in Hc; [done|]. bool_prop. lia. }
  split; simpl.
  - split_and!; set_solver.
  - intros k o. simpl. by rewrite lookup_empty.
  - split; [constructor|set_solver].
  - intros a q. simpl. by rewrite lookup_empty.
  - unfold counts_ok, range_count. simpl. rewrite !msum_empty. split_and!; try done.
  - split_and!; cbn -[size zlen]; rewrite ?size_empty, ?map_size_empty; try done; try lia.
    unfold zlen. simpl. lia.
  - intros k1 o1 d1 k2 o2 d2. simpl. by rewrite lookup_empty.
  - intros a ua b ub. simpl. by rewrite lookup_empty.
  - split_and!; simpl; rewrite ?map_size_empty, ?msum_empty; try done; lia.
  - done.
Qed.

Lemma void_inv {A} (m : C A) (P : coordinator → Prop) c :
  (∃ r c', m c = Some (r, c') ∧ P c') → ∃ c', void m c = Some (tt, c') ∧ P c'.
Proof. intros (r & c' & Hm & HP). exists c'. unfold void, bind. by rewrite Hm. Qed.

Lemma History_inv ctx sid c :
  Inv None None c → is_Some (c_heap c !! sid) →
  ∃ r c', History ctx sid c = Some (r, c') ∧ Inv None None c'.
Proof.
  intros H [s Hs]. unfold History. destruct (ctx 0%nat); [by eexists _, c|].
  unfold bind at 1, get_session, deref at 1. rewrite Hs.
  destruct (activeLocked s); [by eexists _, c|].
  destruct (read_clock_inv None None c H) as (t & c1 & Hrun1 & H1 & A1 & _).
  unfold bind at 1. rewrite Hrun1. destruct (aged_heap _ _ _ _ A1 Hs) as [s1 Hs1].
  destruct (advanceLocked_inv sid t c1 H1) as (r & c2 & Hrun2 & H2 & A2); [by exists s1|].
  unfold bind at 1. rewrite Hrun2. destruct r; [by eexists _, c2|].
  destruct (aged_heap _ _ _ _ A2 Hs1) as [s2 Hs2]. unfold bind, deref. rewrite Hs2.
  by eexists _, c2.
Qed.

Lemma close_admission_inv ctx sid c :
  Inv None None c → is_Some (c_heap c !! sid) →
  ∃ r c', close_admission ctx sid c = Some (r, c') ∧ Inv None None c'.
Proof.
  intros H [s Hs]. unfold close_admission. destruct (ctx 0%nat); [by eexists _, c|].
  destruct (read_clock_inv None None c H) as (t & c1 & Hrun1 & H1 & A1 & _).
  unfold bind at 1. rewrite Hrun1. destruct (aged_heap _ _ _ _ A1 Hs) as [s1 Hs1].
  destruct (advanceLocked_inv sid t c1 H1) as (r & c2 & Hrun2 & H2 & A2); [by exists s1|].
  unfold bind at 1. rewrite Hrun2. destruct r; [by eexists _, c2|].
  destruct (aged_heap _ _ _ _ A2 Hs1) as [s2 Hs2]. unfold bind, get_session, deref. rewrite Hs2.
  by eexists _, c2.
Qed.

Lemma WithCloseAdmission_inv ctx sid admission c :
  Inv None None c → is_Some (c_heap c !! sid) →
  ∃ r c', WithCloseAdmission ctx sid admission c = Some (r, c') ∧ Inv None None c'.
Proof.
  intros H Hs. destruct admission as [callback|]; simpl; [|by eexists _, c].
  destruct (close_admission_inv ctx sid c H Hs) as (r & c' & Hr & ?).
  unfold bind. rewrite Hr. by eexists _, c'.
Qed.

Lemma conflict_section_inv sid node owner command c :
  Inv None None c → is_Some (c_heap c !! sid) →
  ∃ r, conflict_section sid node owner command c = Some (r, c).
Proof.
  intros H [s Hs]. unfold conflict_section, bind at 1, get_session, deref. rewrite Hs.
  destruct (_ ;? _); [by eexists|].
  destruct (conflictLocked_spec c (session_key sid node owner (rc_Domain command)) command
    (Inv_owners_live _ _ _ H)) as (x & Hx & _). unfold bind. rewrite Hx. by eexists.
Qed.

Lemma RequestNode_inv ctx sid owner id c :
  Inv None None c → is_Some (c_heap c !! sid) →
  ∃ r c', RequestNode ctx sid owner id c = Some (r, c') ∧ Inv None None c'.
Proof.
  intros H Hs. unfold RequestNode. destruct (ctx 0%nat); [by eexists _, c|].
  destruct (requestLocked_inv sid owner id c H Hs) as (r & c' & Hrun & Hi & _ & Hr).
  unfold bind at 1. rewrite Hrun. destruct r as [a|e]; [|by eexists _, c'].
  destruct (Hr a eq_refl) as (q & s & Hq & _). unfold bind, get_request, deref. rewrite Hq.
  by eexists _, c'.
Qed.

Lemma receipt_inv sid action c (m : C (result RangeAttempt)) :
  Inv None None c → is_Some (c_heap c !! sid) → is_Some (c_actions c !! action) →
  m = query_receipt sid action ∨ (∃ id, m = apply_receipt sid id action) →
  ∃ r c', m c = Some (r, c') ∧ Inv None None c'.
Proof.
  intros H [s Hs] [q Hq] Hm.
  destruct (read_clock_inv None None c H) as (t & c1 & Hrun & H1 & A1 & _).
  assert (Hq1 : c_actions c1 !! action = Some q).
  { destruct A1 as (_ & _ & _ & E & _). by rewrite E. }
  destruct Hm as [->|[id ->]]; [unfold query_receipt|unfold apply_receipt];
    unfold bind at 1, get_session, deref; rewrite Hs; (destruct (activeLocked s); [by eexists _, c|]).
  - unfold bind at 1. rewrite Hrun. unfold bind, get_request, deref. rewrite Hq1. by eexists _, c1.
  - destruct (negb _); [by eexists _, c|].
    unfold bind at 1. rewrite Hrun. unfold bind, get_request, deref. rewrite Hq1. by eexists _, c1.
Qed.

Lemma owner_binding_pure ctx sid owner c :
  is_Some (c_heap c !! sid) → ∃ r, owner_binding ctx sid owner c = Some (r, c).
Proof.
  intros [s Hs]. unfold owner_binding. destruct (ctx 0%nat); [by eexists|].
  unfold bind, get_session, deref. rewrite Hs. destruct (activeLocked s); [by eexists|].
  destruct (s_bindings s !! owner); by eexists.
Qed.

(** Every section that is given valid arguments completes and keeps the invariant. *)
Lemma run_inv c l : Inv None None c → valid c l → ∃ c', run l c = Some (tt, c') ∧ Inv None None c'.
Proof.
  intros H Hv. destruct l; simpl in Hv; unfold run; try apply void_inv.
  - by apply NewSession_inv.
  - by apply NewOwner_inv.
  - destruct (owner_binding_pure ctx sid owner c Hv) as [r Hr]. eauto.
  - by apply History_inv.
  - by apply WithCloseAdmission_inv.
  - destruct (conflict_section_inv sid node owner command c H Hv) as [r Hr]. eauto.
  - destruct Hv as (? & ? & _).
    destruct (apply_section_inv sid node owner epoch commands id order c) as (r & c' & ? & ? & _);
      eauto.
  - destruct Hv. eapply receipt_inv; eauto.
  - destruct Hv as [q Hq]. unfold bind, get_request, deref. rewrite Hq. apply void_inv.
    destruct (advance_ordered_inv c action q H Hq) as (r & c' & ? & ? & _). eauto.
  - destruct (findLocked_inv sid node owner id c H Hv) as (r & c' & ? & ? & _). eauto.
  - by apply RequestNode_inv.
  - destruct Hv. eapply receipt_inv; eauto.
  - by apply cancel_section_inv.
  - destruct (drop_section_inv sid node owner domain c H Hv) as (r & c' & ? & ? & _). eauto.
  - by apply retire_owner_inv.
  - by apply retire_begin_inv.
  - destruct Hv as (s & Hs & _). destruct (retire_finish_inv sid fence_err c H) as (c' & ? & ? & _); [by exists s|by exists c'].
  - by apply AddUse_inv.
  - by apply DropUse_inv.
  - by apply DropUseExact_inv.
  - by apply AcquireMaterialization_inv.
  - by apply release_materialization_inv.
Qed.

Lemma reachable_inv c : reachable c → Inv None None c.
Proof.
  intros [now Hc]. induction Hc as [config c Hn|c l c' _ IH [Hv Hr]]; [by eapply New_inv|].
  destruct (run_inv c l IH Hv) as (c2 & Hrun & Hi). congruence.
Qed.

(** ** Running sections one after the other *)

#[global] Instance command_typed_dec command : Decision (command_typed command).
Proof. unfold command_typed. apply _. Defined.

#[global] Instance apply_args_dec config commands : Decision (apply_args config commands).
Proof.
  unfold apply_args. destruct (checkCommands config commands) as [e|].
  - right. by intros [? _].
  - destruct (decide (Forall command_typed commands)); [left|right]; tauto.
Defined.

#[global] Instance epoch_ok_dec id epoch : Decision (Epoch id = Ok epoch).
Proof.
  destruct (Epoch id) as [e|e]; [|right; done].
  destruct (decide (e = epoch)) as [->|Hne]; [by left|right; congruence].
Defined.

#[global] Instance retire_running_dec (c : coordinator) sid :
  Decision (∃ s, c_heap c !! sid = Some s ∧ s_retireDone s = true).
Proof.
  destruct (c_heap c !! sid) as [s|]; [|right; naive_solver].
  destruct (s_retireDone s) eqn:E; [left; eauto|right]. intros (s' & [= ->] & ?). congruence.
Defined.

#[global] Instance valid_dec c l : Decision (valid c l).
Proof. destruct l; unfold valid; apply _. Defined.

Fixpoint exec (ls : list section) (c : coordinator) : option coordinator :=
  match ls with
  | [] => Some c
  | l :: ls =>
      if decide (valid c l) then
        match run l c with Some (_, c') => exec ls c' | None => None end
      else None
  end.

Lemma exec_reaches now ls : ∀ c c', reaches now c → exec ls c = Some c' → reaches now c'.
Proof.
  induction ls as [|l ls IH]; intros c c' Hc; simpl; [by intros [= <-]|].
  destruct (decide (valid c l)) as [Hv|]; [|done].
  destruct (run l c) as [[[] c1]|] eqn:Hr; [|done]. apply IH. by eapply Next; [|split].
Qed.

(** A coordinator with two sessions, each with a registered owner on node 7. *)
Definition background : context := λ _, None.
Definition ticking (n : nat) : Z := Z.of_nat n.

Definition example_id (n : Z) : LockRequestID :=
  match NewLockRequestID 1 (replicate 15 0 ++ [n]) with Ok id => id | Err _ => EmptyString end.

Definition example_scope : UseScope := {| Token := "t" |}.
Definition example_owner : OwnerOptions :=
  {| oo_Lifetime := OwnerExplicit; oo_Group := 0; oo_Diagnostic := 42 |}.

Definition two_owners : list section :=
  [DoNewSession DefaultFileSessionOptions true; DoNewSession DefaultFileSessionOptions true;
   DoNewOwner background 1 7 example_scope example_owner;
   DoNewOwner background 2 7 example_scope example_owner].

(** A record lock of one of the two owners. *)
Definition lock (sid mode start length : Z) (wait : bool) (n : Z) : section :=
  DoApply sid 7 1 1
    [{| rc_Domain := DomainRecord; rc_Mode := mode; rc_Range := mkRange Bytes start length 0;
        rc_Edit := Replace; rc_Claim := EmptyString; rc_Wait := wait;
        rc_Conversion := PreserveBeforeAcquire; rc_Policy := NoPolicy |}] (example_id n) 0%nat.

Definition initial_state : coordinator :=
  match New DefaultConfig ticking with
  | Ok c => c
  | Err _ => mkCoordinator DefaultConfig ticking 0 0 ∅ ∅ ∅ [] 0 0 0 ∅ 0 0 ∅ 0%nat ∅ 0%nat
  end.

Lemma initial_reaches : reaches ticking initial_state.
Proof. by apply (Initial ticking DefaultConfig). Qed.

(** The state after a script, or the initial one where it does not run. *)
Definition after (ls : list section) : coordinator :=
  match exec ls initial_state with Some c => c | None => initial_state end.

Lemma after_reaches ls : reaches ticking (after ls).
Proof.
  unfold after. destruct (exec ls initial_state) eqn:E; [|apply initial_reaches].
  eapply exec_reaches; [apply initial_reaches|done].
Qed.

Lemma after_reachable ls : reachable (after ls).
Proof. exists ticking. apply after_reaches. Qed.
