(* ===== verification/AdvisoryOnce.v ===== *)
(** * The advisory coordinator: a request identity is used once

    Receipts are pruned, so the history alone does not tell a repeated request
    from a new one.  What does is the epoch in the identity: with a clock that
    does not run backwards, a pruned identity belongs to an epoch that is over
    before the session admits anything again. *)

From S2P Require Import Prelude Errors Identity Ranges Extents AdvisoryState Conflicts Deadlock Coordinator Uses AdvisoryInv AdvisoryEdits AdvisoryOps AdvisorySections AdvisorySteps.

Definition monotone (now : nat → Z) : Prop := ∀ n m, (n ≤ m)%nat → now n <= now m.

(** The last reading of the clock. *)
Definition last_reading (c : coordinator) : Z := c_now c (Nat.pred (c_reads c)).

(** A request is in its session's history, or its identity has run out. *)
Definition accounted (c : coordinator) (s : session) (a : reqid) (q : request) : Prop :=
  s_retired s = true ∨ s_actions s !! q_id q = Some a ∨ q_epoch q < s_epoch s
  ∨ s_epochUntil s <= last_reading c.

Definition once (c : coordinator) : Prop :=
  (∀ a q, c_actions c !! a = Some q → Epoch (q_id q) = Ok (q_epoch q))
  ∧ (∀ a q, c_actions c !! a = Some q →
       ∃ s, c_heap c !! ok_session (q_key q) = Some s ∧ q_epoch q <= s_epoch s
            ∧ accounted c s a q)
  ∧ (∀ a b q q', c_actions c !! a = Some q → c_actions c !! b = Some q' →
       ok_session (q_key q) = ok_session (q_key q') → q_id q = q_id q' → a = b).

(** How a session may change: its epoch grows when its end is put off, and a
    request leaves the history only when its identity has run out. *)
Definition later (c c' : coordinator) (s s' : session) : Prop :=
  (s_retired s = true → s_retired s' = true)
  ∧ (s_epoch s' = s_epoch s ∧ s_epochUntil s' = s_epochUntil s ∨ s_epoch s < s_epoch s')
  ∧ ∀ id a q, s_actions s !! id = Some a → c_actions c !! a = Some q →
      s_retired s' = true ∨ s_actions s' !! id = Some a ∨ q_epoch q < s_epoch s'
      ∨ s_epochUntil s' <= last_reading c'.

Definition timely (c c' : coordinator) : Prop :=
  ticks c c'
  ∧ (∀ a q, c_actions c !! a = Some q →
       ∃ q', c_actions c' !! a = Some q' ∧ q_key q' = q_key q ∧ q_id q' = q_id q
             ∧ q_epoch q' = q_epoch q)
  ∧ (∀ sid s, c_heap c !! sid = Some s → ∃ s', c_heap c' !! sid = Some s' ∧ later c c' s s').

Lemma later_same c c' s s' :
  s_retired s' = s_retired s → s_epoch s' = s_epoch s → s_epochUntil s' = s_epochUntil s →
  s_actions s' = s_actions s → later c c' s s'.
Proof. intros E1 E2 E3 E4. split_and!; rewrite ?E1, ?E2, ?E3, ?E4; auto. Qed.

Lemma last_reading_mono c c' :
  monotone (c_now c) → ticks c c' → last_reading c <= last_reading c'.
Proof.
  intros Hm (E & Hle & _). unfold last_reading. rewrite E. apply Hm. lia.
Qed.

Lemma timely_once c c' : monotone (c_now c) → timely c c' → once c → once c'.
Proof.
  intros Hm (Ht & Ha & Hh) (O1 & O2 & O3). pose proof (last_reading_mono c c' Hm Ht) as Hlast.
  assert (Hback : ∀ a q', c_actions c' !! a = Some q' →
            ∃ q, c_actions c !! a = Some q ∧ q_key q' = q_key q ∧ q_id q' = q_id q
                 ∧ q_epoch q' = q_epoch q).
  { intros a q' Hq'. destruct Ht as (_ & _ & Hd). destruct (Hd a) as [q Hq]; [eauto|].
    destruct (Ha a q Hq) as (q'' & ? & ? & ? & ?). simplify_eq. eauto 10. }
  split_and!.
  - intros a q' Hq'. destruct (Hback a q' Hq') as (q & Hq & _ & -> & ->). eauto.
  - intros a q' Hq'. destruct (Hback a q' Hq') as (q & Hq & -> & Eid & ->).
    destruct (O2 a q Hq) as (s & Hs & Hle & Hacc). destruct (Hh _ _ Hs) as (s' & Hs' & L1 & L2 & L3).
    exists s'. split; [done|]. split; [lia|]. unfold accounted in *. rewrite Eid.
    destruct (Hback a q' Hq') as (? & ? & _ & _ & ->). simplify_eq.
    destruct Hacc as [Hr|[Hin|[He|Hu]]]; [auto| |right; right; left; lia|].
    + destruct (L3 _ _ _ Hin Hq) as [?|[?|[?|?]]]; auto.
    + destruct L2 as [[? ?]|?]; [right; right; right; lia|right; right; left; lia].
  - intros a b qa qb Hqa Hqb.
    destruct (Hback a qa Hqa) as (q1 & ? & -> & -> & _).
    destruct (Hback b qb Hqb) as (q2 & ? & -> & -> & _). eauto.
Qed.

Lemma steady_timely c c' : steady c c' → timely c c'.
Proof.
  intros (_ & _ & Hh & Ha & Ht). split; [done|]. split.
  - intros a q Hq. destruct (Ha a q Hq) as (q' & ? & (? & ? & ? & ? & ?) & _). eauto 10.
  - intros sid s Hs. destruct (Hh sid s Hs) as (s' & ? & (_ & ? & _ & _ & _ & ?) & _ & ? & ?).
    exists s'. split; [done|]. by apply later_same.
Qed.

(** A state that differs in no session, request or reading. *)
Lemma timely_same c c' :
  c_heap c' = c_heap c → c_actions c' = c_actions c → c_now c' = c_now c →
  (c_reads c ≤ c_reads c')%nat → timely c c'.
Proof.
  intros E1 E2 E3 E4. split; [split_and!; try done; by rewrite E2|]. split.
  - intros a q Hq. exists q. by rewrite E2.
  - intros sid s Hs. exists s. rewrite E1. split; [done|]. by apply later_same.
Qed.

(** One session changes. *)
Lemma timely_session c sid s s' c' :
  c_heap c !! sid = Some s → later c c' s s' →
  c_heap c' = <[sid := s']> (c_heap c) → c_actions c' = c_actions c → c_now c' = c_now c →
  c_reads c' = c_reads c → timely c c'.
Proof.
  intros Hs Hl E1 E2 E3 E4. split; [split_and!; try done; [by rewrite E4|by rewrite E2]|]. split.
  - intros a q Hq. exists q. by rewrite E2.
  - intros x t Ht. rewrite E1. destruct (decide (sid = x)) as [->|Hne].
    + rewrite lookup_insert_eq. simplify_eq. eauto.
    + rewrite lookup_insert_ne by done. exists t. split; [done|]. by apply later_same.
Qed.

Lemma read_clock_last c t c1 :
  read_clock c = Some (t, c1) → last_reading c1 = t ∧ timely c c1 ∧ c_now c1 = c_now c.
Proof. intros [= <- <-]. split; [done|]. split; [|done]. apply timely_same; simpl; lia || done. Qed.

(** ** History *)

Lemma prune_timely sid now c c' :
  now <= last_reading c → pruneHistoryLocked sid now c = Some (tt, c') → timely c c'.
Proof.
  intros Hnow. unfold pruneHistoryLocked, bind, get_session, deref, gets, upd_session, modify.
  destruct (c_heap c !! sid) as [s|] eqn:Hs; [|done]. rewrite (alter_Some _ _ _ _ Hs). intros [= <-].
  eapply (timely_session c sid s); try done. split_and!; [done|by left|]. simpl.
  intros id a q Ha Hq. right. destruct (keeps_receipt c s now a) eqn:Hk.
  - left. by apply kept_actions_Some.
  - right. unfold keeps_receipt in Hk. rewrite Hq in Hk. unfold expired_receipt in Hk.
    bool_prop. destruct H as [H|H]; bool_prop; [by left|right].
    unfold last_reading in *. simpl. lia.
Qed.

Lemma prune_clock sid now c c' :
  pruneHistoryLocked sid now c = Some (tt, c') →
  last_reading c' = last_reading c ∧ c_now c' = c_now c
  ∧ ∀ x s, c_heap c !! x = Some s →
      ∃ s', c_heap c' !! x = Some s' ∧ s_epoch s' = s_epoch s ∧ s_epochUntil s' = s_epochUntil s.
Proof.
  unfold pruneHistoryLocked, bind, get_session, deref, gets, upd_session, modify.
  destruct (c_heap c !! sid) as [s|] eqn:Hs; [|done]. rewrite (alter_Some _ _ _ _ Hs). intros [= <-].
  split; [done|]. split; [done|]. intros x t Ht. simpl. destruct (decide (sid = x)) as [->|Hne].
  - rewrite lookup_insert_eq. simplify_eq. by eexists.
  - rewrite lookup_insert_ne by done. eauto.
Qed.

(** [advanceLocked] at the last reading: the epoch that admits goes on beyond it. *)
Lemma advanceLocked_once sid now c r c' :
  Inv None None c → monotone (c_now c) → now = last_reading c → once c →
  advanceLocked sid now c = Some (r, c') →
  once c' ∧ c_now c' = c_now c ∧ last_reading c' = last_reading c
  ∧ (r = None → ∃ s, c_heap c' !! sid = Some s ∧ now < s_epochUntil s).
Proof.
  intros H Hm Hnow Ho. unfold advanceLocked, bind at 1, get_session, deref.
  destruct (c_heap c !! sid) as [s|] eqn:Hs; [|done].
  destruct (Z.ltb_spec now (s_epochUntil s)) as [Hlt|Hge]; simpl.
  - unfold bind. destruct (pruneHistoryLocked sid now c) as [[[] c1]|] eqn:Hp; [|done].
    intros [= <- <-]. destruct (prune_clock _ _ _ _ Hp) as (El & En & Hh).
    split; [eapply timely_once; [done| |done]; eapply prune_timely; [|done]; lia|].
    split; [done|]. split; [done|]. intros _. destruct (Hh sid s Hs) as (s' & ? & _ & ?).
    exists s'. split; [done|]. lia.
  - destruct (_ =? _); [by intros [= <- <-]|]. unfold bind at 1, upd_session, modify.
    rewrite (alter_Some _ _ _ _ Hs). set (s1 := set_s_epochUntil _ _). set (c1 := set_c_heap _ c).
    unfold bind. destruct (pruneHistoryLocked sid now c1) as [[[] c2]|] eqn:Hp; [|done].
    intros [= <- <-]. destruct (prune_clock _ _ _ _ Hp) as (El & En & Hh).
    assert (Ho1 : once c1).
    { eapply timely_once; [done| |done]. eapply (timely_session c sid s s1); try done.
      split_and!; [done|right; simpl; lia|]. intros id a q Ha Hq. right. by left. }
    split; [eapply (timely_once c1); [done| |done]; eapply prune_timely; [|done];
            change (last_reading c1) with (last_reading c); lia|].
    split; [done|]. split; [done|]. intros _. destruct (Hh sid s1) as (s' & ? & _ & E);
      [apply lookup_insert_eq|]. exists s'. split; [done|]. rewrite E. simpl.
    destruct (inv_sessions _ _ _ H) as (_ & S2 & _).
    destruct (S2 _ _ Hs) as (_ & _ & _ & _ & _ & _ & _ & Hopt & _).
    unfold FileSessionOptions_Check in Hopt. destruct (_ || _) eqn:E' in Hopt; [done|].
    bool_prop. lia.
Qed.

(** ** Admission *)

Lemma prune_all_once now sids : ∀ c,
  Inv None None c → monotone (c_now c) → now <= last_reading c → once c →
  (∀ sid, sid ∈ sids → is_Some (c_heap c !! sid)) →
  ∃ c', iter (λ sid, pruneHistoryLocked sid now) sids c = Some (tt, c')
        ∧ Inv None None c' ∧ once c' ∧ aged c c' ∧ c_now c' = c_now c
        ∧ last_reading c' = last_reading c
        ∧ ∀ x s, c_heap c !! x = Some s →
            ∃ s', c_heap c' !! x = Some s' ∧ s_epoch s' = s_epoch s
                  ∧ s_epochUntil s' = s_epochUntil s.
Proof.
  induction sids as [|sid sids IH]; intros c H Hm Hnow Ho Hin.
  { exists c. split; [done|]. split; [done|]. split; [done|]. split; [done|]. split_and!; eauto. }
  destruct (pruneHistory_inv sid now c H) as (c1 & Hrun & H1 & A1); [apply Hin; set_solver|].
  destruct (prune_clock _ _ _ _ Hrun) as (El & En & Hh).
  destruct (IH c1) as (c2 & Hrun2 & H2 & Ho2 & A2 & En2 & El2 & Hh2); try done.
  - by rewrite En.
  - lia.
  - eapply timely_once; [done| |done]. by eapply prune_timely.
  - intros x Hx. destruct (Hin x) as [s Hs]; [set_solver|]. by eapply aged_heap.
  - exists c2. simpl. unfold bind. rewrite Hrun. split; [done|]. split; [done|]. split; [done|].
    split; [by etrans|]. split; [congruence|]. split; [congruence|].
    intros x s Hs. destruct (Hh x s Hs) as (s' & Hs' & ? & ?).
    destruct (Hh2 x s' Hs') as (s'' & ? & ? & ?). exists s''. split_and!; congruence.
Qed.

Lemma admit_once c sid s q a c' :
  once c → live_session c sid = Some s → s_retired s = false → ok_session (q_key q) = sid →
  Epoch (q_id q) = Ok (q_epoch q) → q_epoch q = s_epoch s → last_reading c < s_epochUntil s →
  s_actions s !! q_id q = None → c_actions c !! a = None → a = c_nextRequest c →
  admit_request sid q c = Some (a, c') → once c'.
Proof.
  intros (O1 & O2 & O3) Hs Hret Hsid Hep Heq Hlast Hnew Hfresh ->.
  pose proof Hs as [_ Hh]%live_session_Some.
  unfold admit_request, bind, gets, modify, upd_session, ret. simpl.
  rewrite (alter_Some _ _ _ _ Hh). intros [= <-]. split_and!; simpl.
  - intros b qb [[<- <-]|[Hne Hb]]%lookup_insert_Some; eauto.
  - intros b qb [[<- <-]|[Hne Hb]]%lookup_insert_Some.
    + rewrite Hsid, lookup_insert_eq. eexists. split; [done|]. split; [simpl; lia|].
      right. left. simpl. apply lookup_insert_eq.
    + destruct (O2 b qb Hb) as (t & Ht & Hle & Hacc).
      destruct (decide (sid = ok_session (q_key qb))) as [E|Hne'].
      * rewrite <- E in *. rewrite lookup_insert_eq. simplify_eq. eexists. split; [done|].
        split; [done|]. destruct Hacc as [?|[Hin|?]]; [by left| |by right; right].
        right. left. simpl. rewrite lookup_insert_ne; [done|]. congruence.
      * rewrite lookup_insert_ne by done. eauto.
  - assert (Huniq : ∀ b qb, c_actions c !! b = Some qb → ok_session (q_key qb) = sid →
              q_id qb = q_id q → False).
    { intros b qb Hb Hsb Hid. destruct (O2 b qb Hb) as (t & Ht & Hle & Hacc).
      rewrite Hsb in Ht. simplify_eq. pose proof (O1 b qb Hb) as Heb. rewrite Hid, Hep in Heb.
      injection Heb as Heb. unfold accounted in Hacc. rewrite Hid, Hnew, Hret in Hacc.
      destruct Hacc as [?|[?|[?|?]]]; [done|done|lia|lia]. }
    intros b d qb qd [[<- <-]|[Hne Hb]]%lookup_insert_Some [[<- <-]|[Hne' Hd]]%lookup_insert_Some;
      intros; eauto; exfalso; (eapply Huniq; [eassumption|congruence|congruence]).
Qed.

Lemma apply_transition_once sid now epoch key commands id order c s :
  Inv None None c → monotone (c_now c) → once c → now = last_reading c →
  live_session c sid = Some s → now < s_epochUntil s → ok_session key = sid → bound c key →
  batch_ok (c_config c) (ok_domain key) commands → Epoch id = Ok epoch →
  ∃ r c', apply_transition sid now epoch key commands id order c = Some (r, c')
          ∧ once c' ∧ c_now c' = c_now c.
Proof.
  intros H Hm Hon Hnow Hs Hlt Hsid Hbd Hb Hep. pose proof Hs as [Hl Hh]%live_session_Some.
  unfold apply_transition, bind at 1, get_session, deref at 1. rewrite Hh.
  destruct (s_actions s !! id) as [old|] eqn:Hold.
  { destruct (inv_sessions _ _ _ H) as (_ & _ & S3). destruct (S3 _ _ _ _ Hh Hold) as (q & Hq & _).
    unfold bind, get_request, deref. rewrite Hq. destruct (_ || _); by eexists _, c. }
  destruct (Z.eqb_spec epoch (s_epoch s)) as [Heq|]; simpl; [|by eexists _, c].
  unfold bind at 1 2, gets at 1 2.
  set (prune := if cfg_MaxRequests (c_config c) <=? c_requests c then _ else _).
  assert (∃ c1, prune c = Some (tt, c1) ∧ Inv None None c1 ∧ once c1 ∧ aged c c1
                ∧ c_now c1 = c_now c ∧ last_reading c1 = last_reading c
                ∧ ∃ s1, c_heap c1 !! sid = Some s1 ∧ s_epoch s1 = s_epoch s
                        ∧ s_epochUntil s1 = s_epochUntil s)
    as (c1 & Hrun & H1 & Ho1 & A1 & En1 & El1 & s1 & Hh1 & Ee & Eu).
  { unfold prune. destruct (_ <=? _).
    - destruct (prune_all_once now (elements (c_sessions c)) c) as (c1 & ? & ? & ? & ? & ? & ? & Hx);
        try done; [lia| |exists c1; do 6 (split; [done|]); by apply Hx].
      intros x Hx. apply (inv_sessions _ _ _ H). by apply elem_of_elements.
    - exists c. do 2 (split; [done|]). split; [done|]. split; [done|]. eauto 10. }
  unfold bind at 1. rewrite Hrun. unfold bind at 1 2, gets, get_session, deref at 1. rewrite Hh1.
  destruct (aged_live _ _ _ _ A1 Hs) as (s1' & Hs1 & _ & Hact).
  pose proof Hs1 as [Hl1 Hh1']%live_session_Some. rewrite Hh1 in Hh1'. injection Hh1' as <-.
  destruct (_ || _) eqn:E; [eexists _, c1; split; [reflexivity|done]|].
  apply orb_false_iff in E as [Hroom Hroom']. bool_prop.
  assert (Hb1 : batch_ok (c_config c1) (ok_domain key) commands).
  { destruct A1 as (-> & _). done. }
  set (q := new_request key id epoch commands order).
  assert (Hnew : s_actions s1 !! q_id q = None).
  { destruct (s_actions s1 !! q_id q) eqn:E; [|done]. apply Hact in E. simpl in E. congruence. }
  destruct (admit_inv c1 sid s1 q) as (c2 & Hrun2 & H2 & Ea & (s2 & Hs2 & _) & _);
    try done; [by eapply aged_bound|simpl; apply length_replicate|].
  assert (Ho2 : once c2).
  { eapply (admit_once c1 sid s1 q); try done; simpl; try congruence; try lia.
    - destruct (inv_sessions _ _ _ H1) as (_ & S2 & _). destruct (S2 _ _ Hh1) as (_ & Hr & _).
      destruct (s_retired s1); [by apply Hr in Hl1|done].
    - destruct (c_actions c1 !! c_nextRequest c1) as [qq|] eqn:E; [|done].
      destruct (inv_requests _ _ _ H1 _ _ E) as (? & _). lia. }
  assert (En2 : c_now c2 = c_now c1).
  { revert Hrun2. unfold admit_request, bind, gets, modify, upd_session, ret. by intros [= <-]. }
  unfold bind at 1. rewrite Hrun2.
  destruct (start_inv c2 (c_nextRequest c1) q s2) as (c3 & Hrun3 & H3 & S3); try done.
  { rewrite Ea. apply lookup_insert_eq. }
  { simpl. by rewrite Hsid. }
  unfold bind at 1. rewrite Hrun3.
  destruct (read_clock_inv None None c3 H3) as (t & c4 & Hrun4 & H4 & _ & S4).
  unfold bind at 1. rewrite Hrun4. assert (S24 : steady c2 c4) by (by etrans).
  assert (Ho4 : once c4 ∧ c_now c4 = c_now c2).
  { split; [|apply S24]. eapply timely_once; [|by apply steady_timely|done]. by rewrite En2, En1. }
  destruct S24 as (_ & _ & Sh & Sa & _).
  destruct (Sa (c_nextRequest c1) q) as (q4 & Hq4 & _); [rewrite Ea; apply lookup_insert_eq|].
  pose proof Hs2 as [_ Hh2]%live_session_Some. destruct (Sh _ _ Hh2) as (s4 & Hh4 & _).
  unfold bind, get_request, deref. rewrite Hq4, Hh4. eexists _, c4.
  split; [reflexivity|]. split; [apply Ho4|]. destruct Ho4 as [_ ->]. congruence.
Qed.

Lemma apply_section_once sid node owner epoch commands id order c :
  Inv None None c → monotone (c_now c) → once c → is_Some (c_heap c !! sid) →
  apply_args (c_config c) commands → Epoch id = Ok epoch →
  ∃ r c', apply_section sid node owner epoch commands id order c = Some (r, c')
          ∧ once c' ∧ c_now c' = c_now c.
Proof.
  intros H Hm Ho [s Hh] [Hc Ht] Hep. unfold apply_section, bind at 1, get_session, deref at 1.
  rewrite Hh. destruct (activeLocked s ;? _) eqn:E; [by eexists _, c|].
  apply orelse_None in E as [Hact Hown].
  pose proof (active_live c sid s (inv_sessions _ _ _ H) Hh Hact) as Hs.
  destruct (read_clock_inv None None c H) as (t & c1 & Hrun1 & H1 & A1 & _).
  destruct (read_clock_last _ _ _ Hrun1) as (El1 & T1 & En1).
  pose proof (timely_once _ _ Hm T1 Ho) as Ho1.
  unfold bind at 1. rewrite Hrun1. destruct (aged_live _ _ _ _ A1 Hs) as (s1 & Hs1 & _).
  pose proof Hs1 as [_ Hh1]%live_session_Some.
  destruct (advanceLocked_inv sid t c1 H1) as (r & c2 & Hrun2 & H2 & A2); [by exists s1|].
  destruct (advanceLocked_once sid t c1 r c2) as (Ho2 & En2 & El2 & Hnext); try done; [by rewrite En1|].
  unfold bind at 1. rewrite Hrun2.
  destruct r; [eexists _, c2; split; [reflexivity|]; split; [done|congruence]|].
  assert (A : aged c c2) by (by etrans). destruct (aged_live _ _ _ _ A Hs) as (s2 & Hs2 & _).
  destruct (Hnext eq_refl) as (s2' & Hh2' & Hlt).
  pose proof Hs2 as [_ Hh2]%live_session_Some. rewrite Hh2' in Hh2. injection Hh2 as ->.
  destruct commands as [|first rest]; [done|]. unfold bind, deref. simpl head. cbn iota beta.
  destruct (apply_transition_once sid t epoch (session_key sid node owner (rc_Domain first))
    (first :: rest) id order c2 s2) as (r & c' & ? & ? & ?); try done.
  - by rewrite En2, En1.
  - congruence.
  - eapply aged_bound; [done|]. by eapply checkOwner_bound.
  - destruct A as (-> & _). by split_and!.
  - exists r, c'. split; [done|]. split; [done|]. congruence.
Qed.

(** ** Every section *)

(** The section is over in a state where identities are still used once. *)
Definition ends_once {A} (m : C A) (c : coordinator) : Prop :=
  ∀ r c', m c = Some (r, c') → once c' ∧ c_now c' = c_now c.

Section sections.
Context (c : coordinator).
Hypothesis (H : Inv None None c) (Hm : monotone (c_now c)) (Ho : once c).

Lemma ends_timely {A} (m : C A) :
  (∀ r c', m c = Some (r, c') → timely c c') → ends_once m c.
Proof.
  intros Ht r c' Hr. specialize (Ht r c' Hr). split; [by eapply timely_once|]. apply Ht.
Qed.

Lemma ends_steady {A} (m : C A) :
  (∃ r c', m c = Some (r, c') ∧ steady c c') → ends_once m c.
Proof.
  intros (r & c' & Hr & S). apply ends_timely. intros r' c'' Hr'. simplify_eq.
  by apply steady_timely.
Qed.

Lemma ends_same {A} (m : C A) :
  (∀ r c', m c = Some (r, c') →
     c_heap c' = c_heap c ∧ c_actions c' = c_actions c ∧ c_now c' = c_now c
     ∧ (c_reads c ≤ c_reads c')%nat) → ends_once m c.
Proof.
  intros Hs. apply ends_timely. intros r c' Hr. destruct (Hs r c' Hr) as (? & ? & ? & ?).
  by apply timely_same.
Qed.

Lemma NewSession_once options fence : ends_once (NewSession options fence) c.
Proof.
  apply ends_timely. intros r c'. unfold NewSession, ret.
  destruct (FileSessionOptions_Check options); [intros [= <- <-]; by apply timely_same|].
  destruct fence; simpl; [|intros [= <- <-]; by apply timely_same]. unfold bind at 1, gets at 1.
  destruct (_ || _); [intros [= <- <-]; by apply timely_same|].
  unfold bind, modify, read_clock, bind, gets, modify, ret. simpl. intros [= <- <-].
  split; [split_and!; simpl; (done || lia)|]. split; [intros a q Hq; by exists q|].
  intros x s Hs. simpl. rewrite lookup_insert_ne.
  - exists s. split; [done|]. by apply later_same.
  - intros <-. destruct (inv_sessions _ _ _ H) as (_ & S2 & _). destruct (S2 _ _ Hs) as (? & _). lia.
Qed.

Lemma NewOwner_once ctx sid node scope options : ends_once (NewOwner ctx sid node scope options) c.
Proof.
  apply ends_timely. intros r c'. unfold NewOwner, ret.
  destruct (_ ;? _); [intros [= <- <-]; by apply timely_same|].
  unfold bind at 1, get_session, deref. destruct (c_heap c !! sid) as [s|] eqn:Hs; [|done].
  destruct (activeLocked s); [intros [= <- <-]; by apply timely_same|]. unfold bind at 1, gets at 1.
  destruct (_ || _); [intros [= <- <-]; by apply timely_same|].
  unfold bind, upd_session, modify. rewrite (alter_Some _ _ _ _ Hs). intros [= <- <-].
  eapply (timely_session c sid s); try done. by apply later_same.
Qed.

(** Reading the clock and bringing the session up to it. *)
Lemma clock_advance_once sid t c1 r c2 :
  read_clock c = Some (t, c1) → advanceLocked sid t c1 = Some (r, c2) →
  once c2 ∧ c_now c2 = c_now c.
Proof.
  intros Hrun1 Hrun2. destruct (read_clock_inv None None c H) as (t' & c1' & Hrun1' & H1 & _).
  rewrite Hrun1 in Hrun1'. injection Hrun1' as <- <-.
  destruct (read_clock_last _ _ _ Hrun1) as (El1 & T1 & En1).
  pose proof (timely_once _ _ Hm T1 Ho) as Ho1.
  destruct (advanceLocked_once sid t c1 r c2) as (Ho2 & En2 & _); try done; [by rewrite En1|].
  split; [done|congruence].
Qed.

Lemma requestLocked_once sid owner id : ends_once (requestLocked sid owner id) c.
Proof.
  intros r c'. unfold requestLocked, ret. destruct (Epoch id) as [epoch|]; [|intros [= <- <-]; done].
  unfold bind at 1, get_session, deref at 1. destruct (c_heap c !! sid) as [s|] eqn:Hs; [|done].
  destruct (activeLocked s); [intros [= <- <-]; done|].
  unfold bind at 1. destruct (read_clock c) as [[t c1]|] eqn:Hrun1; [|done].
  unfold bind at 1. destruct (advanceLocked sid t c1) as [[r2 c2]|] eqn:Hrun2; [|done].
  pose proof (clock_advance_once _ _ _ _ _ Hrun1 Hrun2) as Hend.
  destruct r2; [intros [= <- <-]; done|]. unfold bind at 1, deref at 1.
  destruct (c_heap c2 !! sid) as [s2|]; [|done].
  destruct (s_actions s2 !! id) as [a|]; [|intros [= <- <-]; done].
  unfold bind, get_request, deref. destruct (c_actions c2 !! a); [|done].
  destruct (negb _); intros [= <- <-]; done.
Qed.

Lemma findLocked_once sid node owner id : ends_once (findLocked sid node owner id) c.
Proof.
  intros r c'. unfold findLocked, bind at 1.
  destruct (requestLocked sid owner id c) as [[r1 c1]|] eqn:Hr; [|done].
  apply requestLocked_once in Hr. destruct r1 as [a|e]; [|intros [= <- <-]; done].
  unfold bind, get_request, deref, ret. destruct (c_actions c1 !! a); [|done].
  destruct (negb _); intros [= <- <-]; done.
Qed.

Lemma History_once ctx sid : ends_once (History ctx sid) c.
Proof.
  intros r c'. unfold History, ret. destruct (ctx 0%nat); [intros [= <- <-]; done|].
  unfold bind at 1, get_session, deref at 1. destruct (c_heap c !! sid) as [s|] eqn:Hs; [|done].
  destruct (activeLocked s); [intros [= <- <-]; done|].
  unfold bind at 1. destruct (read_clock c) as [[t c1]|] eqn:Hrun1; [|done].
  unfold bind at 1. destruct (advanceLocked sid t c1) as [[r2 c2]|] eqn:Hrun2; [|done].
  pose proof (clock_advance_once _ _ _ _ _ Hrun1 Hrun2) as Hend.
  destruct r2; [intros [= <- <-]; done|]. unfold bind, deref.
  destruct (c_heap c2 !! sid); [|done]. intros [= <- <-]. done.
Qed.

Lemma close_admission_once ctx sid : ends_once (close_admission ctx sid) c.
Proof.
  intros r c'. unfold close_admission, ret. destruct (ctx 0%nat); [intros [= <- <-]; done|].
  unfold bind at 1. destruct (read_clock c) as [[t c1]|] eqn:Hrun1; [|done].
  unfold bind at 1. destruct (advanceLocked sid t c1) as [[r2 c2]|] eqn:Hrun2; [|done].
  pose proof (clock_advance_once _ _ _ _ _ Hrun1 Hrun2) as Hend.
  destruct r2; [intros [= <- <-]; done|]. unfold bind, get_session, deref.
  destruct (c_heap c2 !! sid); [|done]. intros [= <- <-]. done.
Qed.

Lemma WithCloseAdmission_once ctx sid admission :
  ends_once (WithCloseAdmission ctx sid admission) c.
Proof.
  intros r c'. destruct admission as [callback|]; unfold WithCloseAdmission, ret;
    [|intros [= <- <-]; done].
  unfold bind. destruct (close_admission ctx sid c) as [[r1 c1]|] eqn:Hrun; [|done].
  intros [= <- <-]. by eapply close_admission_once.
Qed.
End sections.

Lemma cancel_once sid node owner id c :
  Inv None None c → monotone (c_now c) → once c → is_Some (c_heap c !! sid) →
  ends_once (cancel_section sid node owner id) c.
Proof.
  intros H Hm Ho Hs r c'. destruct (findLocked_inv sid node owner id c H Hs)
    as (r1 & c1 & Hrun & H1 & _ & Hr).
  destruct (findLocked_once c H Hm Ho _ _ _ _ _ _ Hrun) as [Ho1 En1].
  unfold cancel_section, bind at 1. rewrite Hrun. destruct r1 as [a|e]; [|intros [= <- <-]; done].
  destruct (Hr a eq_refl) as (q & s & Hq & Hs1 & Hsid & _).
  unfold bind at 1, get_request, deref at 1. rewrite Hq. unfold bind at 1.
  set (settle := if bool_decide _ then _ else _).
  destruct (settle c1) as [[[] c2]|] eqn:Hrun2; [|done].
  assert (S2 : steady c1 c2).
  { revert Hrun2. unfold settle. case_bool_decide; [|by intros [= <-]].
    destruct (complete_inv None None c1 a q s Cancelled NoRejection) as (c3 & -> & _ & ? & _);
      try done; [by left|by rewrite Hsid|]. by intros [= <-]. }
  unfold bind at 1. destruct (read_clock c2) as [[t c3]|] eqn:Hrun3; [|done].
  destruct (read_clock_last _ _ _ Hrun3) as (_ & T3 & En3).
  assert (En2 : c_now c2 = c_now c1) by apply S2.
  assert (Ho3 : once c3).
  { eapply timely_once; [|done|]; [by rewrite En2, En1|].
    eapply timely_once; [|by apply steady_timely|done]. by rewrite En1. }
  unfold bind, get_session, deref, ret. destruct (c_actions c3 !! a); [|done].
  destruct (c_heap c3 !! sid); [|done]. intros [= <- <-]. split; [done|congruence].
Qed.

Lemma retire_owner_once sid owner c :
  Inv None None c → monotone (c_now c) → once c → ends_once (retire_owner_section sid owner) c.
Proof.
  intros H Hm Ho r c'. unfold retire_owner_section, bind at 1, get_session, deref, ret.
  destruct (c_heap c !! sid) as [s|] eqn:Hh; [|done].
  destruct (_ || _); [intros [= <- <-]; done|].
  destruct (s_bindings s !! owner) as [b|] eqn:Hb; [|intros [= <- <-]; done].
  destruct (inv_sessions _ _ _ H) as (_ & S2 & _). destruct (S2 _ _ Hh) as (_ & Hr & He & _).
  assert (Hl : sid ∈ c_sessions c).
  { destruct (decide (sid ∈ c_sessions c)) as [|n]; [done|]. apply Hr in n.
    destruct (He n) as [E _]. by rewrite E in Hb. }
  assert (Hs : live_session c sid = Some s) by (by apply live_session_Some).
  destruct (drop_domains_inv sid (ob_node b) owner domains c s H Hs) as (c1 & Hrun & H1 & S1 & _).
  destruct (steady_live _ _ _ _ S1 Hs) as (s1 & [_ Hh1]%live_session_Some & _).
  unfold bind at 1. rewrite Hrun. unfold bind, upd_session, modify.
  rewrite (alter_Some _ _ _ _ Hh1). intros [= <- <-].
  assert (En : c_now c1 = c_now c) by apply S1. split; [|done].
  eapply (timely_once c1); [by rewrite En| |].
  - eapply (timely_session c1 sid s1); try done. by apply later_same.
  - eapply timely_once; [done|by apply steady_timely|done].
Qed.

Lemma retire_begin_once ctx_err sid c :
  monotone (c_now c) → once c → ends_once (retire_begin ctx_err sid) c.
Proof.
  intros Hm Ho. apply ends_timely; [done..|]. intros r c'.
  unfold retire_begin, bind at 1, get_session, deref, ret.
  destruct (c_heap c !! sid) as [s|] eqn:Hs; [|done].
  destruct (s_retired s) eqn:Hr; [intros [= <- <-]; by apply timely_same|].
  destruct (s_retireDone s); [intros [= <- <-]; by apply timely_same|].
  destruct ctx_err; [intros [= <- <-]; by apply timely_same|]. unfold bind, upd_session, modify.
  rewrite (alter_Some _ _ _ _ Hs). intros [= <- <-].
  eapply (timely_session c sid s); try done. by apply later_same.
Qed.

Lemma retire_finish_once sid err c :
  monotone (c_now c) → once c → is_Some (c_heap c !! sid) → ends_once (retire_finish sid err) c.
Proof.
  intros Hm Ho [s Hs]. apply ends_timely; [done..|]. intros [] c'.
  unfold retire_finish, bind at 1, upd_session at 1, modify at 1.
  rewrite (alter_Some _ _ _ _ Hs). unfold bind.
  destruct err as [e|]; unfold ret, upd_session, modify.
  - simpl. erewrite alter_Some by apply lookup_insert_eq. rewrite insert_insert_eq. intros [= <-].
    eapply (timely_session c sid s); try done. by apply later_same.
  - unfold retire_free, bind, gets, modify, deref, get_session, upd_session. simpl.
    destruct (without_session _ _ _); [|done]. unfold deref. simpl. rewrite lookup_insert_eq. simpl.
    rewrite alter_alter_eq.
    erewrite alter_Some by apply lookup_insert_eq. rewrite insert_insert_eq. intros [= <-].
    eapply (timely_session c sid s); try done. split_and!; [done|by left|]. intros. by left.
Qed.

Lemma void_once {A} (m : C A) c : ends_once m c → ends_once (void m) c.
Proof.
  intros Hm r c'. unfold void, bind. destruct (m c) as [[a c1]|] eqn:E; [|done].
  intros [= <- <-]. by eapply Hm.
Qed.

Lemma run_once c l : Inv None None c → monotone (c_now c) → once c → valid c l → ends_once (run l) c.
Proof.
  intros H Hm Ho Hv.
  assert (Hsame : ∀ (A : Type) (m : C A), (∃ r, m c = Some (r, c)) → ends_once m c).
  { intros A m [r Hr] r' c' Hr'. by simplify_eq. }
  destruct l; simpl in Hv; unfold run; try apply void_once.
  - by apply NewSession_once.
  - by apply NewOwner_once.
  - apply Hsame. by apply owner_binding_pure.
  - by apply History_once.
  - by apply WithCloseAdmission_once.
  - apply Hsame. by apply conflict_section_inv.
  - destruct Hv as (Hs & Ha & He).
    destruct (apply_section_once sid node owner epoch commands id order c H Hm Ho Hs Ha He)
      as (r & c' & Hr & Hend). intros r' c'' Hr'. by simplify_eq.
  - apply ends_same; [done..|]. intros r c'. unfold apply_receipt, bind, get_session, deref, ret.
    destruct (c_heap c !! sid) as [s|]; [|done]. destruct (activeLocked s); [intros [= <- <-]; done|].
    destruct (negb _); [intros [= <- <-]; done|]. unfold read_clock, bind, gets, modify, ret, get_request, deref.
    simpl. destruct (c_actions c !! action); [|done]. intros [= <- <-]. simpl. split_and!; done || lia.
  - destruct Hv as [q Hq]. unfold bind, get_request, deref.
    destruct (advance_ordered_inv c action q H Hq) as (r & c' & Hr & _ & S).
    intros r' c''. rewrite Hq. apply void_once. apply ends_steady; eauto.
  - by apply findLocked_once.
  - intros r c'. unfold RequestNode, ret. destruct (ctx 0%nat); [intros [= <- <-]; done|].
    unfold bind at 1. destruct (requestLocked sid owner id c) as [[r1 c1]|] eqn:Hr; [|done].
    apply requestLocked_once in Hr; [|done..]. destruct r1; [|intros [= <- <-]; done].
    unfold bind, get_request, deref. destruct (c_actions c1 !! a); [|done]. by intros [= <- <-].
  - apply ends_same; [done..|]. intros r c'. unfold query_receipt, bind, get_session, deref, ret.
    destruct (c_heap c !! sid) as [s|]; [|done]. destruct (activeLocked s); [intros [= <- <-]; done|].
    unfold read_clock, bind, gets, modify, ret, get_request, deref.
    simpl. destruct (c_actions c !! action); [|done]. intros [= <- <-]. simpl. split_and!; done || lia.
  - by apply cancel_once.
  - destruct (drop_section_inv sid node owner domain c H Hv) as (r & c' & ? & _ & ?).
    apply ends_steady; eauto.
  - by apply retire_owner_once.
  - by apply retire_begin_once.
  - destruct Hv as (s & Hs & _). apply retire_finish_once; eauto.
  - apply ends_same; [done..|]. intros r c'. unfold AddUse, bind, gets, modify, ret.
    repeat case_match; intros [= <- <-]; done.
  - apply ends_same; [done..|]. intros r c'. unfold DropUse, bind, gets, modify, ret.
    repeat case_match; intros [= <- <-]; done.
  - apply ends_same; [done..|]. intros r c'. unfold DropUseExact, bind, gets, modify, ret.
    repeat case_match; intros [= <- <-]; done.
  - apply ends_same; [done..|]. intros r c'. unfold AcquireMaterialization, bind, gets, modify, ret.
    repeat case_match; intros [= <- <-]; done.
  - apply ends_same; [done..|]. intros r c'. unfold release_materialization, bind, gets, modify, ret.
    repeat case_match; intros [= <- <-]; done.
Qed.

Lemma New_once config now c : New config now = Ok c → once c.
Proof.
  unfold New. destruct (Config_Check config); [done|]. intros [= <-].
  split_and!; intros *; simpl; by rewrite lookup_empty.
Qed.

Lemma reaches_once now c : reaches now c → monotone now → once c ∧ c_now c = now.
Proof.
  intros Hc Hm. induction Hc as [config c Hn|c l c' Hr IH [Hv Hrun]].
  - split; [by eapply New_once|]. unfold New in Hn. destruct (Config_Check config); [done|].
    by injection Hn as <-.
  - destruct IH as [Ho En]. assert (Inv None None c) as Hi by (apply reachable_inv; by exists now).
    destruct (run_once c l Hi) with (r := tt) (c' := c') as [? E]; try done; [by rewrite En|].
    split; [done|congruence].
Qed.
