(* ===== verification/AdvisoryTheorems.v ===== *)
(** * The advisory coordinator: what it promises

    The properties of [packages/advisory] over every reachable state of the
    transition system of [AdvisorySteps]. *)

From stdpp Require Import relations.
From S2P Require Import Prelude Errors Identity Ranges Extents AdvisoryState Conflicts Deadlock Coordinator Uses AdvisoryInv AdvisoryEdits AdvisoryOps AdvisorySections AdvisorySteps AdvisoryOnce.

(** ** Protection *)

(** C1: mutual exclusion.  Whatever the callers of a coordinator do and however
    their calls interleave, two owners that hold overlapping ranges of one node
    in one domain both hold them shared: an exclusive range is never held
    together with any other owner's range that overlaps it. *)
Theorem mutual_exclusion (c : coordinator) (k1 k2 : ownerKey) (o1 o2 : ownerState)
    (d1 d2 : rangeClaim) :
  reachable c →
  c_owners c !! k1 = Some o1 → c_owners c !! k2 = Some o2 → k1 ≠ k2 →
  ok_node k1 = ok_node k2 → ok_domain k1 = ok_domain k2 →
  d1 ∈ os_ranges o1 → d2 ∈ os_ranges o2 →
  overlaps (cl_range d1) (cl_range d2) = true →
  rc_Mode (cl_command d1) = RangeShared ∧ rc_Mode (cl_command d2) = RangeShared.
Proof.
  intros Hc%reachable_inv H1 H2 Hne Hn Hd Hd1 Hd2 Hov.
  apply and_comm, blocks_shared.
  - rewrite overlaps_sym; [done|apply range_ok_kind..].
    + eapply held_ok_range; [apply (inv_owners _ _ _ Hc k2 o2 H2)|done].
    + eapply held_ok_range; [apply (inv_owners _ _ _ Hc k1 o1 H1)|done].
  - eapply (inv_exclusion _ _ _ Hc k1 o1 d1 k2 o2 d2); try done.
    unfold rival. rewrite bool_decide_false by done. by rewrite Hn, Hd, !Z.eqb_refl.
Qed.

(** Two shared record locks over bytes five to nine. *)
Definition shared_locks : list section :=
  two_owners ++ [lock 1 RangeShared 0 10 false 1; lock 2 RangeShared 5 10 false 2].

Definition record_key (sid : Z) : ownerKey := mkKey sid 1 7 DomainRecord.

Definition record_claim (mode start length : Z) : rangeClaim :=
  {| cl_id := EmptyString; cl_command := as_held (example_command mode start length Replace) |}.

Lemma mutual_exclusion_witness :
  overlaps (mkRange Bytes 0 10 0) (mkRange Bytes 5 10 0) = true
  ∧ rc_Mode (cl_command (record_claim RangeShared 0 10)) = RangeShared.
Proof.
  split; [reflexivity|].
  refine (proj1 (mutual_exclusion (after shared_locks) (record_key 1) (record_key 2)
    (mkOwner [record_claim RangeShared 0 10] 0) (mkOwner [record_claim RangeShared 5 10] 0)
    (record_claim RangeShared 0 10) (record_claim RangeShared 5 10) (after_reachable _)
    _ _ _ _ _ _ _ _)); try (vm_compute; reflexivity); try (by left).
  intros [=].
Defined.

(** C20: the counters of a coordinator are exact: the ranges, queued requests,
    retained requests, registered owners and outstanding materializations with
    their bytes that it counts, in total and per owner or session, are the ones
    it holds, and none ever exceeds its configured limit. *)
Theorem accounting_exact (c : coordinator) :
  reachable c →
  c_ranges c = range_count any_key (c_owners c) ∧ c_ranges c <= cfg_MaxRanges (c_config c)
  ∧ c_requests c = msum (λ _ s, Z.of_nat (size (s_actions s))) (c_heap c)
  ∧ c_requests c <= cfg_MaxRequests (c_config c)
  ∧ c_registeredOwners c = msum (λ _ s, Z.of_nat (size (s_bindings s))) (c_heap c)
  ∧ c_registeredOwners c + Z.of_nat (size (c_uses c)) <= cfg_MaxOwners (c_config c)
  ∧ zlen (c_waiting c) <= cfg_MaxWaiters (c_config c)
  ∧ Z.of_nat (size (c_sessions c)) <= cfg_MaxSessions (c_config c)
  ∧ c_materializations c = Z.of_nat (size (c_reservations c))
  ∧ c_materializations c <= cfg_MaxMaterializations (c_config c)
  ∧ c_materializedBytes c = msum (λ _ bytes, bytes) (c_reservations c)
  ∧ c_materializedBytes c <= cfg_MaxMaterializedBytes (c_config c)
  ∧ (∀ key o, c_owners c !! key = Some o → os_pending o = queue_count c (key_is key))
  ∧ ∀ sid s, c_heap c !! sid = Some s →
      s_ranges s = range_count (session_is sid) (c_owners c)
      ∧ s_ranges s <= fso_MaxLockRanges (s_options s)
      ∧ s_pending s = queue_count c (session_is sid)
      ∧ s_pending s <= fso_MaxPendingLocks (s_options s)
      ∧ s_pending s <= fso_MaxWaiters (s_options s)
      ∧ s_owners s = Z.of_nat (size (s_bindings s))
      ∧ Z.of_nat (size (s_bindings s)) <= fso_MaxLockOwners (s_options s)
      ∧ Z.of_nat (size (s_actions s)) <= fso_MaxLockActions (s_options s).
Proof.
  intros Hc%reachable_inv.
  destruct (inv_counts _ _ _ Hc) as (? & ? & ? & Hs).
  destruct (inv_bounds _ _ _ Hc) as (_ & ? & ? & ? & ? & ? & Hb).
  destruct (inv_sessions _ _ _ Hc) as (_ & Hok & _).
  destruct (inv_materializations _ _ _ Hc) as (? & ? & _ & ? & ?).
  split_and!; try done.
  - intros key o Ho. apply (inv_owners _ _ _ Hc key o Ho).
  - intros sid s Hsid. destruct (Hs sid s Hsid), (Hb sid s Hsid) as (? & ? & ?).
    destruct (Hok sid s Hsid) as (_ & _ & _ & _ & ? & ? & ? & _). by split_and!.
Qed.

(** Three locks, one of them queued behind the other owner. *)
Definition queued_lock : list section :=
  shared_locks ++ [lock 2 RangeExclusive 5 10 true 3].

Lemma accounting_exact_witness :
  c_ranges (after queued_lock) = 2 ∧ c_requests (after queued_lock) = 3
  ∧ c_ranges (after queued_lock) = range_count any_key (c_owners (after queued_lock)).
Proof.
  split; [vm_compute; reflexivity|]. split; [vm_compute; reflexivity|].
  exact (proj1 (accounting_exact (after queued_lock) (after_reachable _))).
Defined.

(** C22: no critical section panics.  In every reachable state, a section that is
    given pointers its caller can hold runs to its end: no nil owner, session or
    request is used, no index is out of range, and the deadlock search ends. *)
Theorem sections_complete (c : coordinator) (l : section) :
  reachable c → valid c l → ∃ c', step c l c'.
Proof.
  intros Hc%reachable_inv Hv. destruct (run_inv c l Hc Hv) as (c' & Hr & _). exists c'. by split.
Qed.

Lemma sections_complete_witness :
  ∃ c', step (after queued_lock) (DoRetireOwner 1 1) c'.
Proof.
  apply (sections_complete (after queued_lock) (DoRetireOwner 1 1) (after_reachable _)).
  vm_compute. eexists. reflexivity.
Defined.




(** ** Diagnosis *)

(** The conflict a command meets is exact and reproducible.  In a reachable
    state [conflictLocked] reports a conflict exactly when a rival holds a range
    that overlaps the command's and one of the two is exclusive; the one
    reported starts first, and among those belongs to the least owner, so that
    the answer does not depend on the order in which the owners are visited. *)
Theorem conflict_exact (c : coordinator) (key : ownerKey) (command : RangeCommand) :
  reachable c →
  ∃ conflict, conflictLocked c key command = Some conflict
    ∧ (cf_Found conflict = true ↔ ∃ other held, stands_against c key command other held)
    ∧ (cf_Found conflict = true →
       ∃ other held, stands_against c key command other held ∧ reports c conflict other held
         ∧ ∀ other' held', stands_against c key command other' held' →
             precedes (other, held) (other', held')).
Proof.
  intros Hc%reachable_inv.
  destruct (conflictLocked_spec c key command (Inv_owners_live _ _ _ Hc)) as (x & Hx & Hspec).
  exists x. split; [done|]. destruct (cf_Found x).
  - split; [|done]. split; [|done]. intros _. destruct Hspec as (other & held & ? & _). eauto.
  - split; [|done]. split; [done|]. intros (other & held & Hst). by destruct (proj2 Hspec other held).
Qed.

Lemma conflict_exact_witness :
  ∃ conflict, conflictLocked (after shared_locks) (record_key 2)
                (example_command RangeExclusive 0 100 Replace) = Some conflict
    ∧ (cf_Found conflict = true ↔ ∃ other held, stands_against (after shared_locks) (record_key 2)
         (example_command RangeExclusive 0 100 Replace) other held)
    ∧ (cf_Found conflict = true →
       ∃ other held, stands_against (after shared_locks) (record_key 2)
         (example_command RangeExclusive 0 100 Replace) other held
         ∧ reports (after shared_locks) conflict other held
         ∧ ∀ other' held', stands_against (after shared_locks) (record_key 2)
             (example_command RangeExclusive 0 100 Replace) other' held' →
             precedes (other, held) (other', held')).
Proof. exact (conflict_exact (after shared_locks) _ _ (after_reachable _)). Defined.

(** C4: deadlock detection is exact within its bound.  For a live session's
    request [deadlockLocked] answers: the wait graph of the queued requests and
    the candidate is within [MaxDeadlockEdges] or not, and, when it is, there is
    a deadlock exactly when the candidate's participant waits for itself through
    a chain of held-up requests. *)
Theorem deadlock_exact (c : coordinator) (key : ownerKey) (commands : list RangeCommand) :
  reachable c → ok_session key ∈ c_sessions c →
  let requests := queued_requests c (c_waiting c) ++ [(key, commands)] in
  let bounded := Z.of_nat (length (wait_graph c requests)) <= cfg_MaxDeadlockEdges (c_config c) in
  ∃ deadlock within,
    deadlockLocked c key commands = Some (deadlock, within)
    ∧ (within = true ↔ bounded)
    ∧ (deadlock = true ↔
       bounded ∧ ∃ p, participant c key = Some p ∧ tc (waits_for c requests) p p).
Proof.
  intros Hc%reachable_inv Hl. apply deadlockLocked_spec.
  - exact (Inv_owners_live _ _ _ Hc).
  - intros a Ha. destruct (inv_waiting _ _ _ Hc) as [_ Hw].
    destruct (Hw a Ha) as (q & ? & Hlq & _). exists q. split; [done|].
    destruct (live_session_lookup c _ (inv_sessions _ _ _ Hc) Hlq) as [? ?]. eauto.
  - destruct (live_session_lookup c _ (inv_sessions _ _ _ Hc) Hl) as [s Hs]. eauto.
  - destruct (inv_bounds _ _ _ Hc) as (Hcfg & _). unfold Config_Check in Hcfg.
    destruct (_ || _) eqn:E in Hcfg; [done|]. bool_prop. lia.
Qed.

(** Each of two owners holds a byte and wants the other's; the second waits. *)
Definition crossed : list section :=
  two_owners ++ [lock 1 RangeExclusive 0 1 false 1; lock 2 RangeExclusive 1 1 false 2;
                 lock 2 RangeExclusive 0 1 true 3].

Lemma deadlock_exact_witness :
  ∃ deadlock within,
    deadlockLocked (after crossed) (record_key 1) [example_command RangeExclusive 1 1 Replace]
    = Some (deadlock, within)
    ∧ deadlock = true.
Proof.
  destruct (deadlock_exact (after crossed) (record_key 1)
    [example_command RangeExclusive 1 1 Replace] (after_reachable _)) as (d & w & Hd & _ & _).
  - vm_compute. reflexivity.
  - exists d, w. split; [exact Hd|]. vm_compute in Hd. by injection Hd as <- _.
Defined.

(** ** Requests *)

(** C2: a request identity is executed at most once.  With a clock that does not
    run backwards, the locked section of [Apply] under an identity that any
    request of the session ever had, retained or pruned, starts nothing: owners,
    queue and requests stay as they are.  The only answer without an error is
    for the same owner, node and commands, and it is the recorded result of the
    original request with the time its history has left at this reading of the
    clock. *)
Theorem request_executed_once (now : nat → Z) (c c' : coordinator) (a : reqid) (q : request)
    (sid node owner epoch : Z) (commands : list RangeCommand) (id : LockRequestID) (order : Order)
    (r : result (RangeAttempt * reqid)) :
  reaches now c → monotone now →
  c_actions c !! a = Some q → ok_session (q_key q) = sid → q_id q = id →
  valid c (DoApply sid node owner epoch commands id order) →
  apply_section sid node owner epoch commands id order c = Some (r, c') →
  c_owners c' = c_owners c ∧ c_waiting c' = c_waiting c ∧ c_actions c' = c_actions c
  ∧ ∀ receipt b, r = Ok (receipt, b) →
      b = a ∧ q_commands q = commands ∧ ok_owner (q_key q) = owner ∧ ok_node (q_key q) = node
      ∧ ∃ s, c_heap c !! sid = Some s
        ∧ receipt = set_ra_HistoryRemaining
                      (if bool_decide (ra_State (q_result q) = Pending) then fso_History (s_options s)
                       else Z.max 0 (q_expires q - now (c_reads c))) (q_result q).
Proof.
  intros Hc Hm Hq Hsid Hid (_ & Hargs & Hep) Hrun. destruct (reaches_once now c Hc Hm) as [Ho En].
  assert (Inv None None c) as H by (apply reachable_inv; by exists now). clear Hc.
  subst now. revert Hrun. unfold apply_section, bind at 1, get_session, deref at 1.
  destruct (c_heap c !! sid) as [s|] eqn:Hh; [|done].
  destruct (activeLocked s ;? _) eqn:E; [by intros [= <- <-]|]. apply orelse_None in E as [Hact Hown].
  pose proof (active_live c sid s (inv_sessions _ _ _ H) Hh Hact) as Hs.
  destruct (read_clock_inv None None c H) as (t & c1 & Hrun1 & H1 & A1 & _).
  destruct (read_clock_last _ _ _ Hrun1) as (El1 & T1 & En1).
  pose proof (timely_once _ _ Hm T1 Ho) as Ho1. unfold bind at 1. rewrite Hrun1.
  destruct (aged_heap _ _ _ _ A1 Hh) as [s1 Hh1].
  destruct (advanceLocked_inv sid t c1 H1) as (r2 & c2 & Hrun2 & H2 & A2); [by exists s1|].
  destruct (advanceLocked_once sid t c1 r2 c2) as (Ho2 & En2 & El2 & Hnext); try done; [by rewrite En1|].
  unfold bind at 1. rewrite Hrun2. assert (A : aged c c2) by (by etrans).
  destruct A as (_ & _ & Eo & Ea & Ew & _ & Eh). destruct r2; [by intros [= <- <-]|].
  assert (t = c_now c (c_reads c)) as Ht by (unfold read_clock, bind, gets in Hrun1; by injection Hrun1).
  destruct (Hnext eq_refl) as (s2 & Hh2 & Hlt). destruct Hargs as [Hcc _].
  destruct commands as [|first rest]; [done|]. unfold bind at 1, deref. cbn [head].
  unfold apply_transition, bind at 1, get_session, deref at 1. rewrite Hh2.
  destruct Ho2 as (O1 & O2 & O3). rewrite <- Ea in Hq.
  destruct (s_actions s2 !! id) as [old|] eqn:Hold.
  - destruct (inv_sessions _ _ _ H2) as (_ & _ & S3).
    destruct (S3 _ _ _ _ Hh2 Hold) as (qo & Hqo & Hido & Hso).
    assert (old = a) as -> by (eapply O3; [done|done|congruence|congruence]).
    simplify_eq. unfold bind, get_request, deref. rewrite Hq. destruct (_ || _) eqn:Ec.
    { by intros [= <- <-]. }
    intros [= <- <-]. bool_prop. split_and!; try done. intros ? ? [= <- <-].
    split; [done|]. split; [done|]. rewrite H0. split; [done|]. split; [done|]. exists s. split; [done|].
    destruct (Eh _ s Hh) as (s2' & Hs2' & Eopt & _). unfold receiptLocked. simplify_eq. by rewrite Eopt, Ht.
  - destruct (O2 a q Hq) as (s2' & Hs2' & _ & Hacc). rewrite Hsid in Hs2'. simplify_eq.
    pose proof (O1 a q Hq) as Hepq. rewrite Hep in Hepq. injection Hepq as Hepq.
    destruct (inv_sessions _ _ _ H2) as (_ & S2 & _). destruct (S2 _ _ Hh2) as (_ & Hr & _).
    assert (Hl2 : ok_session (q_key q) ∈ c_sessions c2).
    { destruct A1 as (_ & E1 & _), A2 as (_ & E2 & _). rewrite E2, E1.
      by apply live_session_Some in Hs as [? _]. }
    destruct (Z.eqb_spec epoch (s_epoch s2)) as [Heq|Hne]; simpl; [|by intros [= <- <-]].
    exfalso. unfold accounted in Hacc. destruct Hacc as [Hret|[Hin|[?|?]]]; [by apply Hr in Hret|congruence|lia|lia].
Qed.

(** The first lock of the example, sent again. *)
Lemma request_executed_once_witness :
  ∃ r c', apply_section 1 7 1 1 [example_command RangeShared 0 10 Replace] (example_id 1) 0%nat
            (after shared_locks) = Some (r, c')
          ∧ c_actions c' = c_actions (after shared_locks)
          ∧ ∃ receipt, r = Ok (receipt, 0%nat).
Proof.
  destruct (apply_section 1 7 1 1 [example_command RangeShared 0 10 Replace] (example_id 1) 0%nat
              (after shared_locks)) as [[r c']|] eqn:E; [|vm_compute in E; discriminate].
  exists r, c'. split; [reflexivity|]. split.
  - refine (proj1 (proj2 (proj2 (request_executed_once ticking (after shared_locks) c' 0%nat _
      1 7 1 1 _ _ _ _ (after_reaches _) _ _ _ _ _ E)))).
    + intros n m Hle. unfold ticking. lia.
    + vm_compute. reflexivity.
    + vm_compute. reflexivity.
    + vm_compute. reflexivity.
    + apply (bool_decide_unpack _). vm_compute. exact I.
  - vm_compute in E. injection E as <- _. eexists. reflexivity.
Defined.
