(* ===== verification/AdvisoryCalls.v ===== *)
(** * The advisory coordinator: whole calls

    The exported operations as [Coordinator] composes them refine the
    transition system: run without interference, each is a path of sections, so
    what holds of reachable states holds after every call. *)

From stdpp Require Import relations.
From S2P Require Import Prelude Errors Identity Ranges Extents AdvisoryState Conflicts Deadlock Coordinator Uses AdvisoryInv AdvisoryEdits AdvisoryOps AdvisorySections AdvisorySteps.

(** ** Paths *)

Definition path : relation coordinator := rtc (λ c c', ∃ l, step c l c').

Lemma path_inv c c' : Inv None None c → path c c' → Inv None None c'.
Proof.
  intros H. induction 1 as [|c c1 c2 (l & Hv & Hr) _ IH]; [done|].
  destruct (run_inv c l H Hv) as (c3 & Hr' & Hi). apply IH. congruence.
Qed.

Lemma path_step c l c' : valid c l → run l c = Some (tt, c') → path c c'.
Proof. intros. apply rtc_once. exists l. by split. Qed.

Lemma void_run {A} (m : C A) c r c' : m c = Some (r, c') → void m c = Some (tt, c').
Proof. intros Hm. unfold void, bind. by rewrite Hm. Qed.

(** A computation that is a path, and whose end satisfies a property. *)
Definition walks {A} (m : C A) (c : coordinator) (Q : A → coordinator → Prop) : Prop :=
  ∃ r c', m c = Some (r, c') ∧ path c c' ∧ Q r c'.

Lemma walks_section {A} (m : C A) l c (Q : A → coordinator → Prop) :
  run l = void m → valid c l → (∃ r c', m c = Some (r, c') ∧ Q r c') → walks m c Q.
Proof.
  intros E Hv (r & c' & Hm & HQ). exists r, c'. split; [done|]. split; [|done].
  apply (path_step c l); [done|]. rewrite E. by eapply void_run.
Qed.

Lemma walks_bind {A B} (m : C A) (k : A → C B) c (Q : A → coordinator → Prop) R :
  Inv None None c → walks m c Q →
  (∀ r c', Inv None None c' → path c c' → Q r c' → walks (k r) c' R) → walks (bind m k) c R.
Proof.
  intros H (r & c1 & Hm & P1 & HQ) Hk. pose proof (path_inv c c1 H P1) as H1.
  destruct (Hk r c1 H1 P1 HQ) as (r2 & c2 & Hm2 & P2 & HR). exists r2, c2.
  unfold bind. rewrite Hm. split; [done|]. split; [by etrans|done].
Qed.

Lemma walks_ret {A} (a : A) c (Q : A → coordinator → Prop) : Q a c → walks (ret a) c Q.
Proof. intros HQ. exists a, c. split; [done|]. split; [constructor|done]. Qed.

Lemma walks_gets {A} (f : coordinator → A) c (Q : A → coordinator → Prop) :
  Q (f c) c → walks (gets f) c Q.
Proof. intros HQ. exists (f c), c. split; [done|]. split; [constructor|done]. Qed.

Lemma walks_conseq {A} (m : C A) c (Q R : A → coordinator → Prop) :
  walks m c Q → (∀ r c', path c c' → Q r c' → R r c') → walks m c R.
Proof. intros (r & c' & Hm & P & HQ) H. exists r, c'. eauto. Qed.

(** ** Pointers stay valid *)

Definition has_session (sid : Z) (c : coordinator) : Prop := is_Some (c_heap c !! sid).
Definition has_request (a : reqid) (c : coordinator) : Prop := is_Some (c_actions c !! a).

Lemma steady_has c c' sid a :
  steady c c' → (has_session sid c → has_session sid c') ∧ (has_request a c → has_request a c').
Proof.
  intros (_ & _ & Hh & Ha & _). split; intros [x Hx].
  - destruct (Hh _ _ Hx) as (x' & ? & _). by exists x'.
  - destruct (Ha _ _ Hx) as (x' & ? & _). by exists x'.
Qed.

(** ** The building blocks *)

Lemma run_order_walks {A} (v : verdict) (m : C (result A)) c (Q : coordinator → Prop) :
  Q c → walks m c (λ _, Q) → walks (run_order v m) c (λ _, Q).
Proof.
  intros Hc (r & c' & Hm & P & HQ). destruct v; unfold run_order, walks, bind, ret; rewrite ?Hm.
  - eauto 10.
  - eexists _, c. split; [done|]. split; [constructor|done].
  - eauto 10.
Qed.

Lemma advance_walks gate c a :
  Inv None None c → has_request a c → walks (advance gate a) c (λ _, steady c).
Proof.
  intros H [q Hq]. unfold advance. apply walks_bind with (Q := λ r c', r = q ∧ c' = c); [done|..].
  { exists q, c. unfold get_request, deref. rewrite Hq. split; [done|]. split; [constructor|done]. }
  intros q' c' _ _ [-> ->]. apply walks_bind with (Q := λ _ c', c' = c); [done|by apply walks_gets|].
  intros s c' _ _ ->. destruct s as [s|]; [|by apply walks_ret].
  destruct (q_order q) as [order|]; [|by apply walks_ret].
  destruct (_ || _); [by apply walks_ret|].
  apply walks_bind with (Q := λ _, steady c); [done|..].
  2: { intros r c' _ _ S. by apply walks_ret. }
  apply run_order_walks; [done|].
  destruct (advance_ordered_inv c a q H Hq) as (r & c' & Hr & _ & S). exists r, c'.
  split; [done|]. split; [|done]. apply (path_step c (DoAdvance a)); [by exists q|].
  unfold run, bind, get_request, deref. rewrite Hq. by eapply void_run.
Qed.

Lemma pump_candidates_walks ctx gate candidates : ∀ k c,
  Inv None None c → (∀ a, a ∈ candidates → has_request a c) →
  walks (pump_candidates ctx gate k candidates) c (λ _, steady c).
Proof.
  induction candidates as [|a candidates IH]; intros k c H Hin; simpl; [by apply walks_ret|].
  destruct (ctx k); [by apply walks_ret|].
  apply walks_bind with (Q := λ _, steady c); [done|apply advance_walks; [done|apply Hin; set_solver]|].
  intros r c1 H1 _ S1. eapply walks_conseq; [apply IH; [done|]|].
  - intros b Hb. apply (steady_has c c1 0 b S1), Hin. set_solver.
  - intros ? c2 _ S2. by etrans.
Qed.

Lemma pump_passes_walks ctx gate passes : ∀ k c,
  Inv None None c → walks (pump_passes passes ctx gate k) c (λ _, steady c).
Proof.
  induction passes as [|passes IH]; intros k c H; simpl; [by apply walks_ret|].
  apply walks_bind with (Q := λ _ c', c' = c); [done|by apply walks_gets|]. intros before c' _ _ ->.
  destruct (ready_requests_spec c (c_waiting c) (Inv_owners_live _ _ _ H)) as (cands & Hr & Hsub & _).
  { intros a. by eapply Inv_queue_requests. }
  apply walks_bind with (Q := λ r c', r = cands ∧ c' = c); [done|..].
  { exists cands, c. unfold deref. rewrite Hr. split; [done|]. split; [constructor|done]. }
  intros r c' _ _ [-> ->]. destruct cands as [|a cands]; [by apply walks_ret|].
  apply walks_bind with (Q := λ _, steady c); [done|..].
  { apply pump_candidates_walks; [done|]. intros b Hb. eapply Inv_queue_requests; [done|].
    by eapply elem_of_submseteq, sublist_submseteq. }
  intros next c1 H1 _ S1. destruct next as [k'|]; [|by apply walks_ret].
  apply walks_bind with (Q := λ _ c', c' = c1); [done|by apply walks_gets|]. intros rem c' _ _ ->.
  destruct (_ <=? _)%nat; [by apply walks_ret|].
  eapply walks_conseq; [by apply IH|]. intros ? c2 _ S2. by etrans.
Qed.

Lemma pump_walks ctx gate k c : Inv None None c → walks (pump ctx gate k) c (λ _, steady c).
Proof.
  intros H. unfold pump. apply walks_bind with (Q := λ _ c', c' = c); [done|by apply walks_gets|].
  intros limit c' _ _ ->. by apply pump_passes_walks.
Qed.

(** ** Calls *)

Inductive operation :=
| CallApply (ctx : context) (gate : gates) (sid node owner : Z) (commands : list RangeCommand)
    (id : LockRequestID) (order : option Order)
| CallQuery (ctx : context) (gate : gates) (sid node owner : Z) (id : LockRequestID)
| CallCancel (ctx : context) (gate : gates) (sid node owner : Z) (id : LockRequestID)
| CallGetConflict (ctx : context) (gate : gates) (sid node owner : Z) (command : RangeCommand)
    (order : option Order)
| CallDrop (ctx : context) (gate : gates) (sid node owner domain : Z)
| CallRetireOwner (ctx : context) (gate : gates) (sid owner : Z)
| CallRetire (ctx : context) (gate : gates) (select fence : option error) (sid : Z)
| CallNewSession (options : FileSessionOptions) (fence : bool)
| CallNewOwner (ctx : context) (sid node : Z) (scope : UseScope) (options : OwnerOptions)
| CallOwnerNode (ctx : context) (sid owner : Z)
| CallOwnerScope (ctx : context) (sid owner : Z)
| CallRequestNode (ctx : context) (sid owner : Z) (id : LockRequestID)
| CallHistory (ctx : context) (sid : Z)
| CallEpoch (ctx : context) (sid : Z)
| CallWithCloseAdmission (ctx : context) (sid : Z) (admission : option (Z → option error))
| CallCloseEpoch (ctx : context) (sid : Z)
| CallIOHealth (ctx : context) (sid node : Z)
| CallAddUse (ctx : context) (node : Z) (scope : UseScope) (claim : UseClaim)
| CallDropUse (ctx : context) (node : Z) (scope : UseScope)
| CallDropUseExact (ctx : context) (node : Z) (scope : UseScope) (claim : UseClaim)
| CallCheckCloseUnlink (ctx : context) (node : Z) (scope : UseScope) (claim : UseClaim)
| CallCheckUse (ctx : context) (node : Z) (scope : UseScope) (uses : Uses)
| CallCheckIO (ctx : context) (node : Z) (scope : UseScope) (extent : Range) (uses : Uses)
| CallAcquireMaterialization (ctx : context) (bytes : Z)
| CallRelease (handle : nat)
| CallFileOperationLimits.

Definition perform (op : operation) : C unit :=
  match op with
  | CallApply ctx gate sid node owner commands id order =>
      void (Apply ctx gate sid node owner commands id order)
  | CallQuery ctx gate sid node owner id => void (Query ctx gate sid node owner id)
  | CallCancel ctx gate sid node owner id => void (Cancel ctx gate sid node owner id)
  | CallGetConflict ctx gate sid node owner command order =>
      void (GetConflict ctx gate sid node owner command order)
  | CallDrop ctx gate sid node owner domain => void (Drop ctx gate sid node owner domain)
  | CallRetireOwner ctx gate sid owner => void (RetireOwner ctx gate sid owner)
  | CallRetire ctx gate select fence sid => void (Retire ctx gate select fence sid)
  | CallNewSession options fence => void (NewSession options fence)
  | CallNewOwner ctx sid node scope options => void (NewOwner ctx sid node scope options)
  | CallOwnerNode ctx sid owner => void (OwnerNode ctx sid owner)
  | CallOwnerScope ctx sid owner => void (OwnerScope ctx sid owner)
  | CallRequestNode ctx sid owner id => void (RequestNode ctx sid owner id)
  | CallHistory ctx sid => void (History ctx sid)
  | CallEpoch ctx sid => void (Session_Epoch ctx sid)
  | CallWithCloseAdmission ctx sid admission => void (WithCloseAdmission ctx sid admission)
  | CallCloseEpoch ctx sid => void (CloseEpoch ctx sid)
  | CallIOHealth ctx sid node => void (IOHealth ctx sid node)
  | CallAddUse ctx node scope claim => void (AddUse ctx node scope claim)
  | CallDropUse ctx node scope => void (DropUse ctx node scope)
  | CallDropUseExact ctx node scope claim => void (DropUseExact ctx node scope claim)
  | CallCheckCloseUnlink ctx node scope claim =>
      void (gets (λ c, CheckCloseUnlink ctx c node scope claim))
  | CallCheckUse ctx node scope uses => void (gets (λ c, CheckUse ctx c node scope uses))
  | CallCheckIO ctx node scope extent uses =>
      void (deref (λ c, CheckIO ctx c node scope extent uses))
  | CallAcquireMaterialization ctx bytes => void (AcquireMaterialization ctx bytes)
  | CallRelease handle => void (release_materialization handle)
  | CallFileOperationLimits => void (gets FileOperationLimits)
  end.

(** The session the call is made on exists; its arguments are Go values. *)
Definition callable (c : coordinator) (op : operation) : Prop :=
  match op with
  | CallApply _ _ sid _ _ commands _ _ => has_session sid c ∧ Forall command_typed commands
  | CallQuery _ _ sid _ _ _ | CallCancel _ _ sid _ _ _ | CallGetConflict _ _ sid _ _ _ _
  | CallDrop _ _ sid _ _ _ | CallRetireOwner _ _ sid _ | CallRetire _ _ _ _ sid
  | CallNewOwner _ sid _ _ _ | CallOwnerNode _ sid _ | CallOwnerScope _ sid _
  | CallRequestNode _ sid _ _ | CallHistory _ sid | CallEpoch _ sid | CallWithCloseAdmission _ sid _
  | CallCloseEpoch _ sid | CallIOHealth _ sid _ => has_session sid c
  | CallNewSession _ _ | CallAddUse _ _ _ _ | CallDropUse _ _ _ | CallDropUseExact _ _ _ _
  | CallCheckCloseUnlink _ _ _ _ | CallCheckUse _ _ _ _ | CallCheckIO _ _ _ _ _
  | CallAcquireMaterialization _ _ | CallRelease _ | CallFileOperationLimits => True
  end.

Definition anywhere {A} : A → coordinator → Prop := λ _ _, True.

Lemma Apply_walks ctx gate sid node owner commands id order c :
  Inv None None c → has_session sid c → Forall command_typed commands →
  walks (Apply ctx gate sid node owner commands id order) c anywhere.
Proof.
  intros H Hs Ht. unfold Apply.
  apply walks_bind with (Q := λ r c', r = c_config c ∧ c' = c); [done|by apply walks_gets|].
  intros config c' _ _ [-> ->]. destruct (checkCall _ _ ;? _) eqn:E; [by apply walks_ret|].
  apply orelse_None in E as [_ Hcc]. destruct (Epoch id) as [epoch|e] eqn:Hep; [|by apply walks_ret].
  destruct order as [order|]; [|by apply walks_ret].
  apply walks_bind with (Q := λ r c', has_session sid c'
    ∧ ∀ x, r.1 = Some x → has_request x.2 c'); [done|..].
  { assert (valid c (DoApply sid node owner epoch commands id order)) as Hv by done.
    destruct (apply_section_inv sid node owner epoch commands id order c) as (r & c' & Hr & Hi & Hh & Ha);
      [done..|].
    assert (path c c') as P by (apply (path_step c _ c' Hv); by eapply void_run).
    assert (∀ x, (match r with Ok a => Some a | Err _ => None end) = Some x → has_request x.2 c').
    { destruct r as [[res a]|]; [|done]. intros x [= <-]. by eapply Ha. }
    destruct (gate 0%nat order); unfold run_order, walks, bind, ret; rewrite ?Hr.
    - eexists _, c'. split; [reflexivity|]. split; [done|]. split; [done|]. by destruct r as [[]|].
    - eexists _, c. split; [reflexivity|]. split; [constructor|]. by split.
    - eexists _, c'. split; [reflexivity|]. split; [done|]. split; [done|]. by destruct r as [[]|]. }
  intros [[[res a]|] err] c1 H1 _ [Hs1 Ha1]; [|by apply walks_ret].
  destruct err; [by apply walks_ret|]. specialize (Ha1 _ eq_refl). simpl in Ha1.
  apply walks_bind with (Q := λ _, steady c1); [done|by apply pump_walks|].
  intros _ c2 H2 _ S2. destruct (steady_has c1 c2 sid a S2) as [Hs2 Ha2].
  apply walks_bind with (Q := λ _, steady c2); [done|apply advance_walks; auto|].
  intros err c3 H3 _ S3. destruct (steady_has c2 c3 sid a S3) as [Hs3 Ha3].
  destruct err; [by apply walks_ret|].
  apply walks_bind with (Q := anywhere); [done|..].
  2: { intros r c' _ _ _. destruct r; by apply walks_ret. }
  apply (walks_section _ (DoApplyReceipt sid id a)); [done|split; [by apply Hs3, Hs2|by apply Ha3, Ha2]|].
  destruct (receipt_inv sid a c3 (apply_receipt sid id a)) as (r & c4 & ? & _);
    [done|by apply Hs3, Hs2|by apply Ha3, Ha2|by right; exists id|].
  exists r, c4. done.
Qed.

Lemma Query_walks ctx gate sid node owner id c :
  Inv None None c → has_session sid c → walks (Query ctx gate sid node owner id) c anywhere.
Proof.
  intros H Hs. unfold Query. destruct (checkCall _ _); [by apply walks_ret|].
  apply walks_bind with (Q := λ r c', ∀ a, r = Ok a → has_session sid c' ∧ has_request a c'); [done|..].
  { apply (walks_section _ (DoFind sid node owner id)); [done|done|].
    destruct (findLocked_inv sid node owner id c H Hs) as (r & c' & Hr & _ & _ & Hq).
    exists r, c'. split; [done|]. intros a Ha. destruct (Hq a Ha) as (q & s & Hqa & Hl & _).
    apply live_session_Some in Hl as [_ Hl]. split; by eexists. }
  intros [a|e] c1 H1 _ Hr; [|by apply walks_ret]. destruct (Hr a eq_refl) as [Hs1 Ha1].
  apply walks_bind with (Q := λ _, steady c1); [done|by apply advance_walks|].
  intros err c2 H2 _ S2. destruct (steady_has c1 c2 sid a S2) as [Hs2 Ha2].
  destruct err; [by apply walks_ret|].
  apply (walks_section _ (DoQueryReceipt sid a)); [done|split; [by apply Hs2|by apply Ha2]|].
  destruct (receipt_inv sid a c2 (query_receipt sid a)) as (r & c3 & ? & _);
    [done|by apply Hs2|by apply Ha2|by left|]. exists r, c3. done.
Qed.

Lemma Cancel_walks ctx gate sid node owner id c :
  Inv None None c → has_session sid c → walks (Cancel ctx gate sid node owner id) c anywhere.
Proof.
  intros H Hs. unfold Cancel. destruct (checkCall _ _); [by apply walks_ret|].
  apply walks_bind with (Q := anywhere); [done|..].
  { apply (walks_section _ (DoCancel sid node owner id)); [done|done|].
    destruct (cancel_section_inv sid node owner id c H Hs) as (r & c' & ? & _). by exists r, c'. }
  intros [res|e] c1 H1 _ _; [|by apply walks_ret].
  apply walks_bind with (Q := anywhere); [done|..].
  { eapply walks_conseq; [by apply pump_walks|done]. }
  intros _ c2 _ _ _. by apply walks_ret.
Qed.

Lemma GetConflict_walks ctx gate sid node owner command order c :
  Inv None None c → has_session sid c →
  walks (GetConflict ctx gate sid node owner command order) c anywhere.
Proof.
  intros H Hs. unfold GetConflict. destruct (_ ;? _); [by apply walks_ret|].
  destruct order as [order|]; [|by apply walks_ret]. destruct (_ || _); [by apply walks_ret|].
  apply walks_bind with (Q := anywhere); [done|..].
  2: { intros r c' _ _ _. by apply walks_ret. }
  apply run_order_walks; [done|].
  apply (walks_section _ (DoConflict sid node owner command)); [done|done|].
  destruct (conflict_section_inv sid node owner command c H Hs) as [r Hr]. by exists r, c.
Qed.

Lemma Drop_walks ctx gate sid node owner domain c :
  Inv None None c → has_session sid c → walks (Drop ctx gate sid node owner domain) c anywhere.
Proof.
  intros H Hs. unfold Drop. destruct (_ ;? _); [by apply walks_ret|].
  apply walks_bind with (Q := anywhere); [done|..].
  { apply (walks_section _ (DoDrop sid node owner domain)); [done|done|].
    destruct (drop_section_inv sid node owner domain c H Hs) as (r & c' & ? & _). by exists r, c'. }
  intros [e|] c1 H1 _ _; [by apply walks_ret|].
  apply walks_bind with (Q := anywhere); [done|..].
  { eapply walks_conseq; [by apply pump_walks|done]. }
  intros _ c2 _ _ _. by apply walks_ret.
Qed.

Lemma RetireOwner_walks ctx gate sid owner c :
  Inv None None c → has_session sid c → walks (RetireOwner ctx gate sid owner) c anywhere.
Proof.
  intros H Hs. unfold RetireOwner. destruct (ctx 0%nat); [by apply walks_ret|].
  apply walks_bind with (Q := anywhere); [done|..].
  { apply (walks_section _ (DoRetireOwner sid owner)); [done|done|].
    destruct (retire_owner_inv sid owner c H Hs) as (r & c' & ? & _). by exists r, c'. }
  intros [e|] c1 H1 _ _; [by apply walks_ret|].
  apply walks_bind with (Q := anywhere); [done|..].
  { eapply walks_conseq; [by apply pump_walks|done]. }
  intros _ c2 _ _ _. by apply walks_ret.
Qed.

Lemma retire_begin_fences ctx_err sid c s :
  c_heap c !! sid = Some s →
  ∃ r c', retire_begin ctx_err sid c = Some (r, c') ∧ has_session sid c'
          ∧ (r = RetireFences → ∃ s', c_heap c' !! sid = Some s' ∧ s_retireDone s' = true).
Proof.
  intros Hs. assert (has_session sid c) by (by exists s).
  unfold retire_begin, bind at 1, get_session, deref. rewrite Hs.
  destruct (s_retired s); [by eexists _, c|]. destruct (s_retireDone s); [by eexists _, c|].
  destruct ctx_err; [by eexists _, c|]. unfold bind, upd_session, modify, ret.
  rewrite (alter_Some _ _ _ _ Hs). eexists _, _. split; [reflexivity|]. unfold has_session. simpl.
  rewrite lookup_insert_eq. split; [by eexists|]. intros _. by eexists.
Qed.

Lemma Retire_walks ctx gate sel fence sid c :
  Inv None None c → has_session sid c → walks (Retire ctx gate sel fence sid) c anywhere.
Proof.
  intros H [s Hs]. unfold Retire.
  apply walks_bind with (Q := λ r c', has_session sid c' ∧
    (r = RetireFences → ∃ s', c_heap c' !! sid = Some s' ∧ s_retireDone s' = true)); [done|..].
  { apply (walks_section _ (DoRetireBegin (ctx 0%nat) sid)); [done|by exists s|].
    by eapply retire_begin_fences. }
  intros r c1 H1 _ [[s1 Hs1] Hf]. destruct r; [by apply walks_ret| |].
  - destruct sel; [by apply walks_ret|].
    apply walks_bind with (Q := anywhere); [done|..].
    { exists s1, c1. unfold get_session, deref. rewrite Hs1. split; [done|]. by split; [constructor|]. }
    intros r c2 _ _ _. by apply walks_ret.
  - specialize (Hf eq_refl). apply walks_bind with (Q := anywhere); [done|..].
    { destruct (retire_finish_inv sid fence c1) as (c2 & Hr & _); [done|by exists s1|].
      exists tt, c2. split; [done|]. split; [|done].
      by apply (path_step c1 (DoRetireFinish sid fence)). }
    intros _ c2 H2 _ _. apply walks_bind with (Q := anywhere); [done|..].
    { destruct fence; [by apply walks_ret|]. eapply walks_conseq; [by apply pump_walks|done]. }
    intros _ c3 _ _ _. by apply walks_ret.
Qed.

(** Calls that are one section, and calls that only read. *)
Lemma walks_single {A} (m : C A) l c :
  run l = void m → valid c l → (∃ r c', m c = Some (r, c') ∧ Inv None None c') → walks m c anywhere.
Proof. intros E Hv (r & c' & Hm & _). apply (walks_section m l); [done|done|by exists r, c']. Qed.

Lemma walks_reads {A} (m : C A) c r : m c = Some (r, c) → walks m c anywhere.
Proof. intros Hm. exists r, c. split; [done|]. by split; [constructor|]. Qed.

Lemma owner_binding_walks ctx sid owner c :
  has_session sid c → walks (owner_binding ctx sid owner) c anywhere.
Proof. intros Hs. destruct (owner_binding_pure ctx sid owner c Hs) as [r Hr]. by eapply walks_reads. Qed.

Lemma walks_then {A B} (m : C A) (f : A → B) c :
  Inv None None c → walks m c anywhere → walks (let! r := m in ret (f r)) c anywhere.
Proof. intros H Hm. eapply walks_bind; [done..|]. intros. by apply walks_ret. Qed.

Lemma close_admission_walks ctx sid c :
  Inv None None c → has_session sid c → walks (close_admission ctx sid) c anywhere.
Proof.
  intros H Hs. destruct (close_admission_inv ctx sid c H Hs) as (r & c' & Hr & _).
  exists r, c'. split; [done|]. split; [|done].
  apply (path_step c (DoCloseAdmission ctx sid (Some (λ _, None)))); [done|]. simpl.
  apply (void_run _ _ (match r with Ok _ => None | Err e => Some e end)).
  unfold WithCloseAdmission, bind. rewrite Hr. by destruct r.
Qed.

Lemma check_enforced_total c node scope extent uses owners :
  (∀ key o, (key, o) ∈ owners → is_Some (live_session c (ok_session key))) →
  is_Some (check_enforced c node scope extent uses owners).
Proof.
  induction owners as [|[key o] owners IH]; intros Hl; simpl; [by eexists|].
  destruct (_ || _); [apply IH; set_solver|]. destruct (Hl key o) as [s ->]; [set_solver|].
  destruct (existsb _ _); [by eexists|apply IH; set_solver].
Qed.

Lemma CheckIO_total ctx c node scope extent uses :
  Inv None None c → is_Some (CheckIO ctx c node scope extent uses).
Proof.
  intros H. unfold CheckIO. destruct (_ ;? _); [by eexists|]. apply check_enforced_total.
  intros key o Ho%elem_of_map_to_list. destruct (Inv_owners_live _ _ _ H key o Ho) as [s ?]. by exists s.
Qed.

Lemma IOHealth_walks ctx sid node c : has_session sid c → walks (IOHealth ctx sid node) c anywhere.
Proof.
  intros [s Hs]. unfold IOHealth. destruct (checkCall _ _); [by apply walks_ret|].
  eapply walks_reads. unfold bind, get_session, deref. by rewrite Hs.
Qed.

Lemma perform_walks c op :
  Inv None None c → callable c op → ∃ c', perform op c = Some (tt, c') ∧ path c c'.
Proof.
  intros H Hop.
  assert (Hv : ∀ A (m : C A), walks m c anywhere → ∃ c', void m c = Some (tt, c') ∧ path c c').
  { intros A m (r & c' & Hm & P & _). exists c'. split; [by eapply void_run|done]. }
  destruct op; simpl in Hop; apply Hv.
  - apply Apply_walks; tauto.
  - by apply Query_walks.
  - by apply Cancel_walks.
  - by apply GetConflict_walks.
  - by apply Drop_walks.
  - by apply RetireOwner_walks.
  - by apply Retire_walks.
  - by apply (walks_single _ (DoNewSession options fence)), NewSession_inv.
  - by apply (walks_single _ (DoNewOwner ctx sid node scope options)), NewOwner_inv.
  - by apply walks_then, owner_binding_walks.
  - by apply walks_then, owner_binding_walks.
  - by apply (walks_single _ (DoRequestNode ctx sid owner id)), RequestNode_inv.
  - by apply (walks_single _ (DoHistory ctx sid)), History_inv.
  - by apply walks_then, (walks_single _ (DoHistory ctx sid)), History_inv.
  - by apply (walks_single _ (DoCloseAdmission ctx sid admission)), WithCloseAdmission_inv.
  - by apply close_admission_walks.
  - by apply IOHealth_walks.
  - by apply (walks_single _ (DoAddUse ctx node scope claim)), AddUse_inv.
  - by apply (walks_single _ (DoDropUse ctx node scope)), DropUse_inv.
  - by apply (walks_single _ (DoDropUseExact ctx node scope claim)), DropUseExact_inv.
  - by apply walks_gets.
  - by apply walks_gets.
  - destruct (CheckIO_total ctx c node scope extent uses H) as [r Hr].
    eapply walks_reads. unfold deref. by rewrite Hr.
  - by apply (walks_single _ (DoAcquire ctx bytes)), AcquireMaterialization_inv.
  - destruct (release_materialization_inv handle c H) as (c' & Hr & _).
    exists tt, c'. split; [done|]. split; [|done]. by apply (path_step c (DoRelease handle)).
  - by apply walks_gets.
Qed.

(** C21: refinement.  A whole call of any exported operation of the
    coordinator and its sessions, run without interference, never panics and
    ends in a state of the transition system reached by its sections alone; its
    loops are paths as well. *)
Theorem calls_refine (c : coordinator) (op : operation) :
  reachable c → callable c op →
  ∃ c', perform op c = Some (tt, c') ∧ path c c' ∧ reachable c'.
Proof.
  intros Hc Hop. destruct (perform_walks c op (reachable_inv c Hc) Hop) as (c' & Hp & P).
  exists c'. split; [done|]. split; [done|]. destruct Hc as [now Hc]. exists now.
  clear -Hc P. induction P as [|c c1 c2 (l & Hs) _ IH]; [done|]. apply IH. by eapply Next.
Qed.

(** One owner holds what the other waits for. *)
Definition held_up_lock : list section :=
  two_owners ++ [lock 1 RangeExclusive 0 9 false 1; lock 2 RangeExclusive 0 9 true 2].

Lemma calls_refine_witness :
  ∃ c', perform (CallRetireOwner background (λ _ _, Runs) 1 1) (after held_up_lock) = Some (tt, c')
        ∧ path (after held_up_lock) c' ∧ reachable c'.
Proof.
  apply (calls_refine (after held_up_lock) (CallRetireOwner background (λ _ _, Runs) 1 1)
           (after_reachable _)).
  vm_compute. eexists. reflexivity.
Defined.
