(* ===== verification/AdvisoryContracts.v ===== *)
(** * The advisory coordinator: contracts of single operations

    What cancellation, retirement, use claims, the I/O admission test and
    materialization promise, over every reachable state. *)

From S2P Require Import Prelude Errors Identity Ranges Extents AdvisoryState Conflicts Deadlock Coordinator Uses AdvisoryInv AdvisoryEdits AdvisoryOps AdvisorySections AdvisorySteps AdvisoryOnce AdvisoryTheorems AdvisoryCalls.

(** ** Cancellation *)

(** The request is settled: it is not in the queue any more. *)
Lemma settled_not_queued c a q :
  Inv None None c → c_actions c !! a = Some q → ra_State (q_result q) ≠ Pending →
  a ∉ c_waiting c.
Proof.
  intros H Hq Hst Ha. destruct (inv_waiting _ _ _ H) as [_ Hw].
  destruct (Hw a Ha) as (q' & Hq' & _ & Hp & _). by simplify_eq.
Qed.

(** Cancelling withdraws a waiting request and nothing else.  When the
    cancelling section of [Cancel] answers with a receipt, the request of that
    identity is settled and off the queue: a pending one is now [Cancelled], one
    that was settled before keeps its result and the queue stays as it is.  No
    owner's protection and no other request changes, and the other requests keep
    their places in the queue. *)
Theorem cancel_contract (c c' : coordinator) (sid node owner : Z) (id : LockRequestID)
    (receipt : RangeAttempt) :
  reachable c → is_Some (c_heap c !! sid) →
  cancel_section sid node owner id c = Some (Ok receipt, c') →
  ∃ a q q', c_actions c !! a = Some q ∧ ok_session (q_key q) = sid ∧ q_id q = id
    ∧ c_actions c' !! a = Some q'
    ∧ ra_State receipt = ra_State (q_result q') ∧ ra_State receipt ≠ Pending
    ∧ (if decide (ra_State (q_result q) = Pending)
       then ra_State receipt = Cancelled
       else q' = q ∧ c_waiting c' = c_waiting c)
    ∧ a ∉ c_waiting c'
    ∧ (c_waiting c' = c_waiting c ∨ c_waiting c' = dequeue a (c_waiting c))
    ∧ (∀ k, held_by c' k = held_by c k)
    ∧ (∀ b, b ≠ a → c_actions c' !! b = c_actions c !! b).
Proof.
  intros Hc%reachable_inv Hs.
  destruct (findLocked_inv sid node owner id c Hc Hs) as (r & c1 & Hrun & H1 & A & Hr).
  unfold cancel_section, bind at 1. rewrite Hrun. destruct r as [a|e]; [|done].
  destruct (Hr a eq_refl) as (q & s & Hq & Hs1 & Hsid & Hid).
  destruct (inv_sessions _ _ _ H1) as (_ & _ & S3). pose proof Hs1 as [_ Hh1]%live_session_Some.
  destruct (S3 _ _ _ _ Hh1 Hid) as (q0 & Hq0 & Hqid & _). simplify_eq.
  destruct A as (_ & _ & Eo & Ea & Ew & _).
  unfold bind at 1, get_request, deref at 1. rewrite Hq.
  unfold bind at 1. case_bool_decide as Hp.
  - destruct (complete_inv None None c1 a q s Cancelled NoRejection) as (c2 & Hrun2 & H2 & S2 & Hcs);
      try done; [by left|].
    rewrite Hrun2. destruct Hcs as ((x & Ea2) & Ew2 & _ & _ & _ & Hh).
    assert (H2' : Inv None None c2) by (by destruct (q_pending q)).
    unfold bind, read_clock, get_session, deref, modify, gets, ret. simpl. rewrite Ea2, lookup_insert_eq.
    destruct (steady_live _ _ _ _ S2 Hs1) as (s2 & [_ Hs2]%live_session_Some & _). simpl.
    rewrite Hs2.
    intros [= <- <-]. exists a, q, (completed Cancelled NoRejection x q). rewrite <- Ea.
    rewrite decide_True by done. simpl. rewrite Ea2, lookup_insert_eq. split_and!; try done.
    + apply (settled_not_queued c2 a (completed Cancelled NoRejection x q) H2'); [|done].
      by rewrite Ea2, lookup_insert_eq.
    + rewrite Ew2, Ew. destruct (q_pending q); auto.
    + intros k. specialize (Hh k). unfold held_by in *. simpl. by rewrite <- Eo.
    + intros b Hb. by rewrite Ea, lookup_insert_ne.
  - unfold bind, read_clock, get_session, deref, modify, gets, ret. simpl. rewrite Hq. simpl. rewrite Hh1.
    intros [= <- <-]. exists a, q, q. rewrite <- Ea. rewrite decide_False by done. simpl.
    split_and!; try done; auto.
    + by apply (settled_not_queued c1 a q).
    + intros k. unfold held_by. simpl. by rewrite Eo.
Qed.

Lemma cancel_contract_witness :
  ∃ receipt c', cancel_section 2 7 1 (example_id 2) (after held_up_lock) = Some (Ok receipt, c')
    ∧ ra_State receipt = Cancelled ∧ c_waiting (after held_up_lock) = [1%nat] ∧ c_waiting c' = []
    ∧ ∀ k, held_by c' k = held_by (after held_up_lock) k.
Proof.
  destruct (cancel_section 2 7 1 (example_id 2) (after held_up_lock)) as [[[receipt|e] c']|] eqn:E;
    [|vm_compute in E; discriminate..].
  exists receipt, c'. split; [reflexivity|].
  destruct (cancel_contract (after held_up_lock) c' 2 7 1 (example_id 2) receipt (after_reachable _))
    as (a & q & q' & _ & _ & _ & _ & _ & _ & _ & _ & _ & Hh & _); [|exact E|].
  - vm_compute. eexists. reflexivity.
  - vm_compute in E. injection E as <- <-. split; [reflexivity|]. split; [vm_compute; reflexivity|].
    split; [reflexivity|]. exact Hh.
Defined.

(** ** Retirement *)

Lemma retired_stale c sid s :
  Inv None None c → c_heap c !! sid = Some s → sid ∉ c_sessions c →
  activeLocked s = Some (Errno ESTALE).
Proof.
  intros H Hs Hn. destruct (inv_sessions _ _ _ H) as (_ & Hok & _).
  destruct (Hok sid s Hs) as (_ & Hr & _). unfold activeLocked. by rewrite (proj2 Hr Hn).
Qed.

Lemma gone_session c sid :
  Inv None None c → sid ∉ c_sessions c →
  (∀ k o, c_owners c !! k = Some o → ok_session k ≠ sid)
  ∧ (∀ a q, a ∈ c_waiting c → c_actions c !! a = Some q → ok_session (q_key q) ≠ sid).
Proof.
  intros H Hn. split.
  - intros k o Ho <-. destruct (inv_owners _ _ _ H k o Ho) as ((s & b & Hs & _) & _).
    by apply live_session_Some in Hs as [? _].
  - intros a q Ha Hq <-. destruct (inv_waiting _ _ _ H) as [_ Hw].
    destruct (Hw a Ha) as (q' & Hq' & ? & _). by simplify_eq.
Qed.

(** Retirement is all or nothing.  A call of [Retire] on a session that is
    not retired and not being retired answers as the publication fence does.
    Where the fence failed every owner, queued request and receipt is as before,
    the session admits nothing new and may be retired again; where it succeeded
    the session is gone, no range is held and no request is queued under it, not
    even after the requests it blocked took their turns, and every later
    operation on it is stale. *)
Theorem retire_contract (ctx : context) (gate : gates) (sel fence : option error) (sid : Z)
    (c : coordinator) (s : session) :
  reachable c → c_heap c !! sid = Some s → s_retired s = false → s_retireDone s = false →
  ctx 0%nat = None →
  ∃ c' s', Retire ctx gate sel fence sid c = Some (fence, c') ∧ c_heap c' !! sid = Some s'
    ∧ match fence with
      | Some _ => c_sessions c' = c_sessions c ∧ c_owners c' = c_owners c
                  ∧ c_waiting c' = c_waiting c ∧ c_actions c' = c_actions c
                  ∧ s_actions s' = s_actions s ∧ s_bindings s' = s_bindings s
                  ∧ activeLocked s' = Some (Wrapped (Errno EIO)) ∧ s_retireDone s' = false
      | None => c_sessions c' = c_sessions c ∖ {[sid]}
                ∧ (∀ k o, c_owners c' !! k = Some o → ok_session k ≠ sid)
                ∧ (∀ a q, a ∈ c_waiting c' → c_actions c' !! a = Some q → ok_session (q_key q) ≠ sid)
                ∧ activeLocked s' = Some (Errno ESTALE)
      end.
Proof.
  intros Hc%reachable_inv Hs Hr Hd Hctx.
  unfold Retire, bind at 1, retire_begin, bind at 1, get_session, deref. rewrite Hs, Hr, Hd, Hctx.
  unfold bind at 1, upd_session, modify, ret at 1. rewrite (alter_Some _ _ _ _ Hs).
  set (c1 := set_c_heap _ c).
  assert (H1 : Inv None None c1) by (by eapply Inv_session).
  assert (Hs1 : is_Some (c_heap c1 !! sid)) by (simpl; rewrite lookup_insert_eq; eauto).
  destruct (retire_finish_inv sid fence c1 H1 Hs1) as (c2 & Hrun2 & H2 & [s2 Hs2] & Hf).
  unfold bind at 1. rewrite Hrun2. destruct fence.
  - destruct Hf as (? & ? & ? & ? & Hf). edestruct Hf as (s' & Hs' & E1 & E2 & E3 & E4 & E5);
      [simpl; apply lookup_insert_eq|].
    exists c2, s'. split; [done|]. split; [done|]. split_and!; try done.
    unfold activeLocked. rewrite E1, E2. simpl. by rewrite Hr.
  - destruct Hf as (Es & _). destruct (pump_inv ctx gate 1 c2 H2) as (c3 & Hrun3 & (H3 & S3 & _) & _).
    unfold bind, ret. rewrite Hrun3. pose proof S3 as (_ & Es3 & Hh & _).
    destruct (Hh _ _ Hs2) as (s3 & Hs3 & _). rewrite Es in Es3.
    assert (sid ∉ c_sessions c3) by (rewrite Es3; set_solver).
    destruct (gone_session c3 sid H3) as [? ?]; [done|].
    exists c3, s3. split; [done|]. split; [done|]. split_and!; try done.
    by apply (retired_stale c3 sid).
Qed.

Lemma retire_contract_witness :
  ∃ c' s', Retire background (λ _ _, Runs) None None 1 (after held_up_lock) = Some (None, c')
    ∧ c_heap c' !! 1 = Some s' ∧ activeLocked s' = Some (Errno ESTALE)
    ∧ ∀ k o, c_owners c' !! k = Some o → ok_session k ≠ 1.
Proof.
  destruct (c_heap (after held_up_lock) !! 1) as [s|] eqn:Hs; [|vm_compute in Hs; discriminate].
  destruct (retire_contract background (λ _ _, Runs) None None 1 (after held_up_lock) s
              (after_reachable _) Hs) as (c' & s' & Hr & Hs' & _ & Ho & _ & Ha).
  - vm_compute in Hs. by injection Hs as <-.
  - vm_compute in Hs. by injection Hs as <-.
  - reflexivity.
  - exists c', s'. split; [exact Hr|]. split; [exact Hs'|]. split; [exact Ha|exact Ho].
Defined.

(** ** Uses and I/O *)

(** Open references are compatible.  In every reachable state, two
    references to one node never deny a use the other one claims. *)
Theorem use_claims_compatible (c : coordinator) (a b : UseScope) (ua ub : useClaim) :
  reachable c →
  c_uses c !! a = Some ua → c_uses c !! b = Some ub → a ≠ b → us_node ua = us_node ub →
  Z.land (uc_Uses (us_claim ua)) (uc_Deny (us_claim ub)) = 0
  ∧ Z.land (uc_Uses (us_claim ub)) (uc_Deny (us_claim ua)) = 0.
Proof.
  intros Hc%reachable_inv Ha Hb Hne Hn. pose proof (inv_uses _ _ _ Hc a ua b ub Ha Hb Hne Hn) as Hcl.
  unfold clash, meets in Hcl. bool_prop. done.
Qed.

Definition scope_of (name : string) : UseScope := {| Token := name |}.

(** A reader that denies writers, and a second reader. *)
Definition two_readers : list section :=
  [DoAddUse background 7 (scope_of "0000000000000001") {| uc_Uses := ReadData; uc_Deny := WriteData |};
   DoAddUse background 7 (scope_of "0000000000000002") {| uc_Uses := ReadData; uc_Deny := 0 |};
   DoAddUse background 7 (scope_of "0000000000000003") {| uc_Uses := WriteData; uc_Deny := 0 |}].

Lemma use_claims_compatible_witness :
  size (c_uses (after two_readers)) = 2%nat ∧ Z.land ReadData WriteData = 0.
Proof.
  split; [vm_compute; reflexivity|].
  refine (proj2 (use_claims_compatible (after two_readers) (scope_of "0000000000000001")
    (scope_of "0000000000000002") {| us_node := 7; us_claim := {| uc_Uses := ReadData; uc_Deny := WriteData |} |}
    {| us_node := 7; us_claim := {| uc_Uses := ReadData; uc_Deny := 0 |} |}
    (after_reachable _) _ _ _ _)); [vm_compute; reflexivity..|intros [=]|reflexivity].
Defined.

(** The reference that makes the call may use the node this way. *)
Definition licensed (c : coordinator) (node : Z) (scope : UseScope) (uses : Uses) : Prop :=
  Token scope = EmptyString
  ∨ ∃ own, c_uses c !! scope = Some own ∧ us_node own = node
           ∧ Z.ldiff uses (uc_Uses (us_claim own)) = 0.

(** Another reference to the node denies one of the uses. *)
Definition denied_by_use (c : coordinator) (node : Z) (scope : UseScope) (uses : Uses) : Prop :=
  ∃ other own, c_uses c !! other = Some own ∧ us_node own = node ∧ other ≠ scope
               ∧ Z.land uses (uc_Deny (us_claim own)) ≠ 0.

(** An enforced range over the extent denies one of the uses to the reference,
    by its policy for its own reference or by the one for all others. *)
Definition denied_by_range (c : coordinator) (node : Z) (scope : UseScope) (extent : Range)
    (uses : Uses) : Prop :=
  ∃ key o s b held, c_owners c !! key = Some o ∧ ok_node key = node ∧ ok_domain key = DomainEnforced
    ∧ live_session c (ok_session key) = Some s ∧ s_bindings s !! ok_owner key = Some b
    ∧ held ∈ os_ranges o ∧ overlaps (cl_range held) extent = true
    ∧ Z.land uses (if decide (Token scope ≠ EmptyString ∧ ob_scope b = scope)
                   then DenySelf (rc_Policy (cl_command held))
                   else DenyOthers (rc_Policy (cl_command held))) ≠ 0.

Lemma meets_true a b : meets a b = true ↔ Z.land a b ≠ 0.
Proof. unfold meets. rewrite negb_true_iff. apply Z.eqb_neq. Qed.

Lemma eqb_empty s : String.eqb s EmptyString = true ↔ s = EmptyString.
Proof. apply String.eqb_eq. Qed.

Lemma refuses_true scope binding extent uses held :
  refuses scope binding extent uses held = true ↔
  overlaps (cl_range held) extent = true
  ∧ Z.land uses (if decide (Token scope ≠ EmptyString ∧ binding = scope)
                 then DenySelf (rc_Policy (cl_command held))
                 else DenyOthers (rc_Policy (cl_command held))) ≠ 0.
Proof.
  unfold refuses. rewrite andb_true_iff, meets_true.
  assert (negb (String.eqb (Token scope) EmptyString) && bool_decide (binding = scope)
          = bool_decide (Token scope ≠ EmptyString ∧ binding = scope)) as ->.
  { apply eq_true_iff_eq. rewrite andb_true_iff, negb_true_iff, !bool_decide_eq_true.
    by rewrite <- not_true_iff_false, eqb_empty. }
  case_bool_decide; case_decide; tauto.
Qed.

Lemma checkOtherUses_spec c node scope uses :
  checkOtherUsesLocked c node scope uses = None ↔ ¬ denied_by_use c node scope uses.
Proof.
  unfold checkOtherUsesLocked. destruct (existsb _ _) eqn:E; (split; [try done|]).
  - intros Hd. exfalso. apply Hd. apply existsb_exists in E as ([other own] & Hin & E).
    rewrite <- list_elem_of_In, elem_of_map_to_list in Hin. simpl in E. bool_prop.
    exists other, own. split_and!; try done. by apply meets_true.
  - intros _ (other & own & Hl & Hn & Hne & Hm). apply not_true_iff_false in E. apply E.
    apply existsb_exists. exists (other, own). rewrite <- list_elem_of_In, elem_of_map_to_list.
    split; [done|]. simpl. rewrite Hn, Z.eqb_refl, bool_decide_false by done. simpl.
    by apply meets_true.
  - done.
Qed.

Lemma checkUse_spec c node scope uses :
  checkUseLocked c node scope uses = None ↔
  licensed c node scope uses ∧ ¬ denied_by_use c node scope uses.
Proof.
  unfold checkUseLocked. rewrite orelse_None, checkOtherUses_spec. f_equiv. unfold licensed.
  destruct (String.eqb (Token scope) EmptyString) eqn:Et; simpl.
  { apply eqb_empty in Et. naive_solver. }
  assert (Token scope ≠ EmptyString) by (rewrite <- eqb_empty; by rewrite Et).
  destruct (c_uses c !! scope) as [own|]; [|naive_solver].
  destruct (Z.eqb_spec (us_node own) node); simpl; [|naive_solver].
  destruct (Z.eqb_spec (Z.ldiff uses (uc_Uses (us_claim own))) 0); simpl; naive_solver.
Qed.

Lemma check_enforced_spec c node scope extent uses owners :
  (∀ key o, (key, o) ∈ owners → bound c key) →
  ∃ r, check_enforced c node scope extent uses owners = Some r
    ∧ (r = None ↔ ¬ ∃ key o s b held, (key, o) ∈ owners ∧ ok_node key = node
         ∧ ok_domain key = DomainEnforced ∧ live_session c (ok_session key) = Some s
         ∧ s_bindings s !! ok_owner key = Some b ∧ held ∈ os_ranges o
         ∧ refuses scope (ob_scope b) extent uses held = true).
Proof.
  induction owners as [|[key o] owners IH]; intros Hb; simpl.
  { exists None. split; [done|]. split; [|done]. intros _ (? & ? & ? & ? & ? & []%not_elem_of_nil & _). }
  destruct IH as (r & Hr & Hiff); [set_solver|]. rewrite Hr.
  destruct (negb (ok_node key =? node) || negb (ok_domain key =? DomainEnforced)) eqn:E.
  { exists r. split; [done|]. rewrite Hiff. f_equiv. split.
    - intros (k & x & s & b & held & Hin & H). exists k, x, s, b, held. split; [set_solver|done].
    - intros (k & x & s & b & held & [[= -> ->]|Hin]%elem_of_cons & Hn & Hd & H).
      { rewrite Hn, Hd, !Z.eqb_refl in E. done. }
      by exists k, x, s, b, held. }
  bool_prop. destruct (Hb key o) as (s & b & Hs & Hbk & _); [set_solver|]. rewrite Hs, Hbk.
  destruct (existsb _ _) eqn:Ex.
  - eexists. split; [reflexivity|]. split; [done|]. intros Hno. exfalso. apply Hno.
    apply existsb_exists in Ex as (held & Hin & Hrf). rewrite <- list_elem_of_In in Hin.
    exists key, o, s, b, held. split_and!; try done. set_solver.
  - exists r. split; [done|]. rewrite Hiff. f_equiv. split.
    + intros (k & x & t & y & held & Hin & H'). exists k, x, t, y, held. split; [set_solver|done].
    + intros (k & x & t & y & held & [[= -> ->]|Hin]%elem_of_cons & ? & ? & Ht & Hy & Hh & Hrf);
        [|by exists k, x, t, y, held].
      simplify_eq. apply not_true_iff_false in Ex. exfalso. apply Ex, existsb_exists.
      exists held. by rewrite <- list_elem_of_In.
Qed.

(** C39: the admission of I/O is exact.  In a reachable state [CheckIO] of a
    well-formed byte operation never panics, and admits it exactly when the
    reference making the call claims these uses, no other open reference to the
    node denies one of them, and no enforced range over the extent does, with
    the range's self policy applied to its own reference and its policy for
    others to everyone else; advisory domains play no part. *)
Theorem io_admission_exact (ctx : context) (c : coordinator) (node : Z) (scope : UseScope)
    (extent : Range) (uses : Uses) :
  reachable c → checkCall (ctx 0%nat) node = None → Range_Check extent = None →
  Kind extent = Bytes → uses ≠ 0 → Z.ldiff uses (Z.lor ReadData WriteData) = 0 →
  ∃ r, CheckIO ctx c node scope extent uses = Some r
    ∧ (r = None ↔ licensed c node scope uses ∧ ¬ denied_by_use c node scope uses
                  ∧ ¬ denied_by_range c node scope extent uses).
Proof.
  intros Hc%reachable_inv Hcall Hext Hk Hu Hd. unfold CheckIO. rewrite Hcall, Hext. simpl.
  rewrite Hk, (proj2 (Z.eqb_neq uses 0) Hu), Hd. simpl.
  destruct (checkUseLocked c node scope uses) as [e|] eqn:E.
  { exists (Some e). split; [done|]. split; [done|]. intros (H1 & H2 & _).
    rewrite (proj2 (checkUse_spec c node scope uses)) in E; done. }
  apply checkUse_spec in E as [H1 H2].
  destruct (check_enforced_spec c node scope extent uses (map_to_list (c_owners c))) as (r & Hr & Hiff).
  { intros key o Ho%elem_of_map_to_list. apply (inv_owners _ _ _ Hc key o Ho). }
  exists r. split; [done|]. rewrite Hiff. clear Hiff Hr.
  assert (Heq : denied_by_range c node scope extent uses ↔ ∃ key o s b held,
    (key, o) ∈ map_to_list (c_owners c) ∧ ok_node key = node ∧ ok_domain key = DomainEnforced
    ∧ live_session c (ok_session key) = Some s ∧ s_bindings s !! ok_owner key = Some b
    ∧ held ∈ os_ranges o ∧ refuses scope (ob_scope b) extent uses held = true).
  { unfold denied_by_range. by setoid_rewrite refuses_true; setoid_rewrite elem_of_map_to_list. }
  rewrite <- Heq. tauto.
Qed.

(** The first session's owner holds bytes 0-9 enforced against other writers. *)
Definition enforced_lock : list section :=
  two_owners ++
  [DoApply 1 7 1 1
    [{| rc_Domain := DomainEnforced; rc_Mode := RangeExclusive; rc_Range := mkRange Bytes 0 10 0;
        rc_Edit := AddExact; rc_Claim := EmptyString; rc_Wait := false;
        rc_Conversion := PreserveBeforeAcquire;
        rc_Policy := {| DenySelf := 0; DenyOthers := Z.lor ReadData WriteData |} |}]
    (example_id 1) 0%nat].

Lemma io_admission_exact_witness :
  ∃ r, CheckIO background (after enforced_lock) 7 (scope_of EmptyString) (mkRange Bytes 9 1 0) WriteData
       = Some r ∧ r ≠ None
    ∧ (r = None ↔ licensed (after enforced_lock) 7 (scope_of EmptyString) WriteData
        ∧ ¬ denied_by_use (after enforced_lock) 7 (scope_of EmptyString) WriteData
        ∧ ¬ denied_by_range (after enforced_lock) 7 (scope_of EmptyString) (mkRange Bytes 9 1 0) WriteData).
Proof.
  destruct (io_admission_exact background (after enforced_lock) 7 (scope_of EmptyString)
    (mkRange Bytes 9 1 0) WriteData (after_reachable _)) as (r & Hr & Hiff);
    [reflexivity..|discriminate|reflexivity|].
  exists r. split; [exact Hr|]. split; [|exact Hiff].
  vm_compute in Hr. injection Hr as <-. discriminate.
Defined.

(** ** Materialization *)

Lemma release_released handle c :
  c_reservations c !! handle = None → release_materialization handle c = Some (tt, c).
Proof. intros H. unfold release_materialization, bind, gets. by rewrite H. Qed.

(** Buffer space is accounted for exactly.  In every reachable state the
    bytes and the materializations counted are the outstanding reservations' and
    within their limits; a reservation that is granted fits, releasing it gives
    back exactly what it took whatever happened to the others meanwhile, and
    releasing it again changes nothing. *)
Theorem materialization_exact (ctx : context) (bytes : Z) (c : coordinator) :
  reachable c →
  c_materializations c = Z.of_nat (size (c_reservations c))
  ∧ c_materializedBytes c = msum (λ _ bytes, bytes) (c_reservations c)
  ∧ c_materializations c <= cfg_MaxMaterializations (c_config c)
  ∧ c_materializedBytes c <= cfg_MaxMaterializedBytes (c_config c)
  ∧ ∀ handle c1, AcquireMaterialization ctx bytes c = Some (Ok handle, c1) →
      c_materializedBytes c1 = c_materializedBytes c + bytes
      ∧ ∀ c2, c_reservations c2 !! handle = c_reservations c1 !! handle →
          ∃ c3, release_materialization handle c2 = Some (tt, c3)
                ∧ c_materializedBytes c3 = c_materializedBytes c2 - bytes
                ∧ c_materializations c3 = c_materializations c2 - 1
                ∧ release_materialization handle c3 = Some (tt, c3).
Proof.
  intros Hc%reachable_inv. destruct (inv_materializations _ _ _ Hc) as (M1 & M2 & M3 & M4 & M5).
  split_and!; try done. intros handle c1. unfold AcquireMaterialization.
  destruct (ctx 0%nat); [done|]. destruct (bytes <? 0); [done|]. unfold bind at 1, gets.
  destruct (_ <? bytes); [done|]. destruct (_ || _); [done|].
  unfold bind, modify, ret. simpl. intros [= <- <-]. simpl. rewrite lookup_insert_eq.
  split; [done|]. intros c2 Hc2. unfold release_materialization at 1, bind, gets, modify. rewrite Hc2.
  eexists. split; [reflexivity|]. split_and!; try done. apply release_released. apply lookup_delete_eq.
Qed.

(** A kilobyte taken and given back. *)
Lemma materialization_exact_witness :
  ∃ c1 c3, AcquireMaterialization background 1024 (after two_readers) = Some (Ok 0%nat, c1)
    ∧ release_materialization 0%nat c1 = Some (tt, c3)
    ∧ c_materializedBytes c3 = c_materializedBytes c1 - 1024
    ∧ release_materialization 0%nat c3 = Some (tt, c3).
Proof.
  destruct (AcquireMaterialization background 1024 (after two_readers)) as [[[h|e] c1]|] eqn:E;
    [|vm_compute in E; discriminate..].
  assert (h = 0%nat) as -> by (vm_compute in E; by injection E as <- _).
  destruct (materialization_exact background 1024 (after two_readers) (after_reachable _))
    as (_ & _ & _ & _ & H). destruct (H _ _ E) as [_ Hrel].
  destruct (Hrel c1 eq_refl) as (c3 & H1 & H2 & _ & H3). exists c1, c3. auto.
Defined.
